(* ===== verification/_CoqProject ===== *)
-Q . S2P
Prelude.v
RustStr.v
Addr.v
Trie.v
Rules.v
Router.v
Framing.v
Yamux.v
Smux.v
Xudp.v
Derp.v
DerpServer.v
IpText.v
F64.v
Outcome.v
Sniff.v
Wire.v
Packet.v
Fragment.v
Icmp.v
FakeIp.v
Hosts.v
DnsReply.v
TunPacket.v
TunStack.v
Tun.v
DnsCache.v
Resilience.v
NatTable.v
NatSteps.v
Auth.v
Security.v
Groups.v
Config.v
Outbounds.v
Srs.v
Provider.v
Traffic.v
ConnPool.v
Relay.v
Splice.v
Proc.v
Vless.v
Trojan.v
Socks5.v
HostPort.v
Resolver.v
Tracker.v
Dispatch.v
Http.v
Subscription.v
Chain.v
Polled.v
Shadowsocks.v
Vmess.v
Hysteria2.v
SingMux.v
MuxRuntime.v
Vision.v
