(* ===== verification/Prelude.v ===== *)
(** * OpenWorld: a verification library for the proxy kernel

    OpenWorld is a proxy kernel written in Rust.  Connections enter through an
    inbound, may be sniffed for their host name, are matched against a table of
    rules by the router, and leave through an outbound or a group of outbounds;
    names are resolved through a chain of DNS components; streams are carried
    over multiplexers and relays.  This library models the parts of the kernel
    that hold its own logic as executable definitions, translated function by
    function from the sources under [src/src/], and proves what makes them
    correct.

    ** The parts and their files

    - [Prelude]: results and errors, machine integers as [Z] with their wrap-
      around, bytes and big-endian integers, slices; [RustStr]: the string
      functions of the standard library (case, splitting, trimming, number
      parsing, UTF-8); [IpText]: reading and displaying addresses; [F64]:
      binary64 arithmetic on the specification floats, with the bound that keeps
      the jump hash of the load balancer going forward.
    - [Addr] ([common/addr.rs]): target addresses and their SOCKS5 and VLESS
      encodings, used by every protocol.
    - [Trie] ([router/trie.rs]), [Rules] ([router/rules.rs], [geosite.rs],
      [geoip.rs], [provider.rs]) and [Router] ([router/mod.rs]): the lookup
      structures, the rule language and the decision.  The router consults the
      domain trie, the prefix trie and a scan of the remaining rules.  [Srs]
      ([router/srs.rs]) reads binary rule sets; [Provider] ([router/provider.rs])
      has the text formats, the binary cache and the loading of rule providers,
      a client of [Srs] that meets what [Rules] asks of a provider.
    - [Outcome]: runs that find, miss, panic or exhaust their fuel.  [Sniff]
      ([proxy/sniff.rs]): the host name in the first bytes of a stream.
    - [Framing]: the loop that cuts frames from a byte stream and the interface
      [FrameCodec]; [Smux], [Xudp] and [Yamux] ([proxy/mux/]) are multiplexers,
      the first two clients of that interface; [SingMux] is the negotiated
      multiplexer with flow control, whose read side is that of [Smux];
      [MuxRuntime] ([mux/mod.rs], [h2mux.rs]) has the tasks that run them over a
      connection, once for yamux and h2mux over the interface [MuxCodec], and the
      manager that spreads streams over connections; [Derp] ([derp/protocol.rs])
      is the relay protocol and [DerpServer] ([derp/server.rs]) the tasks of its
      server, from the handshake on.
    - [FakeIp], [Hosts], [DnsCache] ([dns/]): the pool of fake addresses, the
      hosts table with the racing and family-preferring resolvers, and the cache
      with its single-flight table, all over the resolver interface of [Hosts].
      [Resolver] ([dns/resolver.rs], [dns/dhcp.rs]) builds the stack of split,
      fallback, hosts, fake-address and cache layers from the configuration.
    - The TUN device ([proxy/inbound/]): [Wire] (headers and checksums shared by
      the packet builders), [Packet] and [Fragment] ([tun_device.rs]: parsing,
      flow tables, policies, reassembly), [Icmp] ([icmp.rs]), [DnsReply]
      ([dns_hijack.rs], a client of the resolver interface), [TunPacket] and
      [TunStack] ([tun_stack.rs]: the user-space TCP stack), [Tun] ([tun.rs]: the
      packet loop over all of them).
    - Proxy protocols: [Proc] is the interface of a conversation on a stream
      (reads, writes, results); [Vless], [Trojan], [Socks5], [Hysteria2] are both
      ends of those protocols over it ([proxy/outbound/], [proxy/inbound/]), with
      the textual addresses of [HostPort]; [Vision] is the padded VLESS flow;
      [Http] is HTTP proxying and the mixed port over buffered readers; [Chain]
      ([outbound/chain.rs]) runs these protocols inside each other.
    - Encrypted protocols: [Polled] is the theory of stream wrappers that are
      polled over a connection which gives and takes any number of bytes;
      [Shadowsocks] and [Vmess] ([proxy/outbound/], [proxy/inbound/]) are both
      ends of those protocols, handshakes over [Proc] and streams over [Polled].
    - [NatTable] ([proxy/nat.rs] and the UDP path of [app/dispatcher.rs]): the
      full-cone UDP mapping, call by call; [NatSteps]: the locked sections of the
      forwarding tasks and of cleanups, interleaved.
    - [Groups] ([proxy/group/]): selectors, url-test, fallback, load-balancing,
      latency-weighted and sticky groups over a store of shared handlers.
    - [Config] ([config/types.rs]): the configuration, its alias normalisation
      and validation; [Subscription] ([config/subscription.rs]): share links and
      subscription documents; [Outbounds] ([app/outbound_manager.rs]): outbounds,
      chains and groups built from it, a client of [Groups].
    - [ConnPool] ([proxy/connection_pool.rs]): idle connections by target;
      [Traffic] ([common/traffic.rs]): token bucket, connection limit, counters;
      [Relay] ([proxy/relay.rs]): the copy loops and their buffer pool, [Splice]
      its zero-copy paths; [Tracker]
      ([app/tracker.rs]): the table of connections and their byte counts.
    - [Dispatch] ([app/dispatcher.rs], [clash_mode.rs], [common/error.rs]) is the
      composition: it sniffs ([Sniff]), maps fake addresses back ([FakeIp]),
      routes ([Router]), finds the outbound ([Outbounds]), asks its breaker
      ([Resilience]), relays ([Relay]) and accounts ([Tracker]); for UDP it goes
      through [NatTable].
    - [Resilience], [Auth], [Security] ([app/]): retries and circuit breaker,
      user authentication, the start-up audit.

    ** What the theorems show

    - Routing: the optimised lookup gives the answer of a linear scan of the
      rule table, both tries give the first (or longest) match, the rule parser
      terminates on nested rules; two theorems record where the code routes a
      session differently from what its comments promise.  With a configuration
      that validates and builds, every decision names an outbound that exists.
      The binary cache of a rule file does not show while the file is read the
      same way and the cache can be opened, and a provider whose load or refresh
      fails keeps the rules it has.  Share links read back as the outbound they
      were written for, for the protocols and texts that have such links.
    - Wire formats: SOCKS5, smux, XUDP, yamux and DERP decode what they encode,
      what they accept is the encoding of what they return, and the decoding
      loops terminate and lose nothing; the sniffer never panics on any input
      and finds the server name of every well-formed ClientHello; rule sets in
      the documented format read back as written, and no file makes the reader
      run on.
    - Conversations: a client and a server of the same protocol agree on the
      target and on where the payload starts, under every schedule of the two
      ends ([settles]) or however the network cuts the bytes; only known clients
      are served; what is written through a vision stream is what is read, when
      the connection takes every write whole.  A chain of VLESS (without that
      flow), Trojan and Tor proxies reaches the target through every hop.  After the
      handshake of Shadowsocks and of VMess (but for its method zero) each
      direction of the tunnel carries any data unchanged, however the connection
      cuts it.
    - Streams: a smux or sing-mux stream delivers exactly what was pushed for it,
      in order, under any interleaving of frames and reads; so do the streams of
      yamux and h2mux, for frames of the program's own writer, under any
      interleaving of arrivals, the reader task and the reads, and a full channel
      blocks them only until its stream is read; the counters of the
      manager are exact under concurrent calls; a yamux buffer is a queue; client stream
      identifiers are never reused while alive; the server of a multiplexer holds
      its stream limit.  The DERP server gives a client only packets that were sent to
      its key, with the proved key of their sender, and routes what the frames it
      read ask for.
    - Dispatch: the outbound sees the bytes of the client from the first sniffed
      byte on and the client those of the remote, in order; the tracker is
      charged with exactly these bytes; an outbound that cannot be used leaves
      the client untouched and one error counted.  The copy loop of a relay with
      statistics or limits keeps order and loses nothing but the write that
      failed; with statistics it ends when nothing disturbs it; its throttle only
      delays.  The tracker accounts for every byte reported.
    - TUN: fragments in any order give back the packet exactly when they cover
      it; hijacked queries and pings get replies that parse and whose checksums
      verify; segments in order are delivered in order, and acknowledged over IPv4;
      the loop ends exactly when told to.
    - DNS: the FakeIP maps are inverse to each other under every interleaving of
      concurrent allocations; the cache stays within its bound, has one leader
      per query and remembers what it resolved; every answer of the whole stack
      comes from a source the configuration names for it.
    - State machines: the NAT table is full cone and cleans up exactly the idle
      flows, call by call; under concurrent tasks it sends every packet through a
      transport of its own client and stays full cone but for two races it names;
      the circuit breaker holds its open period and opens at its
      threshold; retries follow their schedule.
    - Groups: once built, groups never panic and every connection ends at an
      outbound the configuration reaches, whatever operations came before; the
      consistent hash finishes, stays in range and moves keys only to a new
      bucket; the url-test choice respects its tolerance; round robin is fair;
      nesting is accepted exactly up to its depth.
    - Resources: a pooled connection has one owner or one place in the pool; a
      rate limiter grants no more than its bucket and its rate allow; the
      connection limiter counts its guards.

    ** Conventions

    A [u<w>] is a [Z] in [0, 2^w); arithmetic that wraps in a release build is
    written with [wrap], saturating and checked operations as such.  Panics are
    values ([None], [Panic]) where a theorem excludes them.  Clock readings,
    random numbers and the outcome of I/O are arguments.  A lock-protected
    section or an atomic operation is one step; concurrent calls are step
    relations over the steps of all tasks.  Channels are bounded queues.  A
    stream is a queue of bytes, or the list of pieces its reads return where the
    code depends on how the network cuts it; a conversation ends with an end of
    file where its peer failed.  What a [select] loop does is a script of turns,
    one completed branch each, and the theorems hold for every script.

    Code outside the repository is a parameter: [ipnet] networks and the regular
    expressions and database readers of the rules are classes with the laws the
    router needs, an upstream resolver is a function from names to answers, the
    standard library's unspecified hash function, [powf] and the URL parser are
    fields of the environment of the groups; hashes, AEAD ciphers and Base64
    are functions with their documented laws; the answers of a web server are a
    function of the request, and a file system is a map of paths.

    Fuel: the frame loop takes one unit per byte of the buffer, and a frame is
    never empty; the rule parser takes the length of the longest value, and a
    nested rule is strictly shorter; the sniffer's loops take one unit more than
    the bytes they walk over; the jump hash takes one unit more than its
    buckets, and the jump is strictly upwards; a connection through groups takes
    one unit more than the index of the group, and members have lower indices;
    nesting validation takes two units more than its depth limit; the loops of
    the rule-set reader take one unit more than the bytes left, and each turn
    reads at least one; folding a checksum takes three turns; the names of a DNS
    query one unit per byte and one more; unpadding two units per byte and one
    more; the receive loop of VLESS two turns per packet; a throttled write 1001
    sleeps per byte; the headers of an HTTP request one unit per byte and one
    more; a poll of an encrypted stream one unit per byte and two more, a write
    one per byte and per pending poll; the Shadowsocks key one unit per byte; the
    readers of the binary rule cache one unit per byte.  In each case a theorem says that the fuel suffices.

    ** Not modelled

    Sockets, TLS and the transports over third-party crates, ciphers, the
    operating-system glue, the HTTP API, configuration deserialisation, the
    plugin runtime and the background timers.  The conversion of whole
    configurations from other formats would be the next part to model. *)

From stdpp Require Export base gmap strings list fin_maps.
From Stdlib Require Export ZArith Lia.
From Stdlib Require Ascii String Strings.Byte.

Open Scope Z_scope.

(** ** Results

    Rust's [Result<T, E>], with the error type of each component. *)

Inductive result (E A : Type) : Type :=
| Ok (a : A)
| Err (e : E).
Arguments Ok {E A} a.
Arguments Err {E A} e.

Definition bind_result {E A B} (c : result E A) (k : A → result E B) : result E B :=
  match c with
  | Ok a => k a
  | Err e => Err e
  end.

Declare Scope rust_scope.
Delimit Scope rust_scope with rust.
Notation "'let?' x ':=' c 'in' k" := (bind_result c (fun x => k))
  (at level 10, x binder, c at level 100, k at level 200) : rust_scope.
Open Scope rust_scope.

(** The [?] after an iterator of results: the first error wins. *)
Fixpoint collect_results {E A} (l : list (result E A)) : result E (list A) :=
  match l with
  | [] => Ok []
  | r :: l => let? a := r in let? rest := collect_results l in Ok (a :: rest)
  end.

Definition is_ok {E A} (r : result E A) : bool :=
  match r with Ok _ => true | Err _ => false end.

Definition result_to_option {E A} (r : result E A) : option A :=
  match r with Ok a => Some a | Err _ => None end.

(** ** Machine integers

    A value of the Rust type [u<w>] is a [Z] in [0, 2^w). *)

Definition in_width (w z : Z) : Prop := 0 <= z < 2 ^ w.
Abbreviation u8_ok := (in_width 8).
Abbreviation u16_ok := (in_width 16).
Abbreviation u32_ok := (in_width 32).
Abbreviation u64_ok := (in_width 64).

(** [as u<w>], [wrapping_add], [wrapping_mul], [fetch_add]: modulo 2^w. *)
Definition wrap (w z : Z) : Z := z mod 2 ^ w.
Definition u8_max : Z := 2 ^ 8 - 1.
Definition u32_max : Z := 2 ^ 32 - 1.
Definition u64_max : Z := 2 ^ 64 - 1.
Definition saturating_add (w a b : Z) : Z := Z.min (a + b) (2 ^ w - 1).
Definition saturating_mul (w a b : Z) : Z := Z.min (a * b) (2 ^ w - 1).
Definition saturating_sub (a b : Z) : Z := Z.max (a - b) 0.

(** ** Bytes *)

Abbreviation byte := Byte.byte.
Abbreviation bytes := (list Byte.byte).

Definition byte_to_Z (b : byte) : Z := Z.of_N (Byte.to_N b).
Definition byte_of_Z (z : Z) : byte :=
  match Byte.of_N (Z.to_N (z mod 256)) with
  | Some b => b
  | None => Byte.x00
  end.

#[export] Instance byte_eq_dec : EqDecision byte := Byte.byte_eq_dec.

(** [to_be_bytes] and [from_be_bytes] of an [n]-byte integer. *)
Fixpoint to_be_bytes (n : nat) (z : Z) : bytes :=
  match n with
  | O => []
  | S n => byte_of_Z (z / 256 ^ Z.of_nat n) :: to_be_bytes n z
  end.

Definition from_be_bytes (l : bytes) : Z :=
  fold_left (fun acc b => acc * 256 + byte_to_Z b) l 0.

(** [data[i]] read with 0 outside the slice: every use in the models below is
    behind the length test the source makes. *)
Definition byte_at (data : bytes) (i : nat) : byte := default Byte.x00 (data !! i).
Definition slice (data : bytes) (from to : nat) : bytes := take (to - from) (drop from data).
Definition len (data : bytes) : Z := Z.of_nat (length data).

(** ** Automation *)

Create HintDb rust.

Ltac destr_match :=
  match goal with
  | |- context [match ?x with _ => _ end] => destruct x eqn:?
  | H : context [match ?x with _ => _ end] |- _ => destruct x eqn:?
  end.
(** Turn boolean tests in the context and the goal into propositions. *)
Ltac bool_prop :=
  repeat match goal with
  | H : (_ && _) = true |- _ => apply andb_true_iff in H; destruct H
  | H : (_ || _) = false |- _ => apply orb_false_iff in H; destruct H
  | H : negb _ = true |- _ => apply negb_true_iff in H
  | H : negb _ = false |- _ => apply negb_false_iff in H
  | H : (_ <? _) = true |- _ => apply Z.ltb_lt in H
  | H : (_ <? _) = false |- _ => apply Z.ltb_ge in H
  | H : (_ <=? _) = true |- _ => apply Z.leb_le in H
  | H : (_ <=? _) = false |- _ => apply Z.leb_gt in H
  | H : (_ =? _) = true |- _ => apply Z.eqb_eq in H
  | H : (_ =? _) = false |- _ => apply Z.eqb_neq in H
  | H : (_ =? _)%string = true |- _ => apply String.eqb_eq in H
  | H : (_ =? _)%string = false |- _ => apply String.eqb_neq in H
  | H : bool_decide _ = true |- _ => apply bool_decide_eq_true in H
  | H : bool_decide _ = false |- _ => apply bool_decide_eq_false in H
  end.

(** ** Lemmas on results and integers *)

Lemma bind_Ok {E A B} (c : result E A) (k : A → result E B) b :
  bind_result c k = Ok b → ∃ a, c = Ok a ∧ k a = Ok b.
Proof. destruct c; simpl; [eauto | discriminate]. Qed.

Lemma collect_results_Ok {E A} (l : list (result E A)) l' :
  collect_results l = Ok l' ↔ Forall2 (fun r a => r = Ok a) l l'.
Proof.
  revert l'; induction l as [|r l IH]; intros l'; simpl.
  - split; [intros H; inv H; constructor | intros H; inv H; done].
  - split.
    + intros (a & -> & H)%bind_Ok. apply bind_Ok in H as (l2 & H & [= <-]).
      constructor; [done | by apply IH].
    + intros H; inv H. simpl. match goal with H : Forall2 _ _ _ |- _ => apply IH in H; rewrite H end.
      done.
Qed.

Lemma wrap_small w z : in_width w z → wrap w z = z.
Proof. intros H. by apply Z.mod_small. Qed.

Lemma wrap_add_l w a b : wrap w (wrap w a + b) = wrap w (a + b).
Proof. unfold wrap. apply Zplus_mod_idemp_l. Qed.
Lemma wrap_range w z : 0 <= w → in_width w (wrap w z).
Proof. intros H. apply Z.mod_pos_bound. by apply Z.pow_pos_nonneg. Qed.
#[export] Hint Resolve wrap_range : rust.

Lemma in_width_testbit_high w z i : 0 <= w → in_width w z → w <= i → Z.testbit z i = false.
Proof.
  intros Hw Hz Hi. rewrite <- (Z.mod_small z (2 ^ w)) by exact Hz.
  apply Z.mod_pow2_bits_high. lia.
Qed.

(** ** Lemmas on bytes *)

(** Bits below [2 ^ s] and bits above it do not meet. *)
Lemma land_low_high x y k : 0 <= x < 2 ^ k → 0 <= k → Z.land x (Z.shiftl y k) = 0.
Proof.
  intros Hx Hk. apply Z.bits_inj'. intros n Hn. rewrite Z.land_spec, Z.bits_0, Z.shiftl_spec by done.
  destruct (Z.lt_ge_cases n k) as [Hlt|Hge].
  - rewrite (Z.testbit_neg_r y) by lia. apply andb_false_r.
  - destruct (Z.eq_dec x 0) as [->|Hne]; [by rewrite Z.testbit_0_l|].
    rewrite (Z.bits_above_log2 x), andb_false_l; [done | lia |].
    apply Z.lt_le_trans with k; [|done]. apply Z.log2_lt_pow2; lia.
Qed.

Lemma lor_add acc x s : 0 <= acc < 2 ^ s → 0 <= s → Z.lor acc (x * 2 ^ s) = acc + x * 2 ^ s.
Proof.
  intros Ha Hs. rewrite <- Z.shiftl_mul_pow2 by done.
  pose proof (land_low_high acc x s Ha Hs) as Hl.
  by rewrite <- Z.lxor_lor, Z.add_nocarry_lxor by done.
Qed.

Lemma byte_to_Z_range b : 0 <= byte_to_Z b < 256.
Proof.
  unfold byte_to_Z. pose proof (Byte.to_N_bounded b). lia.
Qed.

Lemma byte_to_of_Z z : byte_to_Z (byte_of_Z z) = z mod 256.
Proof.
  unfold byte_to_Z, byte_of_Z.
  pose proof (Z.mod_pos_bound z 256 ltac:(lia)).
  destruct (Byte.of_N (Z.to_N (z mod 256))) as [b|] eqn:E.
  - apply Byte.to_of_N in E. rewrite E. lia.
  - apply Byte.of_N_None_iff in E. lia.
Qed.

Lemma byte_of_to_Z b : byte_of_Z (byte_to_Z b) = b.
Proof.
  unfold byte_of_Z, byte_to_Z. pose proof (Byte.to_N_bounded b).
  rewrite Z.mod_small, N2Z.id by lia. by rewrite Byte.of_to_N.
Qed.

Lemma byte_to_Z_inj b c : byte_to_Z b = byte_to_Z c → b = c.
Proof. intros H. rewrite <- (byte_of_to_Z b), H. apply byte_of_to_Z. Qed.

Lemma byte_to_of_small z : u8_ok z → byte_to_Z (byte_of_Z z) = z.
Proof. intros H. rewrite byte_to_of_Z. by apply Z.mod_small. Qed.

Lemma length_to_be_bytes n z : length (to_be_bytes n z) = n.
Proof. induction n; simpl; congruence. Qed.

Lemma fold_be_acc l acc :
  fold_left (fun a b => a * 256 + byte_to_Z b) l acc
  = acc * 256 ^ Z.of_nat (length l) + from_be_bytes l.
Proof.
  unfold from_be_bytes. revert acc. induction l as [|b l IH]; intros acc.
  - simpl. lia.
  - cbn [fold_left length]. rewrite IH, (IH (0 * 256 + byte_to_Z b)).
    rewrite Nat2Z.inj_succ, Z.pow_succ_r by lia. lia.
Qed.

Lemma from_be_bytes_cons b l :
  from_be_bytes (b :: l) = byte_to_Z b * 256 ^ Z.of_nat (length l) + from_be_bytes l.
Proof. unfold from_be_bytes at 1. cbn [fold_left]. rewrite fold_be_acc. lia. Qed.

Lemma from_be_bytes_range l : 0 <= from_be_bytes l < 256 ^ Z.of_nat (length l).
Proof.
  induction l as [|b l IH]; [cbv; split; [discriminate | reflexivity] |].
  rewrite from_be_bytes_cons. pose proof (byte_to_Z_range b).
  cbn [length]. rewrite Nat2Z.inj_succ, Z.pow_succ_r by lia. nia.
Qed.

Lemma from_to_be_bytes_mod n z : from_be_bytes (to_be_bytes n z) = z mod 256 ^ Z.of_nat n.
Proof.
  induction n as [|n IH]; [by rewrite Z.mod_1_r |].
  cbn [to_be_bytes]. rewrite from_be_bytes_cons, length_to_be_bytes, IH, byte_to_of_Z.
  rewrite Nat2Z.inj_succ, Z.pow_succ_r, Z.mul_comm by lia.
  rewrite (Z.mul_comm 256), Z.rem_mul_r by (try apply Z.pow_nonzero; lia). lia.
Qed.

Lemma from_to_be_bytes n z :
  0 <= z < 256 ^ Z.of_nat n → from_be_bytes (to_be_bytes n z) = z.
Proof. intros H. rewrite from_to_be_bytes_mod. by apply Z.mod_small. Qed.

Lemma from_to_be_2 z : u16_ok z → from_be_bytes (to_be_bytes 2 z) = z.
Proof. intros H. apply from_to_be_bytes. exact H. Qed.

Lemma from_to_be_4 z : u32_ok z → from_be_bytes (to_be_bytes 4 z) = z.
Proof. intros H. apply from_to_be_bytes. exact H. Qed.

Lemma to_be_bytes_wrap n z : to_be_bytes n (z mod 256 ^ Z.of_nat n) = to_be_bytes n z.
Proof.
  enough (Hgen : ∀ m, (n ≤ m)%nat → to_be_bytes n (z mod 256 ^ Z.of_nat m) = to_be_bytes n z)
    by (by apply Hgen).
  induction n as [|n IH]; intros m Hm; [done|]. cbn [to_be_bytes]. f_equal; [|apply IH; lia].
  apply byte_to_Z_inj. rewrite !byte_to_of_Z.
  replace (256 ^ Z.of_nat m)
    with (256 ^ Z.of_nat n * (256 * 256 ^ Z.of_nat (m - S n)))
    by (rewrite <- Z.pow_succ_r, <- Z.pow_add_r by lia; f_equal; lia).
  rewrite Z.rem_mul_r by (try apply Z.neq_mul_0; try split; try apply Z.pow_nonzero; lia).
  rewrite (Z.mul_comm (256 ^ Z.of_nat n)), Z.div_add by (apply Z.pow_nonzero; lia).
  rewrite (Z.div_small (z mod _)) by (apply Z.mod_pos_bound, Z.pow_pos_nonneg; lia).
  rewrite Z.add_0_l, Z.rem_mul_r by (try apply Z.pow_nonzero; lia).
  rewrite (Z.mul_comm 256), Z.mod_add by lia. by rewrite Z.mod_mod by lia.
Qed.

Lemma to_from_be_bytes l : to_be_bytes (length l) (from_be_bytes l) = l.
Proof.
  induction l as [|b l IH]; [done|]. cbn [length to_be_bytes]. rewrite from_be_bytes_cons.
  pose proof (from_be_bytes_range l) as Hr. pose proof (Z.pow_pos_nonneg 256 (Z.of_nat (length l))).
  f_equal.
  - rewrite Z.div_add_l, (Z.div_small (from_be_bytes l)), Z.add_0_r by lia. apply byte_of_to_Z.
  - transitivity (to_be_bytes (length l) (from_be_bytes l)); [|exact IH].
    rewrite <- (to_be_bytes_wrap _ (_ + _)). f_equal.
    rewrite (Z.add_comm (_ * _)), Z.mod_add by lia. by apply Z.mod_small.
Qed.

Create Rewrite HintDb rust_rw.
#[export] Hint Rewrite length_to_be_bytes byte_to_of_Z byte_of_to_Z : rust_rw.

Lemma len_nonneg l : 0 <= len l.
Proof. unfold len; lia. Qed.
#[export] Hint Resolve len_nonneg byte_to_Z_range : rust.

(** ** Reading back fields of a frame *)

Lemma byte_at_app_r p q i : byte_at (p ++ q) (length p + i) = byte_at q i.
Proof. unfold byte_at. rewrite lookup_app_r by lia. do 2 f_equal. lia. Qed.

Lemma byte_at_app_l p q i : (i < length p)%nat → byte_at (p ++ q) i = byte_at p i.
Proof. intros H. unfold byte_at. by rewrite lookup_app_l. Qed.

Lemma byte_at_app_0 p q : byte_at (p ++ q) (length p) = byte_at q 0.
Proof. rewrite <- (Nat.add_0_r (length p)). apply byte_at_app_r. Qed.

Lemma byte_at_mid pre b rest i : i = length pre → byte_at (pre ++ b :: rest) i = b.
Proof. intros ->. by rewrite byte_at_app_0. Qed.

Lemma slice_mid pre m rest i j :
  i = length pre → j = (length pre + length m)%nat → slice (pre ++ m ++ rest) i j = m.
Proof.
  intros -> ->. unfold slice. rewrite drop_app_length.
  replace (length pre + length m - length pre)%nat with (length m) by lia.
  apply take_app_length.
Qed.

Lemma length_slice data i j :
  (i <= j)%nat → (j <= length data)%nat → length (slice data i j) = (j - i)%nat.
Proof. intros. unfold slice. rewrite length_take, length_drop. lia. Qed.

(** Cut or filled with zeros to a length. *)
Definition padded (n : nat) (b : bytes) : bytes := take n (b ++ replicate n Byte.x00).
Lemma length_padded n b : length (padded n b) = n.
Proof. unfold padded. rewrite length_take, length_app, length_replicate. lia. Qed.

(** Two (four) consecutive bytes of a frame hold the field written there. *)
Lemma be2_at pre z rest i j :
  i = length pre → j = S (length pre) → u16_ok z →
  from_be_bytes [byte_at (pre ++ to_be_bytes 2 z ++ rest) i;
                 byte_at (pre ++ to_be_bytes 2 z ++ rest) j] = z.
Proof.
  intros -> -> Hz. replace (S (length pre)) with (length pre + 1)%nat by lia.
  rewrite byte_at_app_0, byte_at_app_r. exact (from_to_be_2 z Hz).
Qed.

Lemma be4_at pre z rest i1 i2 i3 i4 :
  i1 = length pre → i2 = (length pre + 1)%nat → i3 = (length pre + 2)%nat →
  i4 = (length pre + 3)%nat → u32_ok z →
  from_be_bytes [byte_at (pre ++ to_be_bytes 4 z ++ rest) i1;
                 byte_at (pre ++ to_be_bytes 4 z ++ rest) i2;
                 byte_at (pre ++ to_be_bytes 4 z ++ rest) i3;
                 byte_at (pre ++ to_be_bytes 4 z ++ rest) i4] = z.
Proof.
  intros -> -> -> -> Hz. rewrite byte_at_app_0, !byte_at_app_r. exact (from_to_be_4 z Hz).
Qed.

(** Conversely, the bytes of a long enough frame are its fields. *)
Lemma lookup_byte_at data i : (i < length data)%nat → data !! i = Some (byte_at data i).
Proof.
  intros H. unfold byte_at. destruct (data !! i) eqn:E; [done|].
  apply lookup_ge_None in E. lia.
Qed.

Lemma slice_cons data i j :
  (i < j)%nat → (i < length data)%nat → slice data i j = byte_at data i :: slice data (S i) j.
Proof.
  intros Hij Hi. unfold slice. rewrite (drop_S data (byte_at data i)) by (by apply lookup_byte_at).
  replace (j - i)%nat with (S (j - S i)) by lia. done.
Qed.

Lemma slice_nil data i : slice data i i = [].
Proof. unfold slice. by rewrite Nat.sub_diag. Qed.

Lemma take_slice data i j :
  (i <= j)%nat → take j data = take i data ++ slice data i j.
Proof.
  intros H. unfold slice. rewrite take_take_drop. f_equal. lia.
Qed.

Lemma to_from_be_bytes' n l : length l = n → to_be_bytes n (from_be_bytes l) = l.
Proof. intros <-. apply to_from_be_bytes. Qed.
Lemma from_be_bytes_ok w l : w = 8 * Z.of_nat (length l) → in_width w (from_be_bytes l).
Proof.
  intros ->. unfold in_width. rewrite Z.pow_mul_r by lia. apply from_be_bytes_range.
Qed.
Lemma slice_two data i : (S i < length data)%nat →
  slice data i (i + 2) = [byte_at data i; byte_at data (S i)].
Proof.
  intros H. rewrite slice_cons, slice_cons by lia. do 2 f_equal.
  replace (i + 2)%nat with (S (S i)) by lia. apply slice_nil.
Qed.
Lemma take_one (b : byte) l : take 1 (b :: l) = [b].
Proof. done. Qed.
Lemma to_from_be2 a b : to_be_bytes 2 (from_be_bytes [a; b]) = [a; b].
Proof. exact (to_from_be_bytes [a; b]). Qed.
Lemma to_from_be4 a b c d : to_be_bytes 4 (from_be_bytes [a; b; c; d]) = [a; b; c; d].
Proof. exact (to_from_be_bytes [a; b; c; d]). Qed.
Lemma from_be2_ok a b : u16_ok (from_be_bytes [a; b]).
Proof. exact (from_be_bytes_range [a; b]). Qed.
Lemma from_be4_ok a b c d : u32_ok (from_be_bytes [a; b; c; d]).
Proof. exact (from_be_bytes_range [a; b; c; d]). Qed.
#[export] Hint Resolve from_be2_ok from_be4_ok : rust.
