(* ===== verification/RustStr.v ===== *)
(** * The string functions of the Rust standard library the kernel uses

    A Rust [String] is its sequence of bytes, a Rocq [string].  Case mapping and
    white space are modelled on the ASCII characters; every other byte is left as
    it is (non-ASCII case mapping and non-ASCII white space are outside the model). *)

From Stdlib Require Import Ascii.
From S2P Require Import Prelude.

Local Open Scope string_scope.
Local Open Scope list_scope.
Local Open Scope Z_scope.

Definition ascii_code (a : Ascii.ascii) : Z := Z.of_N (Ascii.N_of_ascii a).
Definition ascii_shift (a : Ascii.ascii) (d : Z) : Ascii.ascii :=
  Ascii.ascii_of_N (Z.to_N (ascii_code a + d)).

Definition lower_char (a : Ascii.ascii) : Ascii.ascii :=
  if (65 <=? ascii_code a) && (ascii_code a <=? 90) then ascii_shift a 32 else a.
Definition upper_char (a : Ascii.ascii) : Ascii.ascii :=
  if (97 <=? ascii_code a) && (ascii_code a <=? 122) then ascii_shift a (-32) else a.

Fixpoint string_map (f : Ascii.ascii → Ascii.ascii) (s : string) : string :=
  match s with
  | "" => ""
  | String a s => String (f a) (string_map f s)
  end.

Definition to_lowercase : string → string := string_map lower_char.
Definition to_uppercase : string → string := string_map upper_char.
Definition eq_ignore_ascii_case (s t : string) : bool :=
  String.eqb (to_lowercase s) (to_lowercase t).

(** [str::starts_with], [strip_prefix], [ends_with], [contains]. *)
Fixpoint strip_prefix (p s : string) : option string :=
  match p, s with
  | "", _ => Some s
  | String a p, String b s => if Ascii.eqb a b then strip_prefix p s else None
  | String _ _, "" => None
  end.
Definition starts_with (p s : string) : bool :=
  match strip_prefix p s with Some _ => true | None => false end.
Fixpoint ends_with (suf s : string) : bool :=
  String.eqb s suf || match s with "" => false | String _ t => ends_with suf t end.
Fixpoint contains (pat s : string) : bool :=
  starts_with pat s || match s with "" => false | String _ t => contains pat t end.

(** [str::split(c)]: never empty. *)
Fixpoint split_on (c : Ascii.ascii) (s : string) : list string :=
  match s with
  | "" => [""]
  | String a t =>
      if Ascii.eqb a c then "" :: split_on c t
      else match split_on c t with
           | [] => [String a ""]
           | h :: r => String a h :: r
           end
  end.

(** [str::split_once(c)] and [rsplit_once(c)]. *)
Fixpoint split_once (c : Ascii.ascii) (s : string) : option (string * string) :=
  match s with
  | "" => None
  | String a t =>
      if Ascii.eqb a c then Some ("", t)
      else match split_once c t with
           | Some (h, r) => Some (String a h, r)
           | None => None
           end
  end.
Fixpoint rsplit_once (c : Ascii.ascii) (s : string) : option (string * string) :=
  match s with
  | "" => None
  | String a t =>
      match rsplit_once c t with
      | Some (h, r) => Some (String a h, r)
      | None => if Ascii.eqb a c then Some ("", t) else None
      end
  end.

(** [str::trim], [split_whitespace] and [lines]. *)
Definition is_whitespace (a : Ascii.ascii) : bool :=
  let n := ascii_code a in ((9 <=? n) && (n <=? 13)) || (n =? 32).
Fixpoint trim_start (s : string) : string :=
  match s with
  | String a t => if is_whitespace a then trim_start t else s
  | "" => ""
  end.
Fixpoint trim_end (s : string) : string :=
  match s with
  | "" => ""
  | String a t =>
      match trim_end t with
      | "" => if is_whitespace a then "" else String a ""
      | t' => String a t'
      end
  end.
Definition trim (s : string) : string := trim_end (trim_start s).

(** [trim_start_matches], [trim_end_matches] and [trim_matches] of a character. *)
Fixpoint trim_start_matches (c : Ascii.ascii) (s : string) : string :=
  match s with
  | String a t => if Ascii.eqb a c then trim_start_matches c t else s
  | "" => ""
  end.
Fixpoint trim_end_matches (c : Ascii.ascii) (s : string) : string :=
  match s with
  | "" => ""
  | String a t =>
      match trim_end_matches c t with
      | "" => if Ascii.eqb a c then "" else String a ""
      | t' => String a t'
      end
  end.
Definition trim_matches (c : Ascii.ascii) (s : string) : string := trim_end_matches c (trim_start_matches c s).

Fixpoint split_ws_raw (s : string) : list string :=
  match s with
  | "" => [""]
  | String a t =>
      if is_whitespace a then "" :: split_ws_raw t
      else match split_ws_raw t with
           | [] => [String a ""]
           | h :: r => String a h :: r
           end
  end.
Definition split_whitespace (s : string) : list string :=
  filter (fun w => w ≠ "") (split_ws_raw s).

Definition LF : Ascii.ascii := Ascii.ascii_of_nat 10.
Definition CR : string := String (Ascii.ascii_of_nat 13) "".
Fixpoint strip_suffix_cr (s : string) : string :=
  match s with
  | "" => ""
  | String a t => if String.eqb s CR then "" else String a (strip_suffix_cr t)
  end.
Definition lines (s : string) : list string :=
  let parts := split_on LF s in
  let parts := if bool_decide (last parts = Some "") then removelast parts else parts in
  strip_suffix_cr <$> parts.

(** [str::parse] of an unsigned integer of [w] bits: digits with an optional
    leading plus sign, refused when empty or when the value does not fit. *)
Definition digit_value (a : Ascii.ascii) : option Z :=
  let n := ascii_code a in if (48 <=? n) && (n <=? 57) then Some (n - 48) else None.
Fixpoint parse_digits (acc : Z) (s : string) : option Z :=
  match s with
  | "" => Some acc
  | String a t => d ← digit_value a; parse_digits (acc * 10 + d) t
  end.
Definition parse_uint (w : Z) (s : string) : option Z :=
  let body := match s with String "+"%char t => t | _ => s end in
  match body with
  | "" => None
  | _ => v ← parse_digits 0 body; if v <? 2 ^ w then Some v else None
  end.

Lemma parse_digits_nonneg acc s v : 0 <= acc → parse_digits acc s = Some v → 0 <= v.
Proof.
  revert acc. induction s as [|a s IH]; simpl; intros acc Hacc H; [by simplify_eq|].
  apply bind_Some in H as (d & Hd & H). apply (IH _) in H; [done|].
  unfold digit_value in Hd. destruct (_ && _) eqn:E; [|done]. injection Hd as <-.
  apply andb_true_iff in E as [E _]. apply Z.leb_le in E. lia.
Qed.

Lemma parse_uint_range w s v : parse_uint w s = Some v → in_width w v.
Proof.
  unfold parse_uint. set (body := match s with String "+"%char t => t | _ => s end).
  clearbody body. destruct body as [|a t]; [done|]. intros (n & Hn & H)%bind_Some.
  destruct (n <? 2 ^ w) eqn:E; [|done]. injection H as <-. apply Z.ltb_lt in E.
  split; [by eapply parse_digits_nonneg | done].
Qed.

(** ** UTF-8

    [utf8_next] reads the sequence that starts with [b]: the number of bytes it
    takes and whether they encode a character (the ranges of
    [core::str::validations]). *)
Definition in_range (lo hi : Z) (b : byte) : bool :=
  (lo <=? byte_to_Z b) && (byte_to_Z b <=? hi).
Definition is_cont (b : byte) : bool := in_range 128 191 b.

(** After the first byte: the range of the second byte and how many
    continuation bytes follow it. *)
Definition utf8_lead (b : byte) : option (Z * Z * nat) :=
  let z := byte_to_Z b in
  if in_range 194 223 b then Some (128, 191, 0%nat)
  else if z =? 224 then Some (160, 191, 1%nat)
  else if z =? 237 then Some (128, 159, 1%nat)
  else if in_range 225 239 b then Some (128, 191, 1%nat)
  else if z =? 240 then Some (144, 191, 2%nat)
  else if in_range 241 243 b then Some (128, 191, 2%nat)
  else if z =? 244 then Some (128, 143, 2%nat)
  else None.

Fixpoint utf8_conts (seen n : nat) (rest : bytes) : nat * bool :=
  match n with
  | O => (seen, true)
  | S n =>
      match rest with
      | b :: rest => if is_cont b then utf8_conts (S seen) n rest else (seen, false)
      | [] => (seen, false)
      end
  end.

Definition utf8_next (b : byte) (rest : bytes) : nat * bool :=
  if byte_to_Z b <? 128 then (1%nat, true)
  else match utf8_lead b with
       | None => (1%nat, false)
       | Some (lo, hi, n) =>
           match rest with
           | c :: rest => if in_range lo hi c then utf8_conts 2 n rest else (1%nat, false)
           | [] => (1%nat, false)
           end
       end.

Fixpoint utf8_valid_fuel (fuel : nat) (l : bytes) : bool :=
  match l, fuel with
  | [], _ => true
  | b :: rest, S fuel =>
      match utf8_next b rest with
      | (n, true) => utf8_valid_fuel fuel (drop n l)
      | (_, false) => false
      end
  | _ :: _, O => false
  end.
Definition utf8_valid (l : bytes) : bool := utf8_valid_fuel (length l) l.

(** [String::from_utf8_lossy]: each maximal invalid sequence becomes U+FFFD. *)
Definition replacement : bytes := [Byte.xef; Byte.xbf; Byte.xbd].
Fixpoint from_utf8_lossy_fuel (fuel : nat) (l : bytes) : bytes :=
  match l, fuel with
  | [], _ => []
  | b :: rest, S fuel =>
      match utf8_next b rest with
      | (n, true) => take n l ++ from_utf8_lossy_fuel fuel (drop n l)
      | (n, false) => replacement ++ from_utf8_lossy_fuel fuel (drop n l)
      end
  | _ :: _, O => []
  end.

Definition as_bytes (s : string) : bytes := String.list_byte_of_string s.
Definition of_bytes (l : bytes) : string := String.string_of_list_byte l.
Definition from_utf8 (l : bytes) : option string :=
  if utf8_valid l then Some (of_bytes l) else None.
Definition from_utf8_lossy (l : bytes) : string := of_bytes (from_utf8_lossy_fuel (length l) l).
Definition str_len (s : string) : Z := Z.of_nat (String.length s).
(** The invariant of [String]. *)
Definition str_ok (s : string) : Prop := utf8_valid (as_bytes s) = true.

(** ** Bytes of a string *)

Lemma of_as_bytes s : of_bytes (as_bytes s) = s.
Proof. apply String.string_of_list_byte_of_string. Qed.

Lemma as_of_bytes l : as_bytes (of_bytes l) = l.
Proof. apply String.list_byte_of_string_of_list_byte. Qed.

Lemma as_bytes_inj s t : as_bytes s = as_bytes t → s = t.
Proof. intros H. by rewrite <- (of_as_bytes s), H, of_as_bytes. Qed.

Lemma length_as_bytes s : length (as_bytes s) = String.length s.
Proof.
  unfold as_bytes, String.list_byte_of_string. rewrite length_map.
  induction s; simpl; congruence.
Qed.

Lemma len_as_bytes s : len (as_bytes s) = str_len s.
Proof. unfold len, str_len. by rewrite length_as_bytes. Qed.

Lemma from_utf8_as_bytes s : str_ok s → from_utf8 (as_bytes s) = Some s.
Proof. unfold from_utf8, str_ok. intros ->. by rewrite of_as_bytes. Qed.

Lemma from_utf8_Some l s : from_utf8 l = Some s → str_ok s ∧ as_bytes s = l.
Proof.
  unfold from_utf8, str_ok. destruct (utf8_valid l) eqn:E; [|done]. intros [= <-].
  by rewrite as_of_bytes.
Qed.

Lemma utf8_conts_le k n l : (fst (utf8_conts k n l) <= k + length l)%nat.
Proof.
  revert k l; induction n as [|n IH]; intros k l; simpl; [lia|].
  destruct l as [|b l]; simpl; [lia|]. destruct (is_cont b); simpl; [|lia].
  specialize (IH (S k) l). lia.
Qed.

Lemma utf8_conts_ge k n l : (k <= fst (utf8_conts k n l))%nat.
Proof.
  revert k l; induction n as [|n IH]; intros k l; simpl; [lia|].
  destruct l as [|b l]; simpl; [lia|]. destruct (is_cont b); simpl; [|lia].
  specialize (IH (S k) l). lia.
Qed.

Lemma utf8_next_bounds b rest :
  (1 <= fst (utf8_next b rest) <= S (length rest))%nat.
Proof.
  unfold utf8_next. destruct (_ <? _); simpl; [lia|].
  destruct (utf8_lead b) as [[[lo hi] n]|]; simpl; [|lia].
  destruct rest as [|c rest]; simpl; [lia|]. destruct (in_range lo hi c); simpl; [|lia].
  pose proof (utf8_conts_le 2 n rest). pose proof (utf8_conts_ge 2 n rest). lia.
Qed.

Lemma lossy_valid_fuel fuel l :
  utf8_valid_fuel fuel l = true → from_utf8_lossy_fuel fuel l = l.
Proof.
  revert l; induction fuel as [|fuel IH]; intros [|b rest]; try done.
  cbn [utf8_valid_fuel from_utf8_lossy_fuel].
  destruct (utf8_next b rest) as [n [|]]; [|done].
  intros H. rewrite (IH _ H). apply take_drop.
Qed.

(** [from_utf8_lossy] leaves a valid string as it is. *)
Lemma from_utf8_lossy_valid s : str_ok s → from_utf8_lossy (as_bytes s) = s.
Proof.
  intros H. unfold from_utf8_lossy. rewrite lossy_valid_fuel by exact H. apply of_as_bytes.
Qed.

(** ** Prefixes, suffixes and splitting *)

Lemma utf8_valid_ascii l : Forall (fun b => byte_to_Z b < 128) l → utf8_valid l = true.
Proof.
  unfold utf8_valid. induction 1 as [|b l Hb Hl IH]; [done|]. cbn [length utf8_valid_fuel].
  unfold utf8_next. by rewrite (proj2 (Z.ltb_lt _ _)).
Qed.

Lemma app_cons_str a p s : String a p +:+ s = String a (p +:+ s).
Proof. done. Qed.

Lemma app_assoc_str (p q r : string) : p +:+ (q +:+ r) = (p +:+ q) +:+ r.
Proof. induction p as [|a p IH]; [done|]. rewrite !app_cons_str. by rewrite IH. Qed.

Lemma strip_prefix_Some p s t : strip_prefix p s = Some t ↔ s = p +:+ t.
Proof.
  revert s; induction p as [|a p IH]; intros s; simpl.
  - split; [by intros [= ->] | by intros ->].
  - destruct s as [|b s]; [done|]. destruct (Ascii.eqb_spec a b) as [->|Hne].
    + rewrite IH. split; [intros ->; done | intros [= ->]; done].
    + split; [done | intros [= -> _]; done].
Qed.

Lemma ends_with_spec suf s : ends_with suf s = true ↔ ∃ p, s = p +:+ suf.
Proof.
  induction s as [|a s IH]; cbn [ends_with]; rewrite orb_true_iff, String.eqb_eq.
  - split.
    + intros [<-|H]; [by exists "" | done].
    + intros [[|b p] H]; [by left | done].
  - rewrite IH. split.
    + intros [<-|[p ->]]; [by exists "" | by exists (String a p)].
    + intros [[|b p] H]; [by left | right; injection H as -> ->; eauto].
Qed.

Lemma split_on_cons c s : ∃ h r, split_on c s = h :: r.
Proof.
  induction s as [|a s (h & r & IH)]; simpl; [eauto|].
  destruct (Ascii.eqb a c); [eauto|]. rewrite IH; eauto.
Qed.

Lemma split_on_app c p q : split_on c (p +:+ String c q) = split_on c p ++ split_on c q.
Proof.
  induction p as [|a p IH].
  - simpl. by rewrite Ascii.eqb_refl.
  - rewrite app_cons_str. cbn [split_on]. rewrite IH.
    destruct (Ascii.eqb a c); [done|]. destruct (split_on_cons c p) as (h & r & ->). done.
Qed.

Fixpoint join_on (c : Ascii.ascii) (l : list string) : string :=
  match l with
  | [] => ""
  | [s] => s
  | s :: l => s +:+ String c (join_on c l)
  end.

Lemma join_on_cons c s l : l ≠ [] → join_on c (s :: l) = s +:+ String c (join_on c l).
Proof. by destruct l. Qed.

Lemma join_on_app c l1 l2 :
  l1 ≠ [] → l2 ≠ [] → join_on c (l1 ++ l2) = join_on c l1 +:+ String c (join_on c l2).
Proof.
  intros H1 H2. induction l1 as [|s l1 IH]; [done|]. clear H1.
  destruct l1 as [|t l1]; [by apply join_on_cons|].
  change (join_on c ((s :: t :: l1) ++ l2)) with (s +:+ String c (join_on c ((t :: l1) ++ l2))).
  rewrite IH by done. change (join_on c (s :: t :: l1)) with (s +:+ String c (join_on c (t :: l1))).
  rewrite <- (app_assoc_str s). by rewrite app_cons_str.
Qed.

Lemma join_split c s : join_on c (split_on c s) = s.
Proof.
  induction s as [|a s IH]; [done|]. cbn [split_on].
  destruct (split_on_cons c s) as (h & r & E). destruct (Ascii.eqb_spec a c) as [->|_].
  - rewrite join_on_cons by (by rewrite E). by rewrite IH.
  - rewrite E in IH |- *. rewrite <- IH. by destruct r.
Qed.

(** A string is [suf] itself or ends with [c] and [suf] exactly when the pieces of
    [suf] are the last pieces of the string. *)
Lemma suffix_split c s suf :
  (s = suf ∨ ends_with (String c suf) s = true) ↔ split_on c suf `suffix_of` split_on c s.
Proof.
  rewrite ends_with_spec. split.
  - intros [->|[p ->]]; [done|]. rewrite split_on_app. apply suffix_app_r. done.
  - intros [l Hl]. destruct (decide (l = [])) as [->|Hne].
    + left. by rewrite <- (join_split c s), <- (join_split c suf), Hl.
    + right. exists (join_on c l). rewrite <- (join_split c s), <- (join_split c suf) at 1.
      rewrite Hl, join_on_app by (try done; destruct (split_on_cons c suf) as (?&?&->); done).
      by rewrite !join_split.
Qed.

(** ** Case mapping and splitting *)

Lemma lower_char_dot a : Ascii.eqb (lower_char a) "."%char = Ascii.eqb a "."%char.
Proof. by destruct a as [[][][][][][][][]]. Qed.

Lemma lower_char_idem a : lower_char (lower_char a) = lower_char a.
Proof. by destruct a as [[][][][][][][][]]. Qed.

Lemma to_lowercase_idem s : to_lowercase (to_lowercase s) = to_lowercase s.
Proof.
  unfold to_lowercase. induction s as [|a s IH]; [done|]. cbn [string_map].
  by rewrite IH, lower_char_idem.
Qed.

Lemma split_on_lower s :
  split_on "."%char (to_lowercase s) = to_lowercase <$> split_on "."%char s.
Proof.
  unfold to_lowercase. induction s as [|a s IH]; [done|]. cbn [string_map split_on].
  rewrite lower_char_dot. destruct (Ascii.eqb a "."%char).
  - rewrite fmap_cons. by rewrite IH.
  - rewrite IH. destruct (split_on_cons "."%char s) as (h & r & ->). done.
Qed.

Lemma to_lowercase_app s t : to_lowercase (s +:+ t) = to_lowercase s +:+ to_lowercase t.
Proof.
  unfold to_lowercase. induction s as [|a s IH]; [done|].
  rewrite !app_cons_str. cbn [string_map]. rewrite app_cons_str. by rewrite IH.
Qed.

#[export] Hint Rewrite len_as_bytes as_of_bytes of_as_bytes length_as_bytes : rust_rw.
