(* ===== verification/Addr.v ===== *)
(** * Proxy target addresses: [common/addr.rs]

    [Address] and its wire formats: the VLESS form, the SOCKS5 form
    [ATYP][ADDR][PORT] and its parser, and the DNS resolution of a target. *)

From S2P Require Import Prelude RustStr.

(** ** Socket addresses

    [std::net]: an IPv4 address is its [u32], an IPv6 address its [u128]. *)

Inductive IpAddr : Type :=
| V4 (a : Z)
| V6 (a : Z).

Inductive SocketAddr : Type :=
| SockV4 (ip port : Z)
| SockV6 (ip port flowinfo scope_id : Z).

#[export] Instance IpAddr_eq_dec : EqDecision IpAddr.
Proof. solve_decision. Defined.
#[export] Instance SocketAddr_eq_dec : EqDecision SocketAddr.
Proof. solve_decision. Defined.
#[export] Instance IpAddr_countable : Countable IpAddr.
Proof.
  refine (inj_countable'
    (fun a => match a with V4 z => inl z | V6 z => inr z end)
    (fun s => match s with inl z => V4 z | inr z => V6 z end) _).
  by intros [].
Defined.
#[export] Instance SocketAddr_countable : Countable SocketAddr.
Proof.
  refine (inj_countable'
    (fun a => match a with SockV4 i p => inl (i, p) | SockV6 i p f s => inr (i, p, f, s) end)
    (fun s => match s with inl (i, p) => SockV4 i p | inr (i, p, f, s) => SockV6 i p f s end) _).
  by intros [].
Defined.

Definition ip_ok (ip : IpAddr) : Prop :=
  match ip with V4 a => u32_ok a | V6 a => in_width 128 a end.
Definition octets (ip : IpAddr) : bytes :=
  match ip with V4 a => to_be_bytes 4 a | V6 a => to_be_bytes 16 a end.
Definition sock_ip (s : SocketAddr) : IpAddr :=
  match s with SockV4 ip _ => V4 ip | SockV6 ip _ _ _ => V6 ip end.
Definition sock_port (s : SocketAddr) : Z :=
  match s with SockV4 _ p => p | SockV6 _ p _ _ => p end.
(** [SocketAddr::new] *)
Definition sock_new (ip : IpAddr) (port : Z) : SocketAddr :=
  match ip with V4 a => SockV4 a port | V6 a => SockV6 a port 0 0 end.

(** ** The address type *)

Inductive Address : Type :=
| Ip (addr : SocketAddr)
| Domain (domain : string) (port : Z).

#[export] Instance Address_eq_dec : EqDecision Address.
Proof. solve_decision. Defined.
#[export] Instance Address_countable : Countable Address.
Proof.
  refine (inj_countable'
    (fun a => match a with Ip s => inl s | Domain d p => inr (d, p) end)
    (fun s => match s with inl s => Ip s | inr (d, p) => Domain d p end) _).
  by intros [].
Defined.

Inductive addr_error : Type :=
| EmptyData
| InsufficientIpv4
| InsufficientDomain
| InsufficientIpv6
| InvalidIpv4Length
| InvalidIpv6Length
| InvalidUtf8
| UnsupportedAtyp (atyp : byte).

Definition port (a : Address) : Z :=
  match a with
  | Ip addr => sock_port addr
  | Domain _ port => port
  end.

(** [Address::encode_vless] *)
Definition encode_vless (a : Address) (buf : bytes) : bytes :=
  match a with
  | Ip (SockV4 ip _) => buf ++ [Byte.x01] ++ to_be_bytes 4 ip
  | Ip (SockV6 ip _ _ _) => buf ++ [Byte.x03] ++ to_be_bytes 16 ip
  | Domain domain _ =>
      buf ++ [Byte.x02] ++ [byte_of_Z (str_len domain)] ++ as_bytes domain
  end.

(** [Address::encode_socks5] *)
Definition encode_socks5 (a : Address) (buf : bytes) : bytes :=
  match a with
  | Ip (SockV4 ip port) => buf ++ [Byte.x01] ++ to_be_bytes 4 ip ++ to_be_bytes 2 port
  | Ip (SockV6 ip port _ _) => buf ++ [Byte.x04] ++ to_be_bytes 16 ip ++ to_be_bytes 2 port
  | Domain domain port =>
      buf ++ [Byte.x03] ++ [byte_of_Z (str_len domain)] ++ as_bytes domain
        ++ to_be_bytes 2 port
  end.

(** [Address::parse_socks5_udp_addr] *)
Definition parse_socks5_udp_addr (data : bytes) : result addr_error (Address * nat) :=
  match data with
  | [] => Err EmptyData
  | atyp :: _ =>
      if byte_to_Z atyp =? 1 then
        if bool_decide (length data < 7)%nat then Err InsufficientIpv4
        else
          let ip := from_be_bytes [byte_at data 1; byte_at data 2; byte_at data 3; byte_at data 4] in
          let port := from_be_bytes [byte_at data 5; byte_at data 6] in
          Ok (Ip (sock_new (V4 ip) port), 7%nat)
      else if byte_to_Z atyp =? 3 then
        if bool_decide (length data < 2)%nat then Err InsufficientDomain
        else
          let domain_len := Z.to_nat (byte_to_Z (byte_at data 1)) in
          let total := (2 + domain_len + 2)%nat in
          if bool_decide (length data < total)%nat then Err InsufficientDomain
          else match from_utf8 (slice data 2 (2 + domain_len)) with
               | None => Err InvalidUtf8
               | Some domain =>
                   let port := from_be_bytes [byte_at data (2 + domain_len);
                                              byte_at data (3 + domain_len)] in
                   Ok (Domain domain port, total)
               end
      else if byte_to_Z atyp =? 4 then
        if bool_decide (length data < 19)%nat then Err InsufficientIpv6
        else
          let ip := from_be_bytes (slice data 1 17) in
          let port := from_be_bytes [byte_at data 17; byte_at data 18] in
          Ok (Ip (sock_new (V6 ip) port), 19%nat)
      else Err (UnsupportedAtyp atyp)
  end.

(** [Address::from_socks5] *)
Definition from_socks5 (atyp : byte) (data : bytes) (port : Z) : result addr_error Address :=
  if byte_to_Z atyp =? 1 then
    if bool_decide (length data < 4)%nat then Err InvalidIpv4Length
    else
      let ip := from_be_bytes [byte_at data 0; byte_at data 1; byte_at data 2; byte_at data 3] in
      Ok (Ip (sock_new (V4 ip) port))
  else if byte_to_Z atyp =? 3 then
    match from_utf8 data with
    | None => Err InvalidUtf8
    | Some domain => Ok (Domain domain port)
    end
  else if byte_to_Z atyp =? 4 then
    if bool_decide (length data < 16)%nat then Err InvalidIpv6Length
    else Ok (Ip (sock_new (V6 (from_be_bytes (slice data 0 16))) port))
  else Err (UnsupportedAtyp atyp).

(** [Address::resolve_with]: the custom resolver is a [dyn DnsResolver], the
    fallback the operating system's [to_socket_addrs]; both may fail. *)
Inductive resolve_error (E : Type) : Type :=
| ResolverFailed (e : E)
| DnsResolutionFailed (domain : string) (port : Z).
Arguments ResolverFailed {E} e.
Arguments DnsResolutionFailed {E} domain port.

Definition resolve_with {E} (to_socket_addrs : string → Z → result E (list SocketAddr))
    (a : Address) (resolver : option (string → result E (list IpAddr)))
  : result (resolve_error E) SocketAddr :=
  match a with
  | Ip addr => Ok addr
  | Domain domain port =>
      match resolver with
      | Some custom_resolver =>
          match custom_resolver domain with
          | Err e => Err (ResolverFailed e)
          | Ok [] => Err (DnsResolutionFailed domain port)
          | Ok (ip :: _) => Ok (sock_new ip port)
          end
      | None =>
          match to_socket_addrs domain port with
          | Err e => Err (ResolverFailed e)
          | Ok [] => Err (DnsResolutionFailed domain port)
          | Ok (addr :: _) => Ok addr
          end
      end
  end.

(** ** Well-formed addresses

    What the Rust types guarantee ([addr_ok]) and what a one-byte length can
    carry ([addr_short]); a parsed or freshly built IPv6 socket address has no
    flow label and no scope ([addr_plain]). *)

Definition sock_ok (s : SocketAddr) : Prop :=
  match s with
  | SockV4 ip port => u32_ok ip ∧ u16_ok port
  | SockV6 ip port flow scope => in_width 128 ip ∧ u16_ok port ∧ u32_ok flow ∧ u32_ok scope
  end.
Definition addr_ok (a : Address) : Prop :=
  match a with
  | Ip s => sock_ok s
  | Domain d p => str_ok d ∧ u16_ok p
  end.
Definition addr_short (a : Address) : Prop :=
  match a with
  | Ip _ => True
  | Domain d _ => str_len d < 256
  end.
Definition addr_plain (a : Address) : Prop :=
  match a with
  | Ip (SockV6 _ _ flow scope) => flow = 0 ∧ scope = 0
  | _ => True
  end.

(** ** Lemmas *)

Lemma sock_ip_new ip p : sock_ip (sock_new ip p) = ip.
Proof. by destruct ip. Qed.
Lemma sock_port_new ip p : sock_port (sock_new ip p) = p.
Proof. by destruct ip. Qed.

Lemma port_ok a : addr_ok a → u16_ok (port a).
Proof. destruct a as [[]|]; cbn; tauto. Qed.

Lemma encode_socks5_app a buf : encode_socks5 a buf = buf ++ encode_socks5 a [].
Proof. by destruct a as [[]|]. Qed.

Lemma encode_vless_app a buf : encode_vless a buf = buf ++ encode_vless a [].
Proof. by destruct a as [[]|]. Qed.

Lemma domain_len_byte d :
  str_len d < 256 → Z.to_nat (byte_to_Z (byte_of_Z (str_len d))) = String.length d.
Proof.
  intros H. unfold str_len in *. rewrite byte_to_of_small by (unfold in_width; lia).
  apply Nat2Z.id.
Qed.

(** The three branches of the parser on an encoded address. *)
Lemma parse_encode_v4 ip p rest :
  u32_ok ip → u16_ok p →
  parse_socks5_udp_addr (encode_socks5 (Ip (SockV4 ip p)) [] ++ rest)
  = Ok (Ip (SockV4 ip p), 7%nat).
Proof.
  intros Hip Hp. unfold encode_socks5. cbn [app]. rewrite <- app_assoc.
  unfold parse_socks5_udp_addr. change (byte_to_Z Byte.x01 =? 1) with true. cbn iota.
  rewrite bool_decide_false by
    (cbn [length]; rewrite !length_app; autorewrite with rust_rw; lia).
  rewrite (be4_at [Byte.x01] ip (to_be_bytes 2 p ++ rest)) by done.
  change (Byte.x01 :: ?l) with ([Byte.x01] ++ l). rewrite app_assoc.
  by rewrite be2_at by (rewrite ?length_app; autorewrite with rust_rw; done).
Qed.

Lemma parse_encode_v6 ip p f s rest :
  in_width 128 ip → u16_ok p →
  parse_socks5_udp_addr (encode_socks5 (Ip (SockV6 ip p f s)) [] ++ rest)
  = Ok (Ip (SockV6 ip p 0 0), 19%nat).
Proof.
  intros Hip Hp. unfold encode_socks5. cbn [app]. rewrite <- app_assoc.
  unfold parse_socks5_udp_addr.
  change (byte_to_Z Byte.x04 =? 1) with false. change (byte_to_Z Byte.x04 =? 3) with false.
  change (byte_to_Z Byte.x04 =? 4) with true. cbn iota.
  rewrite bool_decide_false by
    (cbn [length]; rewrite !length_app; autorewrite with rust_rw; lia).
  change (Byte.x04 :: ?l) with ([Byte.x04] ++ l).
  rewrite slice_mid, from_to_be_bytes by (autorewrite with rust_rw; done).
  rewrite app_assoc.
  by rewrite be2_at by (rewrite ?length_app; autorewrite with rust_rw; done).
Qed.

Lemma parse_encode_domain d p rest :
  str_ok d → str_len d < 256 → u16_ok p →
  parse_socks5_udp_addr (encode_socks5 (Domain d p) [] ++ rest)
  = Ok (Domain d p, (2 + String.length d + 2)%nat).
Proof.
  intros Hd Hl Hp. unfold encode_socks5. cbn [app]. rewrite <- app_assoc.
  unfold parse_socks5_udp_addr.
  change (byte_to_Z Byte.x03 =? 1) with false. change (byte_to_Z Byte.x03 =? 3) with true.
  cbn iota. rewrite bool_decide_false by (cbn [length]; lia).
  change (byte_at (_ :: ?b :: _) 1) with b. rewrite (domain_len_byte d) by done.
  rewrite bool_decide_false by
    (cbn [length]; rewrite !length_app; autorewrite with rust_rw; lia).
  change (Byte.x03 :: ?b :: ?l) with ([Byte.x03; b] ++ l).
  rewrite slice_mid, from_utf8_as_bytes by (autorewrite with rust_rw; done).
  rewrite app_assoc.
  by rewrite be2_at by (rewrite ?length_app; autorewrite with rust_rw; done).
Qed.

Lemma length_encode_socks5 a :
  length (encode_socks5 a []) =
  match a with
  | Ip (SockV4 _ _) => 7%nat
  | Ip (SockV6 _ _ _ _) => 19%nat
  | Domain d _ => (2 + String.length d + 2)%nat
  end.
Proof.
  destruct a as [[]|]; [done..|]. cbn [encode_socks5 app length].
  rewrite length_app. autorewrite with rust_rw. lia.
Qed.

Lemma byte_of_atyp b z : byte_to_Z b = z → b = byte_of_Z z.
Proof. intros <-. by rewrite byte_of_to_Z. Qed.

(** What a successful parse of each form read. *)
Lemma parse_v4_sound atyp tl :
  byte_to_Z atyp = 1 → (7 <= length (atyp :: tl))%nat →
  let data := atyp :: tl in
  let ip := from_be_bytes [byte_at data 1; byte_at data 2; byte_at data 3; byte_at data 4] in
  encode_socks5 (Ip (SockV4 ip (from_be_bytes [byte_at data 5; byte_at data 6]))) [] = take 7 data.
Proof.
  intros Ha Hl. do 6 (destruct tl as [|? tl]; [simpl in Hl; lia|]).
  cbn [byte_at lookup list_lookup default from_option id]. cbn zeta.
  unfold encode_socks5. rewrite (byte_of_atyp _ _ Ha).
  change (from_be_bytes [byte_at (_ :: ?a :: ?b :: ?c :: ?d :: _) 1; _; _; _])
    with (from_be_bytes [a; b; c; d]).
  rewrite to_from_be4.
  change (from_be_bytes [byte_at (_ :: _ :: _ :: _ :: _ :: ?a :: ?b :: _) 5; _])
    with (from_be_bytes [a; b]).
  rewrite to_from_be2. done.
Qed.

Lemma parse_v6_sound atyp tl :
  byte_to_Z atyp = 4 → (19 <= length (atyp :: tl))%nat →
  let data := atyp :: tl in
  encode_socks5 (Ip (SockV6 (from_be_bytes (slice data 1 17))
                            (from_be_bytes [byte_at data 17; byte_at data 18]) 0 0)) []
  = take 19 data.
Proof.
  intros Ha Hl data. unfold encode_socks5. rewrite to_from_be2.
  rewrite to_from_be_bytes' by (apply length_slice; unfold data; lia).
  rewrite <- (slice_two data 17) by (unfold data; lia).
  rewrite (take_slice data 17 19), (take_slice data 1 17) by lia. unfold data at 3.
  rewrite take_one, (byte_of_atyp _ _ Ha). by rewrite <- app_assoc.
Qed.

Lemma parse_domain_sound atyp tl d :
  let data := atyp :: tl in
  let n := Z.to_nat (byte_to_Z (byte_at data 1)) in
  byte_to_Z atyp = 3 → (2 + n + 2 <= length data)%nat →
  from_utf8 (slice data 2 (2 + n)) = Some d →
  str_ok d ∧ str_len d < 256 ∧
  encode_socks5 (Domain d (from_be_bytes [byte_at data (2 + n); byte_at data (3 + n)])) []
  = take (2 + n + 2) data.
Proof.
  intros data n Ha Hl [Hd Hb]%from_utf8_Some. pose proof (byte_to_Z_range (byte_at data 1)).
  assert (Hn : str_len d = byte_to_Z (byte_at data 1)).
  { rewrite <- len_as_bytes, Hb. unfold len. rewrite length_slice by lia. unfold n. lia. }
  split; [done|]. split; [lia|]. unfold encode_socks5.
  rewrite to_from_be2, Hn, byte_of_to_Z, Hb. change (3 + n)%nat with (S (2 + n)).
  rewrite <- (slice_two data (2 + n)) by lia.
  rewrite (take_slice data (2 + n) (2 + n + 2)), (take_slice data 2 (2 + n)) by lia.
  rewrite (take_slice data 1 2), (slice_cons data 1 2), slice_nil by lia.
  unfold data at 4. rewrite take_one, (byte_of_atyp _ _ Ha).
  rewrite <- !app_assoc. done.
Qed.

Lemma socks5_parse_short data a n :
  parse_socks5_udp_addr data = Ok (a, n) → addr_short a.
Proof.
  unfold parse_socks5_udp_addr. destruct data as [|atyp tl]; [done|].
  destruct (byte_to_Z atyp =? 1) eqn:E1; [|destruct (byte_to_Z atyp =? 3) eqn:E3;
    [|destruct (byte_to_Z atyp =? 4) eqn:E4; [|done]]]; bool_prop; case_bool_decide; try done.
  - by intros [= <- _].
  - case_bool_decide; [done|]. destruct (from_utf8 _) as [d|] eqn:Ed; [|done]. intros [= <- _].
    apply parse_domain_sound in Ed as (? & ? & ?); [done|done|lia].
  - by intros [= <- _].
Qed.

(** ** Properties *)

Lemma parse_encode_socks5 a rest :
  addr_ok a → addr_short a → addr_plain a →
  parse_socks5_udp_addr (encode_socks5 a [] ++ rest) = Ok (a, length (encode_socks5 a [])).
Proof.
  rewrite length_encode_socks5. destruct a as [[ip p|ip p f s]|d p]; simpl.
  - intros [Hip Hp] _ _. by apply parse_encode_v4.
  - intros (Hip & Hp & _) _ [-> ->]. by apply (parse_encode_v6 ip p 0 0).
  - intros [Hd Hp] Hl _. by apply parse_encode_domain.
Qed.

(** The SOCKS5 address codec is a round trip.  Encoding a well-formed address
    whose domain fits in the one-byte length, followed by any bytes, parses back to
    that address and consumes exactly the encoded bytes. *)
Theorem socks5_roundtrip (a : Address) (rest : bytes) :
  addr_ok a → addr_short a → addr_plain a →
  parse_socks5_udp_addr (encode_socks5 a [] ++ rest)
  = Ok (a, length (encode_socks5 a [])).
Proof. apply parse_encode_socks5. Qed.

Lemma socks5_roundtrip_witness :
  parse_socks5_udp_addr (encode_socks5 (Domain "example.com" 443) [] ++ [Byte.x07])
  = Ok (Domain "example.com" 443, 15%nat).
Proof. apply (socks5_roundtrip (Domain "example.com" 443)); vm_compute; intuition congruence. Defined.

(** The SOCKS5 address parser is sound.  Whatever it accepts is a well-formed
    address whose encoding is exactly the bytes it reports as consumed, which lie
    inside the datagram. *)
Theorem socks5_parse_sound (data : bytes) (a : Address) (n : nat) :
  parse_socks5_udp_addr data = Ok (a, n) →
  addr_ok a ∧ addr_short a ∧ addr_plain a ∧ (n <= length data)%nat ∧
  encode_socks5 a [] = take n data.
Proof.
  unfold parse_socks5_udp_addr. destruct data as [|atyp tl]; [done|].
  destruct (byte_to_Z atyp =? 1) eqn:E1; [|destruct (byte_to_Z atyp =? 3) eqn:E3;
    [|destruct (byte_to_Z atyp =? 4) eqn:E4; [|done]]]; bool_prop.
  - case_bool_decide as Hl; [done|]. intros [= <- <-].
    split; [split; auto with rust|]. do 2 (split; [done|]). split; [lia|].
    apply (parse_v4_sound atyp tl); [done|lia].
  - case_bool_decide; [done|]. case_bool_decide as Hl; [done|].
    destruct (from_utf8 _) as [d|] eqn:Ed; [|done]. intros [= <- <-].
    apply parse_domain_sound in Ed as (? & ? & ?); [|done|lia].
    split; [split; auto with rust|]. do 2 (split; [done|]). split; [lia|done].
  - case_bool_decide as Hl; [done|]. intros [= <- <-].
    split; [split_and!; [|auto with rust|done..]|].
    { apply (from_be_bytes_ok 128). rewrite length_slice by (simpl in *; lia). done. }
    do 2 (split; [done|]). split; [lia|]. apply (parse_v6_sound atyp tl); [done|lia].
Qed.

Lemma socks5_parse_sound_witness :
  encode_socks5 (Ip (SockV4 2130706433 80)) []
  = take 7 [Byte.x01; Byte.x7f; Byte.x00; Byte.x00; Byte.x01; Byte.x00; Byte.x50; Byte.xff].
Proof.
  apply (socks5_parse_sound
    [Byte.x01; Byte.x7f; Byte.x00; Byte.x00; Byte.x01; Byte.x00; Byte.x50; Byte.xff]
    (Ip (SockV4 2130706433 80)) 7). vm_compute. reflexivity.
Defined.

(** A domain longer than 255 bytes is not representable.  [encode_socks5] writes
    [domain.len() as u8] in front of the whole domain, so whatever the parser makes of
    the bytes it is never the address that was encoded. *)
Theorem socks5_overlong_domain_lost (d : string) (p : Z) (rest : bytes) (n : nat) :
  256 <= str_len d →
  parse_socks5_udp_addr (encode_socks5 (Domain d p) [] ++ rest) ≠ Ok (Domain d p, n).
Proof.
  intros Hd H. apply socks5_parse_short in H. simpl in H. lia.
Qed.

Lemma socks5_overlong_domain_lost_witness :
  let d := of_bytes (repeat Byte.x61 256) in
  parse_socks5_udp_addr (encode_socks5 (Domain d 443) []) = Ok (Domain "" 24929, 4%nat) ∧
  parse_socks5_udp_addr (encode_socks5 (Domain d 443) [] ++ []) ≠ Ok (Domain d 443, 4%nat).
Proof.
  intros d. split; [vm_compute; reflexivity|].
  apply (socks5_overlong_domain_lost d 443 [] 4). vm_compute. discriminate.
Defined.
