(* ===== verification/Trie.v ===== *)
(** * Route lookup structures: [router/trie.rs]

    [DomainTrie] (suffix match on reversed labels), [IpPrefixTrie] (CIDR match on
    address bits) and [RouteLruCache].  The interface [PrefixTree] states what the
    two tries have in common: a value per node and a child per key; the lemmas on
    paths are proved against it. *)

From Stdlib Require Import Ascii Sorting.Sorted.
From S2P Require Import Prelude RustStr Addr.

Set Warnings "-register-all,-clear-no-such-hyp".
Local Open Scope nat_scope.

(** ** [ipnet::IpNet]

    The third-party CIDR type: the operations the router calls, and their
    documented behaviour. *)

Class IpNetOps (IpNet : Type) := {
  net_addr : IpNet → IpAddr;
  net_prefix_len : IpNet → nat;
  net_contains : IpNet → IpAddr → bool;
  net_parse : string → option IpNet;
}.

Definition addr_width (ip : IpAddr) : Z :=
  match ip with V4 _ => 32 | V6 _ => 128 end.
Definition same_family (x y : IpAddr) : bool :=
  match x, y with V4 _, V4 _ | V6 _, V6 _ => true | _, _ => false end.
Definition addr_bits (ip : IpAddr) : Z :=
  match ip with V4 a => a | V6 a => a end.

Class IpNetLaws (IpNet : Type) `{!IpNetOps IpNet} : Prop := {
  net_addr_ok : ∀ n, ip_ok (net_addr n);
  net_prefix_le : ∀ n, (Z.of_nat (net_prefix_len n) <= addr_width (net_addr n))%Z;
  (** A network contains an address of its family when the two agree on the
      first [prefix_len] bits. *)
  net_contains_spec : ∀ n ip, net_contains n ip = true ↔
    same_family (net_addr n) ip = true ∧
    let k := (addr_width ip - Z.of_nat (net_prefix_len n))%Z in
    Z.shiftr (addr_bits (net_addr n)) k = Z.shiftr (addr_bits ip) k;
}.

(** ** [DomainTrie] *)

Inductive TrieNode : Type :=
| mkTrieNode (children : gmap string TrieNode) (value : option nat).

Definition trie_children (n : TrieNode) : gmap string TrieNode :=
  let 'mkTrieNode c _ := n in c.
Definition trie_value (n : TrieNode) : option nat := let 'mkTrieNode _ v := n in v.
Definition trie_node_new : TrieNode := mkTrieNode ∅ None.

Record DomainTrie := mkDomainTrie { root : TrieNode }.
Definition domain_trie_new : DomainTrie := mkDomainTrie trie_node_new.

Definition labels_rev (domain : string) : list string := reverse (split_on "."%char domain).

(** [if node.value.is_none() { node.value = Some(value) }] *)
Definition or_value (old : option nat) (value : nat) : option nat :=
  match old with None => Some value | Some _ => old end.

Fixpoint trie_node_insert (labels : list string) (value : nat) (node : TrieNode) : TrieNode :=
  match labels with
  | [] => mkTrieNode (trie_children node) (or_value (trie_value node) value)
  | label :: labels =>
      let key := to_lowercase label in
      let child := default trie_node_new (trie_children node !! key) in
      mkTrieNode (<[key := trie_node_insert labels value child]> (trie_children node))
                 (trie_value node)
  end.
Definition domain_trie_insert (t : DomainTrie) (domain : string) (value : nat) : DomainTrie :=
  mkDomainTrie (trie_node_insert (labels_rev domain) value (root t)).

Fixpoint find_loop (labels : list string) (node : TrieNode) (best_match : option nat)
  : option nat :=
  match labels with
  | [] => best_match
  | label :: labels =>
      match trie_children node !! to_lowercase label with
      | Some child =>
          find_loop labels child
            (match trie_value child with Some v => Some v | None => best_match end)
      | None => best_match
      end
  end.
Definition find (t : DomainTrie) (domain : string) : option nat :=
  find_loop (labels_rev domain) (root t) None.

(** [first.map(|cur| cur.min(v)).unwrap_or(v)] *)
Definition min_opt (first : option nat) (v : nat) : option nat :=
  Some (match first with Some cur => Nat.min cur v | None => v end).

Fixpoint find_first_loop (labels : list string) (node : TrieNode) (first_match : option nat)
  : option nat :=
  match labels with
  | [] => first_match
  | label :: labels =>
      match trie_children node !! to_lowercase label with
      | Some child =>
          find_first_loop labels child
            (match trie_value child with Some v => min_opt first_match v | None => first_match end)
      | None => first_match
      end
  end.
Definition find_first_match (t : DomainTrie) (domain : string) : option nat :=
  find_first_loop (labels_rev domain) (root t) None.

Definition matches (t : DomainTrie) (domain : string) : bool :=
  match find t domain with Some _ => true | None => false end.

Fixpoint count_nodes (node : TrieNode) : nat :=
  match node with
  | mkTrieNode children value =>
      (match value with Some _ => 1 | None => 0 end)
      + map_fold (fun _ child count => count + count_nodes child) 0 children
  end.
Definition domain_trie_len (t : DomainTrie) : nat := count_nodes (root t).
Definition domain_trie_is_empty (t : DomainTrie) : bool :=
  bool_decide (trie_children (root t) = ∅).

(** ** [RouteLruCache]

    Keys and outbound tags, the most recently used last.  [Vec::remove(0)] of an
    empty vector panics: [insert] returns [None] there. *)

Record RouteLruCache := mkLru { capacity : nat; entries : list (string * string) }.

Definition lru_new (capacity : nat) : RouteLruCache := mkLru capacity [].
Definition lru_position (key : string) (l : list (string * string)) : option nat :=
  fst <$> list_find (fun e => e.1 = key) l.

Definition lru_get (c : RouteLruCache) (key : string) : RouteLruCache * option string :=
  match lru_position key (entries c) with
  | Some pos =>
      match entries c !! pos with
      | Some entry =>
          let es := delete pos (entries c) ++ [entry] in
          (mkLru (capacity c) es, snd <$> last es)
      | None => (c, None)
      end
  | None => (c, None)
  end.

Definition lru_insert (c : RouteLruCache) (key value : string) : option RouteLruCache :=
  let es := match lru_position key (entries c) with
            | Some pos => delete pos (entries c)
            | None => entries c
            end in
  es' ← (if bool_decide (capacity c <= length es) then
           match es with [] => None | _ :: rest => Some rest end
         else Some es);
  Some (mkLru (capacity c) (es' ++ [(key, value)])).

Definition lru_len (c : RouteLruCache) : nat := length (entries c).
Definition lru_is_empty (c : RouteLruCache) : bool := bool_decide (entries c = []).
Definition lru_clear (c : RouteLruCache) : RouteLruCache := mkLru (capacity c) [].

(** ** [IpPrefixTrie]

    The two children of a node are indexed by a bit. *)

Inductive IpTrieNode : Type :=
| mkIpTrieNode (child0 child1 : option IpTrieNode) (value : option nat).

Definition ip_child (bit : bool) (n : IpTrieNode) : option IpTrieNode :=
  let 'mkIpTrieNode c0 c1 _ := n in if bit then c1 else c0.
Definition ip_value (n : IpTrieNode) : option nat := let 'mkIpTrieNode _ _ v := n in v.
Definition ip_set_child (bit : bool) (c : IpTrieNode) (n : IpTrieNode) : IpTrieNode :=
  let 'mkIpTrieNode c0 c1 v := n in
  if bit then mkIpTrieNode c0 (Some c) v else mkIpTrieNode (Some c) c1 v.
Definition ip_node_new : IpTrieNode := mkIpTrieNode None None None.

Record IpPrefixTrie := mkIpPrefixTrie { root_v4 : IpTrieNode; root_v6 : IpTrieNode }.
Definition ip_trie_new : IpPrefixTrie := mkIpPrefixTrie ip_node_new ip_node_new.

(** [octets_to_bits_v4] and [octets_to_bits_v6]: the bits of each octet, high to low. *)
Definition byte_bits (b : byte) : list bool :=
  (fun i => Z.testbit (byte_to_Z b) i) <$> [7; 6; 5; 4; 3; 2; 1; 0]%Z.
Definition octets_to_bits (octets : bytes) : list bool := mjoin (byte_bits <$> octets).
Definition octets_to_bits_v4 := octets_to_bits.
Definition octets_to_bits_v6 := octets_to_bits.

Fixpoint ip_node_insert (bits : list bool) (value : nat) (node : IpTrieNode) : IpTrieNode :=
  match bits with
  | [] => let 'mkIpTrieNode c0 c1 v := node in mkIpTrieNode c0 c1 (or_value v value)
  | bit :: bits =>
      let child := default ip_node_new (ip_child bit node) in
      ip_set_child bit (ip_node_insert bits value child) node
  end.

(** [for i in 0..prefix_len: if i < bits.len() { bits[i] } else { 0 }] *)
Definition prefix_bits (bits : list bool) (prefix_len : nat) : list bool :=
  (fun i => default false (bits !! i)) <$> seq 0 prefix_len.

Section with_ipnet.
Context {IpNet : Type} `{!IpNetOps IpNet}.

Definition ip_trie_insert (t : IpPrefixTrie) (cidr : IpNet) (value : nat) : IpPrefixTrie :=
  match net_addr cidr with
  | V4 a =>
      let bits := octets_to_bits_v4 (to_be_bytes 4 a) in
      mkIpPrefixTrie
        (ip_node_insert (prefix_bits bits (net_prefix_len cidr)) value (root_v4 t)) (root_v6 t)
  | V6 a =>
      let bits := octets_to_bits_v6 (to_be_bytes 16 a) in
      mkIpPrefixTrie (root_v4 t)
        (ip_node_insert (prefix_bits bits (net_prefix_len cidr)) value (root_v6 t))
  end.
End with_ipnet.

Definition ip_bits_root (t : IpPrefixTrie) (addr : IpAddr) : list bool * IpTrieNode :=
  match addr with
  | V4 a => (octets_to_bits_v4 (to_be_bytes 4 a), root_v4 t)
  | V6 a => (octets_to_bits_v6 (to_be_bytes 16 a), root_v6 t)
  end.

Fixpoint longest_loop (bits : list bool) (node : IpTrieNode) (best : option nat) : option nat :=
  match bits with
  | [] => best
  | bit :: bits =>
      match ip_child bit node with
      | Some child =>
          longest_loop bits child (match ip_value child with Some v => Some v | None => best end)
      | None => best
      end
  end.
Definition longest_prefix_match (t : IpPrefixTrie) (addr : IpAddr) : option nat :=
  let '(bits, root) := ip_bits_root t addr in longest_loop bits root (ip_value root).

Fixpoint first_loop (bits : list bool) (node : IpTrieNode) (first : option nat) : option nat :=
  match bits with
  | [] => first
  | bit :: bits =>
      match ip_child bit node with
      | Some child =>
          first_loop bits child
            (match ip_value child with Some v => min_opt first v | None => first end)
      | None => first
      end
  end.
Definition first_prefix_match (t : IpPrefixTrie) (addr : IpAddr) : option nat :=
  let '(bits, root) := ip_bits_root t addr in first_loop bits root (ip_value root).

Definition ip_trie_contains (t : IpPrefixTrie) (addr : IpAddr) : bool :=
  match longest_prefix_match t addr with Some _ => true | None => false end.

(** ** Paths in a prefix tree *)

Class PrefixTree (T K : Type) := {
  pt_value : T → option nat;
  pt_child : K → T → option T;
  pt_new : T;
  pt_insert : list K → nat → T → T;
}.

Section prefix_tree.
Context {T K : Type} `{!PrefixTree T K} `{!EqDecision K}.
Implicit Types (p q : list K) (t : T) (l : list (list K * nat)).

(** The value stored at exactly the path [p]. *)
Fixpoint value_at p t : option nat :=
  match p with
  | [] => pt_value t
  | k :: p => c ← pt_child k t; value_at p c
  end.

(** The values met below [t] while following [p]: one per non-empty prefix. *)
Fixpoint values_below p t : list nat :=
  match p with
  | [] => []
  | k :: p =>
      match pt_child k t with
      | Some c => option_list (pt_value c) ++ values_below p c
      | None => []
      end
  end.
Definition values_along p t : list nat := option_list (pt_value t) ++ values_below p t.

(** The loop all lookups share. *)
Fixpoint scan (f : option nat → nat → option nat) p t (acc : option nat) : option nat :=
  match p with
  | [] => acc
  | k :: p =>
      match pt_child k t with
      | Some c => scan f p c (match pt_value c with Some v => f acc v | None => acc end)
      | None => acc
      end
  end.

Lemma scan_values f p t acc : scan f p t acc = foldl f acc (values_below p t).
Proof.
  revert t acc; induction p as [|k p IH]; intros t acc; simpl; [done|].
  destruct (pt_child k t) as [c|]; [|done]. rewrite IH, foldl_app. by destruct (pt_value c).
Qed.

Lemma scan_values_root f p t :
  scan f p t (match pt_value t with Some v => f None v | None => None end)
  = foldl f None (values_along p t).
Proof.
  rewrite scan_values. unfold values_along. rewrite foldl_app. by destruct (pt_value t).
Qed.

(** The prefixes of a path, shortest first. *)
Fixpoint prefixes p : list (list K) :=
  match p with
  | [] => [[]]
  | k :: p => [] :: ((cons k) <$> prefixes p)
  end.

Lemma elem_prefixes p q : q ∈ prefixes p ↔ q `prefix_of` p.
Proof.
  revert q; induction p as [|k p IH]; intros q; simpl.
  - rewrite list_elem_of_singleton. split; [by intros -> | apply prefix_nil_inv].
  - rewrite elem_of_cons, list_elem_of_fmap. split.
    + intros [->|(q' & -> & H)]; [apply prefix_nil | apply prefix_cons; by apply IH].
    + intros H. destruct q as [|k' q]; [by left|]. right. exists q.
      pose proof (prefix_cons_inv_1 _ _ _ _ H) as ->. apply prefix_cons_inv_2 in H.
      split; [done | by apply IH].
Qed.

Lemma prefixes_snoc p k : prefixes (p ++ [k]) = prefixes p ++ [p ++ [k]].
Proof. induction p as [|k' p IH]; simpl; [done|]. rewrite IH, fmap_app. done. Qed.

Lemma omap_cons_fmap {B} (f : list K → option B) k (ps : list (list K)) :
  omap f (cons k <$> ps) = omap (fun q => f (k :: q)) ps.
Proof.
  induction ps as [|q ps IH]; [done|].
  simpl. destruct (f (k :: q)); [f_equal|]; exact IH.
Qed.

Lemma omap_none {A B} (f : A → option B) (ps : list A) : (∀ x, f x = None) → omap f ps = [].
Proof. intros H. induction ps as [|x ps IH]; [done|]. simpl. by rewrite H. Qed.

Lemma values_along_prefixes p t : values_along p t = omap (fun q => value_at q t) (prefixes p).
Proof.
  revert t; induction p as [|k p IH]; intros t; unfold values_along.
  - simpl. by destruct (pt_value t).
  - cbn [values_below prefixes omap list_omap]. fold (@omap list _).
    enough (match pt_child k t with
            | Some c => option_list (pt_value c) ++ values_below p c
            | None => []
            end = omap (fun q => value_at q t) (cons k <$> prefixes p)) as ->
      by (simpl; by destruct (pt_value t)).
    rewrite omap_cons_fmap. simpl. destruct (pt_child k t) as [c|] eqn:E.
    + fold (values_along p c). by rewrite IH.
    + symmetry. by apply omap_none.
Qed.

Lemma elem_values_along p t v :
  v ∈ values_along p t ↔ ∃ q, q `prefix_of` p ∧ value_at q t = Some v.
Proof.
  rewrite values_along_prefixes, list_elem_of_omap. by setoid_rewrite elem_prefixes.
Qed.

(** *** The least value *)

Lemma foldl_min_acc (vs : list nat) acc m :
  foldl min_opt acc vs = Some m →
  (acc = Some m ∨ m ∈ vs) ∧ (∀ x, acc = Some x → m <= x) ∧ (∀ x, x ∈ vs → m <= x).
Proof.
  revert acc; induction vs as [|y vs IH]; intros acc; simpl.
  - intros ->. split_and!; [by left | intros x [= ->]; lia | intros x Hx; by apply elem_of_nil in Hx].
  - intros (Hm & Ha & Hl)%IH. specialize (Ha _ eq_refl).
    assert (Hx : match acc with Some cur => m <= cur | None => True end ∧ m <= y)
      by (destruct acc; lia).
    split_and!.
    + destruct Hm as [[= Hm]|Hm]; [|right; by right]. destruct acc as [cur|].
      * destruct (Nat.min_spec cur y) as [[_ E]|[_ E]]; rewrite E in Hm; subst; [by left|right; left].
      * right. subst. left.
    + intros x ->. tauto.
    + intros x Hin. apply elem_of_cons in Hin as [->|Hin]; [tauto|auto].
Qed.

Lemma foldl_min_spec (vs : list nat) m :
  foldl min_opt None vs = Some m ↔ m ∈ vs ∧ ∀ x, x ∈ vs → m <= x.
Proof.
  split.
  - intros ([H|H] & _ & Hl)%foldl_min_acc; [done|auto].
  - intros [Hm Hl]. destruct (foldl min_opt None vs) as [m'|] eqn:E.
    + apply foldl_min_acc in E as ([E|E] & _ & E2); [done|].
      f_equal. apply Nat.le_antisymm; auto.
    + destruct vs as [|y vs]; [by apply elem_of_nil in Hm|]. exfalso. revert E. simpl.
      generalize y; clear. induction vs; intros y; simpl; [done|]. apply IHvs.
Qed.

Lemma foldl_min_None (vs : list nat) : foldl min_opt None vs = None ↔ vs = [].
Proof.
  split; [|by intros ->]. destruct vs as [|y vs]; [done|]. simpl. intros E. exfalso.
  revert E. generalize y; clear. induction vs; intros y; simpl; [done|]. apply IHvs.
Qed.

(** *** The last value *)

Lemma foldl_last (vs : list nat) acc :
  foldl (fun (_ : option nat) v => Some v) acc vs = match last vs with Some v => Some v | None => acc end.
Proof.
  induction vs as [|v vs IH] using rev_ind; [done|]. by rewrite foldl_app, last_snoc.
Qed.

Lemma prefix_snoc_iff p q k : q `prefix_of` p ++ [k] ↔ q `prefix_of` p ∨ q = p ++ [k].
Proof.
  rewrite <- !elem_prefixes, prefixes_snoc, elem_of_app, list_elem_of_singleton. done.
Qed.

Lemma last_omap_prefixes (f : list K → option nat) p v :
  last (omap f (prefixes p)) = Some v ↔
  ∃ q, q `prefix_of` p ∧ f q = Some v ∧
       ∀ q', q' `prefix_of` p → length q < length q' → f q' = None.
Proof.
  induction p as [|k p IH] using rev_ind.
  - simpl. split.
    + intros H. exists []. split_and!; [done | by destruct (f []) |].
      intros q' ->%prefix_nil_inv Hl. simpl in Hl. lia.
    + intros (q & ->%prefix_nil_inv & -> & _). done.
  - rewrite prefixes_snoc, omap_app. setoid_rewrite prefix_snoc_iff. simpl.
    destruct (f (p ++ [k])) as [w|] eqn:E.
    + rewrite last_snoc. split.
      * intros [= <-]. exists (p ++ [k]). split_and!; [by right | done|].
        intros q' [Hq| ->]; [apply prefix_length in Hq; rewrite length_app; simpl; lia | lia].
      * intros (q & [Hq| ->] & Hv & Hmax); [|congruence].
        apply prefix_length in Hq. rewrite Hmax in E; [done|by right|].
        rewrite length_app. simpl. lia.
    + rewrite app_nil_r, IH. split.
      * intros (q & Hq & Hv & Hmax). exists q. split_and!; [by left | done|].
        intros q' [Hq'| ->] Hl; [by apply Hmax | done].
      * intros (q & [Hq| ->] & Hv & Hmax); [|congruence]. exists q. split_and!; [done..|].
        intros q' Hq' Hl. apply Hmax; [by left | done].
Qed.

(** *** Trees built by insertion *)

Definition insert_all l t : T := foldl (fun t e => pt_insert e.1 e.2 t) t l.

(** The first value listed for the path [q]. *)
Fixpoint first_value q l : option nat :=
  match l with
  | [] => None
  | (p, v) :: l => if decide (p = q) then Some v else first_value q l
  end.

(** The first entry whose path is a prefix of [q]: what a linear scan finds. *)
Fixpoint first_match q l : option nat :=
  match l with
  | [] => None
  | (p, v) :: l => if decide (p `prefix_of` q) then Some v else first_match q l
  end.

Lemma first_value_app q l1 l2 :
  first_value q (l1 ++ l2)
  = match first_value q l1 with Some v => Some v | None => first_value q l2 end.
Proof. induction l1 as [|[p v] l1 IH]; simpl; [done|]. by case_decide. Qed.

Lemma first_value_elem q l v : first_value q l = Some v → (q, v) ∈ l.
Proof.
  induction l as [|[p w] l IH]; simpl; [done|]. case_decide as E.
  - intros [= <-]. subst. left.
  - intros H. right. auto.
Qed.

Lemma first_value_None q l v : first_value q l = None → (q, v) ∈ l → False.
Proof.
  induction l as [|[p w] l IH]; simpl; [by intros _ ?%elem_of_nil|].
  case_decide as E; [done|]. intros H [[= -> ->]|Hin]%elem_of_cons; [done|auto].
Qed.

Lemma first_match_Some q l v :
  first_match q l = Some v → ∃ p, p `prefix_of` q ∧ first_value p l = Some v.
Proof.
  induction l as [|[p w] l IH]; simpl; [done|]. case_decide as E.
  - intros [= <-]. exists p. split; [done|]. by rewrite decide_True.
  - intros (p' & Hp & Hv)%IH. exists p'. split; [done|].
    rewrite decide_False; [done|]. by intros ->.
Qed.

Lemma first_match_None q l p v : first_match q l = None → (p, v) ∈ l → ¬ p `prefix_of` q.
Proof.
  induction l as [|[p' w] l IH]; simpl; [by intros _ ?%elem_of_nil|].
  case_decide; [done|]. intros H1 [[= -> ->]|H2]%elem_of_cons; auto.
Qed.

(** In a list sorted by value the first match is the least. *)
Lemma first_match_least q l v p w :
  StronglySorted (fun a b => a.2 <= b.2) l →
  first_match q l = Some v → (p, w) ∈ l → p `prefix_of` q → v <= w.
Proof.
  induction 1 as [|[p' w'] l Hs IH Hall]; [done|]. simpl. case_decide as E.
  - intros [= <-] [[= -> ->]|Hin]%elem_of_cons _; [lia|].
    rewrite Forall_forall in Hall. exact (Hall _ Hin).
  - intros Hm [[= -> ->]|Hin]%elem_of_cons Hp; [done|]. eauto.
Qed.

Class PrefixTreeLaws : Prop := {
  pt_new_value : ∀ q, value_at q pt_new = None;
  pt_insert_value : ∀ p v t q,
    value_at q (pt_insert p v t)
    = if decide (q = p) then or_value (value_at q t) v else value_at q t;
}.

Context `{!PrefixTreeLaws}.

Lemma value_at_insert_all l q : value_at q (insert_all l pt_new) = first_value q l.
Proof.
  induction l as [|[p v] l IH] using rev_ind; [apply pt_new_value|].
  unfold insert_all in *. rewrite foldl_app. simpl. rewrite pt_insert_value, IH, first_value_app.
  simpl. case_decide as E.
  - subst. rewrite decide_True by done. unfold or_value. by destruct (first_value p l).
  - rewrite decide_False by done. by destruct (first_value q l).
Qed.

(** The least value along a path of a tree built from sorted entries is the one
    a linear scan of the entries finds first. *)
Lemma min_along_first_match l q :
  StronglySorted (fun a b => a.2 <= b.2) l →
  foldl min_opt None (values_along q (insert_all l pt_new)) = first_match q l.
Proof.
  intros Hs. destruct (first_match q l) as [v|] eqn:E.
  - apply foldl_min_spec. setoid_rewrite elem_values_along. setoid_rewrite value_at_insert_all.
    split; [by apply first_match_Some|].
    intros x (p & Hp & Hx%first_value_elem). by eapply first_match_least.
  - apply foldl_min_None. destruct (values_along _ _) as [|x vs] eqn:Ev; [done|].
    assert (Hx : x ∈ values_along q (insert_all l pt_new)) by (rewrite Ev; left).
    apply elem_values_along in Hx as (p & Hp & Hv). rewrite value_at_insert_all in Hv.
    apply first_value_elem in Hv. by eapply first_match_None in Hv.
Qed.
End prefix_tree.
Arguments PrefixTreeLaws T K {_ _}.

(** ** The domain trie as a prefix tree

    Its keys are lower-case labels: [insert] and the lookups map the labels of
    their argument. *)

Fixpoint node_insert_keys (keys : list string) (value : nat) (node : TrieNode) : TrieNode :=
  match keys with
  | [] => mkTrieNode (trie_children node) (or_value (trie_value node) value)
  | key :: keys =>
      mkTrieNode
        (<[key := node_insert_keys keys value (default trie_node_new (trie_children node !! key))]>
           (trie_children node)) (trie_value node)
  end.

#[export] Instance domain_prefix_tree : PrefixTree TrieNode string := {
  pt_value := trie_value;
  pt_child := fun k t => trie_children t !! k;
  pt_new := trie_node_new;
  pt_insert := node_insert_keys;
}.

Definition domain_path (domain : string) : list string := to_lowercase <$> labels_rev domain.

Lemma trie_node_insert_keys labels v t :
  trie_node_insert labels v t = node_insert_keys (to_lowercase <$> labels) v t.
Proof. revert t; induction labels as [|l ls IH]; intros t; simpl; [done|]. by rewrite IH. Qed.

Lemma value_at_domain_new (q : list string) : value_at q trie_node_new = None.
Proof. destruct q as [|k q]; simpl; [done|]. by rewrite lookup_empty. Qed.

Lemma domain_insert_value (p : list string) v t (q : list string) :
  value_at q (node_insert_keys p v t)
  = if decide (q = p) then or_value (value_at q t) v else value_at q t.
Proof.
  revert t q; induction p as [|k p IH]; intros t [|k' q]; simpl; [done..|].
  rewrite lookup_insert. case_decide as Ek; subst.
  - simpl. rewrite IH. destruct (trie_children t !! k') as [c|]; simpl.
    + destruct (decide (q = p)) as [->|Hne]; [by rewrite decide_True|].
      rewrite decide_False by congruence. done.
    + rewrite value_at_domain_new. destruct (decide (q = p)) as [->|Hne].
      * by rewrite decide_True.
      * by rewrite decide_False by congruence.
  - rewrite decide_False by congruence. done.
Qed.

#[export] Instance domain_prefix_tree_laws : PrefixTreeLaws TrieNode string.
Proof. split; [apply value_at_domain_new | apply domain_insert_value]. Qed.

Lemma find_loop_scan labels t acc :
  find_loop labels t acc = scan (fun _ v => Some v) (to_lowercase <$> labels) t acc.
Proof. revert t acc; induction labels as [|l ls IH]; intros t acc; simpl; [done|]. by case_match. Qed.

Lemma find_first_loop_scan labels t acc :
  find_first_loop labels t acc = scan min_opt (to_lowercase <$> labels) t acc.
Proof. revert t acc; induction labels as [|l ls IH]; intros t acc; simpl; [done|]. by case_match. Qed.

(** The trie built by inserting suffixes in order. *)
Definition domain_trie_of (l : list (string * nat)) : DomainTrie :=
  foldl (fun t e => domain_trie_insert t e.1 e.2) domain_trie_new l.
Definition domain_entries (l : list (string * nat)) : list (list string * nat) :=
  (fun e => (domain_path e.1, e.2)) <$> l.

Lemma domain_trie_of_root l : root (domain_trie_of l) = insert_all (domain_entries l) pt_new.
Proof.
  induction l as [|[s v] l IH] using rev_ind; [done|].
  unfold domain_trie_of, domain_entries, insert_all in *. rewrite fmap_app, !foldl_app. simpl.
  rewrite trie_node_insert_keys. simpl in IH. by rewrite IH.
Qed.

Lemma domain_path_nonempty s : domain_path s ≠ [].
Proof.
  unfold domain_path, labels_rev. destruct (split_on_cons "."%char s) as (h & r & ->).
  rewrite reverse_cons, fmap_app. by destruct (to_lowercase <$> reverse r).
Qed.

Lemma domain_root_value l : trie_value (root (domain_trie_of l)) = None.
Proof.
  rewrite domain_trie_of_root.
  change (value_at [] (insert_all (domain_entries l) pt_new) = None).
  rewrite value_at_insert_all. induction l as [|[s v] l IH]; [done|]. simpl.
  rewrite decide_False by apply domain_path_nonempty. exact IH.
Qed.

(** A suffix is a prefix of the reversed path exactly when it matches the way
    the rules say: equal, or preceded by a dot. *)
Definition suffix_matches (suffix domain : string) : bool :=
  String.eqb (to_lowercase domain) (to_lowercase suffix)
  || ends_with (String "."%char (to_lowercase suffix)) (to_lowercase domain).

Lemma rev_prefix_suffix {A} (l1 l2 : list A) : reverse l1 `prefix_of` reverse l2 ↔ l1 `suffix_of` l2.
Proof.
  split; intros [l H].
  - exists (reverse l). apply (f_equal reverse) in H. rewrite reverse_involutive in H.
    by rewrite H, reverse_app, reverse_involutive.
  - exists (reverse l). by rewrite H, reverse_app.
Qed.

Lemma suffix_matches_path suffix domain :
  suffix_matches suffix domain = true ↔ domain_path suffix `prefix_of` domain_path domain.
Proof.
  unfold suffix_matches, domain_path, labels_rev. rewrite orb_true_iff, String.eqb_eq, suffix_split.
  rewrite !split_on_lower, <- rev_prefix_suffix, <- !fmap_reverse. done.
Qed.

Lemma values_along_domain l q :
  values_along q (root (domain_trie_of l)) = values_below q (root (domain_trie_of l)).
Proof. unfold values_along. simpl. by rewrite domain_root_value. Qed.

Lemma domain_entries_elem l p v :
  (p, v) ∈ domain_entries l ↔ ∃ s, p = domain_path s ∧ (s, v) ∈ l.
Proof.
  unfold domain_entries. rewrite list_elem_of_fmap. split.
  - intros ([s w] & [= -> ->] & H). eauto.
  - intros (s & -> & H). by exists (s, v).
Qed.

(** The linear scan of the suffixes. *)
Fixpoint first_suffix (domain : string) (l : list (string * nat)) : option nat :=
  match l with
  | [] => None
  | (s, v) :: l => if suffix_matches s domain then Some v else first_suffix domain l
  end.

Lemma first_suffix_match d l : first_suffix d l = first_match (domain_path d) (domain_entries l).
Proof.
  induction l as [|[s v] l IH]; [done|]. simpl. pose proof (suffix_matches_path s d) as Hs.
  destruct (suffix_matches s d); case_decide as E; [done | tauto | by apply Hs in E |].
  exact IH.
Qed.

Lemma domain_entries_sorted l :
  StronglySorted (fun a b => a.2 <= b.2) l →
  StronglySorted (fun a b => a.2 <= b.2) (domain_entries l).
Proof.
  unfold domain_entries. induction 1 as [|a l H IH Hall]; [constructor|].
  rewrite fmap_cons. constructor; [done|]. rewrite Forall_fmap. exact Hall.
Qed.

Lemma find_first_match_linear (l : list (string * nat)) (d : string) :
  StronglySorted (fun a b => a.2 <= b.2) l →
  find_first_match (domain_trie_of l) d = first_suffix d l.
Proof.
  intros Hs. unfold find_first_match. rewrite find_first_loop_scan, scan_values.
  fold (domain_path d). rewrite <- values_along_domain, domain_trie_of_root, first_suffix_match.
  apply min_along_first_match. by apply domain_entries_sorted.
Qed.

(** C5: the trie lookup used for routing is the linear scan.  When suffixes are
    inserted in ascending order of their rule index, [find_first_match] returns the
    index of the first suffix that equals the domain or ends it after a dot, ignoring
    ASCII case. *)
Theorem find_first_match_is_linear_scan (l : list (string * nat)) (d : string) :
  StronglySorted (fun a b => a.2 <= b.2) l →
  find_first_match (domain_trie_of l) d = first_suffix d l.
Proof. apply find_first_match_linear. Qed.

Lemma find_first_match_is_linear_scan_witness :
  find_first_match (domain_trie_of [("google.com", 0); ("COM", 2); ("mail.google.com", 3)])
    "Mail.Google.com" = Some 0.
Proof.
  etransitivity;
    [apply (find_first_match_is_linear_scan [("google.com", 0); ("COM", 2); ("mail.google.com", 3)])
    | vm_compute; reflexivity].
  repeat constructor; simpl; lia.
Defined.

(** [DomainTrie::find] returns the longest matching suffix.  Its result is the
    value first stored for a matching suffix with at least as many labels as any other
    inserted suffix that matches; it is [None] when no inserted suffix matches. *)
Theorem find_longest_suffix (l : list (string * nat)) (d : string) (v : nat) :
  find (domain_trie_of l) d = Some v ↔
  ∃ s, suffix_matches s d = true ∧ first_value (domain_path s) (domain_entries l) = Some v ∧
       ∀ s' v', (s', v') ∈ l → suffix_matches s' d = true →
                length (domain_path s') <= length (domain_path s).
Proof.
  unfold find. rewrite find_loop_scan, scan_values, foldl_last. fold (domain_path d).
  rewrite <- values_along_domain, domain_trie_of_root.
  transitivity (last (values_along (domain_path d)
                        (insert_all (domain_entries l) pt_new)) = Some v);
    [simpl; by case_match|].
  rewrite values_along_prefixes, last_omap_prefixes. setoid_rewrite value_at_insert_all.
  split.
  - intros (q & Hq & Hv & Hmax).
    pose proof (first_value_elem _ _ _ Hv) as (s & -> & Hs)%domain_entries_elem.
    exists s. split_and!; [by apply suffix_matches_path | done |].
    intros s' v' Hin Hm%suffix_matches_path. apply Nat.nlt_ge. intros Hlt.
    specialize (Hmax _ Hm Hlt). eapply first_value_None; [exact Hmax|].
    apply domain_entries_elem. eauto.
  - intros (s & Hm & Hv & Hmax). exists (domain_path s).
    split_and!; [by apply suffix_matches_path | done |].
    intros q' Hq' Hlt. destruct (first_value q' _) as [w|] eqn:E; [|done].
    pose proof (first_value_elem _ _ _ E) as (s' & -> & Hs')%domain_entries_elem.
    apply suffix_matches_path in Hq'. specialize (Hmax _ _ Hs' Hq'). lia.
Qed.

(** *** Counting the stored suffixes *)

Lemma count_insert_child (m : gmap string TrieNode) k c :
  map_fold (fun _ child count => count + count_nodes child) 0 (<[k := c]> m)
  + match m !! k with Some c0 => count_nodes c0 | None => 0 end
  = map_fold (fun _ child count => count + count_nodes child) 0 m + count_nodes c.
Proof.
  rewrite <- insert_delete_eq.
  rewrite (map_fold_insert_L _ _ k c (delete k m)); [|intros; simpl; lia|by rewrite lookup_delete_eq].
  destruct (m !! k) as [c0|] eqn:E.
  - rewrite (map_fold_delete_L (fun _ child count => count + count_nodes child) 0 k c0 m);
      [simpl; lia | intros; simpl; lia | done].
  - rewrite delete_id by done. lia.
Qed.

Lemma count_nodes_eq ch val :
  count_nodes (mkTrieNode ch val)
  = (match val with Some _ => 1 | None => 0 end)
    + map_fold (fun _ child count => count + count_nodes child) 0 ch.
Proof. done. Qed.

Lemma count_nodes_insert p v t :
  count_nodes (node_insert_keys p v t)
  = count_nodes t + match value_at p t with None => 1 | Some _ => 0 end.
Proof.
  revert t; induction p as [|k p IH]; intros [ch val];
    cbn [node_insert_keys trie_children trie_value value_at]; rewrite !count_nodes_eq.
  - unfold or_value. simpl. destruct val; lia.
  - pose proof (count_insert_child ch k (node_insert_keys p v (default trie_node_new (ch !! k)))) as Hc.
    rewrite IH in Hc. cbn [pt_child domain_prefix_tree trie_children].
    destruct (ch !! k) as [c|]; cbn [default from_option id mbind option_bind] in *; [lia|].
    rewrite value_at_domain_new in Hc. change (count_nodes trie_node_new) with 0 in Hc. lia.
Qed.

(** [DomainTrie::len] counts the distinct suffixes: an insertion adds one
    exactly when no suffix equal to it up to ASCII case was inserted before. *)
Theorem domain_trie_len_insert (l : list (string * nat)) (s : string) (v : nat) :
  domain_trie_len (domain_trie_insert (domain_trie_of l) s v)
  = domain_trie_len (domain_trie_of l)
    + if bool_decide (domain_path s ∈ (domain_path ∘ fst <$> l)) then 0 else 1.
Proof.
  unfold domain_trie_len, domain_trie_insert. simpl.
  rewrite trie_node_insert_keys, count_nodes_insert. fold (domain_path s). f_equal.
  rewrite domain_trie_of_root.
  rewrite value_at_insert_all.
  case_bool_decide as Hin.
  - apply list_elem_of_fmap in Hin as ([s' w] & Hs & Hin). simpl in Hs.
    destruct (first_value _ _) eqn:E; [done|]. exfalso.
    eapply first_value_None; [exact E|]. apply domain_entries_elem. eauto.
  - destruct (first_value _ _) eqn:E; [|done]. exfalso. apply Hin.
    apply first_value_elem, domain_entries_elem in E as (s' & Hs & Hin').
    apply list_elem_of_fmap. by exists (s', n).
Qed.

(** ** The IP trie as a prefix tree *)

#[export] Instance ip_prefix_tree : PrefixTree IpTrieNode bool := {
  pt_value := ip_value;
  pt_child := ip_child;
  pt_new := ip_node_new;
  pt_insert := ip_node_insert;
}.

Lemma ip_child_set bit bit' c t :
  ip_child bit' (ip_set_child bit c t) = if decide (bit' = bit) then Some c else ip_child bit' t.
Proof. by destruct t, bit, bit'. Qed.

Lemma ip_value_set bit c t : ip_value (ip_set_child bit c t) = ip_value t.
Proof. by destruct t, bit. Qed.

Lemma value_at_ip_new (q : list bool) : value_at q ip_node_new = None.
Proof. by destruct q as [|[] q]. Qed.

Lemma ip_insert_value (p : list bool) v t (q : list bool) :
  value_at q (ip_node_insert p v t)
  = if decide (q = p) then or_value (value_at q t) v else value_at q t.
Proof.
  revert t q; induction p as [|b p IH]; intros t [|b' q].
  - by destruct t.
  - by destruct t, b'.
  - cbn [ip_node_insert value_at pt_value ip_prefix_tree]. rewrite ip_value_set.
    by rewrite decide_False.
  - cbn [ip_node_insert value_at pt_child ip_prefix_tree]. rewrite ip_child_set.
    destruct (decide (b' = b)) as [->|Hne].
    + cbn [mbind option_bind]. rewrite IH. destruct (ip_child b t) as [c|] eqn:E; simpl.
      * destruct (decide (q = p)) as [->|Hne]; [by rewrite decide_True|].
        by rewrite decide_False by congruence.
      * rewrite value_at_ip_new. destruct (decide (q = p)) as [->|Hne];
          [by rewrite decide_True | by rewrite decide_False by congruence].
    + by rewrite decide_False by congruence.
Qed.

#[export] Instance ip_prefix_tree_laws : PrefixTreeLaws IpTrieNode bool.
Proof. split; [apply value_at_ip_new | apply ip_insert_value]. Qed.

Lemma longest_loop_scan bits t acc : longest_loop bits t acc = scan (fun _ v => Some v) bits t acc.
Proof. revert t acc; induction bits as [|b bs IH]; intros t acc; simpl; [done|]. by case_match. Qed.

Lemma first_loop_scan bits t acc : first_loop bits t acc = scan min_opt bits t acc.
Proof. revert t acc; induction bits as [|b bs IH]; intros t acc; simpl; [done|]. by case_match. Qed.

(** ** The bits of an address *)

Lemma byte_bits_of_Z z k : (0 <= k)%Z →
  byte_bits (byte_of_Z (z / 2 ^ k)) = (fun i => Z.testbit z (k + i)) <$> [7; 6; 5; 4; 3; 2; 1; 0]%Z.
Proof.
  intros Hk. unfold byte_bits. apply list_fmap_ext. intros i x Hx.
  assert (0 <= x < 8)%Z as Hr.
  { destruct i as [|[|[|[|[|[|[|[|i]]]]]]]]; simpl in Hx; inv Hx; lia. }
  rewrite byte_to_of_Z. change 256%Z with (2 ^ 8)%Z.
  rewrite Z.mod_pow2_bits_low by lia. rewrite <- Z.shiftr_div_pow2, Z.shiftr_spec by lia.
  f_equal. lia.
Qed.

Definition msb_bits (w : nat) (z : Z) : list bool :=
  (fun i => Z.testbit z (Z.of_nat w - 1 - Z.of_nat i)) <$> seq 0 w.

Lemma octets_to_bits_be n z : octets_to_bits (to_be_bytes n z) = msb_bits (8 * n) z.
Proof.
  induction n as [|n IH]; [done|].
  change (octets_to_bits (to_be_bytes (S n) z))
    with (byte_bits (byte_of_Z (z / 256 ^ Z.of_nat n)) ++ octets_to_bits (to_be_bytes n z)).
  rewrite IH. change 256%Z with (2 ^ 8)%Z. rewrite <- Z.pow_mul_r, byte_bits_of_Z by lia.
  unfold msb_bits. replace (8 * S n) with (8 + 8 * n) by lia.
  rewrite seq_app, fmap_app. f_equal.
  - cbn [seq fmap list_fmap]. repeat (apply (f_equal2 cons); [f_equal; lia|]). done.
  - change (0 + 8) with (8 + 0). rewrite <- (fmap_add_seq 8 0 (8 * n)), <- list_fmap_compose.
    apply list_fmap_ext. intros i x _. simpl. f_equal. lia.
Qed.

Lemma msb_bits_lookup w z i :
  i < w → msb_bits w z !! i = Some (Z.testbit z (Z.of_nat w - 1 - Z.of_nat i)).
Proof.
  intros H. unfold msb_bits. rewrite list_lookup_fmap, lookup_seq_lt by done. done.
Qed.

Lemma length_msb_bits w z : length (msb_bits w z) = w.
Proof. unfold msb_bits. by rewrite length_fmap, length_seq. Qed.

Lemma take_msb_bits w p a b :
  p <= w → in_width (Z.of_nat w) a → in_width (Z.of_nat w) b →
  take p (msb_bits w a) = take p (msb_bits w b) ↔
  Z.shiftr a (Z.of_nat w - Z.of_nat p) = Z.shiftr b (Z.of_nat w - Z.of_nat p).
Proof.
  intros Hp Ha Hb. split.
  - intros H. apply Z.bits_inj'. intros n Hn. rewrite !Z.shiftr_spec by lia.
    destruct (Z.lt_ge_cases (n + (Z.of_nat w - Z.of_nat p)) (Z.of_nat w)) as [Hlt|Hge].
    + set (i := Z.to_nat (Z.of_nat p - 1 - n)).
      assert (Hi : take p (msb_bits w a) !! i = take p (msb_bits w b) !! i) by (by rewrite H).
      rewrite !lookup_take_lt, !msb_bits_lookup in Hi by lia.
      injection Hi as Hi. replace (n + (Z.of_nat w - Z.of_nat p))%Z
        with (Z.of_nat w - 1 - Z.of_nat i)%Z by lia. done.
    + by rewrite !(in_width_testbit_high (Z.of_nat w)) by (done || lia).
  - intros H. apply list_eq. intros i. destruct (decide (i < p)) as [Hi|Hi].
    + rewrite !lookup_take_lt, !msb_bits_lookup by lia. f_equal.
      replace (Z.of_nat w - 1 - Z.of_nat i)%Z
        with ((Z.of_nat p - 1 - Z.of_nat i) + (Z.of_nat w - Z.of_nat p))%Z by lia.
      rewrite <- !Z.shiftr_spec by lia. by rewrite H.
    + rewrite !lookup_take_ge by lia. done.
Qed.

Section ip_trie_correct.
Context {IpNet : Type} `{!IpNetOps IpNet} `{!IpNetLaws IpNet}.
Implicit Types (n : IpNet) (l : list (IpNet * nat)) (ip : IpAddr).

Definition is_v4 ip : bool := match ip with V4 _ => true | V6 _ => false end.
Definition ip_path ip : list bool := octets_to_bits (octets ip).
Definition net_path n : list bool := prefix_bits (ip_path (net_addr n)) (net_prefix_len n).
Definition root_of (t : IpPrefixTrie) (v4 : bool) : IpTrieNode :=
  if v4 then root_v4 t else root_v6 t.

(** The trie built by inserting networks in order. *)
Definition ip_trie_of l : IpPrefixTrie :=
  foldl (fun t e => ip_trie_insert t e.1 e.2) ip_trie_new l.

(** The entries that go to the root of one address family. *)
Fixpoint family_entries (v4 : bool) l : list (list bool * nat) :=
  match l with
  | [] => []
  | (n, v) :: l =>
      if bool_decide (is_v4 (net_addr n) = v4) then (net_path n, v) :: family_entries v4 l
      else family_entries v4 l
  end.

Lemma family_entries_app v4 l1 l2 :
  family_entries v4 (l1 ++ l2) = family_entries v4 l1 ++ family_entries v4 l2.
Proof. induction l1 as [|[n v] l1 IH]; simpl; [done|]. case_bool_decide; simpl; by rewrite IH. Qed.

Lemma family_entries_elem v4 l p v :
  (p, v) ∈ family_entries v4 l ↔ ∃ n, p = net_path n ∧ is_v4 (net_addr n) = v4 ∧ (n, v) ∈ l.
Proof.
  induction l as [|[n w] l IH]; simpl; [set_solver|].
  case_bool_decide as E; rewrite ?elem_of_cons, IH; set_solver.
Qed.

Lemma ip_trie_of_root l v4 :
  root_of (ip_trie_of l) v4 = insert_all (family_entries v4 l) pt_new.
Proof.
  induction l as [|[n v] l IH] using rev_ind; [by destruct v4|].
  unfold ip_trie_of, insert_all in *. rewrite foldl_app, family_entries_app, foldl_app.
  rewrite <- IH. cbn [foldl family_entries fst snd].
  unfold ip_trie_insert, net_path, ip_path, octets_to_bits_v4, octets_to_bits_v6.
  by destruct (net_addr n), v4.
Qed.

Lemma prefix_bits_take bits k : k <= length bits → prefix_bits bits k = take k bits.
Proof.
  intros Hk. unfold prefix_bits. apply list_eq. intros i.
  rewrite list_lookup_fmap. destruct (decide (i < k)) as [Hi|Hi].
  - rewrite lookup_seq_lt, lookup_take_lt by done. simpl.
    destruct (bits !! i) eqn:E; [done|]. apply lookup_ge_None in E. lia.
  - rewrite lookup_seq_ge, lookup_take_ge by lia. done.
Qed.

Definition width_of ip : nat := match ip with V4 _ => 32 | V6 _ => 128 end.

Lemma ip_path_bits ip : ip_path ip = msb_bits (width_of ip) (addr_bits ip).
Proof. destruct ip as [a|a]; [exact (octets_to_bits_be 4 a) | exact (octets_to_bits_be 16 a)]. Qed.

Lemma ip_ok_width ip : ip_ok ip → in_width (Z.of_nat (width_of ip)) (addr_bits ip).
Proof. by destruct ip. Qed.

Lemma prefix_len_le n : net_prefix_len n <= width_of (net_addr n).
Proof. pose proof (net_prefix_le n). unfold addr_width, width_of in *. by destruct (net_addr n); lia. Qed.

Lemma net_path_take n :
  net_path n = take (net_prefix_len n) (msb_bits (width_of (net_addr n)) (addr_bits (net_addr n))).
Proof.
  unfold net_path. rewrite ip_path_bits. apply prefix_bits_take.
  rewrite length_msb_bits. apply prefix_len_le.
Qed.

Lemma length_net_path n : length (net_path n) = net_prefix_len n.
Proof. unfold net_path, prefix_bits. by rewrite length_fmap, length_seq. Qed.

Lemma prefix_iff_take {A} (p q : list A) : p `prefix_of` q ↔ take (length p) q = p.
Proof.
  split; [intros [r ->]; apply take_app_length|]. intros H. rewrite <- H. apply prefix_take.
Qed.

(** [IpNet::contains] is the prefix relation on bit paths. *)
Lemma net_contains_path n ip : ip_ok ip →
  net_contains n ip = true ↔
  is_v4 (net_addr n) = is_v4 ip ∧ net_path n `prefix_of` ip_path ip.
Proof.
  intros Hok. rewrite net_contains_spec, prefix_iff_take, length_net_path, net_path_take, ip_path_bits.
  pose proof (prefix_len_le n) as Hp. pose proof (ip_ok_width _ (net_addr_ok n)) as Hn.
  apply ip_ok_width in Hok.
  destruct (net_addr n) as [a|a], ip as [b|b]; simpl in *;
    (split; intros [Hf H]); try done; (split; [done|]).
  - symmetry. apply (take_msb_bits 32); done.
  - symmetry in H. by apply (take_msb_bits 32) in H.
  - symmetry. apply (take_msb_bits 128); done.
  - symmetry in H. by apply (take_msb_bits 128) in H.
Qed.

(** The linear scan of the networks. *)
Fixpoint first_net ip l : option nat :=
  match l with
  | [] => None
  | (n, v) :: l => if net_contains n ip then Some v else first_net ip l
  end.

Lemma first_net_match ip l : ip_ok ip →
  first_net ip l = first_match (ip_path ip) (family_entries (is_v4 ip) l).
Proof.
  intros Hok. induction l as [|[n v] l IH]; [done|]. simpl.
  pose proof (net_contains_path n ip Hok) as Hn.
  case_bool_decide as E; simpl; rewrite IH; destruct (net_contains n ip).
  - rewrite decide_True; [done|]. by apply Hn.
  - rewrite decide_False; [done|]. intros H. discriminate (proj2 Hn (conj E H)).
  - exfalso. by apply E, Hn.
  - done.
Qed.

Lemma family_entries_sorted v4 l :
  StronglySorted (fun a b => a.2 <= b.2) l →
  StronglySorted (fun a b => a.2 <= b.2) (family_entries v4 l).
Proof.
  induction 1 as [|[n v] l H IH Hall]; simpl; [constructor|].
  case_bool_decide; [|done]. constructor; [done|]. rewrite Forall_forall in Hall. apply Forall_forall.
  intros [p w] (n' & _ & _ & Hin)%family_entries_elem. exact (Hall _ Hin).
Qed.

Lemma first_prefix_match_values (t : IpPrefixTrie) ip :
  first_prefix_match t ip = foldl min_opt None (values_along (ip_path ip) (root_of t (is_v4 ip))).
Proof.
  rewrite <- scan_values_root. unfold first_prefix_match, ip_path, ip_bits_root.
  destruct ip; cbn [octets is_v4 root_of pt_value ip_prefix_tree];
    unfold octets_to_bits_v4, octets_to_bits_v6; rewrite first_loop_scan; f_equal;
    by destruct (ip_value _).
Qed.

Lemma first_prefix_match_linear l ip :
  ip_ok ip → StronglySorted (fun a b => a.2 <= b.2) l →
  first_prefix_match (ip_trie_of l) ip = first_net ip l.
Proof.
  intros Hok Hs. rewrite first_prefix_match_values, ip_trie_of_root, first_net_match by done.
  apply min_along_first_match. by apply family_entries_sorted.
Qed.

(** C6: the CIDR lookup used for routing is the linear scan.  When networks are
    inserted in ascending order of their rule index, [first_prefix_match] returns the
    index of the first network that contains the address. *)
Theorem first_prefix_match_is_linear_scan l ip :
  ip_ok ip → StronglySorted (fun a b => a.2 <= b.2) l →
  first_prefix_match (ip_trie_of l) ip = first_net ip l.
Proof. apply first_prefix_match_linear. Qed.

Lemma longest_values (t : IpPrefixTrie) ip :
  longest_prefix_match t ip = last (values_along (ip_path ip) (root_of t (is_v4 ip))).
Proof.
  pose proof (scan_values_root (fun _ v => Some v) (ip_path ip) (root_of t (is_v4 ip))) as H.
  rewrite foldl_last in H.
  transitivity (match last (values_along (ip_path ip) (root_of t (is_v4 ip))) with
                | Some v => Some v | None => None end); [|by destruct (last _)].
  rewrite <- H. unfold longest_prefix_match, ip_path, ip_bits_root.
  destruct ip; cbn [octets is_v4 root_of pt_value ip_prefix_tree];
    unfold octets_to_bits_v4, octets_to_bits_v6; rewrite longest_loop_scan; f_equal;
    by destruct (ip_value _).
Qed.

(** [longest_prefix_match] is the longest-prefix match.  Its result is the value
    first stored for a network that contains the address and whose prefix is at least
    as long as that of any other inserted network containing it; it is [None] when no
    inserted network contains the address. *)
Theorem longest_prefix_match_longest l ip v :
  ip_ok ip →
  longest_prefix_match (ip_trie_of l) ip = Some v ↔
  ∃ n, net_contains n ip = true ∧
       first_value (net_path n) (family_entries (is_v4 ip) l) = Some v ∧
       ∀ n' v', (n', v') ∈ l → net_contains n' ip = true → net_prefix_len n' <= net_prefix_len n.
Proof.
  intros Hok. rewrite longest_values, ip_trie_of_root, values_along_prefixes, last_omap_prefixes.
  setoid_rewrite value_at_insert_all. split.
  - intros (q & Hq & Hv & Hmax).
    pose proof (first_value_elem _ _ _ Hv) as (n & -> & Hf & Hin)%family_entries_elem.
    exists n. split_and!; [by apply net_contains_path | done |].
    intros n' v' Hin' (Hf' & Hp)%net_contains_path; [|done]. apply Nat.nlt_ge. intros Hlt.
    rewrite <- !length_net_path in Hlt. eapply first_value_None; [exact (Hmax _ Hp Hlt)|].
    apply family_entries_elem. eauto.
  - intros (n & (Hf & Hp)%net_contains_path & Hv & Hmax); [|done]. exists (net_path n).
    split_and!; [done..|]. intros q' Hq' Hlt.
    destruct (first_value q' _) as [w|] eqn:E; [|done].
    pose proof (first_value_elem _ _ _ E) as (n' & -> & Hf' & Hin')%family_entries_elem.
    rewrite !length_net_path in Hlt. specialize (Hmax _ _ Hin').
    rewrite net_contains_path in Hmax by done. specialize (Hmax (conj Hf' Hq')). lia.
Qed.
End ip_trie_correct.

(** ** A concrete family of networks

    Three CIDR blocks, with [contains] computed from the addresses: the laws of
    [IpNetLaws] hold of them. *)

Inductive SampleNet : Type := net_10_8 | net_10_1_16 | net_v6_2001_32.

#[export] Instance SampleNet_eq_dec : EqDecision SampleNet.
Proof. solve_decision. Defined.

Definition sample_addr (n : SampleNet) : IpAddr :=
  match n with
  | net_10_8 => V4 167772160
  | net_10_1_16 => V4 167837696
  | net_v6_2001_32 => V6 (Z.shiftl 536939960 96)
  end.
Definition sample_len (n : SampleNet) : nat :=
  match n with net_10_8 => 8 | net_10_1_16 => 16 | net_v6_2001_32 => 32 end.

#[export] Instance sample_net_ops : IpNetOps SampleNet := {
  net_addr := sample_addr;
  net_prefix_len := sample_len;
  net_contains n ip :=
    same_family (sample_addr n) ip &&
    (let k := (addr_width ip - Z.of_nat (sample_len n))%Z in
     (Z.shiftr (addr_bits (sample_addr n)) k =? Z.shiftr (addr_bits ip) k)%Z);
  net_parse s :=
    if String.eqb s "10.0.0.0/8" then Some net_10_8
    else if String.eqb s "10.1.0.0/16" then Some net_10_1_16
    else if String.eqb s "2001:db8::/32" then Some net_v6_2001_32 else None;
}.

#[export] Instance sample_net_laws : IpNetLaws SampleNet.
Proof.
  split.
  - intros []; split; vm_compute; congruence.
  - intros []; vm_compute; congruence.
  - intros n ip. simpl. rewrite andb_true_iff, Z.eqb_eq. done.
Qed.

Lemma first_prefix_match_is_linear_scan_witness :
  first_prefix_match (ip_trie_of [(net_10_1_16, 1); (net_10_8, 4); (net_v6_2001_32, 6)])
    (V4 167837953) = Some 1.
Proof.
  etransitivity;
    [apply (first_prefix_match_is_linear_scan
              [(net_10_1_16, 1); (net_10_8, 4); (net_v6_2001_32, 6)] (V4 167837953))
    | vm_compute; reflexivity].
  - split; vm_compute; congruence.
  - repeat constructor; simpl; lia.
Defined.

Lemma longest_prefix_match_longest_witness :
  ∃ n, net_contains n (V4 167837953) = true ∧
       first_value (net_path n) (family_entries true [(net_10_8, 4); (net_10_1_16, 7)]) = Some 7 ∧
       ∀ n' v', (n', v') ∈ [(net_10_8, 4); (net_10_1_16, 7)] →
                net_contains n' (V4 167837953) = true → net_prefix_len n' <= net_prefix_len n.
Proof.
  apply (longest_prefix_match_longest [(net_10_8, 4); (net_10_1_16, 7)] (V4 167837953) 7);
    [split; vm_compute; congruence | vm_compute; reflexivity].
Defined.

(** ** The LRU cache *)

Definition lru_lookup (c : RouteLruCache) (key : string) : option string :=
  e ← list_find (fun e => e.1 = key) (entries c); Some e.2.2.

(** No key twice, and never more entries than the capacity. *)
Definition lru_inv (c : RouteLruCache) : Prop :=
  NoDup (entries c).*1 ∧ length (entries c) <= capacity c.

Definition drop_key (key : string) (l : list (string * string)) : list (string * string) :=
  filter (fun e => e.1 ≠ key) l.

Lemma drop_key_absent key l : key ∉ l.*1 → drop_key key l = l.
Proof.
  intros H. unfold drop_key. induction l as [|[k v] l IH]; [done|].
  rewrite fmap_cons, not_elem_of_cons in H. destruct H as [Hk H]. rewrite filter_cons_True by auto.
  f_equal. auto.
Qed.

(** Removing at the position of a key removes exactly that key. *)
Lemma delete_position key l pos :
  NoDup l.*1 → lru_position key l = Some pos → delete pos l = drop_key key l.
Proof.
  unfold lru_position. intros Hnd. rewrite fmap_Some. intros ([i e] & H & ->). simpl.
  revert i H Hnd. induction l as [|[k v] l IH]; intros i H Hnd; [done|].
  cbn [list_find] in H. inv Hnd. unfold drop_key. destruct (decide (k = key)) as [->|Hne].
  - rewrite decide_True in H by done. inv H. rewrite filter_cons_False by auto.
    symmetry. by apply drop_key_absent.
  - rewrite decide_False in H by done. apply fmap_Some in H as ([j e'] & H & [= -> ->]).
    rewrite filter_cons_True by auto. simpl. f_equal. by apply IH.
Qed.

Lemma position_None key l : lru_position key l = None → key ∉ l.*1.
Proof.
  unfold lru_position. rewrite fmap_None, list_find_None, Forall_forall. intros H Hin.
  apply list_elem_of_fmap in Hin as (e & -> & Hin). by apply (H e Hin).
Qed.

Lemma lru_removed key c :
  NoDup (entries c).*1 →
  match lru_position key (entries c) with
  | Some pos => delete pos (entries c)
  | None => entries c
  end = drop_key key (entries c).
Proof.
  intros Hnd. destruct (lru_position key (entries c)) as [pos|] eqn:E.
  - by apply delete_position.
  - symmetry. by apply drop_key_absent, position_None.
Qed.

Lemma drop_key_keys key l : NoDup l.*1 → NoDup (drop_key key l).*1 ∧ key ∉ (drop_key key l).*1.
Proof.
  intros Hnd. split.
  - unfold drop_key. induction l as [|[k v] l IH]; [done|]. inv Hnd.
    rewrite filter_cons. case_decide; [|by apply IH]. rewrite fmap_cons. constructor; [|by apply IH].
    intros (e & Hk & [_ Hin]%list_elem_of_filter)%list_elem_of_fmap.
    apply H1. simpl in Hk. rewrite Hk. by apply list_elem_of_fmap_2.
  - intros (e & -> & [Hne _]%list_elem_of_filter)%list_elem_of_fmap. by apply Hne.
Qed.

Lemma lookup_cons c k0 v0 d k :
  lru_lookup (mkLru c ((k0, v0) :: d)) k
  = if decide (k0 = k) then Some v0 else lru_lookup (mkLru c d) k.
Proof.
  unfold lru_lookup. cbn [entries list_find fst]. case_decide; [done|].
  by destruct (list_find _ d) as [[i e]|].
Qed.

Lemma lookup_snoc c key value k l :
  key ∉ l.*1 →
  lru_lookup (mkLru c (l ++ [(key, value)])) k
  = if decide (k = key) then Some value else lru_lookup (mkLru c l) k.
Proof.
  intros Hk. induction l as [|[k' v'] l IH].
  - simpl. rewrite lookup_cons. destruct (decide (key = k)) as [->|Hne].
    + by rewrite decide_True.
    + by rewrite decide_False by congruence.
  - rewrite fmap_cons, not_elem_of_cons in Hk. destruct Hk as [Hk1 Hk]. simpl in Hk1.
    rewrite <- app_comm_cons, !lookup_cons, (IH Hk).
    destruct (decide (k' = k)) as [->|Hne]; [by rewrite decide_False by congruence | done].
Qed.

Lemma lookup_drop_key c key k l :
  lru_lookup (mkLru c (drop_key key l)) k
  = if decide (k = key) then None else lru_lookup (mkLru c l) k.
Proof.
  unfold drop_key. induction l as [|[k' v'] l IH].
  - simpl. by case_decide.
  - destruct (decide (k' = key)) as [Heq|Hne].
    2: { rewrite filter_cons_True, !lookup_cons, IH by done.
         destruct (decide (k' = k)) as [->|]; [by rewrite decide_False | done]. }
    { rewrite filter_cons_False, lookup_cons, IH by auto. destruct (decide (k' = k)) as [->|Hk]; [|done].
      destruct (decide (k = key)) as [|Hk]; [done|congruence]. }
Qed.

Lemma lru_inv_push cap d key value :
  NoDup d.*1 → key ∉ d.*1 → length d < cap → lru_inv (mkLru cap (d ++ [(key, value)])).
Proof.
  intros H1 H2 H3. split; simpl; [|rewrite length_app; simpl; lia].
  rewrite fmap_app. apply NoDup_app. split_and!; [done| |by apply NoDup_singleton].
  intros x Hx ->%list_elem_of_singleton. done.
Qed.

Lemma lookup_absent c d k : k ∉ d.*1 → lru_lookup (mkLru c d) k = None.
Proof.
  intros H. unfold lru_lookup. rewrite bind_None. left.
  apply list_find_None, Forall_forall. simpl. intros e He <-. by apply H, list_elem_of_fmap_2.
Qed.

(** Pushing a key in front of which the oldest entry was dropped when full. *)
Lemma lru_push_lookup cap d key value k0 v0 k :
  NoDup ((k0, v0) :: d).*1 → key ∉ d.*1 → k ≠ key →
  lru_lookup (mkLru cap (d ++ [(key, value)])) k = lru_lookup (mkLru cap ((k0, v0) :: d)) k ∨
  (k = k0 ∧ lru_lookup (mkLru cap (d ++ [(key, value)])) k = None).
Proof.
  rewrite fmap_cons. intros Hnd Hk Hne. inv Hnd.
  rewrite lookup_snoc, decide_False, lookup_cons by done. simpl in *.
  destruct (decide (k0 = k)) as [->|Hk0]; [|by left].
  right. split; [done|]. by apply lookup_absent.
Qed.

(** The route cache is a bounded least-recently-used map.  With a positive
    capacity an insertion succeeds, keeps every key once and the size within the
    capacity, makes the new value visible, and loses no other key than the oldest one,
    and that one only when the cache was full. *)
Theorem lru_insert_spec (c : RouteLruCache) (key value : string) :
  0 < capacity c → lru_inv c →
  ∃ c', lru_insert c key value = Some c' ∧ lru_inv c' ∧ capacity c' = capacity c ∧
        lru_lookup c' key = Some value ∧
        ∀ k, k ≠ key →
             lru_lookup c' k = lru_lookup c k ∨
             (capacity c <= length (drop_key key (entries c)) ∧
              fst <$> head (drop_key key (entries c)) = Some k ∧ lru_lookup c' k = None).
Proof.
  intros Hcap [Hnd Hlen]. unfold lru_insert. rewrite lru_removed by done.
  destruct (drop_key_keys key _ Hnd) as [Hnd' Hk]. destruct c as [cap es]. simpl in *.
  pose proof (fun k => lookup_drop_key cap key k es) as Hlook.
  assert (Hle : length (drop_key key es) <= length es) by apply length_filter.
  set (d := drop_key key es) in *. clearbody d.
  case_bool_decide as Hfull.
  - destruct d as [|[k0 v0] d]; [simpl in Hfull; lia|]. cbn [mbind option_bind].
    pose proof Hnd' as Hnd0. rewrite fmap_cons in Hnd', Hk.
    apply NoDup_cons in Hnd' as [Hk0 Hnd']. apply not_elem_of_cons in Hk as [_ Hk].
    eexists. split; [done|]. split_and!.
    + apply lru_inv_push; [done..|]. simpl in *. lia.
    + done.
    + rewrite lookup_snoc by done. by rewrite decide_True.
    + intros k Hne. specialize (Hlook k). rewrite decide_False in Hlook by done.
      rewrite <- Hlook.
      destruct (lru_push_lookup cap d key value k0 v0 k) as [H|[-> H]]; [done..|by left|].
      right. split_and!; done.
  - eexists. split; [done|]. split_and!.
    + apply lru_inv_push; [done..|]. lia.
    + done.
    + rewrite lookup_snoc by done. by rewrite decide_True.
    + intros k Hne. left. rewrite lookup_snoc, decide_False by done.
      rewrite Hlook. by rewrite decide_False.
Qed.

Lemma lru_insert_spec_witness :
  ∃ c', lru_insert (mkLru 2 [("a", "1"); ("b", "2")]) "c" "3" = Some c' ∧ lru_inv c' ∧
        lru_lookup c' "c" = Some "3".
Proof.
  destruct (lru_insert_spec (mkLru 2 [("a", "1"); ("b", "2")]) "c" "3") as (c' & H1 & H2 & _ & H3 & _).
  - simpl. lia.
  - split; simpl; [|lia]. apply (bool_decide_unpack _). vm_compute. exact I.
  - exists c'. auto.
Defined.

(** A hit moves the entry to the most recently used end and changes no
    lookup; a miss changes nothing. *)
Theorem lru_get_spec (c : RouteLruCache) (key k : string) :
  lru_inv c →
  let '(c', r) := lru_get c key in
  r = lru_lookup c key ∧ lru_inv c' ∧ lru_lookup c' k = lru_lookup c k ∧
  (r ≠ None → fst <$> last (entries c') = Some key).
Proof.
  intros [Hnd Hlen]. unfold lru_get. destruct (lru_position key (entries c)) as [pos|] eqn:E.
  - pose proof (delete_position _ _ _ Hnd E) as Hdel.
    unfold lru_position in E. apply fmap_Some in E as ([i [k0 v0]] & E & ->). cbn [fst] in *.
    assert (Hl : lru_lookup c key = Some v0) by (unfold lru_lookup; by rewrite E).
    apply list_find_Some in E as (Hi & Hk & _). simpl in Hk. subst k0. rewrite Hi, Hdel.
    destruct (drop_key_keys key _ Hnd) as [Hnd' Hkey]. destruct c as [cap es]. simpl in *.
    rewrite last_snoc, lookup_snoc, lookup_drop_key by done. split_and!; [done| |by case_decide; subst|done].
    apply lru_inv_push; [done..|]. rewrite <- Hdel. rewrite length_delete by eauto.
    apply lookup_lt_Some in Hi. lia.
  - split_and!; [|done..|done]. symmetry. destruct c as [cap es]. apply lookup_absent.
    by apply position_None.
Qed.

Lemma lru_get_spec_witness :
  fst <$> last (entries (lru_get (mkLru 2 [("a", "1"); ("b", "2")]) "a").1) = Some "a".
Proof.
  apply (lru_get_spec (mkLru 2 [("a", "1"); ("b", "2")]) "a" "a").
  - split; simpl; [|lia]. apply (bool_decide_unpack _). vm_compute. exact I.
  - vm_compute. congruence.
Defined.

(** A cache of capacity 0 cannot be used: every insertion of a new key calls
    [Vec::remove(0)] on an empty vector and panics. *)
Theorem lru_zero_capacity_panics (key value : string) :
  lru_insert (lru_new 0) key value = None.
Proof. done. Qed.
