(* ===== verification/Rules.v ===== *)
(** * Routing rules: [router/rules.rs], [router/geosite.rs], [router/geoip.rs]
    and the matching half of [router/provider.rs]

    The rule language, the construction of rules from the configuration and the
    decision whether a rule matches a session. *)

From Stdlib Require Import Ascii.
From stdpp Require Import pretty.
From S2P Require Import Prelude RustStr Addr Trie.

Set Warnings "-register-all,-clear-no-such-hyp".
Local Open Scope string_scope.
Local Open Scope list_scope.
Local Open Scope Z_scope.

(** ** What the rules are given from outside *)

(** [regex::Regex] *)
Class RegexOps (Regex : Type) := {
  regex_new : string → option Regex;
  regex_is_match : Regex → string → bool;
  regex_as_str : Regex → string;
}.

(** [Display] of [ipnet::IpNet]. *)
Class IpNetDisplay (IpNet : Type) := net_to_string : IpNet → string.

(** ** Sessions and configuration *)

Inductive NetworkKind : Type := Tcp | Udp.

Record Session := mkSession {
  target : Address;
  source : option SocketAddr;
  inbound_tag : string;
  network : NetworkKind;
  sniff_enabled : bool;
  detected_protocol : option string;
}.

Record RuleConfig := mkRuleConfig {
  rule_type : string;
  values : list string;
  cfg_outbound : string;
  cfg_action : string;
  override_address : option string;
  override_port : option Z;
  cfg_sniff : bool;
  resolve_strategy : option string;
}.

(** [RuleConfig::default()] *)
Definition rule_config_default : RuleConfig :=
  mkRuleConfig "" [] "" "route" None None false None.

(** ** GeoSite: named lists of domain rules *)

Inductive SiteRule : Type :=
| SiteDomain (d : string)
| SiteDomainSuffix (s : string)
| SiteDomainKeyword (k : string).

Record GeoSiteDb := mkGeoSiteDb { categories : gmap string (list SiteRule) }.

Definition geosite_parse_line (line : string) : option SiteRule :=
  let line := trim line in
  if String.eqb line "" || starts_with "#" line then None
  else Some
    match strip_prefix "domain:" line with
    | Some domain => SiteDomain (to_lowercase domain)
    | None =>
        match strip_prefix "domain_suffix:" line with
        | Some suffix => SiteDomainSuffix (to_lowercase suffix)
        | None =>
            match strip_prefix "domain_keyword:" line with
            | Some keyword => SiteDomainKeyword (to_lowercase keyword)
            | None => SiteDomainSuffix (to_lowercase line)
            end
        end
    end.
Definition geosite_parse_rules (content : string) : list SiteRule :=
  omap geosite_parse_line (lines content).

(** [GeoSiteDb::load]: [content] is the text [fs::read_to_string] returned. *)
Definition geosite_load (content : option string) (category : string) : option GeoSiteDb :=
  content ← content;
  Some (mkGeoSiteDb {[ to_lowercase category := geosite_parse_rules content ]}).

Definition geosite_load_multiple (entries : list (option string * string)) : option GeoSiteDb :=
  cats ← foldl (fun (acc : option (gmap string (list SiteRule))) '(content, category) =>
                  m ← acc; text ← content;
                  Some (<[ to_lowercase category := geosite_parse_rules text ]> m))
               (Some ∅) entries;
  Some (mkGeoSiteDb cats).

Definition site_rule_matches (domain_lower : string) (rule : SiteRule) : bool :=
  match rule with
  | SiteDomain d => String.eqb domain_lower d
  | SiteDomainSuffix suffix =>
      String.eqb domain_lower suffix || ends_with (String "."%char suffix) domain_lower
  | SiteDomainKeyword keyword => contains keyword domain_lower
  end.
Definition geosite_matches (db : GeoSiteDb) (domain category : string) : bool :=
  let category_lower := to_lowercase category in
  match categories db !! category_lower with
  | Some rules => existsb (site_rule_matches (to_lowercase domain)) rules
  | None => false
  end.

(** ** GeoIP: the reader is [maxminddb], a parameter *)

Record CountryInfo := mkCountryInfo { iso_code : option string }.
Record Country := mkCountry { country : option CountryInfo }.
Record GeoIpDb := mkGeoIpDb { reader_lookup : IpAddr → option Country }.

Definition lookup_country (db : GeoIpDb) (ip : IpAddr) : option string :=
  result ← reader_lookup db ip; info ← country result; iso_code info.

(** ** Rule providers *)

Inductive DomainRule : Type :=
| DrFull (d : string)
| DrSuffix (s : string)
| DrKeyword (k : string).

Record RuleProviderConfig := mkRuleProviderConfig {
  provider_type : string;
  behavior : string;
  path : string;
  url : option string;
  interval : Z;
  lazy : bool;
}.

Definition domain_rule_matches (domain_lower : string) (rule : DomainRule) : bool :=
  match rule with
  | DrFull d => String.eqb domain_lower d
  | DrSuffix suffix =>
      String.eqb domain_lower suffix || ends_with (String "."%char suffix) domain_lower
  | DrKeyword keyword => contains keyword domain_lower
  end.

(** [extract_process_name]: what follows the last slash or backslash. *)
Fixpoint extract_process_name (p : string) : string :=
  match p with
  | "" => ""
  | String a t =>
      if existsb (fun c => Ascii.eqb c "/"%char || Ascii.eqb c "\"%char) (String.list_ascii_of_string t)
      then extract_process_name t
      else if Ascii.eqb a "/"%char || Ascii.eqb a "\"%char then t else p
  end.

Definition process_path_matches (is_windows : bool) (rule_path process_path : string) : bool :=
  if is_windows then
    eq_ignore_ascii_case rule_path process_path
    || eq_ignore_ascii_case (extract_process_name rule_path) (extract_process_name process_path)
  else
    String.eqb rule_path process_path
    || String.eqb (extract_process_name rule_path) (extract_process_name process_path).

Section rules.
Context {IpNet Regex : Type} `{!IpNetOps IpNet} `{!IpNetDisplay IpNet} `{!RegexOps Regex}.

Record RuleSetData := mkRuleSetData { domain_rules : list DomainRule; ip_cidrs : list IpNet }.

Definition ruleset_matches_domain (d : RuleSetData) (domain : string) : bool :=
  existsb (domain_rule_matches (to_lowercase domain)) (domain_rules d).
Definition ruleset_matches_ip (d : RuleSetData) (ip : IpAddr) : bool :=
  existsb (fun net => net_contains net ip) (ip_cidrs d).

Record RuleProvider := mkRuleProvider {
  prov_name : string;
  prov_config : RuleProviderConfig;
  prov_rules : RuleSetData;
  prov_loaded : bool;
}.

Definition provider_new (name : string) (config : RuleProviderConfig) : RuleProvider :=
  mkRuleProvider name config (mkRuleSetData [] []) false.

(** The process table, the Wi-Fi name, the platform, and what loading a lazy
    provider reads from its file or server ([None]: the load fails). *)
Record Env := mkEnv {
  wifi_ssid : option string;
  process_lookup : SocketAddr → option string;
  process_lookup_path : SocketAddr → option string;
  load_once : RuleProvider → option RuleSetData;
  is_windows : bool;
}.

Definition ensure_loaded_for_match (env : Env) (p : RuleProvider) : RuleProvider :=
  if negb (lazy (prov_config p)) || prov_loaded p then p
  else match load_once env p with
       | Some data => mkRuleProvider (prov_name p) (prov_config p) data true
       | None => p
       end.
Definition provider_matches_domain (env : Env) (p : RuleProvider) (domain : string) : bool :=
  ruleset_matches_domain (prov_rules (ensure_loaded_for_match env p)) domain.
Definition provider_matches_ip (env : Env) (p : RuleProvider) (ip : IpAddr) : bool :=
  ruleset_matches_ip (prov_rules (ensure_loaded_for_match env p)) ip.

(** ** Rules *)

Inductive Rule : Type :=
| DomainSuffix (suffixes : list string)
| DomainKeyword (keywords : list string)
| DomainFull (domains : list string)
| DomainRegex (regexes : list Regex)
| IpCidr (nets : list IpNet)
| GeoIp (codes : list string)
| GeoSite (cats : list string)
| RuleSet (name : string) (data : RuleProvider)
| DstPort (ports : list Z)
| SrcPort (ports : list Z)
| Network (net : string)
| InTag (tags : list string)
| ProcessName (names : list string)
| ProcessPath (paths : list string)
| IpAsn (asns : list Z)
| Uid (uids : list Z)
| Protocol (protocols : list string)
| And (sub_rules : list Rule)
| Or (sub_rules : list Rule)
| Not (inner : Rule)
| WifiSsid (ssids : list string).

Definition list_mem (x : string) (l : list string) : bool := existsb (String.eqb x) l.

(** [Rule::matches_session] *)
Fixpoint matches_session (env : Env) (geoip_db : option GeoIpDb) (geosite_db : option GeoSiteDb)
    (source : option SocketAddr) (network inbound_tag detected_protocol : option string)
    (addr : Address) (rule : Rule) {struct rule} : bool :=
  match rule with
  | DomainSuffix suffixes =>
      match addr with
      | Domain domain _ =>
          let domain_lower := to_lowercase domain in
          existsb (fun suffix =>
                     let suffix_lower := to_lowercase suffix in
                     String.eqb domain_lower suffix_lower
                     || ends_with (String "."%char suffix_lower) domain_lower) suffixes
      | Ip _ => false
      end
  | DomainKeyword keywords =>
      match addr with
      | Domain domain _ =>
          existsb (fun kw => contains (to_lowercase kw) (to_lowercase domain)) keywords
      | Ip _ => false
      end
  | DomainFull domains =>
      match addr with
      | Domain domain _ => existsb (fun d => String.eqb (to_lowercase d) (to_lowercase domain)) domains
      | Ip _ => false
      end
  | DomainRegex regexes =>
      match addr with
      | Domain domain _ => existsb (fun re => regex_is_match re domain) regexes
      | Ip _ => false
      end
  | IpCidr nets =>
      match addr with
      | Ip sock_addr => existsb (fun net => net_contains net (sock_ip sock_addr)) nets
      | Domain _ _ => false
      end
  | GeoIp codes =>
      match addr, geoip_db with
      | Ip sock_addr, Some db =>
          match lookup_country db (sock_ip sock_addr) with
          | Some country => list_mem (to_uppercase country) codes
          | None => false
          end
      | _, _ => false
      end
  | GeoSite cats =>
      match addr, geosite_db with
      | Domain domain _, Some db => existsb (fun cat => geosite_matches db domain cat) cats
      | _, _ => false
      end
  | RuleSet _ data =>
      match addr with
      | Domain domain _ => provider_matches_domain env data domain
      | Ip sock_addr => provider_matches_ip env data (sock_ip sock_addr)
      end
  | DstPort ports => existsb (Z.eqb (port addr)) ports
  | SrcPort ports =>
      match source with
      | Some src => existsb (Z.eqb (sock_port src)) ports
      | None => false
      end
  | Network net => match network with Some n => String.eqb n net | None => false end
  | InTag tags => match inbound_tag with Some tag => list_mem tag tags | None => false end
  | ProcessName names =>
      match source with
      | Some src =>
          match process_lookup env src with
          | Some process_name =>
              existsb (fun name => eq_ignore_ascii_case process_name name
                                   || eq_ignore_ascii_case process_name (extract_process_name name))
                      names
          | None => false
          end
      | None => false
      end
  | ProcessPath paths =>
      match source with
      | Some src =>
          match process_lookup_path env src with
          | Some process_path =>
              existsb (fun p => process_path_matches (is_windows env) p process_path) paths
          | None => false
          end
      | None => false
      end
  | IpAsn _ => false
  | Uid _ => false
  | Protocol protocols =>
      match detected_protocol with Some proto => list_mem proto protocols | None => false end
  | And sub_rules =>
      forallb (matches_session env geoip_db geosite_db source network inbound_tag
                 detected_protocol addr) sub_rules
  | Or sub_rules =>
      existsb (matches_session env geoip_db geosite_db source network inbound_tag
                 detected_protocol addr) sub_rules
  | Not inner =>
      negb (matches_session env geoip_db geosite_db source network inbound_tag
              detected_protocol addr inner)
  | WifiSsid ssids =>
      match wifi_ssid env with
      | Some current => existsb (fun s => eq_ignore_ascii_case s current) ssids
      | None => false
      end
  end.

(** [Rule::matches] *)
Definition rule_matches (env : Env) (rule : Rule) (addr : Address)
    (geoip_db : option GeoIpDb) (geosite_db : option GeoSiteDb) : bool :=
  matches_session env geoip_db geosite_db None None None None addr rule.

(** ** Rules from the configuration

    A sub-rule of [and], [or] and [not] is written "type:value"; the recursion is on
    the length of that value, which [fuel] bounds. *)

Inductive rule_error : Type :=
| InvalidRegex (s : string)
| InvalidNet (s : string)
| InvalidPort (s : string)
| InvalidAsn (s : string)
| InvalidUid (s : string)
| BadSubRule (v : string)
| NotRequiresSubRule
| UnsupportedRuleType (t : string)
| OutOfFuel.

Definition parse_each {A} (f : string → option A) (e : string → rule_error) (l : list string)
  : result rule_error (list A) :=
  collect_results ((fun s => match f s with Some a => Ok a | None => Err (e s) end) <$> l).

Definition sub_config (config : RuleConfig) (ty value : string) : RuleConfig :=
  mkRuleConfig ty [value] (cfg_outbound config) "route" None None false None.

(** [v.splitn(2, ':')] with exactly two parts, and the rule they describe. *)
Definition sub_rule (from_config : RuleConfig → result rule_error Rule) (config : RuleConfig)
    (v : string) : result rule_error Rule :=
  match split_once ":"%char v with
  | Some (ty, value) => from_config (sub_config config ty value)
  | None => Err (BadSubRule v)
  end.

Definition is_type (config : RuleConfig) (t : string) : bool := String.eqb (rule_type config) t.

Fixpoint from_config_fuel (fuel : nat) (config : RuleConfig) : result rule_error Rule :=
  match fuel with
  | O => Err OutOfFuel
  | S fuel =>
      if is_type config "domain-suffix" then Ok (DomainSuffix (values config))
      else if is_type config "domain-keyword" then Ok (DomainKeyword (values config))
      else if is_type config "domain-full" then Ok (DomainFull (values config))
      else if is_type config "domain-regex" then
        let? regexes := parse_each regex_new InvalidRegex (values config) in Ok (DomainRegex regexes)
      else if is_type config "ip-cidr" then
        let? nets := parse_each net_parse InvalidNet (values config) in Ok (IpCidr nets)
      else if is_type config "geoip" then Ok (GeoIp (to_uppercase <$> values config))
      else if is_type config "geosite" then Ok (GeoSite (to_lowercase <$> values config))
      else if is_type config "dst-port" then
        let? ports := parse_each (parse_uint 16) InvalidPort (values config) in Ok (DstPort ports)
      else if is_type config "src-port" then
        let? ports := parse_each (parse_uint 16) InvalidPort (values config) in Ok (SrcPort ports)
      else if is_type config "network" then
        Ok (Network (to_lowercase (default "" (head (values config)))))
      else if is_type config "in-tag" then Ok (InTag (values config))
      else if is_type config "process-name" then Ok (ProcessName (values config))
      else if is_type config "process-path" then Ok (ProcessPath (values config))
      else if is_type config "ip-asn" then
        let? asns := parse_each (parse_uint 32) InvalidAsn (values config) in Ok (IpAsn asns)
      else if is_type config "uid" then
        let? uids := parse_each (parse_uint 32) InvalidUid (values config) in Ok (Uid uids)
      else if is_type config "protocol" then Ok (Protocol (to_lowercase <$> values config))
      else if is_type config "and" || is_type config "AND" then
        let? rules := collect_results (sub_rule (from_config_fuel fuel) config <$> values config) in
        Ok (And rules)
      else if is_type config "or" || is_type config "OR" then
        let? rules := collect_results (sub_rule (from_config_fuel fuel) config <$> values config) in
        Ok (Or rules)
      else if is_type config "not" || is_type config "NOT" then
        match head (values config) with
        | None => Err NotRequiresSubRule
        | Some v => let? inner := sub_rule (from_config_fuel fuel) config v in Ok (Not inner)
        end
      else if is_type config "wifi-ssid" || is_type config "ssid" then Ok (WifiSsid (values config))
      else Err (UnsupportedRuleType (rule_type config))
  end.

(** The longest value bounds the depth of the recursion. *)
Definition config_depth (config : RuleConfig) : nat :=
  S (foldr Nat.max 0%nat (String.length <$> values config)).
Definition rule_from_config (config : RuleConfig) : result rule_error Rule :=
  from_config_fuel (config_depth config) config.

(** [Display] of a rule *)
Definition join (l : list string) : string := join_on ","%char l.
Fixpoint rule_to_string (rule : Rule) : string :=
  match rule with
  | DomainSuffix v => "domain-suffix(" +:+ join v +:+ ")"
  | DomainKeyword v => "domain-keyword(" +:+ join v +:+ ")"
  | DomainFull v => "domain-full(" +:+ join v +:+ ")"
  | DomainRegex v => "domain-regex(" +:+ join (regex_as_str <$> v) +:+ ")"
  | IpCidr v => "ip-cidr(" +:+ join (net_to_string <$> v) +:+ ")"
  | GeoIp v => "geoip(" +:+ join v +:+ ")"
  | GeoSite v => "geosite(" +:+ join v +:+ ")"
  | RuleSet name _ => "rule-set(" +:+ name +:+ ")"
  | DstPort v => "dst-port(" +:+ join (pretty <$> v) +:+ ")"
  | SrcPort v => "src-port(" +:+ join (pretty <$> v) +:+ ")"
  | Network n => "network(" +:+ n +:+ ")"
  | InTag v => "in-tag(" +:+ join v +:+ ")"
  | ProcessName v => "process-name(" +:+ join v +:+ ")"
  | ProcessPath v => "process-path(" +:+ join v +:+ ")"
  | IpAsn v => "ip-asn(" +:+ join (pretty <$> v) +:+ ")"
  | Uid v => "uid(" +:+ join (pretty <$> v) +:+ ")"
  | Protocol v => "protocol(" +:+ join v +:+ ")"
  | And rules => "and(" +:+ join (map rule_to_string rules) +:+ ")"
  | Or rules => "or(" +:+ join (map rule_to_string rules) +:+ ")"
  | Not inner => "not(" +:+ rule_to_string inner +:+ ")"
  | WifiSsid v => "wifi-ssid(" +:+ join v +:+ ")"
  end.
End rules.

Arguments RuleSetData IpNet : clear implicits.
Arguments RuleProvider IpNet : clear implicits.
Arguments Env IpNet : clear implicits.
Arguments Rule IpNet Regex : clear implicits.

(** ** Rule actions *)

Inductive RuleAction : Type :=
| Route (tag : string)
| Reject
| RejectDrop
| Bypass
| HijackDns
| RouteOptions (override_address : option string) (override_port : option Z)
| Sniff
| Resolve (strategy : option string).

Definition action_from_config (config : RuleConfig) : RuleAction :=
  let a := cfg_action config in
  if String.eqb a "reject" then Reject
  else if String.eqb a "reject-drop" then RejectDrop
  else if String.eqb a "bypass" || String.eqb a "direct" then Bypass
  else if String.eqb a "hijack-dns" then HijackDns
  else if String.eqb a "route-options" then RouteOptions (override_address config) (override_port config)
  else if String.eqb a "sniff" then Sniff
  else if String.eqb a "resolve" then Resolve (resolve_strategy config)
  else Route (cfg_outbound config).

Definition is_final (a : RuleAction) : bool :=
  match a with
  | Route _ | Reject | RejectDrop | Bypass | HijackDns => true
  | _ => false
  end.

Definition outbound_tag (a : RuleAction) : option string :=
  match a with
  | Route tag => Some tag
  | Bypass => Some "direct"
  | _ => None
  end.

Definition action_to_string (a : RuleAction) : string :=
  match a with
  | Route tag => "route(" +:+ tag +:+ ")"
  | Reject => "reject"
  | RejectDrop => "reject-drop"
  | Bypass => "bypass"
  | HijackDns => "hijack-dns"
  | RouteOptions _ _ => "route-options"
  | Sniff => "sniff"
  | Resolve _ => "resolve"
  end.

(** ** Termination of the rule parser *)

Lemma split_once_Some c v h r : split_once c v = Some (h, r) → v = h +:+ String c r.
Proof.
  revert h; induction v as [|a v IH]; intros h; simpl; [done|].
  destruct (Ascii.eqb_spec a c) as [->|_]; [by intros [= <- <-]|].
  destruct (split_once c v) as [[h' r']|]; [|done]. intros [= <- <-].
  by rewrite (IH h').
Qed.

Lemma str_length_app (s t : string) : String.length (s +:+ t) = (String.length s + String.length t)%nat.
Proof. induction s as [|a s IH]; simpl; [done|]. by rewrite IH. Qed.

Lemma foldr_max_le (l : list nat) n : n ∈ l → (n <= foldr Nat.max 0 l)%nat.
Proof. induction l as [|m l IH]; simpl; [by intros ?%elem_of_nil|]. intros [->|H%IH]%elem_of_cons; lia. Qed.

Lemma config_depth_value config v :
  v ∈ values config → (S (String.length v) <= config_depth config)%nat.
Proof.
  intros H. unfold config_depth. apply le_n_S, foldr_max_le. by apply list_elem_of_fmap_2.
Qed.

Section termination.
Context {IpNet Regex : Type} `{!IpNetOps IpNet} `{!RegexOps Regex}.

Lemma sub_rule_depth config ty value v :
  split_once ":"%char v = Some (ty, value) → v ∈ values config →
  (S (config_depth (sub_config config ty value)) <= config_depth config)%nat.
Proof.
  intros ->%split_once_Some H%config_depth_value. rewrite str_length_app in H. simpl in H.
  unfold config_depth at 1. simpl. lia.
Qed.

Lemma collect_results_fuel {E A} (f : string → result E A) (l : list string) e :
  collect_results (f <$> l) = Err e → ∃ v, v ∈ l ∧ f v = Err e.
Proof.
  induction l as [|v l IH]; [done|]. rewrite fmap_cons. simpl.
  destruct (f v) as [a|e'] eqn:Ev; simpl.
  - destruct (collect_results (f <$> l)) as [l'|e'] eqn:El; simpl; [done|].
    intros [= ->]. destruct (IH eq_refl) as (w & Hw & Hf). exists w. split; [by right|done].
  - intros [= ->]. exists v. split; [left|done].
Qed.

Lemma parse_each_fuel {A} (f : string → option A) (e : string → rule_error) l :
  (∀ s, e s ≠ OutOfFuel) → parse_each f e l ≠ Err OutOfFuel.
Proof.
  intros He (v & _ & H)%collect_results_fuel. destruct (f v); [done|].
  injection H. apply He.
Qed.

(** Results with [config_depth] fuel do not change with more. *)
Lemma from_config_fuel_enough fuel (config : RuleConfig) :
  (config_depth config <= fuel)%nat →
  (from_config_fuel fuel config : result rule_error (Rule IpNet Regex)) ≠ Err OutOfFuel.
Proof.
  revert config; induction fuel as [|fuel IH]; intros config Hd; [unfold config_depth in Hd; lia|].
  assert (Hsub : ∀ v, v ∈ values config →
    sub_rule (from_config_fuel (IpNet := IpNet) (Regex := Regex) fuel) config v ≠ Err OutOfFuel).
  { intros v Hv. unfold sub_rule. destruct (split_once _ v) as [[ty value]|] eqn:E; [|done].
    apply IH. pose proof (sub_rule_depth _ _ _ _ E Hv). lia. }
  assert (Hbind : ∀ {A B} (c : result rule_error A) (k : A → B),
    c ≠ Err OutOfFuel → bind_result c (fun a => Ok (k a)) ≠ Err OutOfFuel) by (by intros A B []; simpl; congruence).
  assert (Hcol : collect_results
    (sub_rule (from_config_fuel (IpNet := IpNet) (Regex := Regex) fuel) config <$> values config)
    ≠ Err OutOfFuel) by (intros (v & Hv & H)%collect_results_fuel; by apply (Hsub v Hv)).
  cbn [from_config_fuel].
  repeat match goal with |- (if ?b then _ else _) ≠ _ => destruct b end;
    try done; try (apply Hbind; first [by apply parse_each_fuel | done]).
  destruct (head (values config)) as [v|] eqn:E; [|done]. apply Hbind, Hsub.
  destruct (values config); [done|]. injection E as ->. left.
Qed.

Lemma from_config_fuel_mono fuel fuel' (config : RuleConfig) :
  (config_depth config <= fuel)%nat → (fuel <= fuel')%nat →
  (from_config_fuel fuel' config : result rule_error (Rule IpNet Regex))
  = from_config_fuel fuel config.
Proof.
  revert fuel' config; induction fuel as [|fuel IH]; intros fuel' config Hd Hf;
    [unfold config_depth in Hd; lia|].
  destruct fuel' as [|fuel']; [lia|].
  assert (Hsub : ∀ v, v ∈ values config →
    sub_rule (from_config_fuel (IpNet := IpNet) (Regex := Regex) fuel') config v
    = sub_rule (from_config_fuel fuel) config v).
  { intros v Hv. unfold sub_rule. destruct (split_once _ v) as [[ty value]|] eqn:E; [|done].
    apply IH; [|lia]. pose proof (sub_rule_depth _ _ _ _ E Hv). lia. }
  assert (Hcol : sub_rule (from_config_fuel (IpNet := IpNet) (Regex := Regex) fuel') config <$> values config
    = sub_rule (from_config_fuel fuel) config <$> values config).
  { apply list_fmap_ext. intros i v Hv. apply Hsub. by apply list_elem_of_lookup_2 in Hv. }
  cbn [from_config_fuel]. rewrite Hcol.
  destruct (head (values config)) as [v|] eqn:E; [|done]. rewrite Hsub; [done|].
  destruct (values config); [done|]. injection E as ->. left.
Qed.

(** [Rule::from_config] terminates.  Nested [and]/[or]/[not] rules recurse only
    into the text after a colon, so the depth of the recursion is bounded by the
    longest value: with that fuel the parser never runs out, and more fuel never
    changes its answer. *)
Theorem rule_from_config_total (config : RuleConfig) (fuel : nat) :
  (config_depth config <= fuel)%nat →
  (from_config_fuel fuel config : result rule_error (Rule IpNet Regex)) = rule_from_config config ∧
  (rule_from_config config : result rule_error (Rule IpNet Regex)) ≠ Err OutOfFuel.
Proof.
  intros H. split; [by apply from_config_fuel_mono|]. by apply from_config_fuel_enough.
Qed.
End termination.

(** A concrete matcher for the examples: a pattern matches where it occurs. *)
#[export] Instance substring_regex : RegexOps string := {
  regex_new s := Some s;
  regex_is_match re s := contains re s;
  regex_as_str re := re;
}.
#[export] Instance sample_net_display : IpNetDisplay SampleNet :=
  fun n => match n with
           | net_10_8 => "10.0.0.0/8"
           | net_10_1_16 => "10.1.0.0/16"
           | net_v6_2001_32 => "2001:db8::/32"
           end.

Lemma rule_from_config_total_witness :
  let config := mkRuleConfig "and" ["not:dst-port:80"; "domain-suffix:cn"] "proxy" "route"
                  None None false None in
  (from_config_fuel 40 config : result rule_error (Rule SampleNet string))
  = Ok (And [Not (DstPort [80]); DomainSuffix ["cn"]]).
Proof.
  intros config. etransitivity; [apply (rule_from_config_total config 40)|].
  - apply (bool_decide_unpack _). vm_compute. exact I.
  - vm_compute. reflexivity.
Defined.
