(* ===== verification/Router.v ===== *)
(** * The router: [router/mod.rs]

    Construction of the rule table with its two lookup tries, and the routing
    decision.  The reference for the decision is a linear scan of the rules. *)

From Stdlib Require Import Ascii Sorting.Sorted.
From S2P Require Import Prelude RustStr Addr Trie Rules.

Local Open Scope string_scope.
Local Open Scope list_scope.
Local Open Scope nat_scope.

Section router.
Context {IpNet Regex : Type} `{!IpNetOps IpNet} `{!IpNetDisplay IpNet} `{!RegexOps Regex}.
Abbreviation Rule' := (Rule IpNet Regex).

(** The fields of [RouterConfig] the constructor reads. *)
Record RouterConfig := mkRouterConfig {
  cfg_rules : list RuleConfig;
  cfg_default : string;
  cfg_geoip_db : option string;
  cfg_geosite_db : option string;
  cfg_rule_providers : gmap string RuleProviderConfig;
}.

Record Router := mkRouter {
  rules : list (Rule' * RuleAction);
  default_tag : string;
  domain_trie : DomainTrie;
  ip_trie : IpPrefixTrie;
  geoip_db : option GeoIpDb;
  geosite_db : option GeoSiteDb;
  providers : gmap string (RuleProvider IpNet);
}.

Inductive router_error : Type :=
| GeoIpLoadFailed (path : string)
| GeoSiteLoadFailed (path : string)
| ProvidersLoadFailed
| UnknownProvider (name : string)
| BadRule (e : rule_error).

(** What the constructor reads from outside: the GeoIP reader, text files, the
    configured providers. *)
Record Loader := mkLoader {
  geoip_load : string → option GeoIpDb;
  read_to_string : string → option string;
  load_all_providers : gmap string RuleProviderConfig → option (gmap string (RuleProvider IpNet));
}.

(** The table under construction. *)
Record Table := mkTable {
  tb_rules : list (Rule' * RuleAction);
  tb_domain : DomainTrie;
  tb_ip : IpPrefixTrie;
}.

Definition push_rule (tb : Table) (rule : Rule') (action : RuleAction) : Table :=
  let rule_idx := length (tb_rules tb) in
  mkTable (tb_rules tb ++ [(rule, action)])
    (match rule with
     | DomainSuffix suffixes =>
         foldl (fun t suffix => domain_trie_insert t suffix rule_idx) (tb_domain tb) suffixes
     | _ => tb_domain tb
     end)
    (match rule with
     | IpCidr nets => foldl (fun t net => ip_trie_insert t net rule_idx) (tb_ip tb) nets
     | _ => tb_ip tb
     end).

(** One iteration of the loop over [config.rules]. *)
Definition add_rule (providers : gmap string (RuleProvider IpNet)) (tb : Table)
    (rule_config : RuleConfig) : result router_error Table :=
  if String.eqb (rule_type rule_config) "rule-set" then
    foldl (fun acc provider_name =>
             let? tb := acc in
             match providers !! provider_name with
             | None => Err (UnknownProvider provider_name)
             | Some data =>
                 Ok (push_rule tb (RuleSet provider_name data) (action_from_config rule_config))
             end)
          (Ok tb) (values rule_config)
  else
    match rule_from_config rule_config with
    | Err e => Err (BadRule e)
    | Ok rule => Ok (push_rule tb rule (action_from_config rule_config))
    end.

Definition geosite_categories (config : RouterConfig) : list string :=
  mjoin (values <$> filter (fun r => rule_type r = "geosite") (cfg_rules config)).

(** The GeoSite part of [Router::new]: one file, loaded under the joined names. *)
Definition load_geosite (ld : Loader) (config : RouterConfig)
  : result router_error (option GeoSiteDb) :=
  match cfg_geosite_db config with
  | None => Ok None
  | Some path =>
      let categories := geosite_categories config in
      if bool_decide (categories = []) then Ok None
      else match geosite_load (read_to_string ld path) (join categories) with
           | None => Err (GeoSiteLoadFailed path)
           | Some db => Ok (Some db)
           end
  end.

Definition load_geoip (ld : Loader) (config : RouterConfig)
  : result router_error (option GeoIpDb) :=
  match cfg_geoip_db config with
  | None => Ok None
  | Some path =>
      match geoip_load ld path with
      | None => Err (GeoIpLoadFailed path)
      | Some db => Ok (Some db)
      end
  end.

(** [Router::new] *)
Definition router_new (ld : Loader) (config : RouterConfig) : result router_error Router :=
  let? geoip := load_geoip ld config in
  let? geosite := load_geosite ld config in
  match load_all_providers ld (cfg_rule_providers config) with
  | None => Err ProvidersLoadFailed
  | Some providers =>
      let? tb := foldl (fun acc rc => let? tb := acc in add_rule providers tb rc)
                       (Ok (mkTable [] domain_trie_new ip_trie_new)) (cfg_rules config) in
      Ok (mkRouter (tb_rules tb) (cfg_default config) (tb_domain tb) (tb_ip tb)
            geoip geosite providers)
  end.

(** [rule.matches_session] as the router calls it. *)
Definition rule_hits (env : Env IpNet) (r : Router) (session : Session) (rule : Rule') : bool :=
  matches_session env (geoip_db r) (geosite_db r) (source session)
    (Some (match network session with Tcp => "tcp" | Udp => "udp" end))
    (Some (inbound_tag session)) (detected_protocol session) (target session) rule.

Definition is_trie_rule (rule : Rule') : bool :=
  match rule with DomainSuffix _ | IpCidr _ => true | _ => false end.

(** The index of the first element that satisfies [P]. *)
Fixpoint find_index {A} (P : A → bool) (k : nat) (l : list A) : option nat :=
  match l with
  | [] => None
  | x :: l => if P x then Some k else find_index P (S k) l
  end.

(** [Router::route_with_rule] *)
Definition route_with_rule (env : Env IpNet) (r : Router) (session : Session)
  : string * option string :=
  let trie_match_idx :=
    match target session with
    | Domain domain _ => find_first_match (domain_trie r) domain
    | Ip sock_addr => first_prefix_match (ip_trie r) (sock_ip sock_addr)
    end in
  let fallback_match_idx :=
    find_index (fun e => negb (is_trie_rule e.1) && rule_hits env r session e.1) 0 (rules r) in
  let selected_idx :=
    match trie_match_idx, fallback_match_idx with
    | Some a, Some b => Some (Nat.min a b)
    | Some a, None => Some a
    | None, Some b => Some b
    | None, None => None
    end in
  match selected_idx with
  | Some idx =>
      match rules r !! idx with
      | Some (rule, action) =>
          (default (default_tag r) (outbound_tag action), Some (rule_to_string rule))
      | None => (default_tag r, None)
      end
  | None => (default_tag r, None)
  end.

Definition route (env : Env IpNet) (r : Router) (session : Session) : string :=
  (route_with_rule env r session).1.

(** The reference: the first rule of the table that matches decides. *)
Definition linear_route (env : Env IpNet) (r : Router) (session : Session)
  : string * option string :=
  match list_find (fun e => rule_hits env r session e.1 = true) (rules r) with
  | Some (_, (rule, action)) =>
      (default (default_tag r) (outbound_tag action), Some (rule_to_string rule))
  | None => (default_tag r, None)
  end.

(** ** The tries hold exactly the suffix and CIDR rules *)

Fixpoint suffix_entries (k : nat) (l : list (Rule' * RuleAction)) : list (string * nat) :=
  match l with
  | [] => []
  | (rule, _) :: l =>
      (match rule with DomainSuffix ss => (fun s => (s, k)) <$> ss | _ => [] end)
      ++ suffix_entries (S k) l
  end.
Fixpoint cidr_entries (k : nat) (l : list (Rule' * RuleAction)) : list (IpNet * nat) :=
  match l with
  | [] => []
  | (rule, _) :: l =>
      (match rule with IpCidr ns => (fun n => (n, k)) <$> ns | _ => [] end)
      ++ cidr_entries (S k) l
  end.

Definition table_inv (tb : Table) : Prop :=
  tb_domain tb = domain_trie_of (suffix_entries 0 (tb_rules tb)) ∧
  tb_ip tb = ip_trie_of (cidr_entries 0 (tb_rules tb)).

Lemma suffix_entries_app k l1 l2 :
  suffix_entries k (l1 ++ l2) = suffix_entries k l1 ++ suffix_entries (k + length l1) l2.
Proof.
  revert k; induction l1 as [|[rule a] l1 IH]; intros k; simpl; [by rewrite Nat.add_0_r|].
  by rewrite IH, <- app_assoc, Nat.add_succ_r.
Qed.
Lemma cidr_entries_app k l1 l2 :
  cidr_entries k (l1 ++ l2) = cidr_entries k l1 ++ cidr_entries (k + length l1) l2.
Proof.
  revert k; induction l1 as [|[rule a] l1 IH]; intros k; simpl; [by rewrite Nat.add_0_r|].
  by rewrite IH, <- app_assoc, Nat.add_succ_r.
Qed.

Lemma foldl_fmap {A B C} (f : A → C → A) (g : B → C) (l : list B) a :
  foldl f a (g <$> l) = foldl (fun a b => f a (g b)) a l.
Proof. revert a; induction l as [|b l IH]; intros a; simpl; auto. Qed.

Lemma push_rule_inv tb rule action : table_inv tb → table_inv (push_rule tb rule action).
Proof.
  intros [Hd Hi]. split; simpl; [rewrite suffix_entries_app | rewrite cidr_entries_app]; simpl;
    rewrite app_nil_r; [unfold domain_trie_of in * | unfold ip_trie_of in *];
    rewrite foldl_app; [rewrite Hd | rewrite Hi]; destruct rule; simpl; try done;
    by rewrite foldl_fmap.
Qed.

Lemma add_rule_inv ps tb rc tb' : table_inv tb → add_rule ps tb rc = Ok tb' → table_inv tb'.
Proof.
  unfold add_rule. destruct (String.eqb _ _).
  - intros Htb. assert (Hgen : ∀ l acc, (∀ t, acc = Ok t → table_inv t) → ∀ t,
      foldl (fun acc provider_name =>
             let? tb := acc in
             match ps !! provider_name with
             | None => Err (UnknownProvider provider_name)
             | Some data =>
                 Ok (push_rule tb (RuleSet provider_name data) (action_from_config rc))
             end) acc l = Ok t → table_inv t).
    { induction l as [|name l IH]; intros acc Hacc t; simpl; [apply Hacc|].
      apply IH. intros t' (t0 & -> & H)%bind_Ok. destruct (ps !! name); [|done].
      injection H as <-. apply push_rule_inv. by apply Hacc. }
    apply Hgen. by intros t [= <-].
  - intros Htb. destruct (rule_from_config rc); [|done]. intros [= <-]. by apply push_rule_inv.
Qed.

Lemma router_new_inv ld config r :
  router_new ld config = Ok r →
  domain_trie r = domain_trie_of (suffix_entries 0 (rules r)) ∧
  ip_trie r = ip_trie_of (cidr_entries 0 (rules r)).
Proof.
  unfold router_new. intros (gi & _ & H)%bind_Ok. apply bind_Ok in H as (gs & _ & H).
  destruct (load_all_providers ld _) as [ps|]; [|done].
  apply bind_Ok in H as (tb & Htb & [= <-]). simpl.
  enough (Hgen : ∀ l acc, (∀ t, acc = Ok t → table_inv t) → ∀ t,
    foldl (fun acc rc => let? tb := acc in add_rule ps tb rc) acc l = Ok t → table_inv t).
  { eapply Hgen; [|exact Htb]. by intros t [= <-]. }
  induction l as [|rc l IH]; intros acc Hacc t; simpl; [apply Hacc|].
  apply IH. intros t' (t0 & -> & H)%bind_Ok. eapply add_rule_inv; [|exact H]. by apply Hacc.
Qed.

(** ** First index of a predicate *)

Lemma find_index_ge {A} (P : A → bool) k l i : find_index P k l = Some i → k <= i.
Proof.
  revert k; induction l as [|x l IH]; intros k; simpl; [done|].
  destruct (P x); [intros [= ->]; lia|]. intros H%IH. lia.
Qed.

Lemma find_index_ext {A} (P Q : A → bool) k l :
  (∀ x, P x = Q x) → find_index P k l = find_index Q k l.
Proof. intros H. revert k; induction l as [|x l IH]; intros k; simpl; [done|]. by rewrite H, IH. Qed.

(** Scanning the two halves of a partition separately and taking the lesser index
    is scanning the whole list. *)
Lemma find_index_partition {A} (T P : A → bool) k l :
  match find_index (fun x => T x && P x) k l, find_index (fun x => negb (T x) && P x) k l with
  | Some a, Some b => Some (Nat.min a b)
  | Some a, None => Some a
  | None, Some b => Some b
  | None, None => None
  end = find_index P k l.
Proof.
  revert k; induction l as [|x l IH]; intros k; simpl; [done|]. rewrite <- (IH (S k)).
  destruct (T x), (P x); simpl; try done.
  - destruct (find_index _ (S k) l) eqn:E; [|done]. apply find_index_ge in E. f_equal. lia.
  - destruct (find_index (fun x => T x && P x) (S k) l) eqn:E; [|done].
    apply find_index_ge in E. f_equal. lia.
Qed.

Lemma find_index_list_find {A} (P : A → bool) (l : list A) :
  find_index P 0 l = fst <$> list_find (fun x => P x = true) l.
Proof.
  enough (Hgen : ∀ k, find_index P k l = (fun e => k + e.1) <$> list_find (fun x => P x = true) l).
  { rewrite Hgen. by destruct (list_find _ l) as [[]|]. }
  induction l as [|x l IH]; intros k; simpl; [done|]. rewrite IH.
  destruct (P x) eqn:E; [rewrite decide_True by done; simpl; f_equal; lia|].
  rewrite decide_False by congruence. destruct (list_find _ l) as [[]|]; simpl; [|done].
  f_equal. lia.
Qed.

(** ** The entries of the tries *)

Lemma suffix_entries_ge k l e : e ∈ suffix_entries k l → k <= e.2.
Proof.
  revert k; induction l as [|[rule a] l IH]; intros k; simpl; [by intros ?%elem_of_nil|].
  intros [H|H%IH]%elem_of_app; [|lia].
  destruct rule; try (by apply elem_of_nil in H).
  apply list_elem_of_fmap in H as (s & -> & _). done.
Qed.
Lemma cidr_entries_ge k l e : e ∈ cidr_entries k l → k <= e.2.
Proof.
  revert k; induction l as [|[rule a] l IH]; intros k; simpl; [by intros ?%elem_of_nil|].
  intros [H|H%IH]%elem_of_app; [|lia].
  destruct rule; try (by apply elem_of_nil in H).
  apply list_elem_of_fmap in H as (s & -> & _). done.
Qed.

Lemma sorted_block {A B} (g : A → B * nat) (l : list A) k rest :
  (∀ x, (g x).2 = k) → (∀ e, e ∈ rest → k <= e.2) →
  StronglySorted (fun a b => a.2 <= b.2) rest →
  StronglySorted (fun a b => a.2 <= b.2) ((g <$> l) ++ rest).
Proof.
  intros Hg Hr Hs. induction l as [|x l IH]; [done|]. simpl. constructor; [done|].
  apply Forall_forall. intros e [(y & -> & _)%list_elem_of_fmap|He]%elem_of_app.
  - rewrite !Hg. lia.
  - rewrite Hg. auto.
Qed.

Lemma suffix_entries_sorted k l : StronglySorted (fun a b => a.2 <= b.2) (suffix_entries k l).
Proof.
  revert k; induction l as [|[rule a] l IH]; intros k; simpl; [constructor|].
  destruct rule; try apply IH. apply (sorted_block _ _ k); [done| |apply IH].
  intros e He%suffix_entries_ge. lia.
Qed.
Lemma cidr_entries_sorted k l : StronglySorted (fun a b => a.2 <= b.2) (cidr_entries k l).
Proof.
  revert k; induction l as [|[rule a] l IH]; intros k; simpl; [constructor|].
  destruct rule; try apply IH. apply (sorted_block _ _ k); [done| |apply IH].
  intros e He%cidr_entries_ge. lia.
Qed.

Lemma first_suffix_block d k ss rest :
  first_suffix d (((fun s => (s, k)) <$> ss) ++ rest)
  = if existsb (fun s => suffix_matches s d) ss then Some k else first_suffix d rest.
Proof. induction ss as [|s ss IH]; simpl; [done|]. by destruct (suffix_matches s d). Qed.

Lemma first_net_block ip k (ns : list IpNet) rest :
  first_net ip (((fun n => (n, k)) <$> ns) ++ rest)
  = if existsb (fun n => net_contains n ip) ns then Some k else first_net ip rest.
Proof. induction ns as [|n ns IH]; simpl; [done|]. by destruct (net_contains n ip). Qed.

Section decision.
Context `{!IpNetLaws IpNet}.
Context (env : Env IpNet) (r : Router) (session : Session).

Abbreviation hit := (fun e : Rule' * RuleAction => rule_hits env r session e.1).

Lemma first_suffix_index d p k l :
  target session = Domain d p →
  first_suffix d (suffix_entries k l) = find_index (fun e => is_trie_rule e.1 && hit e) k l.
Proof.
  intros Ht. revert k; induction l as [|[rule a] l IH]; intros k; [done|].
  cbn [suffix_entries find_index fst]. rewrite <- IH.
  destruct rule; simpl; try done.
  - rewrite first_suffix_block. unfold rule_hits. rewrite Ht. done.
  - unfold rule_hits. rewrite Ht. done.
Qed.

Lemma first_net_index s k l :
  target session = Ip s →
  first_net (sock_ip s) (cidr_entries k l) = find_index (fun e => is_trie_rule e.1 && hit e) k l.
Proof.
  intros Ht. revert k; induction l as [|[rule a] l IH]; intros k; [done|].
  cbn [cidr_entries find_index fst]. rewrite <- IH.
  destruct rule; simpl; try done.
  - unfold rule_hits. rewrite Ht. done.
  - rewrite first_net_block. unfold rule_hits. rewrite Ht. done.
Qed.

Lemma trie_index :
  domain_trie r = domain_trie_of (suffix_entries 0 (rules r)) →
  ip_trie r = ip_trie_of (cidr_entries 0 (rules r)) →
  addr_ok (target session) →
  match target session with
  | Domain domain _ => find_first_match (domain_trie r) domain
  | Ip sock_addr => first_prefix_match (ip_trie r) (sock_ip sock_addr)
  end = find_index (fun e => is_trie_rule e.1 && hit e) 0 (rules r).
Proof.
  intros Hd Hi Hok. destruct (target session) as [s|d p] eqn:Ht.
  - rewrite Hi, (first_prefix_match_linear (cidr_entries 0 (rules r)) (sock_ip s)).
    + by apply first_net_index.
    + destruct s; simpl in Hok |- *; tauto.
    + apply cidr_entries_sorted.
  - rewrite Hd, (find_first_match_linear (suffix_entries 0 (rules r)) d).
    + by eapply first_suffix_index.
    + apply suffix_entries_sorted.
Qed.
End decision.

(** C1: routing takes the first matching rule.  For a router built by [Router::new],
    the decision computed from the domain trie, the CIDR trie and the scan of the
    remaining rules is the one a linear scan of the whole rule table takes: the outbound
    of the first rule that matches the session, or the default. *)
Theorem route_is_first_match `{!IpNetLaws IpNet} (ld : Loader) (config : RouterConfig)
    (env : Env IpNet) (r : Router) (session : Session) :
  router_new ld config = Ok r → addr_ok (target session) →
  route_with_rule env r session = linear_route env r session.
Proof.
  intros [Hd Hi]%router_new_inv Hok. unfold route_with_rule, linear_route.
  rewrite (trie_index env r session Hd Hi Hok), find_index_partition, find_index_list_find.
  destruct (list_find _ (rules r)) as [[i [rule action]]|] eqn:E; [|done]. simpl.
  apply list_find_Some in E as (-> & _). done.
Qed.

(** A [reject] rule does not reject.  When the first rule that matches a session
    carries an action without an outbound ([reject], [reject-drop], [hijack-dns] and the
    non-final actions), the session is sent to the default outbound, the same answer as
    for a session no rule matches. *)
Theorem action_without_outbound_goes_to_default `{!IpNetLaws IpNet} (ld : Loader)
    (config : RouterConfig) (env : Env IpNet) (r : Router) (session : Session)
    (i : nat) (rule : Rule') (action : RuleAction) :
  router_new ld config = Ok r → addr_ok (target session) →
  list_find (fun e => rule_hits env r session e.1 = true) (rules r) = Some (i, (rule, action)) →
  outbound_tag action = None →
  route env r session = default_tag r.
Proof.
  intros [Hd Hi]%router_new_inv Hok Hf Ha. unfold route, route_with_rule.
  rewrite (trie_index env r session Hd Hi Hok), find_index_partition, find_index_list_find, Hf.
  simpl. apply list_find_Some in Hf as (-> & _). simpl. by rewrite Ha.
Qed.

(** ** GeoSite categories *)

Lemma string_map_length f s : String.length (string_map f s) = String.length s.
Proof. induction s as [|a s IH]; simpl; [done|]. by rewrite IH. Qed.

Lemma join_length_ge l s : s ∈ l → String.length s <= String.length (join l).
Proof.
  unfold join. induction l as [|t l IH]; [by intros ?%elem_of_nil|].
  destruct l as [|u l].
  - intros ->%list_elem_of_singleton. done.
  - rewrite join_on_cons, str_length_app by done. cbn [String.length].
    intros [->|H%IH]%elem_of_cons; lia.
Qed.

Lemma join_length_gt l s : 2 <= length l → s ∈ l → String.length s < String.length (join l).
Proof.
  destruct l as [|t [|u l]]; simpl; [lia..|]. intros _ H. unfold join.
  rewrite join_on_cons, str_length_app by done. cbn [String.length].
  apply elem_of_cons in H as [->|H%join_length_ge]; [lia|]. unfold join in H. lia.
Qed.

Lemma router_new_geosite ld config r :
  router_new ld config = Ok r → load_geosite ld config = Ok (geosite_db r).
Proof.
  unfold router_new. intros (gi & _ & H)%bind_Ok. apply bind_Ok in H as (gs & Hgs & H).
  destruct (load_all_providers ld _) as [ps|]; [|done].
  by apply bind_Ok in H as (tb & _ & [= <-]).
Qed.

Lemma geosite_loaded_key ld config db c d :
  load_geosite ld config = Ok (Some db) → 2 <= length (geosite_categories config) →
  c ∈ geosite_categories config → geosite_matches db d (to_lowercase c) = false.
Proof.
  unfold load_geosite, geosite_load. destruct (cfg_geosite_db config) as [path|]; [|done].
  case_bool_decide; [done|]. destruct (read_to_string ld path) as [text|]; [|done].
  intros [= <-] Hl Hc%join_length_gt; [|done]. unfold geosite_matches. simpl.
  rewrite to_lowercase_idem, lookup_singleton_ne; [done|].
  intros Hj%(f_equal String.length). unfold to_lowercase in Hj. rewrite !string_map_length in Hj. lia.
Qed.

(** With two or more GeoSite categories no GeoSite rule ever matches.
    [Router::new] loads the file under the single name made of all the categories joined
    by commas, while a rule looks its own category up. *)
Theorem geosite_categories_never_match (ld : Loader) (config : RouterConfig) (r : Router)
    (env : Env IpNet) (session : Session) (cats : list string) :
  router_new ld config = Ok r → 2 <= length (geosite_categories config) →
  cats ⊆ to_lowercase <$> geosite_categories config →
  rule_hits env r session (GeoSite cats) = false.
Proof.
  intros Hg%router_new_geosite Hl Hsub. unfold rule_hits. simpl.
  destruct (target session) as [s|d p]; [done|].
  destruct (geosite_db r) as [db|]; [|done].
  apply not_true_is_false. intros (c & Hin & Hm)%existsb_exists.
  apply list_elem_of_In, Hsub, list_elem_of_fmap in Hin as (c0 & -> & Hin).
  by rewrite (geosite_loaded_key ld config db c0 d) in Hm.
Qed.
End router.

(** ** Examples *)

Definition sample_loader : Loader (IpNet := SampleNet) :=
  mkLoader (fun _ => None) (fun _ => Some "domain_suffix:google.com") (fun _ => Some ∅).
Definition sample_env : Env SampleNet :=
  mkEnv None (fun _ => None) (fun _ => None) (fun _ => None) false.
Definition sample_rule (ty : string) (vs : list string) (out act : string) : RuleConfig :=
  mkRuleConfig ty vs out act None None false None.
Definition sample_config : RouterConfig :=
  mkRouterConfig
    [sample_rule "dst-port" ["22"] "ssh" "route";
     sample_rule "domain-suffix" ["google.com"; "cn"] "proxy" "route";
     sample_rule "ip-cidr" ["10.1.0.0/16"] "lan" "route";
     sample_rule "domain-keyword" ["ads"] "" "reject";
     sample_rule "geosite" ["cn"] "direct" "route";
     sample_rule "geosite" ["google"] "proxy" "route"]
    "fallback" None (Some "geosite.txt") ∅.
Definition sample_session (a : Address) : Session := mkSession a None "socks-in" Tcp false None.
Definition sample_router : Router (IpNet := SampleNet) (Regex := string) :=
  match router_new sample_loader sample_config with
  | Ok r => r
  | Err _ => mkRouter [] "" domain_trie_new ip_trie_new None None ∅
  end.

Lemma route_is_first_match_witness :
  route_with_rule sample_env sample_router (sample_session (Domain "mail.google.com" 443))
  = ("proxy", Some "domain-suffix(google.com,cn)").
Proof.
  etransitivity;
    [apply (route_is_first_match sample_loader sample_config) | vm_compute; reflexivity].
  - vm_compute. reflexivity.
  - split; vm_compute; intuition congruence.
Defined.

Lemma action_without_outbound_goes_to_default_witness :
  route sample_env sample_router (sample_session (Domain "ads.example.org" 443)) = "fallback".
Proof.
  apply (action_without_outbound_goes_to_default sample_loader sample_config sample_env
           sample_router (sample_session (Domain "ads.example.org" 443)) 3
           (DomainKeyword ["ads"]) Reject).
  - vm_compute. reflexivity.
  - split; vm_compute; intuition congruence.
  - vm_compute. reflexivity.
  - reflexivity.
Defined.

Lemma geosite_categories_never_match_witness :
  rule_hits sample_env sample_router (sample_session (Domain "google.com" 443)) (GeoSite ["google"])
  = false.
Proof.
  apply (geosite_categories_never_match sample_loader sample_config).
  - vm_compute. reflexivity.
  - apply (bool_decide_unpack _). vm_compute. exact I.
  - intros c ->%list_elem_of_singleton. apply list_elem_of_fmap. exists "google". split; [done|].
    apply (bool_decide_unpack _). vm_compute. exact I.
Defined.
