(* ===== verification/Framing.v ===== *)
(** * Cutting a receive buffer into frames

    The multiplexers ([proxy/mux/smux.rs], [proxy/mux/xudp.rs]) share one loop:
    while the buffer still has room for a header, decode a frame at the
    position reached, advance by its size, stop at the first error.  The loop is
    defined here once over the codec; [FrameCodec] is what a codec promises the
    loop, and from it follow termination, exactness and completeness of the cut
    for every codec. *)

From S2P Require Import Prelude.

Section cut.
  Context {F E : Type} (decode : bytes → result E (F * nat)) (header : nat).

(** [while consumed + header <= data.len() { match decode(&data[consumed..]) ... }];
    [None] is a loop still running when the fuel is spent. *)
Fixpoint cut_loop (fuel : nat) (data : bytes) (consumed : nat) (frames : list F)
  : option (list F * nat) :=
  match fuel with
  | O => None
  | S fuel =>
      if (consumed + header <=? length data)%nat then
        match decode (drop consumed data) with
        | Ok (frame, size) => cut_loop fuel data (consumed + size) (frames ++ [frame])
        | Err _ => Some (frames, consumed)
        end
      else Some (frames, consumed)
  end.

(** Every frame takes at least one byte, so one unit of fuel per byte and one
    for the final test are enough ([cut_spec]). *)
Definition cut (data : bytes) : option (list F * nat) :=
  cut_loop (S (length data)) data 0 [].
End cut.

(** What the loop relies on: a frame takes at least one byte of the buffer and
    no more than it has, and less than a header is never a frame. *)
Class FrameCodec {F E : Type} (decode : bytes → result E (F * nat)) (header : nat) := {
  codec_progress : ∀ data f n, decode data = Ok (f, n) → (0 < n ≤ length data)%nat;
  codec_short : ∀ data, (length data < header)%nat → is_ok (decode data) = false
}.

(** [frames_of decode data fs n]: the first [n] bytes of [data] are the frames
    [fs], one after the other. *)
Inductive frames_of {F E : Type} (decode : bytes → result E (F * nat))
  : bytes → list F → nat → Prop :=
| frames_nil data : frames_of decode data [] 0
| frames_cons data f k fs n :
    decode data = Ok (f, k) → frames_of decode (drop k data) fs n →
    frames_of decode data (f :: fs) (k + n).

Section laws.
  Context {F E : Type} (decode : bytes → result E (F * nat)) (header : nat)
          `{!FrameCodec decode header}.

Lemma cut_loop_spec fuel data consumed acc :
  (consumed ≤ length data)%nat → (length data - consumed < fuel)%nat →
  ∃ fs n, cut_loop decode header fuel data consumed acc = Some (acc ++ fs, (consumed + n)%nat)
    ∧ (consumed + n ≤ length data)%nat
    ∧ frames_of decode (drop consumed data) fs n
    ∧ is_ok (decode (drop (consumed + n) data)) = false.
Proof.
  revert consumed acc. induction fuel as [|fuel IH]; intros consumed acc Hc Hf; [lia|].
  cbn [cut_loop]. destruct (consumed + header <=? length data)%nat eqn:E1.
  - destruct (decode (drop consumed data)) as [[f size]|e] eqn:Ed.
    + pose proof (codec_progress _ _ _ Ed) as Hp. rewrite length_drop in Hp.
      destruct (IH (consumed + size)%nat (acc ++ [f])) as (fs & n & Hr & Hn & Hcat & Hend);
        [lia | lia |].
      exists (f :: fs), (size + n)%nat. rewrite Hr, <- app_assoc, Nat.add_assoc.
      split_and!; [done | lia | | done]. econstructor; [done|]. by rewrite drop_drop.
    + exists [], 0%nat. rewrite app_nil_r, Nat.add_0_r, Ed.
      split_and!; [done | done | constructor | done].
  - apply Nat.leb_gt in E1. exists [], 0%nat. rewrite app_nil_r, Nat.add_0_r.
    split_and!; [done | done | constructor |]. apply codec_short. rewrite length_drop. lia.
Qed.

(** The loop ends on every buffer, with a cut that cannot be extended. *)
Lemma cut_spec data :
  ∃ fs n, cut decode header data = Some (fs, n) ∧ (n ≤ length data)%nat
    ∧ frames_of decode data fs n ∧ is_ok (decode (drop n data)) = false.
Proof.
  destruct (cut_loop_spec (S (length data)) data 0 []) as (fs & n & Hr & Hn & Hf & He);
    [lia | lia |]. exists fs, n. rewrite drop_0 in Hf. done.
Qed.

Lemma cut_loop_complete fuel data fs n consumed acc :
  frames_of decode (drop consumed data) fs n →
  is_ok (decode (drop (consumed + n) data)) = false →
  (consumed ≤ length data)%nat → (length data - consumed < fuel)%nat →
  cut_loop decode header fuel data consumed acc = Some (acc ++ fs, (consumed + n)%nat).
Proof.
  revert consumed acc fs n. induction fuel as [|fuel IH]; intros consumed acc fs n Hf He Hc Hl; [lia|].
  cbn [cut_loop]. inv Hf as [|? f k fs' n' Hd Hrest].
  - rewrite Nat.add_0_r in *. rewrite app_nil_r.
    destruct (decode (drop consumed data)) as [[]|]; [discriminate He|]. by destruct (_ <=? _)%nat.
  - pose proof (codec_progress _ _ _ Hd) as Hp. rewrite length_drop in Hp.
    assert (Hh : (consumed + header <= length data)%nat).
    { destruct (le_lt_dec (consumed + header) (length data)) as [|Hlt]; [done|].
      pose proof (codec_short (drop consumed data)) as Hs. rewrite length_drop, Hd in Hs.
      specialize (Hs ltac:(lia)). discriminate Hs. }
    rewrite (proj2 (Nat.leb_le _ _) Hh), Hd. rewrite drop_drop in Hrest.
    rewrite (IH _ _ fs' n' Hrest); [|by rewrite <- Nat.add_assoc|lia|lia].
    rewrite <- app_assoc. do 2 f_equal. lia.
Qed.

(** A buffer that starts with frames and goes on with something that is not a
    complete frame is cut into exactly those frames. *)
Lemma cut_complete data fs n :
  frames_of decode data fs n → is_ok (decode (drop n data)) = false →
  cut decode header data = Some (fs, n).
Proof.
  intros Hf He. unfold cut. rewrite (cut_loop_complete _ data fs n 0 []); [done| |done|lia|lia].
  by rewrite drop_0.
Qed.

Lemma frames_of_encoded (encode : F → bytes) (ok : F → Prop) fs tail :
  (∀ f rest, ok f → decode (encode f ++ rest) = Ok (f, length (encode f))) →
  Forall ok fs →
  frames_of decode (concat (encode <$> fs) ++ tail) fs (length (concat (encode <$> fs))).
Proof.
  intros Hde Hok. induction Hok as [|f fs Hf Hok IH]; [constructor|].
  cbn [fmap list_fmap concat]. rewrite length_app, <- app_assoc.
  econstructor; [by apply Hde|]. by rewrite drop_app_length.
Qed.

Lemma cut_encoded (encode : F → bytes) (ok : F → Prop) fs tail :
  (∀ f rest, ok f → decode (encode f ++ rest) = Ok (f, length (encode f))) →
  Forall ok fs → is_ok (decode tail) = false →
  cut decode header (concat (encode <$> fs) ++ tail)
  = Some (fs, length (concat (encode <$> fs))).
Proof.
  intros Hde Hok Ht. apply cut_complete; [by eapply frames_of_encoded|].
  by rewrite drop_app_length.
Qed.
End laws.
