(* ===== verification/Yamux.v ===== *)
(** * yamux multiplexing ([src/src/proxy/mux/yamux.rs])

    The 12-byte frame header and the four frame builders, the receive buffer
    and send window of one logical stream, and the session that owns the
    streams.  A stream's buffer refines a FIFO queue of bytes; a session hands
    out identifiers of one parity and never reuses one that is alive, until
    the 32-bit counter has gone round.  The awaited mutex is modelled by
    running each operation as one atomic step of the session. *)

From S2P Require Import Prelude.

Definition YAMUX_VERSION : Z := 0.
Definition YAMUX_HEADER_SIZE : nat := 12.
Definition YAMUX_DEFAULT_WINDOW : Z := 256 * 1024.

Inductive YamuxType := Data | WindowUpdate | Ping | GoAway.

Definition YamuxType_as_u8 (t : YamuxType) : Z :=
  match t with Data => 0 | WindowUpdate => 1 | Ping => 2 | GoAway => 3 end.

Definition YamuxType_from_u8 (v : Z) : option YamuxType :=
  match v with
  | 0 => Some Data
  | 1 => Some WindowUpdate
  | 2 => Some Ping
  | 3 => Some GoAway
  | _ => None
  end.

Record YamuxHeader := {
  version : Z;
  msg_type : YamuxType;
  flags : Z;
  h_stream_id : Z;
  length_field : Z
}.

Definition header_encode (h : YamuxHeader) : bytes :=
  [byte_of_Z (version h); byte_of_Z (YamuxType_as_u8 (msg_type h))]
  ++ to_be_bytes 2 (flags h)
  ++ to_be_bytes 4 (h_stream_id h)
  ++ to_be_bytes 4 (length_field h).

(** The argument is a [&[u8; 12]]. *)
Definition header_decode (buf : bytes) : option YamuxHeader :=
  t ← YamuxType_from_u8 (byte_to_Z (byte_at buf 1));
  Some {| version := byte_to_Z (byte_at buf 0);
          msg_type := t;
          flags := from_be_bytes [byte_at buf 2; byte_at buf 3];
          h_stream_id := from_be_bytes [byte_at buf 4; byte_at buf 5; byte_at buf 6; byte_at buf 7];
          length_field :=
            from_be_bytes [byte_at buf 8; byte_at buf 9; byte_at buf 10; byte_at buf 11] |}.

Definition encode_data (stream_id fl : Z) (data : bytes) : bytes :=
  header_encode {| version := YAMUX_VERSION; msg_type := Data; flags := fl;
                   h_stream_id := stream_id; length_field := wrap 32 (len data) |} ++ data.

Definition encode_window_update (stream_id fl delta : Z) : bytes :=
  header_encode {| version := YAMUX_VERSION; msg_type := WindowUpdate; flags := fl;
                   h_stream_id := stream_id; length_field := delta |}.

Definition encode_ping (fl opaque : Z) : bytes :=
  header_encode {| version := YAMUX_VERSION; msg_type := Ping; flags := fl;
                   h_stream_id := 0; length_field := opaque |}.

Definition encode_goaway (reason : Z) : bytes :=
  header_encode {| version := YAMUX_VERSION; msg_type := GoAway; flags := 0;
                   h_stream_id := 0; length_field := reason |}.

(** ** One logical stream *)

Inductive StreamState :=
| Init | SynSent | SynReceived | Established | LocalClose | RemoteClose | Closed | Reset.

Record YamuxStream := {
  stream_id : Z;
  state : StreamState;
  recv_window : Z;
  send_window : Z;
  read_buf : bytes;
  read_pos : nat
}.

Definition stream_new (id : Z) : YamuxStream :=
  {| stream_id := id; state := Init; recv_window := YAMUX_DEFAULT_WINDOW;
     send_window := YAMUX_DEFAULT_WINDOW; read_buf := []; read_pos := 0 |}.

Definition set_state (st : StreamState) (s : YamuxStream) : YamuxStream :=
  {| stream_id := stream_id s; state := st; recv_window := recv_window s;
     send_window := send_window s; read_buf := read_buf s; read_pos := read_pos s |}.

Definition with_buffer (buf : bytes) (pos : nat) (s : YamuxStream) : YamuxStream :=
  {| stream_id := stream_id s; state := state s; recv_window := recv_window s;
     send_window := send_window s; read_buf := buf; read_pos := pos |}.

Definition with_send_window (w : Z) (s : YamuxStream) : YamuxStream :=
  {| stream_id := stream_id s; state := state s; recv_window := recv_window s;
     send_window := w; read_buf := read_buf s; read_pos := read_pos s |}.

Definition feed_data (data : bytes) (s : YamuxStream) : YamuxStream :=
  with_buffer (read_buf s ++ data) (read_pos s) s.

(** The unchecked subtraction: [None] is the panic. *)
Definition readable_bytes (s : YamuxStream) : option nat :=
  if (read_pos s <=? length (read_buf s))%nat
  then Some (length (read_buf s) - read_pos s)%nat else None.

(** Returns the count, the caller's buffer and the stream; [None] is the panic
    of the slice [read_buf[read_pos..]]. *)
Definition read_data (buf : bytes) (s : YamuxStream) : option (nat * bytes * YamuxStream) :=
  if (read_pos s <=? length (read_buf s))%nat then
    let available := drop (read_pos s) (read_buf s) in
    let n := (length available `min` length buf)%nat in
    let buf' := take n available ++ drop n buf in
    let pos := (read_pos s + n)%nat in
    let s' := if (length (read_buf s) <=? pos)%nat then with_buffer [] 0 s
              else with_buffer (read_buf s) pos s in
    Some (n, buf', s')
  else None.

Definition update_send_window (delta : Z) (s : YamuxStream) : YamuxStream :=
  with_send_window (saturating_add 32 (send_window s) delta) s.

Definition consume_send_window (n : Z) (s : YamuxStream) : bool * YamuxStream :=
  if n <=? send_window s then (true, with_send_window (send_window s - n) s) else (false, s).

(** ** The session *)

Record YamuxSession := {
  next_stream_id : Z;
  streams : gmap Z YamuxStream;
  is_client : bool;
  going_away : bool
}.

Definition session_client : YamuxSession :=
  {| next_stream_id := 1; streams := ∅; is_client := true; going_away := false |}.

Definition session_server : YamuxSession :=
  {| next_stream_id := 2; streams := ∅; is_client := false; going_away := false |}.

Definition with_streams (m : gmap Z YamuxStream) (s : YamuxSession) : YamuxSession :=
  {| next_stream_id := next_stream_id s; streams := m; is_client := is_client s;
     going_away := going_away s |}.

Definition set_going_away (s : YamuxSession) : YamuxSession :=
  {| next_stream_id := next_stream_id s; streams := streams s; is_client := is_client s;
     going_away := true |}.

Definition open_stream (s : YamuxSession) : Z * YamuxSession :=
  let id := next_stream_id s in
  (id, {| next_stream_id := wrap 32 (id + 2);
          streams := <[id := set_state SynSent (stream_new id)]> (streams s);
          is_client := is_client s; going_away := going_away s |}).

Definition accept_stream (id : Z) (s : YamuxSession) : YamuxSession :=
  with_streams (<[id := set_state Established (stream_new id)]> (streams s)) s.

Definition stream_count (s : YamuxSession) : nat := size (streams s).

Definition close_stream (id : Z) (s : YamuxSession) : bool * YamuxSession :=
  match streams s !! id with
  | Some _ => (true, with_streams (delete id (streams s)) s)
  | None => (false, s)
  end.

Definition feed_stream (id : Z) (data : bytes) (s : YamuxSession) : bool * YamuxSession :=
  match streams s !! id with
  | Some st => (true, with_streams (<[id := feed_data data st]> (streams s)) s)
  | None => (false, s)
  end.

(** ** The header codec *)

Definition header_ok (h : YamuxHeader) : Prop :=
  u8_ok (version h) ∧ u16_ok (flags h) ∧ u32_ok (h_stream_id h) ∧ u32_ok (length_field h).

Lemma yamux_type_from_as t : YamuxType_from_u8 (YamuxType_as_u8 t) = Some t.
Proof. by destruct t. Qed.

Lemma yamux_type_as_from v t : YamuxType_from_u8 v = Some t → YamuxType_as_u8 t = v.
Proof.
  intros H. destruct v as [|[[p|p|]|[p|p|]|]|]; simpl in H; try discriminate; by injection H as <-.
Qed.

Lemma header_encode_length h : length (header_encode h) = YAMUX_HEADER_SIZE.
Proof. done. Qed.

Lemma header_decode_encode_app h rest :
  header_ok h → header_decode (header_encode h ++ rest) = Some h.
Proof.
  destruct h as [v t f i l]; intros (Hv & Hf & Hi & Hl); simpl in *.
  unfold header_decode, header_encode, byte_at. simpl lookup. simpl default.
  rewrite !byte_to_of_small by (done || by destruct t). rewrite yamux_type_from_as.
  pose proof (from_to_be_2 f Hf). pose proof (from_to_be_4 i Hi). pose proof (from_to_be_4 l Hl).
  simpl in *. congruence.
Qed.

Lemma header_encode_decode buf h :
  length buf = YAMUX_HEADER_SIZE → header_decode buf = Some h → header_encode h = buf.
Proof.
  intros Hl H. do 12 (destruct buf as [|? buf]; [discriminate Hl|]). destruct buf; [|discriminate Hl].
  unfold header_decode, byte_at in H. simpl in H.
  destruct (YamuxType_from_u8 _) as [t|] eqn:Et; [|discriminate H].
  injection H as <-. apply yamux_type_as_from in Et.
  unfold header_encode. cbn [version msg_type flags h_stream_id length_field].
  rewrite Et, !byte_of_to_Z, to_from_be2, !to_from_be4. done.
Qed.

(** ** The stream buffer as a queue *)

(** The unread bytes: the abstract queue of the stream. *)
Definition pending (s : YamuxStream) : bytes := drop (read_pos s) (read_buf s).
Definition stream_wf (s : YamuxStream) : Prop := (read_pos s ≤ length (read_buf s))%nat.

Lemma feed_data_pending d s :
  stream_wf s → stream_wf (feed_data d s) ∧ pending (feed_data d s) = pending s ++ d.
Proof.
  unfold stream_wf, pending; simpl; intros H. rewrite length_app. split; [lia|].
  by rewrite drop_app_le.
Qed.

Lemma read_data_pending buf s :
  stream_wf s →
  ∃ n s', read_data buf s = Some (n, take n (pending s) ++ drop n buf, s')
    ∧ n = (length (pending s) `min` length buf)%nat
    ∧ stream_wf s' ∧ pending s' = drop n (pending s).
Proof.
  unfold stream_wf, read_data. intros H. rewrite (proj2 (Nat.leb_le _ _) H).
  eexists _, _; split; [reflexivity|]. split; [done|].
  fold (pending s). set (n := (length (pending s) `min` length buf)%nat).
  assert (Hp : length (pending s) = (length (read_buf s) - read_pos s)%nat)
    by (unfold pending; apply length_drop).
  destruct (length (read_buf s) <=? read_pos s + n)%nat eqn:E.
  - apply Nat.leb_le in E. simpl. split; [lia|]. unfold pending at 1. simpl.
    symmetry. apply drop_ge. lia.
  - apply Nat.leb_gt in E. simpl. split; [lia|]. unfold pending; simpl. by rewrite drop_drop.
Qed.

(** A run of feeds and reads: [reads] collects what each read delivered. *)
Inductive stream_op := Feed (d : bytes) | Read (buf : bytes).

Fixpoint stream_run (ops : list stream_op) (s : YamuxStream) : option (bytes * YamuxStream) :=
  match ops with
  | [] => Some ([], s)
  | Feed d :: ops => stream_run ops (feed_data d s)
  | Read buf :: ops =>
      '(n, buf', s') ← read_data buf s;
      '(out, s'') ← stream_run ops s';
      Some (take n buf' ++ out, s'')
  end.

Definition fed (ops : list stream_op) : bytes :=
  concat (omap (fun o => match o with Feed d => Some d | Read _ => None end) ops).

Lemma take_read n p (buf : bytes) :
  n = (length p `min` length buf)%nat → take n (take n p ++ drop n buf) = take n p.
Proof. intros ->. rewrite take_app_le by (rewrite length_take; lia). by rewrite take_take, Nat.min_id. Qed.

Lemma stream_run_queue ops s :
  stream_wf s →
  ∃ out s', stream_run ops s = Some (out, s') ∧ stream_wf s'
    ∧ out ++ pending s' = pending s ++ fed ops.
Proof.
  revert s. induction ops as [|[d|buf] ops IH]; intros s Hs.
  - exists [], s. unfold fed. simpl. by rewrite app_nil_r.
  - destruct (feed_data_pending d s Hs) as [Hwf Hp].
    destruct (IH _ Hwf) as (out & s' & Hr & Hs' & He).
    exists out, s'. split_and!; [done..|]. rewrite He, Hp. unfold fed. simpl. by rewrite <- app_assoc.
  - destruct (read_data_pending buf s Hs) as (n & s1 & Hr & Hn & Hwf & Hp).
    destruct (IH _ Hwf) as (out & s' & Hr' & Hs' & He).
    exists (take n (pending s) ++ out), s'. cbn [stream_run]. rewrite Hr. simpl. rewrite Hr'. simpl.
    rewrite take_read by done. split_and!; [done..|].
    rewrite <- app_assoc, He, Hp, app_assoc, take_drop. done.
Qed.

(** ** Identifiers of a session *)

Inductive session_op :=
| OpOpen | OpAccept (id : Z) | OpClose (id : Z) | OpFeed (id : Z) (d : bytes) | OpGoAway.

(** One operation; the identifier an [open_stream] returned is recorded. *)
Definition session_step (o : session_op) (s : YamuxSession) : list Z * YamuxSession :=
  match o with
  | OpOpen => let '(id, s') := open_stream s in ([id], s')
  | OpAccept id => ([], accept_stream id s)
  | OpClose id => ([], snd (close_stream id s))
  | OpFeed id d => ([], snd (feed_stream id d s))
  | OpGoAway => ([], set_going_away s)
  end.

Fixpoint session_run (ops : list session_op) (s : YamuxSession) : list Z * YamuxSession :=
  match ops with
  | [] => ([], s)
  | o :: ops =>
      let '(ids, s1) := session_step o s in
      let '(rest, s2) := session_run ops s1 in (ids ++ rest, s2)
  end.

Definition opens (ops : list session_op) : Z :=
  Z.of_nat (length (List.filter (fun o => match o with OpOpen => true | _ => false end) ops)).

(** The peer opens identifiers of the other parity. *)
Definition accept_even (o : session_op) : bool :=
  match o with OpAccept id => Z.even id | _ => true end.

(** Session state after the local side opened [k] streams of parity [first]. *)
Record session_wf (first k : Z) (s : YamuxSession) : Prop := {
  wf_next : next_stream_id s = wrap 32 (first + 2 * k);
  wf_streams : ∀ id st, streams s !! id = Some st →
    Z.even id = negb (Z.even first) ∨ (∃ j, 0 <= j < k ∧ id = first + 2 * j)
}.

Lemma opens_cons o ops :
  opens (o :: ops) = (match o with OpOpen => 1 | _ => 0 end) + opens ops.
Proof. unfold opens. destruct o; simpl; lia. Qed.

Lemma opens_nonneg ops : 0 <= opens ops.
Proof. unfold opens. lia. Qed.

Lemma session_step_wf k o s :
  accept_even o = true → 0 <= k → (o = OpOpen → k < 2 ^ 31) → session_wf 1 k s →
  session_wf 1 (k + match o with OpOpen => 1 | _ => 0 end) (session_step o s).2.
Proof.
  intros Ha Hk Hlt [Hn Hs]. destruct o as [|id|id|id d|]; simpl; rewrite ?Z.add_0_r.
  - split; simpl.
    + rewrite Hn. unfold wrap. rewrite Zplus_mod_idemp_l. f_equal. lia.
    + intros id st. rewrite lookup_insert_Some. intros [[<- _]|[_ H]].
      * rewrite Hn, wrap_small by (specialize (Hlt eq_refl); unfold in_width; lia). right. exists k. lia.
      * destruct (Hs _ _ H) as [?|(j & ? & ?)]; [by left|]. right. exists j. lia.
  - split; [done|]. simpl. intros id' st. rewrite lookup_insert_Some.
    intros [[<- _]|[_ H]]; [by left | eauto].
  - unfold close_stream. destruct (streams s !! id) eqn:E; simpl; [|by split].
    split; [done|]. simpl. intros id' st [_ H]%lookup_delete_Some. eauto.
  - unfold feed_stream. destruct (streams s !! id) eqn:E; simpl; [|by split].
    split; [done|]. simpl. intros id' st. rewrite lookup_insert_Some.
    intros [[<- _]|[_ H]]; eauto.
  - by split.
Qed.

(** The identifiers a run opens, counted from [k] earlier opens. *)
Lemma session_run_ids ops k s :
  forallb accept_even ops = true → 0 <= k → k + opens ops <= 2 ^ 31 → session_wf 1 k s →
  (session_run ops s).1 = (fun j => 1 + 2 * j) <$> seqZ k (opens ops)
  ∧ session_wf 1 (k + opens ops) (session_run ops s).2.
Proof.
  revert k s. induction ops as [|o ops IH]; intros k s Ha Hk Hb Hwf; [by rewrite Z.add_0_r|].
  simpl in Ha. apply andb_true_iff in Ha as [Ho Ha]. rewrite opens_cons in *.
  pose proof (opens_nonneg ops).
  assert (Hlt : o = OpOpen → k < 2 ^ 31) by (intros ->; lia).
  pose proof (session_step_wf k o s Ho Hk Hlt Hwf) as Hwf'.
  destruct (IH (k + match o with OpOpen => 1 | _ => 0 end) (session_step o s).2 Ha) as [Hids Hend];
    [destruct o; lia | lia | done |].
  cbn [session_run]. destruct (session_step o s) as [ids s1] eqn:Es. simpl in Hids, Hend.
  destruct (session_run ops s1) as [rest s2]. simpl in *. subst rest.
  split; [|by rewrite Z.add_assoc].
  destruct o; simpl in Es; injection Es as <- <-; try by rewrite Z.add_0_r.
  rewrite (seqZ_cons k (1 + _)) by lia. cbn [fmap list_fmap app]. f_equal.
  - rewrite (wf_next _ _ _ Hwf), wrap_small; [lia|]. specialize (Hlt eq_refl). unfold in_width. lia.
  - do 2 f_equal; lia.
Qed.

Lemma session_client_wf : session_wf 1 0 session_client.
Proof. split; [done|]. intros id st. simpl. by rewrite lookup_empty. Qed.

(** ** Properties *)

(** The yamux frame header is a faithful 12-byte encoding: decoding what
    [encode] wrote gives the header back whatever follows it, and every
    12-byte array that decodes is the encoding of the decoded header. *)
Theorem yamux_header_roundtrip h rest buf h' :
  header_ok h → length buf = YAMUX_HEADER_SIZE → header_decode buf = Some h' →
  header_decode (header_encode h ++ rest) = Some h ∧ header_encode h' = buf.
Proof.
  intros Hh Hl Hd. split; [by apply header_decode_encode_app | by apply header_encode_decode].
Qed.

Definition sample_header : YamuxHeader :=
  {| version := 0; msg_type := Ping; flags := 3; h_stream_id := 70000; length_field := 4294967295 |}.

Lemma yamux_header_roundtrip_witness :
  header_decode (header_encode sample_header ++ [Byte.x00]) = Some sample_header
  ∧ header_encode {| version := 0; msg_type := Data; flags := 0; h_stream_id := 0; length_field := 0 |}
    = replicate 12 Byte.x00.
Proof.
  apply (yamux_header_roundtrip sample_header [Byte.x00] (replicate 12 Byte.x00));
    [repeat split; vm_compute; congruence | reflexivity | reflexivity].
Defined.

(** The receive buffer of a yamux stream is a FIFO queue: in any sequence
    of feeds and reads (with caller buffers of any size) no operation panics,
    and the bytes delivered followed by the bytes still unread are exactly the
    bytes fed, in order; a last read into a large enough buffer delivers all
    that was unread. *)
Theorem yamux_stream_is_fifo id ops :
  ∃ out s, stream_run ops (stream_new id) = Some (out, s)
    ∧ out ++ pending s = fed ops
    ∧ readable_bytes s = Some (length (pending s))
    ∧ ∀ buf, (length (pending s) ≤ length buf)%nat →
        ∃ s', read_data buf s
              = Some (length (pending s), pending s ++ drop (length (pending s)) buf, s')
          ∧ pending s' = [].
Proof.
  destruct (stream_run_queue ops (stream_new id)) as (out & s & Hr & Hwf & He);
    [unfold stream_wf; simpl; lia|].
  exists out, s. split_and!; [done | done | |].
  - unfold readable_bytes. rewrite (proj2 (Nat.leb_le _ _) Hwf). unfold pending.
    by rewrite length_drop.
  - intros buf Hb. destruct (read_data_pending buf s Hwf) as (n & s' & Hr' & Hn & _ & Hp).
    rewrite Nat.min_l in Hn by done. subst n. exists s'.
    rewrite firstn_all in Hr'. split; [done|]. rewrite Hp. apply drop_ge. lia.
Qed.

(** The identifiers a client session opens over a run with at most 2^31
    opens are 1, 3, 5, ... in order, hence pairwise distinct, whatever streams
    are accepted (with the peer's even identifiers), fed or closed in between;
    and an [open_stream] that follows with the counter not yet exhausted never
    lands on a live stream. *)
Theorem yamux_client_ids_fresh ops :
  forallb accept_even ops = true → opens ops < 2 ^ 31 →
  let '(ids, s) := session_run ops session_client in
  ids = (fun j => 1 + 2 * j) <$> seqZ 0 (opens ops)
  ∧ NoDup ids
  ∧ streams s !! (open_stream s).1 = None.
Proof.
  intros Ha Ho. pose proof (opens_nonneg ops).
  destruct (session_run_ids ops 0 session_client Ha) as [Hids Hwf];
    [lia | lia | apply session_client_wf |].
  destruct (session_run ops session_client) as [ids s]. simpl in *. rewrite Hids.
  split_and!; [done | |].
  - apply NoDup_fmap_2; [intros x y ?; lia | apply NoDup_seqZ].
  - destruct (streams s !! next_stream_id s) as [st|] eqn:E; [|done]. exfalso.
    pose proof (wf_next _ _ _ Hwf) as Hn. rewrite wrap_small in Hn by (unfold in_width; lia).
    rewrite Hn in E. destruct (wf_streams _ _ _ Hwf _ _ E) as [He|(j & Hj & ?)]; [|lia].
    rewrite Z.even_add_mul_2 in He. discriminate He.
Qed.

Lemma yamux_client_ids_fresh_witness :
  let '(ids, s) := session_run [OpOpen; OpAccept 2; OpOpen; OpClose 1; OpFeed 2 [Byte.x01]]
                     session_client in
  ids = (fun j => 1 + 2 * j) <$> seqZ 0 2
  ∧ NoDup ids
  ∧ streams s !! (open_stream s).1 = None.
Proof.
  apply (yamux_client_ids_fresh [OpOpen; OpAccept 2; OpOpen; OpClose 1; OpFeed 2 [Byte.x01]]);
    reflexivity.
Defined.
