(* ===== verification/Smux.v ===== *)
(** * smux multiplexing ([src/src/proxy/mux/smux.rs])

    The frame codec and the loop that cuts a receive buffer into frames, a
    stream's read and write side, and the client session.  The bounded tokio
    channels are explicit queues with a capacity and the liveness of their two
    ends; an operation that awaits a full channel is one that is not yet
    enabled.  The streams' channels live in a heap that the session's table and
    the streams refer to by index, so that the sharing between a session and
    the streams it opened is visible. *)

From S2P Require Import Prelude Framing.

Definition SMUX_VERSION : Z := 1.
Definition CMD_SYN : Z := 0.
Definition CMD_FIN : Z := 1.
Definition CMD_PSH : Z := 2.
Definition CMD_NOP : Z := 3.
Definition SMUX_HEADER_LEN : nat := 8.

Record SmuxFrame := {
  version : Z;
  cmd : Z;
  stream_id : Z;
  payload : bytes
}.

Inductive decode_error := ShortHeader | ShortPayload.

Definition frame_encode (f : SmuxFrame) : bytes :=
  let l := wrap 16 (len (payload f)) in
  [byte_of_Z (version f)] ++ [byte_of_Z (cmd f)] ++ to_be_bytes 2 l
  ++ to_be_bytes 4 (stream_id f) ++ payload f.

Definition frame_decode (data : bytes) : result decode_error (SmuxFrame * nat) :=
  if (length data <? SMUX_HEADER_LEN)%nat then Err ShortHeader else
  let version := byte_to_Z (byte_at data 0) in
  let cmd := byte_to_Z (byte_at data 1) in
  let length_ := Z.to_nat (from_be_bytes [byte_at data 2; byte_at data 3]) in
  let stream_id :=
    from_be_bytes [byte_at data 4; byte_at data 5; byte_at data 6; byte_at data 7] in
  let total := (SMUX_HEADER_LEN + length_)%nat in
  if (length data <? total)%nat then Err ShortPayload else
  Ok ({| version := version; cmd := cmd; stream_id := stream_id;
         payload := slice data SMUX_HEADER_LEN total |}, total).

Definition syn (id : Z) : SmuxFrame :=
  {| version := SMUX_VERSION; cmd := CMD_SYN; stream_id := id; payload := [] |}.
Definition fin (id : Z) : SmuxFrame :=
  {| version := SMUX_VERSION; cmd := CMD_FIN; stream_id := id; payload := [] |}.
Definition psh (id : Z) (data : bytes) : SmuxFrame :=
  {| version := SMUX_VERSION; cmd := CMD_PSH; stream_id := id; payload := data |}.
Definition nop : SmuxFrame :=
  {| version := SMUX_VERSION; cmd := CMD_NOP; stream_id := 0; payload := [] |}.

Definition decode_smux_frames (data : bytes) : option (list SmuxFrame * nat) :=
  cut frame_decode SMUX_HEADER_LEN data.

(** ** Channels and streams *)

Record Channel (A : Type) := {
  queue : list A;
  capacity : nat;
  tx_alive : bool;
  rx_alive : bool
}.
Arguments queue {A} _.
Arguments capacity {A} _.
Arguments tx_alive {A} _.
Arguments rx_alive {A} _.

Inductive Poll (A : Type) := Ready (a : A) | Pending.
Arguments Ready {A} a.
Arguments Pending {A}.

Definition with_queue {A} (q : list A) (c : Channel A) : Channel A :=
  {| queue := q; capacity := capacity c; tx_alive := tx_alive c; rx_alive := rx_alive c |}.
Definition drop_tx {A} (c : Channel A) : Channel A :=
  {| queue := queue c; capacity := capacity c; tx_alive := false; rx_alive := rx_alive c |}.

Inductive send_error := Full | ChannelClosed.

(** [mpsc::Sender::try_send]. *)
Definition try_send {A} (a : A) (c : Channel A) : result send_error (Channel A) :=
  if negb (rx_alive c) then Err ChannelClosed
  else if (capacity c <=? length (queue c))%nat then Err Full
  else Ok (with_queue (queue c ++ [a]) c).

(** [mpsc::Receiver::poll_recv]. *)
Definition poll_recv {A} (c : Channel A) : Poll (option A) * Channel A :=
  match queue c with
  | a :: q => (Ready (Some a), with_queue q c)
  | [] => if tx_alive c then (Pending, c) else (Ready None, c)
  end.

Record SmuxStream := {
  s_id : Z;
  read_rx : nat;
  read_buf : bytes;
  closed : bool
}.

Definition with_read_buf (b : bytes) (s : SmuxStream) : SmuxStream :=
  {| s_id := s_id s; read_rx := read_rx s; read_buf := b; closed := closed s |}.
Definition set_closed (s : SmuxStream) : SmuxStream :=
  {| s_id := s_id s; read_rx := read_rx s; read_buf := read_buf s; closed := true |}.

(** [remaining] is the room of the caller's [ReadBuf]; the bytes put into it
    are returned.  [c] is the channel of [read_rx]. *)
Definition poll_read (remaining : nat) (s : SmuxStream) (c : Channel bytes)
  : Poll bytes * SmuxStream * Channel bytes :=
  match read_buf s with
  | _ :: _ =>
      let to_copy := (length (read_buf s) `min` remaining)%nat in
      (Ready (take to_copy (read_buf s)), with_read_buf (drop to_copy (read_buf s)) s, c)
  | [] =>
      if closed s then (Ready [], s, c) else
      match poll_recv c with
      | (Ready (Some data), c') =>
          match data with
          | [] => (Ready [], set_closed s, c')
          | _ =>
              let to_copy := (length data `min` remaining)%nat in
              let s' := if (to_copy <? length data)%nat
                        then with_read_buf (read_buf s ++ drop to_copy data) s else s in
              (Ready (take to_copy data), s', c')
          end
      | (Ready None, c') => (Ready [], set_closed s, c')
      | (Pending, c') => (Pending, s, c')
      end
  end.

Inductive io_error := BrokenPipe.

Definition poll_write (buf : bytes) (s : SmuxStream) (write_tx : Channel SmuxFrame)
  : Poll (result io_error nat) * Channel SmuxFrame :=
  let l := (length buf `min` Z.to_nat 65535)%nat in
  let frame := psh (s_id s) (take l buf) in
  match try_send frame write_tx with
  | Ok c => (Ready (Ok l), c)
  | Err Full => (Pending, write_tx)
  | Err ChannelClosed => (Ready (Err BrokenPipe), write_tx)
  end.

Definition poll_flush : Poll unit := Ready tt.

Definition poll_shutdown (s : SmuxStream) (write_tx : Channel SmuxFrame)
  : Poll unit * Channel SmuxFrame :=
  match try_send (fin (s_id s)) write_tx with
  | Ok c => (Ready tt, c)
  | Err _ => (Ready tt, write_tx)
  end.

(** ** The session *)

Record SmuxSession := {
  next_id : Z;
  frame_tx : Channel SmuxFrame;
  streams : gmap Z nat;
  chans : list (Channel bytes)
}.

Definition session_new (tx : Channel SmuxFrame) : SmuxSession :=
  {| next_id := 1; frame_tx := tx; streams := ∅; chans := [] |}.

Definition with_table (m : gmap Z nat) (cs : list (Channel bytes)) (s : SmuxSession) : SmuxSession :=
  {| next_id := next_id s; frame_tx := frame_tx s; streams := m; chans := cs |}.
Definition with_frame_tx (tx : Channel SmuxFrame) (s : SmuxSession) : SmuxSession :=
  {| next_id := next_id s; frame_tx := tx; streams := streams s; chans := chans s |}.

Definition drop_rx (c : nat) (s : SmuxSession) : SmuxSession :=
  with_table (streams s)
    (alter (fun ch => {| queue := []; capacity := capacity ch; tx_alive := tx_alive ch;
                         rx_alive := false |}) c (chans s)) s.

(** [open_stream] up to its awaited send: the identifier is taken, the new
    channel registered; an entry it replaces drops its sender. *)
Definition open_register (s : SmuxSession) : SmuxStream * SmuxSession :=
  let id := next_id s in
  let c := length (chans s) in
  let cs := match streams s !! id with
            | Some old => alter drop_tx old (chans s)
            | None => chans s
            end in
  ({| s_id := id; read_rx := c; read_buf := []; closed := false |},
   {| next_id := wrap 32 (id + 2); frame_tx := frame_tx s;
      streams := <[id := c]> (streams s);
      chans := cs ++ [{| queue := []; capacity := 64; tx_alive := true; rx_alive := true |}] |}).

(** The send of the SYN: it waits while the channel is full, and the error of
    a closed session drops the stream (and its receiver) but leaves the table
    entry. *)
Definition open_syn (st : SmuxStream) (s : SmuxSession)
  : Poll (result unit SmuxStream) * SmuxSession :=
  match try_send (syn (s_id st)) (frame_tx s) with
  | Ok tx => (Ready (Ok st), with_frame_tx tx s)
  | Err Full => (Pending, s)
  | Err ChannelClosed => (Ready (Err tt), drop_rx (read_rx st) s)
  end.

Definition open_stream (s : SmuxSession) : Poll (result unit SmuxStream) * SmuxSession :=
  let '(st, s') := open_register s in open_syn st s'.

(** [tx.send(v).await] on the channel [c] of the heap, its result ignored;
    [None] while the channel is full. *)
Definition send_on (c : nat) (v : bytes) (s : SmuxSession) : option SmuxSession :=
  match chans s !! c with
  | None => Some s
  | Some ch =>
      match try_send v ch with
      | Ok ch' => Some (with_table (streams s) (<[c := ch']> (chans s)) s)
      | Err Full => None
      | Err ChannelClosed => Some s
      end
  end.

(** The table stays locked while the send waits, so a dispatch is one step
    that is enabled once the channel has room. *)
Definition dispatch_frame (f : SmuxFrame) (s : SmuxSession) : option SmuxSession :=
  if cmd f =? CMD_PSH then
    match streams s !! stream_id f with
    | Some c => send_on c (payload f) s
    | None => Some s
    end
  else if cmd f =? CMD_FIN then
    match streams s !! stream_id f with
    | Some c =>
        s' ← send_on c [] (with_table (delete (stream_id f) (streams s)) (chans s) s);
        Some (with_table (streams s') (alter drop_tx c (chans s')) s')
    | None => Some s
    end
  else Some s.

(** ** The codec *)

Definition frame_ok (f : SmuxFrame) : Prop :=
  u8_ok (version f) ∧ u8_ok (cmd f) ∧ u32_ok (stream_id f) ∧ u16_ok (len (payload f)).

Lemma frame_encode_length f : length (frame_encode f) = (SMUX_HEADER_LEN + length (payload f))%nat.
Proof. done. Qed.

Lemma smux_decode_encode f rest :
  frame_ok f → frame_decode (frame_encode f ++ rest) = Ok (f, length (frame_encode f)).
Proof.
  destruct f as [v c i p]; intros (Hv & Hc & Hi & Hp); simpl in Hv, Hc, Hi, Hp.
  unfold frame_encode. cbn [version cmd stream_id payload]. rewrite (wrap_small 16) by done.
  pose proof (from_to_be_2 _ Hp) as H2. pose proof (from_to_be_4 _ Hi) as H4.
  remember (to_be_bytes 2 (len p)) as l2 eqn:E2. remember (to_be_bytes 4 i) as l4 eqn:E4.
  pose proof (length_to_be_bytes 2 (len p)) as L2. pose proof (length_to_be_bytes 4 i) as L4.
  rewrite <- E2 in L2. rewrite <- E4 in L4. clear E2 E4.
  destruct l2 as [|a1 [|a2 [|]]]; try discriminate L2.
  destruct l4 as [|b1 [|b2 [|b3 [|b4 [|]]]]]; try discriminate L4.
  unfold frame_decode, byte_at, SMUX_HEADER_LEN. simpl. rewrite H2, H4, !byte_to_of_small by done.
  unfold len. rewrite Nat2Z.id, length_app.
  rewrite (proj2 (Nat.ltb_ge _ _)) by (simpl; lia). unfold slice. simpl.
  by rewrite Nat.sub_0_r, drop_0, take_app_length.
Qed.

Lemma decode_sound data f n :
  frame_decode data = Ok (f, n) →
  frame_encode f = take n data ∧ (SMUX_HEADER_LEN ≤ n ≤ length data)%nat ∧ frame_ok f.
Proof.
  unfold frame_decode. destruct (length data <? SMUX_HEADER_LEN)%nat eqn:E1; [discriminate|].
  apply Nat.ltb_ge in E1. unfold SMUX_HEADER_LEN in *.
  do 8 (destruct data as [|? data]; [simpl in E1; lia|]). unfold byte_at. cbn [lookup list_lookup].
  cbn [default]. pose proof (from_be2_ok b1 b2) as Hk.
  destruct (_ <? _)%nat eqn:E2; [discriminate|]. apply Nat.ltb_ge in E2. simpl in E2.
  unfold slice. rewrite Nat.add_comm, Nat.add_sub. cbn [drop]. rewrite drop_0.
  intros [= <- <-]. unfold frame_encode, frame_ok. cbn [version cmd stream_id payload].
  unfold len. rewrite length_take, Nat.min_l by lia.
  rewrite Z2Nat.id by (destruct Hk; lia).
  rewrite wrap_small, to_from_be2, to_from_be4, !byte_of_to_Z by done.
  rewrite Nat.add_comm. split_and!; try (apply byte_to_Z_range || apply from_be4_ok || done);
    simpl; lia.
Qed.

Lemma decode_progress data f n : frame_decode data = Ok (f, n) → (0 < n ≤ length data)%nat.
Proof. intros (_ & H & _)%decode_sound. unfold SMUX_HEADER_LEN in H. lia. Qed.

Lemma decode_short data : (length data < SMUX_HEADER_LEN)%nat → frame_decode data = Err ShortHeader.
Proof. intros H. unfold frame_decode. by rewrite (proj2 (Nat.ltb_lt _ _) H). Qed.

#[export] Instance smux_codec : FrameCodec frame_decode SMUX_HEADER_LEN.
Proof. split; [exact decode_progress | intros data H; by rewrite decode_short]. Qed.

Lemma frames_of_encode data fs n :
  frames_of frame_decode data fs n → concat (frame_encode <$> fs) = take n data.
Proof.
  induction 1 as [|data f k fs n Hd Hf IH]; [done|]. cbn [fmap list_fmap concat].
  rewrite IH. destruct (decode_sound _ _ _ Hd) as (-> & _). by rewrite take_take_drop.
Qed.

(** ** What a stream delivers *)

(** The abstract stream: the payloads pushed for [id], in order, until a FIN
    or an empty push ends it. *)
Definition content_step (id : Z) (acc : bytes * bool) (f : SmuxFrame) : bytes * bool :=
  let '(content, ended) := acc in
  if ended || negb (stream_id f =? id) then acc
  else if cmd f =? CMD_PSH then
    match payload f with [] => (content, true) | p => (content ++ p, false) end
  else if cmd f =? CMD_FIN then (content, true)
  else acc.

Definition content_of (id : Z) (fs : list SmuxFrame) : bytes * bool :=
  fold_left (content_step id) fs ([], false).

(** A session and the reader of one of its streams: frames arrive, the reader
    polls.  [None] when a dispatch has to wait for room. *)
Inductive link_op := Dispatch (f : SmuxFrame) | Poll_read (n : nat).

Definition link_state : Type := bytes * SmuxSession * SmuxStream.

Definition link_step (o : link_op) (x : link_state) : option link_state :=
  let '(out, s, st) := x in
  match o with
  | Dispatch f => s' ← dispatch_frame f s; Some (out, s', st)
  | Poll_read n =>
      ch ← chans s !! read_rx st;
      let '(p, st', ch') := poll_read n st ch in
      Some (out ++ match p with Ready d => d | Pending => [] end,
            with_table (streams s) (<[read_rx st := ch']> (chans s)) s, st')
  end.

Fixpoint link_run (ops : list link_op) (x : link_state) : option link_state :=
  match ops with
  | [] => Some x
  | o :: ops => x' ← link_step o x; link_run ops x'
  end.

Definition dispatched (ops : list link_op) : list SmuxFrame :=
  omap (fun o => match o with Dispatch f => Some f | Poll_read _ => None end) ops.

Fixpoint until_empty (q : list bytes) : bytes :=
  match q with
  | [] | [] :: _ => []
  | d :: q => d ++ until_empty q
  end.
Definition is_empty (d : bytes) : bool := match d with [] => true | _ => false end.
Definition has_end (q : list bytes) : bool := existsb is_empty q.

Definition unread (st : SmuxStream) (ch : Channel bytes) : bytes :=
  read_buf st ++ (if closed st then [] else until_empty (queue ch)).

Record link_inv (id : Z) (acc : bytes * bool) (x : link_state) (ch : Channel bytes) : Prop := {
  li_chan : chans x.1.2 !! read_rx x.2 = Some ch;
  li_rx : rx_alive ch = true;
  li_content : x.1.1 ++ unread x.2 ch = acc.1;
  li_ended : acc.2 = closed x.2 || has_end (queue ch);
  li_live : acc.2 = false → streams x.1.2 !! id = Some (read_rx x.2) ∧ tx_alive ch = true;
  li_only : ∀ id', streams x.1.2 !! id' = Some (read_rx x.2) → id' = id;
  li_closed : closed x.2 = true → read_buf x.2 = []
}.

Lemma until_empty_app q d :
  until_empty (q ++ [d]) = if has_end q then until_empty q else until_empty q ++ d.
Proof.
  induction q as [|[|b e] q IH]; simpl; [by destruct d; rewrite ?app_nil_r | done |].
  rewrite IH. destruct (has_end q); [done|]. by rewrite app_comm_cons, app_assoc.
Qed.

Lemma has_end_app q d : has_end (q ++ [d]) = has_end q || is_empty d.
Proof. unfold has_end. rewrite existsb_app. simpl. by rewrite orb_false_r. Qed.

(** A frame of another stream, or after the end, adds nothing. *)
Lemma content_step_noop id acc f : (stream_id f = id → acc.2 = true) → content_step id acc f = acc.
Proof.
  intros H. destruct acc as [c [|]]; [done|]. unfold content_step.
  destruct (stream_id f =? id) eqn:E; [|done]. apply Z.eqb_eq in E. by specialize (H E).
Qed.

(** A stream whose identifier no longer leads to its channel has ended. *)
Lemma not_live_ended id acc x ch :
  link_inv id acc x ch → streams x.1.2 !! id ≠ Some (read_rx x.2) → acc.2 = true.
Proof.
  intros H Hne. destruct (acc.2) eqn:E; [done|]. by destruct (li_live _ _ _ _ H E).
Qed.

(** A message queued for the stream extends its content like a push. *)
Lemma link_inv_push id acc out s st ch d table :
  link_inv id acc (out, s, st) ch →
  (∀ id', table !! id' = Some (read_rx st) → id' = id) →
  (is_empty d = false → table = streams s) →
  link_inv id (if acc.2 then acc else (acc.1 ++ d, is_empty d))
    (out, with_table table (<[read_rx st := with_queue (queue ch ++ [d]) ch]> (chans s)) s, st)
    (with_queue (queue ch ++ [d]) ch).
Proof.
  intros [Hc Hrx Hct He Hl Ho Hcl] Ht Hd. destruct acc as [c e]; simpl in *.
  pose proof (lookup_lt_Some _ _ _ Hc) as Hlt.
  assert (Hu : unread st (with_queue (queue ch ++ [d]) ch)
               = if e then unread st ch else unread st ch ++ d).
  { unfold unread. cbn [queue with_queue]. rewrite until_empty_app, He.
    destruct (closed st); simpl; [done|]. destruct (has_end (queue ch)); [done|].
    by rewrite app_assoc. }
  split; simpl; [by rewrite list_lookup_insert_eq | done | | | | done | done].
  - rewrite Hu. destruct e; simpl; [done|]. by rewrite app_assoc, Hct.
  - rewrite has_end_app, orb_assoc, <- He. by destruct e.
  - destruct e; simpl; [discriminate|]. intros Hne. rewrite Hd by done. by apply Hl.
Qed.

(** A step that leaves the stream's channel alone, and its table entry unless
    the stream has ended, preserves the invariant. *)
Lemma link_inv_frame id acc out s s' st ch :
  link_inv id acc (out, s, st) ch →
  chans s' !! read_rx st = chans s !! read_rx st →
  (∀ id' c, streams s' !! id' = Some c → streams s !! id' = Some c) →
  (acc.2 = false → streams s' !! id = streams s !! id) →
  link_inv id acc (out, s', st) ch.
Proof.
  intros [Hc Hrx Hct He Hl Ho Hcl] Hch Hsub Hid. split; simpl in *; try done.
  - by rewrite Hch.
  - intros Hf. rewrite Hid by done. by apply Hl.
  - eauto.
Qed.

Lemma send_on_other c v s s' rx :
  send_on c v s = Some s' → c ≠ rx → chans s' !! rx = chans s !! rx ∧ streams s' = streams s.
Proof.
  unfold send_on. intros H Hne. destruct (chans s !! c) as [ch|]; [|by simplify_eq].
  destruct (try_send v ch) as [ch'|[]]; simplify_eq; [|done].
  simpl. split; [by rewrite list_lookup_insert_ne | done].
Qed.

Lemma send_on_self c v s s' ch :
  send_on c v s = Some s' → chans s !! c = Some ch → rx_alive ch = true →
  s' = with_table (streams s) (<[c := with_queue (queue ch ++ [v]) ch]> (chans s)) s.
Proof.
  unfold send_on, try_send. intros H Hc Hrx. rewrite Hc, Hrx in H. simpl in H.
  destruct (_ <=? _)%nat; by simplify_eq.
Qed.

Lemma link_inv_drop_tx id acc out s st ch :
  link_inv id acc (out, s, st) ch → acc.2 = true →
  link_inv id acc
    (out, with_table (streams s) (alter drop_tx (read_rx st) (chans s)) s, st) (drop_tx ch).
Proof.
  intros [Hc Hrx Hct He Hl Ho Hcl] Hend. split; simpl in *; try done.
  - by rewrite list_lookup_alter_eq, Hc.
  - rewrite Hend. discriminate.
Qed.

Lemma content_step_psh id acc f :
  stream_id f = id → cmd f = CMD_PSH →
  content_step id acc f
  = if acc.2 then acc else (acc.1 ++ payload f, is_empty (payload f)).
Proof.
  intros Hi Hc. destruct acc as [c [|]]; [done|]. unfold content_step. rewrite Hi, Hc, Z.eqb_refl.
  simpl. destruct (payload f); simpl; by rewrite ?app_nil_r.
Qed.

Lemma content_step_fin id acc f :
  stream_id f = id → cmd f = CMD_FIN →
  content_step id acc f = if acc.2 then acc else (acc.1 ++ [], true).
Proof.
  intros Hi Hc. destruct acc as [c [|]]; [done|]. unfold content_step. rewrite Hi, Hc, Z.eqb_refl.
  simpl. by rewrite app_nil_r.
Qed.

Lemma dispatch_psh_inv id acc out s s' st ch f :
  cmd f = CMD_PSH → dispatch_frame f s = Some s' → link_inv id acc (out, s, st) ch →
  ∃ ch', link_inv id (content_step id acc f) (out, s', st) ch'.
Proof.
  intros Hcmd Hd Hinv. unfold dispatch_frame in Hd. rewrite Hcmd in Hd. simpl in Hd.
  destruct (decide (streams s !! stream_id f = Some (read_rx st))) as [E|Hne].
  - pose proof (li_only _ _ _ _ Hinv _ E) as Hid. exists (with_queue (queue ch ++ [payload f]) ch).
    rewrite content_step_psh by done. rewrite E in Hd.
    rewrite (send_on_self _ _ _ _ _ Hd (li_chan _ _ _ _ Hinv) (li_rx _ _ _ _ Hinv)).
    apply link_inv_push; [done | apply (li_only _ _ _ _ Hinv) | done].
  - exists ch. rewrite content_step_noop
      by (intros <-; exact (not_live_ended _ _ _ _ Hinv Hne)).
    destruct (streams s !! stream_id f) as [c|]; [|by simplify_eq].
    destruct (send_on_other _ _ _ _ (read_rx st) Hd) as [Hch Hst]; [congruence|].
    apply (link_inv_frame _ _ _ s); rewrite ?Hst; auto.
Qed.

Lemma dispatch_fin_inv id acc out s s' st ch f :
  cmd f = CMD_FIN → dispatch_frame f s = Some s' → link_inv id acc (out, s, st) ch →
  ∃ ch', link_inv id (content_step id acc f) (out, s', st) ch'.
Proof.
  intros Hcmd Hd Hinv. unfold dispatch_frame in Hd. rewrite Hcmd in Hd. simpl in Hd.
  destruct (decide (streams s !! stream_id f = Some (read_rx st))) as [E|Hne].
  - rewrite E in Hd. apply bind_Some in Hd as (s1 & Hs & [= <-]).
    pose proof (li_only _ _ _ _ Hinv _ E) as Hid.
    exists (drop_tx (with_queue (queue ch ++ [[]]) ch)). rewrite content_step_fin by done.
    rewrite (send_on_self _ _ _ _ ch Hs (li_chan _ _ _ _ Hinv) (li_rx _ _ _ _ Hinv)).
    apply link_inv_drop_tx; [|by destruct acc as [? []]].
    apply (link_inv_push id acc out s st ch [] (delete (stream_id f) (streams s)));
      [done | | discriminate].
    intros id' [_ H]%lookup_delete_Some. by apply (li_only _ _ _ _ Hinv).
  - exists ch. assert (Hend : stream_id f = id → acc.2 = true)
      by (intros <-; exact (not_live_ended _ _ _ _ Hinv Hne)).
    rewrite content_step_noop by done.
    destruct (streams s !! stream_id f) as [c|]; [|by simplify_eq].
    apply bind_Some in Hd as (s1 & Hs & [= <-]).
    destruct (send_on_other _ _ _ _ (read_rx st) Hs) as [Hch Hst]; [congruence|].
    apply (link_inv_frame _ _ _ s); simpl; rewrite ?Hst; simpl; [done | | |].
    + rewrite list_lookup_alter_ne; [done | congruence].
    + by intros id' c' [_ H]%lookup_delete_Some.
    + intros Hf. apply lookup_delete_ne. intros Heq. rewrite Hend in Hf by done. discriminate.
Qed.

Lemma dispatch_inv id acc out s s' st ch f :
  dispatch_frame f s = Some s' → link_inv id acc (out, s, st) ch →
  ∃ ch', link_inv id (content_step id acc f) (out, s', st) ch'.
Proof.
  intros Hd Hinv. destruct (decide (cmd f = CMD_PSH)) as [Hp|Hp]; [by eapply dispatch_psh_inv|].
  destruct (decide (cmd f = CMD_FIN)) as [Hf|Hf]; [by eapply dispatch_fin_inv|].
  exists ch. unfold dispatch_frame in Hd.
  rewrite (proj2 (Z.eqb_neq _ _) Hp), (proj2 (Z.eqb_neq _ _) Hf) in Hd. simplify_eq.
  replace (content_step id acc f) with acc; [done|]. destruct acc as [c e]. unfold content_step.
  rewrite (proj2 (Z.eqb_neq _ _) Hp), (proj2 (Z.eqb_neq _ _) Hf). by destruct (e || _).
Qed.

(** What a poll returns, and what it leaves unread. *)
Lemma poll_read_unread n st ch p st' ch' :
  poll_read n st ch = (p, st', ch') →
  (closed st = true → read_buf st = []) →
  let d := match p with Ready d => d | Pending => [] end in
  d ++ unread st' ch' = unread st ch
  ∧ read_rx st' = read_rx st
  ∧ rx_alive ch' = rx_alive ch ∧ tx_alive ch' = tx_alive ch
  ∧ (closed st' = true → read_buf st' = [])
  ∧ (tx_alive ch = true ∨ closed st || has_end (queue ch) = true →
     closed st' || has_end (queue ch') = closed st || has_end (queue ch)).
Proof.
  unfold poll_read, unread. intros H Hcl. destruct (read_buf st) as [|b r] eqn:Eb.
  - destruct (closed st) eqn:Ec; [simplify_eq; by rewrite Eb, Ec|].
    unfold poll_recv in H. destruct (queue ch) as [|[|b d] q] eqn:Eq.
    + destruct (tx_alive ch) eqn:Et; simplify_eq; simpl; rewrite ?Eb, ?Ec, ?Eq, ?Et; simpl; [done|].
      split_and!; try done. intros [?|?]; discriminate.
    + simplify_eq. simpl. rewrite Eb. done.
    + cbv beta iota zeta in H. set (k := (length (b :: d) `min` n)%nat) in *.
      assert (Hk : k = length (b :: d) ∨ (k < length (b :: d))%nat) by lia.
      destruct (k <? length (b :: d))%nat eqn:El; simplify_eq.
      * cbn [read_buf with_read_buf closed queue with_queue tx_alive rx_alive]. rewrite ?Ec, ?Eb.
        cbn [until_empty has_end existsb is_empty orb app].
        split_and!; try done. by rewrite app_assoc, app_comm_cons, take_drop.
      * apply Nat.ltb_ge in El. simpl. rewrite ?Eb, ?Ec. rewrite take_ge by lia.
        by cbn [until_empty has_end existsb is_empty orb app].
  - simplify_eq. cbn [read_buf with_read_buf closed].
    split_and!; try done.
    + by rewrite app_assoc, take_drop.
    + intros Hc. by specialize (Hcl Hc).
Qed.

Lemma link_step_inv id acc o x x' ch :
  link_step o x = Some x' → link_inv id acc x ch →
  ∃ ch', link_inv id (match o with Dispatch f => content_step id acc f | _ => acc end) x' ch'.
Proof.
  destruct x as [[out s] st]. destruct o as [f|n]; simpl; intros H Hinv.
  - apply bind_Some in H as (s' & Hd & [= <-]). by eapply dispatch_inv.
  - pose proof Hinv as [Hc Hrx Hct He Hl Ho Hcl]. simpl in *.
    rewrite Hc in H. simpl in H. destruct (poll_read n st ch) as [[p st'] ch'] eqn:Ep. simplify_eq.
    destruct (poll_read_unread _ _ _ _ _ _ Ep Hcl) as (Hu & Hrx' & Hra & Hta & Hcl' & Hend).
    pose proof (lookup_lt_Some _ _ _ Hc) as Hlt. exists ch'. split; simpl; rewrite ?Hrx'; try done.
    + by rewrite list_lookup_insert_eq.
    + by rewrite Hra.
    + by rewrite <- app_assoc, Hu.
    + rewrite Hend; [done|]. destruct (closed st || has_end (queue ch)); [by right | left].
      by apply Hl.
    + rewrite Hta. done.
Qed.

Lemma link_run_inv id ops acc x x' ch :
  link_run ops x = Some x' → link_inv id acc x ch →
  ∃ ch', link_inv id (fold_left (content_step id) (dispatched ops) acc) x' ch'.
Proof.
  revert acc x ch. induction ops as [|o ops IH]; intros acc x ch H Hinv; simpl in H.
  { simplify_eq. by exists ch. }
  apply bind_Some in H as (x1 & Hs & Hr).
  destruct (link_step_inv _ _ _ _ _ _ Hs Hinv) as (ch1 & Hinv1).
  destruct o; simpl in *; eauto.
Qed.

(** The table of a session only names channels of its heap. *)
Definition session_wf (s : SmuxSession) : Prop :=
  ∀ id c, streams s !! id = Some c → (c < length (chans s))%nat.

Lemma session_new_wf tx : session_wf (session_new tx).
Proof. intros id c. simpl. by rewrite lookup_empty. Qed.

Lemma open_register_wf s : session_wf s → session_wf (open_register s).2.
Proof.
  intros H id c. simpl. rewrite length_app. simpl. rewrite lookup_insert_Some.
  assert (Hl : length (match streams s !! next_id s with
                       | Some old => alter drop_tx old (chans s) | None => chans s end)
               = length (chans s)) by (destruct (streams s !! next_id s); rewrite ?length_alter; done).
  intros [[_ <-]|[_ Hc]]; [lia|]. apply H in Hc. lia.
Qed.

Lemma send_on_wf c v s s' : send_on c v s = Some s' → session_wf s → session_wf s'.
Proof.
  unfold send_on. intros H Hs. destruct (chans s !! c) as [ch|]; [|by simplify_eq].
  destruct (try_send v ch) as [ch'|[]]; simplify_eq; [|done].
  intros id k. simpl. rewrite length_insert. apply Hs.
Qed.

Lemma dispatch_wf f s s' : dispatch_frame f s = Some s' → session_wf s → session_wf s'.
Proof.
  unfold dispatch_frame. intros H Hs.
  destruct (cmd f =? CMD_PSH).
  { destruct (streams s !! stream_id f); [by eapply send_on_wf | by simplify_eq]. }
  destruct (cmd f =? CMD_FIN); [|by simplify_eq].
  destruct (streams s !! stream_id f) as [c|]; [|by simplify_eq].
  apply bind_Some in H as (s1 & Hs1 & [= <-]).
  assert (Hw : session_wf s1).
  { eapply send_on_wf; [exact Hs1|]. intros id k. simpl. intros [_ ?]%lookup_delete_Some. eauto. }
  intros id k. simpl. rewrite length_alter. apply Hw.
Qed.

Lemma open_register_inv s :
  session_wf s →
  ∃ ch, link_inv (next_id s) ([], false) ([], (open_register s).2, (open_register s).1) ch.
Proof.
  intros Hs. simpl.
  set (cs := match streams s !! next_id s with
             | Some old => alter drop_tx old (chans s) | None => chans s end).
  assert (Hl : length cs = length (chans s))
    by (unfold cs; destruct (streams s !! next_id s); rewrite ?length_alter; done).
  eexists. split; simpl; try done.
  - rewrite lookup_app_r, Hl, Nat.sub_diag by lia. done.
  - done.
  - done.
  - done.
  - intros _. by rewrite lookup_insert_eq.
  - intros id' [[? _]|[_ H]]%lookup_insert_Some; [done|]. apply Hs in H. lia.
Qed.

Lemma open_syn_inv id acc out st s s' st' ch :
  open_syn st s = (Ready (Ok st'), s') → link_inv id acc (out, s, st) ch →
  st' = st ∧ link_inv id acc (out, s', st) ch.
Proof.
  unfold open_syn. intros H Hinv. destruct (try_send _ _) as [tx|[]]; simplify_eq.
  split; [done|]. by apply (link_inv_frame _ _ _ s).
Qed.

(** What the next poll says, given what is unread. *)
Lemma next_poll id acc out s st ch n :
  link_inv id acc (out, s, st) ch → (0 < n)%nat →
  match unread st ch with
  | [] => (poll_read n st ch).1.1 = if acc.2 then Ready [] else Pending
  | u => ∃ k, (0 < k)%nat ∧ (poll_read n st ch).1.1 = Ready (take k u)
  end.
Proof.
  intros [Hc Hrx Hct He Hl Ho Hcl] Hn. simpl in *. unfold unread, poll_read, poll_recv.
  destruct (read_buf st) as [|b r] eqn:Eb.
  - simpl app. destruct (closed st) eqn:Ecl; [by rewrite He|].
    destruct (queue ch) as [|[|b d] q] eqn:Eq; simpl.
    + rewrite He. simpl. destruct Hl as [_ ->]; [by rewrite He|]. done.
    + by rewrite He.
    + exists (S (length d `min` pred n)). split; [lia|].
      destruct n as [|n]; [lia|]. simpl. f_equal. f_equal. rewrite take_app_le by lia. done.
  - cbn [app]. exists (length (b :: r) `min` n)%nat. simpl length. split; [destruct n; lia|].
    destruct n as [|n]; [lia|]. simpl. do 2 f_equal. by rewrite take_app_le by lia.
Qed.

(** ** Properties *)

(** An smux frame whose payload fits the 16-bit length field survives
    encode and decode, with trailing bytes left over; and whatever [decode]
    accepts is byte for byte the encoding of the frame it returns. *)
Theorem smux_frame_roundtrip f rest data f' n :
  frame_ok f → frame_decode data = Ok (f', n) →
  frame_decode (frame_encode f ++ rest) = Ok (f, length (frame_encode f))
  ∧ frame_encode f' = take n data ∧ frame_ok f'.
Proof.
  intros Hf Hd. destruct (decode_sound _ _ _ Hd) as (He & _ & Hok).
  split_and!; [by apply smux_decode_encode | done | done].
Qed.

Lemma smux_frame_roundtrip_witness :
  frame_decode (frame_encode (psh 7 [Byte.x41]) ++ [Byte.x42])
  = Ok (psh 7 [Byte.x41], length (frame_encode (psh 7 [Byte.x41])))
  ∧ frame_encode (fin 3) = take 8 (frame_encode (fin 3)) ∧ frame_ok (fin 3).
Proof.
  apply (smux_frame_roundtrip (psh 7 [Byte.x41]) [Byte.x42] (frame_encode (fin 3)) (fin 3) 8);
    [repeat split; vm_compute; congruence | reflexivity].
Defined.

(** [decode_smux_frames] terminates on every buffer and cuts it exactly:
    the frames it returns re-encode to the bytes it consumed, and no further
    complete frame starts in what it leaves; conversely a buffer made of
    encoded frames and an incomplete tail gives back those frames and leaves
    the tail. *)
Theorem smux_decode_frames_exact data fs tail :
  Forall frame_ok fs → is_ok (frame_decode tail) = false →
  (∃ out n, decode_smux_frames data = Some (out, n)
     ∧ concat (frame_encode <$> out) = take n data
     ∧ is_ok (frame_decode (drop n data)) = false)
  ∧ decode_smux_frames (concat (frame_encode <$> fs) ++ tail)
    = Some (fs, length (concat (frame_encode <$> fs))).
Proof.
  intros Hok Ht. split.
  - destruct (cut_spec frame_decode SMUX_HEADER_LEN data) as (out & n & Hr & _ & Hf & He).
    exists out, n. split_and!; [done | by apply frames_of_encode | done].
  - by apply (cut_encoded _ _ frame_encode frame_ok); [apply smux_decode_encode | |].
Qed.

Lemma smux_decode_frames_exact_witness :
  (∃ out n, decode_smux_frames [Byte.x01; Byte.x03] = Some (out, n)
     ∧ concat (frame_encode <$> out) = take n [Byte.x01; Byte.x03]
     ∧ is_ok (frame_decode (drop n [Byte.x01; Byte.x03])) = false)
  ∧ decode_smux_frames (concat (frame_encode <$> [syn 1; psh 1 [Byte.x41]]) ++ [Byte.x01])
    = Some ([syn 1; psh 1 [Byte.x41]], length (concat (frame_encode <$> [syn 1; psh 1 [Byte.x41]]))).
Proof.
  apply (smux_decode_frames_exact [Byte.x01; Byte.x03] [syn 1; psh 1 [Byte.x41]] [Byte.x01]);
    [repeat constructor; vm_compute; congruence | reflexivity].
Defined.

(** C7: A stream opened on a smux session delivers its own frames in order:
    whatever frames of any stream are dispatched and however the reader polls,
    the bytes delivered so far and those still unread are exactly the payloads
    pushed for this stream before its FIN (or before an empty push, which the
    reader takes for the end).  The next poll with room delivers some unread
    byte if there is one, reports end of stream exactly when the stream has
    ended, and is pending otherwise. *)
Theorem smux_stream_delivers_in_order s s0 st ops out s' st' :
  session_wf s → open_stream s = (Ready (Ok st), s0) →
  link_run ops ([], s0, st) = Some (out, s', st') →
  let '(content, ended) := content_of (next_id s) (dispatched ops) in
  ∃ ch, chans s' !! read_rx st' = Some ch
    ∧ out ++ unread st' ch = content
    ∧ ∀ n, (0 < n)%nat →
        match unread st' ch with
        | [] => (poll_read n st' ch).1.1 = if ended then Ready [] else Pending
        | u => ∃ k, (0 < k)%nat ∧ (poll_read n st' ch).1.1 = Ready (take k u)
        end.
Proof.
  intros Hwf Hopen Hrun. unfold open_stream in Hopen.
  destruct (open_register_inv s Hwf) as [ch0 Hinv0].
  destruct (open_register s) as [st0 s1] eqn:Er. simpl in Hinv0.
  destruct (open_syn_inv _ _ _ _ _ _ _ _ Hopen Hinv0) as [-> Hinv1].
  destruct (link_run_inv _ _ _ _ _ _ Hrun Hinv1) as [ch Hinv]. fold (content_of (next_id s) (dispatched ops)) in Hinv.
  destruct (content_of (next_id s) (dispatched ops)) as [content ended] eqn:Ec.
  exists ch. split_and!; [apply (li_chan _ _ _ _ Hinv) | apply (li_content _ _ _ _ Hinv) |].
  intros n Hn. exact (next_poll _ _ _ _ _ _ n Hinv Hn).
Qed.

Definition sample_session : SmuxSession :=
  session_new {| queue := []; capacity := 4; tx_alive := true; rx_alive := true |}.
Definition sample_ops : list link_op :=
  [Dispatch (psh 1 [Byte.x41; Byte.x42]); Dispatch (psh 3 [Byte.x43]); Poll_read 1;
   Dispatch (fin 1); Dispatch (psh 1 [Byte.x44])].

Lemma smux_stream_delivers_in_order_witness :
  ∃ out s' st', link_run sample_ops ([], (open_stream sample_session).2,
                   {| s_id := 1; read_rx := 0; read_buf := []; closed := false |})
                = Some (out, s', st')
  ∧ ∃ ch, chans s' !! read_rx st' = Some ch ∧ out ++ unread st' ch = [Byte.x41; Byte.x42].
Proof.
  eexists _, _, _. split; [vm_compute; reflexivity|].
  destruct (smux_stream_delivers_in_order sample_session _ _ sample_ops _ _ _
              (session_new_wf _) eq_refl eq_refl) as (ch & Hc & Hu & _).
  exists ch. split; [exact Hc | exact Hu].
Defined.

(** [poll_write] never builds a frame the length field cannot hold: it
    sends the first 65535 bytes at most, as one PSH frame that the peer's
    decoder reads back, reports exactly the number of bytes in that frame, and
    leaves the channel untouched when it is full or closed. *)
Theorem smux_poll_write_chunks buf st tx :
  u32_ok (s_id st) →
  match poll_write buf st tx with
  | (Ready (Ok l), tx') =>
      queue tx' = queue tx ++ [psh (s_id st) (take l buf)]
      ∧ (l ≤ length buf)%nat ∧ (buf = [] ∨ (0 < l)%nat)
      ∧ (∀ rest, frame_decode (frame_encode (psh (s_id st) (take l buf)) ++ rest)
                 = Ok (psh (s_id st) (take l buf), SMUX_HEADER_LEN + l)%nat)
  | (Ready (Err BrokenPipe), tx') => rx_alive tx = false ∧ tx' = tx
  | (Pending, tx') => (capacity tx ≤ length (queue tx))%nat ∧ tx' = tx
  end.
Proof.
  intros Hid. unfold poll_write, try_send. destruct (rx_alive tx); cbn [negb]; [|done].
  destruct (_ <=? _)%nat eqn:E; [split; [by apply Nat.leb_le in E | done]|].
  set (l := (length buf `min` Z.to_nat 65535)%nat).
  assert (Hl : (l ≤ length buf)%nat ∧ Z.of_nat l <= 65535) by lia.
  assert (Hpos : buf = [] ∨ (0 < l)%nat)
    by (destruct buf; [by left | right; unfold l; simpl length; lia]).
  clearbody l. split_and!; [done | lia | done |]. intros rest.
  assert (Hf : frame_ok (psh (s_id st) (take l buf))).
  { split_and!; try done. unfold len, in_width. cbn [psh payload]. rewrite length_take. lia. }
  rewrite smux_decode_encode, frame_encode_length by done. cbn [psh payload].
  rewrite length_take, Nat.min_l by lia. done.
Qed.

Lemma smux_poll_write_chunks_witness :
  frame_decode (frame_encode (psh 1 [Byte.x41]) ++ []) = Ok (psh 1 [Byte.x41], 9%nat).
Proof.
  destruct (smux_poll_write_chunks [Byte.x41] (open_register sample_session).1
              (frame_tx sample_session) ltac:(split; vm_compute; congruence)) as (_ & _ & _ & H).
  exact (H []).
Defined.
