(* ===== verification/Xudp.v ===== *)
(** * XUDP framing ([src/src/proxy/mux/xudp.rs])

    UDP datagrams over a stream: the frame codec, whose address field is
    present exactly in NEW and DATA frames, the cut of a receive buffer into
    frames, and the session identifier counter. *)

From S2P Require Import Prelude RustStr Addr Framing.

Definition XUDP_NEW : Z := 1.
Definition XUDP_DATA : Z := 2.
Definition XUDP_CLOSE : Z := 3.
Definition XUDP_KEEPALIVE : Z := 4.
Definition ADDR_IPV4 : byte := Byte.x01.
Definition ADDR_DOMAIN : byte := Byte.x03.
Definition ADDR_IPV6 : byte := Byte.x04.

Record XudpFrame := {
  frame_type : Z;
  session_id : Z;
  address : option Address;
  payload : bytes
}.

Inductive xudp_error :=
| ShortHeader | ShortAddressType | ShortIpv4 | ShortIpv6 | ShortDomainLength | ShortDomain
| UnknownAddressType (b : byte) | ShortPayloadLength | ShortPayload.

Definition encode_address (addr : Address) : bytes :=
  match addr with
  | Ip (SockV4 ip port) => [ADDR_IPV4] ++ to_be_bytes 4 ip ++ to_be_bytes 2 port
  | Ip (SockV6 ip port _ _) => [ADDR_IPV6] ++ to_be_bytes 16 ip ++ to_be_bytes 2 port
  | Domain domain port =>
      [ADDR_DOMAIN] ++ [byte_of_Z (str_len domain)] ++ as_bytes domain ++ to_be_bytes 2 port
  end.

Definition encode (f : XudpFrame) : bytes :=
  [byte_of_Z (frame_type f)] ++ to_be_bytes 2 (session_id f)
  ++ match address f with Some addr => encode_address addr | None => [] end
  ++ to_be_bytes 2 (wrap 16 (len (payload f))) ++ payload f.

(** The address branch of [decode], from the address type byte at [pos]; the
    position after the address is returned with it. *)
Definition decode_address (data : bytes) (pos : nat) : result xudp_error (Address * nat) :=
  if (length data <=? pos)%nat then Err ShortAddressType else
  let addr_type := byte_at data pos in
  let pos := (pos + 1)%nat in
  if decide (addr_type = ADDR_IPV4) then
    if (length data <? pos + 6)%nat then Err ShortIpv4 else
    let ip := from_be_bytes [byte_at data pos; byte_at data (pos + 1);
                             byte_at data (pos + 2); byte_at data (pos + 3)] in
    let port := from_be_bytes [byte_at data (pos + 4); byte_at data (pos + 5)] in
    Ok (Ip (sock_new (V4 ip) port), (pos + 6)%nat)
  else if decide (addr_type = ADDR_IPV6) then
    if (length data <? pos + 18)%nat then Err ShortIpv6 else
    let ip := from_be_bytes (slice data pos (pos + 16)) in
    let port := from_be_bytes [byte_at data (pos + 16); byte_at data (pos + 17)] in
    Ok (Ip (sock_new (V6 ip) port), (pos + 18)%nat)
  else if decide (addr_type = ADDR_DOMAIN) then
    if (length data <=? pos)%nat then Err ShortDomainLength else
    let domain_len := Z.to_nat (byte_to_Z (byte_at data pos)) in
    let pos := (pos + 1)%nat in
    if (length data <? pos + domain_len + 2)%nat then Err ShortDomain else
    let domain := from_utf8_lossy (slice data pos (pos + domain_len)) in
    let pos := (pos + domain_len)%nat in
    let port := from_be_bytes [byte_at data pos; byte_at data (pos + 1)] in
    Ok (Domain domain port, (pos + 2)%nat)
  else Err (UnknownAddressType addr_type).

Definition decode (data : bytes) : result xudp_error (XudpFrame * nat) :=
  if (length data <? 3)%nat then Err ShortHeader else
  let frame_type := byte_to_Z (byte_at data 0) in
  let session_id := from_be_bytes [byte_at data 1; byte_at data 2] in
  let pos := 3%nat in
  let? '(address, pos) :=
    (if (frame_type =? XUDP_NEW) || (frame_type =? XUDP_DATA)
     then let? '(addr, pos) := decode_address data pos in Ok (Some addr, pos)
     else Ok (None, pos)) in
  if (length data <? pos + 2)%nat then Err ShortPayloadLength else
  let payload_len := Z.to_nat (from_be_bytes [byte_at data pos; byte_at data (pos + 1)]) in
  let pos := (pos + 2)%nat in
  if (length data <? pos + payload_len)%nat then Err ShortPayload else
  Ok ({| frame_type := frame_type; session_id := session_id; address := address;
         payload := slice data pos (pos + payload_len) |}, (pos + payload_len)%nat).

Definition new_session (id : Z) (addr : Address) : XudpFrame :=
  {| frame_type := XUDP_NEW; session_id := id; address := Some addr; payload := [] |}.
Definition data (id : Z) (addr : Address) (p : bytes) : XudpFrame :=
  {| frame_type := XUDP_DATA; session_id := id; address := Some addr; payload := p |}.
Definition close (id : Z) : XudpFrame :=
  {| frame_type := XUDP_CLOSE; session_id := id; address := None; payload := [] |}.
Definition keepalive : XudpFrame :=
  {| frame_type := XUDP_KEEPALIVE; session_id := 0; address := None; payload := [] |}.

(** ** The multiplexer *)

Record XudpMux := { next_session_id : Z }.
Definition mux_new : XudpMux := {| next_session_id := 1 |}.
Definition allocate_session_id (m : XudpMux) : Z * XudpMux :=
  (next_session_id m, {| next_session_id := wrap 16 (next_session_id m + 1) |}).

Definition encode_frames (frames : list XudpFrame) : bytes :=
  fold_left (fun buf frame => buf ++ encode frame) frames [].

(** [while consumed < data.len()]: room for a header of one byte. *)
Definition decode_frames (d : bytes) : option (list XudpFrame * nat) := cut decode 1 d.

(** ** The codec *)

(** The address field belongs to NEW and DATA frames only. *)
Definition frame_ok (f : XudpFrame) : Prop :=
  u8_ok (frame_type f) ∧ u16_ok (session_id f) ∧ u16_ok (len (payload f)) ∧
  match address f with
  | Some a => (frame_type f = XUDP_NEW ∨ frame_type f = XUDP_DATA)
              ∧ addr_ok a ∧ addr_short a ∧ addr_plain a
  | None => frame_type f ≠ XUDP_NEW ∧ frame_type f ≠ XUDP_DATA
  end.

Lemma encode_address_socks5 a : encode_address a = encode_socks5 a [].
Proof. by destruct a as [[]|]. Qed.

Lemma length_encode_address a :
  length (encode_address a) =
  match a with
  | Ip (SockV4 _ _) => 7%nat
  | Ip (SockV6 _ _ _ _) => 19%nat
  | Domain d _ => (2 + String.length d + 2)%nat
  end.
Proof. rewrite encode_address_socks5. apply length_encode_socks5. Qed.

Lemma byte_at_one pre b rest i : i = length pre → byte_at (pre ++ [b] ++ rest) i = b.
Proof. apply byte_at_mid. Qed.

Ltac len_solve := rewrite ?length_app; autorewrite with rust_rw; simpl; lia.

(** The decoder on a buffer that holds an address at the position it reads. *)
Lemma decode_v4 pre ip p rest :
  u32_ok ip → u16_ok p →
  decode_address (pre ++ [ADDR_IPV4] ++ to_be_bytes 4 ip ++ to_be_bytes 2 p ++ rest) (length pre)
  = Ok (Ip (SockV4 ip p), (length pre + 7)%nat).
Proof.
  intros Hip Hp. unfold decode_address.
  rewrite (proj2 (Nat.leb_gt _ _)) by len_solve.
  rewrite byte_at_one by done. rewrite decide_True by done.
  rewrite (proj2 (Nat.ltb_ge _ _)) by len_solve.
  rewrite (app_assoc pre), (be4_at (pre ++ [ADDR_IPV4]) ip (to_be_bytes 2 p ++ rest))
    by (done || len_solve).
  rewrite (app_assoc (pre ++ _)), be2_at by (done || len_solve).
  simpl. do 2 f_equal. lia.
Qed.

Lemma decode_v6 pre ip p rest :
  in_width 128 ip → u16_ok p →
  decode_address (pre ++ [ADDR_IPV6] ++ to_be_bytes 16 ip ++ to_be_bytes 2 p ++ rest) (length pre)
  = Ok (Ip (SockV6 ip p 0 0), (length pre + 19)%nat).
Proof.
  intros Hip Hp. unfold decode_address.
  rewrite (proj2 (Nat.leb_gt _ _)) by len_solve.
  rewrite byte_at_one by done. rewrite decide_False by done. rewrite decide_True by done.
  rewrite (proj2 (Nat.ltb_ge _ _)) by len_solve.
  rewrite (app_assoc pre), slice_mid, from_to_be_bytes by (done || len_solve).
  rewrite (app_assoc (pre ++ _)), be2_at by (done || len_solve).
  simpl. do 2 f_equal. lia.
Qed.

Lemma decode_domain pre d p rest :
  str_ok d → str_len d < 256 → u16_ok p →
  decode_address (pre ++ [ADDR_DOMAIN] ++ [byte_of_Z (str_len d)] ++ as_bytes d
                    ++ to_be_bytes 2 p ++ rest) (length pre)
  = Ok (Domain d p, (length pre + (2 + String.length d + 2))%nat).
Proof.
  intros Hd Hl Hp. unfold decode_address.
  rewrite (proj2 (Nat.leb_gt _ _)) by len_solve.
  rewrite byte_at_one by done. do 2 rewrite decide_False by done. rewrite decide_True by done.
  rewrite (proj2 (Nat.leb_gt _ _)) by len_solve.
  rewrite (app_assoc pre), byte_at_one, domain_len_byte by (done || len_solve).
  rewrite (proj2 (Nat.ltb_ge _ _)) by len_solve.
  rewrite (app_assoc (pre ++ _)), slice_mid, from_utf8_lossy_valid by (done || len_solve).
  rewrite (app_assoc ((pre ++ _) ++ _)), be2_at by (done || len_solve).
  do 2 f_equal. lia.
Qed.

Lemma decode_address_encode pre a rest :
  addr_ok a → addr_short a → addr_plain a →
  decode_address (pre ++ encode_address a ++ rest) (length pre)
  = Ok (a, (length pre + length (encode_address a))%nat).
Proof.
  intros Hok Hs Hp. rewrite length_encode_address.
  destruct a as [[ip p|ip p fl sc]|d p]; cbn [encode_address]; rewrite <- !app_assoc.
  - destruct Hok. by apply decode_v4.
  - destruct Hok as (? & ? & _), Hp as [-> ->]. by apply decode_v6.
  - destruct Hok. by apply decode_domain.
Qed.

(** The part of a frame before the payload length: [decode] leaves it with the
    address of the frame and the position after it. *)
Lemma xudp_decode_encode f rest :
  frame_ok f → decode (encode f ++ rest) = Ok (f, length (encode f)).
Proof.
  destruct f as [t i a p]; intros (Ht & Hi & Hp & Ha); simpl in Ht, Hi, Hp, Ha.
  unfold encode. cbn [frame_type session_id address payload]. rewrite (wrap_small 16) by done.
  set (A := match a with Some addr => encode_address addr | None => [] end).
  set (pre := [byte_of_Z t] ++ to_be_bytes 2 i).
  assert (Hpre : length pre = 3%nat) by done.
  replace (([byte_of_Z t] ++ to_be_bytes 2 i ++ A ++ to_be_bytes 2 (len p) ++ p) ++ rest)
    with (pre ++ A ++ to_be_bytes 2 (len p) ++ p ++ rest)
    by (unfold pre; by rewrite <- !app_assoc).
  unfold decode. rewrite (proj2 (Nat.ltb_ge _ _)) by len_solve.
  rewrite (byte_at_app_l pre _ 0), (byte_at_app_l pre _ 1), (byte_at_app_l pre _ 2) by (rewrite Hpre; lia).
  change (byte_at pre 0) with (byte_of_Z t). rewrite (byte_to_of_small t) by done.
  change (from_be_bytes [byte_at pre 1; byte_at pre 2]) with (from_be_bytes (to_be_bytes 2 i)).
  rewrite (from_to_be_2 i Hi).
  assert (Haddr : (if (t =? XUDP_NEW) || (t =? XUDP_DATA)
     then let? '(addr, pos) :=
            decode_address (pre ++ A ++ to_be_bytes 2 (len p) ++ p ++ rest) 3 in Ok (Some addr, pos)
     else Ok (None, 3%nat)) = Ok (a, length (pre ++ A))).
  { rewrite <- Hpre. destruct a as [a|]; unfold A.
    - destruct Ha as (Htt & Hok & Hs & Hpl). rewrite decode_address_encode by done.
      rewrite length_app. by destruct Htt as [-> | ->].
    - destruct Ha as [H1 H2]. apply Z.eqb_neq in H1, H2. rewrite H1, H2, app_nil_r. done. }
  rewrite Haddr. cbn [bind_result]. rewrite (proj2 (Nat.ltb_ge _ _)) by len_solve.
  rewrite (app_assoc pre), be2_at by (done || lia). unfold len. rewrite Nat2Z.id.
  rewrite (proj2 (Nat.ltb_ge _ _)) by len_solve.
  rewrite (app_assoc (pre ++ A)), slice_mid by len_solve.
  do 2 f_equal. unfold pre. len_solve.
Qed.

Lemma decode_address_bounds d pos a n :
  decode_address d pos = Ok (a, n) → (pos < n ≤ length d)%nat.
Proof.
  unfold decode_address. cbv zeta.
  repeat match goal with
  | |- context [if ?b then _ else _] => destruct b eqn:?
  end; intros [= <- <-];
  repeat match goal with
  | H : (_ <? _)%nat = false |- _ => apply Nat.ltb_ge in H
  | H : (_ <=? _)%nat = false |- _ => apply Nat.leb_gt in H
  end; lia.
Qed.

#[export] Instance xudp_codec : FrameCodec decode 1.
Proof.
  split.
  - intros d f n. unfold decode. destruct (_ <? 3)%nat eqn:E3; [discriminate|].
    intros ([a pos] & Ha & H)%bind_Ok.
    assert (Hpos : (3 ≤ pos)%nat).
    { destruct (_ || _).
      - apply bind_Ok in Ha as ([a' pos'] & Hd & [= <- <-]). apply decode_address_bounds in Hd. lia.
      - injection Ha as <- <-. lia. }
    destruct (_ <? pos + 2)%nat; [discriminate|]. cbv zeta in H.
    destruct (_ <? _)%nat eqn:El in H; [discriminate|]. injection H as _ <-. apply Nat.ltb_ge in El. lia.
  - intros d H. unfold decode. by rewrite (proj2 (Nat.ltb_lt _ _)) by lia.
Qed.

Lemma encode_frames_concat frames : encode_frames frames = concat (encode <$> frames).
Proof.
  unfold encode_frames.
  enough (H : ∀ acc, fold_left (fun buf f => buf ++ encode f) frames acc
                     = acc ++ concat (encode <$> frames)) by apply H.
  induction frames as [|f fs IH]; intros acc; cbn [fold_left fmap list_fmap concat].
  - by rewrite app_nil_r.
  - by rewrite IH, app_assoc.
Qed.

(** Identifiers handed out by [n] allocations in a row. *)
Fixpoint allocate_many (n : nat) (m : XudpMux) : list Z :=
  match n with
  | O => []
  | S n => let '(id, m') := allocate_session_id m in id :: allocate_many n m'
  end.

Lemma allocate_many_spec n k :
  1 <= k → k + Z.of_nat n <= 2 ^ 16 →
  allocate_many n {| next_session_id := k |} = seqZ k (Z.of_nat n).
Proof.
  revert k. induction n as [|n IH]; intros k Hk Hn; [done|].
  rewrite seqZ_cons by lia. cbn [allocate_many allocate_session_id next_session_id]. f_equal.
  replace (Z.pred (Z.of_nat (S n))) with (Z.of_nat n) by lia.
  destruct (decide (n = 0%nat)) as [->|Hne]; [done|].
  rewrite wrap_small by (unfold in_width; lia). apply IH; lia.
Qed.

(** ** Properties *)

(** XUDP frames survive the wire: encoding any list of well-formed frames
    (an address exactly in NEW and DATA frames, a domain of at most 255 bytes, a
    payload of at most 65535) followed by an incomplete tail decodes to exactly
    those frames, consuming exactly their bytes; and on every input the decoding
    loop terminates within the buffer. *)
Theorem xudp_frames_roundtrip fs tail d :
  Forall frame_ok fs → is_ok (decode tail) = false →
  decode_frames (encode_frames fs ++ tail) = Some (fs, length (encode_frames fs))
  ∧ ∃ out n, decode_frames d = Some (out, n) ∧ (n ≤ length d)%nat
      ∧ is_ok (decode (drop n d)) = false.
Proof.
  intros Hok Ht. split.
  - rewrite encode_frames_concat. by apply (cut_encoded decode 1 encode frame_ok); [apply xudp_decode_encode | |].
  - destruct (cut_spec decode 1 d) as (out & n & Hr & Hn & _ & He). eauto.
Qed.

Lemma xudp_frames_roundtrip_witness :
  decode_frames (encode_frames [new_session 1 (Domain "a.b" 53); data 1 (Ip (SockV4 1 53)) [Byte.x41]; keepalive]
                 ++ [Byte.x01])
  = Some ([new_session 1 (Domain "a.b" 53); data 1 (Ip (SockV4 1 53)) [Byte.x41]; keepalive], 30%nat)
  ∧ ∃ out n, decode_frames [Byte.x02] = Some (out, n) ∧ (n ≤ length [Byte.x02])%nat
      ∧ is_ok (decode (drop n [Byte.x02])) = false.
Proof.
  apply (xudp_frames_roundtrip
           [new_session 1 (Domain "a.b" 53); data 1 (Ip (SockV4 1 53)) [Byte.x41]; keepalive]
           [Byte.x01] [Byte.x02]); [|reflexivity].
  repeat (apply Forall_cons_2 || apply Forall_nil_2); vm_compute; intuition congruence.
Defined.

(** The XUDP counter gives the first 65535 sessions the distinct
    identifiers 1 to 65535; the next one is 0, the identifier keep-alive frames
    use, and then the identifiers are reused. *)
Theorem xudp_session_ids_unique n :
  Z.of_nat n <= 65535 →
  allocate_many n mux_new = seqZ 1 (Z.of_nat n)
  ∧ NoDup (allocate_many n mux_new)
  ∧ (allocate_session_id {| next_session_id := 65535 |}).2
    = {| next_session_id := session_id keepalive |}.
Proof.
  intros Hn. unfold mux_new. rewrite allocate_many_spec by lia.
  split_and!; [done | apply NoDup_seqZ | done].
Qed.

Lemma xudp_session_ids_unique_witness :
  allocate_many 3 mux_new = seqZ 1 3 ∧ NoDup (allocate_many 3 mux_new)
  ∧ (allocate_session_id {| next_session_id := 65535 |}).2
    = {| next_session_id := session_id keepalive |}.
Proof. apply (xudp_session_ids_unique 3). lia. Defined.
