(* ===== verification/Derp.v ===== *)
(** * DERP relay protocol ([src/src/derp/protocol.rs])

    The frame layer [type, 4-byte length, payload] over a byte stream, and the
    builders and parsers of each payload.  The writer is the sequence of bytes
    written so far and the reader the bytes still to come, as for the in-memory
    streams the code is generic over; running out of bytes is the
    [UnexpectedEof] of [read_exact]. *)

From S2P Require Import Prelude.

Definition MAGIC : bytes :=
  [Byte.x44; Byte.x45; Byte.x52; Byte.x50; Byte.xf0; Byte.x9f; Byte.x94; Byte.x91].
Definition FRAME_HEADER_LEN : nat := 5.
Definition KEY_LEN : nat := 32.
Definition NONCE_LEN : nat := 24.
Definition MAX_FRAME_SIZE : Z := Z.shiftl 1 20.

Inductive FrameType :=
| ServerKey | ClientInfo | ServerInfo | SendPacket | RecvPacket | KeepAlive | NotePreferred
| PeerGone | PeerPresent | ForwardPacket | WatchConns | ClosePeer | Ping | Pong | Health
| Restarting.

Definition FrameType_as_u8 (t : FrameType) : Z :=
  match t with
  | ServerKey => 0x01 | ClientInfo => 0x02 | ServerInfo => 0x03 | SendPacket => 0x04
  | RecvPacket => 0x05 | KeepAlive => 0x06 | NotePreferred => 0x07 | PeerGone => 0x08
  | PeerPresent => 0x09 | ForwardPacket => 0x0A | WatchConns => 0x10 | ClosePeer => 0x11
  | Ping => 0x12 | Pong => 0x13 | Health => 0x14 | Restarting => 0x15
  end.

Definition FrameType_from_u8 (v : Z) : option FrameType :=
  match v with
  | 0x01 => Some ServerKey
  | 0x02 => Some ClientInfo
  | 0x03 => Some ServerInfo
  | 0x04 => Some SendPacket
  | 0x05 => Some RecvPacket
  | 0x06 => Some KeepAlive
  | 0x07 => Some NotePreferred
  | 0x08 => Some PeerGone
  | 0x09 => Some PeerPresent
  | 0x0A => Some ForwardPacket
  | 0x10 => Some WatchConns
  | 0x11 => Some ClosePeer
  | 0x12 => Some Ping
  | 0x13 => Some Pong
  | 0x14 => Some Health
  | 0x15 => Some Restarting
  | _ => None
  end.

Inductive PeerGoneReason := Disconnected | NotHere.
Definition PeerGoneReason_as_u8 (r : PeerGoneReason) : Z :=
  match r with Disconnected => 0 | NotHere => 1 end.

Inductive io_error :=
| UnexpectedEof
| UnknownFrameType (b : Z)
| FrameTooLarge (n : Z)
| ShortPayload
| MagicMismatch.

(** ** Frames on a byte stream *)

Definition write_frame (w : bytes) (t : FrameType) (payload : bytes) : bytes :=
  let l := wrap 32 (len payload) in
  let w := w ++ [byte_of_Z (FrameType_as_u8 t)] ++ to_be_bytes 4 l in
  match payload with [] => w | _ => w ++ payload end.

(** [AsyncReadExt::read_exact] into a buffer of [n] bytes. *)
Definition read_exact (r : bytes) (n : nat) : result io_error (bytes * bytes) :=
  if (n <=? length r)%nat then Ok (take n r, drop n r) else Err UnexpectedEof.

Definition read_frame (r : bytes) : result io_error (FrameType * bytes * bytes) :=
  let? '(header, r) := read_exact r FRAME_HEADER_LEN in
  let? frame_type :=
    match FrameType_from_u8 (byte_to_Z (byte_at header 0)) with
    | Some t => Ok t
    | None => Err (UnknownFrameType (byte_to_Z (byte_at header 0)))
    end in
  let l := from_be_bytes [byte_at header 1; byte_at header 2; byte_at header 3; byte_at header 4] in
  if MAX_FRAME_SIZE <? l then Err (FrameTooLarge l) else
  if 0 <? l then
    let? '(payload, r) := read_exact r (Z.to_nat l) in Ok (frame_type, payload, r)
  else Ok (frame_type, [], r).

(** ** Payloads

    Keys and nonces are arrays of [KEY_LEN] and [NONCE_LEN] bytes. *)

Definition build_server_key (key : bytes) : bytes := MAGIC ++ key.
Definition parse_server_key (payload : bytes) : result io_error bytes :=
  if (length payload <? length MAGIC + KEY_LEN)%nat then Err ShortPayload
  else if decide (take (length MAGIC) payload = MAGIC)
  then Ok (slice payload (length MAGIC) (length MAGIC + KEY_LEN))
  else Err MagicMismatch.

Definition build_client_info (key nonce sealed_json : bytes) : bytes := key ++ nonce ++ sealed_json.
Definition parse_client_info (payload : bytes) : result io_error (bytes * bytes * bytes) :=
  if (length payload <? KEY_LEN + NONCE_LEN)%nat then Err ShortPayload
  else Ok (take KEY_LEN payload, slice payload KEY_LEN (KEY_LEN + NONCE_LEN),
           drop (KEY_LEN + NONCE_LEN) payload).

Definition build_server_info (nonce sealed_json : bytes) : bytes := nonce ++ sealed_json.
Definition parse_server_info (payload : bytes) : result io_error (bytes * bytes) :=
  if (length payload <? NONCE_LEN)%nat then Err ShortPayload
  else Ok (take NONCE_LEN payload, drop NONCE_LEN payload).

Definition build_send_packet (dst_key data : bytes) : bytes := dst_key ++ data.
Definition parse_send_packet (payload : bytes) : result io_error (bytes * bytes) :=
  if (length payload <? KEY_LEN)%nat then Err ShortPayload
  else Ok (take KEY_LEN payload, drop KEY_LEN payload).

Definition build_recv_packet (src_key data : bytes) : bytes := src_key ++ data.
Definition parse_recv_packet (payload : bytes) : result io_error (bytes * bytes) :=
  if (length payload <? KEY_LEN)%nat then Err ShortPayload
  else Ok (take KEY_LEN payload, drop KEY_LEN payload).

Definition build_peer_gone (key : bytes) (reason : PeerGoneReason) : bytes :=
  key ++ [byte_of_Z (PeerGoneReason_as_u8 reason)].

Definition build_restarting (reconnect_ms try_for_ms : Z) : bytes :=
  to_be_bytes 4 reconnect_ms ++ to_be_bytes 4 try_for_ms.
Definition parse_restarting (payload : bytes) : result io_error (Z * Z) :=
  if (length payload <? 8)%nat then Err ShortPayload
  else Ok (from_be_bytes (slice payload 0 4), from_be_bytes (slice payload 4 8)).

(** ** Lemmas *)

Lemma frame_type_from_as t : FrameType_from_u8 (FrameType_as_u8 t) = Some t.
Proof. by destruct t. Qed.

Lemma frame_type_as_from b t :
  FrameType_from_u8 (byte_to_Z b) = Some t → FrameType_as_u8 t = byte_to_Z b.
Proof. destruct b; vm_compute; intros [= <-]; reflexivity. Qed.

Lemma type_as_u8_ok t : u8_ok (FrameType_as_u8 t).
Proof. by destruct t. Qed.

Definition header (t : FrameType) (l : Z) : bytes :=
  [byte_of_Z (FrameType_as_u8 t)] ++ to_be_bytes 4 l.

Lemma write_frame_bytes w t p : write_frame w t p = w ++ header t (wrap 32 (len p)) ++ p.
Proof. unfold write_frame, header. destruct p; [by rewrite !app_nil_r | by rewrite <- !app_assoc]. Qed.

Lemma read_exact_app a r n : n = length a → read_exact (a ++ r) n = Ok (a, r).
Proof.
  intros ->. unfold read_exact. rewrite (proj2 (Nat.leb_le _ _)) by (rewrite length_app; lia).
  by rewrite take_app_length, drop_app_length.
Qed.

Lemma read_exact_Ok r n a r' : read_exact r n = Ok (a, r') → r = a ++ r' ∧ length a = n.
Proof.
  unfold read_exact. destruct (_ <=? _)%nat eqn:E; [|discriminate]. apply Nat.leb_le in E.
  intros [= <- <-]. rewrite take_drop, length_take. split; [done | lia].
Qed.

(** The reader after a frame header: the decision on the length. *)
Lemma read_frame_header t l r :
  u32_ok l →
  read_frame (header t l ++ r)
  = if MAX_FRAME_SIZE <? l then Err (FrameTooLarge l) else
    if 0 <? l then let? '(payload, r) := read_exact r (Z.to_nat l) in Ok (t, payload, r)
    else Ok (t, [], r).
Proof.
  intros Hl. unfold read_frame. rewrite read_exact_app by done. cbn [bind_result].
  change (byte_at (header t l) 0) with (byte_of_Z (FrameType_as_u8 t)).
  rewrite byte_to_of_small, frame_type_from_as by apply type_as_u8_ok. cbn [bind_result].
  change (from_be_bytes [byte_at (header t l) 1; byte_at (header t l) 2;
                         byte_at (header t l) 3; byte_at (header t l) 4])
    with (from_be_bytes (to_be_bytes 4 l)).
  by rewrite from_to_be_4.
Qed.

Lemma read_frame_sound r t p r' :
  read_frame r = Ok (t, p, r') → r = write_frame [] t p ++ r' ∧ len p <= MAX_FRAME_SIZE.
Proof.
  unfold read_frame. intros ([h r1] & Hh & H)%bind_Ok.
  apply read_exact_Ok in Hh as [-> Hlen]. unfold FRAME_HEADER_LEN in Hlen.
  apply bind_Ok in H as (t' & Ht & H).
  destruct (FrameType_from_u8 _) as [t0|] eqn:Et; [|discriminate]. injection Ht as ->.
  do 6 (destruct h as [|? h]; try discriminate Hlen).
  unfold byte_at in H, Et. simpl in H, Et. apply frame_type_as_from in Et.
  destruct (MAX_FRAME_SIZE <? _) eqn:El; [discriminate|]. apply Z.ltb_ge in El.
  pose proof (from_be4_ok b0 b1 b2 b3) as Hok.
  assert (Hhd : [b; b0; b1; b2; b3] = header t' (from_be_bytes [b0; b1; b2; b3]))
    by (unfold header; by rewrite Et, byte_of_to_Z, to_from_be4).
  destruct (0 <? _) eqn:Ez.
  - apply bind_Ok in H as ([p1 r2] & Hp & [= <- <- <-]). apply read_exact_Ok in Hp as [-> Hpl].
    rewrite write_frame_bytes. assert (Hl : len p1 = from_be_bytes [b0; b1; b2; b3])
      by (unfold len; rewrite Hpl; destruct Hok; lia).
    rewrite Hl, wrap_small, <- Hhd by done. split; [by rewrite <- app_assoc | done].
  - injection H as <- <- <-. apply Z.ltb_ge in Ez. rewrite write_frame_bytes.
    replace (from_be_bytes [b0; b1; b2; b3]) with 0 in Hhd by (destruct Hok; lia).
    rewrite Hhd. split; [done | unfold len; simpl; discriminate].
Qed.

(** Splitting a payload at the length of its first field. *)
Lemma split_field n (k d : bytes) : length k = n → take n (k ++ d) = k ∧ drop n (k ++ d) = d
                                         ∧ (length (k ++ d) <? n)%nat = false.
Proof.
  intros <-. rewrite take_app_length, drop_app_length, length_app.
  split_and!; [done | done | apply Nat.ltb_ge; lia].
Qed.

(** ** Properties *)

Lemma read_written_frame t p rest :
  len p <= MAX_FRAME_SIZE → read_frame (write_frame [] t p ++ rest) = Ok (t, p, rest).
Proof.
  intros Hp. assert (Hw : u32_ok (len p))
    by (change MAX_FRAME_SIZE with 1048576 in Hp; unfold in_width, len in *; lia).
  rewrite write_frame_bytes. cbn [app]. rewrite <- app_assoc, wrap_small, read_frame_header by done.
  rewrite (proj2 (Z.ltb_ge _ _)) by done. destruct (0 <? len p) eqn:E.
  - unfold len. rewrite Nat2Z.id, read_exact_app by done. done.
  - apply Z.ltb_ge in E. by destruct p.
Qed.

(** The DERP frame layer is a faithful code for payloads up to 1 MiB: a
    frame written to any stream reads back as the same type and payload and
    leaves the bytes that follow it; and whatever [read_frame] accepts is
    exactly a written frame of at most that size. *)
Theorem derp_frame_roundtrip t p rest r t' p' r' :
  len p <= MAX_FRAME_SIZE → read_frame r = Ok (t', p', r') →
  read_frame (write_frame [] t p ++ rest) = Ok (t, p, rest)
  ∧ r = write_frame [] t' p' ++ r' ∧ len p' <= MAX_FRAME_SIZE.
Proof. intros Hp Hr. split; [by apply read_written_frame|by apply read_frame_sound]. Qed.

Lemma derp_frame_roundtrip_witness :
  read_frame (write_frame [] SendPacket [Byte.x01; Byte.x02] ++ [Byte.x09])
  = Ok (SendPacket, [Byte.x01; Byte.x02], [Byte.x09])
  ∧ write_frame [] KeepAlive [] = write_frame [] KeepAlive [] ++ []
  ∧ len [] <= MAX_FRAME_SIZE.
Proof.
  apply (derp_frame_roundtrip SendPacket [Byte.x01; Byte.x02] [Byte.x09] (write_frame [] KeepAlive []));
    [vm_compute; congruence | reflexivity].
Defined.

(** Writing is less strict than reading: [write_frame] accepts a payload of
    any size, but a payload above [MAX_FRAME_SIZE] (up to the 32-bit length)
    makes a frame that every reader refuses, whatever follows. *)
Theorem derp_oversized_frame_refused t p rest :
  MAX_FRAME_SIZE < len p → u32_ok (len p) →
  read_frame (write_frame [] t p ++ rest) = Err (FrameTooLarge (len p)).
Proof.
  intros Hbig Hw. rewrite write_frame_bytes. cbn [app].
  rewrite <- app_assoc, wrap_small, read_frame_header by done.
  by rewrite (proj2 (Z.ltb_lt _ _)).
Qed.

Lemma derp_oversized_frame_refused_witness :
  read_frame (write_frame [] SendPacket (replicate (Z.to_nat (MAX_FRAME_SIZE + 1)) Byte.x00) ++ [])
  = Err (FrameTooLarge (len (replicate (Z.to_nat (MAX_FRAME_SIZE + 1)) Byte.x00))).
Proof.
  assert (Hl : len (replicate (Z.to_nat (MAX_FRAME_SIZE + 1)) Byte.x00) = MAX_FRAME_SIZE + 1).
  { unfold len. rewrite length_replicate. apply Z2Nat.id. vm_compute. congruence. }
  apply (derp_oversized_frame_refused SendPacket (replicate (Z.to_nat (MAX_FRAME_SIZE + 1)) Byte.x00) []);
    rewrite Hl; vm_compute; intuition congruence.
Defined.

(** Every DERP payload parser inverts its builder on keys and nonces of the
    fixed lengths, and refuses a payload shorter than its fixed fields. *)
Theorem derp_payloads_roundtrip key nonce d r1 r2 short :
  length key = KEY_LEN → length nonce = NONCE_LEN → u32_ok r1 → u32_ok r2 →
  (length short < NONCE_LEN)%nat →
  parse_server_key (build_server_key key ++ d) = Ok key
  ∧ parse_client_info (build_client_info key nonce d) = Ok (key, nonce, d)
  ∧ parse_server_info (build_server_info nonce d) = Ok (nonce, d)
  ∧ parse_send_packet (build_send_packet key d) = Ok (key, d)
  ∧ parse_recv_packet (build_recv_packet key d) = Ok (key, d)
  ∧ parse_restarting (build_restarting r1 r2 ++ d) = Ok (r1, r2)
  ∧ parse_server_key short = Err ShortPayload
  ∧ parse_client_info short = Err ShortPayload
  ∧ parse_server_info short = Err ShortPayload
  ∧ parse_send_packet short = Err ShortPayload.
Proof.
  intros Hk Hn H1 H2 Hs.
  destruct (split_field _ key d Hk) as (Tk & Dk & Lk).
  destruct (split_field _ nonce d Hn) as (Tn & Dn & Ln).
  unfold parse_server_key, parse_client_info, parse_server_info, parse_send_packet,
    parse_recv_packet, build_server_key, build_client_info, build_server_info,
    build_send_packet, build_recv_packet.
  rewrite Tk, Dk, Lk, Tn, Dn, Ln.
  rewrite !(proj2 (Nat.ltb_lt (length short) _)) by (unfold NONCE_LEN, KEY_LEN in *; simpl; lia).
  split_and!; try done.
  - rewrite <- app_assoc. rewrite take_app_length, decide_True by done.
    rewrite (proj2 (Nat.ltb_ge _ _)) by (rewrite !length_app; lia). by rewrite slice_mid by lia.
  - rewrite (proj2 (Nat.ltb_ge _ _)) by (rewrite !length_app; lia).
    rewrite slice_mid by lia. rewrite app_assoc.
    rewrite (drop_app_length' (key ++ nonce)) by (rewrite length_app; lia).
    rewrite <- app_assoc, (take_app_length' key) by lia. done.
  - unfold parse_restarting, build_restarting. rewrite <- app_assoc.
    rewrite (proj2 (Nat.ltb_ge _ _)) by (rewrite !length_app, !length_to_be_bytes; lia).
    rewrite (slice_mid (to_be_bytes 4 r1) (to_be_bytes 4 r2) d 4 8) by done.
    pose proof (slice_mid [] (to_be_bytes 4 r1) (to_be_bytes 4 r2 ++ d) 0 4 eq_refl eq_refl) as H0.
    cbn [app] in H0. rewrite H0. by rewrite !from_to_be_4.
Qed.

Lemma derp_payloads_roundtrip_witness :
  parse_client_info (build_client_info (replicate 32 Byte.x01) (replicate 24 Byte.x02) [Byte.x03])
  = Ok (replicate 32 Byte.x01, replicate 24 Byte.x02, [Byte.x03]).
Proof.
  apply (derp_payloads_roundtrip (replicate 32 Byte.x01) (replicate 24 Byte.x02) [Byte.x03] 1 2 []);
    vm_compute; intuition (congruence || lia).
Defined.
