(* ===== verification/DerpServer.v ===== *)
(** * The DERP relay server ([src/src/derp/server.rs])

    The handshake that authenticates a client's key; the table of clients, and the
    task of each connection as steps over it, with the bytes its client sends and
    those that a dropped read loses.  The table is under a lock: a section
    under it is one step, except the one that waits, while it holds the lock, for
    room in the channel of the connection it replaces. *)

From stdpp Require Import relations.
From S2P Require Import Prelude RustStr Derp.

Local Open Scope list_scope.
Local Open Scope Z_scope.

#[export] Instance byte_countable : Countable byte := inj_countable' byte_to_Z byte_of_Z byte_of_to_Z.

(** ** The handshake *)

(** NaCl boxes between a secret and a public key; what is sealed with one pair of
    ends opens with the other. *)
Class NaclBox := {
  public_key : bytes → bytes;
  seal : bytes → bytes → bytes → bytes → bytes;
  open_box : bytes → bytes → bytes → bytes → option bytes;
  public_key_length : ∀ sk, length (public_key sk) = KEY_LEN;
  open_seal : ∀ a b n m, open_box a (public_key b) n (seal b (public_key a) n m) = Some m
}.

(** An instance, for examples. *)
Definition plain_box : NaclBox := {|
  public_key := padded KEY_LEN;
  seal _ _ _ m := m;
  open_box _ _ _ m := Some m;
  public_key_length := length_padded KEY_LEN;
  open_seal _ _ _ _ := eq_refl
|}.

Section handshake.
Context `{NaclBox} (SERVER_INFO_JSON : bytes).
Inductive Handshake := Refused (why : string) | Accepted (key rest : bytes).
(** The part of [handle_client] before the table: what is written and how it ends,
    on the bytes the client sends; [w1] and [w2]: the two writes go through. *)
Definition handshake (secret_key si_nonce : bytes) (w1 w2 : bool) (input : bytes) : bytes * Handshake :=
  let out := Derp.write_frame [] ServerKey (build_server_key (public_key secret_key)) in
  if negb w1 then ([], Refused "send ServerKey")
  else
    match read_frame input with
    | Err _ => (out, Refused "read ClientInfo")
    | Ok (ClientInfo, payload, rest) =>
        match parse_client_info payload with
        | Err _ => (out, Refused "parse ClientInfo")
        | Ok (client_pub, nonce, ciphertext) =>
            match open_box secret_key client_pub nonce ciphertext with
            | None => (out, Refused "decrypt ClientInfo")
            | Some _ =>
                let sealed := seal secret_key client_pub si_nonce SERVER_INFO_JSON in
                if negb w2 then (out, Refused "send ServerInfo")
                else (Derp.write_frame out ServerInfo (build_server_info si_nonce sealed), Accepted client_pub rest)
            end
        end
    | Ok _ => (out, Refused "expected ClientInfo")
    end.
End handshake.

(** ** Connections *)

Inductive ClientMsg :=
| Packet (src_key data : bytes)
| MPeerGone (key : bytes) (reason : PeerGoneReason)
| MHealth (text : bytes)
| Shutdown.
(** Where the task of a connection stands: about to lock the table to register;
    holding the lock, about to tell connection [old] to end; about to announce itself;
    in its loop; about to lock the table for a packet or a preference; about to leave
    the table, to announce that; ended. *)
Inductive Phase :=
| PJoin | PEvict (old : nat) | PPresent | PLoop | PForward (dst data : bytes) | PPrefer (b : bool) | PClean | PGone | PDone.
(** The bytes of a client: [sent], all that arrived behind its handshake; [unread],
    those the server has not read; [gaps], the bytes that were lost before each frame
    it read; [gap], those lost since the last. *)
Record Link := mkLink { sent : bytes; unread : bytes; gaps : list bytes; gap : bytes }.
(** [inp] and [outp]: the frames read and written in the loop so far. *)
Record Conn := mkConn {
  ckey : bytes; chan : list ClientMsg; phase : Phase; inp : list (FrameType * bytes); outp : list (FrameType * bytes);
  net : Link
}.
Record ConnectedClient := mkClient { tx : nat; preferred : bool }.
(** [forwarded]: the packets routed so far, with the connection and key they came
    from. *)
Record Server := mkServer { clients : gmap bytes ConnectedClient; conns : list Conn; forwarded : list (nat * bytes * bytes * bytes) }.
Definition server_new : Server := mkServer ∅ [] [].
Definition client_count (s : Server) : nat := size (clients s).
Definition online_keys (s : Server) : list bytes := (map_to_list (clients s)).*1.

Definition CHANNEL : nat := Z.to_nat 256.
Definition set_phase (p : Phase) (c : Conn) : Conn := mkConn (ckey c) (chan c) p (inp c) (outp c) (net c).
Definition write (ft : FrameType) (payload : bytes) (c : Conn) : Conn :=
  mkConn (ckey c) (chan c) (phase c) (inp c) (outp c ++ [(ft, payload)]) (net c).
Definition has_read (ft : FrameType) (payload : bytes) (c : Conn) : Conn :=
  mkConn (ckey c) (chan c) (phase c) (inp c ++ [(ft, payload)]) (outp c) (net c).
Definition rx_alive (c : Conn) : bool := match phase c with PClean | PGone | PDone => false | _ => true end.
Definition has_room (c : Conn) : bool := (length (chan c) <? CHANNEL)%nat.
Definition push (m : ClientMsg) (c : Conn) : Conn :=
  if rx_alive c && has_room c then mkConn (ckey c) (chan c ++ [m]) (phase c) (inp c) (outp c) (net c) else c.
Definition on_conn (i : nat) (f : Conn → Conn) (s : Server) : Server := mkServer (clients s) (alter f i (conns s)) (forwarded s).
(** [try_send] *)
Definition try_send (i : nat) (m : ClientMsg) : Server → Server := on_conn i (push m).
Definition set_clients (m : gmap bytes ConnectedClient) (s : Server) : Server := mkServer m (conns s) (forwarded s).

Definition forward_packet (src_key dst_key data : bytes) (s : Server) : Server :=
  match clients s !! dst_key with
  | Some dst_client => try_send (tx dst_client) (Packet src_key data) s
  | None =>
      match clients s !! src_key with
      | Some src_client => try_send (tx src_client) (MPeerGone dst_key NotHere) s
      | None => s
      end
  end.
Definition broadcast (except : bytes) (m : ClientMsg) (s : Server) : Server :=
  foldr (fun p s => if decide (p.1 = except) then s else try_send (tx p.2) m s) s (map_to_list (clients s)).
Definition broadcast_peer_present (new_key : bytes) : Server → Server := broadcast new_key (Packet new_key []).
Definition broadcast_peer_gone (gone_key : bytes) : Server → Server := broadcast gone_key (MPeerGone gone_key Disconnected).

(** What happens to a connection, and whether the write that follows goes through.
    A frame is read when all of it is there.  When another branch of the [select]
    runs, the reader is dropped: [lost] is how many bytes of an unfinished frame it
    had taken by then. *)
Inductive event :=
| EGo
| EArrive (data : bytes)
| EFrame (ok : bool)
| EReadErr
| EMsg (lost : nat) (ok : bool)
| ETick (lost : nat) (ok : bool).
Definition set_net (l : Link) (c : Conn) : Conn := mkConn (ckey c) (chan c) (phase c) (inp c) (outp c) l.
Definition arrive (data : bytes) (c : Conn) : Conn :=
  let l := net c in set_net (mkLink (sent l ++ data) (unread l ++ data) (gaps l) (gap l)) c.
Definition take_frame (rest : bytes) (c : Conn) : Conn :=
  let l := net c in set_net (mkLink (sent l) rest (gaps l ++ [gap l]) []) c.
Definition drop_reader (lost : nat) (c : Conn) : option Conn :=
  let l := net c in
  match read_frame (take lost (unread l)) with
  | Err UnexpectedEof => Some (set_net (mkLink (sent l) (drop lost (unread l)) (gaps l) (gap l ++ take lost (unread l))) c)
  | _ => None
  end.
Definition written (ok : bool) (ft : FrameType) (payload : bytes) (c : Conn) : Conn :=
  if ok then write ft payload c else set_phase PClean c.
(** [handle_client_frame] *)
Definition handle_client_frame (ft : FrameType) (payload : bytes) (ok : bool) (c : Conn) : Conn :=
  let c := has_read ft payload c in
  match ft with
  | SendPacket =>
      match parse_send_packet payload with
      | Err _ => set_phase PClean c
      | Ok (dst_key, data) => set_phase (PForward dst_key data) c
      end
  | Ping => written ok Pong payload c
  | NotePreferred => match payload with [] => c | b :: _ => set_phase (PPrefer (negb (byte_to_Z b =? 0))) c end
  | _ => c
  end.
(** The branch of the channel. *)
Definition handle_msg (ok : bool) (c : Conn) : option Conn :=
  match chan c with
  | [] => None
  | m :: ms =>
      let c := mkConn (ckey c) ms (phase c) (inp c) (outp c) (net c) in
      Some match m with
           | Packet src_key data => written ok RecvPacket (build_recv_packet src_key data) c
           | MPeerGone key reason => if ok then write PeerGone (build_peer_gone key reason) c else c
           | MHealth text => if ok then write Health text c else c
           | Shutdown => set_phase PClean c
           end
  end.

Definition is_evict (c : Conn) : bool := match phase c with PEvict _ => true | _ => false end.
Definition locked (s : Server) : bool := existsb is_evict (conns s).
Definition register (i : nat) (key : bytes) (s : Server) : Server :=
  on_conn i (set_phase PPresent) (set_clients (<[key := mkClient i false]> (clients s)) s).
Definition route (i : nat) (c : Conn) (dst data : bytes) (s : Server) : Server :=
  let s := forward_packet (ckey c) dst data s in
  on_conn i (set_phase PLoop) (mkServer (clients s) (conns s) (forwarded s ++ [(i, ckey c, dst, data)])).
Definition with_lock (i : nat) (c : Conn) (s : Server) : option Server :=
  match phase c with
  | PJoin =>
      Some match clients s !! ckey c with
           | Some old => on_conn i (set_phase (PEvict (tx old))) (set_clients (delete (ckey c) (clients s)) s)
           | None => register i (ckey c) s
           end
  | PPresent => Some (on_conn i (set_phase PLoop) (broadcast_peer_present (ckey c) s))
  | PForward dst data => Some (route i c dst data s)
  | PPrefer b =>
      Some (on_conn i (set_phase PLoop) (set_clients (alter (fun cl => mkClient (tx cl) b) (ckey c) (clients s)) s))
  | PClean => Some (on_conn i (set_phase PGone) (set_clients (delete (ckey c) (clients s)) s))
  | PGone => Some (on_conn i (set_phase PDone) (broadcast_peer_gone (ckey c) s))
  | _ => None
  end.
(** The step of a task: the loop of [client_loop] and the rest of [handle_client]. *)
Definition conn_step (i : nat) (e : event) (s : Server) : option Server :=
  c ← conns s !! i;
  match phase c, e with
  | _, EArrive data => Some (on_conn i (arrive data) s)
  | PLoop, EFrame ok =>
      match read_frame (unread (net c)) with
      | Ok (ft, payload, rest) => Some (on_conn i (fun c => handle_client_frame ft payload ok (take_frame rest c)) s)
      | Err _ => None
      end
  | PLoop, EReadErr => Some (on_conn i (set_phase PClean) s)
  | PLoop, EMsg lost ok => c1 ← drop_reader lost c; c' ← handle_msg ok c1; Some (on_conn i (fun _ => c') s)
  | PLoop, ETick lost ok => c1 ← drop_reader lost c; Some (on_conn i (fun _ => written ok KeepAlive [] c1) s)
  | PEvict old, EGo =>
      match conns s !! old with
      | Some o => if rx_alive o && negb (has_room o) then None else Some (register i (ckey c) (try_send old Shutdown s))
      | None => Some (register i (ckey c) s)
      end
  | _, EGo => if locked s then None else with_lock i c s
  | _, _ => None
  end.
(** A connection whose handshake was accepted; [rest] has arrived behind it. *)
Definition accept (key rest : bytes) (s : Server) : Server :=
  mkServer (clients s) (conns s ++ [mkConn key [] PJoin [] [] (mkLink rest rest [] [])]) (forwarded s).
Inductive dstep `{NaclBox} (json secret_key : bytes) : Server → Server → Prop :=
| dstep_accept si_nonce input out key rest s :
    handshake json secret_key si_nonce true true input = (out, Accepted key rest) →
    dstep json secret_key s (accept key rest s)
| dstep_conn i e s s' : conn_step i e s = Some s' → dstep json secret_key s s'.

(** ** What is routed where *)

Definition packet_of (m : ClientMsg) : option (bytes * bytes) :=
  match m with Packet src (x :: d) => Some (src, x :: d) | _ => None end.
Definition pkts : list ClientMsg → list (bytes * bytes) := omap packet_of.
Definition recv_of (f : FrameType * bytes) : option (bytes * bytes) :=
  match f with
  | (RecvPacket, payload) => match parse_recv_packet payload with Ok (src, x :: d) => Some (src, x :: d) | _ => None end
  | _ => None
  end.
(** The packets with data that a client was sent, that it sent, that were routed to
    a key, that were routed from a connection. *)
Definition received : list (FrameType * bytes) → list (bytes * bytes) := omap recv_of.
Definition send_of (f : FrameType * bytes) : option (bytes * bytes) :=
  match f with
  | (SendPacket, payload) => match parse_send_packet payload with Ok p => Some p | Err _ => None end
  | _ => None
  end.
Definition sends : list (FrameType * bytes) → list (bytes * bytes) := omap send_of.
Definition routed_to (k : bytes) (log : list (nat * bytes * bytes * bytes)) : list (bytes * bytes) :=
  omap (fun '(_, src, dst, d) => if decide (dst = k) then match d with [] => None | _ => Some (src, d) end else None) log.
Definition routed_from (i : nat) (log : list (nat * bytes * bytes * bytes)) : list (bytes * bytes) :=
  omap (fun '(j, _, dst, d) => if decide (j = i) then Some (dst, d) else None) log.
Definition pending (c : Conn) : list (bytes * bytes) := match phase c with PForward dst d => [(dst, d)] | _ => [] end.

Definition recv_ok (log : list (nat * bytes * bytes * bytes)) (c : Conn) : Prop :=
  received (outp c) ++ pkts (chan c) `sublist_of` routed_to (ckey c) log.
Definition send_ok (log : list (nat * bytes * bytes * bytes)) (i : nat) (c : Conn) : Prop :=
  routed_from i log ++ pending c = sends (inp c).
Definition conn_ok log (i : nat) (c : Conn) : Prop := recv_ok log c ∧ send_ok log i c.
Definition conns_ok log (l : list Conn) : Prop := ∀ i c, l !! i = Some c → conn_ok log i c.
Definition keys (s : Server) : list bytes := ckey <$> conns s.
Definition key_ok (m : ClientMsg) : Prop := match m with Packet src _ => length src = KEY_LEN | _ => True end.
Section invariant.
(** What every key of a connection satisfies. *)
Context (proved : bytes → Prop).
Record server_inv (s : Server) : Prop := {
  inv_conns : conns_ok (forwarded s) (conns s);
  inv_chans : Forall (fun c => Forall key_ok (chan c)) (conns s);
  inv_keys : Forall (fun k => length k = KEY_LEN ∧ proved k) (keys s);
  inv_table : ∀ k cl, clients s !! k = Some cl → keys s !! tx cl = Some k;
  inv_log : ∀ i src dst d, (i, src, dst, d) ∈ forwarded s → keys s !! i = Some src
}.

Lemma keys_on_conn i f s : (∀ c, ckey (f c) = ckey c) → keys (on_conn i f s) = keys s.
Proof.
  intros Hf. unfold keys, on_conn. cbn [conns]. apply list_eq. intros j. rewrite !list_lookup_fmap, list_lookup_alter.
  case_decide as E; [subst j|done]. destruct (conns s !! i) as [c|]; [|done]. cbn. by rewrite Hf.
Qed.
Lemma conns_ok_alter log i f l :
  conns_ok log l → (∀ c, l !! i = Some c → conn_ok log i c → conn_ok log i (f c)) → conns_ok log (alter f i l).
Proof.
  intros Hl Hf j c. rewrite list_lookup_alter. case_decide as E; [subst j|by apply Hl].
  destruct (l !! i) as [c0|] eqn:E0; [|done]. intros [= <-]. by apply Hf, Hl.
Qed.
Lemma Forall_alter' {A} (P : A → Prop) f i l : Forall P l → (∀ x, l !! i = Some x → P x → P (f x)) → Forall P (alter f i l).
Proof. intros Hl Hf. apply Forall_alter; [done|]. intros x Hx Hp. by apply Hf. Qed.
Lemma pkts_app a b : pkts (a ++ b) = pkts a ++ pkts b.
Proof. apply omap_app. Qed.
Lemma received_app a b : received (a ++ b) = received a ++ received b.
Proof. apply omap_app. Qed.
Lemma sends_app a b : sends (a ++ b) = sends a ++ sends b.
Proof. apply omap_app. Qed.
Lemma recv_of_packet src d : length src = KEY_LEN → received [(RecvPacket, build_recv_packet src d)] = pkts [Packet src d].
Proof.
  intros Hl. unfold received, pkts. cbn [omap list_omap recv_of packet_of]. unfold parse_recv_packet, build_recv_packet.
  rewrite length_app, (proj2 (Nat.ltb_ge _ _)) by lia. rewrite (take_app_length' src), (drop_app_length' src) by done. by destruct d.
Qed.

(** *** Changes of a single connection *)
Lemma recv_ok_same log c c' :
  ckey c' = ckey c → received (outp c') ++ pkts (chan c') = received (outp c) ++ pkts (chan c) → recv_ok log c → recv_ok log c'.
Proof. unfold recv_ok. by intros -> ->. Qed.
Lemma send_ok_same log i c c' : pending c' = pending c → sends (inp c') = sends (inp c) → send_ok log i c → send_ok log i c'.
Proof. unfold send_ok. by intros -> ->. Qed.
Lemma push_quiet log i m c : packet_of m = None → conn_ok log i c → conn_ok log i (push m c).
Proof.
  intros Hm [Hr Hs]. unfold push. destruct (rx_alive c && has_room c); [|done].
  split; [|by apply (send_ok_same _ _ c)]. apply (recv_ok_same _ c); [done| |done]. cbn [outp chan]. rewrite pkts_app.
  unfold pkts at 2. cbn [omap list_omap]. by rewrite Hm, app_nil_r.
Qed.
Lemma push_chans m c : key_ok m → Forall key_ok (chan c) → Forall key_ok (chan (push m c)).
Proof. intros Hm Hc. unfold push. destruct (_ && _); [|done]. cbn [chan]. apply Forall_app. by repeat constructor. Qed.
Lemma push_key m c : ckey (push m c) = ckey c.
Proof. unfold push. by destruct (_ && _). Qed.
Lemma idle_phase log i p c : match p with PForward _ _ => False | _ => True end → pending c = [] → conn_ok log i c → conn_ok log i (set_phase p c).
Proof. intros Hp Hc [Hr Hs]. split; [done|]. apply (send_ok_same _ _ c); [|done|done]. rewrite Hc. by destruct p. Qed.
Lemma on_conn_inv i f s :
  server_inv s → (∀ c, ckey (f c) = ckey c) →
  (∀ c, conns s !! i = Some c → conn_ok (forwarded s) i c → conn_ok (forwarded s) i (f c)) →
  (∀ c, conns s !! i = Some c → Forall key_ok (chan c) → Forall key_ok (chan (f c))) → server_inv (on_conn i f s).
Proof.
  intros [Hc Hch Hk Ht Hl] Hf Ho Hm. split; rewrite ?keys_on_conn by done; try done.
  - by apply conns_ok_alter.
  - by apply Forall_alter'.
Qed.
Lemma set_clients_inv m s : server_inv s → (∀ k cl, m !! k = Some cl → keys s !! tx cl = Some k) → server_inv (set_clients m s).
Proof. intros [Hc Hch Hk Ht Hl] Hm. by split. Qed.
Lemma try_send_inv i m s : packet_of m = None → key_ok m → server_inv s → server_inv (try_send i m s).
Proof.
  intros Hm Hk Hi. apply on_conn_inv; [done|apply push_key|by intros; apply push_quiet|]. intros c _. by apply push_chans.
Qed.
Lemma broadcast_inv k m s : packet_of m = None → key_ok m → server_inv s → server_inv (broadcast k m s).
Proof.
  intros Hm Hk Hi. unfold broadcast. induction (map_to_list (clients s)) as [|p l IH]; [done|]. cbn [foldr].
  destruct (decide (p.1 = k)); [done|]. by apply try_send_inv.
Qed.
(** *** Turns of the loop *)
Lemma written_ok log i ok ft payload c :
  recv_of (ft, payload) = None → pending c = [] → conn_ok log i c → conn_ok log i (written ok ft payload c).
Proof.
  intros Hf Hp Hc. unfold written. destruct ok; [|by apply idle_phase]. destruct Hc as [Hr Hs]. split; [|by apply (send_ok_same _ _ c)].
  apply (recv_ok_same _ c); [done| |done]. cbn [write outp chan]. rewrite received_app.
  unfold received at 2. cbn [omap list_omap]. by rewrite Hf, app_nil_r.
Qed.
Lemma handle_frame_ok log i ft payload ok c :
  phase c = PLoop → conn_ok log i c → conn_ok log i (handle_client_frame ft payload ok c).
Proof.
  intros Hp Hc. assert (Hq : pending (has_read ft payload c) = []) by (unfold pending; cbn; by rewrite Hp).
  assert (Hq0 : pending c = []) by (unfold pending; by rewrite Hp).
  destruct (decide (send_of (ft, payload) = None)) as [E|E].
  - assert (Hc' : conn_ok log i (has_read ft payload c)).
    { destruct Hc as [Hr Hs]. split; [done|]. apply (send_ok_same _ _ c); [done| |done]. cbn [has_read inp]. rewrite sends_app.
      unfold sends at 2. cbn [omap list_omap]. by rewrite E, app_nil_r. }
    unfold handle_client_frame. destruct ft; try done.
    + cbn [send_of] in E. destruct (parse_send_packet payload) as [[dst d]|]; [done|]. by apply idle_phase.
    + destruct payload; [done|]. by apply idle_phase.
    + by apply written_ok.
  - destruct ft; try done. cbn [send_of] in E. unfold handle_client_frame.
    destruct (parse_send_packet payload) as [[dst d]|] eqn:Ep; [|done]. destruct Hc as [Hr Hs]. split; [done|].
    unfold send_ok, pending in *. rewrite Hp, app_nil_r in Hs. cbn [set_phase phase has_read inp]. rewrite sends_app, Hs. f_equal.
    unfold sends. cbn [omap list_omap send_of]. by rewrite Ep.
Qed.
Lemma handle_msg_ok log i ok c c' :
  phase c = PLoop → Forall key_ok (chan c) → conn_ok log i c → handle_msg ok c = Some c' →
  conn_ok log i c' ∧ Forall key_ok (chan c') ∧ ckey c' = ckey c.
Proof.
  intros Hp Hk [Hr Hs]. unfold handle_msg. destruct (chan c) as [|m ms] eqn:Ec; [done|]. intros [= <-].
  apply Forall_cons in Hk as [Hm Hms]. set (c0 := mkConn _ _ _ _ _ _). assert (Hq : pending c0 = []) by (unfold pending; subst c0; cbn; by rewrite Hp).
  unfold recv_ok in Hr. rewrite Ec in Hr. change (m :: ms) with ([m] ++ ms) in Hr. rewrite pkts_app in Hr.
  assert (Hs0 : send_ok log i c0) by done.
  assert (H0 : recv_ok log c0) by (unfold recv_ok; subst c0; cbn [outp chan ckey]; etransitivity; [|exact Hr]; apply sublist_app; [done|by apply sublist_inserts_l]).
  destruct m as [src d|k r|t|]; cbn [written].
  - destruct ok; [|by split_and!; [apply idle_phase|..]]. split_and!; [|done|done]. split; [|done].
    unfold recv_ok. cbn [written write outp chan ckey c0]. rewrite received_app, recv_of_packet by done. by rewrite <- app_assoc.
  - destruct ok; [|done]. split_and!; [|done|done]. by apply (written_ok log i true).
  - destruct ok; [|done]. split_and!; [|done|done]. by apply (written_ok log i true).
  - split_and!; [by apply idle_phase|done|done].
Qed.
(** *** Routing *)
Lemma recv_ok_more log l c : recv_ok log c → recv_ok (log ++ l) c.
Proof. unfold recv_ok, routed_to. intros Hr. rewrite omap_app. by apply sublist_inserts_r. Qed.
Lemma recv_ok_push log i k d c : recv_ok log c → recv_ok (log ++ [(i, k, ckey c, d)]) (push (Packet k d) c).
Proof.
  intros Hr. unfold push. destruct (_ && _); [|by apply recv_ok_more]. unfold recv_ok, routed_to in *. cbn [outp chan ckey].
  rewrite pkts_app, omap_app, app_assoc. apply sublist_app; [done|]. cbn [omap list_omap pkts packet_of].
  rewrite decide_True by done. by destruct d.
Qed.
Lemma forward_recv_ok i src dst d s j c :
  server_inv s → conns (forward_packet src dst d s) !! j = Some c →
  recv_ok (forwarded s ++ [(i, src, dst, d)]) c
  ∧ ∃ c0, conns s !! j = Some c0 ∧ ckey c = ckey c0 ∧ phase c = phase c0 ∧ inp c = inp c0
    ∧ (length src = KEY_LEN → Forall key_ok (chan c0) → Forall key_ok (chan c)).
Proof.
  intros Hi. assert (Hsame : conns s !! j = Some c → recv_ok (forwarded s ++ [(i, src, dst, d)]) c
    ∧ ∃ c0, conns s !! j = Some c0 ∧ ckey c = ckey c0 ∧ phase c = phase c0 ∧ inp c = inp c0
    ∧ (length src = KEY_LEN → Forall key_ok (chan c0) → Forall key_ok (chan c))).
  { intros Hj. split; [by apply recv_ok_more, (inv_conns _ Hi j)|]. by exists c. }
  unfold forward_packet. destruct (clients s !! dst) as [cl|] eqn:Ed; [|destruct (clients s !! src) as [cl|] eqn:Es; [|done]].
  - unfold try_send, on_conn. cbn [conns]. rewrite list_lookup_alter. case_decide as E; [subst j|done].
    destruct (conns s !! tx cl) as [c0|] eqn:E0; [|done]. intros [= <-].
    pose proof (inv_table _ Hi dst cl Ed) as Hk. unfold keys in Hk. rewrite list_lookup_fmap, E0 in Hk. injection Hk as <-.
    split; [by apply recv_ok_push, (inv_conns _ Hi (tx cl))|]. exists c0.
    split_and!; [done|apply push_key|by unfold push; destruct (_ && _)|by unfold push; destruct (_ && _)|].
    intros Hl Hc. by apply push_chans.
  - unfold try_send, on_conn. cbn [conns]. rewrite list_lookup_alter. case_decide as E; [subst j|done].
    destruct (conns s !! tx cl) as [c0|] eqn:E0; [|done]. intros [= <-].
    split; [by apply recv_ok_more, (push_quiet (forwarded s) (tx cl)), (inv_conns _ Hi)|]. exists c0.
    split_and!; [done|apply push_key|by unfold push; destruct (_ && _)|by unfold push; destruct (_ && _)|].
    intros _ Hc. by apply push_chans.
Qed.
Lemma forward_keys src dst d s : keys (forward_packet src dst d s) = keys s ∧ clients (forward_packet src dst d s) = clients s
  ∧ forwarded (forward_packet src dst d s) = forwarded s.
Proof.
  unfold forward_packet. destruct (clients s !! dst); [|destruct (clients s !! src); [|done]];
    (split_and!; [apply keys_on_conn; intros; apply push_key|done|done]).
Qed.
Lemma routed_from_other i j src dst d log : i ≠ j → routed_from j (log ++ [(i, src, dst, d)]) = routed_from j log.
Proof. intros Hne. unfold routed_from. rewrite omap_app. cbn [omap list_omap]. rewrite decide_False by done. by rewrite app_nil_r. Qed.
Lemma routed_from_self i src dst d log : routed_from i (log ++ [(i, src, dst, d)]) = routed_from i log ++ [(dst, d)].
Proof. unfold routed_from. rewrite omap_app. cbn [omap list_omap]. by rewrite decide_True. Qed.
Lemma route_inv i c dst d s :
  server_inv s → conns s !! i = Some c → phase c = PForward dst d → server_inv (route i c dst d s).
Proof.
  intros Hi Hc Hp. pose proof (forward_keys (ckey c) dst d s) as (Hk&Hcl&Hfw).
  assert (Hck : keys s !! i = Some (ckey c)) by (unfold keys; by rewrite list_lookup_fmap, Hc).
  assert (Hlen : length (ckey c) = KEY_LEN) by apply (Forall_lookup_1 _ _ _ _ (inv_keys _ Hi) Hck).
  unfold route. rewrite Hfw. set (f := forward_packet _ _ _ _) in *.
  assert (Hkeys : keys (on_conn i (set_phase PLoop) (mkServer (clients f) (conns f) (forwarded s ++ [(i, ckey c, dst, d)]))) = keys s).
  { rewrite keys_on_conn by done. by rewrite <- Hk. }
  split; rewrite ?Hkeys; cbn [on_conn conns forwarded clients].
  - intros j c'. rewrite list_lookup_alter. case_decide as E.
    + subst j. destruct (conns f !! i) as [c1|] eqn:E1; [|done]. intros [= <-].
      destruct (forward_recv_ok i _ _ _ s i c1 Hi E1) as [Hr (c0&H0&Hkc&Hph&Hin&_)]. rewrite Hc in H0. injection H0 as <-.
      split; [done|]. unfold send_ok. cbn [set_phase pending phase inp]. rewrite routed_from_self, app_nil_r, Hin.
      destruct (inv_conns _ Hi i c Hc) as [_ Hs]. unfold send_ok, pending in Hs. by rewrite Hp in Hs.
    + intros Hj. destruct (forward_recv_ok i _ _ _ s j c' Hi Hj) as [Hr (c0&H0&Hkc&Hph&Hin&_)]. split; [done|].
      unfold send_ok. rewrite routed_from_other by done. destruct (inv_conns _ Hi j c0 H0) as [_ Hs].
      apply (send_ok_same _ _ c0); [unfold pending; by rewrite Hph|by rewrite Hin|done].
  - apply Forall_alter'; [|done]. apply Forall_lookup_2. intros j cj Hj.
    destruct (forward_recv_ok i _ _ _ s j cj Hi Hj) as [_ (c0&H0&_&_&_&Hch)]. apply Hch; [done|].
    exact (Forall_lookup_1 _ _ _ _ (inv_chans _ Hi) H0).
  - apply (inv_keys _ Hi).
  - rewrite Hcl. apply (inv_table _ Hi).
  - intros j src' dst' d' [Hin|Hin]%elem_of_app; [by eapply (inv_log _ Hi)|]. apply list_elem_of_singleton in Hin. by injection Hin as -> -> -> ->.
Qed.
Lemma phase_inv i p s : match p with PForward _ _ => False | _ => True end →
  (∀ c, conns s !! i = Some c → pending c = []) → server_inv s → server_inv (on_conn i (set_phase p) s).
Proof. intros Hp Hc Hi. apply on_conn_inv; [done|done| |done]. intros c Hl Ho. apply idle_phase; [done|by apply Hc|done]. Qed.
Lemma lookup_on_conn i f s j c : conns (on_conn i f s) !! j = Some c → ∃ c0, conns s !! j = Some c0 ∧ (c = c0 ∨ c = f c0).
Proof.
  cbn [on_conn conns]. rewrite list_lookup_alter. case_decide; [|by exists c; auto]. destruct (conns s !! i) as [c0|] eqn:E; [|done].
  subst j. intros [= <-]. exists c0. auto.
Qed.
Lemma push_pending m c : pending (push m c) = pending c.
Proof. unfold push. by destruct (_ && _). Qed.
Lemma try_send_pending j m i s c :
  conns (try_send j m s) !! i = Some c → ∃ c0, conns s !! i = Some c0 ∧ pending c = pending c0 ∧ ckey c = ckey c0.
Proof.
  intros (c0&H0&[-> | ->])%lookup_on_conn; [by exists c0|]. exists c0. split; [done|]. split; [apply push_pending|apply push_key].
Qed.
Lemma broadcast_pending k m i s c :
  conns (broadcast k m s) !! i = Some c → ∃ c0, conns s !! i = Some c0 ∧ pending c = pending c0 ∧ ckey c = ckey c0.
Proof.
  unfold broadcast. revert c. induction (map_to_list (clients s)) as [|p l IH]; intros c; [by exists c|]. cbn [foldr].
  destruct (decide (p.1 = k)); [apply IH|]. intros (c1&H1&E1&E2)%try_send_pending. destruct (IH c1 H1) as (c0&H0&E3&E4).
  exists c0. split; [done|]. split; congruence.
Qed.
Lemma derp_register_inv i key s :
  server_inv s → keys s !! i = Some key → (∀ c, conns s !! i = Some c → pending c = []) → server_inv (register i key s).
Proof.
  intros Hi Hk Hp. apply phase_inv; [done|done|]. apply set_clients_inv; [done|]. intros k cl.
  destruct (decide (k = key)) as [->|Hne]; [rewrite lookup_insert_eq|rewrite lookup_insert_ne by done; apply (inv_table _ Hi)].
  by intros [= <-].
Qed.
Lemma delete_table_inv k s : server_inv s → server_inv (set_clients (delete k (clients s)) s).
Proof. intros Hi. apply set_clients_inv; [done|]. intros k' cl [_ Hl]%lookup_delete_Some. by apply (inv_table _ Hi). Qed.
Lemma with_lock_inv i c s s' : server_inv s → conns s !! i = Some c → with_lock i c s = Some s' → server_inv s'.
Proof.
  intros Hi Hc. assert (Hck : keys s !! i = Some (ckey c)) by (unfold keys; by rewrite list_lookup_fmap, Hc).
  assert (Hlen : length (ckey c) = KEY_LEN) by apply (Forall_lookup_1 _ _ _ _ (inv_keys _ Hi) Hck).
  assert (Hq : ∀ p, phase c = p → match p with PForward _ _ => False | _ => True end → ∀ c', conns s !! i = Some c' → pending c' = []).
  { intros p Hp Hn c' Hc'. rewrite Hc in Hc'. injection Hc' as <-. unfold pending. rewrite Hp. by destruct p. }
  unfold with_lock. destruct (phase c) as [|old| | |dst d|b| | |] eqn:Hp; intros Hs; try done; injection Hs as <-.
  - destruct (clients s !! ckey c); [|by apply derp_register_inv; [done|done|exact (Hq _ eq_refl I)]].
    apply phase_inv; [done|exact (Hq _ eq_refl I)|]. by apply delete_table_inv.
  - apply phase_inv; [done| |by apply broadcast_inv].
    intros c' (c0&H0&->&_)%broadcast_pending. by apply (Hq _ eq_refl I).
  - by apply route_inv.
  - apply phase_inv; [done|exact (Hq _ eq_refl I)|]. apply set_clients_inv; [done|]. intros k cl Hl.
    apply lookup_alter_Some in Hl as [(<-&cl0&H0&->)|[_ H0]]; by apply (inv_table _ Hi) in H0.
  - apply phase_inv; [done|exact (Hq _ eq_refl I)|]. by apply delete_table_inv.
  - apply phase_inv; [done| |by apply broadcast_inv].
    intros c' (c0&H0&->&_)%broadcast_pending. by apply (Hq _ eq_refl I).
Qed.
Lemma drop_reader_same k c c1 : drop_reader k c = Some c1 → ∃ l, c1 = set_net l c.
Proof. unfold drop_reader. repeat case_match; try done. intros [= <-]. by eexists. Qed.
Lemma replace_inv i c c' s :
  server_inv s → conns s !! i = Some c → conn_ok (forwarded s) i c' → Forall key_ok (chan c') → ckey c' = ckey c →
  server_inv (on_conn i (fun _ => c') s).
Proof.
  intros Hi Hc Ho Hch Hk.
  assert (E : on_conn i (fun _ => c') s = on_conn i (fun x => mkConn (ckey x) (chan c') (phase c') (inp c') (outp c') (net c')) s).
  { unfold on_conn. f_equal. apply list_eq. intros j. rewrite !list_lookup_alter. case_decide; [subst j|done]. rewrite Hc. cbn. rewrite <- Hk. by destruct c'. }
  rewrite E. apply on_conn_inv; [done|done| |done]. intros c0 H0 _. rewrite Hc in H0. injection H0 as <-.
  rewrite <- Hk. by destruct c'.
Qed.
Lemma conn_step_inv i e s s' : server_inv s → conn_step i e s = Some s' → server_inv s'.
Proof.
  intros Hi. unfold conn_step. destruct (conns s !! i) as [c|] eqn:Hc; [|done]. cbn [mbind option_bind].
  assert (Hck : keys s !! i = Some (ckey c)) by (unfold keys; by rewrite list_lookup_fmap, Hc).
  assert (Hlock : (if locked s then None else with_lock i c s) = Some s' → server_inv s').
  { destruct (locked s); [done|]. by apply with_lock_inv. }
  destruct (phase c) as [|old| | |dst d|b| | |] eqn:Hp, e as [|data|ok| |k ok|k ok]; intros Hs; try done; try (by apply Hlock);
    try (injection Hs as <-; by apply on_conn_inv).
  - assert (Hq : ∀ c', conns s !! i = Some c' → pending c' = []) by (intros c' Hc'; rewrite Hc in Hc'; injection Hc' as <-; unfold pending; by rewrite Hp).
    destruct (conns s !! old) as [o|]; [|injection Hs as <-; by apply derp_register_inv].
    destruct (rx_alive o && negb (has_room o)); [done|]. injection Hs as <-. apply derp_register_inv.
    + by apply try_send_inv.
    + unfold try_send. rewrite keys_on_conn; [done|apply push_key].
    + intros c' (c0&H0&->&_)%try_send_pending. by apply Hq.
  - destruct (read_frame (unread (net c))) as [[[ft payload] rest]|]; [|done]. injection Hs as <-. apply on_conn_inv; [done| | |].
    + intros c'. unfold handle_client_frame, written. destruct ft; repeat case_match; done.
    + intros c' Hc' Ho. rewrite Hc in Hc'. injection Hc' as <-. by apply handle_frame_ok.
    + intros c' _ Hf. unfold handle_client_frame, written. destruct ft; repeat case_match; done.
  - injection Hs as <-. apply phase_inv; [done| |done]. intros c' Hc'. rewrite Hc in Hc'. injection Hc' as <-. unfold pending. by rewrite Hp.
  - destruct (drop_reader k c) as [c1|] eqn:Er; [cbn [mbind option_bind] in Hs|done].
    destruct (drop_reader_same k c c1 Er) as (l&->). destruct (handle_msg ok (set_net l c)) as [c'|] eqn:Em; [|done]. injection Hs as <-.
    pose proof (Forall_lookup_1 _ _ _ _ (inv_chans _ Hi) Hc) as Hch.
    destruct (handle_msg_ok _ i ok (set_net l c) c' Hp Hch (inv_conns _ Hi i c Hc) Em) as (Ho&Hch'&Hk'). by eapply replace_inv.
  - destruct (drop_reader k c) as [c1|] eqn:Er; [cbn [mbind option_bind] in Hs|done].
    destruct (drop_reader_same k c c1 Er) as (l&->). injection Hs as <-. eapply replace_inv; [done|done| | |].
    + apply written_ok; [done|unfold pending; cbn [set_net phase]; by rewrite Hp|by apply (inv_conns _ Hi i c Hc)].
    + pose proof (Forall_lookup_1 _ _ _ _ (inv_chans _ Hi) Hc) as Hch. unfold written. by destruct ok.
    + unfold written. by destruct ok.
Qed.
Lemma accept_inv key rest s : length key = KEY_LEN → proved key → server_inv s → server_inv (accept key rest s).
Proof.
  intros Hk Hpr Hi. assert (Hks : keys (accept key rest s) = keys s ++ [key]) by (unfold keys, accept; cbn; by rewrite fmap_app).
  split; rewrite ?Hks; cbn [accept conns forwarded clients].
  - intros j c [Hj|[Hge Hj]]%lookup_app_Some; [by apply (inv_conns _ Hi)|].
    destruct (j - length (conns s))%nat eqn:E; [|done]. injection Hj as <-. split.
    + apply sublist_nil_l.
    + unfold send_ok. cbn [pending phase inp sends omap list_omap]. rewrite app_nil_r. unfold routed_from.
      assert (Hno : ∀ src dst d, (j, src, dst, d) ∉ forwarded s).
      { intros src dst d Hin. apply (inv_log _ Hi) in Hin. apply lookup_lt_Some in Hin. unfold keys in Hin. rewrite length_fmap in Hin. lia. }
      induction (forwarded s) as [|[[[a b] x] y] l IH]; [done|]. cbn [omap list_omap]. rewrite decide_False.
      * apply IH. intros src dst d Hin. apply (Hno src dst d). by right.
      * intros ->. apply (Hno b x y). by left.
  - apply Forall_app. split; [apply (inv_chans _ Hi)|]. by repeat constructor.
  - apply Forall_app. split; [apply (inv_keys _ Hi)|]. by repeat constructor.
  - intros k cl Hl. apply lookup_app_l_Some. by apply (inv_table _ Hi).
  - intros j src dst d Hl. apply lookup_app_l_Some. by eapply (inv_log _ Hi).
Qed.
End invariant.

(** *** The bytes of a client *)

Definition frame_bytes (gf : bytes * (FrameType * bytes)) : bytes := gf.1 ++ Derp.write_frame [] gf.2.1 gf.2.2.
(** The bytes that arrived are the frames read, what was lost before each of them,
    and what is not read yet. *)
Definition link_ok (c : Conn) : Prop :=
  length (gaps (net c)) = length (inp c)
  ∧ sent (net c) = concat (frame_bytes <$> zip (gaps (net c)) (inp c)) ++ gap (net c) ++ unread (net c).
Definition links_ok (s : Server) : Prop := Forall link_ok (conns s).
Lemma link_ok_same c c' : inp c' = inp c → net c' = net c → link_ok c → link_ok c'.
Proof. unfold link_ok. by intros -> ->. Qed.
Lemma links_on_conn i f s : links_ok s → (∀ c, conns s !! i = Some c → link_ok c → link_ok (f c)) → links_ok (on_conn i f s).
Proof. intros Hl Hf. by apply Forall_alter'. Qed.
Lemma push_link m c : link_ok c → link_ok (push m c).
Proof. unfold push. by destruct (_ && _). Qed.
Lemma links_try_send i m s : links_ok s → links_ok (try_send i m s).
Proof. intros Hl. apply links_on_conn; [done|]. intros c _. apply push_link. Qed.
Lemma links_broadcast k m s : links_ok s → links_ok (broadcast k m s).
Proof.
  intros Hl. unfold broadcast. induction (map_to_list (clients s)) as [|p l IH]; [done|]. cbn [foldr].
  destruct (decide (p.1 = k)); [done|]. by apply links_try_send.
Qed.
Lemma links_register i key s : links_ok s → links_ok (register i key s).
Proof. intros Hl. by apply links_on_conn. Qed.
Lemma links_forward src dst d s : links_ok s → links_ok (forward_packet src dst d s).
Proof. intros Hl. unfold forward_packet. repeat case_match; try done; by apply links_try_send. Qed.
Lemma arrive_link d c : link_ok c → link_ok (arrive d c).
Proof. intros [Hl Hs]. split; [done|]. cbn [arrive set_net net sent gap unread gaps inp]. by rewrite Hs, <- !app_assoc. Qed.
Lemma drop_reader_link k c c1 : link_ok c → drop_reader k c = Some c1 → link_ok c1.
Proof.
  intros [Hl Hs]. unfold drop_reader. repeat case_match; try done. intros [= <-]. split; [done|].
  cbn [set_net net sent gap unread gaps inp]. by rewrite <- app_assoc, take_drop.
Qed.
Lemma frame_link ft payload rest ok c :
  read_frame (unread (net c)) = Ok (ft, payload, rest) → link_ok c → link_ok (handle_client_frame ft payload ok (take_frame rest c)).
Proof.
  intros Hr [Hl Hs]. apply read_frame_sound in Hr as [Hr _].
  assert (Hk : link_ok (has_read ft payload (take_frame rest c))).
  { split; cbn [has_read take_frame set_net net sent gap unread gaps inp]; [by rewrite !length_app, Hl|].
    rewrite zip_with_app, fmap_app, concat_app by done. cbn [zip_with fmap list_fmap concat app].
    rewrite Hs, Hr. unfold frame_bytes. cbn [fst snd]. by rewrite ?app_nil_r, <- ?app_assoc. }
  unfold handle_client_frame, written. destruct ft; repeat case_match; exact Hk.
Qed.
Lemma msg_link ok c c' : link_ok c → handle_msg ok c = Some c' → link_ok c'.
Proof. intros Hl. unfold handle_msg, written. destruct (chan c) as [|[] ms]; [done|..]; intros [= <-]; by repeat case_match. Qed.
Lemma conn_step_links i e s s' : links_ok s → conn_step i e s = Some s' → links_ok s'.
Proof.
  intros Hl. unfold conn_step. destruct (conns s !! i) as [c|] eqn:Hc; [|done]. cbn [mbind option_bind].
  assert (Hlc : link_ok c) by exact (Forall_lookup_1 _ _ _ _ Hl Hc).
  assert (Hset : ∀ f p, links_ok f → links_ok (on_conn i (set_phase p) f)) by (intros f p Hf; by apply links_on_conn).
  assert (Hlock : (if locked s then None else with_lock i c s) = Some s' → links_ok s').
  { destruct (locked s); [done|]. unfold with_lock. destruct (phase c); intros Hw; try done; injection Hw as <-; try (by apply Hset).
    - by destruct (clients s !! ckey c); [apply Hset|apply links_register].
    - by apply Hset, links_broadcast.
    - apply Hset. apply (links_forward (ckey c) dst data). done.
    - by apply Hset, links_broadcast. }
  destruct (phase c) as [|old| | |dst d|b| | |] eqn:Hp, e as [|data|ok| |k ok|k ok]; intros Hs; try done; try (by apply Hlock);
    try (injection Hs as <-; by apply links_on_conn; [|intros; apply arrive_link]).
  - destruct (conns s !! old) as [o|]; [|injection Hs as <-; by apply links_register].
    destruct (rx_alive o && negb (has_room o)); [done|]. injection Hs as <-. by apply links_register, links_try_send.
  - destruct (read_frame (unread (net c))) as [[[ft payload] rest]|] eqn:Er; [|done]. injection Hs as <-.
    apply links_on_conn; [done|]. intros c0 H0. rewrite Hc in H0. injection H0 as <-. by apply frame_link.
  - injection Hs as <-. by apply Hset.
  - destruct (drop_reader k c) as [c1|] eqn:Er; [cbn [mbind option_bind] in Hs|done].
    destruct (handle_msg ok c1) as [c'|] eqn:Em; [|done]. injection Hs as <-. apply links_on_conn; [done|]. intros _ _ _.
    eapply msg_link; [|exact Em]. by eapply drop_reader_link.
  - destruct (drop_reader k c) as [c1|] eqn:Er; [cbn [mbind option_bind] in Hs|done]. injection Hs as <-.
    apply links_on_conn; [done|]. intros _ _ _. pose proof (drop_reader_link k c c1 Hlc Er). unfold written. by destruct ok.
Qed.

(** *** Reachable states *)
Section reachable.
Context `{NaclBox} (json secret_key : bytes).
(** A client of the key sent a message that the server could open with it. *)
Definition proved_key (key : bytes) : Prop :=
  ∃ input payload rest n ct m, read_frame input = Ok (ClientInfo, payload, rest)
    ∧ parse_client_info payload = Ok (key, n, ct) ∧ open_box secret_key key n ct = Some m.
Lemma handshake_proves si_nonce input out key rest :
  handshake json secret_key si_nonce true true input = (out, Accepted key rest) → length key = KEY_LEN ∧ proved_key key.
Proof.
  unfold handshake. cbn [negb]. destruct (read_frame input) as [[[ft payload] r]|] eqn:Er; [|done].
  destruct ft; try done. destruct (parse_client_info payload) as [[[k n] ct]|] eqn:Ep; [|done].
  destruct (open_box secret_key k n ct) as [m|] eqn:Eo; [|done]. intros [= <- <- <-].
  split; [|by exists input, payload, r, n, ct, m]. unfold parse_client_info in Ep.
  destruct (Nat.ltb_spec (length payload) (KEY_LEN + NONCE_LEN)); [done|]. injection Ep as <- _ _. rewrite length_take. lia.
Qed.
Lemma reachable_inv s : rtc (dstep json secret_key) server_new s → server_inv proved_key s ∧ links_ok s.
Proof.
  intros Hr. apply rtc_ind_r with (P := fun s => server_inv proved_key s ∧ links_ok s) in Hr; [done|..].
  - split; [|constructor]. split; cbn; try done. intros i src dst d Hin. by apply not_elem_of_nil in Hin.
  - intros s1 s2 _ [nonce input out key rest s0 [Hk Hp]%handshake_proves|i e s0 s0' Hs] [Hi Hl].
    + split; [by apply accept_inv|]. apply Forall_app. split; [done|]. by repeat constructor.
    + split; [by eapply conn_step_inv|by eapply conn_step_links].
Qed.


(** *** Schedules *)
Inductive action := AAccept (input : bytes) | AStep (i : nat) (e : event).
Definition act (a : action) (s : Server) : option Server :=
  match a with
  | AAccept input =>
      match (handshake json secret_key (replicate 24 Byte.x00) true true input).2 with
      | Accepted key rest => Some (accept key rest s)
      | Refused _ => None
      end
  | AStep i e => conn_step i e s
  end.
Fixpoint play (l : list action) (s : Server) : option Server :=
  match l with [] => Some s | a :: l => s' ← act a s; play l s' end.
Lemma play_reaches l s s' : play l s = Some s' → rtc (dstep json secret_key) s s'.
Proof.
  revert s. induction l as [|a l IH]; intros s Hp; cbn [play] in Hp; [by injection Hp as <-|].
  destruct (act a s) as [s1|] eqn:E; [cbn in Hp|done]. eapply rtc_l; [|by apply IH]. destruct a as [input|i e]; cbn [act] in E.
  - destruct (handshake _ _ _ _ _ input) as [out [|key rest]] eqn:Eh; [done|]. injection E as <-. by eapply dstep_accept.
  - by eapply dstep_conn.
Qed.
End reachable.

Definition key_a : bytes := replicate 32 Byte.x0a.
Definition key_b : bytes := replicate 32 Byte.x0b.
Definition hello (key : bytes) : bytes :=
  Derp.write_frame [] ClientInfo (build_client_info key (replicate 24 Byte.x01) [Byte.x02]).
Definition enter (i : nat) (key : bytes) : list action := [AAccept (hello key); AStep i EGo; AStep i EGo].
Definition packet_frame (dst data : bytes) : bytes := Derp.write_frame [] SendPacket (build_send_packet dst data).
Definition packet (i : nat) (dst data : bytes) : list action :=
  [AStep i (EArrive (packet_frame dst data)); AStep i (EFrame true); AStep i EGo].
Definition demo_play (l : list action) : Server := default server_new (@play plain_box [] [Byte.x07] l server_new).

Definition hello_b : list action := enter 0 key_a ++ enter 1 key_b ++ packet 0 key_b [Byte.x01; Byte.x02] ++ [AStep 1 (EMsg 0 true)].
Definition after_hello : Server := demo_play hello_b.
(** A packet of which a part has arrived when the timer fires is lost, and the
    bytes that follow are taken for a frame of an unknown type. *)
Example half_read_frame_lost :
  let f := packet_frame key_b [Byte.x01] in
  let s := demo_play (enter 0 key_a ++ [AStep 0 (EArrive (take 7 f)); AStep 0 (ETick 7 true); AStep 0 (EArrive (drop 7 f))]) in
  (read_frame ∘ unread ∘ net <$> conns s !! 0%nat) = Some (Err (UnknownFrameType 11)).
Proof. vm_compute. reflexivity. Qed.

(** A client that comes again: the connection it replaces takes the new one out of
    the table when it ends, and the client can no longer be reached. *)
Example reconnected_client_unreachable :
  let s := demo_play (enter 0 key_a ++
    [AAccept (hello key_a); AStep 1 EGo; AStep 1 EGo; AStep 1 EGo; AStep 0 (EMsg 0 true); AStep 0 EGo; AStep 0 EGo]) in
  clients s !! key_a = None ∧ phase <$> conns s !! 1%nat = Some PLoop.
Proof. vm_compute. split; reflexivity. Qed.

(** A client that comes again while its old connection waits for the table with a
    full channel: the server stops. *)
Definition stuck (s : Server) : Prop :=
  (∃ o, conns s !! 0%nat = Some o ∧ (∃ dst d, phase o = PForward dst d) ∧ has_room o = false)
  ∧ (∃ c, conns s !! 2%nat = Some c ∧ phase c = PEvict 0)
  ∧ (∀ i c old, conns s !! i = Some c → phase c = PEvict old → old = 0%nat).
Lemma stuck_locked s : stuck s → locked s = true.
Proof.
  intros (_&(c&Hc&Hp)&_). unfold locked. apply existsb_exists. exists c. split; [|by unfold is_evict; rewrite Hp].
  apply list_elem_of_In. by eapply list_elem_of_lookup_2.
Qed.
Lemma stuck_alter i f s c :
  stuck s → conns s !! i = Some c → phase c = PLoop → (∀ old, phase (f c) ≠ PEvict old) → stuck (on_conn i f s).
Proof.
  intros ((o&Ho&(dst&d&Hd)&Hr)&(e&He&Hpe)&Hall) Hc Hp Hf.
  assert (i ≠ 0%nat) by (intros ->; congruence). assert (i ≠ 2%nat) by (intros ->; congruence).
  assert (Hlk : ∀ j, j ≠ i → conns (on_conn i f s) !! j = conns s !! j).
  { intros j Hj. cbn [on_conn conns]. by apply list_lookup_alter_ne. }
  split; [exists o; rewrite Hlk by done; eauto|]. split; [exists e; by rewrite Hlk by done|].
  intros j cj old Hj Hpj. destruct (decide (j = i)) as [->|Hne]; [|rewrite Hlk in Hj by done; by eapply Hall].
  cbn [on_conn conns] in Hj. rewrite list_lookup_alter_eq, Hc in Hj. injection Hj as <-. by apply Hf in Hpj.
Qed.
Lemma stuck_same i f s : (∀ c, phase (f c) = phase c ∧ chan (f c) = chan c) → stuck s → stuck (on_conn i f s).
Proof.
  intros Hf ((o&Ho&(dst&d&Hd)&Hr)&(e&He&Hpe)&Hall).
  assert (Hlk : ∀ j c, conns s !! j = Some c → ∃ c', conns (on_conn i f s) !! j = Some c' ∧ phase c' = phase c ∧ chan c' = chan c).
  { intros j c Hj. cbn [on_conn conns]. rewrite list_lookup_alter. case_decide; [subst j; rewrite Hj|by exists c]. exists (f c). by split; [|apply Hf]. }
  split_and!.
  - destruct (Hlk _ _ Ho) as (o'&Ho'&Hp'&Hc'). exists o'. split; [done|]. rewrite Hp'. split; [eauto|]. unfold has_room in *. by rewrite Hc'.
  - destruct (Hlk _ _ He) as (e'&He'&Hp'&_). exists e'. by rewrite Hp'.
  - intros j c old (c0&H0&[-> | ->])%lookup_on_conn Hp; [by eapply Hall|]. rewrite (proj1 (Hf c0)) in Hp. by eapply Hall.
Qed.
Lemma frame_no_evict ft payload ok c old : phase c = PLoop → phase (handle_client_frame ft payload ok c) ≠ PEvict old.
Proof. intros Hp. unfold handle_client_frame, written. destruct ft; repeat case_match; cbn; congruence. Qed.
Lemma msg_no_evict ok c c' old : phase c = PLoop → handle_msg ok c = Some c' → phase c' ≠ PEvict old.
Proof. intros Hp. unfold handle_msg, written. destruct (chan c) as [|[] ms]; [done|..]; intros [= <-]; repeat case_match; cbn; congruence. Qed.
Lemma conn_step_stuck i e s s' :
  stuck s → conn_step i e s = Some s' → stuck s' ∧ clients s' = clients s ∧ forwarded s' = forwarded s.
Proof.
  intros Hst. pose proof (stuck_locked s Hst) as Hl. unfold conn_step. destruct (conns s !! i) as [c|] eqn:Hc; [|done]. cbn [mbind option_bind].
  rewrite Hl. destruct (phase c) as [|old| | |dst d|b| | |] eqn:Hp, e as [|data|ok| |k ok|k ok]; intros Hs; try done;
    try (injection Hs as <-; split; [by apply stuck_same|done]).
  - exfalso. pose proof (proj2 (proj2 Hst) i c old Hc Hp) as ->. destruct (proj1 Hst) as (o&Ho&(dst&d&Hd)&Hr).
    rewrite Ho in Hs. unfold rx_alive in Hs. by rewrite Hd, Hr in Hs.
  - destruct (read_frame (unread (net c))) as [[[ft payload] rest]|]; [|done].
    injection Hs as <-. split; [|done]. eapply stuck_alter; [done|done|done|]. intros old. by apply frame_no_evict.
  - injection Hs as <-. split; [|done]. by eapply stuck_alter.
  - destruct (drop_reader k c) as [c1|] eqn:Er; [cbn [mbind option_bind] in Hs|done].
    destruct (drop_reader_same k c c1 Er) as (l&->). destruct (handle_msg ok (set_net l c)) as [c'|] eqn:Em; [|done].
    injection Hs as <-. split; [|done]. eapply stuck_alter; [done|done|done|]. intros old. exact (msg_no_evict ok (set_net l c) c' old Hp Em).
  - destruct (drop_reader k c) as [c1|] eqn:Er; [cbn [mbind option_bind] in Hs|done].
    destruct (drop_reader_same k c c1 Er) as (l&->).
    injection Hs as <-. split; [|done]. eapply stuck_alter; [done|done|done|]. intros old. unfold written. destruct ok; cbn; congruence.
Qed.
Lemma accept_stuck key rest s : stuck s → stuck (accept key rest s).
Proof.
  intros ((o&Ho&Hd)&(c&Hc&Hp)&Hall). split; [exists o; split; [by apply lookup_app_l_Some|done]|].
  split; [exists c; split; [by apply lookup_app_l_Some|done]|].
  intros j cj old [Hj|[_ Hj]]%lookup_app_Some Hpj; [by eapply Hall|]. destruct (j - length (conns s))%nat; [|done]. by injection Hj as <-.
Qed.
Definition flood : list action :=
  enter 0 key_a ++ enter 1 key_b ++ concat (replicate 256 (packet 1 key_a [Byte.x01]))
  ++ [AStep 0 (EArrive (packet_frame key_b [])); AStep 0 (EFrame true); AAccept (hello key_a); AStep 2 EGo].
Definition flooded : Server := demo_play flood.
(** The server can reach a state from which no client registers or leaves and no
    packet is routed any more. *)
Theorem derp_server_hangs :
  rtc (@dstep plain_box [] [Byte.x07]) server_new flooded
  ∧ ∀ s', rtc (@dstep plain_box [] [Byte.x07]) flooded s' → clients s' = clients flooded ∧ forwarded s' = forwarded flooded ∧ locked s' = true.
Proof.
  assert (Hst : stuck flooded).
  { split; [|split].
    - eexists. split; [vm_compute; reflexivity|]. split; [by do 2 eexists|vm_compute; reflexivity].
    - eexists. split; [vm_compute; reflexivity|done].
    - intros i c old Hc Hp. assert (Hin : (i < 3)%nat) by (apply lookup_lt_Some in Hc; revert Hc; vm_compute; lia).
      destruct i as [|[|[|]]]; [..|lia]; vm_compute in Hc; injection Hc as <-; cbn in Hp; congruence. }
  split; [by apply (@play_reaches plain_box [] [Byte.x07] flood); vm_compute|].
  intros s' Hr. apply rtc_ind_r with (P := fun s => stuck s ∧ clients s = clients flooded ∧ forwarded s = forwarded flooded) in Hr.
  - destruct Hr as (Hs&->&->). split_and!; [done|done|by apply stuck_locked].
  - done.
  - intros s1 s2 _ [nonce input out key rest s0 Hk|i e s0 s0' Hs] (Hs1&<-&<-); [split; [by apply accept_stuck|done]|]. by apply conn_step_stuck in Hs.
Qed.

(** *** The handshake *)
Section handshake_theorem.
Context `{NaclBox} (json : bytes).
(** A client that holds the secret of its key is accepted under it, with the bytes
    that follow left for the loop, and can open what the server tells it; and
    whoever is accepted under a key has sealed a message with it. *)
Theorem derp_handshake sk ck nonce si_nonce info rest input out key rest' :
  length nonce = NONCE_LEN → length si_nonce = NONCE_LEN → (Z.of_nat (length (seal ck (public_key sk) nonce info)) <= 2 ^ 20 - 56)%Z →
  (∃ sealed, handshake json sk si_nonce true true
       (Derp.write_frame [] ClientInfo (build_client_info (public_key ck) nonce (seal ck (public_key sk) nonce info)) ++ rest)
     = (Derp.write_frame (Derp.write_frame [] ServerKey (build_server_key (public_key sk))) ServerInfo (build_server_info si_nonce sealed),
        Accepted (public_key ck) rest)
     ∧ open_box ck (public_key sk) si_nonce sealed = Some json)
  ∧ (handshake json sk si_nonce true true input = (out, Accepted key rest') →
     ∃ payload n ct m, read_frame input = Ok (ClientInfo, payload, rest') ∧ parse_client_info payload = Ok (key, n, ct)
       ∧ open_box sk key n ct = Some m).
Proof.
  intros Hn Hsn Hl. split.
  - eexists. split; [|apply open_seal]. unfold handshake. cbn [negb].
    set (ct := seal ck (public_key sk) nonce info) in *. set (p := build_client_info _ _ _).
    assert (Hp : len p <= MAX_FRAME_SIZE).
    { unfold p, build_client_info, len. rewrite !length_app, public_key_length, Hn. change MAX_FRAME_SIZE with (2 ^ 20). change KEY_LEN with 32%nat. change NONCE_LEN with 24%nat. lia. }
    rewrite read_written_frame by done. unfold parse_client_info, p, build_client_info.
    rewrite !length_app, public_key_length, Hn, (proj2 (Nat.ltb_ge _ _)) by lia.
    pose proof (public_key_length ck) as Hk. rewrite (take_app_length' (public_key ck)) by done.
    unfold slice. rewrite (drop_app_length' (public_key ck)) by done.
    rewrite (take_app_length' nonce) by (rewrite Hn; lia). rewrite app_assoc, (drop_app_length' (public_key ck ++ nonce)) by (rewrite length_app; lia).
    subst ct. by rewrite open_seal.
  - unfold handshake. cbn [negb]. destruct (read_frame input) as [[[ft payload] r]|]; [|done].
    destruct ft; try done. destruct (parse_client_info payload) as [[[k n] ct]|] eqn:Ep; [|done].
    destruct (open_box sk k n ct) as [m|] eqn:Eo; [|done]. intros [= <- <- <-]. by exists payload, n, ct, m.
Qed.
End handshake_theorem.
Example plain_handshake :
  snd (@handshake plain_box [] [Byte.x07] (replicate 24 Byte.x00) true true
    (Derp.write_frame [] ClientInfo (build_client_info key_a (replicate 24 Byte.x01) [Byte.x02]) ++ [Byte.x03]))
  = Accepted key_a [Byte.x03].
Proof. vm_compute. reflexivity. Qed.
