(* ===== verification/IpText.v ===== *)
(** * Textual IP addresses of the Rust standard library

    [str::parse] of [Ipv4Addr], [Ipv6Addr] and [IpAddr], as [core::net::parser]
    defines them, and the display forms of addresses and socket addresses.  The
    DNS components read addresses from configuration and hosts files with these;
    the proxy groups hash the displayed target. *)

From Stdlib Require Import Ascii.
From S2P Require Import Prelude RustStr Addr.

Local Open Scope string_scope.
Local Open Scope list_scope.
Local Open Scope Z_scope.

(** ** IPv4: four decimal octets, no leading zero *)

Definition parse_octet (s : string) : option Z :=
  match s with
  | "" => None
  | String a t =>
      if (3 <? str_len s) || ((str_len t >? 0) && Ascii.eqb a "0") then None
      else v ← parse_digits 0 s; if v <? 256 then Some v else None
  end.

Definition parse_ipv4 (s : string) : option Z :=
  match split_on "." s with
  | [a; b; c; d] =>
      a ← parse_octet a; b ← parse_octet b; c ← parse_octet c; d ← parse_octet d;
      Some (((a * 256 + b) * 256 + c) * 256 + d)
  | _ => None
  end.

(** ** IPv6: up to eight groups, one [::], an IPv4 tail *)

Definition hex_value (a : Ascii.ascii) : option Z :=
  let n := ascii_code a in
  if (48 <=? n) && (n <=? 57) then Some (n - 48)
  else if (65 <=? n) && (n <=? 70) then Some (n - 55)
  else if (97 <=? n) && (n <=? 102) then Some (n - 87)
  else None.
Fixpoint parse_hex (acc : Z) (s : string) : option Z :=
  match s with
  | "" => Some acc
  | String a t => d ← hex_value a; parse_hex (acc * 16 + d) t
  end.
Definition parse_group (s : string) : option Z :=
  if (str_len s =? 0) || (4 <? str_len s) then None else parse_hex 0 s.

(** The groups of one side of the [::]; a last piece with dots is an IPv4
    address and counts for two groups. *)
Fixpoint parse_groups (l : list string) : option (list Z) :=
  match l with
  | [] => Some []
  | [s] =>
      match parse_group s with
      | Some g => Some [g]
      | None => v ← parse_ipv4 s; Some [v / 65536; v mod 65536]
      end
  | s :: l => g ← parse_group s; gs ← parse_groups l; Some (g :: gs)
  end.
Definition parse_side (s : string) : option (list Z) :=
  match s with "" => Some [] | _ => parse_groups (split_on ":" s) end.

Fixpoint split_double_colon (s : string) : option (string * string) :=
  match s with
  | "" => None
  | String a t =>
      match strip_prefix "::" s with
      | Some rest => Some ("", rest)
      | None => match split_double_colon t with
                | Some (h, r) => Some (String a h, r)
                | None => None
                end
      end
  end.

Definition groups_value (gs : list Z) : Z := fold_left (fun acc g => acc * 65536 + g) gs 0.
Definition has_dot (s : string) : bool := contains "." s.

Definition parse_ipv6 (s : string) : option Z :=
  match split_double_colon s with
  | None =>
      gs ← match s with "" => None | _ => parse_side s end;
      if decide (length gs = 8%nat) then Some (groups_value gs) else None
  | Some (head, tail) =>
      if has_dot head then None else
      hs ← parse_side head; ts ← parse_side tail;
      if (length hs + length ts <? 8)%nat
      then Some (groups_value (hs ++ replicate (8 - length hs - length ts) 0 ++ ts))
      else None
  end.

Definition parse_ip (s : string) : option IpAddr :=
  match parse_ipv4 s with
  | Some a => Some (V4 a)
  | None => V6 <$> parse_ipv6 s
  end.

(** ** Display of an IPv4 address *)

Definition digit_char (d : Z) : Ascii.ascii := Ascii.ascii_of_N (Z.to_N (48 + d)).
Definition octet_to_string (v : Z) : string :=
  if v <? 10 then String (digit_char v) ""
  else if v <? 100 then String (digit_char (v / 10)) (String (digit_char (v mod 10)) "")
  else String (digit_char (v / 100))
         (String (digit_char (v / 10 mod 10)) (String (digit_char (v mod 10)) "")).
Definition ipv4_to_string (a : Z) : string :=
  join_on "." [octet_to_string (a / 16777216 mod 256); octet_to_string (a / 65536 mod 256);
               octet_to_string (a / 256 mod 256); octet_to_string (a mod 256)].

Lemma parse_octet_display v : u8_ok v → parse_octet (octet_to_string v) = Some v.
Proof.
  intros [H0 H1]. change (2 ^ 8) with 256 in H1.
  enough (Hb : forallb (fun n => bool_decide (parse_octet (octet_to_string (Z.of_nat n))
                                              = Some (Z.of_nat n))) (seq 0 256) = true).
  { rewrite forallb_forall in Hb. specialize (Hb (Z.to_nat v)).
    rewrite bool_decide_eq_true, Z2Nat.id in Hb by done. apply Hb. apply in_seq. lia. }
  by vm_compute.
Qed.

Lemma octet_no_dot v : u8_ok v → split_on "." (octet_to_string v) = [octet_to_string v].
Proof.
  intros [H0 H1]. change (2 ^ 8) with 256 in H1.
  enough (Hb : forallb (fun n => bool_decide (split_on "." (octet_to_string (Z.of_nat n))
                                              = [octet_to_string (Z.of_nat n)])) (seq 0 256) = true).
  { rewrite forallb_forall in Hb. specialize (Hb (Z.to_nat v)).
    rewrite bool_decide_eq_true, Z2Nat.id in Hb by done. apply Hb. apply in_seq. lia. }
  by vm_compute.
Qed.

Lemma octet_mod_ok a : u8_ok (a mod 256).
Proof. apply Z.mod_pos_bound. lia. Qed.

(** Printing and reading an IPv4 address is the identity. *)
Lemma parse_ipv4_display a : u32_ok a → parse_ipv4 (ipv4_to_string a) = Some a.
Proof.
  intros [H0 H1]. change (2 ^ 32) with 4294967296 in H1. unfold parse_ipv4, ipv4_to_string.
  rewrite !join_on_cons by done. cbn [join_on].
  rewrite !split_on_app, !octet_no_dot by apply octet_mod_ok. cbn [app].
  rewrite !parse_octet_display by apply octet_mod_ok. simpl. f_equal.
  Z.div_mod_to_equations. lia.
Qed.

(** ** Display of an IPv6 address and of socket addresses *)

(** Decimal digits of an unsigned integer below 10^20. *)
Fixpoint dec_digits (fuel : nat) (z : Z) (acc : string) : string :=
  match fuel with
  | O => acc
  | S fuel =>
      let acc := String (digit_char (z mod 10)) acc in
      if z <? 10 then acc else dec_digits fuel (z / 10) acc
  end.
Definition uint_to_string (z : Z) : string := dec_digits 20 z "".

(** [{:x}] of a 16-bit segment. *)
Definition hex_char (d : Z) : Ascii.ascii :=
  if d <? 10 then digit_char d else Ascii.ascii_of_N (Z.to_N (87 + d)).
Fixpoint hex_digits (fuel : nat) (z : Z) (acc : string) : string :=
  match fuel with
  | O => acc
  | S fuel =>
      let acc := String (hex_char (z mod 16)) acc in
      if z <? 16 then acc else hex_digits fuel (z / 16) acc
  end.

Definition segments (a : Z) : list Z :=
  (fun i => a / 2 ^ (16 * Z.of_nat i) mod 65536) <$> [7; 6; 5; 4; 3; 2; 1; 0]%nat.

(** The first longest run of zero segments: start and length. *)
Fixpoint zero_run (l : list Z) (i : nat) (longest current : nat * nat) : nat * nat :=
  match l with
  | [] => longest
  | g :: l =>
      if g =? 0 then
        let current := (if decide (current.2 = 0%nat) then i else current.1, S current.2) in
        zero_run l (S i) (if (longest.2 <? current.2)%nat then current else longest) current
      else zero_run l (S i) longest (0, 0)%nat
  end.

Definition groups_to_string (l : list Z) : string :=
  join_on ":" ((fun g => hex_digits 4 g "") <$> l).

Definition ipv6_to_string (a : Z) : string :=
  if a / 2 ^ 32 =? 0xffff then "::ffff:" +:+ ipv4_to_string (a mod 2 ^ 32) else
  let gs := segments a in
  let '(start, n) := zero_run gs 0 (0, 0)%nat (0, 0)%nat in
  if (1 <? n)%nat then
    groups_to_string (take start gs) +:+ "::" +:+ groups_to_string (drop (start + n) gs)
  else groups_to_string gs.

Definition ip_to_string (ip : IpAddr) : string :=
  match ip with V4 a => ipv4_to_string a | V6 a => ipv6_to_string a end.

Definition sock_to_string (s : SocketAddr) : string :=
  match s with
  | SockV4 ip port => ipv4_to_string ip +:+ ":" +:+ uint_to_string port
  | SockV6 ip port _ scope =>
      "[" +:+ ipv6_to_string ip +:+ (if scope =? 0 then "" else "%" +:+ uint_to_string scope)
      +:+ "]:" +:+ uint_to_string port
  end.

(** [impl Display for Address] *)
Definition address_to_string (a : Address) : string :=
  match a with
  | Ip addr => sock_to_string addr
  | Domain domain port => domain +:+ ":" +:+ uint_to_string port
  end.

Example display_samples :
  address_to_string (Domain "example.com" 443) = "example.com:443"
  ∧ address_to_string (Ip (SockV4 0x7f000001 80)) = "127.0.0.1:80"
  ∧ address_to_string (Ip (SockV6 1 65535 0 0)) = "[::1]:65535"
  ∧ ip_to_string (V6 0) = "::" ∧ ip_to_string (V6 0xffff01020304) = "::ffff:1.2.3.4"
  ∧ ip_to_string (V6 0x20010db8000000000001000000000001) = "2001:db8::1:0:0:1"
  ∧ ip_to_string (V6 0x00010000000300040005000600070008) = "1:0:3:4:5:6:7:8"
  ∧ address_to_string (Ip (SockV6 (0xfe80 * 2 ^ 112) 1 0 2)) = "[fe80::%2]:1".
Proof. repeat split; vm_compute; reflexivity. Qed.

Example parse_ipv6_samples :
  parse_ipv6 "::1" = Some 1 ∧ parse_ipv6 "fe80::" = Some (0xfe80 * 2 ^ 112)
  ∧ parse_ipv6 "::ffff:1.2.3.4" = Some 0xffff01020304 ∧ parse_ipv6 "1:2" = None
  ∧ parse_ipv6 "1::2::3" = None ∧ parse_ipv6 ":::" = None ∧ parse_ipv6 "" = None
  ∧ parse_ipv6 "1:2:3:4:5:6:7:8" = Some 0x00010002000300040005000600070008
  ∧ parse_ipv6 "1:2:3:4:5:6:7::" = Some 0x00010002000300040005000600070000
  ∧ parse_ipv6 "1:2:3:4:5:6:7:8::" = None ∧ parse_ip "127.0.0.1" = Some (V4 0x7f000001)
  ∧ parse_ip "127.0.0.01" = None.
Proof. repeat split; vm_compute; reflexivity. Qed.
