(* ===== verification/F64.v ===== *)
(** * IEEE binary64 arithmetic the kernel uses

    Conversions between [u64] and [f64] and the operations on them, on the
    executable specification floats of the Standard Library. *)

From Stdlib Require Import SpecFloat.
From S2P Require Import Prelude.

Abbreviation f64 := spec_float.

(** [z as f64] for an unsigned integer, rounded to nearest even. *)
Definition f64_of_u64 (z : Z) : f64 := binary_normalize 53 1024 z 0 false.

(** [x as u64]: truncated, saturating, NaN to zero. *)
Definition f64_as_u64 (x : f64) : Z :=
  match x with
  | S754_finite false m e =>
      Z.min (if 0 <=? e then Z.pos m * 2 ^ e else Z.pos m / 2 ^ (- e)) u64_max
  | S754_infinity false => u64_max
  | _ => 0
  end.

Definition f64_mul (x y : f64) : f64 := SFmul 53 1024 x y.
Definition f64_div (x y : f64) : f64 := SFdiv 53 1024 x y.
Definition f64_add (x y : f64) : f64 := SFadd 53 1024 x y.
Definition f64_lt (x y : f64) : bool := SFltb x y.
Definition f64_le (x y : f64) : bool := SFleb x y.

(** [x % y]: the exact remainder, with the sign of [x]. *)
Definition f64_rem (x y : f64) : f64 :=
  match x, y with
  | S754_nan, _ | _, S754_nan | S754_infinity _, _ | _, S754_zero _ => S754_nan
  | S754_zero _, _ | S754_finite _ _ _, S754_infinity _ => x
  | S754_finite sx mx ex, S754_finite _ my ey =>
      let e := Z.min ex ey in
      let r := (Z.pos mx * 2 ^ (ex - e)) mod (Z.pos my * 2 ^ (ey - e)) in
      binary_normalize 53 1024 (cond_Zopp sx r) e sx
  end.

(** [x as i64] for a float that is not negative below zero. *)
Definition i64_max : Z := 2 ^ 63 - 1.
Definition f64_as_i64 (x : f64) : Z :=
  match x with
  | S754_finite false m e => Z.min (if 0 <=? e then Z.pos m * 2 ^ e else Z.pos m / 2 ^ (- e)) i64_max
  | S754_finite true m e =>
      Z.max (- (if 0 <=? e then Z.pos m * 2 ^ e else Z.pos m / 2 ^ (- e))) (- 2 ^ 63)
  | S754_infinity false => i64_max
  | S754_infinity true => - 2 ^ 63
  | _ => 0
  end.

(** ** Lower bounds survive rounding

    [k * 2^t <= m * 2^e], without fractions. *)

Definition ge2 (k t m e : Z) : Prop := k * 2 ^ (t - Z.min t e) <= m * 2 ^ (e - Z.min t e).

Lemma shr_m_shr_1 r : 0 <= shr_m r → shr_m (shr_1 r) = shr_m r / 2.
Proof.
  destruct r as [m a b]. cbn [shr_m]. intros Hm. destruct m as [|[p|p|]|]; try done; cbn [shr_1 shr_m].
  - rewrite Pos2Z.inj_xI. Z.div_mod_to_equations. lia.
  - rewrite Pos2Z.inj_xO. Z.div_mod_to_equations. lia.
Qed.

Lemma shr_m_iter p r : 0 <= shr_m r → shr_m (SpecFloat.iter_pos shr_1 p r) = shr_m r / 2 ^ Z.pos p.
Proof.
  revert r. induction p as [p IH|p IH|]; intros r Hr; cbn [SpecFloat.iter_pos].
  - assert (0 <= shr_m (shr_1 r)) by (rewrite shr_m_shr_1 by done; apply Z.div_pos; lia).
    rewrite (IH (SpecFloat.iter_pos _ _ _)) by (rewrite IH by done; apply Z.div_pos; lia).
    rewrite IH, shr_m_shr_1 by done. rewrite !Z.div_div by lia. f_equal.
    rewrite Pos2Z.inj_xI. replace (2 * Z.pos p + 1) with (1 + (Z.pos p + Z.pos p)) by lia.
    rewrite !Z.pow_add_r by lia. lia.
  - rewrite (IH (SpecFloat.iter_pos _ _ _)) by (rewrite IH by done; apply Z.div_pos; lia).
    rewrite IH by done. rewrite !Z.div_div by lia. f_equal.
    replace (Z.pos p~0) with (Z.pos p + Z.pos p) by lia.
    rewrite !Z.pow_add_r by lia. lia.
  - by rewrite shr_m_shr_1.
Qed.

Lemma digits2_bounds p : 2 ^ (Z.pos (digits2_pos p) - 1) <= Z.pos p < 2 ^ Z.pos (digits2_pos p).
Proof.
  assert (Hs : ∀ d, 2 ^ Z.pos (Pos.succ d) = 2 * 2 ^ Z.pos d ∧
                    2 ^ (Z.pos (Pos.succ d) - 1) = 2 * 2 ^ (Z.pos d - 1)).
  { intros d. rewrite Pos2Z.inj_succ. split; [by rewrite Z.pow_succ_r by lia|].
    rewrite <- Z.pow_succ_r by lia. f_equal. lia. }
  induction p as [p IH|p IH|]; cbn [digits2_pos]; [| |done];
    destruct (Hs (digits2_pos p)) as [-> ->]; lia.
Qed.

Lemma shr_m_of_loc m l : shr_m (shr_record_of_loc m l) = m.
Proof. by destruct l as [|[]]. Qed.

Lemma ge2_shift k t m e d :
  0 <= k → 0 <= d → e + d <= t → ge2 k t m e → ge2 k t (m / 2 ^ d) (e + d).
Proof.
  intros Hk Hd Ht. unfold ge2. rewrite !Z.min_r by lia. rewrite !Z.sub_diag, !Z.mul_1_r.
  intros H. apply Z.div_le_lower_bound; [lia|].
  replace (t - e) with (d + (t - (e + d))) in H by lia. rewrite Z.pow_add_r in H by lia. lia.
Qed.

(** The normalisation step: a bound on a number of at most 53 bits is kept. *)
Lemma shr_fexp_ge2 k t m e l :
  0 <= k < 2 ^ 53 → -1074 <= t → 0 < m → ge2 k t m e →
  let '(r, e') := shr_fexp 53 1024 m e l in 0 <= shr_m r ∧ ge2 k t (shr_m r) e'.
Proof.
  intros Hk Ht Hm Hge. unfold shr_fexp, shr.
  destruct (fexp 53 1024 (Zdigits2 m + e) - e) as [|d|d] eqn:Ed;
    rewrite ?shr_m_of_loc; try (split; [lia | done]).
  rewrite shr_m_iter, shr_m_of_loc by (rewrite shr_m_of_loc; lia).
  split; [apply Z.div_pos; lia|].
  destruct (Z.le_gt_cases (e + Z.pos d) t) as [Hle|Hgt]; [apply ge2_shift; [lia.. | done]|].
  unfold fexp, emin in Ed. destruct m as [|p|]; [done| |done]. cbn [Zdigits2] in Ed.
  pose proof (digits2_bounds p) as [Hlo _].
  assert (Hd : Z.pos d = Z.pos (digits2_pos p) - 53) by lia.
  assert (Hq : 2 ^ 52 <= Z.pos p / 2 ^ Z.pos d).
  { apply Z.div_le_lower_bound; [lia|]. rewrite <- Z.pow_add_r by lia.
    replace (Z.pos d + 52) with (Z.pos (digits2_pos p) - 1) by lia. done. }
  unfold ge2. rewrite Z.min_l, Z.sub_diag, Z.mul_1_r by lia.
  apply Z.le_trans with (2 ^ 52 * 2 ^ 1); [lia|].
  apply Z.mul_le_mono_nonneg; [lia | done | lia |]. apply Z.pow_le_mono_r; lia.
Qed.

Lemma round_nearest_even_ge m l : m <= round_nearest_even m l.
Proof. destruct l as [|[]]; simpl; try lia. destruct (Z.even m); lia. Qed.

Lemma ge2_mono k t m m' e : m <= m' → ge2 k t m e → ge2 k t m' e.
Proof.
  unfold ge2. intros Hm H. etrans; [exact H|]. apply Z.mul_le_mono_nonneg_r; [|done].
  apply Z.pow_nonneg. lia.
Qed.
Lemma ge2_pos k t m e : 0 < k → ge2 k t m e → 0 < m.
Proof.
  unfold ge2. intros Hk H.
  assert (0 < k * 2 ^ (t - Z.min t e)) by (apply Z.mul_pos_pos; [done | apply Z.pow_pos_nonneg; lia]).
  assert (0 < 2 ^ (e - Z.min t e)) by (apply Z.pow_pos_nonneg; lia). nia.
Qed.

(** [k * 2^t <= x] for a float that is not NaN. *)
Definition f64_ge (k t : Z) (x : f64) : Prop :=
  match x with
  | S754_finite false m e => ge2 k t (Z.pos m) e
  | S754_infinity false => True
  | _ => False
  end.

Lemma binary_round_aux_ge k t m e l :
  0 < k < 2 ^ 53 → -1074 <= t → ge2 k t m e →
  f64_ge k t (binary_round_aux 53 1024 false m e l).
Proof.
  intros Hk Ht Hge. pose proof (ge2_pos _ _ _ _ (proj1 Hk) Hge) as Hm. unfold binary_round_aux.
  pose proof (shr_fexp_ge2 k t m e l ltac:(lia) Ht Hm Hge) as H1.
  destruct (shr_fexp 53 1024 m e l) as [r1 e1]. destruct H1 as [_ H1].
  set (m2 := round_nearest_even _ _).
  assert (H2 : ge2 k t m2 e1) by (eapply ge2_mono; [apply round_nearest_even_ge | exact H1]).
  pose proof (shr_fexp_ge2 k t m2 e1 loc_Exact ltac:(lia) Ht (ge2_pos _ _ _ _ (proj1 Hk) H2) H2) as H3.
  destruct (shr_fexp 53 1024 m2 e1 loc_Exact) as [r2 e2]. destruct H3 as [_ H3].
  pose proof (ge2_pos _ _ _ _ (proj1 Hk) H3) as Hp.
  destruct (shr_m r2) as [|p|]; [lia| |lia]. by destruct (e2 <=? _).
Qed.

(** ** Small integers are exact *)

Lemma iter_xO p n : Z.pos (Pos.iter xO p n) = Z.pos p * 2 ^ Z.pos n
  ∧ Z.pos (digits2_pos (Pos.iter xO p n)) = Z.pos (digits2_pos p) + Z.pos n.
Proof.
  induction n as [|n [IH1 IH2]] using Pos.peano_ind; [simpl; lia|].
  rewrite Pos.iter_succ. cbn [digits2_pos]. rewrite !Pos2Z.inj_succ, Z.pow_succ_r by lia. lia.
Qed.

Lemma round_canonical m e :
  Z.pos (digits2_pos m) = 53 → -1074 <= e <= 971 →
  binary_round_aux 53 1024 false (Z.pos m) e loc_Exact = S754_finite false m e.
Proof.
  intros Hd He. unfold binary_round_aux.
  assert (Hs : shr_fexp 53 1024 (Z.pos m) e loc_Exact = ({| shr_m := Z.pos m; shr_r := false; shr_s := false |}, e)).
  { unfold shr_fexp, shr. cbn [Zdigits2 shr_record_of_loc]. rewrite Hd.
    replace (fexp 53 1024 (53 + e) - e) with 0; [done|]. unfold fexp, emin. lia. }
  rewrite Hs. cbn [shr_m loc_of_shr_record round_nearest_even]. rewrite Hs. cbn [shr_m].
  by rewrite (proj2 (Z.leb_le e (1024 - 53))) by lia.
Qed.

Lemma f64_of_u64_exact z : 0 < z < 2 ^ 53 →
  ∃ m e, f64_of_u64 z = S754_finite false m e ∧ -52 <= e <= 0 ∧ Z.pos m = z * 2 ^ (- e).
Proof.
  intros [H0 H1]. destruct z as [|p|]; [done| |done]. unfold f64_of_u64, binary_normalize, binary_round.
  pose proof (digits2_bounds p) as [Hlo _].
  assert (Hd : Z.pos (digits2_pos p) <= 53).
  { assert (Z.pos (digits2_pos p) - 1 < 53); [|lia]. apply (Z.pow_lt_mono_r_iff 2); lia. }
  rewrite Z.add_0_r. replace (fexp 53 1024 (Z.pos (digits2_pos p)))
    with (Z.pos (digits2_pos p) - 53) by (unfold fexp, emin; lia).
  unfold shl_align. rewrite Z.sub_0_r.
  destruct (Z.pos (digits2_pos p) - 53) as [|d|d] eqn:Ed; [|lia|].
  - exists p, 0. rewrite round_canonical by lia. repeat split; lia.
  - destruct (iter_xO p d) as [I1 I2].
    exists (Pos.iter xO p d), (Z.neg d). rewrite round_canonical by lia.
    repeat split; [lia|lia|]. rewrite I1. f_equal.
Qed.

(** ** Quotients *)

Lemma f64_ge_div n M E md ed d :
  0 < n < 2 ^ 53 → ge2 n 31 (Z.pos M) E →
  0 < d <= 2 ^ 31 → -52 <= ed <= 0 → Z.pos md = d * 2 ^ (- ed) →
  f64_ge n 0 (f64_div (S754_finite false M E) (S754_finite false md ed)).
Proof.
  intros Hn Hge Hd Hed Hmd. unfold f64_div, SFdiv, SFdiv_core_binary. cbn [Zdigits2].
  set (e' := Z.min _ _). assert (Hs : 0 <= E - ed - e') by lia.
  set (s := E - ed - e') in *.
  assert (Hm' : match s with Z.pos _ => Z.shiftl (Z.pos M) s | 0 => Z.pos M | Z.neg _ => 0 end
                = Z.pos M * 2 ^ s).
  { destruct s eqn:Es; [lia | by rewrite Z.shiftl_mul_pow2 | lia]. }
  rewrite Hm'. pose proof (Z_div_mod (Z.pos M * 2 ^ s) (Z.pos md) ltac:(lia)) as Hdiv.
  destruct (Z.div_eucl _ _) as [q r]. destruct Hdiv as [Hq Hr].
  apply binary_round_aux_ge; [done | lia |].
  assert (Hql : ∀ x, x * Z.pos md <= Z.pos M * 2 ^ s → x <= q) by (intros x Hx; nia).
  unfold ge2 in *. destruct (Z.le_gt_cases e' 0) as [He|He].
  - rewrite Z.min_r, Z.sub_diag, Z.mul_1_r by lia. apply Hql. rewrite Hmd.
    assert (Hc : n * 2 ^ (31 - e' - ed) <= Z.pos M * 2 ^ s).
    { replace (31 - e' - ed) with (31 - Z.min 31 E + (Z.min 31 E - e' - ed)) by lia.
      replace s with (E - Z.min 31 E + (Z.min 31 E - e' - ed)) by lia.
      rewrite !Z.pow_add_r, !Z.mul_assoc by lia. apply Z.mul_le_mono_nonneg_r; [|done].
      apply Z.pow_nonneg. lia. }
    etrans; [|exact Hc]. replace (31 - e' - ed) with (31 + (0 - e') + (- ed)) by lia.
    rewrite !Z.pow_add_r by lia.
    assert (0 < 2 ^ (0 - e')) by (apply Z.pow_pos_nonneg; lia).
    assert (0 < 2 ^ (- ed)) by (apply Z.pow_pos_nonneg; lia).
    assert (d * (n * 2 ^ (0 - e') * 2 ^ (- ed)) <= 2 ^ 31 * (n * 2 ^ (0 - e') * 2 ^ (- ed))); [|nia].
    apply Z.mul_le_mono_nonneg_r; [|lia]. nia.
  - assert (Hq52 : 2 ^ 52 <= q).
    { apply Hql. pose proof (digits2_bounds M) as [HM _]. pose proof (digits2_bounds md) as [_ Hm].
      apply Z.le_trans with (2 ^ 52 * 2 ^ Z.pos (digits2_pos md)); [nia|].
      apply Z.le_trans with (2 ^ (Z.pos (digits2_pos M) - 1) * 2 ^ s).
      - rewrite <- !Z.pow_add_r by lia. apply Z.pow_le_mono_r; [lia|]. unfold e', fexp, emin in *. lia.
      - apply Z.mul_le_mono_nonneg_r; [apply Z.pow_nonneg; lia | done]. }
    rewrite Z.min_l, Z.sub_diag, Z.sub_0_r, Z.mul_1_r by lia.
    apply Z.le_trans with (2 ^ 52 * 2 ^ 1); [lia|].
    apply Z.mul_le_mono_nonneg; [lia | done | lia |]. apply Z.pow_le_mono_r; lia.
Qed.

(** [n * 2^31 / d] is at least [n] when [d] is at most [2^31], in floating
    point too: the step of a jump consistent hash never goes back. *)
Lemma jump_step_ge n d :
  0 < n < 2 ^ 53 → 0 < d <= 2 ^ 31 →
  n <= f64_as_i64 (f64_div (f64_mul (f64_of_u64 n) (f64_of_u64 (2 ^ 31))) (f64_of_u64 d)).
Proof.
  intros Hn Hd. destruct (f64_of_u64_exact n Hn) as (m1 & e1 & -> & He1 & Hm1).
  destruct (f64_of_u64_exact d ltac:(lia)) as (md & ed & -> & Hed & Hmd).
  change (f64_of_u64 (2 ^ 31)) with (S754_finite false (2 ^ 52) (-21)).
  assert (Hprod : f64_ge n 31 (f64_mul (S754_finite false m1 e1) (S754_finite false (2 ^ 52) (-21)))).
  { apply binary_round_aux_ge; [done | lia |]. unfold ge2.
    rewrite Z.min_r, Z.sub_diag, Z.mul_1_r, Pos2Z.inj_mul, Hm1 by lia.
    replace (31 - (e1 + -21)) with (- e1 + 52) by lia. rewrite Z.pow_add_r by lia.
    change (Z.pos (2 ^ 52)) with (2 ^ 52). lia. }
  assert (Hq : f64_ge n 0 (f64_div (f64_mul (S754_finite false m1 e1) (S754_finite false (2 ^ 52) (-21)))
                                   (S754_finite false md ed))).
  { destruct (f64_mul _ _) as [|[]| |[] M E]; try done. by apply (f64_ge_div n M E md ed d). }
  destruct (f64_div _ _) as [|[]| |[] M E]; try done; [unfold f64_as_i64, i64_max; lia|].
  unfold f64_ge, ge2 in Hq. unfold f64_as_i64, i64_max. destruct (Z.leb_spec 0 E).
  - rewrite Z.min_l, Z.sub_diag, Z.sub_0_r in Hq by lia. lia.
  - rewrite Z.min_r, Z.sub_diag in Hq by lia.
    enough (n <= Z.pos M / 2 ^ (- E)) by lia.
    apply Z.div_le_lower_bound; [apply Z.pow_pos_nonneg; lia|].
    replace (0 - E) with (- E) in Hq by lia. lia.
Qed.
