(* ===== verification/Outcome.v ===== *)
(** * Computations that can panic

    Parsers index their input directly ([data[i]], a panic out of range) or with
    [.get(..)?] (giving up).  An [outcome] keeps the two apart, with a third way
    to fail for loops whose fuel ran out; [safe] excludes a panic and an endless
    loop, and [safe_solve] proves it from the length tests of the source. *)

From S2P Require Import Prelude.

(** ** Accesses that can fail *)

Inductive outcome (A : Type) :=
| Found (a : A)
| Nothing
| Panic
| OutOfFuel.
Arguments Found {A} a.
Arguments Nothing {A}.
Arguments Panic {A}.
Arguments OutOfFuel {A}.

Definition bind_outcome {A B} (c : outcome A) (k : A → outcome B) : outcome B :=
  match c with
  | Found a => k a
  | Nothing => Nothing
  | Panic => Panic
  | OutOfFuel => OutOfFuel
  end.
Notation "'let!' x ':=' c 'in' k" := (bind_outcome c (fun x => k))
  (at level 10, x binder, c at level 100, k at level 200) : rust_scope.

(** [data[i]], [data.get(i)?], [data.get(a..b)?], [u16::from_be_bytes]. *)
Definition idx (data : bytes) (i : nat) : outcome byte :=
  match data !! i with Some b => Found b | None => Panic end.
Definition get_byte (data : bytes) (i : nat) : outcome byte :=
  match data !! i with Some b => Found b | None => Nothing end.
Definition get_range (data : bytes) (a b : nat) : outcome bytes :=
  if ((a <=? b) && (b <=? length data))%nat then Found (slice data a b) else Nothing.
Definition be16 (data : bytes) (i : nat) : outcome nat :=
  let! a := idx data i in let! b := idx data (i + 1) in Found (Z.to_nat (from_be_bytes [a; b])).

(** [data[a..b]] and [u16::from_be_bytes([data[i], data[j]])] as a [u16]. *)
Definition idx_range (data : bytes) (a b : nat) : outcome bytes :=
  if ((a <=? b) && (b <=? length data))%nat then Found (slice data a b) else Panic.
Definition idx_be16 (data : bytes) (i j : nat) : outcome Z :=
  let! a := idx data i in let! b := idx data j in Found (from_be_bytes [a; b]).

Definition of_option {A} (o : option A) : outcome A :=
  match o with Some a => Found a | None => Nothing end.
Definition nat_of (b : byte) : nat := Z.to_nat (byte_to_Z b).

(** Lengths read from the packet may be as large as 2^62: positions are [usize]
    values with [checked_add]. *)
Definition checked_add (a b : Z) : outcome Z :=
  if a + b <? 2 ^ 64 then Found (a + b) else Nothing.
Definition get_at (data : bytes) (pos : Z) : outcome byte :=
  if pos <? len data then get_byte data (Z.to_nat pos) else Nothing.
Definition get_from (data : bytes) (pos : Z) : outcome bytes :=
  if pos <=? len data then Found (drop (Z.to_nat pos) data) else Nothing.
Definition get_between (data : bytes) (a b : Z) : outcome bytes :=
  if (a <=? b) && (b <=? len data) then Found (slice data (Z.to_nat a) (Z.to_nat b)) else Nothing.

(** ** No panic, no endless loop *)

Definition safe {A} (c : outcome A) : Prop := c ≠ Panic ∧ c ≠ OutOfFuel.

Lemma safe_bind {A B} (c : outcome A) (k : A → outcome B) :
  safe c → (∀ a, c = Found a → safe (k a)) → safe (bind_outcome c k).
Proof. intros [H1 H2] Hk. destruct c; simpl; [by apply Hk | split; done..]. Qed.
Lemma safe_found {A} (a : A) : safe (Found a).
Proof. done. Qed.
Lemma safe_nothing {A} : safe (Nothing (A := A)).
Proof. done. Qed.
Lemma safe_idx data i : (i < length data)%nat → safe (idx data i).
Proof. intros H. unfold idx. by rewrite lookup_byte_at. Qed.
Lemma safe_get_byte data i : safe (get_byte data i).
Proof. unfold get_byte. by destruct (data !! i). Qed.
Lemma safe_get_range data a b : safe (get_range data a b).
Proof. unfold get_range. by destruct (_ && _). Qed.
Lemma safe_of_option {A} (o : option A) : safe (of_option o).
Proof. by destruct o. Qed.
Lemma safe_checked_add a b : safe (checked_add a b).
Proof. unfold checked_add. by destruct (_ <? _). Qed.
Lemma safe_get_at data pos : safe (get_at data pos).
Proof. unfold get_at. destruct (_ <? _); [apply safe_get_byte | done]. Qed.
Lemma safe_get_from data pos : safe (get_from data pos).
Proof. unfold get_from. by destruct (_ <=? _). Qed.
Lemma safe_get_between data a b : safe (get_between data a b).
Proof. unfold get_between. by destruct (_ && _). Qed.
Lemma safe_be16 data i : (S i < length data)%nat → safe (be16 data i).
Proof.
  intros H. unfold be16. apply safe_bind; [apply safe_idx; lia|]. intros a _.
  apply safe_bind; [apply safe_idx; lia|]. done.
Qed.
Lemma safe_idx_range data a b :
  (a ≤ b)%nat → (b ≤ length data)%nat → safe (idx_range data a b).
Proof.
  intros Ha Hb. unfold idx_range. apply Nat.leb_le in Ha as ->. apply Nat.leb_le in Hb as ->. done.
Qed.
Lemma safe_idx_be16 data i j :
  (i < length data)%nat → (j < length data)%nat → safe (idx_be16 data i j).
Proof.
  intros Hi Hj. unfold idx_be16. apply safe_bind; [by apply safe_idx|]. intros a _.
  apply safe_bind; [by apply safe_idx|]. done.
Qed.
#[export] Hint Resolve safe_found safe_nothing safe_get_byte safe_get_range safe_of_option
  safe_checked_add safe_get_at safe_get_from safe_get_between : rust.

(** Step through the binds of a parser, turning its length tests into facts. *)
Ltac safe_step :=
  match goal with
  | |- safe (bind_outcome _ _) => apply safe_bind; [|intros ? ?]
  | |- safe (if (?a <? ?b)%nat then _ else _) => destruct (Nat.ltb_spec a b)
  | |- safe (if (?a <=? ?b)%nat then _ else _) => destruct (Nat.leb_spec a b)
  | |- safe (if (?a =? ?b)%nat then _ else _) => destruct (Nat.eqb_spec a b)
  | |- safe (if (?a <? ?b)%nat || (?c <? ?d)%nat then _ else _) =>
      destruct (Nat.ltb_spec a b); [|destruct (Nat.ltb_spec c d)]; cbn [orb]
  | |- safe (if ?b then _ else _) => destruct b
  | p : (_ * _)%type |- _ => destruct p
  | |- safe (idx _ _) => apply safe_idx
  | |- safe (be16 _ _) => apply safe_be16
  | |- safe (idx_range _ _ _) => apply safe_idx_range
  | |- safe (idx_be16 _ _ _) => apply safe_idx_be16
  | |- safe _ => solve [auto with rust]
  end.
Ltac safe_solve := cbv zeta; repeat safe_step; try lia.

(** ** Reading within bounds *)

Lemma idx_found data i : (i < length data)%nat → idx data i = Found (byte_at data i).
Proof. intros H. unfold idx. by rewrite lookup_byte_at. Qed.
Lemma idx_range_found data a b :
  (a ≤ b)%nat → (b ≤ length data)%nat → idx_range data a b = Found (slice data a b).
Proof.
  intros Ha Hb. unfold idx_range. apply Nat.leb_le in Ha as ->. apply Nat.leb_le in Hb as ->. done.
Qed.
Lemma idx_range_inv data a b l :
  idx_range data a b = Found l → (b ≤ length data)%nat ∧ length l = (b - a)%nat.
Proof.
  unfold idx_range. destruct (Nat.leb_spec a b); [|done]. destruct (Nat.leb_spec b (length data)); [|done].
  cbn [andb]. intros [= <-]. by rewrite length_slice.
Qed.
Lemma idx_be16_found data i j :
  (i < length data)%nat → (j < length data)%nat →
  idx_be16 data i j = Found (from_be_bytes [byte_at data i; byte_at data j]).
Proof. intros Hi Hj. unfold idx_be16. by rewrite !idx_found. Qed.

(** Evaluate the accesses of a goal whose length tests are in the context. *)
Ltac idx_eval :=
  repeat (first [rewrite idx_be16_found by lia | rewrite idx_found by lia
                | rewrite idx_range_found by lia]; cbn [bind_outcome]).

(** ** Computations that always return a value *)

Definition returns {A} (c : outcome A) : Prop := ∃ a, c = Found a.

Lemma returns_found {A} (a : A) : returns (Found a).
Proof. by exists a. Qed.
Lemma returns_bind {A B} (c : outcome A) (k : A → outcome B) :
  returns c → (∀ a, c = Found a → returns (k a)) → returns (bind_outcome c k).
Proof. intros [a ->] Hk. by apply Hk. Qed.
Lemma returns_idx data i : (i < length data)%nat → returns (idx data i).
Proof. intros H. rewrite idx_found by done. apply returns_found. Qed.
Lemma returns_idx_range data a b : (a ≤ b)%nat → (b ≤ length data)%nat → returns (idx_range data a b).
Proof. intros H1 H2. rewrite idx_range_found by done. apply returns_found. Qed.
Lemma returns_idx_be16 data i j :
  (i < length data)%nat → (j < length data)%nat → returns (idx_be16 data i j).
Proof. intros H1 H2. rewrite idx_be16_found by done. apply returns_found. Qed.
Lemma returns_safe {A} (c : outcome A) : returns c → safe c.
Proof. by intros [a ->]. Qed.
#[export] Hint Resolve returns_found : rust.

(** The same walk as [safe_step]. *)
Ltac returns_step :=
  match goal with
  | |- returns (bind_outcome _ _) => apply returns_bind; [|intros ? ?]
  | |- returns (if (?a <? ?b)%nat then _ else _) => destruct (Nat.ltb_spec a b)
  | |- returns (if (?a =? ?b)%nat then _ else _) => destruct (Nat.eqb_spec a b)
  | |- returns (if (?a <? ?b)%nat || (?c <? ?d)%nat then _ else _) =>
      destruct (Nat.ltb_spec a b); [|destruct (Nat.ltb_spec c d)]; cbn [orb]
  | |- returns (if ?b then _ else _) => destruct b eqn:?
  | |- returns (idx _ _) => apply returns_idx
  | |- returns (idx_range _ _ _) => apply returns_idx_range
  | |- returns (idx_be16 _ _ _) => apply returns_idx_be16
  | |- returns _ => solve [auto with rust]
  end.
