(* ===== verification/Sniff.v ===== *)
(** * Protocol sniffing ([src/src/proxy/sniff.rs])

    Extraction of the host name from the first bytes of a stream (TLS
    ClientHello, HTTP Host, QUIC Initial), protocol detection, and the override
    of the target.  Every direct index of the code ([data[i]]) is an access that
    can panic, every [.get(..)?] one that gives up; loops carry fuel.  The main
    results are that no input makes the sniffer panic or run on, and that a
    well-formed ClientHello gives up its server name. *)

From Stdlib Require Import Ascii.
From S2P Require Import Prelude RustStr F64 Outcome.


Local Open Scope string_scope.
Local Open Scope list_scope.
Local Open Scope Z_scope.

(** [((a as usize) << 16) | ((b as usize) << 8) | (c as usize)] *)
Definition u24 (a b c : byte) : nat :=
  Z.to_nat (Z.lor (Z.lor (Z.shiftl (byte_to_Z a) 16) (Z.shiftl (byte_to_Z b) 8)) (byte_to_Z c)).

(** ** TLS *)

Fixpoint sni_loop (fuel : nat) (data : bytes) (pos list_end : nat) : outcome string :=
  match fuel with
  | O => OutOfFuel
  | S fuel =>
      if (pos + 3 <=? list_end)%nat then
        let! name_type := idx data pos in
        let! name_len := be16 data (pos + 1) in
        let pos := (pos + 3)%nat in
        if byte_to_Z name_type =? 0 then
          let! name := get_range data pos (pos + name_len) in of_option (from_utf8 name)
        else sni_loop fuel data (pos + name_len) list_end
      else Nothing
  end.

Definition parse_sni_extension (data : bytes) : outcome string :=
  if (length data <? 2)%nat then Nothing else
  let! list_len := be16 data 0 in
  if (length data <? list_len + 2)%nat then Nothing else
  sni_loop (S (length data)) data 2 (2 + list_len).

(** The walk over a ClientHello body up to its extensions: their position and
    end. *)
Definition hello_extensions (body : bytes) : outcome (nat * nat) :=
  if (length body <? 34)%nat then Nothing else
  let pos := 34%nat in
  let! session_id_len := get_byte body pos in
  let pos := (pos + (1 + nat_of session_id_len))%nat in
  if (length body <? pos + 2)%nat then Nothing else
  let! cipher_suites_len := be16 body pos in
  let pos := (pos + (2 + cipher_suites_len))%nat in
  if (length body <=? pos)%nat then Nothing else
  let! compression_len := idx body pos in
  let pos := (pos + (1 + nat_of compression_len))%nat in
  if (length body <? pos + 2)%nat then Nothing else
  let! extensions_len := be16 body pos in
  let pos := (pos + 2)%nat in
  let extensions_end := (pos + extensions_len)%nat in
  if (length body <? extensions_end)%nat then Nothing else Found (pos, extensions_end).

Fixpoint tls_ext_loop (fuel : nat) (body : bytes) (pos extensions_end : nat) : outcome string :=
  match fuel with
  | O => OutOfFuel
  | S fuel =>
      if (pos + 4 <=? extensions_end)%nat then
        let! ext_type := be16 body pos in
        let! ext_len := be16 body (pos + 2) in
        let pos := (pos + 4)%nat in
        if (ext_type =? 0)%nat then
          let! ext := get_range body pos (pos + ext_len) in parse_sni_extension ext
        else tls_ext_loop fuel body (pos + ext_len) extensions_end
      else Nothing
  end.

Definition parse_tls_sni (data : bytes) : outcome string :=
  if (length data <? 5)%nat then Nothing else
  let! content_type := idx data 0 in
  if negb (byte_to_Z content_type =? 0x16) then Nothing else
  let! version := be16 data 1 in
  if negb ((0x0300 <=? Z.of_nat version) && (Z.of_nat version <=? 0x0303)) then Nothing else
  let! record_len := be16 data 3 in
  let! fragment := get_range data 5 (5 + record_len) in
  if (length fragment =? 0)%nat then Nothing else
  let! hs_type := idx fragment 0 in
  if negb (byte_to_Z hs_type =? 0x01) then Nothing else
  if (length fragment <? 4)%nat then Nothing else
  let! f1 := idx fragment 1 in
  let! f2 := idx fragment 2 in
  let! f3 := idx fragment 3 in
  let! body := get_range fragment 4 (4 + u24 f1 f2 f3) in
  let! '(pos, extensions_end) := hello_extensions body in
  tls_ext_loop (S (length body)) body pos extensions_end.

(** ** HTTP *)

Definition http_methods : list string :=
  ["GET "; "POST "; "PUT "; "HEAD "; "DELETE "; "OPTIONS "; "PATCH "; "CONNECT "].

Definition bytes_start_with (p : string) (data : bytes) : bool :=
  bool_decide (take (String.length p) data = as_bytes p).

Definition is_http_request (data : bytes) : bool :=
  existsb (fun m => bytes_start_with m data) http_methods.

Definition is_ascii_digit (c : Ascii.ascii) : bool :=
  match digit_value c with Some _ => true | None => false end.
Fixpoint all_digits (s : string) : bool :=
  match s with "" => true | String c s => is_ascii_digit c && all_digits s end.

(** The host named by one header line, if it is a Host line that names one. *)
Definition host_of_line (line : string) : option string :=
  match (match strip_prefix "Host:" line with
         | Some v => Some v
         | None => strip_prefix "host:" line
         end) with
  | None => None
  | Some host_value =>
      let host := trim host_value in
      let hostname := match rsplit_once ":" host with
                      | Some (h, port) => if all_digits port then h else host
                      | None => host
                      end in
      if String.eqb hostname "" then None else Some hostname
  end.

Fixpoint first_host (ls : list string) : option string :=
  match ls with
  | [] => None
  | line :: ls => match host_of_line line with Some h => Some h | None => first_host ls end
  end.

Definition parse_http_host (data : bytes) : option string :=
  if is_http_request data then text ← from_utf8 data; first_host (lines text) else None.

(** ** QUIC *)

Definition is_quic_initial (data : bytes) : outcome bool :=
  if (length data <? 6)%nat then Found false else
  let! first := idx data 0 in
  let is_long_header := negb (Z.land (byte_to_Z first) 0x80 =? 0) in
  let long_packet_type := Z.land (Z.shiftr (byte_to_Z first) 4) 0x03 in
  if negb is_long_header || negb (long_packet_type =? 0) then Found false else
  let! v1 := idx data 1 in
  let! v2 := idx data 2 in
  let! v3 := idx data 3 in
  let! v4 := idx data 4 in
  Found (negb (from_be_bytes [v1; v2; v3; v4] =? 0)).

Definition host_ok_byte (b : byte) : bool :=
  let z := byte_to_Z b in
  ((48 <=? z) && (z <=? 57)) || ((65 <=? z) && (z <=? 90)) || ((97 <=? z) && (z <=? 122))
  || (z =? 46) || (z =? 45).

Definition validate_domain_like (host : string) : option string :=
  if (str_len host =? 0) || (253 <? str_len host) then None
  else if negb (forallb (fun b => byte_to_Z b <? 128) (as_bytes host)) || negb (contains "." host)
  then None
  else if forallb host_ok_byte (as_bytes host) then Some host else None.

Fixpoint quic_ext_loop (fuel : nat) (body : bytes) (pos extensions_end : nat) : outcome string :=
  match fuel with
  | O => OutOfFuel
  | S fuel =>
      if (pos + 4 <=? extensions_end)%nat then
        let! ext_type := be16 body pos in
        let! ext_len := be16 body (pos + 2) in
        let pos := (pos + 4)%nat in
        if (extensions_end <? pos + ext_len)%nat then Nothing
        else if (ext_type =? 0)%nat then
          let! host := parse_sni_extension (slice body pos (pos + ext_len)) in
          of_option (validate_domain_like host)
        else quic_ext_loop fuel body (pos + ext_len) extensions_end
      else Nothing
  end.

Definition parse_client_hello_body_sni (body : bytes) : outcome string :=
  let! '(pos, extensions_end) := hello_extensions body in
  quic_ext_loop (S (length body)) body pos extensions_end.

(** The scan for a ClientHello at each offset; [n] offsets are left. *)
Fixpoint hello_scan (n : nat) (data : bytes) (i : nat) : outcome string :=
  match n with
  | O => Nothing
  | S n =>
      let! b := idx data i in
      if negb (byte_to_Z b =? 0x01) then hello_scan n data (i + 1) else
      let! b1 := idx data (i + 1) in
      let! b2 := idx data (i + 2) in
      let! b3 := idx data (i + 3) in
      let hs_len := u24 b1 b2 b3 in
      if (hs_len <? 40)%nat then hello_scan n data (i + 1) else
      match get_range data (i + 4) (i + 4 + hs_len) with
      | Found body =>
          match parse_client_hello_body_sni body with
          | Found host => Found host
          | Nothing => hello_scan n data (i + 1)
          | Panic => Panic
          | OutOfFuel => OutOfFuel
          end
      | _ => hello_scan n data (i + 1)
      end
  end.

Definition find_client_hello_sni (data : bytes) : outcome string :=
  let scan_len := (length data `min` 1200)%nat in
  hello_scan (scan_len - 4) data 0.

Definition parse_quic_varint (data : bytes) : outcome (Z * Z) :=
  let! first := get_byte data 0 in
  let prefix := Z.shiftr (byte_to_Z first) 6 in
  let l := Z.to_nat (Z.shiftl 1 prefix) in
  let! s := get_range data 0 l in
  let b i := byte_to_Z (byte_at s i) in
  let top := Z.land (b 0%nat) 0x3f in
  match l with
  | 1%nat => Found (top, 1)
  | 2%nat => Found (Z.lor (Z.shiftl top 8) (b 1%nat), 2)
  | 4%nat =>
      Found (Z.lor (Z.lor (Z.lor (Z.shiftl top 24) (Z.shiftl (b 1%nat) 16)) (Z.shiftl (b 2%nat) 8))
                   (b 3%nat), 4)
  | 8%nat =>
      Found (Z.lor (Z.lor (Z.lor (Z.lor (Z.lor (Z.lor (Z.lor
               (Z.shiftl top 56) (Z.shiftl (b 1%nat) 48)) (Z.shiftl (b 2%nat) 40))
               (Z.shiftl (b 3%nat) 32)) (Z.shiftl (b 4%nat) 24)) (Z.shiftl (b 5%nat) 16))
               (Z.shiftl (b 6%nat) 8)) (b 7%nat), 8)
  | _ => Nothing
  end.

Definition parse_quic_initial_payload (data : bytes) : outcome bytes :=
  let! initial := is_quic_initial data in
  if negb initial then Nothing else
  let! dcid_len := get_at data 5 in
  let! pos := checked_add 6 (byte_to_Z dcid_len) in
  let! scid_len := get_at data pos in
  let! pos := checked_add (pos + 1) (byte_to_Z scid_len) in
  let! rest := get_from data pos in
  let! '(token_len, token_len_bytes) := parse_quic_varint rest in
  let! pos := checked_add pos token_len_bytes in
  let! pos := checked_add pos token_len in
  let! rest := get_from data pos in
  let! '(payload_len, payload_len_bytes) := parse_quic_varint rest in
  let! pos := checked_add pos payload_len_bytes in
  let! first := idx data 0 in
  let pn_len := Z.land (byte_to_Z first) 0x03 + 1 in
  let! pos := checked_add pos pn_len in
  let! payload_end := checked_add pos (saturating_sub payload_len pn_len) in
  get_between data pos payload_end.

Definition parse_quic_sni (data : bytes) : outcome string :=
  let scan := take (Z.to_nat 1400) data in
  let! initial := is_quic_initial scan in
  if negb initial then Nothing else
  match parse_quic_initial_payload scan with
  | Found payload =>
      match find_client_hello_sni payload with
      | Found host => Found host
      | Nothing => find_client_hello_sni scan
      | Panic => Panic
      | OutOfFuel => OutOfFuel
      end
  | Nothing => find_client_hello_sni scan
  | Panic => Panic
  | OutOfFuel => OutOfFuel
  end.

Definition sniff (data : bytes) : outcome string :=
  match parse_tls_sni data with
  | Nothing =>
      match parse_http_host data with
      | Some host => Found host
      | None => parse_quic_sni data
      end
  | r => r
  end.

(** ** Detection *)

Definition is_bittorrent (data : bytes) : bool :=
  ((20 <=? length data)%nat && (byte_to_Z (byte_at data 0) =? 19)
     && bool_decide (slice data 1 20 = as_bytes "BitTorrent protocol"))
  || ((4 <=? length data)%nat && bytes_start_with "d1:" data).

Definition is_stun (data : bytes) : bool :=
  if (length data <? 20)%nat then false
  else if negb (Z.land (byte_to_Z (byte_at data 0)) 0xC0 =? 0) then false
  else bool_decide (slice data 4 8 = [Byte.x21; Byte.x12; Byte.xa4; Byte.x42]).

Definition is_dtls (data : bytes) : bool :=
  if (length data <? 13)%nat then false
  else if negb (byte_to_Z (byte_at data 0) =? 0x16) then false
  else let version := from_be_bytes [byte_at data 1; byte_at data 2] in
       (version =? 0xFEFF) || (version =? 0xFEFD).

Fixpoint position (p : byte → bool) (l : bytes) : option nat :=
  match l with
  | [] => None
  | b :: l => if p b then Some 0%nat else S <$> position p l
  end.
Definition strip_cr (l : bytes) : bytes :=
  if decide (last l = Some Byte.x0d) then take (length l - 1) l else l.
Definition is_ssh (data : bytes) : bool :=
  if negb (bytes_start_with "SSH-" data) then false else
  let window := take 255 data in
  match position (fun b => byte_to_Z b =? 10) window with
  | None => false
  | Some newline_pos =>
      let line := strip_cr (take newline_pos window) in
      if (length line <? 9)%nat then false else
      if negb (bytes_start_with "SSH-" line) then false else
      let rest := drop 4 line in
      match position (fun b => byte_to_Z b =? 45) rest with
      | None => false
      | Some version_sep =>
          let proto := take version_sep rest in
          if negb (bool_decide (proto = as_bytes "2.0") || bool_decide (proto = as_bytes "1.99"))
          then false
          else let software := drop (version_sep + 1) rest in
               negb (length software =? 0)%nat
               && forallb (fun b => (32 <=? byte_to_Z b) && (byte_to_Z b <? 127)) software
      end
  end.

Definition is_ntp (data : bytes) : bool :=
  if (length data <? 48)%nat then false else
  let first := byte_to_Z (byte_at data 0) in
  let version := Z.land (Z.shiftr first 3) 0x07 in
  let mode := Z.land first 0x07 in
  ((version =? 3) || (version =? 4)) && ((1 <=? mode) && (mode <=? 5)).

Definition parse_ntp_timestamp (data : bytes) : option (Z * f64) :=
  if (length data <? 48)%nat || negb (is_ntp data) then None else
  let mode := Z.land (byte_to_Z (byte_at data 0)) 0x07 in
  if negb (mode =? 4) && negb (mode =? 5) then None else
  let seconds := from_be_bytes (slice data 40 44) in
  let fraction := from_be_bytes (slice data 44 48) in
  if seconds =? 0 then None else
  if seconds <? 2208988800 then None else
  Some (seconds - 2208988800,
        f64_div (f64_of_u64 fraction) (f64_add (f64_of_u64 u32_max) (f64_of_u64 1))).

Definition detect_protocol (data : bytes) : option string :=
  if is_dtls data then Some "dtls"
  else if (5 <=? length data)%nat && (byte_to_Z (byte_at data 0) =? 0x16) then Some "tls"
  else if is_http_request data then Some "http"
  else if is_bittorrent data then Some "bittorrent"
  else if is_stun data then Some "stun"
  else if (match is_quic_initial data with Found b => b | _ => false end) then Some "quic"
  else if is_ssh data then Some "ssh"
  else if is_ntp data then Some "ntp"
  else None.

(** ** Override of the target *)

Inductive SniffOverrideStrategy := Full | DomainOnly | PortOnly | RouteOnly.

Definition strategy_from_str (s : string) : SniffOverrideStrategy :=
  if String.eqb s "full" || String.eqb s "override" then Full
  else if String.eqb s "domain-only" || String.eqb s "domain" then DomainOnly
  else if String.eqb s "port-only" || String.eqb s "port" then PortOnly
  else if String.eqb s "route-only" || String.eqb s "route" || String.eqb s "none" then RouteOnly
  else Full.

Definition strategy_as_str (s : SniffOverrideStrategy) : string :=
  match s with
  | Full => "full"
  | DomainOnly => "domain-only"
  | PortOnly => "port-only"
  | RouteOnly => "route-only"
  end.

Record SniffResult := {
  domain : option string;
  protocol : option string;
  inferred_port : option Z
}.

Definition port_of_protocol (p : string) : option Z :=
  if String.eqb p "tls" then Some 443
  else if String.eqb p "http" then Some 80
  else if String.eqb p "dtls" then Some 443
  else if String.eqb p "quic" then Some 443
  else if String.eqb p "ssh" then Some 22
  else if String.eqb p "ntp" then Some 123
  else None.

(** [None] would be a panic of [sniff]. *)
Definition from_data (data : bytes) : option SniffResult :=
  match sniff data with
  | Panic | OutOfFuel => None
  | r =>
      let protocol := detect_protocol data in
      Some {| domain := match r with Found h => Some h | _ => None end;
              protocol := protocol;
              inferred_port := p ← protocol; port_of_protocol p |}
  end.

Definition apply_override (r : SniffResult) (strategy : SniffOverrideStrategy)
    (original_host : string) (original_port : Z) : string * Z :=
  match strategy with
  | Full => (default original_host (domain r), default original_port (inferred_port r))
  | DomainOnly => (default original_host (domain r), original_port)
  | PortOnly => (original_host, default original_port (inferred_port r))
  | RouteOnly => (original_host, original_port)
  end.

(** ** No panic, no endless loop *)

Lemma sni_loop_safe fuel data pos list_end :
  (list_end ≤ length data)%nat → (list_end - pos < fuel)%nat → safe (sni_loop fuel data pos list_end).
Proof.
  revert pos. induction fuel as [|fuel IH]; intros pos Hl Hf; [lia|]. cbn [sni_loop].
  safe_solve. apply IH; lia.
Qed.

Lemma parse_sni_extension_safe data : safe (parse_sni_extension data).
Proof. unfold parse_sni_extension. safe_solve. apply sni_loop_safe; lia. Qed.
#[export] Hint Resolve parse_sni_extension_safe : rust.

Lemma hello_extensions_safe body : safe (hello_extensions body).
Proof. unfold hello_extensions. safe_solve. Qed.
#[export] Hint Resolve hello_extensions_safe : rust.

Lemma hello_extensions_bounds body pos e :
  hello_extensions body = Found (pos, e) → (pos ≤ e ≤ length body)%nat.
Proof.
  unfold hello_extensions. cbv zeta.
  repeat match goal with
  | |- (if (?a <? ?b)%nat then _ else _) = _ → _ => destruct (Nat.ltb_spec a b); [discriminate|]
  | |- (if (?a <=? ?b)%nat then _ else _) = _ → _ => destruct (Nat.leb_spec a b); [discriminate|]
  | |- bind_outcome ?c _ = _ → _ => destruct c; cbn [bind_outcome]; try discriminate
  end. intros [= <- <-]. lia.
Qed.

Lemma tls_ext_loop_safe fuel body pos e :
  (e ≤ length body)%nat → (e - pos < fuel)%nat → safe (tls_ext_loop fuel body pos e).
Proof.
  revert pos. induction fuel as [|fuel IH]; intros pos Hl Hf; [lia|]. cbn [tls_ext_loop].
  safe_solve. apply IH; lia.
Qed.

Lemma quic_ext_loop_safe fuel body pos e :
  (e ≤ length body)%nat → (e - pos < fuel)%nat → safe (quic_ext_loop fuel body pos e).
Proof.
  revert pos. induction fuel as [|fuel IH]; intros pos Hl Hf; [lia|]. cbn [quic_ext_loop].
  safe_solve. apply IH; lia.
Qed.

Lemma parse_tls_sni_safe data : safe (parse_tls_sni data).
Proof.
  unfold parse_tls_sni. safe_solve.
  match goal with H : hello_extensions _ = _ |- _ => apply hello_extensions_bounds in H end.
  apply tls_ext_loop_safe; lia.
Qed.

Lemma is_quic_initial_total data : ∃ b, is_quic_initial data = Found b.
Proof.
  assert (Hs : safe (is_quic_initial data)) by (unfold is_quic_initial; safe_solve).
  unfold is_quic_initial in *.
  destruct (_ <? _)%nat eqn:E; [by eexists|].
  repeat match goal with
  | |- ∃ b, bind_outcome (idx data ?i) _ = _ =>
      unfold idx at 1; rewrite (lookup_byte_at data i) by (apply Nat.ltb_ge in E; lia);
      cbn [bind_outcome]
  | |- ∃ b, (if ?c then _ else _) = _ => destruct c
  end; by eexists.
Qed.

Lemma is_quic_initial_length data : is_quic_initial data = Found true → (6 ≤ length data)%nat.
Proof. unfold is_quic_initial. destruct (Nat.ltb_spec (length data) 6); [discriminate | done]. Qed.

Lemma parse_client_hello_body_safe body : safe (parse_client_hello_body_sni body).
Proof.
  unfold parse_client_hello_body_sni. safe_solve.
  match goal with H : hello_extensions _ = _ |- _ => apply hello_extensions_bounds in H end.
  apply quic_ext_loop_safe; lia.
Qed.

Lemma hello_scan_safe n data i : (i + n + 4 ≤ length data)%nat ∨ n = 0%nat → safe (hello_scan n data i).
Proof.
  revert i. induction n as [|n IH]; intros i Hl; [done|]. cbn [hello_scan].
  destruct Hl as [Hl|]; [|done].
  assert (Hnext : safe (hello_scan n data (i + 1))) by (apply IH; left; lia).
  safe_solve. destruct (get_range _ _ _) as [body| | |]; try done.
  destruct (parse_client_hello_body_safe body) as [Hp1 Hp2].
  by destruct (parse_client_hello_body_sni body).
Qed.

Lemma find_client_hello_safe data : safe (find_client_hello_sni data).
Proof. unfold find_client_hello_sni. apply hello_scan_safe. lia. Qed.

Lemma parse_quic_varint_safe data : safe (parse_quic_varint data).
Proof.
  unfold parse_quic_varint. cbv zeta. do 2 (apply safe_bind; [auto with rust | intros ? _]).
  destruct (Z.to_nat _) as [|[|[|[|[|[|[|[|[|]]]]]]]]]; done.
Qed.
#[export] Hint Resolve parse_quic_varint_safe : rust.

Lemma parse_quic_payload_safe data : safe (parse_quic_initial_payload data).
Proof.
  unfold parse_quic_initial_payload.
  destruct (is_quic_initial_total data) as [b Hb]. rewrite Hb. cbn [bind_outcome].
  destruct b; cbn [negb]; [|done]. apply is_quic_initial_length in Hb. safe_solve.
Qed.

Lemma parse_quic_sni_safe data : safe (parse_quic_sni data).
Proof.
  unfold parse_quic_sni. cbv zeta. set (scan := take _ data). clearbody scan.
  destruct (is_quic_initial_total scan) as [b ->]. cbn [bind_outcome].
  destruct b; cbn [negb]; [|done].
  destruct (parse_quic_payload_safe scan) as [H1 H2], (find_client_hello_safe scan) as [H3 H4].
  destruct (parse_quic_initial_payload scan) as [payload| | |]; try done.
  destruct (find_client_hello_safe payload). by destruct (find_client_hello_sni payload).
Qed.

Lemma sniff_safe data : safe (sniff data).
Proof.
  unfold sniff. destruct (parse_tls_sni_safe data) as [H1 H2].
  destruct (parse_tls_sni data); try done.
  destruct (parse_http_host data); [done | apply parse_quic_sni_safe].
Qed.

(** ** A well-formed ClientHello *)

(** The wire format of RFC 8446: a name entry, an extension, the body, the
    handshake message and the record around it. *)
Definition name_entry (e : byte * bytes) : bytes := [e.1] ++ to_be_bytes 2 (len e.2) ++ e.2.
Definition extension (e : Z * bytes) : bytes :=
  to_be_bytes 2 e.1 ++ to_be_bytes 2 (len e.2) ++ e.2.
Definition sni_list (entries : list (byte * bytes)) : bytes := concat (name_entry <$> entries).
Definition ext_list (exts : list (Z * bytes)) : bytes := concat (extension <$> exts).
Definition sni_body (entries : list (byte * bytes)) : bytes :=
  to_be_bytes 2 (len (sni_list entries)) ++ sni_list entries.

Record ClientHello := {
  ch_head : bytes;           (* version and random *)
  ch_session : bytes;
  ch_ciphers : bytes;
  ch_compression : bytes;
  ch_before : list (Z * bytes);     (* extensions before the server name *)
  ch_names : list (byte * bytes);   (* name entries before the host name *)
  ch_host : string;
  ch_more_names : list (byte * bytes);
  ch_after : list (Z * bytes)
}.

Definition ch_sni (c : ClientHello) : bytes :=
  sni_body (ch_names c ++ (Byte.x00, as_bytes (ch_host c)) :: ch_more_names c).
Definition ch_exts (c : ClientHello) : bytes :=
  ext_list (ch_before c ++ (0, ch_sni c) :: ch_after c).
Definition ch_body (c : ClientHello) : bytes :=
  ch_head c ++ [byte_of_Z (len (ch_session c))] ++ ch_session c
  ++ to_be_bytes 2 (len (ch_ciphers c)) ++ ch_ciphers c
  ++ [byte_of_Z (len (ch_compression c))] ++ ch_compression c
  ++ to_be_bytes 2 (len (ch_exts c)) ++ ch_exts c.
Definition ch_handshake (c : ClientHello) : bytes :=
  [Byte.x01] ++ to_be_bytes 3 (len (ch_body c)) ++ ch_body c.
Definition ch_record (version : Z) (c : ClientHello) : bytes :=
  [Byte.x16] ++ to_be_bytes 2 version ++ to_be_bytes 2 (len (ch_handshake c)) ++ ch_handshake c.

Record hello_ok (c : ClientHello) : Prop := {
  ok_head : length (ch_head c) = 34%nat;
  ok_session : len (ch_session c) < 256;
  ok_compression : len (ch_compression c) < 256;
  ok_before : Forall (fun e => u16_ok e.1 ∧ e.1 ≠ 0) (ch_before c);
  ok_names : Forall (fun e => byte_to_Z e.1 ≠ 0) (ch_names c);
  ok_host : str_ok (ch_host c);
  ok_size : len (ch_handshake c) < 65536
}.

Lemma idx_mid pre b rest i : i = length pre → idx (pre ++ [b] ++ rest) i = Found b.
Proof. intros ->. unfold idx. by rewrite lookup_app_r, Nat.sub_diag by lia. Qed.

Lemma be16_mid pre z rest i :
  i = length pre → u16_ok z → be16 (pre ++ to_be_bytes 2 z ++ rest) i = Found (Z.to_nat z).
Proof.
  intros -> Hz. unfold be16, idx.
  rewrite !lookup_byte_at by (rewrite !length_app, length_to_be_bytes; lia). cbn [bind_outcome].
  do 2 f_equal. by apply be2_at; [| |done]; lia.
Qed.

Lemma get_range_mid pre m rest a b :
  a = length pre → b = (length pre + length m)%nat → get_range (pre ++ m ++ rest) a b = Found m.
Proof.
  intros -> ->. unfold get_range.
  rewrite (proj2 (Nat.leb_le _ _)), (proj2 (Nat.leb_le _ _)) by (rewrite ?length_app; lia).
  cbn [andb]. by rewrite slice_mid.
Qed.

Lemma length_name_entry e : length (name_entry e) = (3 + length e.2)%nat.
Proof. unfold name_entry. rewrite !length_app, length_to_be_bytes. done. Qed.
Lemma length_extension e : length (extension e) = (4 + length e.2)%nat.
Proof. unfold extension. rewrite !length_app, !length_to_be_bytes. lia. Qed.

(** The loop over the names finds the host name behind others. *)
Lemma sni_loop_finds names host pre rest fuel list_end :
  Forall (fun e => byte_to_Z e.1 ≠ 0) names → str_ok host →
  len (pre ++ sni_list names ++ name_entry (Byte.x00, as_bytes host) ++ rest) < 65536 →
  (length pre + length (sni_list names ++ name_entry (Byte.x00, as_bytes host)) ≤ list_end)%nat →
  (length names < fuel)%nat →
  sni_loop fuel (pre ++ sni_list names ++ name_entry (Byte.x00, as_bytes host) ++ rest)
    (length pre) list_end = Found host.
Proof.
  intros Hn Hok. revert pre fuel. induction Hn as [|[t n] names Ht Hn IH]; intros pre fuel Hl He Hf;
    (destruct fuel as [|fuel]; [simpl in Hf; lia|]); cbn [sni_loop].
  - change (sni_list []) with (@nil byte) in *. rewrite !app_nil_l in *.
    unfold name_entry in *. cbn [fst snd] in *. rewrite <- !app_assoc in *.
    rewrite !length_app, !length_to_be_bytes in He. unfold len in Hl.
    rewrite !length_app, length_to_be_bytes in Hl. simpl in He, Hl.
    rewrite (proj2 (Nat.leb_le _ _)) by lia. rewrite idx_mid by done. cbn [bind_outcome].
    rewrite (app_assoc pre), be16_mid by (rewrite ?length_app; unfold in_width, len; simpl; lia).
    cbn [bind_outcome]. change (byte_to_Z Byte.x00 =? 0) with true. cbn iota.
    rewrite (app_assoc (pre ++ _)), get_range_mid;
      [|rewrite !length_app, length_to_be_bytes; simpl; lia
       |rewrite !length_app, length_to_be_bytes; unfold len; simpl; lia].
    cbn [bind_outcome]. by rewrite from_utf8_as_bytes.
  - change (sni_list ((t, n) :: names)) with (name_entry (t, n) ++ sni_list names) in *.
    rewrite <- !app_assoc in *. simpl in Ht. pose proof Hl as Hl'. pose proof He as He'.
    unfold len in Hl'. rewrite !length_app, length_name_entry in Hl', He'. simpl in Hl', He'.
    rewrite (proj2 (Nat.leb_le _ _)) by lia.
    assert (Hidx : idx (pre ++ name_entry (t, n) ++ sni_list names
                        ++ name_entry (Byte.x00, as_bytes host) ++ rest) (length pre) = Found t).
    { unfold name_entry at 1. cbn [fst snd]. rewrite <- !app_assoc. by apply idx_mid. }
    rewrite Hidx. cbn [bind_outcome].
    assert (Hbe : be16 (pre ++ name_entry (t, n) ++ sni_list names
                        ++ name_entry (Byte.x00, as_bytes host) ++ rest) (length pre + 1)
                  = Found (length n)).
    { unfold name_entry at 1. cbn [fst snd]. rewrite <- !app_assoc, (app_assoc pre).
      rewrite be16_mid by (rewrite ?length_app; unfold in_width, len; simpl; lia).
      unfold len. by rewrite Nat2Z.id. }
    rewrite Hbe. cbn [bind_outcome]. rewrite (proj2 (Z.eqb_neq _ _) Ht).
    replace (length pre + 3 + length n)%nat with (length (pre ++ name_entry (t, n)))
      by (rewrite length_app, length_name_entry; simpl; lia).
    rewrite (app_assoc pre) in *. apply IH; [done | | simpl in Hf; lia].
    rewrite !length_app, !length_name_entry in *. simpl in *. lia.
Qed.

Lemma parse_sni_extension_finds names host more :
  Forall (fun e => byte_to_Z e.1 ≠ 0) names → str_ok host →
  len (sni_body (names ++ (Byte.x00, as_bytes host) :: more)) < 65536 →
  parse_sni_extension (sni_body (names ++ (Byte.x00, as_bytes host) :: more)) = Found host.
Proof.
  intros Hn Hok Hl.
  assert (Hs : sni_list (names ++ (Byte.x00, as_bytes host) :: more)
               = sni_list names ++ name_entry (Byte.x00, as_bytes host) ++ sni_list more).
  { unfold sni_list. rewrite fmap_app, concat_app. done. }
  unfold parse_sni_extension, sni_body in *. rewrite Hs in *.
  set (L := sni_list names ++ name_entry (Byte.x00, as_bytes host) ++ sni_list more) in *.
  assert (HL : len L < 65534) by (unfold len in *; rewrite length_app, length_to_be_bytes in Hl; lia).
  rewrite (proj2 (Nat.ltb_ge _ _)) by (rewrite length_app, length_to_be_bytes; lia).
  assert (Hb : be16 (to_be_bytes 2 (len L) ++ L) 0 = Found (length L)).
  { pose proof (be16_mid [] (len L) L 0 eq_refl) as Hb. rewrite app_nil_l in Hb.
    rewrite Hb by (unfold in_width, len in *; lia). unfold len. by rewrite Nat2Z.id. }
  rewrite Hb. cbn [bind_outcome]. rewrite length_app, length_to_be_bytes.
  rewrite (proj2 (Nat.ltb_ge _ _)) by lia.
  assert (Hlen : (length names ≤ length (sni_list names))%nat).
  { clear. induction names as [|e names IH]; [done|].
    change (sni_list (e :: names)) with (name_entry e ++ sni_list names).
    rewrite length_app, length_name_entry. simpl. lia. }
  assert (HLL : (length names ≤ length L)%nat) by (unfold L; rewrite length_app; lia).
  apply (sni_loop_finds names host (to_be_bytes 2 (len L)) (sni_list more)); try done; [|lia].
  rewrite length_to_be_bytes. unfold L. rewrite !length_app. lia.
Qed.

Lemma ext_list_app xs ys : ext_list (xs ++ ys) = ext_list xs ++ ext_list ys.
Proof. unfold ext_list. by rewrite fmap_app, concat_app. Qed.

Lemma length_ext_list xs : (length xs ≤ length (ext_list xs))%nat.
Proof.
  induction xs as [|e xs IH]; [done|]. change (ext_list (e :: xs)) with (extension e ++ ext_list xs).
  rewrite length_app, length_extension. simpl. lia.
Qed.

(** Type, length and contents of the extension that starts at [length pre]. *)
Lemma extension_at pre e rest :
  u16_ok e.1 → len e.2 < 65536 →
  be16 (pre ++ extension e ++ rest) (length pre) = Found (Z.to_nat e.1) ∧
  be16 (pre ++ extension e ++ rest) (length pre + 2) = Found (length e.2) ∧
  get_range (pre ++ extension e ++ rest) (length pre + 4) (length pre + 4 + length e.2) = Found e.2.
Proof.
  intros Ht Hl. unfold extension. rewrite <- !app_assoc. split; [by apply be16_mid|].
  rewrite (app_assoc pre). split.
  - rewrite be16_mid by (rewrite ?length_app, ?length_to_be_bytes; unfold in_width, len in *; lia).
    unfold len. by rewrite Nat2Z.id.
  - rewrite (app_assoc (pre ++ _)).
    apply get_range_mid; rewrite !length_app, !length_to_be_bytes; lia.
Qed.

(** The loop over the extensions passes those of another type. *)
Lemma tls_ext_loop_finds before sni after pre fuel ext_end :
  Forall (fun e => u16_ok e.1 ∧ e.1 ≠ 0) before →
  len (ext_list before ++ extension (0, sni) ++ after) < 65536 →
  (length pre + length (ext_list before ++ extension (0%Z, sni)) ≤ ext_end)%nat →
  (length before < fuel)%nat →
  tls_ext_loop fuel (pre ++ ext_list before ++ extension (0, sni) ++ after) (length pre) ext_end
  = parse_sni_extension sni.
Proof.
  intros Hb. revert pre fuel.
  induction Hb as [|[t d] before [Ht Hz] Hb IH]; intros pre fuel Hl He Hf;
    (destruct fuel as [|fuel]; [simpl in Hf; lia|]); cbn [tls_ext_loop].
  - change (ext_list []) with (@nil byte) in *. rewrite !app_nil_l in *.
    unfold len in Hl. rewrite length_app, length_extension in Hl. rewrite length_extension in He.
    cbn [fst snd] in *.
    destruct (extension_at pre (0, sni) after) as (H1 & H2 & H3);
      [cbn; unfold in_width; lia | cbn; unfold len; lia|]. cbn [fst snd] in *.
    rewrite (proj2 (Nat.leb_le _ _)) by lia. rewrite H1, H2. cbn [bind_outcome].
    change (Z.to_nat 0 =? 0)%nat with true. cbn iota. by rewrite H3.
  - change (ext_list ((t, d) :: before)) with (extension (t, d) ++ ext_list before) in *.
    rewrite <- !app_assoc in *. cbn [fst snd] in Ht, Hz.
    pose proof Hl as Hl'. unfold len in Hl'. rewrite length_app, length_extension in Hl'.
    rewrite length_app, length_extension in He. cbn [fst snd] in *.
    destruct (extension_at pre (t, d) (ext_list before ++ extension (0, sni) ++ after))
      as (H1 & H2 & _); [done | cbn; unfold len; lia|]. cbn [fst snd] in *.
    rewrite (proj2 (Nat.leb_le _ _)) by lia. rewrite H1, H2. cbn [bind_outcome].
    rewrite (proj2 (Nat.eqb_neq _ _)) by (unfold in_width in Ht; lia).
    replace (length pre + 4 + length d)%nat with (length (pre ++ extension (t, d)))
      by (rewrite length_app, length_extension; simpl; lia).
    rewrite (app_assoc pre). apply IH.
    + unfold len. lia.
    + rewrite length_app, length_extension. simpl. lia.
    + simpl in Hf. lia.
Qed.

(** Positions of the cipher list, the compression list and the extensions. *)
Definition pos_ciphers (c : ClientHello) : nat := (35 + length (ch_session c))%nat.
Definition pos_compression (c : ClientHello) : nat := (pos_ciphers c + 2 + length (ch_ciphers c))%nat.
Definition pos_exts (c : ClientHello) : nat :=
  (pos_compression c + 1 + length (ch_compression c) + 2)%nat.

Definition ch_prefix (c : ClientHello) : bytes :=
  ch_head c ++ [byte_of_Z (len (ch_session c))] ++ ch_session c
  ++ to_be_bytes 2 (len (ch_ciphers c)) ++ ch_ciphers c
  ++ [byte_of_Z (len (ch_compression c))] ++ ch_compression c
  ++ to_be_bytes 2 (len (ch_exts c)).

Lemma ch_body_prefix c : ch_body c = ch_prefix c ++ ch_exts c.
Proof. unfold ch_body, ch_prefix. by rewrite <- !app_assoc. Qed.

Lemma length_ch_prefix c : hello_ok c → length (ch_prefix c) = pos_exts c.
Proof.
  intros Hok. unfold ch_prefix. rewrite !length_app, !length_to_be_bytes, ok_head by done.
  unfold pos_exts, pos_compression, pos_ciphers. simpl. lia.
Qed.

Lemma nat_of_byte n : Z.of_nat n < 256 → nat_of (byte_of_Z (Z.of_nat n)) = n.
Proof. intros H. unfold nat_of. rewrite byte_to_of_Z, Z.mod_small by lia. lia. Qed.

(** What the walk reads at these positions. *)
Lemma hello_fields_at c :
  hello_ok c → len (ch_body c) < 65536 →
  get_byte (ch_body c) 34 = Found (byte_of_Z (len (ch_session c))) ∧
  be16 (ch_body c) (pos_ciphers c) = Found (length (ch_ciphers c)) ∧
  idx (ch_body c) (pos_compression c) = Found (byte_of_Z (len (ch_compression c))) ∧
  be16 (ch_body c) (pos_exts c - 2) = Found (length (ch_exts c)).
Proof.
  intros Hok Hl. pose proof (ok_head _ Hok) as Hhead.
  assert (Hcat : len (ch_ciphers c) < 65536 ∧ len (ch_exts c) < 65536).
  { unfold len, ch_body in *. rewrite !length_app in Hl. lia. }
  assert (Hbe : ∀ (d : bytes) pre rest i, i = length pre → len d < 65536 →
            be16 (pre ++ to_be_bytes 2 (len d) ++ rest) i = Found (length d)).
  { intros d pre rest i Hi Hd. rewrite be16_mid; unfold in_width, len in *;
      [by rewrite Nat2Z.id | done | lia]. }
  unfold pos_exts, pos_compression, pos_ciphers, ch_body, get_byte. repeat split.
  - by rewrite lookup_app_r, Hhead by lia.
  - rewrite (app_assoc (ch_head c)). do 1 rewrite (app_assoc (_ ++ _)). apply Hbe; [|lia].
    rewrite !length_app, Hhead. simpl. lia.
  - rewrite (app_assoc (ch_head c)). do 3 rewrite (app_assoc (_ ++ _)). apply idx_mid.
    rewrite !length_app, Hhead, length_to_be_bytes. simpl. lia.
  - rewrite (app_assoc (ch_head c)). do 5 rewrite (app_assoc (_ ++ _)). apply Hbe; [|lia].
    rewrite !length_app, Hhead, length_to_be_bytes. simpl. lia.
Qed.

Lemma hello_extensions_finds c :
  hello_ok c → len (ch_body c) < 65536 →
  hello_extensions (ch_body c) = Found (pos_exts c, length (ch_body c)).
Proof.
  intros Hok Hl. destruct (hello_fields_at c Hok Hl) as (B1 & B2 & B3 & B4).
  assert (LB : length (ch_body c) = (pos_exts c + length (ch_exts c))%nat)
    by (rewrite ch_body_prefix, length_app, length_ch_prefix by done; lia).
  assert (P : (pos_exts c = pos_compression c + 1 + length (ch_compression c) + 2
               ∧ pos_compression c = pos_ciphers c + 2 + length (ch_ciphers c)
               ∧ pos_ciphers c = 35 + length (ch_session c))%nat) by done.
  unfold hello_extensions. cbv zeta.
  rewrite (proj2 (Nat.ltb_ge _ _)), B1 by lia. cbn [bind_outcome].
  unfold len. rewrite nat_of_byte by apply Hok.
  replace (34 + (1 + length (ch_session c)))%nat with (pos_ciphers c) by lia.
  rewrite (proj2 (Nat.ltb_ge _ _)), B2 by lia. cbn [bind_outcome].
  replace (pos_ciphers c + (2 + length (ch_ciphers c)))%nat with (pos_compression c) by lia.
  rewrite (proj2 (Nat.leb_gt _ _)), B3 by lia. cbn [bind_outcome].
  unfold len. rewrite nat_of_byte by apply Hok.
  replace (pos_compression c + (1 + length (ch_compression c)))%nat with (pos_exts c - 2)%nat by lia.
  rewrite (proj2 (Nat.ltb_ge _ _)), B4 by lia. cbn [bind_outcome].
  rewrite (proj2 (Nat.ltb_ge _ _)) by lia. do 2 f_equal; lia.
Qed.

(** The three length bytes of a handshake message. *)
Lemma u24_be l : 0 <= l < 2 ^ 24 →
  match to_be_bytes 3 l with [a; b; c] => u24 a b c = Z.to_nat l | _ => False end.
Proof.
  intros Hl. cbn [to_be_bytes]. unfold u24. rewrite !byte_to_of_Z. f_equal.
  change (256 ^ Z.of_nat 2) with (2 ^ 16). change (256 ^ Z.of_nat 1) with (2 ^ 8).
  change (256 ^ Z.of_nat 0) with (2 ^ 0). change 256 with (2 ^ 8).
  rewrite <- !Z.shiftr_div_pow2, <- !Z.land_ones by lia.
  assert (Hhi : ∀ n, 24 <= n → Z.testbit l n = false).
  { intros n Hn. destruct (Z.eq_dec l 0) as [->|]; [apply Z.testbit_0_l|].
    apply Z.bits_above_log2; [lia|]. apply Z.lt_le_trans with 24; [|lia].
    apply Z.log2_lt_pow2; lia. }
  apply Z.bits_inj'. intros n Hn.
  rewrite !Z.lor_spec, !Z.shiftl_spec, !Z.land_spec by lia.
  destruct (Z.ltb_spec n 8), (Z.ltb_spec n 16), (Z.ltb_spec n 24);
    rewrite ?(Z.testbit_neg_r _ (n - 16)), ?(Z.testbit_neg_r _ (n - 8)) by lia;
    rewrite ?Z.land_spec, ?Z.shiftr_spec, ?Z.ones_spec_low, ?Z.ones_spec_high by lia;
    cbn [andb orb]; rewrite ?andb_false_r, ?andb_true_r, ?orb_false_r;
    try (f_equal; lia); rewrite Hhi; done.
Qed.

Lemma to_be_bytes_3 l : ∃ a b c, to_be_bytes 3 l = [a; b; c].
Proof. cbn. by eexists _, _, _. Qed.

(** The handshake message inside its record. *)
Lemma parse_tls_sni_record v c rest :
  hello_ok c → 0x0300 <= v <= 0x0303 →
  parse_tls_sni (ch_record v c ++ rest)
  = let! '(pos, extensions_end) := hello_extensions (ch_body c) in
    tls_ext_loop (S (length (ch_body c))) (ch_body c) pos extensions_end.
Proof.
  intros Hok Hv. pose proof (ok_size _ Hok) as Hsize.
  assert (Hb : length (ch_handshake c) = (4 + length (ch_body c))%nat)
    by (unfold ch_handshake; rewrite !length_app, length_to_be_bytes; simpl; lia).
  destruct (to_be_bytes_3 (len (ch_body c))) as (a & b & d & H3).
  pose proof (u24_be (len (ch_body c)) ltac:(unfold len in *; lia)) as Hu. rewrite H3 in Hu.
  unfold len in Hu. rewrite Nat2Z.id in Hu.
  unfold ch_record, parse_tls_sni. rewrite <- !app_assoc.
  rewrite (proj2 (Nat.ltb_ge _ _)) by (rewrite !length_app, !length_to_be_bytes; simpl; lia).
  change (idx ([Byte.x16] ++ _) 0) with (Found Byte.x16). cbn [bind_outcome].
  change (negb (byte_to_Z Byte.x16 =? 22)) with false. cbn iota.
  rewrite be16_mid by (done || unfold in_width; lia). cbn [bind_outcome].
  rewrite Z2Nat.id, (proj2 (Z.leb_le _ _)), (proj2 (Z.leb_le v _)) by lia. cbn [negb andb].
  rewrite (app_assoc [Byte.x16]), be16_mid by (done || unfold in_width, len in *; lia).
  unfold len at 1. rewrite Nat2Z.id. cbn [bind_outcome].
  rewrite (app_assoc (_ ++ _)), get_range_mid by done. cbn [bind_outcome].
  rewrite (proj2 (Nat.eqb_neq _ _)), (proj2 (Nat.ltb_ge _ _)) by lia.
  unfold ch_handshake. rewrite H3.
  change (idx ([Byte.x01] ++ _) 0) with (Found Byte.x01).
  change (idx ([Byte.x01] ++ _) 1) with (Found a).
  change (idx ([Byte.x01] ++ _) 2) with (Found b).
  change (idx ([Byte.x01] ++ _) 3) with (Found d). cbn [bind_outcome].
  change (negb (byte_to_Z Byte.x01 =? 1)) with false. cbn iota.
  pose proof (get_range_mid ([Byte.x01] ++ [a; b; d]) (ch_body c) [] 4 _ eq_refl eq_refl) as Hg.
  rewrite app_nil_r, <- app_assoc in Hg. rewrite Hu. change (length (_ ++ _)) with 4%nat in Hg.
  by rewrite Hg.
Qed.

Lemma parse_tls_sni_finds v c rest :
  hello_ok c → 0x0300 <= v <= 0x0303 →
  parse_tls_sni (ch_record v c ++ rest) = Found (ch_host c).
Proof.
  intros Hok Hv. rewrite parse_tls_sni_record by done.
  pose proof (ok_size _ Hok) as Hsize.
  assert (Hl : len (ch_body c) < 65536)
    by (unfold len, ch_handshake in *; rewrite !length_app in Hsize; lia).
  rewrite hello_extensions_finds by done. cbn [bind_outcome].
  rewrite <- length_ch_prefix, ch_body_prefix by done.
  assert (He : ch_exts c = ext_list (ch_before c) ++ extension (0, ch_sni c) ++ ext_list (ch_after c)).
  { unfold ch_exts. rewrite ext_list_app. done. }
  assert (HL : len (ch_exts c) < 65536)
    by (rewrite ch_body_prefix in Hl; unfold len in *; rewrite length_app in Hl; lia).
  rewrite He. rewrite He in HL. pose proof HL as HL'. unfold len in HL'.
  rewrite !length_app, length_extension in HL'. cbn [fst snd] in HL'.
  rewrite tls_ext_loop_finds; [|apply Hok|done| |].
  - apply parse_sni_extension_finds; [apply Hok | apply Hok |]. change (len (ch_sni c) < 65536). unfold len. lia.
  - rewrite !length_app. lia.
  - pose proof (length_ext_list (ch_before c)). rewrite !length_app. lia.
Qed.

(** ** Theorems *)

(** Whatever the first bytes of a connection are, the sniffer neither
    indexes out of range nor loops: [from_data] always returns, and its domain
    is the host that [sniff] found, or none when it found nothing. *)
Theorem sniff_never_panics data :
  ∃ r, from_data data = Some r ∧ sniff data = of_option (domain r).
Proof.
  destruct (sniff_safe data) as [H1 H2]. unfold from_data.
  destruct (sniff data); [by eexists.. | done | done].
Qed.

(** C37: the server name of a well-formed TLS ClientHello is found, whatever
    extensions, other name entries and trailing bytes surround it. *)
Theorem sniff_finds_server_name v c rest :
  hello_ok c → 0x0300 <= v <= 0x0303 →
  sniff (ch_record v c ++ rest) = Found (ch_host c).
Proof. intros Hok Hv. unfold sniff. by rewrite parse_tls_sni_finds. Qed.

Definition example_hello : ClientHello := {|
  ch_head := repeat Byte.x03 34;
  ch_session := [Byte.x01; Byte.x02];
  ch_ciphers := [Byte.x13; Byte.x01];
  ch_compression := [Byte.x00];
  ch_before := [(10, [Byte.x00; Byte.x02; Byte.x00; Byte.x1d])];
  ch_names := [(Byte.x05, [Byte.x41])];
  ch_host := "example.com";
  ch_more_names := [];
  ch_after := [(16, [Byte.x00])]
|}.

Lemma sniff_finds_server_name_witness :
  sniff (ch_record 0x0301 example_hello ++ as_bytes "tail") = Found "example.com".
Proof.
  apply (sniff_finds_server_name 0x0301 example_hello); [|lia].
  split; try reflexivity.
  - apply List.Forall_cons; [simpl; unfold in_width; lia | apply List.Forall_nil].
  - apply List.Forall_cons; [simpl; discriminate | apply List.Forall_nil].
Defined.
