(* ===== verification/Wire.v ===== *)
(** * Packet buffers and the Internet checksum

    What the builders of packets share: writes into a zeroed buffer at fixed
    places, which panic outside it, and the one's-complement sum of RFC 1071 that
    both [proxy/inbound/icmp.rs] and [proxy/inbound/dns_hijack.rs] compute. *)

From S2P Require Import Prelude Outcome.

Local Open Scope Z_scope.

(** ** One's-complement sums

    The sums are [u32]s; their loop over the data takes two bytes at a time. *)

Fixpoint sum_words (data : bytes) (sum : Z) : Z :=
  match data with
  | a :: b :: rest => sum_words rest (wrap 32 (sum + from_be_bytes [a; b]))
  | [a] => wrap 32 (sum + wrap 32 (Z.shiftl (byte_to_Z a) 8))
  | [] => sum
  end.

(** [while sum >> 16 != 0 { sum = (sum & 0xFFFF) + (sum >> 16); }] *)
Fixpoint fold_carry (fuel : nat) (sum : Z) : option Z :=
  if Z.shiftr sum 16 =? 0 then Some sum else
  match fuel with
  | O => None
  | S fuel => fold_carry fuel (wrap 32 (Z.land sum 0xFFFF + Z.shiftr sum 16))
  end.
(** Three turns are enough for a [u32] ([fold_carry_spec]). *)
Definition carry_fuel : nat := 3.
(** [!(sum as u16)] *)
Definition complement (sum : Z) : Z := 0xFFFF - wrap 16 sum.

(** ** Writing packets

    [packet[a..b].copy_from_slice(&src)] on a buffer of bytes: the range must be
    inside the buffer and as long as the source. *)

Definition copy_from_slice (packet : bytes) (a b : nat) (src : bytes) : outcome bytes :=
  if ((a <=? b) && (b <=? length packet) && (length src =? b - a))%nat
  then Found (take a packet ++ src ++ drop b packet) else Panic.
(** [packet[i] = v] *)
Definition set_byte (packet : bytes) (i : nat) (v : Z) : outcome bytes :=
  if (i <? length packet)%nat then Found (<[i := byte_of_Z v]> packet) else Panic.
(** A loop of the checksum that ran out of fuel. *)
Definition fueled (o : option Z) : outcome Z :=
  match o with Some z => Found z | None => OutOfFuel end.

(** ** The one's-complement sum *)

(** The sum of the 16-bit words of the data, without a width. *)
Fixpoint words (data : bytes) : Z :=
  match data with
  | a :: b :: rest => from_be_bytes [a; b] + words rest
  | [a] => byte_to_Z a * 256
  | [] => 0
  end.

Lemma list_two_ind {A} (Q : list A → Prop) :
  Q [] → (∀ a, Q [a]) → (∀ a b l, Q l → Q (a :: b :: l)) → ∀ l, Q l.
Proof.
  intros H0 H1 H2 l. enough (Q l ∧ ∀ a, Q (a :: l)) by tauto.
  induction l as [|x l [IH1 IH2]]; split; auto.
Qed.

Lemma shift8_byte a : wrap 32 (Z.shiftl (byte_to_Z a) 8) = byte_to_Z a * 256.
Proof.
  pose proof (byte_to_Z_range a). rewrite Z.shiftl_mul_pow2 by lia. change (2 ^ 8) with 256.
  apply wrap_small. unfold in_width. lia.
Qed.

Lemma words_range l : 0 <= words l <= 32768 * (len l + 1).
Proof.
  unfold len. induction l as [|a|a b l IH] using list_two_ind; cbn [words length]; [lia|..].
  - pose proof (byte_to_Z_range a). lia.
  - pose proof (from_be2_ok a b). unfold in_width in *. lia.
Qed.

Lemma words_app l l' : Nat.Even (length l) → words (l ++ l') = words l + words l'.
Proof.
  induction l as [|a|a b l IH] using list_two_ind; intros He; [done|..].
  - destruct He as [m Hm]. simpl in Hm. lia.
  - cbn [app words]. rewrite IH; [lia|]. destruct He as [m Hm]. simpl in Hm. exists (m - 1)%nat. lia.
Qed.

Lemma words_be2 z rest : u16_ok z → words (to_be_bytes 2 z ++ rest) = z + words rest.
Proof.
  intros H. rewrite words_app by (exists 1%nat; done). f_equal.
  change (words (to_be_bytes 2 z)) with (from_be_bytes (to_be_bytes 2 z) + 0).
  rewrite from_to_be_2 by done. lia.
Qed.

Lemma sum_words_small data s :
  0 <= s → s + words data < 2 ^ 32 → sum_words data s = s + words data.
Proof.
  revert s. induction data as [|a|a b l IH] using list_two_ind; intros s Hs Hb; cbn [sum_words words] in *.
  - lia.
  - pose proof (byte_to_Z_range a). rewrite shift8_byte. apply wrap_small. unfold in_width. lia.
  - pose proof (from_be2_ok a b) as Hw. unfold in_width in Hw. pose proof (words_range l).
    rewrite wrap_small by (unfold in_width; lia). rewrite IH by lia. lia.
Qed.

Lemma carry_step s :
  0 <= s < 2 ^ 32 →
  let s' := wrap 32 (Z.land s 0xFFFF + Z.shiftr s 16) in
  s' = s mod 65536 + s / 65536 ∧ s = 65535 * (s / 65536) + s'.
Proof.
  intros H s'. change 0xFFFF with (Z.ones 16) in s'. subst s'.
  rewrite Z.land_ones, Z.shiftr_div_pow2 by lia. change (2 ^ 16) with 65536.
  pose proof (Z.mod_pos_bound s 65536 ltac:(lia)). pose proof (Z.div_mod s 65536 ltac:(lia)).
  assert (0 <= s / 65536 < 65536) by (split; [apply Z.div_pos | apply Z.div_lt_upper_bound]; lia).
  rewrite wrap_small by (unfold in_width; lia). lia.
Qed.

(** A sum is folded to 16 bits in three turns: the result is congruent to it
    modulo 65535, and zero only for zero. *)
Lemma fold_carry_spec s :
  0 <= s < 2 ^ 32 →
  ∃ v, fold_carry carry_fuel s = Some v ∧ u16_ok v
     ∧ (v = 0 ↔ s = 0) ∧ ∃ q, s = 65535 * q + v.
Proof.
  unfold carry_fuel.
  assert (Hgen : ∀ n s, 0 <= s < 2 ^ 32 →
    (s < 65536 ∨ n ≠ O ∧ s <= 65536 ∨ (2 ≤ n)%nat ∧ s <= 131070 ∨ (3 ≤ n)%nat) →
    ∃ v, fold_carry n s = Some v ∧ u16_ok v ∧ (v = 0 ↔ s = 0) ∧ ∃ q, s = 65535 * q + v).
  { induction n as [|n IH]; intros t Ht Hn.
    - exists t. assert (Hlt : t < 65536) by lia. simpl. rewrite Z.shiftr_div_pow2 by lia.
      rewrite (Z.div_small t) by lia. split_and!; [done|unfold in_width; lia|done|]. exists 0. lia.
    - simpl. rewrite (Z.shiftr_div_pow2 t 16) by lia. change (2 ^ 16) with 65536.
      destruct (Z.eqb_spec (t / 65536) 0) as [Hz|Hz].
      + pose proof (Z.div_mod t 65536 ltac:(lia)). pose proof (Z.mod_pos_bound t 65536 ltac:(lia)).
        exists t. split_and!; [done|unfold in_width; lia|done|]. exists 0. lia.
      + destruct (carry_step t Ht) as [E1 E2]. rewrite (Z.shiftr_div_pow2 t 16) in * by lia.
        change (2 ^ 16) with 65536 in *. set (t' := wrap 32 _) in *.
        pose proof (Z.mod_pos_bound t 65536 ltac:(lia)). pose proof (Z.div_mod t 65536 ltac:(lia)).
        assert (0 <= t / 65536 < 65536) by (split; [apply Z.div_pos | apply Z.div_lt_upper_bound]; lia).
        destruct (IH t') as (v & -> & Hv & Hv0 & q & Eq); [lia| |].
        { destruct n as [|[|n]]; [left|right; left|right; right; left]; lia. }
        exists v. split_and!; [done|done| |].
        * rewrite Hv0. split; lia.
        * exists (t / 65536 + q). lia. }
  intros Hs. apply Hgen; [done|lia].
Qed.

(** A sum to which its complement is added checks to zero. *)
Lemma complement_cancels s :
  0 <= s < 2 ^ 32 - 65536 →
  ∃ c, complement <$> fold_carry carry_fuel s = Some c ∧ u16_ok c
     ∧ complement <$> fold_carry carry_fuel (s + c) = Some 0.
Proof.
  intros Hs. destruct (fold_carry_spec s) as (v & Ev & Hv & Hv0 & q & Hq); [lia|].
  rewrite Ev. cbn [fmap option_fmap option_map]. unfold complement. rewrite (wrap_small 16 v) by done.
  exists (0xFFFF - v). unfold in_width in *. split_and!; [done|lia..|].
  destruct (fold_carry_spec (s + (0xFFFF - v))) as (w & -> & Hw & Hw0 & q' & Hq'); [lia|].
  cbn [fmap option_fmap option_map]. f_equal. rewrite wrap_small by (unfold in_width in *; lia). unfold in_width in *.
  assert (65535 * (q + 1 - q') = w) by lia. nia.
Qed.

(** The complemented sum of a block. *)
Definition inet_sum (data : bytes) : option Z :=
  complement <$> fold_carry carry_fuel (sum_words data 0).

(** The checksum written over a zero word at an even place makes the whole check
    to zero. *)
Lemma inet_sum_verifies pre post :
  Nat.Even (length pre) → len pre + len post < 100000 →
  ∃ c, inet_sum (pre ++ [Byte.x00; Byte.x00] ++ post) = Some c ∧ u16_ok c
     ∧ inet_sum (pre ++ to_be_bytes 2 c ++ post) = Some 0.
Proof.
  intros He Hlen. pose proof (words_range pre). pose proof (words_range post).
  unfold inet_sum. pose proof (len_nonneg pre). pose proof (len_nonneg post).
  destruct (complement_cancels (words pre + words post)) as (c & Ec & Hc & Ez); [lia|].
  exists c. assert (Hc' := Hc). unfold in_width in Hc'. change (2 ^ 16) with 65536 in Hc'.
  assert (W0 : words (pre ++ [Byte.x00; Byte.x00] ++ post) = words pre + words post)
    by (by rewrite words_app).
  assert (W1 : words (pre ++ to_be_bytes 2 c ++ post) = words pre + words post + c)
    by (rewrite words_app, words_be2 by done; lia).
  rewrite !sum_words_small, W0, W1, !Z.add_0_l by lia. done.
Qed.

(** ** Replaying writes *)

Lemma copy_from_slice_mid pre m post src a b :
  a = length pre → b = (length pre + length m)%nat → length src = length m →
  copy_from_slice (pre ++ m ++ post) a b src = Found (pre ++ src ++ post).
Proof.
  intros -> -> Hs. unfold copy_from_slice. rewrite !length_app.
  destruct (Nat.leb_spec (length pre) (length pre + length m)); [|lia].
  destruct (Nat.leb_spec (length pre + length m) (length pre + (length m + length post))); [|lia].
  destruct (Nat.eqb_spec (length src) (length pre + length m - length pre)); [|lia]. cbn [andb].
  rewrite take_app_length. do 2 f_equal. f_equal.
  by rewrite (app_assoc pre m post), <- length_app, drop_app_length.
Qed.
Lemma set_byte_mid pre x post i v :
  i = length pre → set_byte (pre ++ x :: post) i v = Found (pre ++ byte_of_Z v :: post).
Proof.
  intros ->. unfold set_byte. rewrite length_app. simpl.
  destruct (Nat.ltb_spec (length pre) (length pre + S (length post))); [|lia].
  rewrite <- (Nat.add_0_r (length pre)) at 1. by rewrite insert_app_r.
Qed.
Lemma slice_tail (pre post : bytes) : slice (pre ++ post) (length pre) (length (pre ++ post)) = post.
Proof. unfold slice. rewrite drop_app_length, take_ge; [done|]. rewrite length_app. lia. Qed.
Lemma idx_range_tail pre post b :
  b = length (pre ++ post) → idx_range (pre ++ post) (length pre) b = Found post.
Proof.
  intros ->. rewrite idx_range_found by (rewrite ?length_app; lia). by rewrite slice_tail.
Qed.

(** The end of the payload copy: the whole tail is overwritten. *)
Lemma copy_from_slice_tail pre post src a b :
  a = length pre → b = (length pre + length src)%nat → length src = length post →
  copy_from_slice (pre ++ post) a b src = Found (pre ++ src).
Proof.
  intros -> -> Hs. rewrite <- (app_nil_r post). rewrite copy_from_slice_mid by (by rewrite ?Hs).
  by rewrite app_nil_r.
Qed.

(** Replay the writes into a buffer whose first [n] bytes are known one by one
    and whose tail takes the payload. *)
Ltac replay := cbn -[byte_of_Z wrap idx_range fueled Z.div Z.pow Z.of_nat].
Ltac fill_payload n :=
  match goal with
  | |- context [copy_from_slice ?l n ?b ?p] =>
      let pre := eval cbv [take] in (take n l) in
      change l with (pre ++ replicate (length p) Byte.x00);
      rewrite (copy_from_slice_tail pre (replicate (length p) Byte.x00) p n b)
        by (cbn; rewrite ?length_replicate; reflexivity)
  end; cbn [bind_outcome].
(** Keep the right-hand side folded while the left is computed. *)
Ltac hide_rhs :=
  match goal with
  | |- _ = ?R => let r := fresh "rhs" in let E := fresh "Erhs" in remember R as r eqn:E
  end.
(** The same, when the data behind the header is read back next. *)
Ltac replay_payload n :=
  fill_payload n;
  match goal with
  | |- context [idx_range ?l ?a ?b] =>
      let pre := eval cbv [take app] in (take a l) in
      let post := eval cbv [drop app] in (drop a l) in
      change (idx_range l a b) with (idx_range (pre ++ post) (length pre) b);
      rewrite (idx_range_tail pre post b) by reflexivity
  end; cbn [bind_outcome].
