(* ===== verification/Packet.v ===== *)
(** * Packets of the TUN device ([src/src/proxy/inbound/tun_device.rs])

    The IP header parser, the tracker of TCP flows, the table of UDP sessions,
    the DNS-hijack and ICMP policies that are decided on a parsed packet, and the
    ICMP types.  Packets are lists of bytes, every index of the source is one
    that can panic.  [Fragment] reassembles fragments, [Icmp] answers echoes. *)

From S2P Require Import Prelude RustStr Addr Outcome.

Local Open Scope string_scope.
Local Open Scope list_scope.
Local Open Scope Z_scope.

(** ** Parsed packets *)

Module IpProtocol.
Inductive proto :=
| Tcp
| Udp
| Icmp
| Other (n : Z).
#[global] Instance proto_eq_dec : EqDecision proto.
Proof. solve_decision. Defined.
Definition from_number (n : Z) : proto :=
  if (n =? 1) || (n =? 58) then Icmp
  else if n =? 6 then Tcp
  else if n =? 17 then Udp
  else Other n.
(** [matches!(protocol, IpProtocol::Tcp | IpProtocol::Udp)] *)
Definition has_ports (p : proto) : bool :=
  match p with Tcp | Udp => true | _ => false end.
End IpProtocol.

Record ParsedPacket := mkParsed {
  version : Z;
  protocol : IpProtocol.proto;
  src_ip : IpAddr;
  dst_ip : IpAddr;
  src_port : Z;
  dst_port : Z;
  payload_offset : nat;
  total_len : nat;
}.

Inductive packet_error :=
| EmptyPacket
| UnsupportedVersion (v : Z)
| Ipv4TooShort (n : nat)
| InvalidIhl (ihl : nat)
| Ipv6TooShort (n : nat).

(** [Ipv4Addr::new(data[i], data[i+1], data[i+2], data[i+3])] *)
Definition idx_ipv4 (data : bytes) (i : nat) : outcome IpAddr :=
  let! a := idx data i in
  let! b := idx data (i + 1) in
  let! c := idx data (i + 2) in
  let! d := idx data (i + 3) in
  Found (V4 (from_be_bytes [a; b; c; d])).
(** [copy_from_slice(&data[i..i+16])] into an array of 16 bytes. *)
Definition idx_ipv6 (data : bytes) (i : nat) : outcome IpAddr :=
  let! s := idx_range data i (i + 16) in Found (V6 (from_be_bytes s)).

(** The ports at the start of the transport header. *)
Definition parse_ports (data : bytes) (p : IpProtocol.proto) (off : nat) : outcome (Z * Z) :=
  if ((off + 4 <=? length data)%nat && IpProtocol.has_ports p) then
    let! s := idx_be16 data off (off + 1) in
    let! d := idx_be16 data (off + 2) (off + 3) in
    Found (s, d)
  else Found (0, 0).

Definition parse_ipv4_packet (data : bytes) : outcome (result packet_error ParsedPacket) :=
  if (length data <? 20)%nat then Found (Err (Ipv4TooShort (length data))) else
  let! b0 := idx data 0 in
  let ihl := (Z.to_nat (Z.land (byte_to_Z b0) 15) * 4)%nat in
  if ((ihl <? 20) || (length data <? ihl))%nat then Found (Err (InvalidIhl ihl)) else
  let! total := idx_be16 data 2 3 in
  let! protocol_num := idx data 9 in
  let protocol := IpProtocol.from_number (byte_to_Z protocol_num) in
  let! src := idx_ipv4 data 12 in
  let! dst := idx_ipv4 data 16 in
  let! ports := parse_ports data protocol ihl in
  Found (Ok (mkParsed 4 protocol src dst ports.1 ports.2 ihl (Z.to_nat total))).

Definition parse_ipv6_packet (data : bytes) : outcome (result packet_error ParsedPacket) :=
  if (length data <? 40)%nat then Found (Err (Ipv6TooShort (length data))) else
  let! payload_len := idx_be16 data 4 5 in
  let! next_header := idx data 6 in
  let protocol := IpProtocol.from_number (byte_to_Z next_header) in
  let! src := idx_ipv6 data 8 in
  let! dst := idx_ipv6 data 24 in
  let l4_offset := 40%nat in
  let! ports := parse_ports data protocol l4_offset in
  Found (Ok (mkParsed 6 protocol src dst ports.1 ports.2 l4_offset
               (40 + Z.to_nat payload_len))).

Definition parse_ip_packet (data : bytes) : outcome (result packet_error ParsedPacket) :=
  if (length data =? 0)%nat then Found (Err EmptyPacket) else
  let! b0 := idx data 0 in
  let v := Z.shiftr (byte_to_Z b0) 4 in
  if v =? 4 then parse_ipv4_packet data
  else if v =? 6 then parse_ipv6_packet data
  else Found (Err (UnsupportedVersion v)).

(** ** Flow keys and the TCP flow tracker *)

(** [TcpFlowKey] and [UdpSessionKey] have the same four fields. *)
Record FlowKey := mkFlow {
  fk_src_ip : IpAddr;
  fk_dst_ip : IpAddr;
  fk_src_port : Z;
  fk_dst_port : Z;
}.
#[export] Instance FlowKey_eq_dec : EqDecision FlowKey.
Proof. solve_decision. Defined.
#[export] Instance FlowKey_countable : Countable FlowKey.
Proof.
  refine (inj_countable'
    (fun k => (fk_src_ip k, fk_dst_ip k, fk_src_port k, fk_dst_port k))
    (fun '(a, b, c, d) => mkFlow a b c d) _).
  by intros [].
Defined.
Definition reverse (k : FlowKey) : FlowKey :=
  mkFlow (fk_dst_ip k) (fk_src_ip k) (fk_dst_port k) (fk_src_port k).

Inductive TcpState :=
| SynSent | SynReceived | Established | FinWait1 | FinWait2
| CloseWait | Closing | LastAck | TimeWait | Closed.

Record TcpFlowState := mkTcpFlow {
  tf_state : TcpState;
  tf_seq : Z;
  tf_ack : Z;
  data_buf : bytes;
}.
Abbreviation TcpReassembler := (gmap FlowKey TcpFlowState).

Module Tcp.
Definition track_syn (key : FlowKey) (seq : Z) (r : TcpReassembler) : TcpReassembler :=
  <[key := mkTcpFlow SynSent seq 0 []]> r.
Definition track_synack (key : FlowKey) (seq ack : Z) (r : TcpReassembler) : TcpReassembler :=
  <[key := mkTcpFlow Established seq ack []]> r.
Definition push_data (key : FlowKey) (data : bytes) (r : TcpReassembler) : bool * TcpReassembler :=
  match r !! key with
  | Some f => (true, <[key := mkTcpFlow (tf_state f) (tf_seq f) (tf_ack f) (data_buf f ++ data)]> r)
  | None => (false, r)
  end.
Definition take_data (key : FlowKey) (r : TcpReassembler) : option bytes * TcpReassembler :=
  match r !! key with
  | Some f =>
      match data_buf f with
      | [] => (None, r)
      | d => (Some d, <[key := mkTcpFlow (tf_state f) (tf_seq f) (tf_ack f) []]> r)
      end
  | None => (None, r)
  end.
Definition close (key : FlowKey) (r : TcpReassembler) : bool * TcpReassembler :=
  (bool_decide (is_Some (r !! key)), delete key r).
Definition connection_count (r : TcpReassembler) : nat := size r.
Definition get_state (key : FlowKey) (r : TcpReassembler) : option TcpState :=
  tf_state <$> r !! key.
End Tcp.

(** ** UDP sessions

    Clock readings are nanoseconds; [track_packet] reads the clock once for the
    packet and [evict_idle] once more. *)

Record UdpSessionState := mkUdpState {
  created_at : Z;
  last_active : Z;
  packets_sent : Z;
  packets_recv : Z;
  bytes_sent : Z;
  bytes_recv : Z;
}.
Record UdpSessionManager := mkUdpMgr {
  sessions : gmap FlowKey UdpSessionState;
  max_sessions : nat;
  idle_timeout_secs : Z;
}.

Module Udp.
Definition new (max : nat) (idle : Z) : UdpSessionManager := mkUdpMgr ∅ max idle.
Definition set_sessions (s : gmap FlowKey UdpSessionState) (m : UdpSessionManager) : UdpSessionManager :=
  mkUdpMgr s (max_sessions m) (idle_timeout_secs m).
(** [now.duration_since(state.last_active) < timeout] *)
Definition fresh (now : Z) (m : UdpSessionManager) (st : UdpSessionState) : bool :=
  saturating_sub now (last_active st) <? idle_timeout_secs m * 1000000000.
Definition evict_idle (now : Z) (m : UdpSessionManager) : nat * UdpSessionManager :=
  let kept := filter (fun kv : FlowKey * UdpSessionState => fresh now m kv.2 = true) (sessions m) in
  ((size (sessions m) - size kept)%nat, set_sessions kept m).

Definition packet_key (p : ParsedPacket) : FlowKey :=
  mkFlow (src_ip p) (dst_ip p) (src_port p) (dst_port p).
Definition track_packet (now now_evict : Z) (p : ParsedPacket) (payload_len : Z)
    (m : UdpSessionManager) : bool * UdpSessionManager :=
  if negb (bool_decide (protocol p = IpProtocol.Udp)) then (false, m) else
  let key := packet_key p in
  match sessions m !! key with
  | Some st =>
      (false, set_sessions (<[key := mkUdpState (created_at st) now
                                      (wrap 64 (packets_sent st + 1)) (packets_recv st)
                                      (wrap 64 (bytes_sent st + payload_len)) (bytes_recv st)]>
                             (sessions m)) m)
  | None =>
      let m := if (max_sessions m <=? size (sessions m))%nat then (evict_idle now_evict m).2 else m in
      (true, set_sessions (<[key := mkUdpState now now 1 0 payload_len 0]> (sessions m)) m)
  end.

Definition track_reply (now : Z) (key : FlowKey) (payload_len : Z) (m : UdpSessionManager)
    : bool * UdpSessionManager :=
  match sessions m !! key with
  | Some st =>
      (true, set_sessions (<[key := mkUdpState (created_at st) now
                                     (packets_sent st) (wrap 64 (packets_recv st + 1))
                                     (bytes_sent st) (wrap 64 (bytes_recv st + payload_len))]>
                            (sessions m)) m)
  | None => (false, m)
  end.
Definition has_session (key : FlowKey) (m : UdpSessionManager) : bool :=
  bool_decide (is_Some (sessions m !! key)).
Definition remove_session (key : FlowKey) (m : UdpSessionManager) : bool * UdpSessionManager :=
  (bool_decide (is_Some (sessions m !! key)), set_sessions (delete key (sessions m)) m).
Definition session_count (m : UdpSessionManager) : nat := size (sessions m).
Definition get_stats (key : FlowKey) (m : UdpSessionManager) : option UdpSessionState :=
  sessions m !! key.
End Udp.

(** ** Decisions on a parsed packet *)

Record DnsHijack := mkHijack {
  hj_enabled : bool;
  listen_port : Z;
  upstream_servers : list string;
  hijack_domains : list string;
}.
Definition DnsHijack_new (enabled : bool) : DnsHijack :=
  mkHijack enabled 53 ["8.8.8.8"; "1.1.1.1"] [].
Definition should_hijack (h : DnsHijack) (p : ParsedPacket) : bool :=
  if negb (hj_enabled h) then false else
  bool_decide (protocol p = IpProtocol.Udp) && (dst_port p =? listen_port h).

Inductive IcmpPolicy := Passthrough | Drop.
Definition IcmpPolicy_from_str (s : string) : IcmpPolicy :=
  let s := to_lowercase s in
  if (s =? "passthrough")%string || (s =? "pass")%string then Passthrough
  else Drop.
Definition should_process (pol : IcmpPolicy) (p : ParsedPacket) : bool :=
  if negb (bool_decide (protocol p = IpProtocol.Icmp)) then true else
  match pol with Passthrough => true | Drop => false end.

Module IcmpType.
Inductive icmp_type :=
| EchoRequest
| EchoReply
| DestinationUnreachable
| TimeExceeded
| Other (n : Z).
Definition from_v4 (n : Z) : icmp_type :=
  if n =? 0 then EchoReply
  else if n =? 3 then DestinationUnreachable
  else if n =? 8 then EchoRequest
  else if n =? 11 then TimeExceeded
  else Other n.
Definition from_v6 (n : Z) : icmp_type :=
  if n =? 1 then DestinationUnreachable
  else if n =? 3 then TimeExceeded
  else if n =? 128 then EchoRequest
  else if n =? 129 then EchoReply
  else Other n.
End IcmpType.

Definition parse_icmp_type (p : ParsedPacket) (data : bytes) : outcome IcmpType.icmp_type :=
  if negb (bool_decide (protocol p = IpProtocol.Icmp)) then Nothing else
  if (length data <=? payload_offset p)%nat then Nothing else
  let! type_byte := idx data (payload_offset p) in
  let n := byte_to_Z type_byte in
  Found (if version p =? 4 then IcmpType.from_v4 n
         else if version p =? 6 then IcmpType.from_v6 n
         else IcmpType.Other n).

(** ** The parser *)

Lemma safe_idx_ipv4 data i : (i + 3 < length data)%nat → safe (idx_ipv4 data i).
Proof. intros H. unfold idx_ipv4. safe_solve. Qed.
Lemma safe_idx_ipv6 data i : (i + 16 ≤ length data)%nat → safe (idx_ipv6 data i).
Proof. intros H. unfold idx_ipv6. safe_solve. Qed.
Lemma safe_parse_ports data p off : safe (parse_ports data p off).
Proof.
  unfold parse_ports. destruct (Nat.leb_spec (off + 4) (length data)); [|done].
  destruct (IpProtocol.has_ports p); [|done]. cbn [andb]. safe_solve.
Qed.
#[export] Hint Resolve safe_parse_ports : rust.

Lemma idx_ipv4_found data i :
  (i + 3 < length data)%nat → idx_ipv4 data i = Found (V4 (from_be_bytes (slice data i (i + 4)))).
Proof.
  intros H. unfold idx_ipv4. idx_eval. do 3 f_equal.
  rewrite !slice_cons by lia. replace (i + 4)%nat with (S (S (S (S i)))) by lia.
  rewrite slice_nil. repeat (f_equal; try lia).
Qed.
Lemma idx_ipv6_found data i :
  (i + 16 ≤ length data)%nat → idx_ipv6 data i = Found (V6 (from_be_bytes (slice data i (i + 16)))).
Proof. intros H. unfold idx_ipv6. by idx_eval. Qed.
Lemma parse_ports_found data p off :
  (off + 4 ≤ length data)%nat → IpProtocol.has_ports p = true →
  parse_ports data p off
  = Found (from_be_bytes [byte_at data off; byte_at data (off + 1)],
           from_be_bytes [byte_at data (off + 2); byte_at data (off + 3)]).
Proof.
  intros H Hp. unfold parse_ports. apply Nat.leb_le in H as H'. rewrite H', Hp. cbn [andb].
  by idx_eval.
Qed.

Lemma returns_idx_ipv4 data i : (i + 3 < length data)%nat → returns (idx_ipv4 data i).
Proof. intros H. rewrite idx_ipv4_found by done. apply returns_found. Qed.
Lemma returns_idx_ipv6 data i : (i + 16 ≤ length data)%nat → returns (idx_ipv6 data i).
Proof. intros H. rewrite idx_ipv6_found by done. apply returns_found. Qed.
Lemma returns_parse_ports data p off : returns (parse_ports data p off).
Proof.
  unfold parse_ports. destruct (Nat.leb_spec (off + 4) (length data)); [|apply returns_found].
  destruct (IpProtocol.has_ports p); [|apply returns_found]. cbn [andb]. repeat returns_step; lia.
Qed.
#[export] Hint Resolve returns_parse_ports : rust.

(** The packet parser is total: a parsed packet or an error for every input. *)
Lemma parse_ip_packet_returns data : returns (parse_ip_packet data).
Proof.
  unfold parse_ip_packet, parse_ipv4_packet, parse_ipv6_packet. cbv zeta.
  repeat first [returns_step | apply returns_idx_ipv4 | apply returns_idx_ipv6]; lia.
Qed.
Lemma parse_ip_packet_total data : safe (parse_ip_packet data).
Proof. apply returns_safe, parse_ip_packet_returns. Qed.

(** A well-formed IPv4 or IPv6 packet, laid out as RFC 791 and RFC 8200 say. *)
Definition ipv4_header (tos total id flags_off ttl proto cksum src dst : Z) (options : bytes) : bytes :=
  [byte_of_Z (0x40 + 5 + len options / 4); byte_of_Z tos] ++ to_be_bytes 2 total
  ++ to_be_bytes 2 id ++ to_be_bytes 2 flags_off ++ [byte_of_Z ttl; byte_of_Z proto]
  ++ to_be_bytes 2 cksum ++ to_be_bytes 4 src ++ to_be_bytes 4 dst ++ options.
Definition ipv6_header (class_flow payload_len proto hops src dst : Z) : bytes :=
  to_be_bytes 4 (0x60000000 + class_flow) ++ to_be_bytes 2 payload_len
  ++ [byte_of_Z proto; byte_of_Z hops] ++ to_be_bytes 16 src ++ to_be_bytes 16 dst.
Definition transport_header (sport dport : Z) (rest : bytes) : bytes :=
  to_be_bytes 2 sport ++ to_be_bytes 2 dport ++ rest.

Lemma length_ipv4_header tos total id fo ttl proto ck src dst options :
  length (ipv4_header tos total id fo ttl proto ck src dst options) = (20 + length options)%nat.
Proof. done. Qed.

(** The first byte of a header gives its version and its length. *)
Lemma ipv4_first_byte (n : Z) :
  0 <= n <= 10 →
  Z.shiftr (byte_to_Z (byte_of_Z (0x40 + 5 + n))) 4 = 4
  ∧ Z.land (byte_to_Z (byte_of_Z (0x40 + 5 + n))) 15 = 5 + n.
Proof.
  intros H.
  assert (Hn : n = 0 ∨ n = 1 ∨ n = 2 ∨ n = 3 ∨ n = 4 ∨ n = 5 ∨ n = 6 ∨ n = 7 ∨ n = 8 ∨ n = 9 ∨ n = 10)
    by lia.
  decompose [or] Hn; subst; by split; vm_compute.
Qed.

Lemma ipv4_header_first tos total id fo ttl proto ck src dst options l4 :
  (length options ≤ 40)%nat → (length options mod 4 = 0)%nat →
  let b := byte_to_Z (byte_at (ipv4_header tos total id fo ttl proto ck src dst options ++ l4) 0) in
  Z.shiftr b 4 = 4 ∧ (Z.to_nat (Z.land b 15) * 4)%nat = (20 + length options)%nat.
Proof.
  intros Hlen Hmod b. change b with (byte_to_Z (byte_of_Z (0x40 + 5 + len options / 4))).
  assert (Hdiv : len options / 4 = Z.of_nat (length options / 4)) by (unfold len; by rewrite Nat2Z.inj_div).
  pose proof (Nat.div_mod_eq (length options) 4).
  destruct (ipv4_first_byte (len options / 4)) as [-> ->]; lia.
Qed.

Lemma transport_ports pre s d rest p off :
  off = length pre → u16_ok s → u16_ok d → IpProtocol.has_ports p = true →
  parse_ports (pre ++ transport_header s d rest) p off = Found (s, d).
Proof.
  intros -> Hs Hd Hp. rewrite parse_ports_found; [|rewrite length_app; cbn; lia|done].
  rewrite byte_at_app_0, !byte_at_app_r. do 2 f_equal; by apply from_to_be_2.
Qed.

Lemma parse_ipv4_header tos total id fo ttl proto ck src dst options l4 :
  u16_ok total → u8_ok proto → u32_ok src → u32_ok dst →
  (length options ≤ 40)%nat → (length options mod 4 = 0)%nat →
  let data := ipv4_header tos total id fo ttl proto ck src dst options ++ l4 in
  let off := (20 + length options)%nat in
  parse_ip_packet data
  = let! ports := parse_ports data (IpProtocol.from_number proto) off in
    Found (Ok (mkParsed 4 (IpProtocol.from_number proto) (V4 src) (V4 dst) ports.1 ports.2
                 off (Z.to_nat total))).
Proof.
  intros Ht Hp Hsrc Hdst Hlen Hmod data off.
  assert (Hdl : length data = (20 + length options + length l4)%nat)
    by (unfold data; by rewrite length_app, length_ipv4_header).
  destruct (ipv4_header_first tos total id fo ttl proto ck src dst options l4 Hlen Hmod) as [Hv Hl].
  fold data in Hv, Hl.
  unfold parse_ip_packet. destruct (Nat.eqb_spec (length data) 0); [lia|]. idx_eval.
  rewrite Hv. change (4 =? 4) with true. cbv iota.
  unfold parse_ipv4_packet. destruct (Nat.ltb_spec (length data) 20); [lia|]. idx_eval.
  rewrite Hl. fold off.
  destruct (Nat.ltb_spec off 20); [lia|]. destruct (Nat.ltb_spec (length data) off); [lia|].
  cbn [orb]. idx_eval. rewrite !idx_ipv4_found by lia. cbn [bind_outcome].
  change (byte_at data 9) with (byte_of_Z proto). rewrite byte_to_of_small by done.
  change (from_be_bytes [byte_at data 2; byte_at data 3]) with (from_be_bytes (to_be_bytes 2 total)).
  change (slice data 12 (12 + 4)) with (to_be_bytes 4 src).
  change (slice data 16 (16 + 4)) with (to_be_bytes 4 dst).
  by rewrite from_to_be_2, !from_to_be_4 by done.
Qed.

Lemma ipv6_header_first cf plen proto hops src dst l4 :
  in_width 28 cf → Z.shiftr (byte_to_Z (byte_at (ipv6_header cf plen proto hops src dst ++ l4) 0)) 4 = 6.
Proof.
  intros Hcf. change (byte_at _ 0) with (byte_of_Z ((0x60000000 + cf) / 256 ^ 3)).
  unfold in_width in Hcf. rewrite byte_to_of_Z, Z.shiftr_div_pow2 by lia.
  assert (96 <= (0x60000000 + cf) / 256 ^ 3 < 112) by
    (split; [apply Z.div_le_lower_bound | apply Z.div_lt_upper_bound]; lia).
  rewrite Z.mod_small by lia. symmetry.
  apply Z.div_unique with ((0x60000000 + cf) / 256 ^ 3 - 96); lia.
Qed.

Lemma parse_ipv6_header cf plen proto hops src dst l4 :
  in_width 28 cf → u16_ok plen → u8_ok proto → in_width 128 src → in_width 128 dst →
  let data := ipv6_header cf plen proto hops src dst ++ l4 in
  parse_ip_packet data
  = let! ports := parse_ports data (IpProtocol.from_number proto) 40 in
    Found (Ok (mkParsed 6 (IpProtocol.from_number proto) (V6 src) (V6 dst) ports.1 ports.2
                 40 (40 + Z.to_nat plen))).
Proof.
  intros Hcf Hpl Hp Hsrc Hdst data.
  assert (Hdl : length data = (40 + length l4)%nat) by done.
  pose proof (ipv6_header_first cf plen proto hops src dst l4 Hcf) as Hv. fold data in Hv.
  unfold parse_ip_packet. destruct (Nat.eqb_spec (length data) 0); [lia|]. idx_eval.
  rewrite Hv. change (6 =? 4) with false. change (6 =? 6) with true. cbv iota.
  unfold parse_ipv6_packet. destruct (Nat.ltb_spec (length data) 40); [lia|]. idx_eval.
  rewrite !idx_ipv6_found by lia. cbn [bind_outcome].
  change (byte_at data 6) with (byte_of_Z proto). rewrite byte_to_of_small by done.
  change (from_be_bytes [byte_at data 4; byte_at data 5]) with (from_be_bytes (to_be_bytes 2 plen)).
  change (slice data 8 (8 + 16)) with (to_be_bytes 16 src).
  change (slice data 24 (24 + 16)) with (to_be_bytes 16 dst).
  by rewrite from_to_be_2, !from_to_be_bytes by done.
Qed.

(** A well-formed TCP or UDP packet of either IP version is parsed into the
    fields its header was built from: addresses, protocol, ports behind the IPv4
    options, the offset of the transport header and the total length. *)
Theorem parse_ip_packet_wellformed tos total id fo ttl proto ck src dst options
    cf plen hops src6 dst6 sport dport rest :
  u16_ok total → u16_ok plen → u8_ok proto → u32_ok src → u32_ok dst →
  in_width 28 cf → in_width 128 src6 → in_width 128 dst6 →
  (length options ≤ 40)%nat → (length options mod 4 = 0)%nat →
  u16_ok sport → u16_ok dport → IpProtocol.has_ports (IpProtocol.from_number proto) = true →
  parse_ip_packet (ipv4_header tos total id fo ttl proto ck src dst options
                   ++ transport_header sport dport rest)
  = Found (Ok (mkParsed 4 (IpProtocol.from_number proto) (V4 src) (V4 dst) sport dport
                 (20 + length options) (Z.to_nat total)))
  ∧ parse_ip_packet (ipv6_header cf plen proto hops src6 dst6 ++ transport_header sport dport rest)
  = Found (Ok (mkParsed 6 (IpProtocol.from_number proto) (V6 src6) (V6 dst6) sport dport
                 40 (40 + Z.to_nat plen))).
Proof.
  intros. rewrite parse_ipv4_header, parse_ipv6_header by done.
  by rewrite !transport_ports by done.
Qed.

Lemma parse_ip_packet_wellformed_witness :
  parse_ip_packet (ipv4_header 0 40 7 0 64 6 0 0x0A000001 0x0A000002 [Byte.x01; Byte.x01; Byte.x01; Byte.x00]
                   ++ transport_header 1234 443 [])
  = Found (Ok (mkParsed 4 IpProtocol.Tcp (V4 0x0A000001) (V4 0x0A000002) 1234 443 24 40)).
Proof.
  refine (proj1 (parse_ip_packet_wellformed 0 40 7 0 64 6 0 0x0A000001 0x0A000002
    [Byte.x01; Byte.x01; Byte.x01; Byte.x00] 0 40 64 1 2 1234 443 [] _ _ _ _ _ _ _ _ _ _ _ _ _));
    try (unfold in_width; lia); try reflexivity; cbn; lia.
Defined.

(** ** TCP flows are byte queues *)

Inductive tcp_op :=
| Syn (k : FlowKey) (seq : Z)
| SynAck (k : FlowKey) (seq ack : Z)
| Push (k : FlowKey) (d : bytes)
| Take (k : FlowKey)
| Close (k : FlowKey).
(** The new state and what the operation took out. *)
Definition tcp_step (o : tcp_op) (r : TcpReassembler) : bytes * TcpReassembler :=
  match o with
  | Syn k seq => ([], Tcp.track_syn k seq r)
  | SynAck k seq ack => ([], Tcp.track_synack k seq ack r)
  | Push k d => ([], (Tcp.push_data k d r).2)
  | Take k => let '(o, r) := Tcp.take_data k r in (default [] o, r)
  | Close k => ([], (Tcp.close k r).2)
  end.
(** Whether an operation starts or ends the flow [k]. *)
Definition reopens (k : FlowKey) (o : tcp_op) : bool :=
  match o with
  | Syn k' _ | SynAck k' _ _ | Close k' => bool_decide (k = k')
  | _ => false
  end.
Definition pushed (k : FlowKey) (o : tcp_op) : bytes :=
  match o with Push k' d => if bool_decide (k = k') then d else [] | _ => [] end.
Definition takes (k : FlowKey) (o : tcp_op) : bool :=
  match o with Take k' => bool_decide (k = k') | _ => false end.
(** What the reader of [k] gets over a sequence of operations. *)
Fixpoint tcp_run (k : FlowKey) (ops : list tcp_op) (r : TcpReassembler) : bytes * TcpReassembler :=
  match ops with
  | [] => ([], r)
  | o :: ops =>
      let '(out, r) := tcp_step o r in
      let '(rest, r) := tcp_run k ops r in
      ((if takes k o then out else []) ++ rest, r)
  end.

Ltac tcp_key := repeat match goal with
  | |- context [bool_decide ?P] => destruct (bool_decide_reflect P); subst
  | H : context [bool_decide ?P] |- _ => destruct (bool_decide_reflect P); subst
  end; try done.

Lemma tcp_step_flow k o r f :
  r !! k = Some f → reopens k o = false →
  ∃ f', (tcp_step o r).2 !! k = Some f'
      ∧ (if takes k o then (tcp_step o r).1 else []) ++ data_buf f' = data_buf f ++ pushed k o.
Proof.
  intros Hf Hr. destruct o as [k' ? | k' ? ? | k' d | k' | k']; simpl in *; tcp_key.
  - exists f. unfold Tcp.track_syn. rewrite lookup_insert_ne, app_nil_r by done. done.
  - exists f. unfold Tcp.track_synack. rewrite lookup_insert_ne, app_nil_r by done. done.
  - unfold Tcp.push_data. rewrite Hf. simpl. rewrite lookup_insert_eq. eauto.
  - unfold Tcp.push_data. exists f. destruct (r !! k'); simpl;
      rewrite ?lookup_insert_ne, app_nil_r by done; done.
  - unfold Tcp.take_data. rewrite Hf. destruct (data_buf f) as [|b l] eqn:E; simpl.
    + exists f. by rewrite E.
    + rewrite lookup_insert_eq. eexists; split; [done|]. simpl. by rewrite app_nil_r.
  - unfold Tcp.take_data. exists f. destruct (r !! k') as [g|]; simpl; [|by rewrite app_nil_r].
    destruct (data_buf g); simpl; rewrite ?lookup_insert_ne, app_nil_r by done; done.
  - exists f. rewrite lookup_delete_ne, app_nil_r by done. done.
Qed.

(** A TCP flow delivers what was pushed into it: over any interleaving of
    operations on all flows that neither reopens nor closes this one, the bytes
    taken from it followed by those still buffered are the bytes it held before
    followed by everything pushed since, in order. *)
Theorem tcp_flow_fifo k ops r f :
  r !! k = Some f → forallb (fun o => negb (reopens k o)) ops = true →
  ∃ f', (tcp_run k ops r).2 !! k = Some f'
      ∧ (tcp_run k ops r).1 ++ data_buf f' = data_buf f ++ concat (map (pushed k) ops).
Proof.
  revert r f. induction ops as [|o ops IH]; intros r f Hf Hr; simpl in *.
  - exists f. by rewrite app_nil_r.
  - bool_prop. destruct (tcp_step_flow k o r f) as (f1 & Hf1 & E1); [done..|].
    destruct (tcp_step o r) as [out r1]; simpl in *.
    destruct (IH r1 f1) as (f2 & Hf2 & E2); [done..|].
    destruct (tcp_run k ops r1) as [rest r2]; simpl in *.
    exists f2. split; [done|]. rewrite <- app_assoc, E2, app_assoc, E1. by rewrite app_assoc.
Qed.

Lemma tcp_flow_fifo_witness :
  let k := mkFlow (V4 1) (V4 2) 1000 80 in
  let ops := [Push k [Byte.x01]; Syn (reverse k) 9; Take k; Push k [Byte.x02]] in
  (tcp_run k ops (Tcp.track_syn k 5 ∅)).1 = [Byte.x01]
  ∧ ∃ f', (tcp_run k ops (Tcp.track_syn k 5 ∅)).2 !! k = Some f'
      ∧ (tcp_run k ops (Tcp.track_syn k 5 ∅)).1 ++ data_buf f' = [] ++ [Byte.x01; Byte.x02].
Proof.
  intros k ops. split; [vm_compute; reflexivity|].
  apply (tcp_flow_fifo k ops (Tcp.track_syn k 5 ∅) (mkTcpFlow SynSent 5 0 []));
    vm_compute; reflexivity.
Defined.

(** ** Accounting of UDP sessions *)

Inductive udp_op :=
| UPacket (now now_evict : Z) (p : ParsedPacket) (n : Z)
| UReply (now : Z) (k : FlowKey) (n : Z)
| URemove (k : FlowKey)
| UEvict (now : Z).
Definition udp_step (m : UdpSessionManager) (o : udp_op) : UdpSessionManager :=
  match o with
  | UPacket now ne p n => (Udp.track_packet now ne p n m).2
  | UReply now k n => (Udp.track_reply now k n m).2
  | URemove k => (Udp.remove_session k m).2
  | UEvict now => (Udp.evict_idle now m).2
  end.
Definition udp_run (ops : list udp_op) (m : UdpSessionManager) : UdpSessionManager :=
  fold_left udp_step ops m.
Definition udp_op_ok (o : udp_op) : Prop :=
  match o with UPacket _ _ _ n | UReply _ _ n => u64_ok n | _ => True end.

(** The sizes of the packets sent (received) on a session, in a history. *)
Definition sent_of (k : FlowKey) (o : udp_op) : list Z :=
  match o with
  | UPacket _ _ p n =>
      if bool_decide (protocol p = IpProtocol.Udp ∧ Udp.packet_key p = k) then [n] else []
  | _ => []
  end.
Definition recv_of (k : FlowKey) (o : udp_op) : list Z :=
  match o with UReply _ k' n => if bool_decide (k' = k) then [n] else [] | _ => [] end.
Definition sum_Z (l : list Z) : Z := foldr Z.add 0 l.

(** [suf] is the history of the session [k] in state [st], from the packet that
    opened it, with no removal since. *)
Definition accounts (k : FlowKey) (st : UdpSessionState) (suf : list udp_op) : Prop :=
  let sent := (suf ≫= sent_of k) in
  let recv := (suf ≫= recv_of k) in
  (∃ ne p n rest, suf = (UPacket (created_at st) ne p n :: rest)
                  ∧ sent_of k (UPacket (created_at st) ne p n) = [n])
  ∧ (URemove k ∉ suf)
  ∧ packets_sent st = wrap 64 (Z.of_nat (length sent))
  ∧ bytes_sent st = wrap 64 (sum_Z sent)
  ∧ packets_recv st = wrap 64 (Z.of_nat (length recv)) ∧ bytes_recv st = wrap 64 (sum_Z recv).

Lemma sum_Z_app l l' : sum_Z (l ++ l') = sum_Z l + sum_Z l'.
Proof. induction l; simpl; lia. Qed.

(** An operation that leaves the session's own counters alone. *)
Lemma accounts_other k st suf o :
  o ≠ URemove k → sent_of k o = [] → recv_of k o = [] →
  accounts k st suf → accounts k st (suf ++ [o]).
Proof.
  unfold accounts. intros Hne Hs Hr ((ne & p & n & rest & Hsuf & Hop) & Hnr & H).
  rewrite !bind_app. simpl. rewrite Hs, Hr, !app_nil_r. split_and!; try apply H.
  - exists ne, p, n, (rest ++ [o]). by rewrite Hsuf.
  - set_solver.
Qed.

(** An operation that counts for the session. *)
Lemma accounts_more k st st' suf o :
  o ≠ URemove k → created_at st' = created_at st →
  packets_sent st' = wrap 64 (packets_sent st + Z.of_nat (length (sent_of k o))) →
  bytes_sent st' = wrap 64 (bytes_sent st + sum_Z (sent_of k o)) →
  packets_recv st' = wrap 64 (packets_recv st + Z.of_nat (length (recv_of k o))) →
  bytes_recv st' = wrap 64 (bytes_recv st + sum_Z (recv_of k o)) →
  accounts k st suf → accounts k st' (suf ++ [o]).
Proof.
  unfold accounts. intros Hne Hc H1 H2 H3 H4 ((ne & p & n & rest & Hsuf & Hop) & Hnr & E1 & E2 & E3 & E4).
  rewrite !bind_app, !bind_cons, !app_nil_r, !length_app, !sum_Z_app, !Nat2Z.inj_add.
  rewrite H1, H2, H3, H4, E1, E2, E3, E4, !wrap_add_l, Hc by lia. split_and!; try done.
  - exists ne, p, n, (rest ++ [o]). by rewrite Hsuf.
  - set_solver.
Qed.

Lemma accounts_wrapped k st suf :
  accounts k st suf →
  wrap 64 (packets_sent st) = packets_sent st ∧ wrap 64 (bytes_sent st) = bytes_sent st
  ∧ wrap 64 (packets_recv st) = packets_recv st ∧ wrap 64 (bytes_recv st) = bytes_recv st.
Proof.
  intros (_ & _ & -> & -> & -> & ->). unfold wrap. by rewrite !Z.mod_mod.
Qed.

(** What a step leaves of a session: it is gone, unchanged, or updated by the
    packet or reply of the step; a session that appears was created by it. *)
Lemma udp_step_accounts m o k st pre :
  udp_op_ok o →
  (∀ st0, sessions m !! k = Some st0 → ∃ pre1 suf, pre = pre1 ++ suf ∧ accounts k st0 suf) →
  sessions (udp_step m o) !! k = Some st →
  ∃ pre1 suf, pre ++ [o] = pre1 ++ suf ∧ accounts k st suf.
Proof.
  intros Hok Hinv Hst.
  assert (Hext : ∀ st0, sessions m !! k = Some st0 →
    (∀ suf, accounts k st0 suf → accounts k st (suf ++ [o])) →
    ∃ pre1 suf, pre ++ [o] = pre1 ++ suf ∧ accounts k st suf).
  { intros st0 H0 Hstep. destruct (Hinv _ H0) as (p1 & suf & -> & Ha).
    exists p1, (suf ++ [o]). rewrite app_assoc. auto. }
  destruct o as [now ne p n | now k' n | k' | now]; simpl in Hst.
  - unfold Udp.track_packet in Hst.
    destruct (decide (protocol p = IpProtocol.Udp)) as [Hp|Hp].
    2:{ rewrite bool_decide_false in Hst by done. eapply Hext; [exact Hst|]. intros suf.
        apply accounts_other; simpl; rewrite ?bool_decide_false; naive_solver. }
    rewrite bool_decide_true in Hst by done. simpl in Hst.
    destruct (decide (Udp.packet_key p = k)) as [<-|Hk].
    + assert (Hs : sent_of (Udp.packet_key p) (UPacket now ne p n) = [n])
        by (by simpl; rewrite bool_decide_true).
      destruct (sessions m !! Udp.packet_key p) as [st0|] eqn:E0; simpl in Hst;
        rewrite lookup_insert_eq in Hst; injection Hst as <-.
      * eapply Hext; [done|]. intros suf Ha. destruct (accounts_wrapped _ _ _ Ha) as (_ & _ & W3 & W4).
        eapply accounts_more; [..|exact Ha]; rewrite ?Hs; simpl; rewrite ?Z.add_0_r; done.
      * exists pre, [UPacket now ne p n]. split; [done|]. unfold accounts.
        rewrite bind_cons, Hs. simpl. split_and!; try done; [by eauto 10 | set_solver |].
        rewrite Z.add_0_r. by rewrite wrap_small.
    + assert (Hs : sent_of k (UPacket now ne p n) = []) by (simpl; rewrite bool_decide_false; naive_solver).
      assert (Hst' : sessions m !! k = Some st).
      { destruct (sessions m !! Udp.packet_key p) as [st0|] eqn:E0; simpl in Hst;
          rewrite lookup_insert_ne in Hst by done; [done|].
        destruct (_ <=? _)%nat; simpl in Hst; [|done]. by apply map_lookup_filter_Some in Hst as [Hst _]. }
      eapply Hext; [exact Hst'|]. intros suf. by apply accounts_other.
  - unfold Udp.track_reply in Hst. destruct (decide (k' = k)) as [->|Hk].
    + destruct (sessions m !! k) as [st0|] eqn:E0; simpl in Hst; [|congruence].
      rewrite lookup_insert_eq in Hst; injection Hst as <-.
      eapply Hext; [done|]. intros suf Ha. destruct (accounts_wrapped _ _ _ Ha) as (W1 & W2 & _).
      eapply accounts_more; [..|exact Ha]; simpl; rewrite ?bool_decide_true by done; simpl;
        rewrite ?Z.add_0_r; done.
    + eapply (Hext st).
      * destruct (sessions m !! k'); simpl in Hst; by rewrite ?lookup_insert_ne in Hst by done.
      * intros suf. apply accounts_other; simpl; by rewrite ?bool_decide_false.
  - apply lookup_delete_Some in Hst as [Hne Hst]. eapply Hext; [exact Hst|]. intros suf.
    apply accounts_other; simpl; naive_solver.
  - apply map_lookup_filter_Some in Hst as [Hst _]. eapply Hext; [exact Hst|]. intros suf.
    by apply accounts_other.
Qed.

(** The counters of a UDP session are exact: after any history of packets,
    replies, removals and evictions, every session in the table counts, modulo
    2^64 and in both directions, the packets and bytes of the history from the
    packet that opened it at its creation time, with no removal since. *)
Theorem udp_session_accounting ops max idle k st :
  Forall udp_op_ok ops →
  sessions (udp_run ops (Udp.new max idle)) !! k = Some st →
  ∃ pre suf, ops = pre ++ suf ∧ accounts k st suf.
Proof.
  revert st. induction ops as [|o ops IH] using rev_ind; intros st Hok Hst.
  { exfalso. exact (lookup_empty_Some k st Hst). }
  apply Forall_app in Hok as [Hok Ho]. rewrite Forall_singleton in Ho.
  unfold udp_run in Hst. rewrite fold_left_app in Hst.
  eapply udp_step_accounts; [exact Ho| |exact Hst]. intros st0. by apply IH.
Qed.

Definition udp_packet (k : FlowKey) : ParsedPacket :=
  mkParsed 4 IpProtocol.Udp (fk_src_ip k) (fk_dst_ip k) (fk_src_port k) (fk_dst_port k) 20 28.

Lemma udp_session_accounting_witness :
  let k := mkFlow (V4 1) (V4 2) 1000 53 in
  let ops := [UPacket 0 0 (udp_packet k) 7; URemove k; UPacket 3 3 (udp_packet k) 40; UReply 5 k 99] in
  ∃ pre suf, ops = pre ++ suf ∧ accounts k (mkUdpState 3 5 1 1 40 99) suf.
Proof.
  intros k ops.
  apply (udp_session_accounting ops 10 60 k).
  - unfold ops. constructor; [|constructor; [|constructor; [|constructor; [|constructor]]]];
      simpl; unfold in_width; lia.
  - vm_compute; reflexivity.
Defined.

(** ** The size of the session table *)

(** When the table is at its limit, a packet that opens a session first
    evicts the sessions idle for the timeout, and nothing else: if none is idle
    the table grows past [max_sessions]; otherwise the new size is at most the
    old one. *)
Theorem udp_capacity_step now ne p n m :
  protocol p = IpProtocol.Udp → sessions m !! Udp.packet_key p = None →
  (max_sessions m ≤ size (sessions m))%nat →
  let m' := (Udp.track_packet now ne p n m).2 in
  let evicted := (Udp.evict_idle ne m).1 in
  Udp.session_count m' = (Udp.session_count m - evicted + 1)%nat
  ∧ (evicted = 0%nat ↔ ∀ k st, sessions m !! k = Some st → Udp.fresh ne m st = true)
  ∧ (∀ k st, sessions m' !! k = Some st → k = Udp.packet_key p
             ∨ sessions m !! k = Some st ∧ Udp.fresh ne m st = true).
Proof.
  intros Hp Hnone Hmax. unfold Udp.track_packet. rewrite bool_decide_true by done. simpl.
  rewrite Hnone. apply Nat.leb_le in Hmax as ->. simpl. unfold Udp.session_count. simpl.
  set (kept := filter _ _).
  assert (Hsub : kept ⊆ sessions m) by apply map_filter_subseteq.
  pose proof (map_subseteq_size _ _ Hsub) as Hle.
  split_and!.
  - rewrite map_size_insert_None; [lia|]. apply map_lookup_filter_None. by left.
  - split; intros H.
    + intros k st Hk.
      assert (kept = sessions m) as He by (apply map_subseteq_size_eq; [done|lia]).
      rewrite <- He in Hk. by apply map_lookup_filter_Some in Hk as [_ ?].
    + assert (kept = sessions m) as ->; [|lia].
      apply map_filter_id. intros k st Hk. simpl. by eapply H.
  - intros k st [[<- _]|[_ Hk]]%lookup_insert_Some; [by left|right].
    by apply map_lookup_filter_Some in Hk.
Qed.

Lemma udp_capacity_step_witness :
  let k := mkFlow (V4 1) (V4 2) 1000 53 in
  let m := udp_run [UPacket 0 0 (udp_packet k) 7] (Udp.new 1 60) in
  let p := udp_packet (reverse k) in
  Udp.session_count (Udp.track_packet 5 5 p 9 m).2 = 2%nat.
Proof.
  intros k m p.
  destruct (udp_capacity_step 5 5 p 9 m) as (H & _); [reflexivity | vm_compute; reflexivity | vm_compute; lia |].
  rewrite H. vm_compute; reflexivity.
Defined.
