(* ===== verification/Fragment.v ===== *)
(** * Reassembly of IP fragments ([src/src/proxy/inbound/tun_device.rs],
      [IpFragmentReassembler])

    Fragments are grouped by addresses and identification; each arrival tries to
    rebuild the payload.  The copy loop slices buffers with computed bounds, so
    it is written with panics.  The main result is that the fragments of one
    payload, in any order, with duplicates and overlaps and interleaved with the
    fragments of others, give back that payload exactly when they cover it. *)

From Stdlib Require Import Sorted.
From S2P Require Import Prelude RustStr Addr Outcome Packet.

Local Open Scope Z_scope.

(** ** State *)

Record FragmentKey := mkFragKey {
  frag_src : IpAddr;
  frag_dst : IpAddr;
  identification : Z;
}.
#[export] Instance FragmentKey_eq_dec : EqDecision FragmentKey.
Proof. solve_decision. Defined.
#[export] Instance FragmentKey_countable : Countable FragmentKey.
Proof.
  refine (inj_countable' (fun k => (frag_src k, frag_dst k, identification k))
    (fun '(a, b, c) => mkFragKey a b c) _).
  by intros [].
Defined.

Record FragmentEntry := mkFrag {
  offset : Z;
  fdata : bytes;
  more_fragments : bool;
}.
Record FragmentGroup := mkGroup {
  gfragments : list FragmentEntry;
  gcreated_at : Z;
  gtotal_len : option nat;
  gprotocol : Z;
}.
Record IpFragmentReassembler := mkReasm {
  fragments : gmap FragmentKey FragmentGroup;
  max_groups : nat;
  timeout_secs : Z;
}.
Definition reasm_new (max : nat) (timeout : Z) : IpFragmentReassembler := mkReasm ∅ max timeout.
Definition set_fragments (f : gmap FragmentKey FragmentGroup) (r : IpFragmentReassembler)
    : IpFragmentReassembler :=
  mkReasm f (max_groups r) (timeout_secs r).

(** ** Rebuilding a payload *)

(** [sorted.sort_by_key(|f| f.offset)] is stable. *)
Fixpoint insert_frag (e : FragmentEntry) (l : list FragmentEntry) : list FragmentEntry :=
  match l with
  | [] => [e]
  | x :: l' => if offset e <=? offset x then e :: l else x :: insert_frag e l'
  end.
Definition sort_frags (l : list FragmentEntry) : list FragmentEntry := foldr insert_frag [] l.

(** [frag.offset as usize * 8] *)
Definition fstart (e : FragmentEntry) : nat := (Z.to_nat (offset e) * 8)%nat.
Definition fend (e : FragmentEntry) : nat := (fstart e + length (fdata e))%nat.

(** The loop that checks for complete coverage; [None] is a gap. *)
Fixpoint coverage (l : list FragmentEntry) (covered : nat) : option nat :=
  match l with
  | [] => Some covered
  | e :: l =>
      if (covered <? fstart e)%nat then None
      else coverage l (if (covered <? fend e)%nat then fend e else covered)
  end.

(** [result[start..end].copy_from_slice(&frag.data[..end - start])] for each
    fragment: [start..end] panics when [end] is below [start]. *)
Fixpoint copy_frags (l : list FragmentEntry) (total_len : nat) (result : bytes) : outcome bytes :=
  match l with
  | [] => Found result
  | e :: l =>
      let start := fstart e in
      let end_ := (fend e `min` total_len)%nat in
      if (end_ <? start)%nat then Panic else
      copy_frags l total_len
        (take start result ++ take (end_ - start) (fdata e) ++ drop end_ result)
  end.

Definition try_reassemble_static (g : FragmentGroup) : outcome bytes :=
  match gtotal_len g with
  | None => Nothing
  | Some total_len =>
      let sorted := sort_frags (gfragments g) in
      match coverage sorted 0 with
      | None => Nothing
      | Some covered =>
          if (covered <? total_len)%nat then Nothing else
          copy_frags sorted total_len (replicate total_len Byte.x00)
      end
  end.

(** ** Operations *)

Definition evict_expired (now : Z) (r : IpFragmentReassembler) : nat * IpFragmentReassembler :=
  let kept := filter (fun kg : FragmentKey * FragmentGroup =>
    (saturating_sub now (gcreated_at kg.2) <? timeout_secs r * 1000000000) = true) (fragments r) in
  ((size (fragments r) - size kept)%nat, set_fragments kept r).

(** One clock reading serves the eviction and one a new group. *)
Definition add_fragment (now_evict now : Z) (key : FragmentKey) (offset : Z) (data : bytes)
    (more : bool) (protocol : Z) (r : IpFragmentReassembler)
    : outcome bytes * IpFragmentReassembler :=
  let r := if (max_groups r <=? size (fragments r))%nat && negb (bool_decide (is_Some (fragments r !! key)))
           then (evict_expired now_evict r).2 else r in
  let group := default (mkGroup [] now None protocol) (fragments r !! key) in
  let entry := mkFrag offset data more in
  let total := if negb more then Some (fend entry) else gtotal_len group in
  let group := mkGroup (gfragments group ++ [entry]) (gcreated_at group) total (gprotocol group) in
  (try_reassemble_static group, set_fragments (<[key := group]> (fragments r)) r).

Definition remove_group (key : FragmentKey) (r : IpFragmentReassembler) : bool * IpFragmentReassembler :=
  (bool_decide (is_Some (fragments r !! key)), set_fragments (delete key (fragments r)) r).
Definition group_count (r : IpFragmentReassembler) : nat := size (fragments r).

Definition parse_ipv4_fragment_info (data : bytes) : outcome (FragmentKey * Z * bool * Z) :=
  if (length data <? 20)%nat then Nothing else
  let! b0 := idx data 0 in
  if negb (Z.shiftr (byte_to_Z b0) 4 =? 4) then Nothing else
  let! ident := idx_be16 data 4 5 in
  let! flags_offset := idx_be16 data 6 7 in
  let more := negb (Z.land flags_offset 0x2000 =? 0) in
  let fragment_offset := Z.land flags_offset 0x1FFF in
  let! protocol := idx data 9 in
  let! src := idx_ipv4 data 12 in
  let! dst := idx_ipv4 data 16 in
  if negb more && (fragment_offset =? 0) then Nothing else
  Found (mkFragKey src dst ident, fragment_offset, more, byte_to_Z protocol).

(** ** Sorting *)

Lemma insert_frag_perm e l : insert_frag e l ≡ₚ e :: l.
Proof.
  induction l as [|x l IH]; simpl; [done|]. destruct (_ <=? _); [done|].
  rewrite IH. constructor.
Qed.
Lemma sort_frags_perm l : sort_frags l ≡ₚ l.
Proof. induction l as [|e l IH]; simpl; [done|]. by rewrite insert_frag_perm, IH. Qed.

Abbreviation by_offset := (fun e e' => offset e <= offset e').
Lemma insert_frag_sorted e l :
  StronglySorted by_offset l → StronglySorted by_offset (insert_frag e l).
Proof.
  induction l as [|x l IH]; simpl; intros H; [repeat constructor|].
  apply StronglySorted_inv in H as [Hs Hf]. destruct (Z.leb_spec (offset e) (offset x)).
  - constructor; [by constructor|]. constructor; [done|].
    eapply Forall_impl; [exact Hf|]. simpl; lia.
  - constructor; [by apply IH|]. rewrite insert_frag_perm. constructor; [lia|done].
Qed.
Lemma sort_frags_sorted l : StronglySorted by_offset (sort_frags l).
Proof. induction l; simpl; [constructor | by apply insert_frag_sorted]. Qed.

(** ** Coverage *)

Definition covers (l : list FragmentEntry) (i : nat) : Prop :=
  ∃ e, e ∈ l ∧ (fstart e ≤ i < fend e)%nat.

Lemma coverage_some l c c' :
  coverage l c = Some c' → (c ≤ c')%nat ∧ ∀ i, (c ≤ i < c')%nat → covers l i.
Proof.
  revert c. induction l as [|e l IH]; simpl; intros c H.
  - injection H as <-. split; [lia|]. intros i Hi. lia.
  - destruct (Nat.ltb_spec c (fstart e)); [done|]. apply IH in H as [Hle Hcov].
    destruct (Nat.ltb_spec c (fend e)); [|split; [lia|]; intros i Hi; destruct (Hcov i Hi) as (x & Hx & ?);
      exists x; split; [by right|done]].
    split; [lia|]. intros i Hi. destruct (decide (i < fend e)%nat).
    + exists e. split; [by left|lia].
    + destruct (Hcov i) as (x & Hx & ?); [lia|]. exists x. split; [by right|done].
Qed.

Lemma coverage_none l c :
  StronglySorted by_offset l → coverage l c = None →
  ∃ e i, e ∈ l ∧ (c ≤ i < fstart e)%nat ∧ ¬ covers l i.
Proof.
  revert c. induction l as [|e l IH]; simpl; intros c Hs H; [done|].
  apply StronglySorted_inv in Hs as [Hs Hf].
  destruct (Nat.ltb_spec c (fstart e)) as [Hlt|Hge].
  - exists e, c. split; [by left|]. split; [lia|]. intros (x & [->|Hx]%elem_of_cons & Hr); [lia|].
    rewrite Forall_forall in Hf. apply Hf in Hx. unfold fstart in *. lia.
  - apply IH in H as (x & i & Hx & Hi & Hn); [|done].
    exists x, i. split; [by right|]. destruct (Nat.ltb_spec c (fend e));
      (split; [lia|]); intros (y & [->|Hy]%elem_of_cons & Hr); try lia; apply Hn; by exists y.
Qed.

Lemma coverage_ends l c c' e : coverage l c = Some c' → e ∈ l → (fend e ≤ c')%nat.
Proof.
  revert c. induction l as [|x l IH]; simpl; intros c H He; [by apply elem_of_nil in He|].
  destruct (_ <? _)%nat; [done|]. apply elem_of_cons in He as [->|He]; [|by eapply IH].
  destruct (coverage_some _ _ _ H) as [Hle _]. destruct (Nat.ltb_spec c (fend x)); lia.
Qed.

(** ** Copying *)

(** A fragment of the payload [P]: its bytes are those of [P] at its offset, and
    the last fragment ends where [P] ends. *)
Definition fragment_of (P : bytes) (e : FragmentEntry) : Prop :=
  (fend e ≤ length P)%nat ∧ fdata e = slice P (fstart e) (fend e)
  ∧ (more_fragments e = false → fend e = length P).

Lemma splice_lookup (P r : bytes) a b i :
  (a ≤ b)%nat → (b ≤ length P)%nat → length r = length P →
  (take a r ++ slice P a b ++ drop b r) !! i
  = if decide (a ≤ i < b)%nat then P !! i else r !! i.
Proof.
  intros Hab Hb Hr. assert (Ha : length (take a r) = a) by (rewrite length_take; lia).
  destruct (decide (a ≤ i < b)%nat).
  - rewrite lookup_app_r, Ha by lia. rewrite lookup_app_l by (rewrite length_slice; lia).
    unfold slice. rewrite lookup_take_lt, lookup_drop by lia. f_equal. lia.
  - destruct (decide (i < a)%nat).
    + rewrite lookup_app_l, lookup_take_lt by lia. done.
    + rewrite lookup_app_r, Ha by lia. rewrite lookup_app_r by (rewrite length_slice; lia).
      rewrite length_slice, lookup_drop by lia. f_equal. lia.
Qed.

Lemma copy_frags_correct P l r :
  Forall (fragment_of P) l → length r = length P →
  ∃ r', copy_frags l (length P) r = Found r' ∧ length r' = length P
      ∧ ∀ i, covers l i ∨ r !! i = P !! i → r' !! i = P !! i.
Proof.
  intros Hl. revert r. induction Hl as [|e l (He & Hd & _) Hl IH]; intros r Hr; simpl.
  - exists r. split_and!; [done..|]. intros i [(e & H & _)|H]; [|done]. by apply elem_of_nil in H.
  - assert (Hse : (fstart e ≤ fend e)%nat) by (unfold fend; lia).
    replace (fend e `min` length P)%nat with (fend e) by lia.
    destruct (Nat.ltb_spec (fend e) (fstart e)); [lia|].
    assert (Htk : take (fend e - fstart e) (fdata e) = slice P (fstart e) (fend e)).
    { rewrite Hd, take_ge; [done|]. rewrite length_slice; lia. }
    rewrite Htk. destruct (IH (take (fstart e) r ++ slice P (fstart e) (fend e) ++ drop (fend e) r))
      as (r' & -> & Hlen & Hr'); [rewrite !length_app, length_take, length_slice, length_drop by lia; lia|].
    exists r'. split_and!; [done..|]. intros i Hi. apply Hr'. rewrite splice_lookup by lia.
    destruct (decide _); [by right|].
    destruct Hi as [(x & [->|Hx]%elem_of_cons & ?)|Hi]; [lia|left; by exists x|by right].
Qed.

(** Whether the fragments [l] suffice to rebuild [P]. *)
Definition complete (P : bytes) (l : list FragmentEntry) : Prop :=
  (∃ e, e ∈ l ∧ more_fragments e = false) ∧ ∀ i, (i < length P)%nat → covers l i.

Lemma covers_perm l l' i : l ≡ₚ l' → covers l i ↔ covers l' i.
Proof. intros H. unfold covers. by setoid_rewrite H. Qed.

(** The total length a group has learnt from the fragments it received. *)
Definition learnt (P : bytes) (g : FragmentGroup) : Prop :=
  Forall (fragment_of P) (gfragments g)
  ∧ (gtotal_len g = Some (length P) ∧ (∃ e, e ∈ gfragments g ∧ more_fragments e = false)
     ∨ gtotal_len g = None ∧ ¬ (∃ e, e ∈ gfragments g ∧ more_fragments e = false)).

Lemma try_reassemble_correct P g :
  learnt P g →
  (complete P (gfragments g) → try_reassemble_static g = Found P)
  ∧ (¬ complete P (gfragments g) → try_reassemble_static g = Nothing).
Proof.
  intros [Hf Ht]. unfold try_reassemble_static.
  destruct Ht as [[Et Hlast] | [Et Hno]]; rewrite Et; [|split; [intros [H _]; tauto | done]].
  assert (Hf' : Forall (fragment_of P) (sort_frags (gfragments g))) by (by rewrite sort_frags_perm).
  destruct (coverage (sort_frags (gfragments g)) 0) as [c|] eqn:Ec.
  - destruct (coverage_some _ _ _ Ec) as [_ Hcov]. destruct (Nat.ltb_spec c (length P)) as [Hlt|Hge].
    + split; [|done]. intros [_ Hall]. exfalso.
      destruct (Hall c Hlt) as (e & He & Hr). rewrite <- sort_frags_perm in He.
      enough (fend e ≤ c)%nat by lia. eapply coverage_ends; eauto.
    + assert (Hc : complete P (gfragments g)).
      { split; [done|]. intros i Hi. rewrite <- (covers_perm _ _ _ (sort_frags_perm _)).
        apply Hcov. lia. }
      split; [intros _|done].
      destruct (copy_frags_correct P _ (replicate (length P) Byte.x00) Hf') as (r' & -> & Hlen & Hr');
        [by rewrite length_replicate|].
      f_equal. apply list_eq. intros i. destruct (decide (i < length P)%nat).
      * apply Hr'. left. apply Hcov. lia.
      * rewrite !lookup_ge_None_2 by lia. done.
  - split; [|done]. intros [_ Hall]. exfalso.
    destruct (coverage_none _ _ (sort_frags_sorted _) Ec) as (e & i & He & Hi & Hn).
    apply Hn. rewrite covers_perm by apply sort_frags_perm. apply Hall.
    rewrite Forall_forall in Hf'. destruct (Hf' _ He) as [? _]. unfold fend in *. lia.
Qed.

(** ** Arrivals *)

Record arrival := mkArrival {
  a_evict : Z;
  a_now : Z;
  a_key : FragmentKey;
  a_entry : FragmentEntry;
  a_proto : Z;
}.
Definition arrive (r : IpFragmentReassembler) (a : arrival) : outcome bytes * IpFragmentReassembler :=
  add_fragment (a_evict a) (a_now a) (a_key a) (offset (a_entry a)) (fdata (a_entry a))
    (more_fragments (a_entry a)) (a_proto a) r.
Definition arrive_all (l : list arrival) (r : IpFragmentReassembler) : IpFragmentReassembler :=
  fold_left (fun r a => (arrive r a).2) l r.
Definition frags_of (k : FragmentKey) (l : list arrival) : list FragmentEntry :=
  l ≫= fun a => if bool_decide (a_key a = k) then [a_entry a] else [].

Section Arrivals.
Context (P : bytes) (k : FragmentKey) (t0 T : Z).

(** Clock readings are within one timeout of each other, and the fragments of
    the packet [k] are fragments of [P]. *)
Definition arrival_ok (a : arrival) : Prop :=
  t0 <= a_evict a < t0 + T ∧ t0 <= a_now a < t0 + T ∧ (a_key a = k → fragment_of P (a_entry a)).

Definition holds (l : list FragmentEntry) (g : option FragmentGroup) : Prop :=
  match g with
  | None => l = []
  | Some g => gfragments g = l ∧ learnt P g ∧ t0 <= gcreated_at g
  end.

Lemma evict_holds now l r :
  timeout_secs r * 1000000000 = T → t0 <= now < t0 + T →
  holds l (fragments r !! k) → holds l (fragments (evict_expired now r).2 !! k).
Proof.
  intros HT Hnow H. simpl. destruct (fragments r !! k) as [g|] eqn:E.
  - destruct H as (Hl & Hg & Ht).
    assert (Hk : filter (fun kg : FragmentKey * FragmentGroup =>
      (saturating_sub now (gcreated_at kg.2) <? timeout_secs r * 1000000000) = true) (fragments r) !! k
      = Some g).
    { apply map_lookup_filter_Some. split; [done|]. apply Z.ltb_lt. unfold saturating_sub. simpl. lia. }
    by rewrite Hk.
  - assert (Hk : filter (fun kg : FragmentKey * FragmentGroup =>
      (saturating_sub now (gcreated_at kg.2) <? timeout_secs r * 1000000000) = true) (fragments r) !! k
      = None) by (apply map_lookup_filter_None; by left).
    by rewrite Hk.
Qed.

Lemma learnt_add g e :
  learnt P g → fragment_of P e →
  learnt P (mkGroup (gfragments g ++ [e]) (gcreated_at g)
              (if negb (more_fragments e) then Some (fend e) else gtotal_len g) (gprotocol g)).
Proof.
  intros [Hf Ht] He. split; simpl; [apply Forall_app; split; [done|by constructor]|].
  destruct (more_fragments e) eqn:Em; simpl.
  - destruct Ht as [[H1 (x & Hx & Hm)]|[H1 H2]]; [left|right]; (split; [done|]).
    + exists x. split; [|done]. set_solver.
    + intros (x & Hx & Hm). apply H2. exists x. set_unfold. destruct Hx as [Hx|[->|[]]]; [done|congruence].
  - left. destruct He as (_ & _ & He). rewrite He by done. split; [done|]. exists e. set_solver.
Qed.

Lemma arrive_holds l r a :
  timeout_secs r * 1000000000 = T → arrival_ok a → holds l (fragments r !! k) →
  timeout_secs (arrive r a).2 * 1000000000 = T
  ∧ holds (l ++ frags_of k [a]) (fragments (arrive r a).2 !! k)
  ∧ (a_key a = k → ∃ g, learnt P g ∧ gfragments g = l ++ [a_entry a]
                       ∧ (arrive r a).1 = try_reassemble_static g).
Proof.
  intros HT (Hev & Hnow & Hfr) Hinv. unfold arrive, add_fragment.
  set (r1 := if _ && _ then _ else r).
  assert (Hr1 : holds l (fragments r1 !! k) ∧ timeout_secs r1 = timeout_secs r).
  { unfold r1. destruct (_ && _); [|done]. split; [by apply evict_holds | done]. }
  destruct Hr1 as [Hl Ht1]. cbn [fst snd fragments timeout_secs set_fragments].
  split; [congruence|]. unfold frags_of. cbn [mbind list_bind]. rewrite app_nil_r.
  destruct (decide (a_key a = k)) as [Hk|Hk].
  - rewrite bool_decide_true by done. rewrite Hk, lookup_insert_eq.
    replace (mkFrag (offset (a_entry a)) (fdata (a_entry a)) (more_fragments (a_entry a)))
      with (a_entry a) by (by destruct (a_entry a)).
    set (g0 := default _ (fragments r1 !! k)).
    assert (Hg0 : learnt P g0 ∧ gfragments g0 = l ∧ t0 <= gcreated_at g0).
    { unfold g0. destruct (fragments r1 !! k) as [g|]; simpl; [by destruct Hl as (? & ? & ?)|].
      simpl in Hl. subst l. split_and!; [|done|simpl; lia]. split; [constructor|right].
      split; [done|]. intros (x & Hx & _). by apply elem_of_nil in Hx. }
    destruct Hg0 as (Hlearnt & Hlg & Hct).
    pose proof (learnt_add g0 (a_entry a) Hlearnt (Hfr Hk)) as Hadd. rewrite Hlg in *.
    split; [split_and!; done|]. intros _. eexists. split_and!; [exact Hadd|done|done].
  - rewrite bool_decide_false by done. rewrite app_nil_r, lookup_insert_ne by done. done.
Qed.

Lemma arrive_all_holds l l0 r :
  timeout_secs r * 1000000000 = T → Forall arrival_ok l → holds l0 (fragments r !! k) →
  timeout_secs (arrive_all l r) * 1000000000 = T
  ∧ holds (l0 ++ frags_of k l) (fragments (arrive_all l r) !! k).
Proof.
  revert l0 r. induction l as [|a l IH]; intros l0 r HT Hok Hinv.
  - simpl. by rewrite app_nil_r.
  - cbn [arrive_all fold_left]. inv Hok. destruct (arrive_holds l0 r a) as (HT1 & Hinv1 & _); [done..|].
    destruct (IH _ _ HT1 ltac:(done) Hinv1) as [? Hres]. split; [done|].
    replace (l0 ++ frags_of k (a :: l)) with ((l0 ++ frags_of k [a]) ++ frags_of k l).
    + exact Hres.
    + rewrite <- app_assoc. f_equal. unfold frags_of. rewrite !bind_cons. by rewrite app_nil_r.
Qed.

End Arrivals.

(** C29: fragments of a payload give it back: let fragments of the packet [k]
    arrive in any order, with duplicates and overlaps and interleaved with
    arbitrary fragments of other packets, within one timeout.  Then an arrival
    for [k] returns the payload exactly when the fragments of [k] so far include
    the last one and cover every byte, it returns nothing otherwise, and it never
    panics. *)
Theorem reassembly_correct P k t0 r l a :
  fragments r !! k = None → a_key a = k →
  Forall (arrival_ok P k t0 (timeout_secs r * 1000000000)) (l ++ [a]) →
  (complete P (frags_of k (l ++ [a])) → (arrive (arrive_all l r) a).1 = Found P)
  ∧ (¬ complete P (frags_of k (l ++ [a])) → (arrive (arrive_all l r) a).1 = Nothing).
Proof.
  intros Hnone Hk [Hl Ha]%Forall_app. rewrite Forall_singleton in Ha.
  set (T := timeout_secs r * 1000000000) in *.
  destruct (arrive_all_holds P k t0 T l [] r) as [HT Hinv]; [done..|by rewrite Hnone|].
  destruct (arrive_holds P k t0 T _ _ _ HT Ha Hinv) as (_ & _ & Hres).
  destruct (Hres Hk) as (g & Hg & Hfr & ->).
  replace (frags_of k (l ++ [a])) with (gfragments g); [by apply try_reassemble_correct|].
  rewrite Hfr. unfold frags_of. rewrite bind_app. simpl. by rewrite bool_decide_true.
Qed.

Lemma reassembly_correct_witness :
  let P := map byte_of_Z (seqZ 0 20) in
  let k := mkFragKey (V4 1) (V4 2) 7 in
  let frag o a b m := mkArrival 10 10 k (mkFrag o (slice P a b) m) 17 in
  let other := mkArrival 11 11 (mkFragKey (V4 9) (V4 2) 7) (mkFrag 3 [Byte.x00] false) 17 in
  (arrive (arrive_all [frag 1 8%nat 20%nat false; other] (reasm_new 8 30)) (frag 0 0%nat 16%nat true)).1
  = Found P.
Proof.
  intros P k frag other.
  refine (proj1 (reassembly_correct P k 10 (reasm_new 8 30) [frag 1 8%nat 20%nat false; other]
    (frag 0 0%nat 16%nat true) _ _ _) _); [reflexivity | reflexivity | |].
  - repeat apply Forall_cons_2; try apply Forall_nil_2; (split_and!; [cbn; lia..|]);
      (intros Hk; try (vm_compute in Hk; discriminate Hk)); vm_compute; repeat split; try done; lia.
  - split.
    + exists (mkFrag 1 (slice P 8 20) false). split; [|done]. apply list_elem_of_In. vm_compute. tauto.
    + intros i Hi. change (length P) with 20%nat in Hi. destruct (decide (i < 16)%nat).
      * exists (mkFrag 0 (slice P 0 16) true). split; [apply list_elem_of_In; vm_compute; tauto|].
        change (fstart _) with 0%nat. change (fend _) with 16%nat. lia.
      * exists (mkFrag 1 (slice P 8 20) false). split; [apply list_elem_of_In; vm_compute; tauto|].
        change (fstart _) with 8%nat. change (fend _) with 20%nat. lia.
Defined.

(** The reassembler can be made to panic: a fragment that starts behind the
    end announced by the last fragment, where an overlapping fragment hides the
    gap, is sliced with its end below its start.  Three fragments of the same
    packet are enough, on any reassembler that holds none of it. *)
Theorem crafted_fragments_panic r k now proto :
  fragments r !! k = None → (group_count r < max_groups r)%nat →
  let r1 := (add_fragment now now k 0 (replicate 24 Byte.x00) true proto r).2 in
  let r2 := (add_fragment now now k 1 (replicate 8 Byte.x00) false proto r1).2 in
  (add_fragment now now k 3 (replicate 8 Byte.x00) true proto r2).1 = Panic.
Proof.
  intros Hk Hsize r1 r2.
  assert (H1 : fragments r1 !! k = Some (mkGroup [mkFrag 0 (replicate 24 Byte.x00) true] now None proto)).
  { unfold r1, add_fragment. apply Nat.leb_gt in Hsize. unfold group_count in Hsize. rewrite Hsize.
    cbn [andb snd fragments set_fragments]. by rewrite lookup_insert_eq, Hk. }
  assert (H2 : fragments r2 !! k = Some (mkGroup [mkFrag 0 (replicate 24 Byte.x00) true;
                                                  mkFrag 1 (replicate 8 Byte.x00) false] now (Some 16%nat) proto)).
  { unfold r2, add_fragment. rewrite H1, bool_decide_true, andb_false_r by done.
    cbn [snd fragments set_fragments]. by rewrite lookup_insert_eq, H1. }
  unfold add_fragment. rewrite H2, bool_decide_true, andb_false_r, H2 by done. reflexivity.
Qed.

Lemma crafted_fragments_panic_witness :
  let k := mkFragKey (V4 1) (V4 2) 7 in
  let r1 := (add_fragment 0 0 k 0 (replicate 24 Byte.x00) true 17 (reasm_new 8 30)).2 in
  let r2 := (add_fragment 0 0 k 1 (replicate 8 Byte.x00) false 17 r1).2 in
  (add_fragment 0 0 k 3 (replicate 8 Byte.x00) true 17 r2).1 = Panic.
Proof.
  exact (crafted_fragments_panic (reasm_new 8 30) (mkFragKey (V4 1) (V4 2) 7) 0 17
           eq_refl ltac:(vm_compute; lia)).
Defined.

(** ** Reading the fragment fields *)

Lemma flags_split (more : bool) off :
  0 <= off < 0x2000 →
  Z.land ((if more then 0x2000 else 0) + off) 0x2000 = (if more then 0x2000 else 0)
  ∧ Z.land ((if more then 0x2000 else 0) + off) 0x1FFF = off.
Proof.
  intros H. split.
  - replace (_ + off) with (Z.lor (if more then 0x2000 else 0) off).
    + rewrite Z.land_lor_distr_l. replace (Z.land off 0x2000) with 0; [by destruct more|].
      symmetry. apply Z.bits_inj'. intros n Hn. rewrite Z.land_spec, Z.bits_0.
      destruct (decide (n = 13)) as [->|Hne].
      * rewrite (in_width_testbit_high 13); [done|lia|unfold in_width; lia|lia].
      * change 0x2000 with (2 ^ 13). rewrite Z.pow2_bits_false by lia. apply andb_false_r.
    + rewrite Z.add_nocarry_lxor, <- Z.lxor_lor; [done|..]; destruct more; try apply Z.land_0_l;
        apply Z.bits_inj'; intros n Hn; rewrite Z.land_spec, Z.bits_0; destruct (decide (n = 13)) as [->|Hne];
        try (rewrite (in_width_testbit_high 13 off); [apply andb_false_r|lia|unfold in_width; lia|lia]);
        change 0x2000 with (2 ^ 13); by rewrite Z.pow2_bits_false by lia.
  - change 0x1FFF with (Z.ones 13). rewrite Z.land_ones by lia. destruct more.
    + rewrite Z.add_comm. change 0x2000 with (1 * 2 ^ 13). rewrite Z.mod_add by lia.
      apply Z.mod_small. lia.
    + by apply Z.mod_small.
Qed.

(** The fragment fields of a well-formed IPv4 header are read back: the key,
    the offset and the more-fragments flag are those the header was built from,
    and a packet that is not a fragment is passed over. *)
Theorem fragment_info_correct tos total id ttl proto ck src dst options (more : bool) off rest :
  u16_ok total → u16_ok id → u8_ok proto → u32_ok src → u32_ok dst → 0 <= off < 0x2000 →
  (length options ≤ 40)%nat →
  parse_ipv4_fragment_info
    (ipv4_header tos total id ((if more then 0x2000 else 0) + off) ttl proto ck src dst options ++ rest)
  = if negb more && (off =? 0) then Nothing
    else Found (mkFragKey (V4 src) (V4 dst) id, off, more, proto).
Proof.
  intros Ht Hid Hp Hs Hd Ho Hlen. set (fo := _ + off).
  set (data := ipv4_header _ _ _ _ _ _ _ _ _ _ ++ rest).
  assert (Hdl : length data = (20 + length options + length rest)%nat)
    by (unfold data; by rewrite length_app, length_ipv4_header).
  assert (Hn : 0 <= len options / 4 <= 10).
  { unfold len. split; [apply Z.div_pos; lia|]. apply Z.div_le_upper_bound; lia. }
  destruct (ipv4_first_byte _ Hn) as [Hv _].
  unfold parse_ipv4_fragment_info. destruct (Nat.ltb_spec (length data) 20); [lia|]. idx_eval.
  change (byte_at data 0) with (byte_of_Z (0x40 + 5 + len options / 4)). rewrite Hv.
  change (negb (4 =? 4)) with false. cbv iota. rewrite !idx_ipv4_found by lia. cbn [bind_outcome].
  change (byte_at data 9) with (byte_of_Z proto). rewrite byte_to_of_small by done.
  change (from_be_bytes [byte_at data 4; byte_at data 5]) with (from_be_bytes (to_be_bytes 2 id)).
  change (from_be_bytes [byte_at data 6; byte_at data 7]) with (from_be_bytes (to_be_bytes 2 fo)).
  change (slice data 12 (12 + 4)) with (to_be_bytes 4 src).
  change (slice data 16 (16 + 4)) with (to_be_bytes 4 dst).
  assert (Hfo : u16_ok fo) by (unfold fo, in_width; destruct more; lia).
  rewrite !from_to_be_2, !from_to_be_4 by done. destruct (flags_split more off Ho) as [E1 E2].
  fold fo in E1, E2. rewrite E1, E2. by destruct more.
Qed.

Lemma fragment_info_correct_witness :
  parse_ipv4_fragment_info (ipv4_header 0 40 77 (0x2000 + 5) 64 17 0 1 2 [] ++ [])
  = Found (mkFragKey (V4 1) (V4 2) 77, 5, true, 17).
Proof.
  exact (fragment_info_correct 0 40 77 64 17 0 1 2 [] true 5 []
    ltac:(unfold in_width; lia) ltac:(unfold in_width; lia) ltac:(unfold in_width; lia)
    ltac:(unfold in_width; lia) ltac:(unfold in_width; lia) ltac:(lia) ltac:(cbn; lia)).
Defined.
