(* ===== verification/Icmp.v ===== *)
(** * ICMP echo proxy ([src/src/proxy/inbound/icmp.rs])

    Recognition and parsing of echo requests, construction of echo replies with
    their checksums for both IP versions, the request sent on the raw socket and
    the test that recognises its reply.  The socket itself and the Windows [ping]
    fallback are not modelled.  The main result is that a reply is a well-formed
    packet back to the requester, whose checksums verify. *)

From S2P Require Import Prelude RustStr Addr Outcome Wire Packet.

Local Open Scope Z_scope.

Record IcmpEchoPacket := mkEcho {
  target : IpAddr;
  source : IpAddr;
  id : Z;
  sequence : Z;
  payload : bytes;
  ttl : Z;
}.

Definition ICMP_ECHO_REQUEST : Z := 8.
Definition ICMP_ECHO_REPLY : Z := 0.
Definition ICMPV6_ECHO_REQUEST : Z := 128.
Definition ICMPV6_ECHO_REPLY : Z := 129.

(** ** Checksums *)

Definition checksum (data : bytes) : option Z :=
  complement <$> fold_carry carry_fuel (sum_words data 0).

(** [for chunk in octets.chunks(2)] over the 16 octets of an address. *)
Fixpoint sum_chunks (l : bytes) (sum : Z) : Z :=
  match l with
  | a :: b :: rest => sum_chunks rest (wrap 32 (sum + from_be_bytes [a; b]))
  | _ => sum
  end.
(** The loop over the ICMPv6 data from position [i], which skips the word at 2. *)
Fixpoint sum_icmpv6 (data : bytes) (i : nat) (sum : Z) : Z :=
  match data with
  | a :: b :: rest =>
      sum_icmpv6 rest (i + 2)
        (if (i =? 2)%nat then sum else wrap 32 (sum + from_be_bytes [a; b]))
  | [a] => wrap 32 (sum + wrap 32 (Z.shiftl (byte_to_Z a) 8))
  | [] => sum
  end.
Definition icmpv6_checksum (src dst : Z) (icmp_data : bytes) : option Z :=
  let sum := sum_chunks (to_be_bytes 16 src) 0 in
  let sum := sum_chunks (to_be_bytes 16 dst) sum in
  let sum := wrap 32 (sum + wrap 32 (len icmp_data)) in
  let sum := wrap 32 (sum + 58) in
  let sum := sum_icmpv6 icmp_data 0 sum in
  complement <$> fold_carry carry_fuel sum.

(** ** Recognising and parsing requests *)

Definition is_echo_request (packet : bytes) : outcome bool :=
  if (length packet <? 20)%nat then Found false else
  let! b0 := idx packet 0 in
  let version := Z.land (Z.shiftr (byte_to_Z b0) 4) 0xF in
  if version =? 4 then
    let! p9 := idx packet 9 in
    if negb (byte_to_Z p9 =? 1) then Found false else
    let ihl := (Z.to_nat (Z.land (byte_to_Z b0) 0xF) * 4)%nat in
    if (length packet <? ihl + 8)%nat then Found false else
    let! t := idx packet ihl in
    Found (byte_to_Z t =? ICMP_ECHO_REQUEST)
  else if version =? 6 then
    if (length packet <? 40 + 8)%nat then Found false else
    let! p6 := idx packet 6 in
    if negb (byte_to_Z p6 =? 58) then Found false else
    let! t := idx packet 40 in
    Found (byte_to_Z t =? ICMPV6_ECHO_REQUEST)
  else Found false.

Definition parse_ipv4_echo (packet : bytes) : outcome IcmpEchoPacket :=
  let! b0 := idx packet 0 in
  let ihl := (Z.to_nat (Z.land (byte_to_Z b0) 0xF) * 4)%nat in
  if (length packet <? ihl + 8)%nat then Nothing else
  let! source := idx_ipv4 packet 12 in
  let! target := idx_ipv4 packet 16 in
  let! ttl := idx packet 8 in
  let! icmp := idx_range packet ihl (length packet) in
  let! t := idx icmp 0 in
  if negb (byte_to_Z t =? ICMP_ECHO_REQUEST) then Nothing else
  let! id := idx_be16 icmp 4 5 in
  let! sequence := idx_be16 icmp 6 7 in
  let! payload := idx_range icmp 8 (length icmp) in
  Found (mkEcho target source id sequence payload (byte_to_Z ttl)).

Definition parse_ipv6_echo (packet : bytes) : outcome IcmpEchoPacket :=
  if (length packet <? 40 + 8)%nat then Nothing else
  let! source := idx_ipv6 packet 8 in
  let! target := idx_ipv6 packet 24 in
  let! ttl := idx packet 7 in
  let! icmp := idx_range packet 40 (length packet) in
  let! t := idx icmp 0 in
  if negb (byte_to_Z t =? ICMPV6_ECHO_REQUEST) then Nothing else
  let! id := idx_be16 icmp 4 5 in
  let! sequence := idx_be16 icmp 6 7 in
  let! payload := idx_range icmp 8 (length icmp) in
  Found (mkEcho target source id sequence payload (byte_to_Z ttl)).

Definition parse_echo_request (packet : bytes) : outcome IcmpEchoPacket :=
  if (length packet <? 20)%nat then Nothing else
  let! b0 := idx packet 0 in
  let version := Z.land (Z.shiftr (byte_to_Z b0) 4) 0xF in
  if version =? 4 then parse_ipv4_echo packet
  else if version =? 6 then parse_ipv6_echo packet
  else Nothing.

(** ** Building replies *)

Definition build_ipv4_reply (req : IcmpEchoPacket) : outcome bytes :=
  match target req, source req with
  | V4 src_ip, V4 dst_ip =>
      let icmp_len := (8 + length (payload req))%nat in
      let total_len := (20 + icmp_len)%nat in
      let packet := replicate total_len Byte.x00 in
      let! packet := set_byte packet 0 0x45 in
      let! packet := set_byte packet 1 0 in
      let total := wrap 16 (Z.of_nat total_len) in
      let! packet := copy_from_slice packet 2 4 (to_be_bytes 2 total) in
      let! packet := copy_from_slice packet 4 6 (to_be_bytes 2 0) in
      let! packet := set_byte packet 6 0x40 in
      let! packet := set_byte packet 7 0 in
      let! packet := set_byte packet 8 64 in
      let! packet := set_byte packet 9 1 in
      let! packet := copy_from_slice packet 12 16 (to_be_bytes 4 src_ip) in
      let! packet := copy_from_slice packet 16 20 (to_be_bytes 4 dst_ip) in
      let! packet := set_byte packet 20 ICMP_ECHO_REPLY in
      let! packet := set_byte packet 21 0 in
      let! packet := copy_from_slice packet 24 26 (to_be_bytes 2 (id req)) in
      let! packet := copy_from_slice packet 26 28 (to_be_bytes 2 (sequence req)) in
      let! packet := copy_from_slice packet 28 total_len (payload req) in
      let! icmp := idx_range packet 20 total_len in
      let! icmp_cksum := fueled (checksum icmp) in
      let! packet := copy_from_slice packet 22 24 (to_be_bytes 2 icmp_cksum) in
      let! header := idx_range packet 0 20 in
      let! ip_cksum := fueled (checksum header) in
      copy_from_slice packet 10 12 (to_be_bytes 2 ip_cksum)
  | _, _ => Panic
  end.

Definition build_ipv6_reply (req : IcmpEchoPacket) : outcome bytes :=
  match target req, source req with
  | V6 src_ip, V6 dst_ip =>
      let icmp_len := (8 + length (payload req))%nat in
      let total_len := (40 + icmp_len)%nat in
      let packet := replicate total_len Byte.x00 in
      let! packet := set_byte packet 0 0x60 in
      let payload_len := wrap 16 (Z.of_nat icmp_len) in
      let! packet := copy_from_slice packet 4 6 (to_be_bytes 2 payload_len) in
      let! packet := set_byte packet 6 58 in
      let! packet := set_byte packet 7 64 in
      let! packet := copy_from_slice packet 8 24 (to_be_bytes 16 src_ip) in
      let! packet := copy_from_slice packet 24 40 (to_be_bytes 16 dst_ip) in
      let! packet := set_byte packet 40 ICMPV6_ECHO_REPLY in
      let! packet := set_byte packet 41 0 in
      let! packet := copy_from_slice packet 44 46 (to_be_bytes 2 (id req)) in
      let! packet := copy_from_slice packet 46 48 (to_be_bytes 2 (sequence req)) in
      let! packet := copy_from_slice packet 48 total_len (payload req) in
      let! icmp := idx_range packet 40 total_len in
      let! cksum := fueled (icmpv6_checksum src_ip dst_ip icmp) in
      copy_from_slice packet 42 44 (to_be_bytes 2 cksum)
  | _, _ => Panic
  end.

Definition build_echo_reply (req : IcmpEchoPacket) : outcome bytes :=
  match target req with
  | V4 _ => build_ipv4_reply req
  | V6 _ => build_ipv6_reply req
  end.

(** ** The raw socket exchange

    The datagram sent, and the test on each datagram received. *)

Definition raw_request (echo : IcmpEchoPacket) : outcome bytes :=
  let icmp_type := match target echo with V4 _ => ICMP_ECHO_REQUEST | V6 _ => ICMPV6_ECHO_REQUEST end in
  let icmp_buf := [byte_of_Z icmp_type] ++ [byte_of_Z 0] ++ [Byte.x00; Byte.x00]
                  ++ to_be_bytes 2 (id echo) ++ to_be_bytes 2 (sequence echo) ++ payload echo in
  let! cksum := fueled (checksum icmp_buf) in
  copy_from_slice icmp_buf 2 4 (to_be_bytes 2 cksum).

Definition raw_reply (echo : IcmpEchoPacket) (reply_buf : bytes) : outcome IcmpEchoPacket :=
  if (8 <=? length reply_buf)%nat then
    let reply_type := match target echo with V4 _ => ICMP_ECHO_REPLY | V6 _ => ICMPV6_ECHO_REPLY end in
    let! t := idx reply_buf 0 in
    if byte_to_Z t =? reply_type then
      let! reply_id := idx_be16 reply_buf 4 5 in
      let! reply_seq := idx_be16 reply_buf 6 7 in
      if (reply_id =? id echo) && (reply_seq =? sequence echo) then
        let! rest := idx_range reply_buf 8 (length reply_buf) in
        Found (mkEcho (source echo) (target echo) reply_id reply_seq rest 64)
      else Nothing
    else Nothing
  else Nothing.

(** ** Checksums verify *)

Lemma checksum_verifies pre post :
  Nat.Even (length pre) → len pre + len post < 100000 →
  ∃ c, checksum (pre ++ [Byte.x00; Byte.x00] ++ post) = Some c ∧ u16_ok c
     ∧ checksum (pre ++ to_be_bytes 2 c ++ post) = Some 0.
Proof. apply inet_sum_verifies. Qed.

(** ** The shape of a reply *)

Definition icmp_message (ty ck ident seq : Z) (data : bytes) : bytes :=
  [byte_of_Z ty; byte_of_Z 0] ++ to_be_bytes 2 ck ++ to_be_bytes 2 ident ++ to_be_bytes 2 seq ++ data.

#[local] Arguments checksum : simpl never.
#[local] Arguments icmpv6_checksum : simpl never.

(** A reply is a header and a message, with the checksums of the two. *)
Lemma build_ipv4_reply_steps s d req :
  target req = V4 s → source req = V4 d →
  let total := wrap 16 (Z.of_nat (28 + length (payload req))) in
  let msg ck := icmp_message 0 ck (id req) (sequence req) (payload req) in
  let hdr ck := ipv4_header 0 total 0 0x4000 64 1 ck s d [] in
  build_ipv4_reply req
  = let! c1 := fueled (checksum (msg 0)) in
    let! c2 := fueled (checksum (hdr 0)) in
    Found (hdr c2 ++ msg c1).
Proof.
  intros H1 H2 total msg hdr. unfold build_ipv4_reply. rewrite H1, H2. cbv zeta.
  hide_rhs. replay. replay_payload 28%nat.
  match goal with |- bind_outcome (fueled (checksum ?l)) _ = _ => change l with (msg 0) end.
  destruct (fueled (checksum (msg 0))) as [c1| | |]; subst rhs; [|reflexivity..].
  cbn [bind_outcome]. hide_rhs. replay.
  match goal with |- context [idx_range ?l 0 20] => change (idx_range l 0 20) with (Found (hdr 0)) end.
  cbn [bind_outcome].
  destruct (fueled (checksum (hdr 0))); subst rhs; reflexivity.
Qed.

Lemma build_ipv6_reply_steps s d req :
  target req = V6 s → source req = V6 d →
  let plen := wrap 16 (Z.of_nat (8 + length (payload req))) in
  let msg ck := icmp_message 129 ck (id req) (sequence req) (payload req) in
  build_ipv6_reply req
  = let! c := fueled (icmpv6_checksum s d (msg 0)) in
    Found (ipv6_header 0 plen 58 64 s d ++ msg c).
Proof.
  intros H1 H2 plen msg. unfold build_ipv6_reply. rewrite H1, H2. cbv zeta.
  hide_rhs. replay. replay_payload 48%nat.
  match goal with |- bind_outcome (fueled (icmpv6_checksum _ _ ?l)) _ = _ => change l with (msg 0) end.
  destruct (fueled (icmpv6_checksum s d (msg 0))); subst rhs; reflexivity.
Qed.

(** ** Correctness of replies *)

(** The pseudo-header of RFC 8200 an ICMPv6 checksum covers. *)
Definition pseudo_header (src dst n : Z) : bytes :=
  to_be_bytes 16 src ++ to_be_bytes 16 dst ++ to_be_bytes 4 n ++ [Byte.x00; Byte.x00; Byte.x00; byte_of_Z 58].

Lemma sum_chunks_small l s :
  Nat.Even (length l) → 0 <= s → s + words l < 2 ^ 32 → sum_chunks l s = s + words l.
Proof.
  revert s. induction l as [|a|a b l IH] using list_two_ind; intros s He Hs Hb; cbn [sum_chunks words] in *.
  - lia.
  - destruct He as [m Hm]. simpl in Hm. lia.
  - pose proof (from_be2_ok a b) as Hw. unfold in_width in Hw. pose proof (words_range l).
    rewrite wrap_small by (unfold in_width; lia). rewrite IH; [lia| |lia..].
    destruct He as [m Hm]. simpl in Hm. exists (m - 1)%nat. lia.
Qed.

Lemma sum_icmpv6_words l i s : (2 < i)%nat → sum_icmpv6 l i s = sum_words l s.
Proof.
  revert i s. induction l as [|a|a b l IH] using list_two_ind; intros i s Hi; cbn [sum_icmpv6 sum_words]; try done.
  destruct (Nat.eqb_spec i 2); [lia|]. apply IH. lia.
Qed.

Lemma words_be4_small z : u16_ok z → words (to_be_bytes 4 z) = z.
Proof.
  intros Hz. unfold in_width in Hz. change (2 ^ 16) with 65536 in Hz.
  assert (E : to_be_bytes 4 z = to_be_bytes 2 0 ++ to_be_bytes 2 z).
  { cbn [to_be_bytes app]. rewrite !(Z.div_small z) by (simpl; lia). done. }
  rewrite E, words_be2 by (unfold in_width; lia). rewrite <- (app_nil_r (to_be_bytes 2 z)), words_be2.
  - cbn [words]. lia.
  - unfold in_width. lia.
Qed.

Lemma icmpv6_checksum_words s d a b rest :
  len rest < 70000 →
  icmpv6_checksum s d ([a; b] ++ [Byte.x00; Byte.x00] ++ rest)
  = complement <$> fold_carry carry_fuel
      (words (to_be_bytes 16 s) + words (to_be_bytes 16 d) + (4 + len rest) + 58
       + words ([a; b] ++ rest)).
Proof.
  intros Hlen. unfold icmpv6_checksum.
  pose proof (words_range (to_be_bytes 16 s)) as Hs. pose proof (words_range (to_be_bytes 16 d)) as Hd.
  change (len (to_be_bytes 16 s)) with 16 in Hs. change (len (to_be_bytes 16 d)) with 16 in Hd.
  assert (Hl : len ([a; b] ++ [Byte.x00; Byte.x00] ++ rest) = 4 + len rest) by (unfold len; simpl; lia).
  pose proof (words_range rest). pose proof (from_be2_ok a b) as Hab. unfold in_width in Hab.
  pose proof (len_nonneg rest).
  rewrite (sum_chunks_small (to_be_bytes 16 s)) by (try (exists 8%nat; done); lia).
  rewrite (sum_chunks_small (to_be_bytes 16 d)) by (try (exists 8%nat; done); lia).
  rewrite Hl. rewrite (wrap_small 32 (4 + len rest)) by (unfold in_width; lia).
  rewrite (wrap_small 32 (_ + (4 + len rest))) by (unfold in_width; lia).
  rewrite (wrap_small 32 (_ + 58)) by (unfold in_width; lia).
  cbn [app sum_icmpv6 Nat.eqb Nat.add words]. rewrite sum_icmpv6_words by lia.
  rewrite sum_words_small; rewrite ?wrap_small by (unfold in_width; lia); [|lia..].
  f_equal. f_equal. lia.
Qed.

(** What the ICMPv6 checksum is for: with it in place, the pseudo-header and the
    message check to zero. *)
Lemma icmpv6_checksum_verifies s d a b rest :
  len rest < 65532 →
  ∃ c, icmpv6_checksum s d ([a; b] ++ [Byte.x00; Byte.x00] ++ rest) = Some c ∧ u16_ok c
     ∧ checksum (pseudo_header s d (4 + len rest) ++ [a; b] ++ to_be_bytes 2 c ++ rest) = Some 0.
Proof.
  intros Hlen. rewrite icmpv6_checksum_words by lia.
  pose proof (words_range (to_be_bytes 16 s)) as Hs. pose proof (words_range (to_be_bytes 16 d)) as Hd.
  change (len (to_be_bytes 16 s)) with 16 in Hs. change (len (to_be_bytes 16 d)) with 16 in Hd.
  pose proof (words_range ([a; b] ++ rest)) as Hr. pose proof (len_nonneg rest).
  assert (Hl : len ([a; b] ++ rest) = 2 + len rest) by (unfold len; simpl; lia). rewrite Hl in Hr.
  assert (Hab : ∀ l, words ([a; b] ++ l) = words [a; b] + words l) by (intros; by apply words_app; exists 1%nat).
  rewrite Hab in *.
  match goal with |- context [fold_carry _ ?S] => destruct (complement_cancels S) as (c & Ec & Hc & Ez) end;
    [lia|].
  exists c. split_and!; [done|apply Hc..|]. rewrite <- Ez. unfold checksum. do 2 f_equal.
  assert (Hc' := Hc). unfold in_width in Hc'. change (2 ^ 16) with 65536 in Hc'.
  assert (W : words (pseudo_header s d (4 + len rest) ++ [a; b] ++ to_be_bytes 2 c ++ rest)
    = words (to_be_bytes 16 s) + words (to_be_bytes 16 d) + (4 + len rest) + 58
      + (words [a; b] + words rest) + c).
  { unfold pseudo_header. rewrite <- !app_assoc.
    do 2 rewrite words_app by (exists 8%nat; done). rewrite words_app by (exists 2%nat; done).
    rewrite words_be4_small by (unfold in_width; lia). rewrite words_app by (exists 2%nat; done).
    change (words [Byte.x00; Byte.x00; Byte.x00; byte_of_Z 58]) with 58.
    rewrite Hab, words_be2 by done. lia. }
  rewrite sum_words_small, W by lia. lia.
Qed.

(** A request as the parsers return it: both addresses of one family, 16-bit
    fields, and a payload that leaves the reply within 65535 bytes. *)
Definition echo_ok (req : IcmpEchoPacket) : Prop :=
  match target req, source req with
  | V4 s, V4 d => u32_ok s ∧ u32_ok d
  | V6 s, V6 d => in_width 128 s ∧ in_width 128 d
  | _, _ => False
  end
  ∧ u16_ok (id req) ∧ u16_ok (sequence req) ∧ len (payload req) <= 65507.

(** The echo a requester expects back. *)
Definition reply_to (req : IcmpEchoPacket) : IcmpEchoPacket :=
  mkEcho (source req) (target req) (id req) (sequence req) (payload req) 64.

(** The checksums of a packet from [s] to [d] check to zero. *)
Definition checksums_verify (src : IpAddr) (dst : IpAddr) (off : nat) (q : bytes) : Prop :=
  match src, dst with
  | V4 _, V4 _ => checksum (take off q) = Some 0 ∧ checksum (drop off q) = Some 0
  | V6 s, V6 d => checksum (pseudo_header s d (len (drop off q)) ++ drop off q) = Some 0
  | _, _ => False
  end.

Lemma raw_reply_message req ty ck :
  u16_ok (id req) → u16_ok (sequence req) →
  (match target req with V4 _ => ty = 0 | V6 _ => ty = 129 end) →
  raw_reply req (icmp_message ty ck (id req) (sequence req) (payload req)) = Found (reply_to req).
Proof.
  intros Hi Hs Hty. set (m := icmp_message _ _ _ _ _).
  assert (Hlen : length m = (8 + length (payload req))%nat) by done.
  unfold raw_reply. destruct (Nat.leb_spec 8 (length m)); [|lia]. idx_eval.
  change (byte_at m 0) with (byte_of_Z ty).
  change (from_be_bytes [byte_at m 4; byte_at m 5]) with (from_be_bytes (to_be_bytes 2 (id req))).
  change (from_be_bytes [byte_at m 6; byte_at m 7]) with (from_be_bytes (to_be_bytes 2 (sequence req))).
  rewrite !from_to_be_2, !Z.eqb_refl by done. cbn [andb].
  assert (Hsl : slice m 8 (length m) = payload req).
  { change m with (take 8 m ++ payload req) at 1. unfold slice.
    change (drop 8 (take 8 m ++ payload req)) with (payload req). apply take_ge. lia. }
  rewrite Hsl. cbn [bind_outcome].
  unfold reply_to.
  destruct (target req); subst ty; rewrite byte_to_of_small by (unfold in_width; lia); done.
Qed.

(** The reply that is built for a request, and what a receiver makes of it. *)
Definition echo_answered (req : IcmpEchoPacket) : Prop :=
  ∃ q off, build_echo_reply req = Found q
  ∧ parse_ip_packet q
    = Found (Ok (mkParsed (match target req with V4 _ => 4 | V6 _ => 6 end) IpProtocol.Icmp
                   (target req) (source req) 0 0 off (length q)))
  ∧ checksums_verify (target req) (source req) off q
  ∧ raw_reply req (drop off q) = Found (reply_to req).
Lemma echo_reply_v4 req s d :
  echo_ok req → target req = V4 s → source req = V4 d → echo_answered req.
Proof.
  intros (Hfam & Hid & Hseq & Hl) Et Es. unfold echo_answered, build_echo_reply. rewrite Et, Es in *. destruct Hfam as [Hs Hd].
  pose proof (len_nonneg (payload req)).
  rewrite (build_ipv4_reply_steps s d) by done. cbv zeta.
  set (n := wrap 16 _). assert (Hn : n = 28 + len (payload req))
    by (unfold n, len in *; rewrite wrap_small by (unfold in_width; lia); lia).
  destruct (checksum_verifies [byte_of_Z 0; byte_of_Z 0]
    (to_be_bytes 2 (id req) ++ to_be_bytes 2 (sequence req) ++ payload req)) as (c1 & E1 & H1 & V1).
  { by exists 1%nat. } { unfold len in *. simpl. lia. }
  destruct (checksum_verifies (take 10 (ipv4_header 0 n 0 0x4000 64 1 0 s d []))
    (to_be_bytes 4 s ++ to_be_bytes 4 d)) as (c2 & E2 & H2 & V2).
  { by exists 5%nat. } { done. }
  change (checksum (icmp_message _ _ _ _ _)) with (checksum ([byte_of_Z 0; byte_of_Z 0] ++
    [Byte.x00; Byte.x00] ++ to_be_bytes 2 (id req) ++ to_be_bytes 2 (sequence req) ++ payload req)).
  change (checksum (ipv4_header 0 n 0 0x4000 64 1 0 s d [])) with (checksum
    (take 10 (ipv4_header 0 n 0 0x4000 64 1 0 s d []) ++ [Byte.x00; Byte.x00] ++ to_be_bytes 4 s ++ to_be_bytes 4 d)).
  rewrite E1, E2. cbn [fueled bind_outcome].
  set (h := ipv4_header _ _ _ _ _ _ c2 _ _ _). set (m := icmp_message _ c1 _ _ _).
  exists (h ++ m), 20%nat. split_and!; [done| |split|].
  - unfold h at 1. rewrite parse_ipv4_header by (try done; unfold in_width; simpl; lia). cbn [bind_outcome].
    unfold parse_ports. rewrite andb_false_r. cbn [bind_outcome fst snd]. do 3 f_equal.
    rewrite Hn. unfold len. change (length (h ++ m)) with (28 + length (payload req))%nat. lia.
  - exact V2.
  - exact V1.
  - change (drop 20 (h ++ m)) with m. apply raw_reply_message; [done..|by rewrite Et].
Qed.
Lemma echo_reply_v6 req s d :
  echo_ok req → target req = V6 s → source req = V6 d → echo_answered req.
Proof.
  intros (Hfam & Hid & Hseq & Hl) Et Es. unfold echo_answered, build_echo_reply. rewrite Et, Es in *. destruct Hfam as [Hs Hd].
  pose proof (len_nonneg (payload req)).
  rewrite (build_ipv6_reply_steps s d) by done. cbv zeta.
  set (n := wrap 16 _). assert (Hn : n = 8 + len (payload req))
    by (unfold n, len in *; rewrite wrap_small by (unfold in_width; lia); lia).
  set (rest := to_be_bytes 2 (id req) ++ to_be_bytes 2 (sequence req) ++ payload req).
  assert (Hrest : len rest = 4 + len (payload req)) by (unfold len; simpl; lia).
  destruct (icmpv6_checksum_verifies s d (byte_of_Z 129) (byte_of_Z 0) rest) as (c & E & Hc & V); [lia|].
  change (icmp_message 129 0 _ _ _) with ([byte_of_Z 129; byte_of_Z 0] ++ [Byte.x00; Byte.x00] ++ rest).
  rewrite E. cbn [fueled bind_outcome].
  set (h := ipv6_header _ _ _ _ _ _). set (m := icmp_message _ c _ _ _).
  assert (Hm : len m = 4 + len rest) by (unfold len; simpl; lia).
  exists (h ++ m), 40%nat. split_and!; [done| | |].
  - unfold h at 1. rewrite parse_ipv6_header by (try done; unfold in_width; simpl; lia). cbn [bind_outcome].
    unfold parse_ports. rewrite andb_false_r. cbn [bind_outcome fst snd]. do 3 f_equal.
    rewrite Hn. unfold len. change (length (h ++ m)) with (48 + length (payload req))%nat. lia.
  - change (checksum (pseudo_header s d (len m) ++ m) = Some 0). rewrite Hm. exact V.
  - change (drop 40 (h ++ m)) with m. apply raw_reply_message; [done..|by rewrite Et].
Qed.

(** C35: an echo reply is what the requester expects: for every request with
    addresses of one family and at most 65507 bytes of payload, building the reply does not panic and gives a packet
    that parses as ICMP from the pinged host back to the requester with its own
    length as total length, whose header and message checksums verify (for IPv6
    over the pseudo-header), and whose message is recognised as the reply to this
    request with its identifier, sequence number and payload. *)
Theorem echo_reply_correct req :
  echo_ok req →
  ∃ q off, build_echo_reply req = Found q
  ∧ parse_ip_packet q
    = Found (Ok (mkParsed (match target req with V4 _ => 4 | V6 _ => 6 end) IpProtocol.Icmp
                   (target req) (source req) 0 0 off (length q)))
  ∧ checksums_verify (target req) (source req) off q
  ∧ raw_reply req (drop off q) = Found (reply_to req).
Proof.
  intros Hok. change (echo_answered req). pose proof Hok as (Hfam & _).
  destruct (target req) as [s|s] eqn:Et, (source req) as [d|d] eqn:Es; try done.
  - by apply (echo_reply_v4 req s d).
  - by apply (echo_reply_v6 req s d).
Qed.

Lemma echo_reply_correct_witness :
  let req := mkEcho (V4 0x08080808) (V4 0x0A000001) 4660 1 [Byte.x61; Byte.x62; Byte.x63] 64 in
  ∃ q off, build_echo_reply req = Found q
  ∧ parse_ip_packet q
    = Found (Ok (mkParsed 4 IpProtocol.Icmp (V4 0x08080808) (V4 0x0A000001) 0 0 off (length q)))
  ∧ checksums_verify (target req) (source req) off q
  ∧ raw_reply req (drop off q) = Found (reply_to req).
Proof.
  intros req. apply (echo_reply_correct req).
  unfold echo_ok, in_width, len, req; cbn [target source id sequence payload length]; lia.
Defined.

(** ** Requests *)

(** The common end of the two request parsers. *)
Lemma icmp_fields ty ck ident seq data :
  u16_ok ident → u16_ok seq →
  let m := icmp_message ty ck ident seq data in
  idx m 0 = Found (byte_of_Z ty) ∧ idx_be16 m 4 5 = Found ident ∧ idx_be16 m 6 7 = Found seq
  ∧ idx_range m 8 (length m) = Found data.
Proof.
  intros Hi Hs m. assert (Hlen : length m = (8 + length data)%nat) by done.
  rewrite idx_found, !idx_be16_found by lia. split_and!.
  - done.
  - f_equal. by apply from_to_be_2.
  - f_equal. by apply from_to_be_2.
  - exact (idx_range_tail (take 8 m) data (length m) eq_refl).
Qed.

Lemma echo_request_parsed_v4 tos total ident flags hops ck src dst options ick eid seq data :
  u32_ok src → u32_ok dst → u8_ok hops →
  (length options ≤ 40)%nat → (length options mod 4 = 0)%nat → u16_ok eid → u16_ok seq →
  let p := ipv4_header tos total ident flags hops 1 ck src dst options
           ++ icmp_message ICMP_ECHO_REQUEST ick eid seq data in
  is_echo_request p = Found true
  ∧ parse_echo_request p = Found (mkEcho (V4 dst) (V4 src) eid seq data hops).
Proof.
  intros Hsrc Hdst Hh Ho Hom Hid Hseq p.
  set (h := ipv4_header tos total ident flags hops 1 ck src dst options) in p.
  set (m := icmp_message ICMP_ECHO_REQUEST ick eid seq data) in p.
  destruct (ipv4_header_first tos total ident flags hops 1 ck src dst options m Ho Hom) as [Hv Hihl].
  fold h p in Hv, Hihl.
  destruct (icmp_fields ICMP_ECHO_REQUEST ick eid seq data Hid Hseq) as (F0 & F4 & F6 & F8).
  fold m in F0, F4, F6, F8.
  assert (Hh4 : length h = (20 + length options)%nat) by apply length_ipv4_header.
  assert (Hl : length p = (20 + length options + 8 + length data)%nat).
  { unfold p. rewrite length_app, Hh4. change (length m) with (8 + length data)%nat. lia. }
  assert (Htype : byte_at p (20 + length options) = byte_of_Z ICMP_ECHO_REQUEST)
    by (unfold p; rewrite <- Hh4; apply byte_at_app_0).
  assert (Htail : slice p (20 + length options) (length p) = m)
    by (rewrite <- Hh4; apply slice_tail).
  split.
  - unfold is_echo_request. destruct (Nat.ltb_spec (length p) 20); [lia|]. idx_eval.
    cbv zeta. rewrite Hv, Hihl. change (byte_at p 9) with (byte_of_Z 1).
    change (Z.land 4 15 =? 4) with true. change (negb (byte_to_Z (byte_of_Z 1) =? 1)) with false. cbv iota.
    destruct (Nat.ltb_spec (length p) (20 + length options + 8)); [lia|]. idx_eval. by rewrite Htype.
  - unfold parse_echo_request, parse_ipv4_echo. destruct (Nat.ltb_spec (length p) 20); [lia|].
    idx_eval. cbv zeta. rewrite Hv, Hihl. change (Z.land 4 15 =? 4) with true. cbv iota.
    destruct (Nat.ltb_spec (length p) (20 + length options + 8)); [lia|].
    rewrite !idx_ipv4_found, Htail by lia. cbn [bind_outcome].
    rewrite F0, F4, F6, F8. cbn [bind_outcome]. change (byte_at p 8) with (byte_of_Z hops).
    change (slice p 12 (12 + 4)) with (to_be_bytes 4 src). change (slice p 16 (16 + 4)) with (to_be_bytes 4 dst).
    change (negb (byte_to_Z (byte_of_Z ICMP_ECHO_REQUEST) =? ICMP_ECHO_REQUEST)) with false. cbv iota.
    by rewrite !from_to_be_4, byte_to_of_small by done.
Qed.

Lemma echo_request_parsed_v6 cf plen hops src dst ick eid seq data :
  in_width 28 cf → in_width 128 src → in_width 128 dst → u8_ok hops → u16_ok eid → u16_ok seq →
  let p := ipv6_header cf plen 58 hops src dst ++ icmp_message ICMPV6_ECHO_REQUEST ick eid seq data in
  is_echo_request p = Found true
  ∧ parse_echo_request p = Found (mkEcho (V6 dst) (V6 src) eid seq data hops).
Proof.
  intros Hcf Hsrc Hdst Hh Hid Hseq p.
  set (h := ipv6_header cf plen 58 hops src dst) in p.
  set (m := icmp_message ICMPV6_ECHO_REQUEST ick eid seq data) in p.
  pose proof (ipv6_header_first cf plen 58 hops src dst m Hcf) as Hv. fold h p in Hv.
  destruct (icmp_fields ICMPV6_ECHO_REQUEST ick eid seq data Hid Hseq) as (F0 & F4 & F6 & F8).
  fold m in F0, F4, F6, F8.
  assert (Hl : length p = (48 + length data)%nat) by done.
  assert (Htail : slice p 40 (length p) = m) by (apply (slice_tail h m)).
  split.
  - unfold is_echo_request. destruct (Nat.ltb_spec (length p) 20); [lia|]. idx_eval.
    cbv zeta. rewrite Hv. change (Z.land 6 15 =? 4) with false. change (Z.land 6 15 =? 6) with true. cbv iota.
    destruct (Nat.ltb_spec (length p) (40 + 8)); [lia|]. by idx_eval.
  - unfold parse_echo_request, parse_ipv6_echo. destruct (Nat.ltb_spec (length p) 20); [lia|].
    idx_eval. cbv zeta. rewrite Hv. change (Z.land 6 15 =? 4) with false.
    change (Z.land 6 15 =? 6) with true. cbv iota.
    destruct (Nat.ltb_spec (length p) (40 + 8)); [lia|].
    rewrite !idx_ipv6_found, Htail by lia. cbn [bind_outcome].
    rewrite F0, F4, F6, F8. cbn [bind_outcome]. change (byte_at p 7) with (byte_of_Z hops).
    change (slice p 8 (8 + 16)) with (to_be_bytes 16 src). change (slice p 24 (24 + 16)) with (to_be_bytes 16 dst).
    change (negb (byte_to_Z (byte_of_Z ICMPV6_ECHO_REQUEST) =? ICMPV6_ECHO_REQUEST)) with false. cbv iota.
    by rewrite !from_to_be_bytes, byte_to_of_small by done.
Qed.

(** Only the length tests decide whether the parsers read in range. *)
Lemma parse_echo_request_safe p : safe (parse_echo_request p).
Proof.
  unfold parse_echo_request, parse_ipv4_echo, parse_ipv6_echo. cbv zeta.
  repeat first [safe_step | apply safe_idx_ipv4 | apply safe_idx_ipv6
    | match goal with H : idx_range _ _ _ = Found _ |- _ => apply idx_range_inv in H as [??] end]; lia.
Qed.

Lemma is_echo_request_safe p : safe (is_echo_request p).
Proof. unfold is_echo_request. cbv zeta. repeat safe_step; lia. Qed.

(** The end of both parsers succeeds on a message long enough whose type was
    checked. *)
Lemma icmp_tail_found icmp ty (k : Z → Z → bytes → IcmpEchoPacket) :
  (8 ≤ length icmp)%nat → (byte_to_Z (byte_at icmp 0) =? ty) = true →
  ∃ i s d, (let! t := idx icmp 0 in
            if negb (byte_to_Z t =? ty) then Nothing else
            let! id := idx_be16 icmp 4 5 in
            let! sequence := idx_be16 icmp 6 7 in
            let! payload := idx_range icmp 8 (length icmp) in
            Found (k id sequence payload)) = Found (k i s d).
Proof. intros Hl Ht. idx_eval. rewrite Ht. simpl. eauto. Qed.

Definition same_family (a b : IpAddr) : bool :=
  match a, b with V4 _, V4 _ | V6 _, V6 _ => true | _, _ => false end.

(** Recognising and parsing echo requests are total and agree: neither
    panics on any packet, and every packet recognised as an echo request is
    parsed into one whose two addresses are of one family. *)
Theorem echo_recognised_parses p :
  safe (is_echo_request p) ∧ safe (parse_echo_request p)
  ∧ (is_echo_request p = Found true →
     ∃ e, parse_echo_request p = Found e ∧ same_family (target e) (source e) = true).
Proof.
  split_and!; [apply is_echo_request_safe | apply parse_echo_request_safe |].
  unfold is_echo_request, parse_echo_request.
  destruct (Nat.ltb_spec (length p) 20); [done|]. rewrite idx_found by lia. cbn [bind_outcome]. cbv zeta.
  destruct (_ =? 4).
  - unfold parse_ipv4_echo. rewrite (idx_found p 0), (idx_found p 8), (idx_found p 9) by lia. cbn [bind_outcome]. cbv zeta.
    destruct (negb _); [done|]. set (ihl := (_ * 4)%nat).
    destruct (Nat.ltb_spec (length p) (ihl + 8)); [done|]. rewrite idx_found by lia. cbn [bind_outcome].
    intros [= Ht]. rewrite !idx_ipv4_found by lia. cbn [bind_outcome].
    rewrite idx_range_found by lia. cbn [bind_outcome].
    match goal with |- context [mkEcho ?a ?b _ _ _ ?t] =>
      destruct (icmp_tail_found (slice p ihl (length p)) ICMP_ECHO_REQUEST (fun i s d => mkEcho a b i s d t))
        as (i & s & d & E) end.
    { rewrite length_slice; lia. } { by rewrite slice_cons by lia. }
    rewrite E. eauto.
  - destruct (_ =? 6); [|done]. unfold parse_ipv6_echo.
    destruct (Nat.ltb_spec (length p) (40 + 8)); [done|].
    rewrite (idx_found p 6), (idx_found p 7), (idx_found p 40) by lia. cbn [bind_outcome].
    destruct (negb _); [done|]. intros [= Ht].
    rewrite !idx_ipv6_found by lia. cbn [bind_outcome].
    rewrite idx_range_found by lia. cbn [bind_outcome].
    match goal with |- context [mkEcho ?a ?b _ _ _ ?t] =>
      destruct (icmp_tail_found (slice p 40 (length p)) ICMPV6_ECHO_REQUEST (fun i s d => mkEcho a b i s d t))
        as (i & s & d & E) end.
    { rewrite length_slice; lia. } { by rewrite slice_cons by lia. }
    rewrite E. eauto.
Qed.

(** The echo parsers read back well-formed requests: an IPv4 packet with any
    options, or an IPv6 packet, that carries an echo request is recognised, and
    parsing gives the addresses, identifier, sequence number, payload and
    remaining hops it was built from. *)
Theorem echo_request_parsed tos total ident flags hops ck src dst options cf plen src6 dst6
    ick eid seq data :
  u32_ok src → u32_ok dst → in_width 28 cf → in_width 128 src6 → in_width 128 dst6 → u8_ok hops →
  (length options ≤ 40)%nat → (length options mod 4 = 0)%nat → u16_ok eid → u16_ok seq →
  let p4 := ipv4_header tos total ident flags hops 1 ck src dst options
            ++ icmp_message ICMP_ECHO_REQUEST ick eid seq data in
  let p6 := ipv6_header cf plen 58 hops src6 dst6 ++ icmp_message ICMPV6_ECHO_REQUEST ick eid seq data in
  (is_echo_request p4 = Found true
   ∧ parse_echo_request p4 = Found (mkEcho (V4 dst) (V4 src) eid seq data hops))
  ∧ is_echo_request p6 = Found true
  ∧ parse_echo_request p6 = Found (mkEcho (V6 dst6) (V6 src6) eid seq data hops).
Proof.
  intros. split; [by apply echo_request_parsed_v4 | by apply echo_request_parsed_v6].
Qed.

Lemma echo_request_parsed_witness :
  parse_echo_request (ipv4_header 0 32 1 0 64 1 0 0x0A000001 0x08080808 [] ++ icmp_message 8 0 4660 1 [Byte.x61])
  = Found (mkEcho (V4 0x08080808) (V4 0x0A000001) 4660 1 [Byte.x61] 64).
Proof.
  refine (proj2 (proj1 (echo_request_parsed 0 32 1 0 64 0 0x0A000001 0x08080808 [] 0 9 1 2 0 4660 1 [Byte.x61]
    _ _ _ _ _ _ _ _ _ _))); try (unfold in_width; lia); cbn; lia.
Defined.

(** The header length is not checked: a packet whose IHL field is 2, which
    the packet parser rejects, is taken for an echo request when its TTL byte, at
    which the message is then supposed to start, is 8. *)
Theorem short_header_echo_accepted tos total ident flags ck src dst rest :
  let p := byte_of_Z 0x42 :: drop 1 (ipv4_header tos total ident flags 8 1 ck src dst [] ++ rest) in
  is_echo_request p = Found true ∧ parse_ip_packet p = Found (Err (InvalidIhl 8)).
Proof. by split. Qed.
