(* ===== verification/FakeIp.v ===== *)
(** * The FakeIP pool ([src/src/dns/fakeip.rs])

    Virtual addresses for domain names, with a map in each direction.  An
    allocation is three atomic steps of the shared pool (a read under the read
    lock, a [fetch_add], a commit under both write locks) and allocations of
    concurrent tasks interleave; [allocate] and [allocate_v6] are their
    uninterrupted composition. *)

From Stdlib Require Import Ascii.
From S2P Require Import Prelude RustStr Addr IpText.

Local Open Scope string_scope.
Local Open Scope list_scope.
Local Open Scope Z_scope.

Record FakeIpPool := {
  ipv4_base : Z;
  ipv4_size : Z;
  ipv4_offset : Z;
  ipv6_prefix : Z;
  ipv6_offset : Z;
  domain_to_ip : gmap string IpAddr;
  ip_to_domain : gmap IpAddr string;
  exclude_domains : list string
}.

Definition with_maps (d2i : gmap string IpAddr) (i2d : gmap IpAddr string) (p : FakeIpPool) :=
  {| ipv4_base := ipv4_base p; ipv4_size := ipv4_size p; ipv4_offset := ipv4_offset p;
     ipv6_prefix := ipv6_prefix p; ipv6_offset := ipv6_offset p;
     domain_to_ip := d2i; ip_to_domain := i2d; exclude_domains := exclude_domains p |}.
Definition with_offsets (o4 o6 : Z) (p : FakeIpPool) :=
  {| ipv4_base := ipv4_base p; ipv4_size := ipv4_size p; ipv4_offset := o4;
     ipv6_prefix := ipv6_prefix p; ipv6_offset := o6;
     domain_to_ip := domain_to_ip p; ip_to_domain := ip_to_domain p;
     exclude_domains := exclude_domains p |}.

(** [1u32 << n]: a shift by 32 or more is an overflow ([None]). *)
Definition shl_u32 (n : Z) : option Z := if n <? 32 then Some (Z.shiftl 1 n) else None.

(** [None] is the shift overflow of a [/0] pool. *)
Definition parse_ipv4_cidr (cidr : string) : option (Z * Z) :=
  let default_pool := Some (198 * 2 ^ 24 + 18 * 2 ^ 16, Z.shiftl 1 17) in
  match split_once "/" cidr with
  | Some (ip_str, prefix_str) =>
      match parse_ipv4 ip_str, parse_uint 32 prefix_str with
      | Some base, Some prefix =>
          size ← (if 32 <=? prefix then Some 1 else shl_u32 (32 - prefix)); Some (base, size)
      | _, _ => default_pool
      end
  | None => default_pool
  end.

Definition parse_ipv6_prefix (s : string) : option Z :=
  addr_str ← head (split_on "/" s); parse_ipv6 addr_str.

Definition pool_new (ipv4_cidr : string) (ipv6_pre : option string) (excl : list string)
  : option FakeIpPool :=
  '(base, size) ← parse_ipv4_cidr ipv4_cidr;
  Some {| ipv4_base := base; ipv4_size := size; ipv4_offset := 1;
          ipv6_prefix := default (0xfc00 * 2 ^ 112) (s ← ipv6_pre; parse_ipv6_prefix s);
          ipv6_offset := 1; domain_to_ip := ∅; ip_to_domain := ∅; exclude_domains := excl |}.

(** ** The three steps of an allocation *)

Inductive family := Fam4 | Fam6.

Definition map_key (f : family) (domain : string) : string :=
  match f with Fam4 => to_lowercase domain | Fam6 => "v6:" +:+ to_lowercase domain end.

(** Under the read lock. *)
Definition find_existing (k : string) (p : FakeIpPool) : option IpAddr := domain_to_ip p !! k.

(** [fetch_add] and the address it stands for. *)
Definition take_offset (f : family) (p : FakeIpPool) : IpAddr * FakeIpPool :=
  match f with
  | Fam4 =>
      let offset := ipv4_offset p in
      let actual_offset := offset mod ipv4_size p in
      (V4 (wrap 32 (ipv4_base p + actual_offset)),
       with_offsets (wrap 32 (offset + 1)) (ipv6_offset p) p)
  | Fam6 =>
      let offset := ipv6_offset p in
      (V6 (Z.lor (ipv6_prefix p) offset), with_offsets (ipv4_offset p) (wrap 32 (offset + 1)) p)
  end.

(** Under both write locks. *)
Definition commit (k : string) (ip : IpAddr) (p : FakeIpPool) : IpAddr * FakeIpPool :=
  match domain_to_ip p !! k with
  | Some existing => (existing, p)
  | None =>
      let d2i := match ip_to_domain p !! ip with
                 | Some old => delete old (domain_to_ip p)
                 | None => domain_to_ip p
                 end in
      let i2d := delete ip (ip_to_domain p) in
      (ip, with_maps (<[k := ip]> d2i) (<[ip := k]> i2d) p)
  end.

Definition alloc (f : family) (domain : string) (p : FakeIpPool) : IpAddr * FakeIpPool :=
  let k := map_key f domain in
  match find_existing k p with
  | Some ip => (ip, p)
  | None => let '(ip, p1) := take_offset f p in commit k ip p1
  end.

Definition allocate (domain : string) (p : FakeIpPool) : IpAddr * FakeIpPool := alloc Fam4 domain p.
Definition allocate_v6 (domain : string) (p : FakeIpPool) : IpAddr * FakeIpPool := alloc Fam6 domain p.

Definition lookup (ip : IpAddr) (p : FakeIpPool) : option string :=
  (fun s => default s (strip_prefix "v6:" s)) <$> ip_to_domain p !! ip.

Definition is_fake_ip (ip : IpAddr) (p : FakeIpPool) : bool :=
  match ip with
  | V4 a => (ipv4_base p <=? a) && (a <? saturating_add 32 (ipv4_base p) (ipv4_size p))
  | V6 a => Z.shiftr a 64 =? Z.shiftr (ipv6_prefix p) 64
  end.

Definition is_excluded (domain : string) (p : FakeIpPool) : bool :=
  let domain_lower := to_lowercase domain in
  existsb (fun suffix =>
    let suffix_lower := to_lowercase suffix in
    String.eqb domain_lower suffix_lower || ends_with ("." +:+ suffix_lower) domain_lower)
    (exclude_domains p).

Definition pool_len (p : FakeIpPool) : nat := size (domain_to_ip p).
Definition pool_is_empty (p : FakeIpPool) : bool := bool_decide (domain_to_ip p = ∅).

(** ** Concurrent allocations *)

Inductive task :=
| Started (f : family) (domain : string)
| Missed (f : family) (domain : string)
| Holding (domain_key : string) (ip : IpAddr)
| Returned (ip : IpAddr).

(** One task of the list takes its next atomic step on the shared pool. *)
Inductive pool_step : FakeIpPool * list task → FakeIpPool * list task → Prop :=
| step_spawn p ts f d : pool_step (p, ts) (p, ts ++ [Started f d])
| step_hit p ts i f d ip :
    ts !! i = Some (Started f d) → find_existing (map_key f d) p = Some ip →
    pool_step (p, ts) (p, <[i := Returned ip]> ts)
| step_miss p ts i f d :
    ts !! i = Some (Started f d) → find_existing (map_key f d) p = None →
    pool_step (p, ts) (p, <[i := Missed f d]> ts)
| step_take p ts i f d ip p' :
    ts !! i = Some (Missed f d) → take_offset f p = (ip, p') →
    pool_step (p, ts) (p', <[i := Holding (map_key f d) ip]> ts)
| step_commit p ts i k ip ip' p' :
    ts !! i = Some (Holding k ip) → commit k ip p = (ip', p') →
    pool_step (p, ts) (p', <[i := Returned ip']> ts).

Definition reachable (p0 : FakeIpPool) (x : FakeIpPool * list task) : Prop :=
  rtc pool_step (p0, []) x.

(** ** Invariant *)

(** The two maps are inverse to each other and name only pool addresses; the
    counters stay 32-bit; the configuration never changes. *)
Definition inverse_maps (p : FakeIpPool) : Prop :=
  ∀ k ip, domain_to_ip p !! k = Some ip ↔ ip_to_domain p !! ip = Some k.
Definition pool_in_range (p : FakeIpPool) : Prop :=
  0 <= ipv4_base p ∧ 0 < ipv4_size p ∧ ipv4_base p + ipv4_size p < 2 ^ 32.

Record pool_inv (p0 p : FakeIpPool) : Prop := {
  inv_base : ipv4_base p = ipv4_base p0;
  inv_size : ipv4_size p = ipv4_size p0;
  inv_prefix : ipv6_prefix p = ipv6_prefix p0;
  inv_o4 : u32_ok (ipv4_offset p);
  inv_o6 : u32_ok (ipv6_offset p);
  inv_maps : inverse_maps p;
  inv_fake : ∀ k ip, domain_to_ip p !! k = Some ip → is_fake_ip ip p0 = true
}.

Lemma commit_inverse k ip p : inverse_maps p → inverse_maps (commit k ip p).2.
Proof.
  intros Hinv. unfold commit. destruct (domain_to_ip p !! k) as [e|] eqn:Ek; [done|].
  unfold inverse_maps in Hinv.
  intros k' ip'. cbn [snd with_maps domain_to_ip ip_to_domain].
  destruct (ip_to_domain p !! ip) as [old|] eqn:Ei.
  - assert (Ho : domain_to_ip p !! old = Some ip) by (by apply Hinv).
    rewrite !lookup_insert_Some, !lookup_delete_Some, Hinv. split.
    + intros [[-> ->]|(Hk & Hold & H)]; [by left|]. right.
      assert (ip ≠ ip') by (intros ->; congruence). done.
    + intros [[-> ->]|(Hip & _ & H)]; [by left|]. right.
      assert (k ≠ k') by (intros ->; apply Hinv in H; congruence).
      assert (old ≠ k') by (intros ->; apply Hinv in H; congruence). done.
  - rewrite !lookup_insert_Some, !lookup_delete_Some, Hinv. split.
    + intros [[-> ->]|(Hk & H)]; [by left|]. right.
      assert (ip ≠ ip') by (intros ->; congruence). done.
    + intros [[-> ->]|(Hip & _ & H)]; [by left|]. right.
      assert (k ≠ k') by (intros ->; apply Hinv in H; congruence). done.
Qed.

Lemma commit_mapped k ip p k' ip' :
  domain_to_ip (commit k ip p).2 !! k' = Some ip' → ip' = ip ∨ domain_to_ip p !! k' = Some ip'.
Proof.
  unfold commit. destruct (domain_to_ip p !! k) as [e|] eqn:Ek; [by right|].
  cbn [snd with_maps domain_to_ip]. rewrite lookup_insert_Some.
  intros [[_ <-]|[_ H]]; [by left|]. right.
  destruct (ip_to_domain p !! ip); [by apply lookup_delete_Some in H as [_ ?] | done].
Qed.

Lemma commit_result k ip p ip' p' :
  commit k ip p = (ip', p') → ip' = ip ∨ domain_to_ip p !! k = Some ip'.
Proof. unfold commit. destruct (domain_to_ip p !! k); intros [= <- <-]; auto. Qed.

Lemma shiftr_lor_small a o : u32_ok o → Z.shiftr (Z.lor a o) 64 = Z.shiftr a 64.
Proof.
  intros Ho. rewrite Z.shiftr_lor. rewrite (Z.shiftr_div_pow2 o), (Z.div_small o), Z.lor_0_r
    by (unfold in_width in Ho; lia). done.
Qed.

Lemma take_offset_fake f p0 p ip p' :
  pool_in_range p0 → pool_inv p0 p → take_offset f p = (ip, p') → is_fake_ip ip p0 = true.
Proof.
  intros (Hb & Hs & Hr) [Eb Es Ep H4 H6 _ _]. unfold take_offset.
  destruct f; intros [= <- <-]; unfold is_fake_ip.
  - rewrite Eb, Es. pose proof (Z.mod_pos_bound (ipv4_offset p) (ipv4_size p0) Hs).
    rewrite wrap_small by (unfold in_width; lia). unfold saturating_add.
    apply andb_true_iff. split; [apply Z.leb_le | apply Z.ltb_lt]; lia.
  - rewrite Ep, shiftr_lor_small by done. apply Z.eqb_refl.
Qed.

Lemma take_offset_inv f p0 p : pool_inv p0 p → pool_inv p0 (take_offset f p).2.
Proof.
  intros [Eb Es Ep H4 H6 Hm Hf]. destruct f; split; simpl; try done; by apply wrap_range.
Qed.

Lemma commit_inv p0 p k ip :
  pool_inv p0 p → is_fake_ip ip p0 = true → pool_inv p0 (commit k ip p).2.
Proof.
  intros Hp Hip. pose proof Hp as [Eb Es Ep H4 H6 Hm Hf].
  assert (Hc : ∃ a b, (commit k ip p).2 = with_maps a b p).
  { unfold commit. destruct (domain_to_ip p !! k); simpl; [|by eexists _, _].
    exists (domain_to_ip p), (ip_to_domain p). by destruct p. }
  pose proof (commit_inverse k ip p Hm) as Hinv.
  split; [..| exact Hinv |]; try (destruct Hc as (a & b & ->); done).
  intros k' ip' [->|H]%commit_mapped; eauto.
Qed.

(** Tasks hold and return only pool addresses. *)
Definition task_ok (p0 : FakeIpPool) (t : task) : Prop :=
  match t with
  | Holding _ ip | Returned ip => is_fake_ip ip p0 = true
  | _ => True
  end.

Lemma pool_step_inv p0 x y :
  pool_in_range p0 → pool_step x y → pool_inv p0 x.1 ∧ Forall (task_ok p0) x.2 →
  pool_inv p0 y.1 ∧ Forall (task_ok p0) y.2.
Proof.
  intros Hr Hs. destruct Hs as [p ts f d|p ts i f d ip Hi Hf|p ts i f d Hi Hf|p ts i f d ip p' Hi Ht
                               |p ts i k ip ip' p' Hi Hc]; simpl; intros [Hp Hts].
  - split; [done|]. apply Forall_app; split; [done|]. by constructor.
  - split; [done|]. apply Forall_insert; [done|]. by eapply inv_fake.
  - split; [done|]. by apply Forall_insert.
  - split; [by apply (take_offset_inv f) in Hp; rewrite Ht in Hp|].
    apply Forall_insert; [done|]. by eapply take_offset_fake.
  - assert (Hip : is_fake_ip ip p0 = true) by (apply (Forall_lookup_1 _ _ _ _ Hts Hi)).
    split; [by apply (commit_inv _ _ k ip) in Hp; rewrite ?Hc in Hp|].
    apply Forall_insert; [done|]. simpl.
    destruct (commit_result _ _ _ _ _ Hc) as [->|H]; [done | by eapply inv_fake].
Qed.

Lemma pool_new_inv cidr pre excl p : pool_new cidr pre excl = Some p → pool_inv p p.
Proof.
  unfold pool_new. intros ([base sz] & _ & [= <-])%bind_Some.
  split; simpl; try done.
Qed.

(** ** Sequences of allocations *)

Fixpoint alloc_run (ops : list (family * string)) (p : FakeIpPool) : FakeIpPool :=
  match ops with
  | [] => p
  | (f, d) :: ops => alloc_run ops (alloc f d p).2
  end.

Definition v4_ops (ops : list (family * string)) : Z :=
  Z.of_nat (length (List.filter (fun o => match o.1 with Fam4 => true | Fam6 => false end) ops)).

Lemma alloc_inv p0 f d p : pool_in_range p0 → pool_inv p0 p → pool_inv p0 (alloc f d p).2.
Proof.
  intros Hr Hp. unfold alloc. destruct (find_existing _ p); [done|].
  pose proof (take_offset_inv f p0 p Hp) as Ht.
  destruct (take_offset f p) as [ip p1] eqn:E. apply commit_inv; [done|].
  exact (take_offset_fake f p0 p ip p1 Hr Hp E).
Qed.

Lemma alloc_run_inv p0 ops p : pool_in_range p0 → pool_inv p0 p → pool_inv p0 (alloc_run ops p).
Proof.
  intros Hr. revert p. induction ops as [|[f d] ops IH]; intros p Hp; [done|].
  simpl. apply IH. by apply alloc_inv.
Qed.

Lemma parse_size_divides cidr base sz :
  parse_ipv4_cidr cidr = Some (base, sz) → (sz | 2 ^ 32).
Proof.
  unfold parse_ipv4_cidr. cbv zeta.
  assert (Hdef : Some (198 * 2 ^ 24 + 18 * 2 ^ 16, Z.shiftl 1 17) = Some (base, sz) → (sz | 2 ^ 32)).
  { intros [= <- <-]. exists (2 ^ 15). reflexivity. }
  destruct (split_once _ cidr) as [[i pr]|]; [|done].
  destruct (parse_ipv4 i); [|done]. destruct (parse_uint 32 pr) as [n|]; [|done].
  intros (s & Hs & [= <- <-])%bind_Some. destruct (32 <=? n) eqn:E.
  - injection Hs as <-. apply Z.divide_1_l.
  - unfold shl_u32 in Hs. apply Z.leb_gt in E. destruct (32 - n <? 32) eqn:E2; [|done].
    apply Z.ltb_lt in E2. injection Hs as <-. rewrite Z.shiftl_mul_pow2, Z.mul_1_l by lia.
    exists (2 ^ n). rewrite <- Z.pow_add_r by lia. f_equal. lia.
Qed.

(** The address of the allocation that takes counter value [o]. *)
Definition v4_at (p0 : FakeIpPool) (o : Z) : IpAddr := V4 (ipv4_base p0 + o mod ipv4_size p0).

Lemma take_offset_v4 p0 p o :
  pool_in_range p0 → pool_inv p0 p → (ipv4_size p0 | 2 ^ 32) → ipv4_offset p = wrap 32 o →
  (take_offset Fam4 p).1 = v4_at p0 o ∧ ipv4_offset (take_offset Fam4 p).2 = wrap 32 (o + 1).
Proof.
  intros (Hb & Hs & Hr) Hp Hd Ho. simpl. unfold v4_at.
  rewrite Ho, (inv_base _ _ Hp), (inv_size _ _ Hp). unfold wrap at 2.
  rewrite Z.mod_mod_divide by done.
  pose proof (Z.mod_pos_bound o (ipv4_size p0) Hs).
  rewrite wrap_small by (unfold in_width; lia). split; [done|].
  unfold wrap. by rewrite Zplus_mod_idemp_l.
Qed.

Lemma v4_at_distinct p0 o j : 0 < j < ipv4_size p0 → v4_at p0 (o + j) ≠ v4_at p0 o.
Proof.
  intros Hj [= H]. assert (He : (o + j) mod ipv4_size p0 = o mod ipv4_size p0) by lia.
  apply Z.cong_iff_0 in He. replace (o + j - o) with j in He by lia.
  rewrite Z.mod_small in He; lia.
Qed.

Lemma commit_offset k ip p : ipv4_offset (commit k ip p).2 = ipv4_offset p.
Proof. unfold commit. by destruct (domain_to_ip p !! k). Qed.

Lemma commit_keeps k ip p k0 ip0 :
  inverse_maps p → domain_to_ip p !! k0 = Some ip0 → ip ≠ ip0 →
  domain_to_ip (commit k ip p).2 !! k0 = Some ip0.
Proof.
  intros Hm H0 Hne. unfold commit. destruct (domain_to_ip p !! k) eqn:Ek; [done|]. simpl.
  rewrite lookup_insert_ne by congruence.
  destruct (ip_to_domain p !! ip) as [old|] eqn:Ei; [|done].
  apply Hm in Ei. by rewrite lookup_delete_ne by congruence.
Qed.

(** After the counter value [o] was used for [k0], the mapping stands while the
    counter has not come back to the same residue. *)
Lemma alloc_run_keeps p0 ops p k0 o j :
  pool_in_range p0 → (ipv4_size p0 | 2 ^ 32) → pool_inv p0 p →
  0 <= j → j + v4_ops ops < ipv4_size p0 →
  ipv4_offset p = wrap 32 (o + 1 + j) → domain_to_ip p !! k0 = Some (v4_at p0 o) →
  domain_to_ip (alloc_run ops p) !! k0 = Some (v4_at p0 o).
Proof.
  intros Hr Hd. revert p j. induction ops as [|[f d] ops IH]; intros p j Hp Hj Hb Ho H0; [done|].
  assert (Hnn : 0 <= v4_ops ops) by (unfold v4_ops; lia).
  pose proof (alloc_inv p0 f d p Hr Hp) as Hp'. cbn [alloc_run]. revert Hp'. unfold alloc.
  destruct (find_existing (map_key f d) p) as [e|].
  { intros _. apply (IH p j); try done. revert Hb. unfold v4_ops. destruct f; simpl; lia. }
  destruct f.
  - destruct (take_offset_v4 p0 p _ Hr Hp Hd Ho) as [Hip Hoff].
    assert (Hb' : j + 1 + v4_ops ops < ipv4_size p0) by (revert Hb; unfold v4_ops; simpl; lia).
    pose proof (take_offset_inv Fam4 p0 p Hp) as Ht.
    assert (Hmaps : domain_to_ip (take_offset Fam4 p).2 = domain_to_ip p) by done.
    destruct (take_offset Fam4 p) as [ip p1]. simpl in *. subst ip. intros Hp'.
    apply (IH _ (j + 1)); [done | lia | lia | |].
    + rewrite Z.add_assoc, <- Hoff. apply commit_offset.
    + apply commit_keeps; [apply (inv_maps _ _ Ht) | by rewrite Hmaps |].
      rewrite <- Z.add_assoc. apply v4_at_distinct. lia.
  - pose proof (take_offset_inv Fam6 p0 p Hp) as Ht. simpl in *. intros Hp'.
    apply (IH _ j); [done | done | by revert Hb; unfold v4_ops; simpl | |].
    + by rewrite commit_offset.
    + apply commit_keeps; [apply (inv_maps _ _ Ht) | done | discriminate].
Qed.

(** ** Properties *)

(** C13: However the steps of concurrent allocations interleave, the FakeIP pool
    stays a bijection: the two maps are inverse to each other, so no address
    stands for two names and no name has two addresses, and every address that
    is mapped or that a task returned is recognised by [is_fake_ip] (for a pool
    that ends below the top of the IPv4 space). *)
Theorem fakeip_bijection cidr pre excl p0 p ts :
  pool_new cidr pre excl = Some p0 → pool_in_range p0 → reachable p0 (p, ts) →
  inverse_maps p
  ∧ (∀ k ip, domain_to_ip p !! k = Some ip → is_fake_ip ip p0 = true)
  ∧ (∀ ip, Returned ip ∈ ts → is_fake_ip ip p0 = true).
Proof.
  intros Hnew Hr Hreach. apply pool_new_inv in Hnew.
  assert (H : pool_inv p0 (p, ts).1 ∧ Forall (task_ok p0) (p, ts).2).
  { apply (rtc_ind_r (R := pool_step)
      (fun x => pool_inv p0 x.1 ∧ Forall (task_ok p0) x.2) (p0, [])); [done| |done].
    intros y z _ Hs Hy. by eapply pool_step_inv. }
  destruct H as [Hp Hts]. split_and!; [apply (inv_maps _ _ Hp) | apply (inv_fake _ _ Hp) |].
  intros ip Hin. exact (proj1 (Forall_forall _ _) Hts _ Hin).
Qed.

Definition sample_pool : FakeIpPool :=
  {| ipv4_base := 198 * 2 ^ 24 + 18 * 2 ^ 16; ipv4_size := 4; ipv4_offset := 1;
     ipv6_prefix := 0xfc00 * 2 ^ 112; ipv6_offset := 1;
     domain_to_ip := ∅; ip_to_domain := ∅; exclude_domains := [] |}.

Lemma fakeip_bijection_witness :
  inverse_maps (take_offset Fam4 sample_pool).2
  ∧ (∀ k ip, domain_to_ip (take_offset Fam4 sample_pool).2 !! k = Some ip →
             is_fake_ip ip sample_pool = true)
  ∧ (∀ ip, Returned ip ∈ [Holding "a.example" (v4_at sample_pool 1)] →
           is_fake_ip ip sample_pool = true).
Proof.
  apply (fakeip_bijection "198.18.0.0/30" None [] sample_pool
           (take_offset Fam4 sample_pool).2 [Holding "a.example" (v4_at sample_pool 1)]).
  - reflexivity.
  - vm_compute. intuition congruence.
  - eapply rtc_l; [apply (step_spawn _ _ Fam4 "A.example")|].
    eapply rtc_l; [by apply (step_miss _ _ 0%nat Fam4 "A.example")|].
    eapply rtc_l; [by apply (step_take _ _ 0%nat Fam4 "A.example")|]. apply rtc_refl.
Defined.

(** C14: A fresh FakeIPv4 mapping survives until the pool has gone round: after
    [allocate] gave a new name an address, any sequence of allocations with
    fewer IPv4 ones than the pool has addresses leaves the mapping in place;
    [lookup] of the address gives the lower-cased name back and allocating the
    name again returns the same address and changes nothing. *)
Theorem fakeip_mapping_survives cidr pre excl p0 ops0 d ops :
  pool_new cidr pre excl = Some p0 → pool_in_range p0 →
  let p := alloc_run ops0 p0 in
  domain_to_ip p !! to_lowercase d = None →
  strip_prefix "v6:" (to_lowercase d) = None →
  v4_ops ops < ipv4_size p0 →
  let '(ip, p1) := allocate d p in
  let p2 := alloc_run ops p1 in
  lookup ip p2 = Some (to_lowercase d) ∧ allocate d p2 = (ip, p2).
Proof.
  intros Hnew Hr p Hfresh Hpre Hops.
  assert (Hd : (ipv4_size p0 | 2 ^ 32)).
  { unfold pool_new in Hnew. apply bind_Some in Hnew as ([b s] & Hc & [= <-]).
    by eapply parse_size_divides. }
  assert (Hp : pool_inv p0 p) by (by apply alloc_run_inv; [|eapply pool_new_inv]).
  pose proof (alloc_inv p0 Fam4 d p Hr Hp) as Hp1. fold (allocate d p) in Hp1.
  assert (Ho : ipv4_offset p = wrap 32 (ipv4_offset p)) by (by rewrite wrap_small by apply (inv_o4 _ _ Hp)).
  destruct (take_offset_v4 p0 p _ Hr Hp Hd Ho) as [Hip Hoff].
  assert (Ha : (allocate d p).1 = v4_at p0 (ipv4_offset p)
               ∧ domain_to_ip (allocate d p).2 !! to_lowercase d = Some (v4_at p0 (ipv4_offset p))
               ∧ ipv4_offset (allocate d p).2 = wrap 32 (ipv4_offset p + 1 + 0)).
  { unfold allocate, alloc, find_existing. simpl map_key. rewrite Hfresh.
    assert (Hm : domain_to_ip (take_offset Fam4 p).2 = domain_to_ip p) by done.
    destruct (take_offset Fam4 p) as [ip p1]. simpl in Hip, Hoff, Hm. subst ip.
    unfold commit. rewrite Hm, Hfresh. simpl. rewrite lookup_insert_eq, Hoff, Z.add_0_r. done. }
  destruct (allocate d p) as [ip p1]. simpl in Ha, Hp1. destruct Ha as (-> & Hk & Hof).
  pose proof (alloc_run_keeps p0 ops p1 _ _ 0 Hr Hd Hp1 ltac:(lia) ltac:(lia) Hof Hk) as Hfin.
  pose proof (alloc_run_inv p0 ops p1 Hr Hp1) as Hp2. split.
  - unfold lookup. rewrite (proj1 (inv_maps _ _ Hp2 _ _) Hfin). cbn [fmap option_fmap option_map].
    by rewrite Hpre.
  - unfold allocate, alloc, find_existing. simpl map_key. by rewrite Hfin.
Qed.

Lemma fakeip_mapping_survives_witness :
  let '(ip, p1) := allocate "Example.COM" sample_pool in
  let p2 := alloc_run [(Fam4, "a"); (Fam6, "b"); (Fam4, "c"); (Fam4, "d")] p1 in
  lookup ip p2 = Some "example.com" ∧ allocate "Example.COM" p2 = (ip, p2).
Proof.
  apply (fakeip_mapping_survives "198.18.0.0/30" None [] sample_pool [] "Example.COM"
           [(Fam4, "a"); (Fam6, "b"); (Fam4, "c"); (Fam4, "d")]);
    vm_compute; intuition congruence.
Defined.

(** A [/0] pool overflows the shift that computes its size, so the pool
    cannot be built; every other prefix below 32 gives the 2^(32-n) addresses of
    the prefix, and from /32 up a single address, which is the base itself
    although the counter starts at 1 to skip it. *)
Theorem fakeip_pool_size cidr ip prefix a n pre excl :
  split_once "/" cidr = Some (ip, prefix) → parse_ipv4 ip = Some a → parse_uint 32 prefix = Some n →
  parse_ipv4_cidr cidr
  = (if n =? 0 then None else Some (a, if 32 <=? n then 1 else 2 ^ (32 - n)))
  ∧ (n = 0 → pool_new cidr pre excl = None)
  ∧ (∀ p d, 32 <= n → u32_ok a → pool_new cidr pre excl = Some p → (allocate d p).1 = V4 a).
Proof.
  intros Hs Ha Hn. pose proof (parse_uint_range _ _ _ Hn) as [H0 _].
  assert (Hc : parse_ipv4_cidr cidr
               = if n =? 0 then None else Some (a, if 32 <=? n then 1 else 2 ^ (32 - n))).
  { unfold parse_ipv4_cidr. rewrite Hs, Ha, Hn. unfold shl_u32.
    destruct (n =? 0) eqn:E0; [by apply Z.eqb_eq in E0 as ->|]. apply Z.eqb_neq in E0.
    destruct (32 <=? n) eqn:E32; [done|]. apply Z.leb_gt in E32.
    rewrite (proj2 (Z.ltb_lt _ _)) by lia. simpl. by rewrite Z.shiftl_mul_pow2, Z.mul_1_l by lia. }
  split_and!; [done | |].
  - intros ->. unfold pool_new. by rewrite Hc.
  - intros p d Hbig Hok. unfold pool_new. rewrite Hc.
    rewrite (proj2 (Z.eqb_neq n 0)), (proj2 (Z.leb_le 32 n)) by lia. simpl. intros [= <-].
    unfold allocate, alloc, find_existing. simpl.
    rewrite lookup_empty. unfold commit. simpl. rewrite lookup_empty. simpl.
    by rewrite Z.add_0_r, wrap_small.
Qed.

Lemma fakeip_pool_size_witness :
  parse_ipv4_cidr "10.0.0.0/24" = Some (10 * 2 ^ 24, 2 ^ 8)
  ∧ (24 = 0 → pool_new "10.0.0.0/24" None [] = None)
  ∧ (∀ p d, 32 <= 24 → u32_ok (10 * 2 ^ 24) → pool_new "10.0.0.0/24" None [] = Some p →
            (allocate d p).1 = V4 (10 * 2 ^ 24)).
Proof.
  apply (fakeip_pool_size "10.0.0.0/24" "10.0.0.0" "24" (10 * 2 ^ 24) 24 None []); reflexivity.
Defined.
