(* ===== verification/Hosts.v ===== *)
(** * Hosts file, racing and family-preferring resolvers ([src/src/dns/hosts.rs])

    The [DnsResolver] trait is a function from a host name to the answer or the
    error of that call; the resolvers of this file wrap others.  The race is
    given the order in which the upstream answers arrive. *)

From Stdlib Require Import Ascii.
From S2P Require Import Prelude RustStr Addr IpText.

Local Open Scope string_scope.
Local Open Scope list_scope.
Local Open Scope Z_scope.

Inductive dns_error :=
| Upstream (msg : string)
| NoResolvers
| EmptyResponse (idx : nat)
| AllFailed (host : string)
| NoAddresses (host : string)
| CachedNegative (host : string) (cause : dns_error).

(** The trait: what one [resolve] call returns. *)
Abbreviation DnsResolver := (string → result dns_error (list IpAddr)).

(** ** The hosts file *)

(** [.entry(name).or_insert_with(Vec::new).push(ip)] *)
Definition push_host (ip : IpAddr) (name : string) (hosts : gmap string (list IpAddr))
  : gmap string (list IpAddr) :=
  <[to_lowercase name := default [] (hosts !! to_lowercase name) ++ [ip]]> hosts.

(** The names after the address, until one that starts a comment. *)
Fixpoint add_names (ip : IpAddr) (names : list string) (hosts : gmap string (list IpAddr))
  : gmap string (list IpAddr) :=
  match names with
  | [] => hosts
  | name :: names =>
      if starts_with "#" name then hosts else add_names ip names (push_host ip name hosts)
  end.

Definition add_line (line : string) (hosts : gmap string (list IpAddr))
  : gmap string (list IpAddr) :=
  let line := trim line in
  if String.eqb line "" || starts_with "#" line then hosts else
  match split_whitespace line with
  | first :: (_ :: _) as names =>
      match parse_ip first with
      | Some ip => add_names ip names hosts
      | None => hosts
      end
  | _ => hosts
  end.

Definition parse_hosts_file (content : string) : gmap string (list IpAddr) :=
  fold_left (fun hosts line => add_line line hosts) (lines content) ∅.

Definition hosts_resolve (inner : DnsResolver) (hosts : gmap string (list IpAddr)) (host : string)
  : result dns_error (list IpAddr) :=
  match hosts !! to_lowercase host with
  | Some addrs => Ok addrs
  | None => inner host
  end.

(** ** The race *)

(** The receive loop over the messages in the order they arrive. *)
Fixpoint race_loop (host : string) (last_err : option dns_error)
    (msgs : list (nat * result dns_error (list IpAddr))) : result dns_error (list IpAddr) :=
  match msgs with
  | [] => Err (default (AllFailed host) last_err)
  | (idx, Ok (a :: addrs)) :: _ => Ok (a :: addrs)
  | (idx, Ok []) :: msgs => race_loop host (Some (EmptyResponse idx)) msgs
  | (idx, Err e) :: msgs => race_loop host (Some e) msgs
  end.

(** [arrival] lists the resolvers in the order their answers arrive. *)
Definition race_resolve (resolvers : list DnsResolver) (arrival : list nat) (host : string)
  : result dns_error (list IpAddr) :=
  match resolvers with
  | [] => Err NoResolvers
  | [r] => r host
  | _ =>
      race_loop host None
        (omap (fun i => (fun r : DnsResolver => (i, r host)) <$> resolvers !! i) arrival)
  end.

(** ** Family preference *)

Definition is_ipv4 (a : IpAddr) : bool := match a with V4 _ => true | V6 _ => false end.
Definition is_ipv6 (a : IpAddr) : bool := match a with V4 _ => false | V6 _ => true end.

Definition prefer_ipv4_resolve (inner : DnsResolver) (host : string)
  : result dns_error (list IpAddr) :=
  let? addrs := inner host in
  let v4 := List.filter is_ipv4 addrs in
  let v6 := List.filter is_ipv6 addrs in
  let v4 := v4 ++ v6 in
  match v4 with [] => Err (NoAddresses host) | _ => Ok v4 end.

Definition prefer_ipv6_resolve (inner : DnsResolver) (host : string)
  : result dns_error (list IpAddr) :=
  let? addrs := inner host in
  let v4 := List.filter is_ipv4 addrs in
  let v6 := List.filter is_ipv6 addrs in
  let v6 := v6 ++ v4 in
  match v6 with [] => Err (NoAddresses host) | _ => Ok v6 end.

(** ** What a hosts file says *)

Fixpoint until_comment (names : list string) : list string :=
  match names with
  | [] => []
  | n :: names => if starts_with "#" n then [] else n :: until_comment names
  end.

(** The (name, address) pairs of one line: none for a blank or comment line, a
    line without a name or with an unreadable address. *)
Definition line_entries (line : string) : list (string * IpAddr) :=
  let line := trim line in
  if String.eqb line "" || starts_with "#" line then [] else
  match split_whitespace line with
  | first :: names =>
      match parse_ip first with
      | Some ip => (fun n => (to_lowercase n, ip)) <$> until_comment names
      | None => []
      end
  | [] => []
  end.

Definition addrs_of (name : string) (l : list (string * IpAddr)) : list IpAddr :=
  omap (fun '(n, ip) => if decide (n = name) then Some ip else None) l.

Lemma addrs_of_app name l1 l2 : addrs_of name (l1 ++ l2) = addrs_of name l1 ++ addrs_of name l2.
Proof. apply omap_app. Qed.

(** The table holds, for each name, the addresses found so far. *)
Definition table_of (l : list (string * IpAddr)) (hosts : gmap string (list IpAddr)) : Prop :=
  ∀ name, hosts !! name = match addrs_of name l with [] => None | addrs => Some addrs end.

Lemma push_host_table l ip name hosts :
  table_of l hosts → table_of (l ++ [(to_lowercase name, ip)]) (push_host ip name hosts).
Proof.
  intros H n. unfold push_host. rewrite addrs_of_app. simpl.
  destruct (decide (to_lowercase name = n)) as [<-|Hne].
  - rewrite lookup_insert_eq, H. destruct (addrs_of _ l); done.
  - rewrite lookup_insert_ne, H, app_nil_r by done. done.
Qed.

Lemma add_names_table l ip names hosts :
  table_of l hosts →
  table_of (l ++ ((fun n => (to_lowercase n, ip)) <$> until_comment names)) (add_names ip names hosts).
Proof.
  revert l hosts. induction names as [|n names IH]; intros l hosts H; simpl.
  - by rewrite app_nil_r.
  - destruct (starts_with "#" n); [by rewrite app_nil_r|].
    rewrite fmap_cons, cons_middle, app_assoc. apply IH. by apply push_host_table.
Qed.

Lemma add_line_table l line hosts :
  table_of l hosts → table_of (l ++ line_entries line) (add_line line hosts).
Proof.
  intros H. unfold add_line, line_entries. destruct (_ || _); [by rewrite app_nil_r|].
  destruct (split_whitespace (trim line)) as [|first [|n names]]; [by rewrite app_nil_r| |].
  - destruct (parse_ip first); by rewrite app_nil_r.
  - destruct (parse_ip first); [by apply (add_names_table l i (n :: names)) | by rewrite app_nil_r].
Qed.

Lemma fold_lines_table ls l hosts :
  table_of l hosts →
  table_of (l ++ concat (line_entries <$> ls)) (fold_left (fun h line => add_line line h) ls hosts).
Proof.
  revert l hosts. induction ls as [|line ls IH]; intros l hosts H; simpl.
  - by rewrite app_nil_r.
  - rewrite app_assoc. apply IH. by apply add_line_table.
Qed.

(** ** Lemmas on the race *)

Definition usable (r : result dns_error (list IpAddr)) : bool :=
  match r with Ok (_ :: _) => true | _ => false end.

Lemma race_loop_spec host msgs last :
  match race_loop host last msgs with
  | Ok addrs => ∃ i, (i, Ok addrs) ∈ msgs ∧ addrs ≠ []
  | Err e => (∀ i r, (i, r) ∈ msgs → usable r = false)
             ∧ (msgs = [] → e = default (AllFailed host) last)
  end.
Proof.
  revert last. induction msgs as [|[i [[|a addrs]|e]] msgs IH]; intros last; simpl.
  - split; [|done]. intros i r H. by apply not_elem_of_nil in H.
  - specialize (IH (Some (EmptyResponse i))). destruct (race_loop _ _ msgs) as [addrs|e'].
    + destruct IH as (j & Hj & Hne). exists j. split; [by apply list_elem_of_further | done].
    + destruct IH as [IH _]. split; [|done]. intros j r [[= -> ->]|H]%elem_of_cons; [done | eauto].
  - exists i. split; [apply list_elem_of_here | done].
  - specialize (IH (Some e)). destruct (race_loop _ _ msgs) as [addrs|e'].
    + destruct IH as (j & Hj & Hne). exists j. split; [by apply list_elem_of_further | done].
    + destruct IH as [IH _]. split; [|done]. intros j r [[= -> ->]|H]%elem_of_cons; [done | eauto].
Qed.

Lemma elem_of_race_msgs (resolvers : list DnsResolver) (arrival : list nat) host i r :
  (i, r) ∈ omap (fun i => (fun r : DnsResolver => (i, r host)) <$> resolvers !! i) arrival ↔
  i ∈ arrival ∧ ∃ f, resolvers !! i = Some f ∧ r = f host.
Proof.
  rewrite list_elem_of_omap. split.
  - intros (j & Hj & Hf). destruct (resolvers !! j) as [f|] eqn:E; simplify_eq/=. eauto.
  - intros (Hi & f & Hf & ->). exists i. by rewrite Hf.
Qed.

(** ** Properties *)

(** The table read from a hosts file is what the file says: a name (in lower
    case) is present exactly when some line that is neither blank nor a comment
    and starts with a readable address lists it before any comment, and it maps
    to the addresses of those lines in file order. *)
Theorem hosts_file_table content name :
  parse_hosts_file content !! name
  = match addrs_of name (concat (line_entries <$> lines content)) with
    | [] => None
    | addrs => Some addrs
    end.
Proof.
  unfold parse_hosts_file. apply (fold_lines_table (lines content) [] ∅).
  intros n. by rewrite lookup_empty.
Qed.

(** With two resolvers or more, the race succeeds exactly when some
    resolver has a non-empty answer, whatever the order of arrival, and its
    result is then the non-empty answer of one of the resolvers. *)
Theorem race_finds_an_answer resolvers arrival host :
  (2 ≤ length resolvers)%nat → arrival ≡ₚ seq 0 (length resolvers) →
  match race_resolve resolvers arrival host with
  | Ok addrs => addrs ≠ [] ∧ ∃ r, r ∈ resolvers ∧ r host = Ok addrs
  | Err _ => ∀ r, r ∈ resolvers → usable (r host) = false
  end.
Proof.
  intros Hl Hp. unfold race_resolve. destruct resolvers as [|r1 [|r2 rs]]; [simpl in Hl; lia..|].
  set (all := r1 :: r2 :: rs) in *. pose proof (race_loop_spec host
    (omap (fun i => (fun r : DnsResolver => (i, r host)) <$> all !! i) arrival) None) as H.
  destruct (race_loop host None _) as [addrs|e].
  - destruct H as (i & (_ & f & Hf & Hr)%elem_of_race_msgs & Hne). split; [done|].
    exists f. split; [by eapply list_elem_of_lookup_2 | done].
  - destruct H as [H _]. intros r (i & Hi)%list_elem_of_lookup. apply (H i). apply elem_of_race_msgs.
    split; [|eauto]. rewrite Hp. apply elem_of_seq. apply lookup_lt_Some in Hi. lia.
Qed.

Definition fails : DnsResolver := fun _ => Err (Upstream "timeout").
Definition answers : DnsResolver := fun _ => Ok [V4 1; V6 2].

Lemma race_finds_an_answer_witness :
  match race_resolve [fails; answers] [1%nat; 0%nat] "a" with
  | Ok addrs => addrs ≠ [] ∧ ∃ r, r ∈ [fails; answers] ∧ r "a" = Ok addrs
  | Err _ => ∀ r, r ∈ [fails; answers] → usable (r "a") = false
  end.
Proof.
  apply (race_finds_an_answer [fails; answers] [1%nat; 0%nat] "a"); [simpl; lia|].
  apply Permutation_swap.
Defined.

(** The family-preferring resolvers only reorder: they return a permutation
    of the inner answer, all addresses of the preferred family first and each
    family in the order it came, and fail only if the inner resolver fails or
    answers with nothing. *)
Theorem prefer_family_reorders (inner : DnsResolver) host addrs :
  inner host = Ok addrs →
  match prefer_ipv4_resolve inner host, prefer_ipv6_resolve inner host with
  | Ok r4, Ok r6 =>
      r4 ≡ₚ addrs ∧ r6 ≡ₚ addrs ∧ addrs ≠ []
      ∧ r4 = List.filter is_ipv4 addrs ++ List.filter is_ipv6 addrs
      ∧ r6 = List.filter is_ipv6 addrs ++ List.filter is_ipv4 addrs
  | Err e4, Err e6 => addrs = [] ∧ e4 = NoAddresses host ∧ e6 = NoAddresses host
  | _, _ => False
  end.
Proof.
  intros H. unfold prefer_ipv4_resolve, prefer_ipv6_resolve. rewrite H. cbn [bind_result].
  assert (Hp : List.filter is_ipv4 addrs ++ List.filter is_ipv6 addrs ≡ₚ addrs).
  { clear H. induction addrs as [|[a|a] addrs IH]; simpl; [done | by rewrite IH |].
    by rewrite <- Permutation_middle, IH. }
  pose proof Hp as Hp'. rewrite Permutation_app_comm in Hp'.
  destruct addrs as [|a addrs]; [done|].
  destruct (List.filter is_ipv4 (a :: addrs) ++ List.filter is_ipv6 (a :: addrs)) eqn:E4;
    [by apply Permutation_nil_l in Hp|].
  destruct (List.filter is_ipv6 (a :: addrs) ++ List.filter is_ipv4 (a :: addrs)) eqn:E6;
    [by apply Permutation_nil_l in Hp'|].
  done.
Qed.

Lemma prefer_family_reorders_witness :
  prefer_ipv6_resolve answers "a" = Ok [V6 2; V4 1].
Proof.
  pose proof (prefer_family_reorders answers "a" [V4 1; V6 2] eq_refl) as H.
  destruct (prefer_ipv4_resolve answers "a"), (prefer_ipv6_resolve answers "a");
    try (exfalso; exact H); [|destruct H; discriminate].
  destruct H as (_ & _ & _ & _ & ->). reflexivity.
Defined.
