(* ===== verification/DnsReply.v ===== *)
(** * Hijacked DNS queries ([src/src/proxy/inbound/dns_hijack.rs])

    Queries to port 53 seen on the TUN device are parsed, resolved by the built-in
    resolver and answered with a complete IP packet.  The main result follows one
    query through all of it: the packet written back parses as a UDP packet from
    the server to the client, and a client that reads the DNS message in it finds
    its own identifier, its own question and the addresses of the family asked
    for. *)

From Stdlib Require Import Ascii.
From S2P Require Import Prelude RustStr Addr Outcome Wire Packet Hosts.

Local Open Scope string_scope.
Local Open Scope list_scope.
Local Open Scope Z_scope.

Record DnsQuery := mkQuery {
  qid : Z;
  name : string;
  qtype : Z;
  raw_question : bytes;
}.

(** The loop over the labels of the name: the labels and the position after. *)
Fixpoint qname_loop (fuel : nat) (data : bytes) (pos : nat) (parts : list string)
    : outcome (nat * list string) :=
  match fuel with
  | O => OutOfFuel
  | S fuel =>
      if (length data <=? pos)%nat then Nothing else
      let! b := idx data pos in
      let label_len := nat_of b in
      if (label_len =? 0)%nat then Found ((pos + 1)%nat, parts) else
      if Z.land (byte_to_Z b) 0xC0 =? 0xC0 then Nothing else
      let pos := (pos + 1)%nat in
      if (length data <? pos + label_len)%nat then Nothing else
      let! l := idx_range data pos (pos + label_len) in
      let! label := of_option (from_utf8 l) in
      qname_loop fuel data (pos + label_len) (parts ++ [label])
  end.

Definition parse_dns_query (data : bytes) : outcome DnsQuery :=
  if (length data <? 12)%nat then Nothing else
  let! id := idx_be16 data 0 1 in
  let! flags := idx_be16 data 2 3 in
  if negb (Z.land flags 0x8000 =? 0) then Nothing else
  let! qdcount := idx_be16 data 4 5 in
  if qdcount =? 0 then Nothing else
  let! pn := qname_loop (S (length data)) data 12 [] in
  let '(pos, name_parts) := pn in
  match name_parts with
  | [] => Nothing
  | _ =>
      if (length data <? pos + 4)%nat then Nothing else
      let! qtype := idx_be16 data pos (pos + 1) in
      let pos := (pos + 4)%nat in
      let! raw := idx_range data 12 pos in
      Found (mkQuery id (join_on "." name_parts) qtype raw)
  end.

(** ** The answer *)

Definition matches_qtype (t : Z) (addr : IpAddr) : bool :=
  match addr with V4 _ => t =? 1 | V6 _ => t =? 28 end.

Definition answer_record (addr : IpAddr) : bytes :=
  to_be_bytes 2 0xC00C ++
  match addr with
  | V4 _ => to_be_bytes 2 1 ++ to_be_bytes 2 1 ++ to_be_bytes 4 60 ++ to_be_bytes 2 4 ++ octets addr
  | V6 _ => to_be_bytes 2 28 ++ to_be_bytes 2 1 ++ to_be_bytes 4 60 ++ to_be_bytes 2 16 ++ octets addr
  end.

Definition build_dns_response (query : DnsQuery) (addrs : list IpAddr) : bytes :=
  let matched := List.filter (matches_qtype (qtype query)) addrs in
  let ancount := wrap 16 (Z.of_nat (length matched)) in
  to_be_bytes 2 (qid query) ++ to_be_bytes 2 0x8180 ++ to_be_bytes 2 1 ++ to_be_bytes 2 ancount
  ++ to_be_bytes 2 0 ++ to_be_bytes 2 0 ++ raw_question query ++ concat (map answer_record matched).

(** ** The packet *)

(** [for i in (0..header.len()).step_by(2)] *)
Fixpoint sum_step2 (header : bytes) (sum : Z) : Z :=
  match header with
  | a :: b :: rest => sum_step2 rest (wrap 32 (sum + from_be_bytes [a; b]))
  | [a] => wrap 32 (sum + from_be_bytes [a; Byte.x00])
  | [] => sum
  end.
Definition ipv4_checksum (header : bytes) : option Z :=
  complement <$> fold_carry carry_fuel (sum_step2 header 0).

Definition build_ipv4_udp_packet (src_ip dst_ip src_port dst_port : Z) (payload : bytes) : outcome bytes :=
  let udp_len := (8 + length payload)%nat in
  let total_len := (20 + udp_len)%nat in
  let pkt := replicate total_len Byte.x00 in
  let! pkt := set_byte pkt 0 0x45 in
  let! pkt := set_byte pkt 1 0 in
  let! pkt := copy_from_slice pkt 2 4 (to_be_bytes 2 (wrap 16 (Z.of_nat total_len))) in
  let! pkt := copy_from_slice pkt 4 6 (to_be_bytes 2 0) in
  let! pkt := copy_from_slice pkt 6 8 (to_be_bytes 2 0x4000) in
  let! pkt := set_byte pkt 8 64 in
  let! pkt := set_byte pkt 9 17 in
  let! pkt := copy_from_slice pkt 12 16 (to_be_bytes 4 src_ip) in
  let! pkt := copy_from_slice pkt 16 20 (to_be_bytes 4 dst_ip) in
  let! header := idx_range pkt 0 20 in
  let! checksum := fueled (ipv4_checksum header) in
  let! pkt := copy_from_slice pkt 10 12 (to_be_bytes 2 checksum) in
  let udp_offset := 20%nat in
  let! pkt := copy_from_slice pkt udp_offset (udp_offset + 2) (to_be_bytes 2 src_port) in
  let! pkt := copy_from_slice pkt (udp_offset + 2) (udp_offset + 4) (to_be_bytes 2 dst_port) in
  let! pkt := copy_from_slice pkt (udp_offset + 4) (udp_offset + 6)
                (to_be_bytes 2 (wrap 16 (Z.of_nat udp_len))) in
  copy_from_slice pkt 28 total_len payload.

Definition build_ipv6_udp_packet (src_ip dst_ip src_port dst_port : Z) (payload : bytes) : outcome bytes :=
  let udp_len := (8 + length payload)%nat in
  let total_len := (40 + udp_len)%nat in
  let pkt := replicate total_len Byte.x00 in
  let! pkt := set_byte pkt 0 0x60 in
  let! pkt := copy_from_slice pkt 4 6 (to_be_bytes 2 (wrap 16 (Z.of_nat udp_len))) in
  let! pkt := set_byte pkt 6 17 in
  let! pkt := set_byte pkt 7 64 in
  let! pkt := copy_from_slice pkt 8 24 (to_be_bytes 16 src_ip) in
  let! pkt := copy_from_slice pkt 24 40 (to_be_bytes 16 dst_ip) in
  let udp_offset := 40%nat in
  let! pkt := copy_from_slice pkt udp_offset (udp_offset + 2) (to_be_bytes 2 src_port) in
  let! pkt := copy_from_slice pkt (udp_offset + 2) (udp_offset + 4) (to_be_bytes 2 dst_port) in
  let! pkt := copy_from_slice pkt (udp_offset + 4) (udp_offset + 6)
                (to_be_bytes 2 (wrap 16 (Z.of_nat udp_len))) in
  copy_from_slice pkt 48 total_len payload.

Definition is_dns_query (parsed : ParsedPacket) : bool :=
  bool_decide (protocol parsed = IpProtocol.Udp) && (dst_port parsed =? 53).

(** The resolver is an argument; its errors give an empty answer. *)
Definition handle_dns_hijack (resolver : DnsResolver) (parsed : ParsedPacket) (raw_packet : bytes)
    : outcome bytes :=
  let udp_payload_offset := (payload_offset parsed + 8)%nat in
  if (length raw_packet <=? udp_payload_offset)%nat then Nothing else
  let! dns_payload := idx_range raw_packet udp_payload_offset (length raw_packet) in
  let! query := parse_dns_query dns_payload in
  let addrs := match resolver (name query) with Ok addrs => addrs | Err _ => [] end in
  let dns_response := build_dns_response query addrs in
  match src_ip parsed, dst_ip parsed with
  | V4 client_ip, V4 dns_ip =>
      build_ipv4_udp_packet dns_ip client_ip (dst_port parsed) (src_port parsed) dns_response
  | V6 client_ip, V6 dns_ip =>
      build_ipv6_udp_packet dns_ip client_ip (dst_port parsed) (src_port parsed) dns_response
  | _, _ => Nothing
  end.

(** ** Parsing a query *)

(** Each label moves on by at least one byte, so one unit of fuel per byte and
    one more are enough. *)
Lemma qname_loop_safe fuel data pos parts :
  (fuel ≠ 0)%nat → (length data < pos + fuel)%nat → safe (qname_loop fuel data pos parts).
Proof.
  revert pos parts. induction fuel as [|fuel IH]; intros pos parts H0 Hf; [done|]. cbn [qname_loop].
  safe_solve. apply IH; lia.
Qed.

Lemma qname_loop_mono fuel data pos parts pos' parts' :
  qname_loop fuel data pos parts = Found (pos', parts') → (pos < pos')%nat.
Proof.
  revert pos parts. induction fuel as [|fuel IH]; intros pos parts H; [done|]. cbn [qname_loop] in H.
  destruct (_ <=? _)%nat; [done|]. destruct (idx data pos) as [b| | |]; try done. cbn [bind_outcome] in H.
  destruct (_ =? 0)%nat; [injection H as <- _; lia|]. destruct (_ =? 192); [done|].
  destruct (_ <? _)%nat; [done|]. destruct (idx_range _ _ _); try done. cbn [bind_outcome] in H.
  destruct (of_option _); try done. apply IH in H. lia.
Qed.

Lemma parse_dns_query_total data : safe (parse_dns_query data).
Proof.
  unfold parse_dns_query. cbv zeta. destruct (Nat.ltb_spec (length data) 12); [done|].
  repeat safe_step; try lia.
  - apply qname_loop_safe; lia.
  - match goal with H : qname_loop _ _ _ _ = _ |- _ => apply qname_loop_mono in H as Hm end.
    lia.
Qed.

(** ** Messages as a client writes and reads them *)

Definition label_ok (l : string) : Prop := str_ok l ∧ 0 < str_len l < 64.
Definition encode_label (l : string) : bytes := byte_of_Z (str_len l) :: as_bytes l.
Definition encode_name (labels : list string) : bytes := concat (map encode_label labels) ++ [Byte.x00].
Definition question (labels : list string) (t class : Z) : bytes :=
  encode_name labels ++ to_be_bytes 2 t ++ to_be_bytes 2 class.
Definition query_message (id flags qd : Z) (counts : bytes) (q rest : bytes) : bytes :=
  to_be_bytes 2 id ++ to_be_bytes 2 flags ++ to_be_bytes 2 qd ++ counts ++ q ++ rest.

(** One answer record: name pointer, type, class, time to live, length, data. *)
Definition read_answer (l : bytes) : option (IpAddr * bytes) :=
  if (length l <? 12)%nat then None else
  let t := from_be_bytes (slice l 2 4) in
  let n := Z.to_nat (from_be_bytes (slice l 10 12)) in
  let rdata := slice l 12 (12 + n) in
  if negb (from_be_bytes (slice l 0 2) =? 0xC00C) || negb (from_be_bytes (slice l 4 6) =? 1) then None
  else if (t =? 1) && (length rdata =? 4)%nat then Some (V4 (from_be_bytes rdata), drop (12 + n) l)
  else if (t =? 28) && (length rdata =? 16)%nat then Some (V6 (from_be_bytes rdata), drop (12 + n) l)
  else None.
Fixpoint read_answers (n : nat) (l : bytes) : option (list IpAddr) :=
  match n with
  | O => match l with [] => Some [] | _ => None end
  | S n => match read_answer l with
           | Some (a, l) => (a ::.) <$> read_answers n l
           | None => None
           end
  end.
(** A response to the question [q]: the identifier and the addresses. *)
Definition read_response (q : bytes) (l : bytes) : option (Z * list IpAddr) :=
  let flags := from_be_bytes (slice l 2 4) in
  if Z.testbit flags 15 && (Z.land flags 0xF =? 0) && (from_be_bytes (slice l 4 6) =? 1)
     && bool_decide (slice l 12 (12 + length q) = q)
  then (fun a => (from_be_bytes (slice l 0 2), a))
       <$> read_answers (Z.to_nat (from_be_bytes (slice l 6 8))) (drop (12 + length q) l)
  else None.

Lemma read_answer_record a l : ip_ok a → read_answer (answer_record a ++ l) = Some (a, l).
Proof.
  intros Ha. destruct a as [z|z]; simpl in Ha; unfold read_answer;
    match goal with |- context [length ?x] => destruct (Nat.ltb_spec (length x) 12) as [Hl|_] end;
    try (cbn in Hl; lia); cbv zeta;
    match goal with |- context [answer_record ?a ++ ?r] => set (m := answer_record a ++ r) end;
    change (from_be_bytes (slice m 0 2)) with 0xC00C; change (from_be_bytes (slice m 4 6)) with 1.
  - change (from_be_bytes (slice m 2 4)) with 1. change (Z.to_nat (from_be_bytes (slice m 10 12))) with 4%nat.
    change (slice m 12 (12 + 4)) with (to_be_bytes 4 z). rewrite from_to_be_4 by done. done.
  - change (from_be_bytes (slice m 2 4)) with 28. change (Z.to_nat (from_be_bytes (slice m 10 12))) with 16%nat.
    change (slice m 12 (12 + 16)) with (to_be_bytes 16 z). rewrite from_to_be_bytes by done. done.
Qed.

Lemma read_answers_records l : Forall ip_ok l → read_answers (length l) (concat (map answer_record l)) = Some l.
Proof.
  induction 1 as [|a l Ha Hl IH]; [done|]. cbn [length map concat read_answers].
  by rewrite read_answer_record, IH.
Qed.

Lemma read_build_response q addrs :
  u16_ok (qid q) → Forall ip_ok addrs → len (build_dns_response q addrs) < 65536 →
  read_response (raw_question q) (build_dns_response q addrs)
  = Some (qid q, List.filter (matches_qtype (qtype q)) addrs).
Proof.
  intros Hid Hok Hlen. unfold build_dns_response in *. set (matched := List.filter _ _) in *.
  assert (Hm : (length matched ≤ length (concat (map answer_record matched)))%nat).
  { generalize matched as l. induction l as [|a l IH]; [done|]. cbn [map concat length].
    rewrite length_app. destruct a; cbn [answer_record length app to_be_bytes]; lia. }
  unfold len in Hlen. cbv zeta in Hlen. rewrite !length_app in Hlen.
  assert (Hmok : Forall ip_ok matched).
  { rewrite Forall_forall in *. intros x [Hx _]%list_elem_of_In%List.filter_In.
    apply Hok. by apply list_elem_of_In. }
  cbv zeta. rewrite (wrap_small 16) by (unfold in_width; lia). set (tail := concat _).
  set (r := _ ++ _). unfold read_response.
  change (from_be_bytes (slice r 2 4)) with 0x8180. change (from_be_bytes (slice r 4 6)) with 1.
  change (from_be_bytes (slice r 0 2)) with (from_be_bytes (to_be_bytes 2 (qid q))).
  change (from_be_bytes (slice r 6 8)) with (from_be_bytes (to_be_bytes 2 (Z.of_nat (length matched)))).
  rewrite !from_to_be_2 by (unfold in_width in *; lia). rewrite Nat2Z.id.
  assert (Hr : r = take 12 r ++ raw_question q ++ tail) by done.
  rewrite bool_decide_true by (rewrite Hr; by apply slice_mid).
  rewrite Hr, app_assoc, (drop_app_length' (take 12 r ++ raw_question q)) by (by rewrite length_app).
  unfold tail. by rewrite read_answers_records.
Qed.

Lemma label_byte l : label_ok l →
  nat_of (byte_of_Z (str_len l)) = length (as_bytes l) ∧ byte_to_Z (byte_of_Z (str_len l)) = str_len l.
Proof.
  intros [_ H]. assert (E : byte_to_Z (byte_of_Z (str_len l)) = str_len l)
    by (apply byte_to_of_small; unfold in_width; lia).
  split; [|done]. unfold nat_of. rewrite E, length_as_bytes. unfold str_len. lia.
Qed.

Lemma qname_loop_encode fuel pre labels rest parts :
  Forall label_ok labels → (length labels < fuel)%nat →
  qname_loop fuel (pre ++ encode_name labels ++ rest) (length pre) parts
  = Found ((length pre + length (encode_name labels))%nat, parts ++ labels).
Proof.
  intros Hok. revert fuel pre parts. induction Hok as [|l labels Hl Hls IH]; intros fuel pre parts Hf;
    (destruct fuel as [|fuel]; [simpl in Hf; lia|]); cbn [qname_loop].
  - destruct (Nat.leb_spec (length (pre ++ encode_name [] ++ rest)) (length pre)) as [H|_].
    { rewrite !length_app in H. cbn in H. lia. }
    rewrite idx_found by (rewrite !length_app; cbn; lia). cbn [bind_outcome].
    rewrite byte_at_app_0. change (nat_of (byte_at (encode_name [] ++ rest) 0)) with 0%nat. cbn [Nat.eqb].
    by rewrite app_nil_r.
  - destruct (label_byte l Hl) as [Hn Hz]. destruct Hl as [Hs Hr].
    assert (Hlen : length (as_bytes l) = Z.to_nat (str_len l))
      by (rewrite length_as_bytes; unfold str_len; lia).
    set (tail := encode_name labels ++ rest).
    assert (Hdata : pre ++ encode_name (l :: labels) ++ rest
      = pre ++ byte_of_Z (str_len l) :: as_bytes l ++ tail).
    { unfold tail, encode_name. cbn [map concat]. unfold encode_label at 1. by rewrite <- !app_assoc. }
    rewrite Hdata. set (data := pre ++ _).
    assert (Hdl : length data = (length pre + S (length (as_bytes l) + length tail))%nat)
      by (unfold data; rewrite length_app; cbn [length]; by rewrite length_app).
    destruct (Nat.leb_spec (length data) (length pre)); [lia|].
    rewrite idx_found by lia. cbn [bind_outcome].
    replace (byte_at data (length pre)) with (byte_of_Z (str_len l)) by (symmetry; by apply byte_at_mid).
    rewrite Hn, Hz.
    destruct (Nat.eqb_spec (length (as_bytes l)) 0); [lia|].
    assert (Hc0 : (Z.land (str_len l) 0xC0 =? 0xC0) = false).
    { apply Z.eqb_neq. intros E. apply (f_equal (fun z => Z.testbit z 7)) in E.
      rewrite Z.land_spec, (in_width_testbit_high 6 (str_len l)) in E; [done|lia|unfold in_width; lia|lia]. }
    rewrite Hc0. destruct (Nat.ltb_spec (length data) (length pre + 1 + length (as_bytes l))); [lia|].
    rewrite idx_range_found by lia. cbn [bind_outcome].
    assert (Hsl : slice data (length pre + 1) (length pre + 1 + length (as_bytes l)) = as_bytes l).
    { unfold data. change (byte_of_Z (str_len l) :: as_bytes l ++ tail)
        with ([byte_of_Z (str_len l)] ++ as_bytes l ++ tail). rewrite app_assoc.
      apply slice_mid; rewrite length_app; cbn [length]; lia. }
    rewrite Hsl, from_utf8_as_bytes by done. cbn [of_option bind_outcome].
    assert (Hd2 : data = (pre ++ byte_of_Z (str_len l) :: as_bytes l) ++ tail)
      by (unfold data; by rewrite <- app_assoc).
    rewrite Hd2. replace (length pre + 1 + length (as_bytes l))%nat
      with (length (pre ++ byte_of_Z (str_len l) :: as_bytes l))
      by (rewrite length_app; cbn [length]; lia).
    unfold tail. rewrite IH by (simpl in Hf; lia). rewrite <- app_assoc. do 2 f_equal.
    rewrite length_app. unfold encode_name. cbn [map concat]. rewrite !length_app. cbn. lia.
Qed.

Lemma parse_query_message id flags qd counts labels t class rest :
  u16_ok id → in_width 15 flags → u16_ok qd → qd ≠ 0 → length counts = 6%nat →
  Forall label_ok labels → labels ≠ [] → u16_ok t →
  let q := question labels t class in
  parse_dns_query (query_message id flags qd counts q rest)
  = Found (mkQuery id (join_on "." labels) t q).
Proof.
  intros Hid Hfl Hqd Hqd0 Hc Hok Hne Ht q. set (m := query_message _ _ _ _ _ _).
  set (h := to_be_bytes 2 id ++ to_be_bytes 2 flags ++ to_be_bytes 2 qd ++ counts).
  assert (Hh : length h = 12%nat) by (unfold h; rewrite !length_app, !length_to_be_bytes; lia).
  assert (Hm : m = h ++ encode_name labels ++ to_be_bytes 2 t ++ to_be_bytes 2 class ++ rest)
    by (unfold m, query_message, q, question, h; by rewrite <- !app_assoc).
  assert (Hml : length m = (12 + length (encode_name labels) + 4 + length rest)%nat)
    by (rewrite Hm, !length_app, Hh, !length_to_be_bytes; lia).
  assert (Hlab : (length labels < S (length m))%nat).
  { rewrite Hml. unfold encode_name. rewrite length_app.
    enough (length labels ≤ length (concat (map encode_label labels)))%nat by lia.
    clear. induction labels; simpl; [lia|]. rewrite length_app. lia. }
  unfold parse_dns_query. destruct (Nat.ltb_spec (length m) 12); [lia|]. idx_eval.
  change (from_be_bytes [byte_at m 0; byte_at m 1]) with (from_be_bytes (to_be_bytes 2 id)).
  change (from_be_bytes [byte_at m 2; byte_at m 3]) with (from_be_bytes (to_be_bytes 2 flags)).
  change (from_be_bytes [byte_at m 4; byte_at m 5]) with (from_be_bytes (to_be_bytes 2 qd)).
  rewrite !from_to_be_2 by (unfold in_width in *; lia).
  assert (Hqr : Z.land flags 0x8000 = 0).
  { apply Z.bits_inj'. intros n Hn. rewrite Z.land_spec, Z.bits_0. change 0x8000 with (2 ^ 15).
    destruct (decide (n = 15)) as [->|]; [|by rewrite Z.pow2_bits_false, andb_false_r by lia].
    by rewrite (in_width_testbit_high 15 flags) by (done || lia). }
  rewrite Hqr. change (negb (0 =? 0)) with false. cbv iota.
  destruct (Z.eqb_spec qd 0); [done|]. rewrite Hm at 2.
  rewrite <- Hh at 1. rewrite qname_loop_encode by done. cbn [bind_outcome]. rewrite app_nil_l.
  destruct labels as [|l0 ls]; [done|]. set (labels := l0 :: ls) in *. rewrite Hh.
  destruct (Nat.ltb_spec (length m) (12 + length (encode_name labels) + 4)); [lia|].
  rewrite idx_be16_found, idx_range_found by lia. cbn [bind_outcome].
  assert (Hm2 : m = (h ++ encode_name labels) ++ to_be_bytes 2 t ++ to_be_bytes 2 class ++ rest)
    by (rewrite Hm; by rewrite <- app_assoc).
  rewrite Hm2. rewrite be2_at by (try done; rewrite length_app; lia).
  rewrite <- Hm2. f_equal. f_equal. rewrite Hm.
  replace (encode_name labels ++ to_be_bytes 2 t ++ to_be_bytes 2 class ++ rest) with (q ++ rest)
    by (unfold q, question; by rewrite <- !app_assoc).
  apply slice_mid; [done|]. rewrite Hh. unfold q, question. rewrite !length_app, !length_to_be_bytes. lia.
Qed.

(** ** The packets *)

Lemma sum_step2_words l s : sum_step2 l s = sum_words l s.
Proof.
  revert s. induction l as [|a|a b l IH] using list_two_ind; intros s; cbn [sum_step2 sum_words]; try done.
  rewrite shift8_byte. f_equal. f_equal. unfold from_be_bytes. cbn [fold_left].
  change (byte_to_Z Byte.x00) with 0. lia.
Qed.
Lemma ipv4_checksum_inet header : ipv4_checksum header = inet_sum header.
Proof. unfold ipv4_checksum, inet_sum. by rewrite sum_step2_words. Qed.
#[local] Arguments ipv4_checksum : simpl never.

Definition udp_message (sport dport n : Z) (payload : bytes) : bytes :=
  transport_header sport dport (to_be_bytes 2 n ++ [Byte.x00; Byte.x00] ++ payload).

Lemma build_ipv4_udp_packet_steps src dst sport dport payload :
  let total := wrap 16 (Z.of_nat (28 + length payload)) in
  let hdr ck := ipv4_header 0 total 0 0x4000 64 17 ck src dst [] in
  build_ipv4_udp_packet src dst sport dport payload
  = let! c := fueled (ipv4_checksum (hdr 0)) in
    Found (hdr c ++ udp_message sport dport (wrap 16 (Z.of_nat (8 + length payload))) payload).
Proof.
  intros total hdr. unfold build_ipv4_udp_packet. cbv zeta.
  hide_rhs. replay.
  match goal with |- context [idx_range ?l 0 20] => change (idx_range l 0 20) with (Found (hdr 0)) end.
  cbn [bind_outcome]. destruct (fueled (ipv4_checksum (hdr 0))) as [c| | |]; subst rhs; [|reflexivity..].
  cbn [bind_outcome]. hide_rhs. replay.
  fill_payload 28%nat. subst rhs. reflexivity.
Qed.

Lemma build_ipv6_udp_packet_steps src dst sport dport payload :
  build_ipv6_udp_packet src dst sport dport payload
  = let n := wrap 16 (Z.of_nat (8 + length payload)) in
    Found (ipv6_header 0 n 17 64 src dst ++ udp_message sport dport n payload).
Proof.
  unfold build_ipv6_udp_packet. cbv zeta.
  hide_rhs. replay.
  fill_payload 48%nat. subst rhs. reflexivity.
Qed.

Lemma ipv4_udp_packet_ok src dst sport dport payload :
  u32_ok src → u32_ok dst → u16_ok sport → u16_ok dport → len payload <= 65507 →
  ∃ out, build_ipv4_udp_packet src dst sport dport payload = Found out
  ∧ parse_ip_packet out
    = Found (Ok (mkParsed 4 IpProtocol.Udp (V4 src) (V4 dst) sport dport 20 (length out)))
  ∧ drop 28 out = payload ∧ ipv4_checksum (take 20 out) = Some 0.
Proof.
  intros Hs Hd Hsp Hdp Hlen. pose proof (len_nonneg payload). unfold len in *.
  rewrite build_ipv4_udp_packet_steps. cbv zeta.
  rewrite (wrap_small 16 (Z.of_nat (28 + length payload))) by (unfold in_width; lia).
  set (n := Z.of_nat (28 + length payload)).
  destruct (inet_sum_verifies (take 10 (ipv4_header 0 n 0 0x4000 64 17 0 src dst []))
    (to_be_bytes 4 src ++ to_be_bytes 4 dst)) as (c & E & Hc & V); [by exists 5%nat | done |].
  rewrite ipv4_checksum_inet.
  match goal with |- context [fueled (inet_sum ?l)] => change (inet_sum l) with (inet_sum
    (take 10 (ipv4_header 0 n 0 0x4000 64 17 0 src dst []) ++ [Byte.x00; Byte.x00]
     ++ to_be_bytes 4 src ++ to_be_bytes 4 dst)) end.
  rewrite E. cbn [fueled bind_outcome]. eexists. split; [reflexivity|]. split_and!.
  - rewrite parse_ipv4_header by (done || (unfold in_width; cbn [length]; lia)).
    unfold udp_message. rewrite transport_ports by done. cbn [bind_outcome fst snd]. do 3 f_equal.
    unfold n. rewrite Nat2Z.id. done.
  - done.
  - rewrite ipv4_checksum_inet. exact V.
Qed.

Lemma ipv6_udp_packet_ok src dst sport dport payload :
  in_width 128 src → in_width 128 dst → u16_ok sport → u16_ok dport → len payload <= 65507 →
  ∃ out, build_ipv6_udp_packet src dst sport dport payload = Found out
  ∧ parse_ip_packet out
    = Found (Ok (mkParsed 6 IpProtocol.Udp (V6 src) (V6 dst) sport dport 40 (length out)))
  ∧ drop 48 out = payload ∧ slice out 46 48 = [Byte.x00; Byte.x00].
Proof.
  intros Hs Hd Hsp Hdp Hlen. pose proof (len_nonneg payload). unfold len in *.
  rewrite build_ipv6_udp_packet_steps. cbv zeta.
  rewrite (wrap_small 16 (Z.of_nat (8 + length payload))) by (unfold in_width; lia).
  eexists. split; [reflexivity|]. split_and!; [|done..].
  rewrite parse_ipv6_header by (done || (unfold in_width; lia)).
  unfold udp_message. rewrite transport_ports by done. cbn [bind_outcome fst snd]. do 3 f_equal.
  rewrite Nat2Z.id. done.
Qed.

(** ** From the query on the wire to the answer on the wire *)

(** What the resolver is asked and what the client may see of its answer. *)
Definition expected (resolver : DnsResolver) (labels : list string) (t : Z) : list IpAddr :=
  List.filter (matches_qtype t)
    (match resolver (join_on "." labels) with Ok addrs => addrs | Err _ => [] end).

Section Hijack.
Context (resolver : DnsResolver) (id flags qd : Z) (counts : bytes) (labels : list string)
        (t class : Z) (rest : bytes).
Context (Hid : u16_ok id) (Hfl : in_width 15 flags) (Hqd : u16_ok qd) (Hqd0 : qd ≠ 0)
        (Hc : length counts = 6%nat) (Hlab : Forall label_ok labels) (Hne : labels ≠ [])
        (Ht : u16_ok t).
Context (Hans : ∀ h a, resolver h = Ok a → Forall ip_ok a).

Let q := question labels t class.
Let msg := query_message id flags qd counts q rest.
Let resp := build_dns_response (mkQuery id (join_on "." labels) t q)
              (match resolver (join_on "." labels) with Ok addrs => addrs | Err _ => [] end).

Lemma hijack_response : len resp < 65536 → read_response q resp = Some (id, expected resolver labels t).
Proof.
  intros Hlen. unfold resp in *. rewrite (read_build_response (mkQuery id (join_on "." labels) t q)); try done.
  destruct (resolver _) as [a|e] eqn:E; [by eapply Hans | constructor].
Qed.

(** The hijacker on a UDP packet whose payload is the query. *)
Lemma hijack_handles hdr (sport n ck : Z) p :
  payload_offset p = length hdr →
  let raw := hdr ++ transport_header sport 53 (to_be_bytes 2 n ++ to_be_bytes 2 ck ++ msg) in
  handle_dns_hijack resolver p raw
  = match src_ip p, dst_ip p with
    | V4 client, V4 dns => build_ipv4_udp_packet dns client (dst_port p) (src_port p) resp
    | V6 client, V6 dns => build_ipv6_udp_packet dns client (dst_port p) (src_port p) resp
    | _, _ => Nothing
    end.
Proof.
  intros Hoff raw. unfold handle_dns_hijack. rewrite Hoff.
  set (h8 := hdr ++ to_be_bytes 2 sport ++ to_be_bytes 2 53 ++ to_be_bytes 2 n ++ to_be_bytes 2 ck).
  assert (Hraw : raw = h8 ++ msg) by (unfold raw, h8, transport_header; by rewrite <- !app_assoc).
  assert (Hh8 : length h8 = (length hdr + 8)%nat) by (unfold h8; rewrite !length_app, !length_to_be_bytes; lia).
  assert (Hm : length msg ≠ 0%nat) by done.
  rewrite Hraw, <- Hh8. destruct (Nat.leb_spec (length (h8 ++ msg)) (length h8)) as [H|_];
    [rewrite length_app in H; lia|].
  rewrite idx_range_tail by done. cbn [bind_outcome]. unfold msg, q.
  rewrite parse_query_message by done. done.
Qed.

End Hijack.

(** C30: a hijacked query is answered: a well-formed DNS query in a UDP packet to
    port 53, over IPv4 with any options or over IPv6, is recognised, and the
    packet written back parses as a UDP packet from the server and port 53 back
    to the client's address and port, with its own length as total length; the
    DNS message in it has the identifier and the question of the query and
    answers with exactly the resolver's addresses of the family asked for (none
    when resolving fails).  The IPv4 header checksum verifies; the UDP checksum is
    zero for both versions, which IPv6 does not allow. *)
Theorem hijacked_query_answered resolver id flags qd counts labels t class rest
    tos total ident fo ttl ck src dst options cf plen hops src6 dst6 sport n uck :
  u16_ok id → in_width 15 flags → u16_ok qd → qd ≠ 0 → length counts = 6%nat →
  Forall label_ok labels → labels ≠ [] → u16_ok t →
  (∀ h a, resolver h = Ok a → Forall ip_ok a) →
  u16_ok total → u32_ok src → u32_ok dst → (length options ≤ 40)%nat → (length options mod 4 = 0)%nat →
  in_width 28 cf → u16_ok plen → in_width 128 src6 → in_width 128 dst6 → u16_ok sport →
  let q := question labels t class in
  let resp := build_dns_response (mkQuery id (join_on "." labels) t q)
                (match resolver (join_on "." labels) with Ok addrs => addrs | Err _ => [] end) in
  len resp <= 65507 →
  let udp := transport_header sport 53 (to_be_bytes 2 n ++ to_be_bytes 2 uck
                                        ++ query_message id flags qd counts q rest) in
  let raw4 := ipv4_header tos total ident fo ttl 17 ck src dst options ++ udp in
  let raw6 := ipv6_header cf plen 17 hops src6 dst6 ++ udp in
  (∃ p out, parse_ip_packet raw4 = Found (Ok p) ∧ is_dns_query p = true
     ∧ handle_dns_hijack resolver p raw4 = Found out
     ∧ parse_ip_packet out = Found (Ok (mkParsed 4 IpProtocol.Udp (V4 dst) (V4 src) 53 sport 20 (length out)))
     ∧ read_response q (drop 28 out) = Some (id, expected resolver labels t)
     ∧ ipv4_checksum (take 20 out) = Some 0)
  ∧ ∃ p out, parse_ip_packet raw6 = Found (Ok p) ∧ is_dns_query p = true
     ∧ handle_dns_hijack resolver p raw6 = Found out
     ∧ parse_ip_packet out = Found (Ok (mkParsed 6 IpProtocol.Udp (V6 dst6) (V6 src6) 53 sport 40 (length out)))
     ∧ read_response q (drop 48 out) = Some (id, expected resolver labels t)
     ∧ slice out 46 48 = [Byte.x00; Byte.x00].
Proof.
  intros Hid Hfl Hqd Hqd0 Hc Hlab Hne Ht Hans Htot Hsrc Hdst Hopt Hmod Hcf Hplen Hs6 Hd6 Hsp q resp Hlen
    udp raw4 raw6.
  pose proof (hijack_response resolver id labels t class Hid Hans) as Hread. cbv zeta in Hread.
  fold q resp in Hread. specialize (Hread ltac:(lia)). pose proof (len_nonneg resp).
  split.
  - destruct (ipv4_udp_packet_ok dst src 53 sport resp) as (out & Eb & Ep & Ed & Ec);
      [done|done|unfold in_width; lia|done|done|].
    eexists. exists out. split_and!; [| | |exact Ep|by rewrite Ed|exact Ec].
    + unfold raw4. rewrite parse_ipv4_header by (done || (unfold in_width; lia)).
      unfold udp. rewrite transport_ports by (done || (unfold in_width; lia)). reflexivity.
    + done.
    + unfold raw4, udp, q. rewrite hijack_handles by (done || (by rewrite length_ipv4_header)). exact Eb.
  - destruct (ipv6_udp_packet_ok dst6 src6 53 sport resp) as (out & Eb & Ep & Ed & Ec);
      [done|done|unfold in_width; lia|done|done|].
    eexists. exists out. split_and!; [| | |exact Ep|by rewrite Ed|exact Ec].
    + unfold raw6. rewrite parse_ipv6_header by (done || (unfold in_width; lia)).
      unfold udp. rewrite transport_ports by (done || (unfold in_width; lia)). reflexivity.
    + done.
    + unfold raw6, udp, q. rewrite hijack_handles by done. exact Eb.
Qed.

Definition sample_resolver : DnsResolver := fun h =>
  if (h =? "a.com")%string then Ok [V4 0x01020304; V6 7; V4 0x05060708] else Err NoResolvers.

Lemma hijacked_query_answered_witness :
  let q := question ["a"; "com"] 1 1 in
  let udp := transport_header 5353 53 (to_be_bytes 2 0 ++ to_be_bytes 2 0
               ++ query_message 7 0x0100 1 (replicate 6 Byte.x00) q []) in
  let raw4 := ipv4_header 0 51 0 0 64 17 0 0x0A000001 0x08080808 [] ++ udp in
  ∃ p out, parse_ip_packet raw4 = Found (Ok p) ∧ is_dns_query p = true
     ∧ handle_dns_hijack sample_resolver p raw4 = Found out
     ∧ parse_ip_packet out
       = Found (Ok (mkParsed 4 IpProtocol.Udp (V4 0x08080808) (V4 0x0A000001) 53 5353 20 (length out)))
     ∧ read_response q (drop 28 out) = Some (7, [V4 0x01020304; V4 0x05060708])
     ∧ ipv4_checksum (take 20 out) = Some 0.
Proof.
  refine (proj1 (hijacked_query_answered sample_resolver 7 0x0100 1 (replicate 6 Byte.x00) ["a"; "com"] 1 1 []
    0 51 0 0 64 0 0x0A000001 0x08080808 [] 0 40 64 1 2 5353 0 0 _ _ _ _ _ _ _ _ _ _ _ _ _ _ _ _ _ _ _ _));
    try (unfold in_width; lia); try done.
  - repeat constructor; vm_compute; reflexivity.
  - intros h a. unfold sample_resolver. destruct (h =? "a.com")%string; [|done].
    intros [= <-]. repeat constructor; unfold in_width; lia.
  - vm_compute. lia.
Defined.

(** Building a response never panics, whatever its size. *)
Lemma handle_dns_hijack_safe resolver parsed raw : safe (handle_dns_hijack resolver parsed raw).
Proof.
  unfold handle_dns_hijack. cbv zeta.
  destruct (Nat.leb_spec (length raw) (payload_offset parsed + 8)); [done|].
  apply safe_bind; [apply safe_idx_range; lia|]. intros dns _.
  apply safe_bind; [pose proof (parse_dns_query_total dns); done|]. intros q _.
  destruct (src_ip parsed) as [c|c], (dst_ip parsed) as [d|d]; try done.
  - rewrite build_ipv4_udp_packet_steps. cbv zeta. apply safe_bind; [|done].
    rewrite ipv4_checksum_inet. set (hdr := ipv4_header _ _ _ _ _ _ _ _ _ _).
    destruct (inet_sum_verifies (take 10 hdr) (to_be_bytes 4 d ++ to_be_bytes 4 c)) as (k & E & _);
      [by exists 5%nat | done |].
    change (take 10 hdr ++ [Byte.x00; Byte.x00] ++ to_be_bytes 4 d ++ to_be_bytes 4 c) with hdr in E.
    by rewrite E.
  - by rewrite build_ipv6_udp_packet_steps.
Qed.

(** Hijacking is total: no packet, query name or resolver answer makes the
    query parser, the response builder or the packet builders panic or run on. *)
Theorem hijack_never_panics resolver parsed raw data :
  safe (parse_dns_query data) ∧ safe (handle_dns_hijack resolver parsed raw).
Proof. split; [apply parse_dns_query_total | apply handle_dns_hijack_safe]. Qed.
