(* ===== verification/TunPacket.v ===== *)
(** * Packets injected by the user-space stack ([src/src/proxy/inbound/tun_stack.rs])

    The TCP segments and UDP datagrams the stack writes to the TUN device, with
    the checksums of IPv4 and TCP.  Both builders refuse IPv6 and packets over
    65535 bytes.  What they build parses back to the given fields, and all of its
    checksums verify. *)

From S2P Require Import Prelude RustStr Addr Outcome Wire Packet.

Local Open Scope Z_scope.

Inductive build_error :=
| Ipv6NotImplemented
| PacketTooLarge (n : nat).

(** The sum over the header from position [i], which skips the checksum. *)
Fixpoint sum_skip10 (header : bytes) (i : nat) (sum : Z) : Z :=
  match header with
  | a :: b :: rest =>
      sum_skip10 rest (i + 2)
        (if (i =? 10)%nat then sum else wrap 32 (sum + from_be_bytes [a; b]))
  | _ => sum
  end.
Definition ipv4_header_checksum (header : bytes) : option Z :=
  complement <$> fold_carry carry_fuel (sum_skip10 header 0 0).

Definition tcp_checksum_ipv4 (src dst : Z) (tcp_segment : bytes) (tcp_len : Z) : option Z :=
  let so := to_be_bytes 4 src in
  let dof := to_be_bytes 4 dst in
  let sum := 0 in
  let sum := wrap 32 (sum + from_be_bytes [byte_at so 0; byte_at so 1]) in
  let sum := wrap 32 (sum + from_be_bytes [byte_at so 2; byte_at so 3]) in
  let sum := wrap 32 (sum + from_be_bytes [byte_at dof 0; byte_at dof 1]) in
  let sum := wrap 32 (sum + from_be_bytes [byte_at dof 2; byte_at dof 3]) in
  let sum := wrap 32 (sum + 6) in
  let sum := wrap 32 (sum + tcp_len) in
  complement <$> fold_carry carry_fuel (sum_words tcp_segment sum).

Definition build_udp_reply_packet (src dst : SocketAddr) (payload : bytes)
    : outcome (result build_error bytes) :=
  match sock_ip src, sock_ip dst with
  | V4 src_ip, V4 dst_ip =>
      let ip_header_len := 20%nat in
      let udp_header_len := 8%nat in
      let total_len := (ip_header_len + udp_header_len + length payload)%nat in
      if 65535 <? Z.of_nat total_len then Found (Err (PacketTooLarge total_len)) else
      let packet := replicate total_len Byte.x00 in
      let! packet := set_byte packet 0 0x45 in
      let! packet := set_byte packet 1 0 in
      let! packet := copy_from_slice packet 2 4 (to_be_bytes 2 (wrap 16 (Z.of_nat total_len))) in
      let! packet := copy_from_slice packet 4 6 (to_be_bytes 2 0) in
      let! packet := copy_from_slice packet 6 8 (to_be_bytes 2 0) in
      let! packet := set_byte packet 8 64 in
      let! packet := set_byte packet 9 17 in
      let! packet := copy_from_slice packet 12 16 (to_be_bytes 4 src_ip) in
      let! packet := copy_from_slice packet 16 20 (to_be_bytes 4 dst_ip) in
      let! packet := copy_from_slice packet 20 22 (to_be_bytes 2 (sock_port src)) in
      let! packet := copy_from_slice packet 22 24 (to_be_bytes 2 (sock_port dst)) in
      let! packet := copy_from_slice packet 24 26
                       (to_be_bytes 2 (wrap 16 (Z.of_nat (udp_header_len + length payload)))) in
      let! packet := copy_from_slice packet 26 28 (to_be_bytes 2 0) in
      let! packet := copy_from_slice packet 28 total_len payload in
      let! header := idx_range packet 0 20 in
      let! csum := fueled (ipv4_header_checksum header) in
      let! packet := copy_from_slice packet 10 12 (to_be_bytes 2 csum) in
      Found (Ok packet)
  | _, _ => Found (Err Ipv6NotImplemented)
  end.

Definition build_tcp_packet_ipv4 (src dst : SocketAddr) (seq ack flags : Z) (payload : bytes)
    : outcome (result build_error bytes) :=
  match sock_ip src, sock_ip dst with
  | V4 src_ip, V4 dst_ip =>
      let ip_header_len := 20%nat in
      let tcp_header_len := 20%nat in
      let total_len := (ip_header_len + tcp_header_len + length payload)%nat in
      if 65535 <? Z.of_nat total_len then Found (Err (PacketTooLarge total_len)) else
      let packet := replicate total_len Byte.x00 in
      let! packet := set_byte packet 0 0x45 in
      let! packet := set_byte packet 1 0 in
      let! packet := copy_from_slice packet 2 4 (to_be_bytes 2 (wrap 16 (Z.of_nat total_len))) in
      let! packet := copy_from_slice packet 4 6 (to_be_bytes 2 0) in
      let! packet := copy_from_slice packet 6 8 (to_be_bytes 2 0) in
      let! packet := set_byte packet 8 64 in
      let! packet := set_byte packet 9 6 in
      let! packet := copy_from_slice packet 12 16 (to_be_bytes 4 src_ip) in
      let! packet := copy_from_slice packet 16 20 (to_be_bytes 4 dst_ip) in
      let! packet := copy_from_slice packet 20 22 (to_be_bytes 2 (sock_port src)) in
      let! packet := copy_from_slice packet 22 24 (to_be_bytes 2 (sock_port dst)) in
      let! packet := copy_from_slice packet 24 28 (to_be_bytes 4 seq) in
      let! packet := copy_from_slice packet 28 32 (to_be_bytes 4 ack) in
      let! packet := set_byte packet 32 0x50 in
      let! packet := set_byte packet 33 flags in
      let! packet := copy_from_slice packet 34 36 (to_be_bytes 2 65535) in
      let! packet := copy_from_slice packet 36 38 (to_be_bytes 2 0) in
      let! packet := copy_from_slice packet 38 40 (to_be_bytes 2 0) in
      let! packet := copy_from_slice packet 40 total_len payload in
      let! header := idx_range packet 0 20 in
      let! ip_csum := fueled (ipv4_header_checksum header) in
      let! packet := copy_from_slice packet 10 12 (to_be_bytes 2 ip_csum) in
      let tcp_len := wrap 16 (Z.of_nat (tcp_header_len + length payload)) in
      let! segment := idx_range packet 20 total_len in
      let! tcp_csum := fueled (tcp_checksum_ipv4 src_ip dst_ip segment tcp_len) in
      let! packet := copy_from_slice packet 36 38 (to_be_bytes 2 tcp_csum) in
      Found (Ok packet)
  | _, _ => Found (Err Ipv6NotImplemented)
  end.

(** ** Shapes *)

Definition tcp_segment (sport dport seq ack flags ck : Z) (payload : bytes) : bytes :=
  transport_header sport dport
    (to_be_bytes 4 seq ++ to_be_bytes 4 ack ++ [byte_of_Z 0x50; byte_of_Z flags] ++ to_be_bytes 2 65535
     ++ to_be_bytes 2 ck ++ to_be_bytes 2 0 ++ payload).
Definition udp_datagram (sport dport n : Z) (payload : bytes) : bytes :=
  transport_header sport dport (to_be_bytes 2 n ++ to_be_bytes 2 0 ++ payload).
(** The pseudo-header of RFC 9293 a TCP checksum covers. *)
Definition tcp_pseudo (src dst n : Z) : bytes :=
  to_be_bytes 4 src ++ to_be_bytes 4 dst ++ [Byte.x00; byte_of_Z 6] ++ to_be_bytes 2 n.

#[local] Arguments ipv4_header_checksum : simpl never.
#[local] Arguments tcp_checksum_ipv4 : simpl never.

Lemma build_udp_reply_steps src dst s d payload :
  sock_ip src = V4 s → sock_ip dst = V4 d → Z.of_nat (28 + length payload) <= 65535 →
  let hdr ck := ipv4_header 0 (wrap 16 (Z.of_nat (28 + length payload))) 0 0 64 17 ck s d [] in
  build_udp_reply_packet src dst payload
  = let! c := fueled (ipv4_header_checksum (hdr 0)) in
    Found (Ok (hdr c ++ udp_datagram (sock_port src) (sock_port dst)
                          (wrap 16 (Z.of_nat (8 + length payload))) payload)).
Proof.
  intros Hs Hd Hle hdr. unfold build_udp_reply_packet. rewrite Hs, Hd. cbv zeta.
  destruct (Z.ltb_spec 65535 (Z.of_nat (20 + 8 + length payload))) as [H|_]; [lia|].
  hide_rhs. replay. fill_payload 28%nat.
  match goal with |- context [idx_range ?l 0 20] => change (idx_range l 0 20) with (Found (hdr 0)) end.
  cbn [bind_outcome]. destruct (fueled (ipv4_header_checksum (hdr 0))) as [c| | |]; subst rhs; [|reflexivity..].
  reflexivity.
Qed.

Lemma build_tcp_packet_steps src dst s d seq ack flags payload :
  sock_ip src = V4 s → sock_ip dst = V4 d → Z.of_nat (40 + length payload) <= 65535 →
  let hdr ck := ipv4_header 0 (wrap 16 (Z.of_nat (40 + length payload))) 0 0 64 6 ck s d [] in
  let seg ck := tcp_segment (sock_port src) (sock_port dst) seq ack flags ck payload in
  build_tcp_packet_ipv4 src dst seq ack flags payload
  = let! c := fueled (ipv4_header_checksum (hdr 0)) in
    let! c' := fueled (tcp_checksum_ipv4 s d (seg 0) (wrap 16 (Z.of_nat (20 + length payload)))) in
    Found (Ok (hdr c ++ seg c')).
Proof.
  intros Hs Hd Hle hdr seg. unfold build_tcp_packet_ipv4. rewrite Hs, Hd. cbv zeta.
  destruct (Z.ltb_spec 65535 (Z.of_nat (20 + 20 + length payload))) as [H|_]; [lia|].
  hide_rhs. replay. fill_payload 40%nat.
  match goal with |- context [idx_range ?l 0 20] => change (idx_range l 0 20) with (Found (hdr 0)) end.
  cbn [bind_outcome]. destruct (fueled (ipv4_header_checksum (hdr 0))) as [c| | |]; subst rhs; [|reflexivity..].
  cbn [bind_outcome]. hide_rhs. replay.
  match goal with |- context [idx_range ?l 20 ?b] =>
    change (idx_range l 20 b) with (idx_range (hdr c ++ seg 0) (length (hdr c)) b) end.
  rewrite idx_range_tail by reflexivity. cbn [bind_outcome].
  match goal with |- context [tcp_checksum_ipv4 s d (seg 0) ?n] =>
    change n with (wrap 16 (Z.of_nat (20 + length payload))) end.
  destruct (fueled (tcp_checksum_ipv4 _ _ _ _)) as [c'| | |]; subst rhs; reflexivity.
Qed.

(** ** Checksums verify *)

Lemma sum_skip10_words l i s :
  (i = 12)%nat → (Nat.Even (length l)) → 0 <= s → s + words l < 2 ^ 32 →
  sum_skip10 l i s = s + words l.
Proof.
  intros ->. enough (Hgen : ∀ i s, (10 < i)%nat → Nat.Even (length l) → 0 <= s → s + words l < 2 ^ 32 →
    sum_skip10 l i s = s + words l) by (intros; apply Hgen; done || lia).
  induction l as [|a|a b l IH] using list_two_ind; intros i s0 Hi He Hs Hb; cbn [sum_skip10 words] in *.
  - lia.
  - destruct He as [m Hm]. simpl in Hm. lia.
  - pose proof (from_be2_ok a b) as Hw. unfold in_width in Hw. pose proof (words_range l).
    destruct (Nat.eqb_spec i 10); [lia|]. rewrite wrap_small by (unfold in_width; lia).
    rewrite IH; [lia|lia| |lia..]. destruct He as [m Hm]. simpl in Hm. exists (m - 1)%nat. lia.
Qed.

Lemma sum_skip10_header pre rest i s :
  (i + length pre = 10)%nat → Nat.Even (length pre) → Nat.Even (length rest) →
  0 <= s → s + words pre + words rest < 2 ^ 32 →
  sum_skip10 (pre ++ [Byte.x00; Byte.x00] ++ rest) i s = s + words pre + words rest.
Proof.
  revert i s. induction pre as [|a|a b pre IH] using list_two_ind; intros i s Hi He Hr Hs Hb.
  - cbn [app sum_skip10 words length] in *. rewrite Nat.add_0_r in Hi. subst i. cbn [Nat.eqb Nat.add].
    rewrite sum_skip10_words by (done || lia). lia.
  - destruct He as [m Hm]. simpl in Hm. lia.
  - cbn [app sum_skip10 words length] in *. destruct (Nat.eqb_spec i 10); [lia|].
    pose proof (from_be2_ok a b) as Hw. unfold in_width in Hw. change (2 ^ 16) with 65536 in Hw.
    pose proof (words_range pre). pose proof (words_range rest).
    rewrite wrap_small by (unfold in_width; lia). change (?x :: ?y :: rest) with ([x; y] ++ rest).
    rewrite IH; [lia|lia| |done|lia..]. destruct He as [m Hm]. exists (m - 1)%nat. lia.
Qed.

(** The header checksum equals the plain sum over a header whose checksum field
    is zero. *)
Lemma ipv4_header_checksum_inet total id fo ttl proto s d :
  let hdr ck := ipv4_header 0 total id fo ttl proto ck s d [] in
  ∃ c, ipv4_header_checksum (hdr 0) = Some c ∧ u16_ok c ∧ inet_sum (hdr c) = Some 0.
Proof.
  intros hdr. set (pre := take 10 (hdr 0)). set (rest := to_be_bytes 4 s ++ to_be_bytes 4 d).
  destruct (inet_sum_verifies pre rest) as (c & E & Hc & V); [by exists 5%nat | done |].
  exists c. split_and!; [|apply Hc..|exact V]. rewrite <- E. unfold ipv4_header_checksum, inet_sum. do 2 f_equal.
  change (hdr 0) with (pre ++ [Byte.x00; Byte.x00] ++ rest).
  pose proof (words_range pre) as Hp. pose proof (words_range rest) as Hr.
  change (len pre) with 10 in Hp. change (len rest) with 8 in Hr.
  rewrite sum_skip10_header by (try done; try (by exists 5%nat); try (by exists 4%nat); lia).
  assert (W : words (pre ++ [Byte.x00; Byte.x00] ++ rest) = words pre + words rest)
    by (rewrite words_app by (by exists 5%nat); by rewrite words_app by (by exists 1%nat)).
  rewrite sum_words_small, W by lia. lia.
Qed.

Lemma sum_words_cons2 a b l s : sum_words (a :: b :: l) s = sum_words l (wrap 32 (s + from_be_bytes [a; b])).
Proof. reflexivity. Qed.

(** The TCP checksum is the sum over the pseudo-header and the segment. *)
Lemma tcp_checksum_pseudo s d seg n :
  u16_ok n → len seg <= 65535 →
  tcp_checksum_ipv4 s d seg n = inet_sum (tcp_pseudo s d n ++ seg).
Proof.
  intros Hn Hlen. unfold tcp_checksum_ipv4, inet_sum. cbv zeta. do 2 f_equal.
  assert (H4 : ∀ z, ∃ a b c e, to_be_bytes 4 z = [a; b; c; e]) by (intros; do 4 eexists; reflexivity).
  assert (H2 : ∃ a b, to_be_bytes 2 n = [a; b]) by (do 2 eexists; reflexivity).
  unfold tcp_pseudo. pose proof (from_to_be_2 n Hn) as Hb. destruct H2 as (n1 & n2 & E2). rewrite E2 in *.
  destruct (H4 s) as (s1 & s2 & s3 & s4 & ->). destruct (H4 d) as (d1 & d2 & d3 & d4 & ->).
  cbn [app]. rewrite !sum_words_cons2, Hb. reflexivity.
Qed.

Lemma tcp_checksum_verifies s d sport dport seq ack flags payload :
  let seg ck := tcp_segment sport dport seq ack flags ck payload in
  let n := Z.of_nat (20 + length payload) in
  n <= 65535 →
  ∃ c, tcp_checksum_ipv4 s d (seg 0) n = Some c ∧ u16_ok c
     ∧ inet_sum (tcp_pseudo s d n ++ seg c) = Some 0.
Proof.
  intros seg n Hn. rewrite tcp_checksum_pseudo by (unfold in_width, len, n in *; simpl; lia).
  set (pre := tcp_pseudo s d n ++ take 16 (seg 0)).
  destruct (inet_sum_verifies pre (to_be_bytes 2 0 ++ payload)) as (c & E & Hc & V).
  { by exists 14%nat. } { unfold len, n in *. simpl. lia. }
  exists c. split_and!; [|apply Hc..|].
  - rewrite <- E. unfold pre. by rewrite <- app_assoc.
  - rewrite <- V. unfold pre. by rewrite <- app_assoc.
Qed.

(** What the stack injects is well formed: a TCP segment or UDP datagram
    between IPv4 sockets that fits 65535 bytes is built without a panic, parses
    back to the given addresses and ports with its own length as total length,
    carries its payload behind the header, and its IPv4 header checksum and, for
    TCP, the checksum over the pseudo-header verify.  A larger one and any IPv6
    address are refused with the corresponding error. *)
Theorem injected_packets_correct src dst seq ack flags payload :
  sock_ok src → sock_ok dst → u32_ok seq → u32_ok ack → u8_ok flags →
  match sock_ip src, sock_ip dst with
  | V4 s, V4 d =>
      (if 65535 <? 40 + len payload
       then build_tcp_packet_ipv4 src dst seq ack flags payload = Found (Err (PacketTooLarge (40 + length payload)))
       else ∃ q ck, build_tcp_packet_ipv4 src dst seq ack flags payload = Found (Ok q)
            ∧ parse_ip_packet q = Found (Ok (mkParsed 4 IpProtocol.Tcp (V4 s) (V4 d)
                                               (sock_port src) (sock_port dst) 20 (length q)))
            ∧ drop 20 q = tcp_segment (sock_port src) (sock_port dst) seq ack flags ck payload
            ∧ inet_sum (take 20 q) = Some 0
            ∧ inet_sum (tcp_pseudo s d (len (drop 20 q)) ++ drop 20 q) = Some 0)
      ∧ (if 65535 <? 28 + len payload
         then build_udp_reply_packet src dst payload = Found (Err (PacketTooLarge (28 + length payload)))
         else ∃ q, build_udp_reply_packet src dst payload = Found (Ok q)
              ∧ parse_ip_packet q = Found (Ok (mkParsed 4 IpProtocol.Udp (V4 s) (V4 d)
                                                 (sock_port src) (sock_port dst) 20 (length q)))
              ∧ drop 20 q = udp_datagram (sock_port src) (sock_port dst) (8 + len payload) payload
              ∧ inet_sum (take 20 q) = Some 0)
  | _, _ => build_tcp_packet_ipv4 src dst seq ack flags payload = Found (Err Ipv6NotImplemented)
            ∧ build_udp_reply_packet src dst payload = Found (Err Ipv6NotImplemented)
  end.
Proof.
  intros Hs Hd Hseq Hack Hfl.
  assert (Hport : ∀ x, sock_ok x → u16_ok (sock_port x)) by (intros [] H; simpl in *; tauto).
  assert (Hip : ∀ x z, sock_ok x → sock_ip x = V4 z → u32_ok z)
    by (intros [] z H [= <-]; simpl in *; tauto).
  destruct (sock_ip src) as [s|s] eqn:Es, (sock_ip dst) as [d|d] eqn:Ed;
    [|by unfold build_tcp_packet_ipv4, build_udp_reply_packet; rewrite ?Es, ?Ed..].
  specialize (Hip src s Hs Es) as Hs4. specialize (Hip dst d Hd Ed) as Hd4.
  pose proof (Hport src Hs) as Hsp. pose proof (Hport dst Hd) as Hdp. clear Hport Hip.
  pose proof (len_nonneg payload). split.
  - destruct (Z.ltb_spec 65535 (40 + len payload)) as [Hbig|Hfit].
    + unfold build_tcp_packet_ipv4. rewrite Es, Ed. cbv zeta. unfold len in *.
      destruct (Z.ltb_spec 65535 (Z.of_nat (20 + 20 + length payload))); [done|lia].
    + unfold len in *. assert (Hfit' : Z.of_nat (40 + length payload) <= 65535) by lia.
      rewrite (build_tcp_packet_steps src dst s d seq ack flags payload Es Ed Hfit'). cbv zeta.
      rewrite !(wrap_small 16) by (unfold in_width; lia).
      destruct (ipv4_header_checksum_inet (Z.of_nat (40 + length payload)) 0 0 64 6 s d) as (c & -> & _ & V).
      destruct (tcp_checksum_verifies s d (sock_port src) (sock_port dst) seq ack flags payload) as (c' & -> & _ & V');
        [lia|]. cbn [fueled bind_outcome]. eexists _, c'. split; [reflexivity|]. split_and!.
      * rewrite parse_ipv4_header by first [assumption | unfold in_width; cbn [length]; lia | reflexivity].
        unfold tcp_segment. rewrite transport_ports by first [exact Hsp | exact Hdp | reflexivity]. cbn [bind_outcome fst snd].
        do 3 f_equal. rewrite Nat2Z.id. done.
      * done.
      * exact V.
      * exact V'.
  - destruct (Z.ltb_spec 65535 (28 + len payload)) as [Hbig|Hfit].
    + unfold build_udp_reply_packet. rewrite Es, Ed. cbv zeta. unfold len in *.
      destruct (Z.ltb_spec 65535 (Z.of_nat (20 + 8 + length payload))); [done|lia].
    + unfold len in *. assert (Hfit' : Z.of_nat (28 + length payload) <= 65535) by lia.
      rewrite (build_udp_reply_steps src dst s d payload Es Ed Hfit'). cbv zeta.
      rewrite !(wrap_small 16) by (unfold in_width; lia).
      destruct (ipv4_header_checksum_inet (Z.of_nat (28 + length payload)) 0 0 64 17 s d) as (c & -> & _ & V).
      cbn [fueled bind_outcome]. eexists. split; [reflexivity|]. split_and!.
      * rewrite parse_ipv4_header by first [assumption | unfold in_width; cbn [length]; lia | reflexivity].
        unfold udp_datagram. rewrite transport_ports by first [exact Hsp | exact Hdp | reflexivity]. cbn [bind_outcome fst snd].
        do 3 f_equal. rewrite Nat2Z.id. done.
      * replace (8 + Z.of_nat (length payload)) with (Z.of_nat (8 + length payload)) by lia. reflexivity.
      * exact V.
Qed.

Lemma injected_packets_correct_witness :
  let src := SockV4 0x08080808 443 in
  let dst := SockV4 0x0A000001 50000 in
  ∃ q ck, build_tcp_packet_ipv4 src dst 1 2 0x12 [] = Found (Ok q)
    ∧ parse_ip_packet q = Found (Ok (mkParsed 4 IpProtocol.Tcp (V4 0x08080808) (V4 0x0A000001)
                                       443 50000 20 (length q)))
    ∧ drop 20 q = tcp_segment 443 50000 1 2 0x12 ck []
    ∧ inet_sum (take 20 q) = Some 0
    ∧ inet_sum (tcp_pseudo 0x08080808 0x0A000001 (len (drop 20 q)) ++ drop 20 q) = Some 0.
Proof.
  refine (proj1 (injected_packets_correct (SockV4 0x08080808 443) (SockV4 0x0A000001 50000) 1 2 0x12 []
    _ _ _ _ _)); try split; unfold in_width; lia.
Defined.
