(* ===== verification/TunStack.v ===== *)
(** * The user-space TCP stack of the TUN inbound
      ([src/src/proxy/inbound/tun_stack.rs])

    Connections live in a store: a connection has the shared sequence-number
    state, the two bounded channels between the stack and the [TunTcpStream]
    handed to the dispatcher, the read buffer of that stream, and the liveness of
    its writer and dispatch tasks.  The connection table maps a pair of sockets to
    a connection.  Every segment handled, every poll of a stream, every chunk the
    writer takes and the end of a dispatch is one step; a step that would wait on
    a full channel is not enabled.  Device writes of the handler are collected as
    the packets written; the writer is told whether its write succeeded. *)

From S2P Require Import Prelude RustStr Addr Outcome Wire Packet TunPacket Trie Rules Hosts DnsReply.

Local Open Scope string_scope.
Local Open Scope list_scope.
Local Open Scope Z_scope.

(** ** Configuration *)

Record TunStackConfig := mkStackConfig {
  max_tcp_connections : Z;
  max_udp_sessions : Z;
  tcp_buf_size : Z;
  icmp_policy : IcmpPolicy;
  dns_hijack_enabled : bool;
  stack_inbound_tag : string;
  sniff : bool;
  allow_loopback : bool;
}.
Definition MAX_TCP_CONNECTIONS : Z := 4096.
Definition MAX_UDP_SESSIONS : Z := 2048.
Definition TCP_BUF_SIZE : Z := 256 * 1024.
Definition stack_config_default : TunStackConfig :=
  mkStackConfig MAX_TCP_CONNECTIONS MAX_UDP_SESSIONS TCP_BUF_SIZE Packet.Drop true "tun-in" true false.

(** ** Channels

    A bounded [mpsc] channel of byte chunks: what is queued, and whether each end
    is still there. *)

Record Chan := mkChan {
  queue : list bytes;
  tx_alive : bool;
  rx_alive : bool;
}.
Definition chan_new : Chan := mkChan [] true true.
Definition chan_capacity : nat := 256.
Inductive sent := SendOk (c : Chan) | SendFull | SendClosed.
Definition try_send (c : Chan) (d : bytes) : sent :=
  if negb (rx_alive c) then SendClosed
  else if (chan_capacity <=? length (queue c))%nat then SendFull
  else SendOk (mkChan (queue c ++ [d]) (tx_alive c) (rx_alive c)).

(** ** The stream handed to the dispatcher *)

Record TcpConnState := mkConnState {
  client_seq_next : Z;
  server_seq_next : Z;
}.
Record Conn := mkConn {
  to_stream : Chan;
  from_stream : Chan;
  read_buf : bytes;
  read_pos : nat;
  read_closed : bool;
  cstate : TcpConnState;
  csrc : SocketAddr;
  cdst : SocketAddr;
  writer_alive : bool;
  dispatch_alive : bool;
}.
Definition set_read (ch : Chan) (buf : bytes) (pos : nat) (closed : bool) (c : Conn) : Conn :=
  mkConn ch (from_stream c) buf pos closed (cstate c) (csrc c) (cdst c) (writer_alive c) (dispatch_alive c).
Definition set_from (ch : Chan) (c : Conn) : Conn :=
  mkConn (to_stream c) ch (read_buf c) (read_pos c) (read_closed c) (cstate c) (csrc c) (cdst c)
    (writer_alive c) (dispatch_alive c).
Definition set_to (ch : Chan) (c : Conn) : Conn :=
  set_read ch (read_buf c) (read_pos c) (read_closed c) c.
Definition set_state (s : TcpConnState) (c : Conn) : Conn :=
  mkConn (to_stream c) (from_stream c) (read_buf c) (read_pos c) (read_closed c) s (csrc c) (cdst c)
    (writer_alive c) (dispatch_alive c).

Inductive poll (A : Type) := Ready (a : A) | Pending.
Arguments Ready {A} a.
Arguments Pending {A}.

(** [poll_read] into a buffer with [n] bytes of room: the bytes put into it. *)
Definition poll_read (n : nat) (c : Conn) : poll bytes * Conn :=
  if (read_pos c <? length (read_buf c))%nat then
    let remaining := drop (read_pos c) (read_buf c) in
    let to_copy := (length remaining `min` n)%nat in
    let pos := (read_pos c + to_copy)%nat in
    (Ready (take to_copy remaining),
     if (length (read_buf c) <=? pos)%nat then set_read (to_stream c) [] 0 (read_closed c) c
     else set_read (to_stream c) (read_buf c) pos (read_closed c) c)
  else if read_closed c then (Ready [], c)
  else
    match queue (to_stream c) with
    | data :: rest =>
        let ch := mkChan rest (tx_alive (to_stream c)) (rx_alive (to_stream c)) in
        if (length data =? 0)%nat then (Ready [], set_read ch (read_buf c) (read_pos c) true c)
        else
          let to_copy := (length data `min` n)%nat in
          (Ready (take to_copy data),
           if (to_copy <? length data)%nat then set_read ch data to_copy (read_closed c) c
           else set_read ch (read_buf c) (read_pos c) (read_closed c) c)
    | [] =>
        if tx_alive (to_stream c) then (Pending, c)
        else (Ready [], set_read (to_stream c) (read_buf c) (read_pos c) true c)
    end.

Inductive io_error := BrokenPipe.
Definition poll_write (data : bytes) (c : Conn) : poll (result io_error nat) * Conn :=
  match try_send (from_stream c) data with
  | SendOk ch => (Ready (Ok (length data)), set_from ch c)
  | SendFull => (Pending, c)
  | SendClosed => (Ready (Err BrokenPipe), c)
  end.
Definition poll_shutdown (c : Conn) : poll (result io_error unit) * Conn :=
  (Ready (Ok tt),
   match try_send (from_stream c) [] with SendOk ch => set_from ch c | _ => c end).

(** ** The stack *)

Record TunStack := mkStack {
  config : TunStackConfig;
  tcp_connections : gmap (SocketAddr * SocketAddr) nat;
  conns : list Conn;
  active_tcp : Z;
  active_udp : Z;
}.
Definition stack_new (cfg : TunStackConfig) : TunStack := mkStack cfg ∅ [] 0 0.
Definition set_conns (l : list Conn) (s : TunStack) : TunStack :=
  mkStack (config s) (tcp_connections s) l (active_tcp s) (active_udp s).
Definition set_table (t : gmap (SocketAddr * SocketAddr) nat) (n : Z) (s : TunStack) : TunStack :=
  mkStack (config s) t (conns s) n (active_udp s).
(** [fetch_sub(1)] and [fetch_add(1)] on an [AtomicUsize]. *)
Definition pred_usize (n : Z) : Z := wrap 64 (n - 1).
Definition succ_usize (n : Z) : Z := wrap 64 (n + 1).

(** [tcp_connections.remove(&key)]: the entry held the only sender of the channel
    to its stream. *)
Definition remove_conn (key : SocketAddr * SocketAddr) (s : TunStack) : TunStack :=
  match tcp_connections s !! key with
  | Some j =>
      set_table (delete key (tcp_connections s)) (active_tcp s)
        (set_conns (alter (fun c => set_to (mkChan (queue (to_stream c)) false (rx_alive (to_stream c))) c) j
                     (conns s)) s)
  | None => s
  end.
Definition set_active (n : Z) (s : TunStack) : TunStack := set_table (tcp_connections s) n s.

(** The packet of a builder, or nothing: [if let Ok(pkt) = build(..)]. *)
Definition built (o : outcome (result build_error bytes)) : list bytes :=
  match o with Found (Ok p) => [p] | _ => [] end.

Definition tcp_session (s : TunStack) (src dst : SocketAddr) : Session :=
  mkSession (Ip dst) (Some src) (stack_inbound_tag (config s)) Tcp (sniff (config s)) None.

(** The fields of a segment: flags, sequence number and payload. *)
Definition tcp_flags (off : nat) (raw : bytes) : Z := byte_to_Z (byte_at raw (off + 13)).
Definition tcp_seq (off : nat) (raw : bytes) : Z :=
  from_be_bytes [byte_at raw (off + 4); byte_at raw (off + 5); byte_at raw (off + 6); byte_at raw (off + 7)].
Definition tcp_payload (off : nat) (raw : bytes) : bytes :=
  let data_offset := (Z.to_nat (Z.shiftr (byte_to_Z (byte_at raw (off + 12))) 4) * 4)%nat in
  let payload_start := (off + data_offset)%nat in
  if (payload_start <? length raw)%nat then drop payload_start raw else [].
Definition has_flag (flags bit : Z) : bool := negb (Z.land flags bit =? 0).

(** [handle_tcp_packet]: the packets written and the session dispatched; [None]
    while the channel to the stream is full. *)
Definition handle_tcp_packet (parsed : ParsedPacket) (raw : bytes) (s : TunStack)
    : option (list bytes * option Session * TunStack) :=
  let src := sock_new (src_ip parsed) (src_port parsed) in
  let dst := sock_new (dst_ip parsed) (dst_port parsed) in
  let key := (src, dst) in
  let tcp_offset := payload_offset parsed in
  if (length raw <? tcp_offset + 14)%nat then Some ([], None, s) else
  let flags := tcp_flags tcp_offset raw in
  let syn := has_flag flags 0x02 in
  let ack := has_flag flags 0x10 in
  let fin := has_flag flags 0x01 in
  let rst := has_flag flags 0x04 in
  let client_seq := tcp_seq tcp_offset raw in
  let payload := tcp_payload tcp_offset raw in
  match tcp_connections s !! key ≫= fun i => (i,.) <$> conns s !! i with
  | Some (i, c) =>
      if rst || fin then
        match try_send (to_stream c) [] with
        | SendFull => None
        | r =>
            let c := match r with SendOk ch => set_to ch c | _ => c end in
            let s := remove_conn key (set_conns (<[i := c]> (conns s)) s) in
            Some ([], None, set_active (pred_usize (active_tcp s)) s)
        end
      else if ack && (length payload =? 0)%nat then Some ([], None, s)
      else if negb (length payload =? 0)%nat then
        let new_client_seq := wrap 32 (client_seq + wrap 32 (len payload)) in
        let st := cstate c in
        let st := if client_seq_next st <? new_client_seq
                  then mkConnState new_client_seq (server_seq_next st) else st in
        match try_send (to_stream c) payload with
        | SendFull => None
        | r =>
            let c := match r with SendOk ch => set_to ch c | _ => c end in
            Some (built (build_tcp_packet_ipv4 dst src (server_seq_next st) (client_seq_next st) 0x10 []),
                  None, set_conns (<[i := set_state st c]> (conns s)) s)
        end
      else Some ([], None, s)
  | None =>
      if negb syn then Some ([], None, s)
      else if max_tcp_connections (config s) <=? active_tcp s then Some ([], None, s)
      else
        let st := mkConnState (wrap 32 (client_seq + 1)) 1 in
        let syn_ack := built (build_tcp_packet_ipv4 dst src (server_seq_next st) (client_seq_next st) 0x12 []) in
        let st := mkConnState (client_seq_next st) (wrap 32 (server_seq_next st + 1)) in
        let c := mkConn chan_new chan_new [] 0 false st src dst true true in
        Some (syn_ack, Some (tcp_session s src dst),
              set_table (<[key := length (conns s)]> (tcp_connections s)) (succ_usize (active_tcp s))
                (set_conns (conns s ++ [c]) s))
  end.

(** The writer task takes one chunk; [ok] is the result of its device write. *)
Definition writer_step (ok : bool) (i : nat) (s : TunStack) : option (list bytes * TunStack) :=
  match conns s !! i with
  | Some c =>
      if negb (writer_alive c) then None else
      match queue (from_stream c) with
      | [] => if tx_alive (from_stream c) then None
              else Some ([], set_conns (<[i := mkConn (to_stream c) (mkChan [] false false) (read_buf c)
                     (read_pos c) (read_closed c) (cstate c) (csrc c) (cdst c) false (dispatch_alive c)]>
                     (conns s)) s)
      | data :: rest =>
          let ch := mkChan rest (tx_alive (from_stream c)) true in
          if (length data =? 0)%nat then
            Some ([], set_conns (<[i := mkConn (to_stream c) (mkChan rest (tx_alive (from_stream c)) false)
                     (read_buf c) (read_pos c) (read_closed c) (cstate c) (csrc c) (cdst c) false
                     (dispatch_alive c)]> (conns s)) s)
          else
            let st := cstate c in
            let pkts := built (build_tcp_packet_ipv4 (cdst c) (csrc c) (server_seq_next st)
                                 (client_seq_next st) 0x18 data) in
            let st := if ok && negb (length pkts =? 0)%nat
                      then mkConnState (client_seq_next st) (wrap 32 (server_seq_next st + wrap 32 (len data)))
                      else st in
            Some (pkts, set_conns (<[i := set_state st (set_from ch c)]> (conns s)) s)
      end
  | None => None
  end.

(** The dispatch task ends: the stream is dropped and the table cleaned up. *)
Definition dispatch_end (i : nat) (s : TunStack) : option TunStack :=
  match conns s !! i with
  | Some c =>
      if negb (dispatch_alive c) then None else
      let key := (csrc c, cdst c) in
      let c := mkConn (mkChan (queue (to_stream c)) (tx_alive (to_stream c)) false)
                 (mkChan (queue (from_stream c)) false (rx_alive (from_stream c)))
                 (read_buf c) (read_pos c) (read_closed c) (cstate c) (csrc c) (cdst c)
                 (writer_alive c) false in
      let s := remove_conn key (set_conns (<[i := c]> (conns s)) s) in
      Some (set_active (pred_usize (active_tcp s)) s)
  | None => None
  end.

(** ** UDP

    The datagram is routed and sent through the outbound of that tag; a reply, if
    one comes in time, is injected towards the client.  [active_udp] is raised
    when an outbound was found and lowered at the end. *)

Definition udp_session (s : TunStack) (src dst : SocketAddr) : Session :=
  mkSession (Ip dst) (Some src) (stack_inbound_tag (config s)) Udp false None.
Definition udp_payload (parsed : ParsedPacket) (raw : bytes) : option bytes :=
  let udp_offset := payload_offset parsed in
  if (length raw <? udp_offset + 8)%nat then None else
  match drop (udp_offset + 8) raw with [] => None | payload => Some payload end.

(** Up to the call of the outbound: the outbound's tag, the session and the
    payload it is given. *)
Definition udp_begin (route : Session → string) (outbound_exists : string → bool)
    (parsed : ParsedPacket) (raw : bytes) (s : TunStack)
    : option (string * Session * bytes) * TunStack :=
  let src := sock_new (src_ip parsed) (src_port parsed) in
  let dst := sock_new (dst_ip parsed) (dst_port parsed) in
  match udp_payload parsed raw with
  | None => (None, s)
  | Some payload =>
      let session := udp_session s src dst in
      let outbound_tag := route session in
      if outbound_exists outbound_tag then
        (Some (outbound_tag, session, payload),
         mkStack (config s) (tcp_connections s) (conns s) (active_tcp s) (succ_usize (active_udp s)))
      else (None, s)
  end.
(** [reply] is what the outbound's transport received within five seconds. *)
Definition udp_finish (src dst : SocketAddr) (reply : option (Address * bytes)) (s : TunStack)
    : list bytes * TunStack :=
  (match reply with
   | Some (addr, data) =>
       let reply_src := match addr with Ip a => a | Domain _ _ => dst end in
       built (build_udp_reply_packet reply_src src data)
   | None => []
   end,
   mkStack (config s) (tcp_connections s) (conns s) (active_tcp s) (pred_usize (active_udp s))).

(** ** The packet loop *)

Definition is_loopback (ip : IpAddr) : bool :=
  match ip with V4 a => Z.shiftr a 24 =? 127 | V6 a => a =? 1 end.

Inductive stack_action :=
| Skip
| Respond (response : bytes)
| ToTcp (parsed : ParsedPacket)
| ToUdp (parsed : ParsedPacket).

(** What the loop does with one packet read from the device. *)
Definition stack_classify (resolver : DnsResolver) (cfg : TunStackConfig) (packet_data : bytes)
    : outcome stack_action :=
  if (length packet_data =? 0)%nat then Found Skip else
  let! r := parse_ip_packet packet_data in
  match r with
  | Err _ => Found Skip
  | Ok parsed =>
      if bool_decide (protocol parsed = IpProtocol.Icmp) && negb (should_process (icmp_policy cfg) parsed)
      then Found Skip
      else if negb (allow_loopback cfg) && (is_loopback (dst_ip parsed) || is_loopback (src_ip parsed))
      then Found Skip
      else if dns_hijack_enabled cfg && is_dns_query parsed then
        match handle_dns_hijack resolver parsed packet_data with
        | Found response => Found (Respond response)
        | Nothing => Found Skip
        | Panic => Panic
        | Outcome.OutOfFuel => Outcome.OutOfFuel
        end
      else
        match protocol parsed with
        | IpProtocol.Tcp => Found (ToTcp parsed)
        | IpProtocol.Udp => Found (ToUdp parsed)
        | _ => Found Skip
        end
  end.

(** ** The packet loop *)

Lemma stack_classify_total resolver cfg raw : safe (stack_classify resolver cfg raw).
Proof.
  unfold stack_classify. destruct (_ =? 0)%nat; [done|].
  apply safe_bind; [apply parse_ip_packet_total|]. intros [p|e] _; [|done].
  repeat (match goal with |- safe (if ?b then _ else _) => destruct b end; [done || idtac|]).
  - pose proof (handle_dns_hijack_safe resolver p raw) as [H1 H2]. by destruct (handle_dns_hijack _ _ _).
  - by destruct (protocol p).
Qed.

(** The packet loop keeps its promises: no packet makes it panic; when
    loopback traffic is not allowed nothing with a loopback source or destination
    reaches the TCP or UDP handler or is answered; while DNS hijacking is on no
    UDP packet to port 53 reaches an outbound; and a dropped ICMP packet reaches
    nothing. *)
Theorem stack_loop_policy resolver cfg raw :
  safe (stack_classify resolver cfg raw)
  ∧ ∀ a, stack_classify resolver cfg raw = Found a → a ≠ Skip →
    ∃ p, parse_ip_packet raw = Found (Ok p)
    ∧ (allow_loopback cfg = false → is_loopback (dst_ip p) = false ∧ is_loopback (src_ip p) = false)
    ∧ match a with
      | Skip => False
      | Respond r => dns_hijack_enabled cfg = true ∧ is_dns_query p = true
                     ∧ handle_dns_hijack resolver p raw = Found r
      | ToTcp p' => p' = p ∧ protocol p = IpProtocol.Tcp
      | ToUdp p' => p' = p ∧ protocol p = IpProtocol.Udp
                    ∧ (dns_hijack_enabled cfg = true → dst_port p ≠ 53)
      end.
Proof.
  split; [apply stack_classify_total|]. intros a Ha Hskip. unfold stack_classify in Ha.
  destruct (_ =? 0)%nat; [by inv Ha|].
  destruct (parse_ip_packet raw) as [[p|e]| | |]; try done; [|by inv Ha]. cbn [bind_outcome] in Ha.
  exists p. split; [done|]. destruct (_ && negb (should_process _ _)); [by inv Ha|].
  destruct (negb (allow_loopback cfg) && _) eqn:Hl; [by inv Ha|]. split.
  { intros Hal. rewrite Hal in Hl. simpl in Hl. by apply orb_false_iff in Hl. }
  destruct (dns_hijack_enabled cfg && is_dns_query p) eqn:Hd.
  - apply andb_true_iff in Hd as [Hd1 Hd2]. destruct (handle_dns_hijack resolver p raw) eqn:Eh; inv Ha; done.
  - destruct (protocol p) eqn:Ep; inv Ha; try done. split_and!; [done..|]. intros Hdns Hp53.
    rewrite Hdns in Hd. unfold is_dns_query in Hd. rewrite Ep, Hp53 in Hd. done.
Qed.

(** ** Reading a stream *)

(** The bytes a stream has received and not yet returned: the rest of its
    buffer, then the chunks up to the end marker. *)
Fixpoint chunks_before_eof (q : list bytes) : bytes :=
  match q with
  | [] => []
  | [] :: _ => []
  | d :: q => d ++ chunks_before_eof q
  end.
Definition undelivered (c : Conn) : bytes :=
  drop (read_pos c) (read_buf c)
  ++ (if read_closed c then [] else chunks_before_eof (queue (to_stream c))).

(** The buffer position never passes the buffer, and a spent buffer is empty. *)
Definition stream_ok (c : Conn) : Prop :=
  (read_pos c < length (read_buf c))%nat ∨ read_buf c = [] ∧ read_pos c = 0%nat.

(** A stream is a byte queue: reading with room for [n] bytes returns the
    next at most [n] undelivered bytes and leaves the others, in order; with room
    it returns none only at the end of the stream or while nothing has arrived;
    and the invariant of the read buffer is kept. *)
Theorem poll_read_delivers n c :
  stream_ok c →
  stream_ok (poll_read n c).2
  ∧ match (poll_read n c).1 with
    | Ready d => (length d ≤ n)%nat ∧ undelivered c = d ++ undelivered (poll_read n c).2
                 ∧ (d = [] → n = 0%nat ∨ undelivered c = [] ∧ read_closed (poll_read n c).2 = true)
    | Pending => undelivered c = [] ∧ (poll_read n c).2 = c ∧ tx_alive (to_stream c) = true
    end.
Proof.
  intros Hok. unfold poll_read, undelivered.
  destruct (Nat.ltb_spec (read_pos c) (length (read_buf c))) as [Hlt|Hge].
  - set (rem := drop (read_pos c) (read_buf c)).
    assert (Hrem : length rem = (length (read_buf c) - read_pos c)%nat) by apply length_drop.
    cbn [fst snd]. split; [|split_and!].
    + destruct (Nat.leb_spec (length (read_buf c)) (read_pos c + length rem `min` n));
        [by right | left; simpl; lia].
    + rewrite length_take. lia.
    + destruct (Nat.leb_spec (length (read_buf c)) (read_pos c + length rem `min` n)); simpl.
      * by rewrite take_ge by lia.
      * rewrite app_assoc. f_equal. rewrite <- drop_drop. fold rem. by rewrite take_drop.
    + intros Hd%(f_equal length). rewrite length_take in Hd. simpl in Hd. left. lia.
  - destruct Hok as [?|[Hb Hp]]; [lia|]. rewrite Hb, Hp. cbn [drop app].
    destruct (read_closed c) eqn:Hcl; [simpl; rewrite ?Hb, ?Hp, ?Hcl; split; [by right|auto with lia]|].
    destruct (queue (to_stream c)) as [|data rest] eqn:Hq.
    + destruct (tx_alive (to_stream c)) eqn:Htx; simpl.
      * split; [by right|done].
      * rewrite ?Hb, ?Hp. split; [by right|]. auto with lia.
    + destruct data as [|b data]; [simpl; rewrite ?Hb, ?Hp; split; [by right|auto with lia]|].
      cbn [length Nat.eqb]. set (d := b :: data). change (S (length data)) with (length d).
      destruct (Nat.ltb_spec (length d `min` n) (length d)) as [Hpart|Hall]; cbn [fst snd].
      * split; [left; simpl in *; lia|]. simpl. fold d. split_and!.
        -- change (length (take (length d `min` n) d) ≤ n)%nat. rewrite length_take. lia.
        -- by rewrite app_assoc, take_drop.
        -- intros Hd%(f_equal length). rewrite length_take in Hd. left. destruct n; [done|simpl in Hd; lia].
      * assert (Hn : (length d ≤ n)%nat) by lia. rewrite take_ge by lia. cbn. rewrite ?Hb, ?Hp, ?Hcl.
        split; [by right|]. split_and!; [exact Hn|done|done].
Qed.

(** ** Segments *)

(** A parsed packet with this segment in it. *)
Record segment (p : ParsedPacket) (raw : bytes) (src dst : SocketAddr) (flags seq : Z) (payload : bytes) : Prop := {
  seg_src : sock_new (src_ip p) (src_port p) = src;
  seg_dst : sock_new (dst_ip p) (dst_port p) = dst;
  seg_len : (payload_offset p + 14 ≤ length raw)%nat;
  seg_flags : tcp_flags (payload_offset p) raw = flags;
  seg_seq : tcp_seq (payload_offset p) raw = seq;
  seg_payload : tcp_payload (payload_offset p) raw = payload;
}.

(** The packets a client's own stack writes are such packets. *)
Lemma tcp_segment_packet tos total id fo ttl ck s d options sport dport seq ack flags tck payload :
  u16_ok total → u32_ok s → u32_ok d → (length options ≤ 40)%nat → (length options mod 4 = 0)%nat →
  u16_ok sport → u16_ok dport → u32_ok seq → u8_ok flags →
  let raw := ipv4_header tos total id fo ttl 6 ck s d options
             ++ tcp_segment sport dport seq ack flags tck payload in
  ∃ p, parse_ip_packet raw = Found (Ok p) ∧ protocol p = IpProtocol.Tcp
     ∧ segment p raw (SockV4 s sport) (SockV4 d dport) flags seq payload.
Proof.
  intros Ht Hs Hd Ho Hm Hsp Hdp Hseq Hfl raw. eexists. split_and!.
  - unfold raw. rewrite parse_ipv4_header by first [assumption | unfold in_width; lia].
    unfold tcp_segment. rewrite transport_ports by first [assumption | reflexivity | by rewrite length_ipv4_header].
    reflexivity.
  - done.
  - set (h := ipv4_header _ _ _ _ _ _ _ _ _ _) in raw. set (m := tcp_segment _ _ _ _ _ _ _) in raw.
    assert (Hh : (20 + length options)%nat = length h) by (symmetry; apply length_ipv4_header).
    assert (Hraw : length raw = (length h + (20 + length payload))%nat)
      by (unfold raw; rewrite length_app; done).
    constructor; cbn [src_ip dst_ip src_port dst_port payload_offset fst snd]; rewrite ?Hh; try done; [lia|..].
    + unfold tcp_flags, raw. rewrite byte_at_app_r. change (byte_at m 13) with (byte_of_Z flags).
      by apply byte_to_of_small.
    + unfold tcp_seq, raw. rewrite !byte_at_app_r. by apply from_to_be_4.
    + unfold tcp_payload, raw. rewrite byte_at_app_r. change (byte_at m 12) with (byte_of_Z 0x50).
      change (Z.to_nat (Z.shiftr (byte_to_Z (byte_of_Z 80)) 4) * 4)%nat with 20%nat. fold raw.
      assert (Hdrop : drop (length h + 20) raw = payload).
      { unfold raw. rewrite <- drop_drop, drop_app_length. done. }
      rewrite Hdrop. destruct (Nat.ltb_spec (length h + 20) (length raw)); [done|].
      assert (length payload = 0%nat) as Hz by lia. by destruct payload.
Qed.

(** The answer to a segment of an established connection. *)
Definition ack_packet (c : Conn) (st : TcpConnState) : list bytes :=
  built (build_tcp_packet_ipv4 (cdst c) (csrc c) (server_seq_next st) (client_seq_next st) 0x10 []).

(** A connection of the table. *)
Definition established (s : TunStack) (i : nat) (c : Conn) : Prop :=
  tcp_connections s !! (csrc c, cdst c) = Some i ∧ conns s !! i = Some c.

Lemma handle_data p raw s i c flags seq payload :
  established s i c → segment p raw (csrc c) (cdst c) flags seq payload →
  has_flag flags 0x01 = false → has_flag flags 0x04 = false → payload ≠ [] →
  rx_alive (to_stream c) = true → (length (queue (to_stream c)) < chan_capacity)%nat →
  let next := wrap 32 (seq + wrap 32 (len payload)) in
  let st := if client_seq_next (cstate c) <? next then mkConnState next (server_seq_next (cstate c)) else cstate c in
  let c' := set_state st (set_to (mkChan (queue (to_stream c) ++ [payload]) (tx_alive (to_stream c)) true) c) in
  handle_tcp_packet p raw s = Some (ack_packet c st, None, set_conns (<[i := c']> (conns s)) s).
Proof.
  intros [Ht Hc] [Es Ed Hl Hf Hq Hp] Hfin Hrst Hne Hrx Hcap next st c'. unfold handle_tcp_packet.
  rewrite Es, Ed. destruct (Nat.ltb_spec (length raw) (payload_offset p + 14)); [lia|].
  rewrite Hf, Hq, Hp, Ht. cbn [mbind option_bind]. rewrite Hc. cbn [fmap option_fmap option_map].
  rewrite Hfin, Hrst. cbn [orb].
  assert (Hlen : (length payload =? 0)%nat = false) by (by destruct payload).
  rewrite Hlen, andb_false_r. cbn [negb]. unfold try_send. rewrite Hrx. cbn [negb].
  destruct (Nat.leb_spec chan_capacity (length (queue (to_stream c)))); [lia|]. done.
Qed.

Lemma established_update s i c c' :
  established s i c → csrc c' = csrc c → cdst c' = cdst c →
  established (set_conns (<[i := c']> (conns s)) s) i c'.
Proof.
  intros [Ht Hc] Es Ed. split; simpl.
  - by rewrite Es, Ed.
  - apply list_lookup_insert_eq. by apply lookup_lt_Some in Hc.
Qed.

(** A retransmitted segment is delivered twice: when a client repeats a data
    segment it has sent (because its acknowledgement was late or lost), the
    stream receives the payload again. *)
Theorem retransmission_duplicates p raw s i c flags seq payload :
  established s i c → segment p raw (csrc c) (cdst c) flags seq payload →
  has_flag flags 0x01 = false → has_flag flags 0x04 = false → payload ≠ [] →
  rx_alive (to_stream c) = true → (S (length (queue (to_stream c))) < chan_capacity)%nat →
  ∃ out1 s1 out2 s2 c2,
    handle_tcp_packet p raw s = Some (out1, None, s1)
    ∧ handle_tcp_packet p raw s1 = Some (out2, None, s2)
    ∧ conns s2 !! i = Some c2 ∧ queue (to_stream c2) = queue (to_stream c) ++ [payload; payload].
Proof.
  intros He Hseg Hfin Hrst Hne Hrx Hcap.
  pose proof (handle_data p raw s i c flags seq payload He Hseg Hfin Hrst Hne Hrx ltac:(lia)) as H1.
  cbv zeta in H1. set (c1 := set_state _ (set_to _ c)) in H1.
  pose proof (established_update s i c c1 He eq_refl eq_refl) as He1. set (s1 := set_conns _ s) in H1, He1.
  pose proof (handle_data p raw s1 i c1 flags seq payload He1 Hseg Hfin Hrst Hne eq_refl
    ltac:(simpl; rewrite length_app; simpl; lia)) as H2.
  cbv zeta in H2. set (c2 := set_state _ (set_to _ c1)) in H2.
  pose proof (established_update s1 i c1 c2 He1 eq_refl eq_refl) as [_ Hc2].
  do 4 eexists. exists c2. split; [exact H1|]. split; [exact H2|]. split; [exact Hc2|].
  simpl. by rewrite <- app_assoc.
Qed.

(** Data segments in order from the sequence number [a]. *)
Fixpoint in_order (src dst : SocketAddr) (a : Z) (l : list (ParsedPacket * bytes * bytes)) : Prop :=
  match l with
  | [] => True
  | (p, raw, d) :: l =>
      (∃ flags, segment p raw src dst flags a d ∧ has_flag flags 0x01 = false ∧ has_flag flags 0x04 = false)
      ∧ d ≠ [] ∧ in_order src dst (a + len d) l
  end.
(** What the builder makes of the acknowledgements of such segments. *)
Fixpoint acks (c : Conn) (a : Z) (l : list (ParsedPacket * bytes * bytes)) : list bytes :=
  match l with
  | [] => []
  | (_, _, d) :: l =>
      built (build_tcp_packet_ipv4 (cdst c) (csrc c) (server_seq_next (cstate c)) (a + len d) 0x10 [])
      ++ acks c (a + len d) l
  end.
Lemma acks_same c c' a l :
  csrc c = csrc c' → cdst c = cdst c' → server_seq_next (cstate c) = server_seq_next (cstate c') →
  acks c a l = acks c' a l.
Proof.
  intros H1 H2 H3. revert a. induction l as [|[[p raw] d] l IH]; intros a; [done|]. cbn [acks].
  by rewrite H1, H2, H3, IH.
Qed.
Fixpoint handle_all (l : list (ParsedPacket * bytes * bytes)) (s : TunStack) : option (list bytes * TunStack) :=
  match l with
  | [] => Some ([], s)
  | (p, raw, _) :: l =>
      match handle_tcp_packet p raw s with
      | Some (out, _, s) => (fun '(o, s) => (out ++ o, s)) <$> handle_all l s
      | None => None
      end
  end.
Definition payloads (l : list (ParsedPacket * bytes * bytes)) : list bytes := map snd l.

Lemma in_order_handled l s i c a :
  established s i c → rx_alive (to_stream c) = true → client_seq_next (cstate c) = a →
  in_order (csrc c) (cdst c) a l →
  0 <= a → a + len (concat (payloads l)) < 2 ^ 32 →
  (length (queue (to_stream c)) + length l ≤ chan_capacity)%nat →
  ∃ s' c', handle_all l s = Some (acks c a l, s') ∧ established s' i c'
    ∧ queue (to_stream c') = queue (to_stream c) ++ payloads l
    ∧ client_seq_next (cstate c') = a + len (concat (payloads l))
    ∧ server_seq_next (cstate c') = server_seq_next (cstate c).
Proof.
  revert s c a. induction l as [|[[p raw] d] l IH]; intros s c a He Hrx Ha Hin H0 Hmax Hcap.
  { exists s, c. cbn. rewrite app_nil_r. split_and!; try done. unfold len. simpl. lia. }
  destruct Hin as ((flags & Hseg & Hfin & Hrst) & Hne & Hin).
  cbn [payloads map snd concat] in Hmax. fold (payloads l) in Hmax.
  assert (Hlen : len (d ++ concat (payloads l)) = len d + len (concat (payloads l)))
    by (unfold len; rewrite length_app; lia).
  rewrite Hlen in Hmax. pose proof (len_nonneg (concat (payloads l))).
  assert (Hd : 0 < len d) by (unfold len; destruct d; [done|simpl; lia]).
  cbn [length] in Hcap.
  pose proof (handle_data p raw s i c flags a d He Hseg Hfin Hrst Hne Hrx ltac:(lia)) as H1.
  cbv zeta in H1. rewrite !(wrap_small 32) in H1 by (unfold in_width; rewrite ?wrap_small; unfold in_width; lia).
  rewrite Ha in H1. destruct (Z.ltb_spec a (a + len d)) as [_|]; [|lia].
  set (c1 := set_state _ (set_to _ c)) in H1. set (s1 := set_conns _ s) in H1.
  destruct (IH s1 c1 (a + len d)) as (s' & c' & E & He' & Hq & Hs & Hss); try done; try lia.
  { by apply established_update with c. }
  { simpl. rewrite length_app. simpl. lia. }
  exists s', c'. cbn [handle_all]. rewrite H1, E. cbn [fmap option_fmap option_map].
  cbn [payloads map snd concat]. fold (payloads l). rewrite Hlen.
  rewrite (acks_same c1 c) in * by done.
  split_and!; [done|apply He'..|rewrite Hq; simpl; by rewrite <- app_assoc|lia|done].
Qed.

(** A well-formed IPv4 packet with the bare acknowledgement of [n] from [src] to
    [dst]: it parses as TCP between these sockets, its segment has the ACK flag and
    no data, and both checksums verify. *)
Definition acknowledges (src dst : SocketAddr) (seq n : Z) (q : bytes) : Prop :=
  match sock_ip src, sock_ip dst with
  | V4 s, V4 d =>
      ∃ ck, parse_ip_packet q = Found (Ok (mkParsed 4 IpProtocol.Tcp (V4 s) (V4 d) (sock_port src) (sock_port dst) 20 (length q)))
        ∧ drop 20 q = tcp_segment (sock_port src) (sock_port dst) seq n 0x10 ck []
        ∧ inet_sum (take 20 q) = Some 0
        ∧ inet_sum (tcp_pseudo s d (len (drop 20 q)) ++ drop 20 q) = Some 0
  | _, _ => False
  end.
Definition is_v4 (a : SocketAddr) : bool := match sock_ip a with V4 _ => true | V6 _ => false end.
(** The numbers up to which segments of these lengths are to be acknowledged. *)
Fixpoint ends (a : Z) (ds : list bytes) : list Z :=
  match ds with [] => [] | d :: ds => a + len d :: ends (a + len d) ds end.

Lemma ack_built src dst seq n :
  sock_ok src → sock_ok dst → u32_ok seq → u32_ok n →
  if is_v4 src && is_v4 dst
  then ∃ q, built (build_tcp_packet_ipv4 src dst seq n 0x10 []) = [q] ∧ acknowledges src dst seq n q
  else built (build_tcp_packet_ipv4 src dst seq n 0x10 []) = [].
Proof.
  intros Hs Hd Hq Hn. pose proof (injected_packets_correct src dst seq n 0x10 [] Hs Hd Hq Hn ltac:(done)) as Hi.
  unfold is_v4, acknowledges.
  destruct (sock_ip src), (sock_ip dst); cbn [andb]; try (destruct Hi as [-> _]; done).
  destruct Hi as [(q&ck&->&Hp&Ht&H1&H2) _]. exists q. split; [done|]. by exists ck.
Qed.
Lemma acks_sound c a l :
  sock_ok (csrc c) → sock_ok (cdst c) → u32_ok (server_seq_next (cstate c)) →
  0 <= a → a + len (concat (payloads l)) < 2 ^ 32 →
  if is_v4 (cdst c) && is_v4 (csrc c)
  then Forall2 (acknowledges (cdst c) (csrc c) (server_seq_next (cstate c))) (ends a (payloads l)) (acks c a l)
  else acks c a l = [].
Proof.
  intros Hs Hd Hq. revert a. induction l as [|[[p raw] d] l IH]; intros a Ha Hmax; cbn [payloads map snd ends acks concat] in *.
  { by destruct (_ && _). }
  fold (payloads l) in *. assert (Hl : len (d ++ concat (payloads l)) = len d + len (concat (payloads l)))
    by (unfold len; rewrite length_app; lia).
  rewrite Hl in Hmax. pose proof (len_nonneg d). pose proof (len_nonneg (concat (payloads l))).
  specialize (IH (a + len d) ltac:(lia) ltac:(lia)).
  pose proof (ack_built (cdst c) (csrc c) (server_seq_next (cstate c)) (a + len d) Hd Hs Hq ltac:(unfold in_width; lia)) as Hb.
  destruct (is_v4 (cdst c) && is_v4 (csrc c)); [|by rewrite Hb, IH].
  destruct Hb as (q&->&Hb). cbn [app]. by constructor.
Qed.

(** C32: data segments that arrive in order are delivered and, over IPv4,
    acknowledged: for segments with data and without FIN and RST, while the channel
    has room and the sequence numbers do not wrap around 2^32, the payloads reach
    the stream in order and the connection expects the byte after the last one.
    Over IPv4 each segment is answered by exactly one packet, a well-formed bare
    acknowledgement of everything up to its end with checksums that verify; over
    IPv6 nothing is sent. *)
Theorem in_order_delivered l s i c a :
  established s i c → rx_alive (to_stream c) = true → client_seq_next (cstate c) = a →
  sock_ok (csrc c) → sock_ok (cdst c) → u32_ok (server_seq_next (cstate c)) →
  in_order (csrc c) (cdst c) a l →
  0 <= a → a + len (concat (payloads l)) < 2 ^ 32 →
  (length (queue (to_stream c)) + length l ≤ chan_capacity)%nat →
  ∃ out s' c', handle_all l s = Some (out, s') ∧ established s' i c'
    ∧ queue (to_stream c') = queue (to_stream c) ++ payloads l
    ∧ client_seq_next (cstate c') = a + len (concat (payloads l))
    ∧ server_seq_next (cstate c') = server_seq_next (cstate c)
    ∧ if is_v4 (cdst c) && is_v4 (csrc c)
      then Forall2 (acknowledges (cdst c) (csrc c) (server_seq_next (cstate c))) (ends a (payloads l)) out
      else out = [].
Proof.
  intros He Hrx Ha Hs Hd Hq Hin H0 Hmax Hcap.
  destruct (in_order_handled l s i c a He Hrx Ha Hin H0 Hmax Hcap) as (s'&c'&H1&H2&H3&H4&H5).
  exists (acks c a l), s', c'. pose proof (acks_sound c a l Hs Hd Hq H0 Hmax). by split_and!.
Qed.

(** ** The connection count *)

Lemma handle_new p raw s src dst flags seq payload :
  segment p raw src dst flags seq payload → tcp_connections s !! (src, dst) = None →
  has_flag flags 0x02 = true → active_tcp s < max_tcp_connections (config s) →
  ∃ out, handle_tcp_packet p raw s
    = Some (out, Some (tcp_session s src dst),
        set_table (<[(src, dst) := length (conns s)]> (tcp_connections s)) (succ_usize (active_tcp s))
          (set_conns (conns s ++ [mkConn chan_new chan_new [] 0 false
             (mkConnState (wrap 32 (seq + 1)) (wrap 32 (1 + 1))) src dst true true]) s)).
Proof.
  intros [Es Ed Hl Hf Hq Hp] Hn Hsyn Hmax. unfold handle_tcp_packet. rewrite Es, Ed.
  destruct (Nat.ltb_spec (length raw) (payload_offset p + 14)); [lia|].
  rewrite Hf, Hq, Hn, Hsyn. cbn [mbind option_bind negb].
  destruct (Z.leb_spec (max_tcp_connections (config s)) (active_tcp s)); [lia|]. eauto.
Qed.

(** At the limit, no new connection is accepted. *)
Lemma handle_full p raw s :
  tcp_connections s = ∅ → max_tcp_connections (config s) <= active_tcp s →
  handle_tcp_packet p raw s = Some ([], None, s).
Proof.
  intros Ht Hmax. unfold handle_tcp_packet. rewrite Ht, lookup_empty. cbn [mbind option_bind].
  destruct (_ <? _)%nat; [done|]. destruct (negb _); [done|].
  destruct (Z.leb_spec (max_tcp_connections (config s)) (active_tcp s)); [done|lia].
Qed.

(** A connection closed by the client is counted out twice: its FIN (or RST)
    lowers the number of active connections, and so does the end of its dispatch.
    After the first connection of a fresh stack is closed that way the counter
    has wrapped to 2^64 - 1, and the stack ignores every segment from then on: it
    accepts no connection any more. *)
Theorem client_close_locks_out cfg src dst ps rs fs qs ds pf rf ff qf df :
  0 < max_tcp_connections cfg < 2 ^ 64 →
  segment ps rs src dst fs qs ds → has_flag fs 0x02 = true →
  segment pf rf src dst ff qf df → (has_flag ff 0x01 = true ∨ has_flag ff 0x04 = true) →
  ∃ out1 sess1 s1 s2 s3,
    handle_tcp_packet ps rs (stack_new cfg) = Some (out1, sess1, s1)
    ∧ handle_tcp_packet pf rf s1 = Some ([], None, s2)
    ∧ dispatch_end 0 s2 = Some s3
    ∧ active_tcp s3 = 2 ^ 64 - 1
    ∧ ∀ p raw, handle_tcp_packet p raw s3 = Some ([], None, s3).
Proof.
  intros Hmax Hss Hsyn Hsf Hfin.
  destruct (handle_new ps rs (stack_new cfg) src dst fs qs ds Hss) as (out & H1);
    [apply lookup_empty | done | simpl; lia |].
  set (c := mkConn chan_new _ _ _ _ _ _ _ _ _) in H1. set (s1 := set_table _ _ _) in H1.
  exists out, (Some (tcp_session (stack_new cfg) src dst)), s1.
  set (c1 := set_to (mkChan [[]] false true) c).
  set (s2 := mkStack cfg ∅ [c1] 0 0).
  assert (H2 : handle_tcp_packet pf rf s1 = Some ([], None, s2)).
  { destruct Hsf as [Es Ed Hl Hf Hq Hp]. unfold handle_tcp_packet. rewrite Es, Ed.
    destruct (Nat.ltb_spec (length rf) (payload_offset pf + 14)); [lia|].
    rewrite Hf. simpl. rewrite lookup_insert_eq. simpl.
    assert (Hor : has_flag ff 4 || has_flag ff 1 = true) by (apply orb_true_iff; tauto).
    rewrite Hor. unfold remove_conn. simpl. rewrite lookup_insert_eq. simpl.
    unfold set_active, set_table, s2. simpl. rewrite delete_insert_id by apply lookup_empty.
    reflexivity. }
  exists s2, (mkStack cfg ∅ [mkConn (mkChan [[]] false false) (mkChan [] false true) [] 0 false (cstate c) src dst true false]
    (pred_usize 0) 0).
  split_and!; [exact H1|exact H2|reflexivity|reflexivity|].
  intros p raw. apply handle_full; [done|]. change (active_tcp _) with (2 ^ 64 - 1). simpl. lia.
Qed.

(** ** Sending *)

(** [n] turns of the writer whose device writes succeed. *)
Fixpoint writer_run (n : nat) (i : nat) (s : TunStack) : option (list bytes * TunStack) :=
  match n with
  | O => Some ([], s)
  | S n =>
      match writer_step true i s with
      | Some (out, s) => (fun '(o, s) => (out ++ o, s)) <$> writer_run n i s
      | None => None
      end
  end.
(** The segments for the chunks [ds], numbered from [q]. *)
Fixpoint data_segments (c : Conn) (q : Z) (ds : list bytes) : list bytes :=
  match ds with
  | [] => []
  | d :: ds =>
      built (build_tcp_packet_ipv4 (cdst c) (csrc c) q (client_seq_next (cstate c)) 0x18 d)
      ++ data_segments c (wrap 32 (q + len d)) ds
  end.
Definition chunk_fits (d : bytes) : Prop := 0 < len d <= 65495.
Definition v4_sock (a : SocketAddr) : Prop :=
  match a with SockV4 ip p => u32_ok ip ∧ u16_ok p | SockV6 _ _ _ _ => False end.

Lemma built_segment src dst q a flags d :
  v4_sock src → v4_sock dst → 40 + len d <= 65535 →
  length (built (build_tcp_packet_ipv4 src dst q a flags d)) = 1%nat.
Proof.
  intros Hs Hd Hl. destruct src as [s sp|], dst as [e ep|]; try done. unfold len in Hl.
  rewrite (build_tcp_packet_steps (SockV4 s sp) (SockV4 e ep) s e q a flags d eq_refl eq_refl ltac:(lia)).
  cbv zeta. destruct (ipv4_header_checksum_inet (wrap 16 (Z.of_nat (40 + length d))) 0 0 64 6 s e) as (c & -> & _).
  rewrite (wrap_small 16 (Z.of_nat (20 + length d))) by (unfold in_width; lia).
  destruct (tcp_checksum_verifies s e (sock_port (SockV4 s sp)) (sock_port (SockV4 e ep)) q a flags d)
    as (c' & -> & _); [lia|]. done.
Qed.

Lemma data_segments_same c c' q ds :
  csrc c = csrc c' → cdst c = cdst c' → client_seq_next (cstate c) = client_seq_next (cstate c') →
  data_segments c q ds = data_segments c' q ds.
Proof.
  intros H1 H2 H3. revert q. induction ds as [|d ds IH]; intros q; [done|]. cbn [data_segments].
  by rewrite H1, H2, H3, IH.
Qed.

(** The writer sends the stream without gaps: for an IPv4 connection whose
    proxy side wrote the chunks [ds], as many successful turns of the writer send
    one segment per chunk, each numbered where the one before it ended modulo
    2^32, and leave the connection numbered behind the last. *)
Theorem writer_sends_contiguously ds rest s i c q :
  conns s !! i = Some c → writer_alive c = true → v4_sock (csrc c) → v4_sock (cdst c) →
  queue (from_stream c) = ds ++ rest → Forall chunk_fits ds →
  server_seq_next (cstate c) = q → u32_ok q →
  ∃ s' c', writer_run (length ds) i s = Some (data_segments c q ds, s')
    ∧ length (data_segments c q ds) = length ds
    ∧ conns s' !! i = Some c' ∧ queue (from_stream c') = rest
    ∧ server_seq_next (cstate c') = wrap 32 (q + len (concat ds)).
Proof.
  revert s c q. induction ds as [|d ds IH]; intros s c q Hc Hw Hs Hd Hq Hf Hseq Hu.
  { exists s, c. cbn. unfold len. simpl. rewrite Z.add_0_r, wrap_small by done. done. }
  apply Forall_cons in Hf as [Hfd Hf]. unfold chunk_fits in Hfd.
  assert (Hlen : (length d =? 0)%nat = false) by (destruct d; [unfold len in *; simpl in *; lia|done]).
  pose proof (built_segment (cdst c) (csrc c) (server_seq_next (cstate c)) (client_seq_next (cstate c)) 0x18 d
    Hd Hs ltac:(lia)) as Hb.
  assert (Hn : (length (built (build_tcp_packet_ipv4 (cdst c) (csrc c) (server_seq_next (cstate c))
    (client_seq_next (cstate c)) 0x18 d)) =? 0)%nat = false) by (by rewrite Hb).
  set (c1 := set_state (mkConnState (client_seq_next (cstate c)) (wrap 32 (server_seq_next (cstate c) + len d)))
               (set_from (mkChan (ds ++ rest) (tx_alive (from_stream c)) true) c)).
  assert (H1 : writer_step true i s
    = Some (built (build_tcp_packet_ipv4 (cdst c) (csrc c) (server_seq_next (cstate c))
                     (client_seq_next (cstate c)) 0x18 d), set_conns (<[i := c1]> (conns s)) s)).
  { unfold writer_step. rewrite Hc, Hw, Hq. cbn [negb app]. rewrite Hlen, Hn. cbn [andb negb].
    by rewrite (wrap_small 32 (len d)) by (unfold in_width; lia). }
  assert (Hc1 : conns (set_conns (<[i := c1]> (conns s)) s) !! i = Some c1)
    by (apply list_lookup_insert_eq; by apply lookup_lt_Some in Hc).
  destruct (IH _ c1 (wrap 32 (q + len d)) Hc1) as (s' & c' & E & El & Hc' & Hq' & Hs'); try done.
  { simpl. by rewrite <- Hseq. } { apply wrap_range. lia. }
  exists s', c'. cbn [length writer_run data_segments concat]. rewrite H1, E, Hseq in *.
  cbn [fmap option_fmap option_map]. rewrite (data_segments_same c1 c) in * by done.
  split_and!; [done|rewrite length_app, El, Hb; lia|done|done|].
  rewrite Hs', wrap_add_l by lia. f_equal. unfold len. rewrite length_app. lia.
Qed.

(** A concrete exchange: one client, one server, one connection. *)
Module Sample.
Definition cli : SocketAddr := SockV4 0x0A000002 50000.
Definition srv : SocketAddr := SockV4 0x08080808 443.
Definition pkt (seq flags : Z) (d : bytes) : bytes :=
  ipv4_header 0 40 0 0 64 6 0 0x0A000002 0x08080808 [] ++ tcp_segment 50000 443 seq 0 flags 0 d.
Definition parsed : ParsedPacket := mkParsed 4 IpProtocol.Tcp (V4 0x0A000002) (V4 0x08080808) 50000 443 20 40.
Definition run1 (p : bytes) (s : TunStack) : TunStack :=
  match handle_tcp_packet parsed p s with Some (_, _, s) => s | None => s end.
Definition open : TunStack := run1 (pkt 99 2 []) (stack_new stack_config_default).
Definition conn : Conn := mkConn chan_new chan_new [] 0 false (mkConnState 100 2) cli srv true true.
Lemma open_established : established open 0 conn.
Proof. split; vm_compute; reflexivity. Qed.
Lemma seg_ok (seq flags : Z) (d : bytes) :
  u32_ok seq → u8_ok flags → segment parsed (pkt seq flags d) cli srv flags seq d.
Proof.
  intros Hq Hf.
  destruct (tcp_segment_packet 0 40 0 0 64 0 0x0A000002 0x08080808 [] 50000 443 seq 0 flags 0 d)
    as (p & Hp & _ & Hseg); try (unfold in_width; lia); try done; [cbn; lia|].
  fold (pkt seq flags d) in Hp, Hseg.
  unfold pkt in Hp. rewrite parse_ipv4_header in Hp by (try (unfold in_width; lia); try done; cbn; lia).
  unfold tcp_segment in Hp. rewrite transport_ports in Hp by (try done; unfold in_width; lia).
  cbn [bind_outcome] in Hp. injection Hp as <-. exact Hseg.
Qed.
End Sample.

Lemma poll_read_delivers_witness :
  let c := set_to (mkChan [[Byte.x01; Byte.x02; Byte.x03]] true true) Sample.conn in
  (poll_read 2 c).1 = Ready [Byte.x01; Byte.x02] ∧ stream_ok (poll_read 2 c).2.
Proof.
  split; [reflexivity|].
  refine (proj1 (poll_read_delivers 2 (set_to (mkChan [[Byte.x01; Byte.x02; Byte.x03]] true true) Sample.conn) _)).
  by right.
Defined.

Lemma retransmission_duplicates_witness :
  ∃ out1 s1 out2 s2 c2,
    handle_tcp_packet Sample.parsed (Sample.pkt 100 0x18 [Byte.x61]) Sample.open = Some (out1, None, s1)
    ∧ handle_tcp_packet Sample.parsed (Sample.pkt 100 0x18 [Byte.x61]) s1 = Some (out2, None, s2)
    ∧ conns s2 !! 0%nat = Some c2 ∧ queue (to_stream c2) = [] ++ [[Byte.x61]; [Byte.x61]].
Proof.
  apply (retransmission_duplicates Sample.parsed (Sample.pkt 100 0x18 [Byte.x61]) Sample.open 0 Sample.conn
    0x18 100 [Byte.x61] Sample.open_established (Sample.seg_ok 100 0x18 [Byte.x61]
      ltac:(unfold in_width; lia) ltac:(unfold in_width; lia)));
    [reflexivity | reflexivity | discriminate | reflexivity | apply Nat.ltb_lt; reflexivity].
Defined.

Lemma in_order_delivered_witness :
  let l := [(Sample.parsed, Sample.pkt 100 0x18 [Byte.x61; Byte.x62], [Byte.x61; Byte.x62]);
            (Sample.parsed, Sample.pkt 102 0x18 [Byte.x63], [Byte.x63])] in
  ∃ out s' c', handle_all l Sample.open = Some (out, s') ∧ established s' 0 c'
    ∧ queue (to_stream c') = [] ++ payloads l
    ∧ client_seq_next (cstate c') = 103
    ∧ server_seq_next (cstate c') = 2
    ∧ Forall2 (acknowledges Sample.srv Sample.cli 2) [102; 103] out.
Proof.
  intros l.
  apply (in_order_delivered l Sample.open 0 Sample.conn 100 Sample.open_established);
    [reflexivity | reflexivity | vm_compute; intuition congruence | vm_compute; intuition congruence
     | vm_compute; intuition congruence | | lia | vm_compute; reflexivity | apply Nat.leb_le; reflexivity].
  split; [|split; [discriminate|split; [|split; [discriminate|exact I]]]];
    (exists 0x18; split; [apply Sample.seg_ok; split; vm_compute; (discriminate || reflexivity) | done]).
Defined.

Lemma client_close_locks_out_witness :
  ∃ out1 sess1 s1 s2 s3,
    handle_tcp_packet Sample.parsed (Sample.pkt 99 2 []) (stack_new stack_config_default) = Some (out1, sess1, s1)
    ∧ handle_tcp_packet Sample.parsed (Sample.pkt 100 0x11 []) s1 = Some ([], None, s2)
    ∧ dispatch_end 0 s2 = Some s3
    ∧ active_tcp s3 = 2 ^ 64 - 1
    ∧ ∀ p raw, handle_tcp_packet p raw s3 = Some ([], None, s3).
Proof.
  apply (client_close_locks_out stack_config_default Sample.cli Sample.srv
    Sample.parsed (Sample.pkt 99 2 []) 2 99 [] Sample.parsed (Sample.pkt 100 0x11 []) 0x11 100 []).
  - cbn. unfold MAX_TCP_CONNECTIONS. lia.
  - apply Sample.seg_ok; unfold in_width; lia.
  - reflexivity.
  - apply Sample.seg_ok; unfold in_width; lia.
  - left. reflexivity.
Defined.

Lemma writer_sends_contiguously_witness :
  let c := set_from (mkChan [[Byte.x61; Byte.x62]; [Byte.x63]] true true) Sample.conn in
  let s := set_conns [c] Sample.open in
  ∃ s' c', writer_run 2 0 s = Some (data_segments c 2 [[Byte.x61; Byte.x62]; [Byte.x63]], s')
    ∧ length (data_segments c 2 [[Byte.x61; Byte.x62]; [Byte.x63]]) = 2%nat
    ∧ conns s' !! 0%nat = Some c' ∧ queue (from_stream c') = []
    ∧ server_seq_next (cstate c') = 5.
Proof.
  intros c s.
  apply (writer_sends_contiguously [[Byte.x61; Byte.x62]; [Byte.x63]] [] s 0 c 2); try done.
  - constructor; [|constructor; [|constructor]]; unfold chunk_fits, len; cbn [length]; lia.
Defined.
