(* ===== verification/Tun.v ===== *)
(** * The TUN inbound ([src/src/proxy/inbound/tun.rs])

    Sessions are built from raw packets and routed; the loop reads packets from
    the device, backs off on errors and gives up after fifty in a row.  One event
    of the loop is a read or the cancellation; its result is the actions taken and
    whether the loop goes on.  The theorems relate the session builder to the
    packet parser, show what the loop never does, and when it ends. *)

From S2P Require Import Prelude RustStr Addr Outcome Wire Packet Trie Rules Router Hosts DnsReply.

Local Open Scope string_scope.
Local Open Scope list_scope.
Local Open Scope Z_scope.

Record TunInbound := mkTun {
  tun_tag : string;
  tun_name : string;
  tun_icmp_policy : IcmpPolicy;
  tun_dns_hijack : bool;
}.
Definition tun_new (tag name : string) : TunInbound := mkTun tag name Packet.Drop true.

Inductive tun_error :=
| TunEmpty
| TunUnsupportedVersion (v : Z)
| TunIpv4Short
| TunInvalidIpv4
| TunIpv6Short
| TunUnsupportedProtocol (n : Z).

Definition network_of (n : Z) : option NetworkKind :=
  if n =? 6 then Some Tcp else if n =? 17 then Some Udp else None.

Definition session_from_ipv4 (t : TunInbound) (packet : bytes) : outcome (result tun_error Session) :=
  if (length packet <? 20)%nat then Found (Err TunIpv4Short) else
  let! b0 := idx packet 0 in
  let ihl := (Z.to_nat (Z.land (byte_to_Z b0) 0x0f) * 4)%nat in
  if ((ihl <? 20) || (length packet <? ihl + 4))%nat then Found (Err TunInvalidIpv4) else
  let! protocol := idx packet 9 in
  let! src_ip := idx_ipv4 packet 12 in
  let! dst_ip := idx_ipv4 packet 16 in
  let! src_port := idx_be16 packet ihl (ihl + 1) in
  let! dst_port := idx_be16 packet (ihl + 2) (ihl + 3) in
  match network_of (byte_to_Z protocol) with
  | None => Found (Err (TunUnsupportedProtocol (byte_to_Z protocol)))
  | Some network =>
      Found (Ok (mkSession (Ip (sock_new dst_ip dst_port)) (Some (sock_new src_ip src_port))
                   (tun_tag t) network false None))
  end.

Definition session_from_ipv6 (t : TunInbound) (packet : bytes) : outcome (result tun_error Session) :=
  if (length packet <? 44)%nat then Found (Err TunIpv6Short) else
  let! next_header := idx packet 6 in
  let! src_ip := idx_ipv6 packet 8 in
  let! dst_ip := idx_ipv6 packet 24 in
  let l4_offset := 40%nat in
  let! src_port := idx_be16 packet l4_offset (l4_offset + 1) in
  let! dst_port := idx_be16 packet (l4_offset + 2) (l4_offset + 3) in
  match network_of (byte_to_Z next_header) with
  | None => Found (Err (TunUnsupportedProtocol (byte_to_Z next_header)))
  | Some network =>
      Found (Ok (mkSession (Ip (sock_new dst_ip dst_port)) (Some (sock_new src_ip src_port))
                   (tun_tag t) network false None))
  end.

Definition session_from_packet (t : TunInbound) (packet : bytes) : outcome (result tun_error Session) :=
  if (length packet =? 0)%nat then Found (Err TunEmpty) else
  let! b0 := idx packet 0 in
  let v := Z.shiftr (byte_to_Z b0) 4 in
  if v =? 4 then session_from_ipv4 t packet
  else if v =? 6 then session_from_ipv6 t packet
  else Found (Err (TunUnsupportedVersion v)).

(** ** The loop *)

Inductive tun_event :=
| ReadOk (packet : bytes)
| ReadErr
| Cancelled.
(** [LogRoute]: the session and the outbound the router decides on are written to the
    log; nothing is sent there. *)
Inductive tun_action :=
| Sleep (ms : Z)
| WritePacket (p : bytes)
| LogRoute (session : Session) (outbound : string).
Inductive tun_next :=
| Continue (consecutive_errors : Z)
| Stop.

Definition MAX_CONSECUTIVE_ERRORS : Z := 50.
(** [1u64 << consecutive_errors.min(7)] *)
Definition delay_ms (consecutive_errors : Z) : Z := wrap 64 (Z.shiftl 1 (Z.min consecutive_errors 7)).

Section tun.
Context {IpNet Regex : Type} `{!IpNetOps IpNet} `{!IpNetDisplay IpNet} `{!RegexOps Regex}.
Context (env : Env IpNet) (router : Router.Router (IpNet := IpNet) (Regex := Regex)) (resolver : DnsResolver).

Record TunRouteDecision := mkDecision {
  dec_session : Session;
  dec_outbound_tag : string;
  dec_route_tag : string;
}.
Definition route_packet (t : TunInbound) (packet : bytes) : outcome (result tun_error TunRouteDecision) :=
  let! r := session_from_packet t packet in
  match r with
  | Err e => Found (Err e)
  | Ok session =>
      let '(outbound_tag, matched_rule) := route_with_rule env router session in
      Found (Ok (mkDecision session outbound_tag (default "MATCH" matched_rule)))
  end.

(** A packet that was read. *)
Definition tun_packet (t : TunInbound) (packet : bytes) : outcome (list tun_action) :=
  if (length packet =? 0)%nat then Found [] else
  let! r := parse_ip_packet packet in
  match r with
  | Err _ => Found []
  | Ok parsed =>
      if negb (should_process (tun_icmp_policy t) parsed) then Found [] else
      if tun_dns_hijack t && is_dns_query parsed then
        match handle_dns_hijack resolver parsed packet with
        | Found response => Found [WritePacket response]
        | Nothing => Found []
        | Panic => Panic
        | Outcome.OutOfFuel => Outcome.OutOfFuel
        end
      else
        match protocol parsed with
        | IpProtocol.Tcp | IpProtocol.Udp =>
            let! s := session_from_packet t packet in
            match s with
            | Err _ => Found []
            | Ok session => Found [LogRoute session (route_with_rule env router session).1]
            end
        | IpProtocol.Icmp =>
            match tun_icmp_policy t with
            | Passthrough => Found [WritePacket packet]
            | Packet.Drop => Found []
            end
        | IpProtocol.Other _ => Found []
        end
  end.

Definition tun_step (t : TunInbound) (errs : Z) (e : tun_event) : outcome (list tun_action * tun_next) :=
  match e with
  | Cancelled => Found ([], Stop)
  | ReadErr =>
      let errs := wrap 32 (errs + 1) in
      if MAX_CONSECUTIVE_ERRORS <=? errs then Found ([], Stop)
      else Found ([Sleep (delay_ms errs)], Continue errs)
  | ReadOk packet =>
      let! actions := tun_packet t packet in Found (actions, Continue 0)
  end.

(** The loop over the events, with what it did and the events it did not read. *)
Fixpoint tun_run (t : TunInbound) (errs : Z) (es : list tun_event)
    : outcome (list tun_action * option (list tun_event)) :=
  match es with
  | [] => Found ([], None)
  | e :: es =>
      let! r := tun_step t errs e in
      match r with
      | (actions, Stop) => Found (actions, Some es)
      | (actions, Continue errs) =>
          let! rest := tun_run t errs es in Found (actions ++ rest.1, rest.2)
      end
  end.

(** ** Sessions *)

Lemma network_of_protocol n net :
  network_of n = Some net ↔
  IpProtocol.from_number n = match net with Tcp => IpProtocol.Tcp | Udp => IpProtocol.Udp end.
Proof.
  unfold network_of, IpProtocol.from_number.
  destruct (Z.eqb_spec n 6); [subst; destruct net; simpl; split; congruence|].
  destruct (Z.eqb_spec n 17); [subst; destruct net; simpl; split; congruence|].
  destruct ((n =? 1) || (n =? 58)); destruct net; split; congruence.
Qed.

(** The session of a parsed packet. *)
Definition session_of (t : TunInbound) (p : ParsedPacket) (net : NetworkKind) : Session :=
  mkSession (Ip (sock_new (dst_ip p) (dst_port p))) (Some (sock_new (src_ip p) (src_port p)))
    (tun_tag t) net false None.
Definition protocol_of (net : NetworkKind) : IpProtocol.proto :=
  match net with Tcp => IpProtocol.Tcp | Udp => IpProtocol.Udp end.

Definition agrees (t : TunInbound) (data : bytes) (sess : outcome (result tun_error Session))
    (parsed : outcome (result packet_error ParsedPacket)) : Prop :=
  ∀ s, sess = Found (Ok s) ↔
    ∃ p net, parsed = Found (Ok p) ∧ protocol p = protocol_of net
             ∧ (payload_offset p + 4 ≤ length data)%nat ∧ s = session_of t p net.

(** The common end of the two versions, behind the length tests. *)
Lemma agrees_tail t data v off n src dst total :
  (off + 4 ≤ length data)%nat →
  agrees t data
    (let! src_port := idx_be16 data off (off + 1) in
     let! dst_port := idx_be16 data (off + 2) (off + 3) in
     match network_of n with
     | None => Found (Err (TunUnsupportedProtocol n))
     | Some network =>
         Found (Ok (mkSession (Ip (sock_new dst dst_port)) (Some (sock_new src src_port)) (tun_tag t) network false None))
     end)
    (let! ports := parse_ports data (IpProtocol.from_number n) off in
     Found (Ok (mkParsed v (IpProtocol.from_number n) src dst ports.1 ports.2 off total))).
Proof.
  intros Hlen s. rewrite !idx_be16_found by lia. cbn [bind_outcome].
  destruct (network_of n) as [net|] eqn:En.
  - apply network_of_protocol in En. rewrite parse_ports_found by (done || (rewrite En; by destruct net)).
    cbn [bind_outcome fst snd]. split.
    + intros [= <-]. do 2 eexists. split; [reflexivity|]. cbn. split_and!; [exact En|lia|done].
    + intros (p & net' & [= <-] & Hp & _ & ->). cbn in *. rewrite En in Hp. by destruct net, net'.
  - split; [done|]. intros (p & net & Hp & Hnet & _).
    assert (Hn : network_of n = Some net); [|congruence]. apply network_of_protocol.
    destruct (parse_ports data (IpProtocol.from_number n) off); try done. cbn in Hp. by injection Hp as <-.
Qed.

Lemma session_agrees t data : agrees t data (session_from_packet t data) (parse_ip_packet data).
Proof.
  assert (Hno : ∀ e1 e2, agrees t data (Found (Err e1)) (Found (Err e2))).
  { intros e1 e2 s. split; [done|]. by intros (p & net & H & _). }
  unfold session_from_packet, parse_ip_packet.
  destruct (Nat.eqb_spec (length data) 0); [apply Hno|]. rewrite idx_found by lia. cbn [bind_outcome]. cbv zeta.
  destruct (_ =? 4); [|destruct (_ =? 6); [|apply Hno]].
  - unfold session_from_ipv4, parse_ipv4_packet. destruct (Nat.ltb_spec (length data) 20); [apply Hno|].
    rewrite idx_found by lia. cbn [bind_outcome]. cbv zeta. change 0x0f with 15.
    set (ihl := (_ * 4)%nat).
    destruct (Nat.ltb_spec ihl 20); [apply Hno|]. cbn [orb].
    destruct (Nat.ltb_spec (length data) (ihl + 4)), (Nat.ltb_spec (length data) ihl); try lia; try apply Hno.
    + intros s. split; [done|]. intros (p & net & Hp & _ & Hl & _). exfalso.
      rewrite idx_be16_found, (idx_found data 9), !idx_ipv4_found in Hp by lia. cbn [bind_outcome] in Hp.
      destruct (parse_ports _ _ _); try done. cbn in Hp. injection Hp as <-. cbn in Hl. lia.
    + rewrite (idx_found data 9), (idx_be16_found data 2 3), !idx_ipv4_found by lia. cbn [bind_outcome].
      by apply agrees_tail.
  - unfold session_from_ipv6, parse_ipv6_packet.
    destruct (Nat.ltb_spec (length data) 44), (Nat.ltb_spec (length data) 40); try lia; try apply Hno.
    + intros s. split; [done|]. intros (p & net & Hp & _ & Hl & _). exfalso.
      rewrite idx_be16_found, (idx_found data 6), !idx_ipv6_found in Hp by lia. cbn [bind_outcome] in Hp.
      destruct (parse_ports _ _ _); try done. cbn in Hp. injection Hp as <-. cbn in Hl. lia.
    + rewrite (idx_found data 6), (idx_be16_found data 4 5), !idx_ipv6_found by lia. cbn [bind_outcome].
      by apply agrees_tail.
Qed.

Lemma session_from_packet_returns t data : returns (session_from_packet t data).
Proof.
  unfold session_from_packet, session_from_ipv4, session_from_ipv6. cbv zeta.
  repeat first [returns_step | apply returns_idx_ipv4 | apply returns_idx_ipv6
               | match goal with |- returns (match network_of ?x with _ => _ end) => destruct (network_of x) end];
    lia.
Qed.

(** The two packet readers agree: building a session from a raw packet never
    panics, and gives a session exactly when the packet parser accepts the packet
    as TCP or UDP and the packet holds the ports; the session then has the parsed
    addresses and ports as target and source, the inbound's tag and the parsed
    network. *)
Theorem tun_session_agrees t data :
  returns (session_from_packet t data)
  ∧ ∀ s, session_from_packet t data = Found (Ok s) ↔
      ∃ p net, parse_ip_packet data = Found (Ok p) ∧ protocol p = protocol_of net
               ∧ (payload_offset p + 4 ≤ length data)%nat ∧ s = session_of t p net.
Proof. split; [apply session_from_packet_returns | apply session_agrees]. Qed.

(** ** What the loop does *)

Lemma tun_packet_returns t packet : returns (tun_packet t packet).
Proof.
  unfold tun_packet. destruct (_ =? 0)%nat; [apply returns_found|].
  apply returns_bind; [apply parse_ip_packet_returns|]. intros [p|e] _; [|apply returns_found].
  destruct (negb _); [apply returns_found|]. destruct (tun_dns_hijack t && is_dns_query p).
  - pose proof (handle_dns_hijack_safe resolver p packet) as [H1 H2].
    destruct (handle_dns_hijack _ _ _); try done; apply returns_found.
  - destruct (protocol p); try apply returns_found; try (destruct (tun_icmp_policy t); apply returns_found).
    all: apply returns_bind; [apply session_from_packet_returns|]; intros [s|e] _; apply returns_found.
Qed.

(** What the loop does with a packet: none makes it panic; the routing decision it
    logs is that of the session of the packet's own parsed header, and while DNS
    hijacking is on it logs none for a UDP session to port 53; an ICMP packet is
    written back unchanged to the device it came from exactly under the pass-through
    policy, which is all that policy does. *)
Theorem tun_packet_policy t packet :
  returns (tun_packet t packet)
  ∧ (∀ acts s o, tun_packet t packet = Found acts → LogRoute s o ∈ acts →
       ∃ p net, parse_ip_packet packet = Found (Ok p) ∧ s = session_of t p net
         ∧ protocol p = protocol_of net ∧ o = route env router s
         ∧ (tun_dns_hijack t = true → net = Udp → dst_port p ≠ 53))
  ∧ (∀ p, parse_ip_packet packet = Found (Ok p) → protocol p = IpProtocol.Icmp → packet ≠ [] →
       tun_packet t packet
       = Found (match tun_icmp_policy t with Passthrough => [WritePacket packet] | Packet.Drop => [] end)).
Proof.
  split; [apply tun_packet_returns|]. split.
  - intros acts s o Ha Hin. unfold tun_packet in Ha.
    destruct (_ =? 0)%nat; [inv Ha; by apply elem_of_nil in Hin|].
    destruct (parse_ip_packet packet) as [[p|e]| | |] eqn:Ep; try done; cbn [bind_outcome] in Ha;
      [|inv Ha; by apply elem_of_nil in Hin].
    destruct (negb _); [inv Ha; by apply elem_of_nil in Hin|].
    destruct (tun_dns_hijack t && is_dns_query p) eqn:Hd.
    { destruct (handle_dns_hijack _ _ _); inv Ha; set_solver. }
    destruct (protocol p) eqn:Hp; try (inv Ha; by apply elem_of_nil in Hin);
      try (destruct (tun_icmp_policy t); inv Ha; set_solver).
    all: destruct (session_from_packet t packet) as [[s'|e]| | |] eqn:Es; try done; cbn [bind_outcome] in Ha;
      inv Ha; [|by apply elem_of_nil in Hin];
      apply list_elem_of_singleton in Hin as [= -> ->];
      apply session_agrees in Es as (p' & net & Hp' & Hnet & _ & ->); rewrite Ep in Hp'; injection Hp' as <-;
      exists p, net; split_and!; [done..|];
      intros Hh -> H53; rewrite Hh in Hd; unfold is_dns_query in Hd; rewrite Hnet, H53 in Hd; done.
  - intros p Ep Hp Hne. unfold tun_packet. rewrite Ep. cbn [bind_outcome].
    destruct (Nat.eqb_spec (length packet) 0); [by destruct packet|].
    unfold should_process, is_dns_query. rewrite Hp. cbn. rewrite andb_false_r.
    by destruct (tun_icmp_policy t).
Qed.

(** ** When the loop ends *)

Definition stopped (r : outcome (list tun_action * option (list tun_event))) : Prop :=
  ∃ acts rest, r = Found (acts, Some rest).

Lemma stopped_continue (r : outcome (list tun_action * option (list tun_event))) acts :
  stopped (let! rest := r in Found (acts ++ rest.1, rest.2)) ↔ stopped r.
Proof.
  split; intros (a & l & H).
  - destruct r as [[a' [l'|]]| | |]; try done. by exists a', l'.
  - exists (acts ++ a), l. by rewrite H.
Qed.

(** Fifty errors in a row, [errs] of which have already happened. *)
Definition gives_up (errs : nat) (es : list tun_event) : Prop :=
  Cancelled ∈ es ∨ (∃ post, es = replicate (50 - errs) ReadErr ++ post)
  ∨ ∃ pre post, es = pre ++ replicate 50 ReadErr ++ post.

Lemma gives_up_err errs es :
  (S errs < 50)%nat → gives_up errs (ReadErr :: es) ↔ gives_up (S errs) es.
Proof.
  intros He. unfold gives_up. replace (50 - errs)%nat with (S (50 - S errs)) by lia. cbn [replicate app]. split.
  - intros [H|[(post & [= ->])|(pre & post & E)]].
    + left. set_solver.
    + right. left. eauto.
    + destruct pre as [|e pre]; simplify_eq/=; [right; left|right; right; eauto].
      exists (replicate errs ReadErr ++ post).
      change (replicate 49 ReadErr ++ post = replicate (50 - S errs) ReadErr ++ replicate errs ReadErr ++ post).
      rewrite (app_assoc (replicate (50 - S errs) _)), <- replicate_add. do 2 f_equal. lia.
  - intros [H|[(post & ->)|(pre & post & ->)]]; [left; set_solver|right; left; eauto|].
    right. right. by exists (ReadErr :: pre), post.
Qed.

Lemma gives_up_ok errs p es :
  (errs < 50)%nat → gives_up errs (ReadOk p :: es) ↔ gives_up 0 es.
Proof.
  intros He. unfold gives_up. replace (50 - errs)%nat with (S (49 - errs)) by lia. split.
  - intros [H|[(post & E)|(pre & post & E)]]; [left; set_solver|done|].
    destruct pre as [|e pre]; simplify_eq/=. right. right. eauto.
  - intros [H|[(post & ->)|(pre & post & ->)]]; [left; set_solver|..]; right; right.
    + by exists [ReadOk p], post.
    + by exists (ReadOk p :: pre), post.
Qed.

Lemma tun_run_stops t errs es :
  (errs < 50)%nat → stopped (tun_run t (Z.of_nat errs) es) ↔ gives_up errs es.
Proof.
  revert errs. induction es as [|e es IH]; intros errs He.
  - split; [by intros (a & r & H)|]. intros [H|[(post & E)|(pre & post & E)]].
    + by apply elem_of_nil in H.
    + by replace (50 - errs)%nat with (S (49 - errs)) in E by lia.
    + by destruct pre.
  - destruct e as [p| |]; cbn [tun_run tun_step].
    + rewrite gives_up_ok by done. destruct (tun_packet_returns t p) as [a ->]. cbn [bind_outcome].
      rewrite stopped_continue. apply (IH 0%nat). lia.
    + rewrite wrap_small by (unfold in_width; lia).
      destruct (Z.leb_spec MAX_CONSECUTIVE_ERRORS (Z.of_nat errs + 1)) as [H|H]; unfold MAX_CONSECUTIVE_ERRORS in H;
        cbn [bind_outcome].
      * split; [intros _|by exists [], es]. right. left. exists es.
        by replace (50 - errs)%nat with 1%nat by lia.
      * rewrite stopped_continue, gives_up_err by lia. replace (Z.of_nat errs + 1) with (Z.of_nat (S errs)) by lia.
        apply IH. lia.
    + cbn [bind_outcome]. split; [intros _; left; set_solver | by exists [], es].
Qed.

(** The loop ends exactly when it should: over any sequence of reads it
    never panics, and it stops if and only if it is cancelled or the device fails
    fifty times in a row; in between it takes every packet. *)
Theorem tun_loop_ends t es :
  stopped (tun_run t 0 es) ↔
  Cancelled ∈ es ∨ ∃ pre post, es = pre ++ replicate 50 ReadErr ++ post.
Proof.
  rewrite (tun_run_stops t 0) by lia. unfold gives_up. split; [|tauto].
  intros [H|[(post & ->)|H]]; [by left|right; by exists [], post|by right].
Qed.

(** The back-off after errors: the [k]-th error in a row waits 2^k
    milliseconds, 128 from the seventh on.  The first wait is therefore 2
    milliseconds, and never the single one with which the documented schedule
    starts. *)
Theorem tun_backoff t k :
  (k < 50)%nat →
  tun_run t 0 (replicate k ReadErr)
  = Found (map (fun i => Sleep (2 ^ Z.min i 7)) (seqZ 1 (Z.of_nat k)), None).
Proof.
  intros Hk.
  assert (Hgen : ∀ n e, (e + n < 50)%nat → tun_run t (Z.of_nat e) (replicate n ReadErr)
    = Found (map (fun i => Sleep (2 ^ Z.min i 7)) (seqZ (Z.of_nat e + 1) (Z.of_nat n)), None)).
  { induction n as [|n IH]; intros e He; [done|]. cbn [replicate tun_run tun_step].
    rewrite wrap_small by (unfold in_width; lia).
    destruct (Z.leb_spec MAX_CONSECUTIVE_ERRORS (Z.of_nat e + 1)) as [H|_]; [unfold MAX_CONSECUTIVE_ERRORS in H; lia|].
    cbn [bind_outcome]. replace (Z.of_nat e + 1) with (Z.of_nat (S e)) by lia. rewrite IH by lia.
    cbn [bind_outcome fst snd]. rewrite (seqZ_cons (Z.of_nat (S e))) by lia. cbn [map app]. do 3 f_equal.
    - unfold delay_ms. rewrite Z.shiftl_mul_pow2 by lia. rewrite Z.mul_1_l. apply f_equal, wrap_small.
      unfold in_width. split; [apply Z.pow_nonneg; lia|]. apply Z.pow_lt_mono_r; lia.
    - do 2 f_equal; lia. }
  apply (Hgen k 0%nat). lia.
Qed.
End tun.

Lemma tun_backoff_witness :
  tun_run sample_env sample_router sample_resolver (tun_new "tun-in" "utun") 0 [ReadErr; ReadErr]
  = Found ([Sleep 2; Sleep 4], None).
Proof.
  refine (tun_backoff sample_env sample_router sample_resolver (tun_new "tun-in" "utun") 2 _). lia.
Defined.
