(* ===== verification/DnsCache.v ===== *)
(** * The caching resolver ([src/src/dns/cache.rs])

    Positive and negative caching with expiry, an LRU order, and the
    de-duplication of concurrent queries.  Every lock region of the code is one
    atomic operation of the shared state; [resolve] is their sequential
    composition, and [cache_step] interleaves the operations of any number of
    concurrent [resolve] and [clear] calls.  Instants and durations are in
    nanoseconds; each operation that reads the clock takes the instant read. *)

From Stdlib Require Import SpecFloat.
From S2P Require Import Prelude RustStr Addr F64 Hosts.

Local Open Scope string_scope.
Local Open Scope list_scope.
Local Open Scope Z_scope.

Definition NANOS : Z := 1000000000.
Definition as_secs (d : Z) : Z := d / NANOS.
Definition MIN_PREFETCH_TTL_SECS : Z := 30.

Inductive CacheValue :=
| Positive (addrs : list IpAddr)
| Negative (msg : dns_error).

Record CacheEntry := {
  value : CacheValue;
  expires_at : Z;
  original_ttl : Z;
  access_count : Z
}.

Record CachedResolver := {
  cache : gmap string CacheEntry;
  order : list string;
  inflight : gmap string nat;
  ttl : Z;
  negative_ttl : Z;
  max_entries : nat;
  cache_hit : Z;
  cache_miss : Z;
  negative_hit : Z;
  next_notify : nat
}.

Definition resolver_new (ttl_secs negative_ttl_secs : Z) (max : nat) : CachedResolver :=
  {| cache := ∅; order := []; inflight := ∅; ttl := ttl_secs * NANOS;
     negative_ttl := negative_ttl_secs * NANOS; max_entries := max;
     cache_hit := 0; cache_miss := 0; negative_hit := 0; next_notify := 0 |}.

Definition with_cache (c : gmap string CacheEntry) (s : CachedResolver) : CachedResolver :=
  {| cache := c; order := order s; inflight := inflight s; ttl := ttl s;
     negative_ttl := negative_ttl s; max_entries := max_entries s; cache_hit := cache_hit s;
     cache_miss := cache_miss s; negative_hit := negative_hit s; next_notify := next_notify s |}.
Definition with_order (o : list string) (s : CachedResolver) : CachedResolver :=
  {| cache := cache s; order := o; inflight := inflight s; ttl := ttl s;
     negative_ttl := negative_ttl s; max_entries := max_entries s; cache_hit := cache_hit s;
     cache_miss := cache_miss s; negative_hit := negative_hit s; next_notify := next_notify s |}.
Definition with_inflight (i : gmap string nat) (n : nat) (s : CachedResolver) : CachedResolver :=
  {| cache := cache s; order := order s; inflight := i; ttl := ttl s;
     negative_ttl := negative_ttl s; max_entries := max_entries s; cache_hit := cache_hit s;
     cache_miss := cache_miss s; negative_hit := negative_hit s; next_notify := n |}.
Definition with_stats (h m n : Z) (s : CachedResolver) : CachedResolver :=
  {| cache := cache s; order := order s; inflight := inflight s; ttl := ttl s;
     negative_ttl := negative_ttl s; max_entries := max_entries s; cache_hit := h;
     cache_miss := m; negative_hit := n; next_notify := next_notify s |}.

(** ** The lock regions *)

(** [order.iter().position(..)] and [remove(pos)]. *)
Fixpoint remove_first (h : string) (l : list string) : list string :=
  match l with
  | [] => []
  | x :: l => if String.eqb x h then l else x :: remove_first h l
  end.

Definition touch_order (h : string) (s : CachedResolver) : CachedResolver :=
  with_order (remove_first h (order s) ++ [h]) s.

(** The first region of [evict_if_needed]: drop what has expired. *)
Definition evict_expired (now : Z) (s : CachedResolver) : CachedResolver :=
  with_cache (filter (fun '(_, e) => now < expires_at e) (cache s)) s.

(** The [while] loop over the oldest names. *)
Fixpoint evict_loop (max : nat) (o : list string) (c : gmap string CacheEntry)
  : list string * gmap string CacheEntry :=
  if (max <? size c)%nat then
    match o with
    | oldest :: o => evict_loop max o (delete oldest c)
    | [] => ([], c)
    end
  else (o, c).

(** The second region: both locks held. *)
Definition evict_oldest (s : CachedResolver) : CachedResolver :=
  let o := filter (fun k => is_Some (cache s !! k)) (order s) in
  let '(o', c') := evict_loop (max_entries s) o (cache s) in
  with_order o' (with_cache c' s).

Definition evict_if_needed (now : Z) (s : CachedResolver) : CachedResolver :=
  evict_oldest (evict_expired now s).

(** The read region of [read_cache]: the answer if there is a live entry, with
    the entry's access count and the statistics updated. *)
Definition bump (e : CacheEntry) : CacheEntry :=
  {| value := value e; expires_at := expires_at e; original_ttl := original_ttl e;
     access_count := wrap 64 (access_count e + 1) |}.
Definition peek (now : Z) (h : string) (s : CachedResolver)
  : option (result dns_error (list IpAddr) * CachedResolver) :=
  match cache s !! h with
  | None => None
  | Some e =>
      if expires_at e <=? now then None else
      let s := with_cache (<[h := bump e]> (cache s)) s in
      match value e with
      | Positive addrs =>
          Some (Ok addrs, with_stats (wrap 64 (cache_hit s + 1)) (cache_miss s) (negative_hit s) s)
      | Negative msg =>
          Some (Err (CachedNegative h msg), with_stats (cache_hit s) (cache_miss s) (wrap 64 (negative_hit s + 1)) s)
      end
  end.

Definition read_cache (now : Z) (h : string) (s : CachedResolver)
  : option (result dns_error (list IpAddr) * CachedResolver) :=
  '(r, s') ← peek now h s; Some (r, touch_order h s').

Definition count_miss (s : CachedResolver) : CachedResolver :=
  with_stats (cache_hit s) (wrap 64 (cache_miss s + 1)) (negative_hit s) s.

(** The in-flight table: the notifier of the query under way, or a fresh one
    and the role of leader. *)
Definition join_inflight (h : string) (s : CachedResolver) : nat * bool * CachedResolver :=
  match inflight s !! h with
  | Some n => (n, false, s)
  | None =>
      let n := next_notify s in
      (n, true, with_inflight (<[h := n]> (inflight s)) (S n) s)
  end.

(** Step 4 of [resolve]: the leader stores its answer. *)
Definition store (now : Z) (h : string) (r : result dns_error (list IpAddr)) (s : CachedResolver)
  : CachedResolver :=
  match r with
  | Ok addrs =>
      with_cache (<[h := {| value := Positive addrs; expires_at := now + ttl s;
                            original_ttl := ttl s; access_count := 1 |}]> (cache s)) s
  | Err err =>
      if 0 <? negative_ttl s then
        with_cache (<[h := {| value := Negative err; expires_at := now + negative_ttl s;
                              original_ttl := negative_ttl s; access_count := 1 |}]> (cache s)) s
      else s
  end.

Definition finish (h : string) (s : CachedResolver) : CachedResolver :=
  with_inflight (delete h (inflight s)) (next_notify s) s.

(** A waiter that timed out drops the entry it waited on, if it is still there. *)
Definition drop_stale (h : string) (n : nat) (s : CachedResolver) : CachedResolver :=
  match inflight s !! h with
  | Some m => if (m =? n)%nat then finish h s else s
  | None => s
  end.

(** [resolve] with no other call running: the leader's path, or, when an earlier
    leader was cancelled and left its entry behind, the wait that times out.  The
    clock is read at the three instants given. *)
Definition resolve (inner : DnsResolver) (t_read t_store t_evict : Z) (h : string)
    (s : CachedResolver) : result dns_error (list IpAddr) * CachedResolver :=
  match read_cache t_read h s with
  | Some (r, s) => (r, s)
  | None =>
      let '(n, is_leader, s) := join_inflight h (count_miss s) in
      if negb is_leader then
        match read_cache t_store h s with
        | Some (r, s) => (r, s)
        | None => (inner h, drop_stale h n s)
        end
      else
      let result := inner h in
      let s := store t_store h result s in
      let s := evict_if_needed t_evict (touch_order h s) in
      (result, finish h s)
  end.

Definition stats (s : CachedResolver) : Z * Z * Z := (cache_hit s, cache_miss s, negative_hit s).

(** [clear], region by region. *)
Definition clear_cache (s : CachedResolver) : CachedResolver := with_cache ∅ s.
Definition clear_order (s : CachedResolver) : CachedResolver := with_order [] s.
Definition clear_inflight (s : CachedResolver) : CachedResolver := with_inflight ∅ (next_notify s) s.
Definition clear (s : CachedResolver) : CachedResolver :=
  clear_inflight (clear_order (clear_cache s)).

(** ** Prefetching

    [(secs as f64 * 0.3) as u64] in IEEE binary64: 0.3 is
    5404319552844595 * 2^-54. *)

Definition PREFETCH_THRESHOLD_RATIO : f64 := S754_finite false 5404319552844595 (-54).
Definition prefetch_threshold (original_ttl : Z) : Z :=
  f64_as_u64 (f64_mul (f64_of_u64 (as_secs original_ttl)) PREFETCH_THRESHOLD_RATIO) * NANOS.

Definition prefetch_due (now : Z) (e : CacheEntry) : bool :=
  let remaining := saturating_sub (expires_at e) now in
  (remaining <? prefetch_threshold (original_ttl e))
  && (MIN_PREFETCH_TTL_SECS <=? as_secs remaining) && (2 <=? access_count e).

Definition should_prefetch (now : Z) (h : string) (s : CachedResolver) : bool :=
  match cache s !! h with
  | Some e => prefetch_due now e
  | None => false
  end.

Definition is_positive (e : CacheEntry) : bool :=
  match value e with Positive _ => true | Negative _ => false end.
Definition get_prefetch_candidates (now : Z) (s : CachedResolver) : list string :=
  omap (fun '(h, e) => if is_positive e && prefetch_due now e then Some h else None)
       (map_to_list (cache s)).

(** ** Concurrent calls *)

Inductive task :=
| TStart (h : string)                                       (* before the first read *)
| THit (h : string) (r : result dns_error (list IpAddr))    (* hit, order not touched yet *)
| TMiss (h : string)                                        (* missed, before the table *)
| TLead (h : string) (n : nat)                              (* leader, querying upstream *)
| TStored (h : string) (n : nat) (r : result dns_error (list IpAddr))
| TTouched (h : string) (n : nat) (r : result dns_error (list IpAddr))
| TExpired (h : string) (n : nat) (r : result dns_error (list IpAddr))
| TEvicted (h : string) (n : nat) (r : result dns_error (list IpAddr))
| TFollow (h : string) (n : nat)                            (* waiting for the leader *)
| TWoken (h : string) (n : nat) (timed_out : bool)
| TDirect (h : string)                                      (* falls back to upstream *)
| TDone (h : string) (r : result dns_error (list IpAddr))
| TClear (region : nat)                                     (* regions of [clear] done *)
| TCleared.

Inductive event := Plain | Timeout | Clear.

Definition config : Type := CachedResolver * list task.

Inductive cache_step : event → config → config → Prop :=
| st_spawn s ts h : cache_step Plain (s, ts) (s, ts ++ [TStart h])
| st_hit s ts i h now r s' :
    ts !! i = Some (TStart h) → peek now h s = Some (r, s') →
    cache_step Plain (s, ts) (s', <[i := THit h r]> ts)
| st_hit_touch s ts i h r :
    ts !! i = Some (THit h r) →
    cache_step Plain (s, ts) (touch_order h s, <[i := TDone h r]> ts)
| st_miss s ts i h now :
    ts !! i = Some (TStart h) → peek now h s = None →
    cache_step Plain (s, ts) (count_miss s, <[i := TMiss h]> ts)
| st_lead s ts i h n s' :
    ts !! i = Some (TMiss h) → join_inflight h s = (n, true, s') →
    cache_step Plain (s, ts) (s', <[i := TLead h n]> ts)
| st_follow s ts i h n s' :
    ts !! i = Some (TMiss h) → join_inflight h s = (n, false, s') →
    cache_step Plain (s, ts) (s', <[i := TFollow h n]> ts)
| st_store s ts i h n now r :
    ts !! i = Some (TLead h n) →
    cache_step Plain (s, ts) (store now h r s, <[i := TStored h n r]> ts)
| st_touch s ts i h n r :
    ts !! i = Some (TStored h n r) →
    cache_step Plain (s, ts) (touch_order h s, <[i := TTouched h n r]> ts)
| st_expire s ts i h n r now :
    ts !! i = Some (TTouched h n r) →
    cache_step Plain (s, ts) (evict_expired now s, <[i := TExpired h n r]> ts)
| st_evict s ts i h n r :
    ts !! i = Some (TExpired h n r) →
    cache_step Plain (s, ts) (evict_oldest s, <[i := TEvicted h n r]> ts)
| st_finish s ts i h n r :
    ts !! i = Some (TEvicted h n r) →
    cache_step Plain (s, ts) (finish h s, <[i := TDone h r]> ts)
| st_notified s ts i h n :
    ts !! i = Some (TFollow h n) →
    cache_step Plain (s, ts) (s, <[i := TWoken h n false]> ts)
| st_timeout s ts i h n :
    ts !! i = Some (TFollow h n) →
    cache_step Timeout (s, ts) (s, <[i := TWoken h n true]> ts)
| st_rehit s ts i h n b now r s' :
    ts !! i = Some (TWoken h n b) → peek now h s = Some (r, s') →
    cache_step Plain (s, ts) (s', <[i := THit h r]> ts)
| st_remiss s ts i h n b now :
    ts !! i = Some (TWoken h n b) → peek now h s = None →
    cache_step (if b then Timeout else Plain) (s, ts)
      (if b then drop_stale h n s else s, <[i := TDirect h]> ts)
| st_direct s ts i h r :
    ts !! i = Some (TDirect h) → cache_step Plain (s, ts) (s, <[i := TDone h r]> ts)
| st_clear_spawn s ts : cache_step Clear (s, ts) (s, ts ++ [TClear 0])
| st_clear_cache s ts i :
    ts !! i = Some (TClear 0) →
    cache_step Clear (s, ts) (clear_cache s, <[i := TClear 1]> ts)
| st_clear_order s ts i :
    ts !! i = Some (TClear 1) →
    cache_step Clear (s, ts) (clear_order s, <[i := TClear 2]> ts)
| st_clear_inflight s ts i :
    ts !! i = Some (TClear 2) →
    cache_step Clear (s, ts) (clear_inflight s, <[i := TCleared]> ts).

(** Runs whose events are all allowed. *)
Definition runs (allowed : event → bool) (s0 : CachedResolver) (x : config) : Prop :=
  rtc (fun a b => ∃ e, allowed e = true ∧ cache_step e a b) (s0, []) x.

(** Rule induction on the runs. *)
Lemma runs_invariant allowed s0 (P : config → Prop) :
  P (s0, []) → (∀ e x y, allowed e = true → cache_step e x y → P x → P y) →
  ∀ x, runs allowed s0 x → P x.
Proof.
  intros H0 Hst x Hr. unfold runs in Hr. revert x Hr. apply rtc_ind_r; [done|].
  intros y z _ (e & He & Hs) Hy. eauto.
Qed.

(** ** Counting tasks *)

Definition count (f : task → bool) (ts : list task) : nat := length (List.filter f ts).

Lemma count_insert f ts i t t' :
  ts !! i = Some t →
  (count f (<[i := t']> ts) + Nat.b2n (f t) = count f ts + Nat.b2n (f t'))%nat.
Proof.
  unfold count. revert i. induction ts as [|x ts IH]; intros [|i] H; simplify_eq/=.
  - destruct (f t), (f t'); simpl; lia.
  - specialize (IH i H). destruct (f x); simpl; lia.
Qed.

Lemma count_app f ts t : (count f (ts ++ [t]) = count f ts + Nat.b2n (f t))%nat.
Proof. unfold count. rewrite List.filter_app, length_app. simpl. destruct (f t); done. Qed.

(** ** The size bound *)

Definition overdue (t : task) : bool :=
  match t with TStored _ _ _ | TTouched _ _ _ | TExpired _ _ _ => true | _ => false end.
Definition untouched (t : task) : option string :=
  match t with TStored h _ _ => Some h | _ => None end.

(** Entries are in the order or about to be; the cache exceeds its limit by at
    most the leaders between their store and their eviction. *)
Record bound_inv (max : nat) (x : config) : Prop := {
  bi_max : max_entries x.1 = max;
  bi_size : (size (cache x.1) ≤ max + count overdue x.2)%nat;
  bi_order : ∀ h, is_Some (cache x.1 !! h) → h ∈ order x.1 ∨ h ∈ omap untouched x.2
}.

Lemma untouched_insert (ts : list task) (i : nat) t t' h :
  ts !! i = Some t → h ∈ omap untouched ts →
  untouched t = Some h ∨ h ∈ omap untouched (<[i := t']> ts).
Proof.
  intros Hi (u & (j & Hj)%list_elem_of_lookup & Hu)%list_elem_of_omap.
  destruct (decide (i = j)) as [->|Hne]; [left; congruence|]. right. apply list_elem_of_omap.
  exists u. split; [|done]. apply (list_elem_of_lookup_2 _ j). by rewrite list_lookup_insert_ne.
Qed.

Lemma untouched_new (ts : list task) (i : nat) t t' h :
  ts !! i = Some t → untouched t' = Some h → h ∈ omap untouched (<[i := t']> ts).
Proof.
  intros Hi Hu. apply list_elem_of_omap. exists t'. split; [|done].
  apply (list_elem_of_lookup_2 _ i). rewrite list_lookup_insert_eq; [done|].
  by apply lookup_lt_Some in Hi.
Qed.

Lemma count_untouched (ts : list task) : (length (omap untouched ts) ≤ count overdue ts)%nat.
Proof.
  unfold count. induction ts as [|t ts IH]; [done|].
  destruct t; csimpl in *; simpl in *; lia.
Qed.

(** A task's step that grows the cache only if it makes the task overdue. *)
Lemma bound_update max s ts s' i t t' :
  bound_inv max (s, ts) → ts !! i = Some t →
  max_entries s' = max_entries s →
  (size (cache s') + Nat.b2n (overdue t) ≤ size (cache s) + Nat.b2n (overdue t'))%nat →
  (∀ h, is_Some (cache s' !! h) → is_Some (cache s !! h) ∨ untouched t' = Some h) →
  (∀ h, h ∈ order s → h ∈ order s') →
  (∀ h, untouched t = Some h → h ∈ order s') →
  bound_inv max (s', <[i := t']> ts).
Proof.
  intros [Hm Hs Ho] Hi Hmax Hsz Hdom Hord Hunt; simpl in *.
  pose proof (count_insert overdue ts i t t' Hi). split; simpl; [congruence | lia |].
  intros h [Hh|Hh]%Hdom; [|right; by eapply untouched_new].
  destruct (Ho h Hh) as [H1|H1]; [left; auto|].
  destruct (untouched_insert ts i t t' h Hi H1); [left; auto | by right].
Qed.

Lemma in_remove_first h x l : x ∈ l → x ≠ h → x ∈ remove_first h l.
Proof.
  intros Hx Hne. induction Hx as [x l|x y l Hx IH]; simpl.
  - apply String.eqb_neq in Hne. rewrite Hne. apply list_elem_of_here.
  - destruct (String.eqb y h); [done|]. apply list_elem_of_further. auto.
Qed.

Lemma touch_order_in h x s : x ∈ order s ∨ x = h → x ∈ order (touch_order h s).
Proof.
  intros H. simpl. apply elem_of_app. destruct (decide (x = h)) as [->|Hne].
  - right. by apply list_elem_of_singleton.
  - left. destruct H; [by apply in_remove_first | done].
Qed.

Lemma peek_frame now h s r s' :
  peek now h s = Some (r, s') →
  size (cache s') = size (cache s) ∧ order s' = order s ∧ inflight s' = inflight s
  ∧ max_entries s' = max_entries s
  ∧ (∀ k, is_Some (cache s' !! k) → is_Some (cache s !! k)).
Proof.
  unfold peek. destruct (cache s !! h) as [e|] eqn:E; [|done].
  destruct (_ <=? _); [done|]. intros H.
  assert (Hc : cache s' = <[h := bump e]> (cache s) ∧ order s' = order s
               ∧ inflight s' = inflight s ∧ max_entries s' = max_entries s)
    by (destruct (value e); simplify_eq/=; done).
  destruct Hc as (Hc & -> & -> & ->). rewrite Hc, map_size_insert_Some by eauto.
  split_and!; try done. intros k. destruct (decide (h = k)) as [<-|Hne]; [by rewrite E|].
  by rewrite lookup_insert_ne.
Qed.

Lemma store_frame now h r s :
  (size (cache (store now h r s)) ≤ size (cache s) + 1)%nat
  ∧ order (store now h r s) = order s ∧ inflight (store now h r s) = inflight s
  ∧ max_entries (store now h r s) = max_entries s
  ∧ (∀ k, is_Some (cache (store now h r s) !! k) → is_Some (cache s !! k) ∨ h = k).
Proof.
  assert (Hins : ∀ e, (size (<[h := e]> (cache s)) ≤ size (cache s) + 1)%nat
                 ∧ ∀ k, is_Some (<[h := e]> (cache s) !! k) → is_Some (cache s !! k) ∨ h = k).
  { intros e. split.
    - rewrite map_size_insert. destruct (cache s !! h); simpl; lia.
    - intros k. destruct (decide (h = k)) as [<-|Hne]; [by right|].
      rewrite lookup_insert_ne by done. by left. }
  unfold store. destruct r as [addrs|err]; [|destruct (0 <? negative_ttl s)]; simpl;
    try (split_and!; [apply Hins | done | done | done | apply Hins]).
  split_and!; [lia | done | done | done | auto].
Qed.

Lemma drop_stale_frame h n s :
  cache (drop_stale h n s) = cache s ∧ order (drop_stale h n s) = order s
  ∧ max_entries (drop_stale h n s) = max_entries s.
Proof. unfold drop_stale. destruct (inflight s !! h) as [m|]; [destruct (m =? n)%nat|]; done. Qed.

(** ** Eviction *)

Lemma evict_loop_spec max o c o' c' :
  evict_loop max o c = (o', c') →
  ((size c' ≤ max)%nat ∨ o' = []) ∧ c' ⊆ c
  ∧ (∀ h, is_Some (c' !! h) → h ∈ o → h ∈ o')
  ∧ (∃ gone, o = gone ++ o').
Proof.
  revert c. induction o as [|x o IH]; intros c; simpl; destruct (max <? size c)%nat eqn:E.
  - intros [= <- <-]. split_and!; [by right | done | done | by exists []].
  - apply Nat.ltb_ge in E. intros [= <- <-]. split_and!; [by left | done | done | by exists []].
  - intros (Hsz & Hsub & Hin & gone & ->)%IH. split_and!; [done | | |by exists (x :: gone)].
    + etransitivity; [done | apply delete_subseteq].
    + intros h Hh [->|Ho]%elem_of_cons; [|auto]. exfalso.
      destruct Hh as [e He]. eapply lookup_weaken in He; [|done]. by rewrite lookup_delete_eq in He.
  - apply Nat.ltb_ge in E. intros [= <- <-]. split_and!; [by left | done | done | by exists []].
Qed.

Lemma evict_oldest_spec s :
  ((size (cache (evict_oldest s)) ≤ max_entries s)%nat ∨ order (evict_oldest s) = [])
  ∧ cache (evict_oldest s) ⊆ cache s
  ∧ (∀ h, is_Some (cache (evict_oldest s) !! h) → h ∈ order s → h ∈ order (evict_oldest s))
  ∧ inflight (evict_oldest s) = inflight s ∧ max_entries (evict_oldest s) = max_entries s.
Proof.
  unfold evict_oldest.
  destruct (evict_loop _ _ _) as [o' c'] eqn:E. apply evict_loop_spec in E as (Hsz & Hsub & Hin & _).
  simpl. split_and!; try done. intros h Hh Ho. apply Hin; [done|]. apply list_elem_of_filter.
  split; [|done]. destruct Hh as [e He]. exists e. by eapply lookup_weaken.
Qed.

Lemma evict_expired_sub now s : cache (evict_expired now s) ⊆ cache s.
Proof. apply map_filter_subseteq. Qed.

Lemma size_sub (c c' : gmap string CacheEntry) : c' ⊆ c → (size c' ≤ size c)%nat.
Proof. intros H. rewrite <- !size_dom. apply subseteq_size. by apply subseteq_dom. Qed.

Lemma is_Some_sub (c c' : gmap string CacheEntry) h : c' ⊆ c → is_Some (c' !! h) → is_Some (c !! h).
Proof. intros H [e He]. exists e. by eapply lookup_weaken. Qed.

(** The entries left when the order ran out belong to tasks that have not
    touched it yet. *)
Lemma size_untouched (c : gmap string CacheEntry) (ts : list task) :
  (∀ h, is_Some (c !! h) → h ∈ omap untouched ts) → (size c ≤ count overdue ts)%nat.
Proof.
  intros H. etransitivity; [|apply count_untouched]. rewrite <- (size_dom c).
  transitivity (size (list_to_set (omap untouched ts) : gset string)).
  - apply subseteq_size. intros h Hh. apply elem_of_list_to_set, H. by apply elem_of_dom.
  - generalize (omap untouched ts). intros l. induction l as [|x l IH]; [done|]. simpl.
    rewrite size_union_alt, size_singleton.
    assert (size (list_to_set l ∖ {[x]} : gset string) ≤ size (list_to_set l : gset string))%nat
      by (apply subseteq_size; intros ? [? _]%elem_of_difference; done). lia.
Qed.

Lemma evict_step_bound max s ts i h n r :
  bound_inv max (s, ts) → ts !! i = Some (TExpired h n r) →
  bound_inv max (evict_oldest s, <[i := TEvicted h n r]> ts).
Proof.
  intros [Hm Hs Ho] Hi; simpl in *.
  destruct (evict_oldest_spec s) as (Hsz & Hsub & Hin & _ & Hmax).
  assert (Hord : ∀ k, is_Some (cache (evict_oldest s) !! k) →
            k ∈ order (evict_oldest s) ∨ k ∈ omap untouched (<[i := TEvicted h n r]> ts)).
  { intros k Hk. destruct (Ho k (is_Some_sub _ _ _ Hsub Hk)) as [H|H]; [left; auto|].
    destruct (untouched_insert ts i _ (TEvicted h n r) k Hi H); [done | by right]. }
  split; simpl; [congruence | | done].
  destruct Hsz as [Hsz|Hnil]; [lia|].
  transitivity (count overdue (<[i := TEvicted h n r]> ts)); [|lia].
  apply size_untouched. intros k Hk. destruct (Hord k Hk) as [H|H]; [|done].
  rewrite Hnil in H. by apply not_elem_of_nil in H.
Qed.

Ltac bound_done :=
  eapply bound_update; [eassumption | eassumption | done | simpl; lia | auto | auto | try done].

Lemma cache_step_bound max e x y :
  e ≠ Clear → cache_step e x y → bound_inv max x → bound_inv max y.
Proof.
  intros He Hs Hx. destruct Hs; simpl in *; try done; try (by bound_done).
  - destruct Hx as [Hm Hsz Ho]; simpl in *. split; simpl; [done | rewrite count_app; lia |].
    intros k [H|H]%Ho; [by left|]. right. rewrite omap_app. apply elem_of_app. by left.
  - destruct (peek_frame _ _ _ _ _ H0) as (Hsz & Hor & _ & Hmx & Hdom).
    eapply bound_update; try eassumption; [simpl; lia | auto | by rewrite Hor | done].
  - eapply bound_update; try eassumption; [done | simpl; lia | auto | | done].
    intros k Hk. apply touch_order_in. by left.
  - unfold join_inflight in H0. destruct (inflight s !! h); simplify_eq. bound_done.
  - unfold join_inflight in H0. destruct (inflight s !! h); simplify_eq. bound_done.
  - destruct (store_frame now h r s) as (Hsz & Hor & _ & Hmx & Hdom).
    eapply bound_update; try eassumption; [simpl; lia | | by rewrite Hor | done].
    intros k [Hk|<-]%Hdom; [by left | by right].
  - eapply bound_update; try eassumption; [done | simpl; lia | auto | |].
    + intros k Hk. apply touch_order_in. by left.
    + intros k [= <-]. apply touch_order_in. by right.
  - pose proof (evict_expired_sub now s) as Hsub. pose proof (size_sub _ _ Hsub).
    eapply bound_update; try eassumption; [done | simpl in *; lia | | done | done].
    intros k Hk. left. by eapply is_Some_sub.
  - by apply evict_step_bound.
  - destruct (peek_frame _ _ _ _ _ H0) as (Hsz & Hor & _ & Hmx & Hdom).
    eapply bound_update; try eassumption; [simpl; lia | auto | by rewrite Hor | done].
  - destruct (drop_stale_frame h n s) as (Hc & Hor & Hmx).
    destruct b; [|by bound_done].
    eapply bound_update; try eassumption; [simpl; rewrite Hc; lia | | by rewrite Hor | done].
    intros k. rewrite Hc. by left.
Qed.

(** ** One leader per host *)

Definition leader_of (t : task) : option (string * nat) :=
  match t with
  | TLead h n | TStored h n _ | TTouched h n _ | TExpired h n _ | TEvicted h n _ => Some (h, n)
  | _ => None
  end.

(** Every leader owns the in-flight entry of its host, and no other task leads
    for that host. *)
Record lead_inv (x : config) : Prop := {
  li_entry : ∀ i t h n, x.2 !! i = Some t → leader_of t = Some (h, n) →
    inflight x.1 !! h = Some n;
  li_unique : ∀ i j t u h n m, x.2 !! i = Some t → x.2 !! j = Some u →
    leader_of t = Some (h, n) → leader_of u = Some (h, m) → i = j
}.

(** Steps of one task that keep the table and do not make it a leader. *)
Lemma lead_update s ts s' i t t' :
  lead_inv (s, ts) → ts !! i = Some t → inflight s' = inflight s →
  leader_of t' = leader_of t ∨ leader_of t' = None →
  lead_inv (s', <[i := t']> ts).
Proof.
  intros [He Hu] Hi Hin Ht. simpl in *.
  assert (Hback : ∀ j u h n, <[i := t']> ts !! j = Some u → leader_of u = Some (h, n) →
                  ∃ u', ts !! j = Some u' ∧ leader_of u' = Some (h, n)).
  { intros j u h n Hj Hl. apply list_lookup_insert_Some in Hj as [(<- & <- & _)|[_ Hj]]; [|eauto].
    exists t. split; [done|]. destruct Ht; congruence. }
  split; simpl.
  - intros j u h n Hj Hl. destruct (Hback _ _ _ _ Hj Hl) as (u' & ? & ?). rewrite Hin. eauto.
  - intros j k u v h n m Hj Hk Hl1 Hl2.
    destruct (Hback _ _ _ _ Hj Hl1) as (? & ? & ?), (Hback _ _ _ _ Hk Hl2) as (? & ? & ?).
    by eapply Hu.
Qed.

Lemma lead_join s ts s' i h n :
  lead_inv (s, ts) → ts !! i = Some (TMiss h) → join_inflight h s = (n, true, s') →
  lead_inv (s', <[i := TLead h n]> ts).
Proof.
  intros [He Hu] Hi Hj. simpl in *. unfold join_inflight in Hj.
  destruct (inflight s !! h) eqn:Eh; simplify_eq.
  assert (Hno : ∀ j t m, ts !! j = Some t → leader_of t ≠ Some (h, m))
    by (intros j t m Hj Hl; specialize (He _ _ _ _ Hj Hl); congruence).
  split; simpl.
  - intros j t k m Hj Hl. apply list_lookup_insert_Some in Hj as [(<- & <- & _)|[_ Hj]].
    + simplify_eq/=. by rewrite lookup_insert_eq.
    + assert (h ≠ k) by (intros ->; by eapply Hno). rewrite lookup_insert_ne by done. eauto.
  - intros j k t u g a b Hj Hk Hl1 Hl2.
    apply list_lookup_insert_Some in Hj as [(<- & <- & _)|[Hnj Hj]];
      apply list_lookup_insert_Some in Hk as [(<- & <- & _)|[Hnk Hk]]; simplify_eq/=; try done.
    + exfalso. by eapply Hno.
    + exfalso. by eapply Hno.
    + by eapply Hu.
Qed.

Lemma lead_finish s ts i h n r :
  lead_inv (s, ts) → ts !! i = Some (TEvicted h n r) →
  lead_inv (finish h s, <[i := TDone h r]> ts).
Proof.
  intros [He Hu] Hi. simpl in *. split; simpl.
  - intros j t k m Hj Hl. apply list_lookup_insert_Some in Hj as [(<- & <- & _)|[Hne Hj]]; [done|].
    assert (h ≠ k) by (intros ->; apply Hne; by eapply (Hu i j)).
    rewrite lookup_delete_ne by done. eauto.
  - intros j k t u g a b Hj Hk Hl1 Hl2.
    apply list_lookup_insert_Some in Hj as [(<- & <- & _)|[Hnj Hj]];
      apply list_lookup_insert_Some in Hk as [(<- & <- & _)|[Hnk Hk]]; simplify_eq/=; try done.
    by eapply Hu.
Qed.

Lemma cache_step_lead x y : cache_step Plain x y → lead_inv x → lead_inv y.
Proof.
  intros Hs. remember Plain as e eqn:Ee.
  destruct Hs; intros Hx; try discriminate Ee;
    try (by (eapply lead_update; [eassumption | eassumption | done | auto])).
  - destruct Hx as [He Hu]. simpl in *.
    assert (Hnew : ∀ j u k m, (ts ++ [TStart h]) !! j = Some u → leader_of u = Some (k, m) →
                   ts !! j = Some u).
    { intros j u k m [Hj|[_ Hj]]%lookup_app_Some Hl; [done|].
      apply list_lookup_singleton_Some in Hj as [_ <-]. done. }
    split; simpl; eauto.
  - destruct (peek_frame _ _ _ _ _ H0) as (_ & _ & Hin & _). eapply lead_update; eauto.
  - by eapply lead_join.
  - unfold join_inflight in H0. destruct (inflight s !! h); simplify_eq.
    eapply lead_update; eauto.
  - destruct (store_frame now h r s) as (_ & _ & Hin & _). eapply lead_update; eauto.
  - destruct (evict_oldest_spec s) as (_ & _ & _ & Hin & _). eapply lead_update; eauto.
  - by eapply lead_finish.
  - destruct (peek_frame _ _ _ _ _ H0) as (_ & _ & Hin & _). eapply lead_update; eauto.
  - destruct b; [discriminate Ee|]. eapply lead_update; eauto.
Qed.

(** ** Hits after a resolution *)

(** Between calls every cached name is in the order, once, and no query is
    under way for a name that is not being resolved. *)
Record cache_wf (s : CachedResolver) : Prop := {
  cw_order : ∀ h, is_Some (cache s !! h) → h ∈ order s;
  cw_nodup : NoDup (order s);
  cw_idle : inflight s = ∅
}.

Lemma remove_first_sub h x l : x ∈ remove_first h l → x ∈ l.
Proof.
  induction l as [|y l IH]; simpl; [done|]. destruct (String.eqb y h).
  - intros H. by apply list_elem_of_further.
  - intros [->|H]%elem_of_cons; [apply list_elem_of_here | apply list_elem_of_further; auto].
Qed.

Lemma remove_first_nodup h l : NoDup l → NoDup (remove_first h l) ∧ h ∉ remove_first h l.
Proof.
  induction 1 as [|y l Hy Hl [IH1 IH2]]; simpl; [split; [constructor | apply not_elem_of_nil]|].
  destruct (String.eqb y h) eqn:E.
  - apply String.eqb_eq in E as ->. done.
  - apply String.eqb_neq in E. split.
    + constructor; [|done]. intros H%remove_first_sub. done.
    + intros [->|H]%elem_of_cons; done.
Qed.

(** The loop never drops the newest name while one entry is allowed. *)
Lemma evict_loop_keeps max o c h e o' c' :
  (1 ≤ max)%nat → NoDup (o ++ [h]) → (∀ k, is_Some (c !! k) → k ∈ o ++ [h]) → c !! h = Some e →
  evict_loop max (o ++ [h]) c = (o', c') → c' !! h = Some e.
Proof.
  intros Hmax. revert c. induction o as [|x o IH]; intros c Hnd Hdom Hh; simpl.
  - destruct (max <? size c)%nat eqn:E; [|intros [= _ <-]; done].
    apply Nat.ltb_lt in E. exfalso. assert (Hc : (size c ≤ 1)%nat); [|lia].
    rewrite <- size_dom, <- (size_singleton (C := gset string) h). apply subseteq_size.
    intros k Hk%elem_of_dom. apply Hdom, list_elem_of_singleton in Hk as ->. by apply elem_of_singleton.
  - destruct (max <? size c)%nat; [|intros [= _ <-]; done]. inv Hnd as [|? ? Hx Hnd'].
    apply IH; [done | |].
    + intros k Hk. destruct (decide (k = x)) as [->|Hne].
      * rewrite lookup_delete_eq in Hk. by destruct Hk.
      * rewrite lookup_delete_ne in Hk by done. apply Hdom in Hk.
        by apply elem_of_cons in Hk as [->|].
    + rewrite lookup_delete_ne; [done|]. intros ->. apply Hx. apply elem_of_app. right.
      by apply list_elem_of_singleton.
Qed.

Lemma filter_last_kept (P : string → Prop) `{!∀ x, Decision (P x)} l h :
  P h → filter P (l ++ [h]) = filter P l ++ [h].
Proof. intros Hh. rewrite filter_app. by rewrite filter_cons_True. Qed.

(** What is stored for a result, and what a later hit says. *)
Definition cached_as (h : string) (r : result dns_error (list IpAddr))
  : result dns_error (list IpAddr) :=
  match r with Ok addrs => Ok addrs | Err e => Err (CachedNegative h e) end.
Definition lifetime (r : result dns_error (list IpAddr)) (s : CachedResolver) : Z :=
  match r with Ok _ => ttl s | Err _ => negative_ttl s end.

Lemma evict_keeps_newest now s h e o :
  (1 ≤ max_entries s)%nat → order s = o ++ [h] → NoDup (order s) →
  (∀ k, is_Some (cache s !! k) → k ∈ order s) → cache s !! h = Some e → now < expires_at e →
  cache (evict_if_needed now s) !! h = Some e.
Proof.
  intros Hmax Ho Hnd Hdom Hh Hlive. unfold evict_if_needed, evict_oldest.
  set (c := cache (evict_expired now s)).
  assert (Hc : c !! h = Some e) by (apply map_lookup_filter_Some; done).
  change (order (evict_expired now s)) with (order s). rewrite Ho in *.
  rewrite filter_last_kept by (by exists e).
  destruct (evict_loop _ _ c) as [o' c'] eqn:E. simpl.
  refine (evict_loop_keeps _ _ c h e o' c' Hmax _ _ Hc E).
  - rewrite <- filter_last_kept by (by exists e). by apply NoDup_filter.
  - intros k Hk. rewrite <- filter_last_kept by (by exists e). apply list_elem_of_filter.
    split; [done|]. apply Hdom. eapply is_Some_sub; [apply evict_expired_sub | exact Hk].
Qed.

Lemma store_lookup now h r s :
  0 < lifetime r s ∨ is_ok r = true →
  ∃ e, cache (store now h r s) !! h = Some e ∧ expires_at e = now + lifetime r s
    ∧ value e = match r with Ok a => Positive a | Err m => Negative m end.
Proof.
  intros H. unfold store, lifetime in *. destruct r as [a|m].
  - simpl. rewrite lookup_insert_eq. eauto.
  - destruct H as [H|H]; [|discriminate]. rewrite (proj2 (Z.ltb_lt _ _) H). simpl.
    rewrite lookup_insert_eq. eauto.
Qed.

Lemma peek_live now h s e :
  cache s !! h = Some e → now < expires_at e →
  ∃ s', peek now h s
        = Some (match value e with Positive a => Ok a | Negative m => Err (CachedNegative h m) end, s').
Proof.
  intros Hh Hl. unfold peek. rewrite Hh, (proj2 (Z.leb_gt _ _) Hl). destruct (value e); eauto.
Qed.

(** ** Properties *)

(** C15: The DNS cache stays bounded under concurrency: in any interleaving of
    [resolve] calls (hits, leaders, followers, timeouts), the number of entries
    exceeds [max_entries] by at most the number of leaders that have stored
    their answer and not evicted yet; when no leader is in between, the cache is
    within its limit. *)
Theorem dns_cache_bounded ttl_s neg_s max s ts :
  runs (fun e => match e with Clear => false | _ => true end) (resolver_new ttl_s neg_s max) (s, ts) →
  (size (cache s) ≤ max + count overdue ts)%nat
  ∧ (count overdue ts = 0%nat → (size (cache s) ≤ max)%nat).
Proof.
  intros Hr. assert (H : bound_inv max (s, ts)).
  { revert Hr. apply runs_invariant.
    - split; simpl; [done | rewrite map_size_empty; lia |]. intros h. rewrite lookup_empty.
      by intros [? ?].
    - intros e y z He Hst Hy. eapply cache_step_bound; [|done|done]. by destruct e. }
  destruct H as [_ Hsz _]. simpl in Hsz. split; [done | intros H0; lia].
Qed.

(** The run of the witness: two leaders for different names; one has stored. *)
Lemma sample_run :
  runs (fun e => match e with Clear => false | _ => true end) (resolver_new 300 30 1)
    (store 0 "a" (Ok [V4 1]) (with_inflight {["a" := 0%nat]} 1 (count_miss (resolver_new 300 30 1))),
     [TStored "a" 0 (Ok [V4 1])]).
Proof.
  eapply rtc_l; [exists Plain; split; [done | apply (st_spawn _ _ "a")]|].
  eapply rtc_l; [exists Plain; split; [done | by apply (st_miss _ _ 0%nat "a" 0)]|].
  eapply rtc_l; [exists Plain; split; [done | by apply (st_lead _ _ 0%nat "a")]|].
  eapply rtc_l; [exists Plain; split; [done | by apply (st_store _ _ 0%nat "a" 0%nat 0 (Ok [V4 1]))]|].
  apply rtc_refl.
Qed.

Lemma dns_cache_bounded_witness :
  (size (cache (store 0 "a" (Ok [V4 1])
                  (with_inflight {["a" := 0%nat]} 1 (count_miss (resolver_new 300 30 1)))))
   ≤ 1 + 1)%nat.
Proof. apply (dns_cache_bounded 300 30 1 _ [TStored "a" 0 (Ok [V4 1])] sample_run). Defined.

(** C16: Concurrent queries are de-duplicated: as long as no waiter times out
    and nobody clears the cache, at most one task at a time leads (queries
    upstream, stores, evicts) for a given host, and the in-flight table names
    exactly its notifier. *)
Theorem dns_single_leader ttl_s neg_s max s ts i j t u h n m :
  runs (fun e => match e with Plain => true | _ => false end) (resolver_new ttl_s neg_s max) (s, ts) →
  ts !! i = Some t → ts !! j = Some u →
  leader_of t = Some (h, n) → leader_of u = Some (h, m) →
  i = j ∧ inflight s !! h = Some n.
Proof.
  intros Hr Hi Hj Ht Hu. assert (H : lead_inv (s, ts)).
  { revert Hr. apply runs_invariant.
    - split; simpl; intros *; by rewrite lookup_nil.
    - intros e y z He Hst Hy. destruct e; try discriminate. by eapply cache_step_lead. }
  destruct H as [He Hun]. simpl in *. split; [exact (Hun _ _ _ _ _ _ _ Hi Hj Ht Hu) | eauto].
Qed.

Lemma dns_single_leader_witness :
  ∃ s, runs (fun e => match e with Plain => true | _ => false end) (resolver_new 300 30 1)
         (s, [TLead "a" 0; TMiss "a"]) ∧ 0%nat = 0%nat ∧ inflight s !! "a" = Some 0%nat.
Proof.
  set (s := with_inflight {["a" := 0%nat]} 1 (count_miss (count_miss (resolver_new 300 30 1)))).
  assert (Hr : runs (fun e => match e with Plain => true | _ => false end) (resolver_new 300 30 1)
                 (s, [TLead "a" 0; TMiss "a"])).
  { eapply rtc_l; [exists Plain; split; [done | apply (st_spawn _ _ "a")]|].
    eapply rtc_l; [exists Plain; split; [done | apply (st_spawn _ _ "a")]|].
    eapply rtc_l; [exists Plain; split; [done | by apply (st_miss _ _ 0%nat "a" 0)]|].
    eapply rtc_l; [exists Plain; split; [done | by apply (st_miss _ _ 1%nat "a" 0)]|].
    eapply rtc_l; [exists Plain; split; [done | by apply (st_lead _ _ 0%nat "a")]|].
    apply rtc_refl. }
  exists s. split; [exact Hr|].
  apply (dns_single_leader 300 30 1 s [TLead "a" 0; TMiss "a"] 0 0 (TLead "a" 0) (TLead "a" 0) "a" 0 0 Hr);
    reflexivity.
Defined.

(** A resolution is remembered: after a [resolve] that queried upstream, a
    second [resolve] of the same name before the entry's lifetime is over
    returns the same addresses (or the same failure, marked as cached) whatever
    upstream would now say, provided the cache may hold at least one entry and
    the failure lifetime is not zero. *)
Theorem dns_cache_remembers inner inner' s h t1 t2 t3 t4 t5 t6 :
  cache_wf s → (1 ≤ max_entries s)%nat → read_cache t1 h s = None →
  0 < lifetime (inner h) s ∨ is_ok (inner h) = true →
  t3 < t2 + lifetime (inner h) s → t4 < t2 + lifetime (inner h) s →
  let '(r, s') := resolve inner t1 t2 t3 h s in
  r = inner h ∧ (resolve inner' t4 t5 t6 h s').1 = cached_as h (inner h).
Proof.
  intros [Hord Hnd Hidle] Hmax Hmiss Hlife H3 H4.
  unfold resolve at 1. rewrite Hmiss. unfold join_inflight.
  cbn [count_miss with_stats inflight]. rewrite Hidle, lookup_empty. cbn [negb]. split; [done|].
  set (s1 := with_inflight _ _ _).
  assert (Hs1 : cache s1 = cache s ∧ order s1 = order s ∧ max_entries s1 = max_entries s
                ∧ lifetime (inner h) s1 = lifetime (inner h) s) by (by destruct (inner h)).
  clearbody s1. destruct Hs1 as (Hc1 & Ho1 & Hm1 & Hl1).
  rewrite <- Hl1 in *. destruct (store_lookup t2 h (inner h) s1 Hlife) as (e & He & Hx & Hv).
  destruct (store_frame t2 h (inner h) s1) as (_ & Hos & _ & Hms & Hdom).
  assert (Hk : cache (evict_if_needed t3 (touch_order h (store t2 h (inner h) s1))) !! h = Some e).
  { apply (evict_keeps_newest _ _ _ _ (remove_first h (order s1))); simpl; rewrite ?Hos, ?Hms, ?Ho1.
    - by rewrite Hm1.
    - done.
    - destruct (remove_first_nodup h _ Hnd). apply NoDup_app. split_and!; [done | | apply NoDup_singleton].
      intros x Hx' ->%list_elem_of_singleton. done.
    - intros k Hk%Hdom. rewrite <- Ho1, <- Hos. apply touch_order_in.
      destruct Hk as [Hk|<-]; [left | by right]. rewrite Hos, Ho1. apply Hord. by rewrite <- Hc1.
    - done.
    - by rewrite Hx. }
  unfold resolve, read_cache.
  destruct (peek_live t4 h (finish h (evict_if_needed t3 (touch_order h (store t2 h (inner h) s1)))) e)
    as (s' & Hp); [exact Hk | by rewrite Hx |].
  rewrite Hp. simpl. rewrite Hv. by destruct (inner h).
Qed.

Lemma dns_cache_remembers_witness :
  (resolve fails 50 60 70 "a" (resolve answers 0 1 2 "a" (resolver_new 300 30 2)).2).1
  = Ok [V4 1; V6 2].
Proof.
  destruct (dns_cache_remembers answers fails (resolver_new 300 30 2) "a" 0 1 2 50 60 70) as [_ H].
  - split; [|constructor|done]. intros h [? Hh]. simpl in Hh. by rewrite lookup_empty in Hh.
  - simpl. lia.
  - reflexivity.
  - by right.
  - reflexivity.
  - reflexivity.
  - exact H.
Defined.

(** Prefetching never happens for entries whose original lifetime is 103
    seconds or less: 30% of it, computed in binary64 and truncated, is at most
    the 30 seconds that must still remain. *)
Theorem dns_short_ttl_never_prefetched now h s e :
  cache s !! h = Some e → 0 <= as_secs (original_ttl e) <= 103 → should_prefetch now h s = false.
Proof.
  intros Hh Ht. unfold should_prefetch, prefetch_due. rewrite Hh.
  destruct (_ <? _) eqn:E1; [|done]. apply Z.ltb_lt in E1. simpl.
  destruct (_ <=? as_secs _) eqn:E2; [|done]. apply Z.leb_le in E2. exfalso.
  assert (Hth : prefetch_threshold (original_ttl e) <= 30 * NANOS).
  { clear E1 E2. unfold prefetch_threshold. revert Ht. generalize (as_secs (original_ttl e)).
    intros k Hk.
    enough (Hb : forallb (fun n => f64_as_u64 (f64_mul (f64_of_u64 (Z.of_nat n))
                   PREFETCH_THRESHOLD_RATIO) * NANOS <=? 30 * NANOS) (seq 0 104) = true).
    { rewrite forallb_forall in Hb. specialize (Hb (Z.to_nat k)). rewrite Z2Nat.id in Hb by lia.
      apply Z.leb_le, Hb, in_seq. lia. }
    by vm_compute. }
  unfold as_secs, MIN_PREFETCH_TTL_SECS, NANOS in *.
  set (rem := saturating_sub (expires_at e) now) in *.
  Z.div_mod_to_equations. lia.
Qed.

Lemma dns_short_ttl_never_prefetched_witness :
  should_prefetch 50 "a" (resolve answers 0 1 2 "a" (resolver_new 100 30 2)).2 = false.
Proof.
  eapply (dns_short_ttl_never_prefetched 50 "a"); [vm_compute; reflexivity|].
  vm_compute. split; congruence.
Defined.
