(* ===== verification/Resilience.v ===== *)
(** * Retry and circuit breaking ([src/src/app/resilience.rs])

    The backoff delays of a [RetryPolicy], the retry loop, and the circuit
    breaker as a state machine.  Durations and instants are in nanoseconds and
    each breaker operation that reads the clock takes the instant read.  The
    breaker holds its state mutex over each operation, so an operation is one
    step. *)

From S2P Require Import Prelude.

Definition MILLI : Z := 1000000.
(** [d.as_millis() as u64] and [Duration::from_millis]. *)
Definition as_millis_u64 (d : Z) : Z := wrap 64 (d / MILLI).
Definition from_millis (ms : Z) : Z := ms * MILLI.

Record RetryPolicy := {
  max_retries : Z;
  base_delay : Z;
  max_delay : Z;
  jitter : bool
}.

Definition RetryPolicy_default : RetryPolicy :=
  {| max_retries := 3; base_delay := from_millis 200; max_delay := from_millis 10000;
     jitter := true |}.

Definition simple_hash (val : Z) : Z :=
  let h := wrap 64 (val * 6364136223846793005) in
  let h := wrap 64 (h + 1442695040888963407) in
  Z.lxor h (Z.shiftr h 33).

Definition delay_for (p : RetryPolicy) (attempt : Z) : Z :=
  let base_ms := as_millis_u64 (base_delay p) in
  let exp_ms := saturating_mul 64 base_ms (Z.shiftl 1 (Z.min attempt 16)) in
  let capped_ms := Z.min exp_ms (as_millis_u64 (max_delay p)) in
  if jitter p then
    let jitter_range := capped_ms / 4 in
    let j := simple_hash attempt mod (Z.max jitter_range 1) in
    from_millis (saturating_add 64 capped_ms j)
  else from_millis capped_ms.

(** [retry_with_backoff]: the loop over [attempt in 0..=max_retries], counted by
    the attempts remaining; [f] is the outcome of each call.  Returned with the
    result are the attempts made and the delays slept, in order. *)
Section retry.
  Context {E A : Type} (p : RetryPolicy) (f : Z → result E A).

Fixpoint retry_loop (remaining : nat) (attempt : Z) (last_err : option E)
  : option (result E A) * list Z * list Z :=
  match remaining with
  | O => (match last_err with Some e => Some (Err e) | None => None end, [], [])
  | S remaining =>
      match f attempt with
      | Ok v => (Some (Ok v), [attempt], [])
      | Err e =>
          let slept := if attempt <? max_retries p then [delay_for p attempt] else [] in
          let '(r, calls, sleeps) := retry_loop remaining (attempt + 1) (Some e) in
          (r, attempt :: calls, slept ++ sleeps)
      end
  end.

(** The final [last_err.unwrap()]: [None] would be its panic. *)
Definition retry_with_backoff : option (result E A) * list Z * list Z :=
  retry_loop (Z.to_nat (max_retries p + 1)) 0 None.
End retry.

(** ** The circuit breaker *)

Inductive CircuitState := Closed | Open | HalfOpen.
#[export] Instance CircuitState_eq_dec : EqDecision CircuitState.
Proof. solve_decision. Defined.

Record CircuitBreakerConfig := {
  failure_threshold : Z;
  success_threshold : Z;
  open_duration : Z
}.

Definition CircuitBreakerConfig_default : CircuitBreakerConfig :=
  {| failure_threshold := 5; success_threshold := 2; open_duration := from_millis 30000 |}.

Record CircuitBreaker := {
  config : CircuitBreakerConfig;
  state : CircuitState;
  failure_count : Z;
  success_count : Z;
  last_failure_time : option Z
}.

Definition breaker_new (c : CircuitBreakerConfig) : CircuitBreaker :=
  {| config := c; state := Closed; failure_count := 0; success_count := 0;
     last_failure_time := None |}.

Definition set_breaker (st : CircuitState) (fc sc : Z) (lf : option Z) (b : CircuitBreaker) :=
  {| config := config b; state := st; failure_count := fc; success_count := sc;
     last_failure_time := lf |}.

Definition allow_request (now : Z) (b : CircuitBreaker) : bool * CircuitBreaker :=
  match state b with
  | Closed => (true, b)
  | Open =>
      let should_half_open :=
        match last_failure_time b with
        | Some t => open_duration (config b) <=? saturating_sub now t
        | None => false
        end in
      if should_half_open
      then (true, set_breaker HalfOpen (failure_count b) 0 (last_failure_time b) b)
      else (false, b)
  | HalfOpen => (true, b)
  end.

Definition record_success (b : CircuitBreaker) : CircuitBreaker :=
  match state b with
  | HalfOpen =>
      let stored := wrap 64 (success_count b + 1) in
      if success_threshold (config b) <=? success_count b + 1
      then set_breaker Closed 0 0 (last_failure_time b) b
      else set_breaker HalfOpen (failure_count b) stored (last_failure_time b) b
  | Closed => set_breaker Closed 0 (success_count b) (last_failure_time b) b
  | Open => b
  end.

Definition record_failure (now : Z) (b : CircuitBreaker) : CircuitBreaker :=
  match state b with
  | Closed =>
      let stored := wrap 64 (failure_count b + 1) in
      if failure_threshold (config b) <=? failure_count b + 1
      then set_breaker Open stored (success_count b) (Some now) b
      else set_breaker Closed stored (success_count b) (last_failure_time b) b
  | HalfOpen => set_breaker Open (failure_count b) 0 (Some now) b
  | Open => b
  end.

Definition reset (b : CircuitBreaker) : CircuitBreaker := set_breaker Closed 0 0 None b.

(** ** Runs of the breaker *)

Inductive breaker_op := Allow (now : Z) | Success | Failure (now : Z) | Reset.

Definition breaker_step (o : breaker_op) (b : CircuitBreaker) : list bool * CircuitBreaker :=
  match o with
  | Allow now => let '(r, b') := allow_request now b in ([r], b')
  | Success => ([], record_success b)
  | Failure now => ([], record_failure now b)
  | Reset => ([], reset b)
  end.

Fixpoint breaker_run (ops : list breaker_op) (b : CircuitBreaker) : list bool * CircuitBreaker :=
  match ops with
  | [] => ([], b)
  | o :: ops =>
      let '(r, b1) := breaker_step o b in
      let '(rs, b2) := breaker_run ops b1 in (r ++ rs, b2)
  end.

(** What every reachable breaker satisfies: an open breaker knows since when,
    the counters below their thresholds in the states that use them. *)
Record breaker_inv (b : CircuitBreaker) : Prop := {
  bi_open : state b = Open → is_Some (last_failure_time b);
  bi_closed : state b = Closed →
    0 <= failure_count b ∧ (failure_count b = 0 ∨ failure_count b < failure_threshold (config b));
  bi_half : state b = HalfOpen →
    0 <= success_count b ∧ (success_count b = 0 ∨ success_count b < success_threshold (config b))
}.

Lemma breaker_step_inv o b :
  failure_threshold (config b) < 2 ^ 32 → success_threshold (config b) < 2 ^ 32 →
  breaker_inv b → breaker_inv (breaker_step o b).2 ∧ config (breaker_step o b).2 = config b.
Proof.
  intros Hf Hs [Ho Hc Hh]. destruct b as [cfg st fc sc lf]; simpl in *.
  destruct o as [now| |now|]; simpl.
  - unfold allow_request. simpl. destruct st; simpl; [done| |done].
    destruct lf as [t|]; simpl; [|done]. destruct (_ <=? _); simpl; [|done].
    split; [|done]. split; simpl; try done. intros _. lia.
  - unfold record_success. simpl. destruct st; simpl; [|done|].
    + split; [|done]. split; simpl; try done. intros _. lia.
    + destruct (_ <=? _) eqn:E; simpl; (split; [|done]); split; simpl; try done; intros _.
      { lia. }
      apply Z.leb_gt in E. destruct (Hh eq_refl). rewrite wrap_small by (unfold in_width; lia). lia.
  - unfold record_failure. simpl. destruct st; simpl; [|done|].
    + destruct (_ <=? _) eqn:E; simpl; (split; [|done]); split; simpl; try done; intros _.
      apply Z.leb_gt in E. destruct (Hc eq_refl). rewrite wrap_small by (unfold in_width; lia). lia.
    + split; [|done]. by split.
  - split; [|done]. split; simpl; try done. intros _. lia.
Qed.

Lemma breaker_run_inv ops b :
  failure_threshold (config b) < 2 ^ 32 → success_threshold (config b) < 2 ^ 32 →
  breaker_inv b → breaker_inv (breaker_run ops b).2 ∧ config (breaker_run ops b).2 = config b.
Proof.
  revert b. induction ops as [|o ops IH]; intros b Hf Hs Hb; [done|]. cbn [breaker_run].
  destruct (breaker_step_inv o b Hf Hs Hb) as [Hb' Hc'].
  destruct (breaker_step o b) as [r b1]. simpl in *. rewrite <- Hc' in Hf, Hs.
  specialize (IH b1 Hf Hs Hb'). destruct (breaker_run ops b1) as [rs b2]. simpl in *.
  by rewrite <- Hc'.
Qed.

Lemma breaker_new_inv c : breaker_inv (breaker_new c).
Proof. split; simpl; try done. intros _. lia. Qed.

(** [n] failures in a row on a closed breaker. *)
Lemma failures_closed n now b :
  state b = Closed → 0 <= failure_count b → failure_threshold (config b) < 2 ^ 32 →
  failure_count b + Z.of_nat n < failure_threshold (config b) →
  (breaker_run (replicate n (Failure now)) b).2
  = set_breaker Closed (failure_count b + Z.of_nat n) (success_count b) (last_failure_time b) b.
Proof.
  revert b. induction n as [|n IH]; intros b Hst H0 Hth Hn.
  - simpl. destruct b; simpl in *; subst. unfold set_breaker. simpl. by rewrite Z.add_0_r.
  - assert (E : record_failure now b
      = set_breaker Closed (failure_count b + 1) (success_count b) (last_failure_time b) b).
    { unfold record_failure. rewrite Hst, (proj2 (Z.leb_gt _ _)) by lia.
      rewrite wrap_small by (unfold in_width; lia). done. }
    cbn [replicate breaker_run breaker_step]. rewrite E.
    specialize (IH (set_breaker Closed (failure_count b + 1) (success_count b) (last_failure_time b) b)).
    destruct (breaker_run _ _) as [rs b2]. simpl in *. rewrite IH by (done || lia).
    unfold set_breaker. simpl. f_equal. lia.
Qed.

(** ** The retry loop *)

Lemma is_ok_Err {E A} (r : result E A) : is_ok r = false → ∃ e, r = Err e.
Proof. destruct r; [discriminate | eauto]. Qed.

Lemma retry_success {E A} (p : RetryPolicy) (f : Z → result E A) k remaining attempt last v :
  attempt + Z.of_nat remaining = max_retries p + 1 → (k < remaining)%nat →
  f (attempt + Z.of_nat k) = Ok v →
  (∀ j, (j < k)%nat → is_ok (f (attempt + Z.of_nat j)) = false) →
  retry_loop p f remaining attempt last
  = (Some (Ok v), seqZ attempt (Z.of_nat (S k)), delay_for p <$> seqZ attempt (Z.of_nat k)).
Proof.
  revert remaining attempt last. induction k as [|k IH]; intros remaining attempt last Hb Hk Hok Hf;
    (destruct remaining as [|remaining]; [lia|]); cbn [retry_loop].
  - rewrite Z.add_0_r in Hok. rewrite Hok. done.
  - destruct (is_ok_Err (f attempt)) as [e ->]; [rewrite <- (Z.add_0_r attempt); apply (Hf 0%nat); lia|].
    rewrite (IH remaining (attempt + 1) (Some e)); [|lia|lia| |].
    + rewrite (proj2 (Z.ltb_lt _ _)) by lia. rewrite (seqZ_cons attempt (Z.of_nat (S (S k)))) by lia.
      rewrite (seqZ_cons attempt (Z.of_nat (S k))) by lia. cbn [fmap list_fmap app].
      replace (Z.pred (Z.of_nat (S (S k)))) with (Z.of_nat (S k)) by lia.
      replace (Z.pred (Z.of_nat (S k))) with (Z.of_nat k) by lia. done.
    + rewrite <- Hok. f_equal. lia.
    + intros j Hj. specialize (Hf (S j) ltac:(lia)). rewrite <- Hf. do 2 f_equal. lia.
Qed.

Lemma retry_failure {E A} (p : RetryPolicy) (f : Z → result E A) n attempt last e :
  attempt + Z.of_nat n = max_retries p →
  (∀ j, (j ≤ n)%nat → is_ok (f (attempt + Z.of_nat j)) = false) → f (max_retries p) = Err e →
  retry_loop p f (S n) attempt last
  = (Some (Err e), seqZ attempt (Z.of_nat (S n)), delay_for p <$> seqZ attempt (Z.of_nat n)).
Proof.
  revert attempt last. induction n as [|n IH]; intros attempt last Hb Hf He.
  - replace attempt with (max_retries p) by lia. cbn [retry_loop].
    rewrite He, Z.ltb_irrefl. done.
  - cbn [retry_loop].
    destruct (is_ok_Err (f attempt)) as [e' ->]; [rewrite <- (Z.add_0_r attempt); apply (Hf 0%nat); lia|].
    cbn [retry_loop] in IH. rewrite (IH (attempt + 1) (Some e')); [|lia| |done].
    + rewrite (proj2 (Z.ltb_lt _ _)) by lia. rewrite (seqZ_cons attempt (Z.of_nat (S (S n)))) by lia.
      rewrite (seqZ_cons attempt (Z.of_nat (S n))) by lia. cbn [fmap list_fmap app].
      replace (Z.pred (Z.of_nat (S (S n)))) with (Z.of_nat (S n)) by lia.
      replace (Z.pred (Z.of_nat (S n))) with (Z.of_nat n) by lia. done.
    + intros j Hj. specialize (Hf (S j) ltac:(lia)). rewrite <- Hf. do 2 f_equal. lia.
Qed.

(** ** Properties *)

(** The circuit breaker opens on exactly the configured number of failures
    in a row: from the closed state with a clean count, fewer failures than the
    threshold leave it closed, and the one that reaches the threshold opens it,
    recording the time; requests were let through all along and the next one is
    refused until the open period is over. *)
Theorem breaker_opens_at_threshold c n now1 now2 :
  0 < failure_threshold c < 2 ^ 32 → Z.of_nat n < failure_threshold c →
  let b := (breaker_run (replicate n (Failure now1)) (breaker_new c)).2 in
  state b = Closed ∧ (allow_request now2 b).1 = true
  ∧ (Z.of_nat (S n) = failure_threshold c →
     let b' := record_failure now2 b in
     state b' = Open ∧ last_failure_time b' = Some now2
     ∧ (allow_request now2 b').1 = bool_decide (open_duration c <= 0)).
Proof.
  intros Hth Hn b. assert (Hb : b = set_breaker Closed (Z.of_nat n) 0 None (breaker_new c)).
  { unfold b. rewrite failures_closed; simpl; done || lia. }
  rewrite Hb. split_and!; [done | done |]. intros Heq. cbv zeta. unfold record_failure. simpl.
  rewrite (proj2 (Z.leb_le _ _)) by lia. simpl. split_and!; [done | done |].
  unfold allow_request. simpl. unfold saturating_sub. rewrite Z.sub_diag, Z.max_id.
  destruct (open_duration c <=? 0) eqn:E; simpl; symmetry.
  - apply Z.leb_le in E. by apply bool_decide_eq_true.
  - apply Z.leb_gt in E. apply bool_decide_eq_false. lia.
Qed.

Lemma breaker_opens_at_threshold_witness :
  let b := (breaker_run (replicate 4 (Failure 7)) (breaker_new CircuitBreakerConfig_default)).2 in
  state b = Closed ∧ (allow_request 9 b).1 = true
  ∧ (5 = 5 → let b' := record_failure 9 b in
     state b' = Open ∧ last_failure_time b' = Some 9
     ∧ (allow_request 9 b').1 = bool_decide (open_duration CircuitBreakerConfig_default <= 0)).
Proof.
  apply (breaker_opens_at_threshold CircuitBreakerConfig_default 4 7 9); simpl; lia.
Defined.

(** An open circuit breaker blocks for its whole open period: whatever
    successes and failures late requests still report and whenever it is asked,
    as long as nobody resets it, every request before the period is over is
    refused and the breaker stays as it is; the first request after the period
    is let through as a probe with the success count cleared. *)
Theorem breaker_open_period b t ops now :
  state b = Open → last_failure_time b = Some t →
  Forall (fun o => match o with
                   | Allow n => saturating_sub n t < open_duration (config b)
                   | Reset => False
                   | _ => True end) ops →
  open_duration (config b) <= saturating_sub now t →
  let '(rs, b') := breaker_run ops b in
  Forall (eq false) rs ∧ b' = b
  ∧ allow_request now b' = (true, set_breaker HalfOpen (failure_count b) 0 (Some t) b).
Proof.
  intros Hst Hlf Hops Hnow.
  assert (Hrun : ∃ rs, breaker_run ops b = (rs, b) ∧ Forall (eq false) rs).
  { induction Hops as [|o ops Ho Hops IH]; [by exists []|]. destruct IH as (rs & Hr & Hf).
    destruct o as [n| |n|]; simpl; [| | |done].
    - unfold allow_request. rewrite Hst, Hlf, (proj2 (Z.leb_gt _ _)) by done. rewrite Hr.
      exists (false :: rs). split; [done | by constructor].
    - unfold record_success. rewrite Hst, Hr. by exists rs.
    - unfold record_failure. rewrite Hst, Hr. by exists rs. }
  destruct Hrun as (rs & -> & Hf). split_and!; [done | done |].
  unfold allow_request. rewrite Hst, Hlf, (proj2 (Z.leb_le _ _)) by done. done.
Qed.

Definition sample_open : CircuitBreaker :=
  {| config := {| failure_threshold := 2; success_threshold := 1; open_duration := 100 |};
     state := Open; failure_count := 2; success_count := 0; last_failure_time := Some 10 |}.

Lemma breaker_open_period_witness :
  let '(rs, b') := breaker_run [Allow 50; Success; Failure 60; Allow 109] sample_open in
  Forall (eq false) rs ∧ b' = sample_open
  ∧ allow_request 110 b' = (true, set_breaker HalfOpen 2 0 (Some 10) sample_open).
Proof.
  apply (breaker_open_period sample_open 10 [Allow 50; Success; Failure 60; Allow 109] 110);
    [reflexivity | reflexivity | repeat constructor | vm_compute; congruence].
Defined.

(** In every state a circuit breaker can reach from [new], whatever the
    calls, an open breaker has the time it opened (so it can always half-open
    again), a closed one has fewer failures in a row than its threshold (or
    none), and a half-open one fewer probe successes than its threshold. *)
Theorem breaker_invariant c ops :
  failure_threshold c < 2 ^ 32 → success_threshold c < 2 ^ 32 →
  breaker_inv (breaker_run ops (breaker_new c)).2.
Proof. intros Hf Hs. by apply breaker_run_inv; [..|apply breaker_new_inv]. Qed.

Lemma breaker_invariant_witness :
  breaker_inv (breaker_run [Failure 1; Failure 2; Allow 500; Success]
                 (breaker_new (config sample_open))).2.
Proof. apply breaker_invariant; reflexivity. Defined.

(** Retry delays are bounded: the delay of an attempt is at least the
    doubled base delay capped at [max_delay], and less than a quarter above that
    cap (or at most one millisecond for tiny delays); without jitter it is
    exactly the capped value.  With jitter a delay can exceed [max_delay]. *)
Theorem retry_delay_bounds p attempt :
  0 <= attempt → 0 <= base_delay p → 0 <= max_delay p ->
  let cap := Z.min (saturating_mul 64 (as_millis_u64 (base_delay p)) (2 ^ Z.min attempt 16))
                   (as_millis_u64 (max_delay p)) in
  (jitter p = false → delay_for p attempt = from_millis cap)
  ∧ from_millis cap <= delay_for p attempt
  ∧ delay_for p attempt <= from_millis (cap + Z.max (cap / 4) 1 - 1).
Proof.
  intros Ha Hb Hm cap. unfold delay_for. rewrite Z.shiftl_mul_pow2, Z.mul_1_l by lia. fold cap.
  assert (Hcap : 0 <= cap <= 2 ^ 64 - 1).
  { unfold cap, as_millis_u64. pose proof (wrap_range 64 (base_delay p / MILLI) ltac:(lia)).
    pose proof (wrap_range 64 (max_delay p / MILLI) ltac:(lia)).
    pose proof (Z.pow_pos_nonneg 2 (Z.min attempt 16) ltac:(lia) ltac:(lia)).
    unfold saturating_mul, in_width in *. nia. }
  set (m := Z.max (cap / 4) 1). assert (Hm1 : 1 <= m) by lia.
  pose proof (Z.mod_pos_bound (simple_hash attempt) m ltac:(lia)) as Hj.
  unfold from_millis, saturating_add, MILLI. destruct (jitter p).
  - split_and!; [done | lia | lia].
  - split_and!; [done | lia |]. lia.
Qed.

Lemma retry_delay_bounds_witness :
  delay_for RetryPolicy_default 10 <= from_millis (10000 + Z.max (10000 / 4) 1 - 1).
Proof.
  destruct (retry_delay_bounds RetryPolicy_default 10) as (_ & _ & H);
    [lia | vm_compute; congruence | vm_compute; congruence | exact H].
Defined.

(** [retry_with_backoff] calls until the first success, at most
    [max_retries] + 1 times, and sleeps the policy's delay between two calls and
    never after the last: if attempt [k] is the first to succeed its value is
    returned after the calls 0..k and [k] sleeps; if every attempt fails the last
    error is returned, so the final [unwrap] never panics. *)
Theorem retry_calls_and_sleeps {E A} (p : RetryPolicy) (f : Z → result E A) :
  0 <= max_retries p →
  (∀ k v, (k ≤ Z.to_nat (max_retries p))%nat → f (Z.of_nat k) = Ok v →
     (∀ j, (j < k)%nat → is_ok (f (Z.of_nat j)) = false) →
     retry_with_backoff p f
     = (Some (Ok v), seqZ 0 (Z.of_nat (S k)), delay_for p <$> seqZ 0 (Z.of_nat k)))
  ∧ (∀ e, f (max_retries p) = Err e →
     (∀ j, (j ≤ Z.to_nat (max_retries p))%nat → is_ok (f (Z.of_nat j)) = false) →
     retry_with_backoff p f
     = (Some (Err e), seqZ 0 (max_retries p + 1), delay_for p <$> seqZ 0 (max_retries p))).
Proof.
  intros Hm. unfold retry_with_backoff. split.
  - intros k v Hk Hok Hfail. apply (retry_success p f k _ 0 None v); try lia; try done.
  - intros e He Hfail. replace (max_retries p + 1) with (Z.of_nat (S (Z.to_nat (max_retries p)))) by lia.
    rewrite Nat2Z.id.
    rewrite (retry_failure p f (Z.to_nat (max_retries p)) 0 None e); [|lia| |done].
    + rewrite Z2Nat.id by lia. done.
    + intros j Hj. apply Hfail. lia.
Qed.

Definition third_time (a : Z) : result Z Z := if a <? 2 then Err a else Ok 42.

Lemma retry_calls_and_sleeps_witness :
  retry_with_backoff RetryPolicy_default third_time
  = (Some (Ok 42), seqZ 0 3, delay_for RetryPolicy_default <$> seqZ 0 2).
Proof.
  apply (proj1 (retry_calls_and_sleeps RetryPolicy_default third_time ltac:(simpl; lia)) 2%nat 42);
    [simpl; lia | reflexivity |].
  intros [|[|j]] Hj; [reflexivity | reflexivity | lia].
Defined.
