(* ===== verification/NatTable.v ===== *)
(** * The Full Cone NAT table ([src/src/proxy/nat.rs], [src/src/app/dispatcher.rs])

    Flow entries with an idle timeout, the reverse index by outbound, the
    source map that keeps one outbound transport per client source, the cleanup
    of expired entries, and the dispatcher's use of the table for a UDP packet.
    Entries share their last-activity cell with their clones: the cells live in
    a heap that entries refer to.  A transport is its identity; time is in
    milliseconds since the epoch.  The methods lock the three maps one after the
    other: each section under a lock is a definition here, and a call is their
    composition, as it runs when no other task comes in between ([NatSteps] has the
    sections of concurrent tasks interleave). *)

From S2P Require Import Prelude RustStr Addr.

Definition DEFAULT_NAT_TTL_SECS : Z := 120.

Record NatKey := { source : SocketAddr; dest : Address }.

#[export] Instance NatKey_eq_dec : EqDecision NatKey.
Proof. solve_decision. Defined.
#[export] Instance NatKey_countable : Countable NatKey.
Proof.
  refine (inj_countable' (fun k => (source k, dest k))
            (fun '(s, d) => {| source := s; dest := d |}) _).
  by intros [].
Defined.

Record NatEntry := {
  transport : nat;
  outbound_tag : string;
  last_active : nat;
  ttl_ms : Z
}.

Record NatTable := {
  entries : gmap NatKey NatEntry;
  reverse : gmap string (list (NatKey * SocketAddr));
  source_map : gmap (SocketAddr * string) nat;
  ttl_secs : Z;
  cells : list Z
}.

Definition with_ttl (ttl : Z) : NatTable :=
  {| entries := ∅; reverse := ∅; source_map := ∅; ttl_secs := ttl; cells := [] |}.
Definition table_new : NatTable := with_ttl DEFAULT_NAT_TTL_SECS.

Definition with_cells (c : list Z) (t : NatTable) : NatTable :=
  {| entries := entries t; reverse := reverse t; source_map := source_map t;
     ttl_secs := ttl_secs t; cells := c |}.

(** [NatEntry::new] allocates the activity cell. *)
Definition entry_new (tr : nat) (tag : string) (now : Z) (t : NatTable) : NatEntry * NatTable :=
  ({| transport := tr; outbound_tag := tag; last_active := length (cells t);
      ttl_ms := ttl_secs t * 1000 |}, with_cells (cells t ++ [now]) t).

Definition touch (e : NatEntry) (now : Z) (t : NatTable) : NatTable :=
  with_cells (<[last_active e := now]> (cells t)) t.

Definition is_expired (e : NatEntry) (now : Z) (t : NatTable) : bool :=
  ttl_ms e <? now - default 0 (cells t !! last_active e).

Definition get (k : NatKey) (now : Z) (t : NatTable) : option NatEntry :=
  match entries t !! k with
  | Some e => if is_expired e now t then None else Some e
  | None => None
  end.

(** The three sections of [insert]: under the lock of the entries (when the key is
    free), of the reverse index, of the source map. *)
Definition set_maps (en : gmap NatKey NatEntry) (rev : gmap string (list (NatKey * SocketAddr)))
    (srcs : gmap (SocketAddr * string) nat) (t : NatTable) : NatTable :=
  {| entries := en; reverse := rev; source_map := srcs; ttl_secs := ttl_secs t; cells := cells t |}.
Definition add_entry (k : NatKey) (e : NatEntry) (t : NatTable) : NatTable :=
  set_maps (<[k := e]> (entries t)) (reverse t) (source_map t) t.
Definition add_reverse (k : NatKey) (e : NatEntry) (t : NatTable) : NatTable :=
  set_maps (entries t)
    (<[outbound_tag e := default [] (reverse t !! outbound_tag e) ++ [(k, source k)]]> (reverse t)) (source_map t) t.
Definition add_source (k : NatKey) (e : NatEntry) (t : NatTable) : NatTable :=
  set_maps (entries t) (reverse t)
    (match source_map t !! (source k, outbound_tag e) with
     | Some _ => source_map t
     | None => <[(source k, outbound_tag e) := transport e]> (source_map t)
     end) t.
Definition insert_entry (k : NatKey) (e : NatEntry) (t : NatTable) : bool * NatTable :=
  match entries t !! k with
  | Some _ => (false, t)
  | None => (true, add_source k e (add_reverse k e (add_entry k e t)))
  end.

Definition get_transport_for_source (src : SocketAddr) (tag : string) (t : NatTable) : option nat :=
  source_map t !! (src, tag).

Definition get_or_insert (k : NatKey) (tr : nat) (tag : string) (now : Z) (t : NatTable)
  : NatEntry * bool * NatTable :=
  match get k now t with
  | Some e => (e, false, touch e now t)
  | None =>
      let '(e, t1) := entry_new tr tag now t in
      let '(is_new, t2) := insert_entry k e t1 in
      (e, is_new, t2)
  end.

(** The retained part of the reverse index. *)
Definition prune_reverse (expired : list NatKey) (rev : gmap string (list (NatKey * SocketAddr)))
  : gmap string (list (NatKey * SocketAddr)) :=
  filter (fun '(_, v) => v ≠ []) ((fun v => filter (fun '(k, _) => k ∉ expired) v) <$> rev).

Definition has_active (src : SocketAddr) (tag : string) (m : gmap NatKey NatEntry) : bool :=
  existsb (fun '(k, e) => bool_decide (source k = src) && String.eqb (outbound_tag e) tag)
          (map_to_list m).

Definition prune_sources (gone : list (SocketAddr * string)) (active : gmap NatKey NatEntry)
    (srcs : gmap (SocketAddr * string) nat) : gmap (SocketAddr * string) nat :=
  fold_left (fun m '(src, tag) => if has_active src tag active then m else delete (src, tag) m)
            gone srcs.

(** The flows that have expired, and the three sections of [cleanup]: under the lock
    of the entries, of the reverse index, and of the entries and the source map. *)
Definition expired_flows (now : Z) (t : NatTable) : list (NatKey * NatEntry) :=
  filter (fun '(_, e) => is_expired e now t = true) (map_to_list (entries t)).
Definition remove_keys (ks : list NatKey) (t : NatTable) : NatTable :=
  set_maps (fold_left (fun m k => delete k m) ks (entries t)) (reverse t) (source_map t) t.
Definition clean_reverse (ks : list NatKey) (t : NatTable) : NatTable :=
  set_maps (entries t) (prune_reverse ks (reverse t)) (source_map t) t.
Definition clean_sources (gone : list (SocketAddr * string)) (t : NatTable) : NatTable :=
  set_maps (entries t) (reverse t) (prune_sources gone (entries t) (source_map t)) t.
Definition flow_source (f : NatKey * NatEntry) : SocketAddr * string := (source f.1, outbound_tag f.2).
Definition cleanup (now : Z) (t : NatTable) : nat * NatTable :=
  let expired := expired_flows now t in
  let left := remove_keys expired.*1 t in
  let removed := (size (entries t) - size (entries left))%nat in
  (removed,
   if (0 <? removed)%nat then clean_sources (flow_source <$> expired) (clean_reverse expired.*1 left) else left).

Definition table_len (t : NatTable) : nat := size (entries t).
Definition table_is_empty (t : NatTable) : bool := bool_decide (entries t = ∅).

(** The dispatcher's lookup for one packet: [connect] is the transport a new
    outbound connection would give, [None] when the outbound is missing or the
    connection fails.  Returns the entry, whether to spawn a reverse relay, and
    the table; [None] when the packet is dropped. *)
Definition udp_flow (k : NatKey) (tag : string) (connect : option nat) (now : Z) (t : NatTable)
  : option (NatEntry * bool) * NatTable :=
  match get k now t with
  | Some e => (Some (e, false), touch e now t)
  | None =>
      let tr := match get_transport_for_source (source k) tag t with
                | Some tr => Some tr
                | None => connect
                end in
      match tr with
      | None => (None, t)
      | Some tr =>
          let '(e, is_new, t') := get_or_insert k tr tag now t in (Some (e, is_new), t')
      end
  end.

(** ** Invariant *)

(** Every flow is served by its source's transport, and the reverse index lists
    exactly the flows of each outbound. *)
Record nat_wf (t : NatTable) : Prop := {
  wf_cone : ∀ k e, entries t !! k = Some e →
    source_map t !! (source k, outbound_tag e) = Some (transport e);
  wf_source : ∀ src tag tr, source_map t !! (src, tag) = Some tr →
    ∃ k e, entries t !! k = Some e ∧ source k = src ∧ outbound_tag e = tag;
  wf_reverse : ∀ tag k s, (∃ l, reverse t !! tag = Some l ∧ (k, s) ∈ l) ↔
    (∃ e, entries t !! k = Some e ∧ outbound_tag e = tag ∧ s = source k);
  wf_nonempty : ∀ tag, reverse t !! tag ≠ Some [];
  wf_cells : ∀ k e, entries t !! k = Some e → (last_active e < length (cells t))%nat
}.

Lemma with_ttl_wf ttl : nat_wf (with_ttl ttl).
Proof.
  split; simpl; intros *; rewrite ?lookup_empty; try done. split; [by intros (l & H & _)|].
  intros (e & H & _). done.
Qed.

Lemma touch_wf e now t : nat_wf t → nat_wf (touch e now t).
Proof. intros [H1 H2 H3 H4 H5]. split; simpl; try done. intros k e' H. rewrite length_insert. eauto. Qed.

Lemma entry_new_wf tr tag now t : nat_wf t → nat_wf (entry_new tr tag now t).2.
Proof.
  intros [H1 H2 H3 H4 H5]. split; simpl; try done. intros k e H. rewrite length_app.
  specialize (H5 _ _ H). simpl. lia.
Qed.

Lemma insert_reverse t k e :
  nat_wf t → entries t !! k = None →
  ∀ tag k' s,
  (∃ l, <[outbound_tag e := default [] (reverse t !! outbound_tag e) ++ [(k, source k)]]>
          (reverse t) !! tag = Some l ∧ (k', s) ∈ l) ↔
  (∃ e', <[k := e]> (entries t) !! k' = Some e' ∧ outbound_tag e' = tag ∧ s = source k').
Proof.
  intros Hwf Hk tag k' s. pose proof (wf_reverse t Hwf tag k' s) as Hr.
  destruct (decide (outbound_tag e = tag)) as [<-|Ht].
  - rewrite lookup_insert_eq. split.
    + intros (l & [= <-] & [Hin|Hin%list_elem_of_singleton]%elem_of_app).
      * destruct (proj1 Hr) as (e' & He' & Hrest).
        { destruct (reverse t !! outbound_tag e) eqn:E; [eauto | by apply not_elem_of_nil in Hin]. }
        exists e'. rewrite lookup_insert_ne by congruence. done.
      * simplify_eq. exists e. by rewrite lookup_insert_eq.
    + intros (e' & He' & Htag & ->). eexists. split; [done|]. apply elem_of_app.
      destruct (decide (k = k')) as [<-|Hne].
      * right. by apply list_elem_of_singleton.
      * rewrite lookup_insert_ne in He' by done. left.
        destruct (proj2 Hr) as (l & -> & Hin); [eauto | done].
  - rewrite lookup_insert_ne by done. rewrite Hr. split; intros (e' & He' & Htag & ->); exists e'.
    + rewrite lookup_insert_ne by congruence. done.
    + destruct (decide (k = k')) as [<-|Hne].
      * rewrite lookup_insert_eq in He'. simplify_eq.
      * by rewrite lookup_insert_ne in He' by done.
Qed.

(** Inserting a flow served by its source's transport. *)
Lemma insert_entry_wf k e t :
  nat_wf t → (last_active e < length (cells t))%nat →
  (∀ tr, source_map t !! (source k, outbound_tag e) = Some tr → tr = transport e) →
  nat_wf (insert_entry k e t).2.
Proof.
  intros Hwf Hcell Hsrc. unfold insert_entry. destruct (entries t !! k) as [e0|] eqn:Ek; [done|].
  pose proof Hwf as [H1 H2 H3 H4 H5].
  set (srcs := match source_map t !! (source k, outbound_tag e) with
               | Some _ => source_map t
               | None => <[(source k, outbound_tag e) := transport e]> (source_map t) end).
  assert (Hs : srcs = <[(source k, outbound_tag e) := transport e]> (source_map t)).
  { unfold srcs. destruct (source_map t !! _) as [tr|] eqn:E; [|done].
    rewrite <- (Hsrc tr eq_refl). by rewrite insert_id. }
  split; cbn [snd entries reverse source_map cells add_source add_reverse add_entry set_maps]; fold srcs; rewrite ?Hs.
  - intros k' e' [[<- <-]|[Hne H]]%lookup_insert_Some; [by rewrite lookup_insert_eq|].
    destruct (decide ((source k, outbound_tag e) = (source k', outbound_tag e'))) as [Heq|Hneq].
    + rewrite Heq, lookup_insert_eq. apply H1 in H. rewrite <- Heq in H. by rewrite (Hsrc _ H).
    + rewrite lookup_insert_ne by done. by apply H1.
  - intros src tag tr [[[= <- <-] _]|[_ H]]%lookup_insert_Some.
    + exists k, e. by rewrite lookup_insert_eq.
    + destruct (H2 _ _ _ H) as (k' & e' & He' & ? & ?). exists k', e'.
      rewrite lookup_insert_ne by congruence. done.
  - by apply insert_reverse.
  - intros tag. destruct (decide (outbound_tag e = tag)) as [<-|Ht].
    + rewrite lookup_insert_eq. intros [= H]. by apply app_nil in H as [_ H].
    + rewrite lookup_insert_ne by done. apply H4.
  - intros k' e' [[_ <-]|[_ H]]%lookup_insert_Some; [done | eauto].
Qed.

Lemma udp_flow_wf k tag connect now t : nat_wf t → nat_wf (udp_flow k tag connect now t).2.
Proof.
  intros Hwf. unfold udp_flow. destruct (get k now t) as [e|] eqn:Eg; [by apply touch_wf|].
  set (tr := match get_transport_for_source (source k) tag t with Some tr => Some tr | None => connect end).
  destruct tr as [tr0|] eqn:Etr; [|done]. unfold get_or_insert. rewrite Eg.
  pose proof (entry_new_wf tr0 tag now t Hwf) as Hnew.
  destruct (entry_new tr0 tag now t) as [e t1] eqn:Ee. cbn [snd] in Hnew.
  pose proof (insert_entry_wf k e t1 Hnew) as Hins.
  destruct (insert_entry k e t1) as [b t2]. cbn [snd] in *. apply Hins; injection Ee as <- <-.
  - simpl. rewrite length_app. simpl. lia.
  - simpl. intros tr1 Htr. unfold tr, get_transport_for_source in Etr. rewrite Htr in Etr. congruence.
Qed.

(** ** Cleanup *)

Definition live (now : Z) (t : NatTable) : gmap NatKey NatEntry :=
  filter (fun '(_, e) => is_expired e now t = false) (entries t).

Lemma fold_delete_lookup (ks : list NatKey) (m : gmap NatKey NatEntry) k :
  fold_left (fun m k => delete k m) ks m !! k = if decide (k ∈ ks) then None else m !! k.
Proof.
  revert m. induction ks as [|x ks IH]; intros m; cbn [fold_left].
  - by rewrite decide_False by apply not_elem_of_nil.
  - rewrite IH. destruct (decide (k ∈ ks)) as [H|H].
    + by rewrite decide_True by (by apply list_elem_of_further).
    + destruct (decide (k = x)) as [->|Hne].
      * rewrite lookup_delete_eq, decide_True by apply list_elem_of_here. done.
      * rewrite lookup_delete_ne, decide_False; [done | | done].
        intros [->|?]%elem_of_cons; done.
Qed.

Lemma expired_flows_spec now t k e :
  (k, e) ∈ expired_flows now t ↔ entries t !! k = Some e ∧ is_expired e now t = true.
Proof.
  unfold expired_flows. rewrite list_elem_of_filter. rewrite elem_of_map_to_list. tauto.
Qed.

Lemma expired_keys_spec now t k :
  k ∈ (expired_flows now t).*1 ↔ ∃ e, entries t !! k = Some e ∧ is_expired e now t = true.
Proof.
  rewrite list_elem_of_fmap. split.
  - intros ([k' e] & -> & H%expired_flows_spec). eauto.
  - intros (e & H). exists (k, e). by rewrite expired_flows_spec.
Qed.

Lemma cleanup_left now t :
  fold_left (fun m k => delete k m) (expired_flows now t).*1 (entries t) = live now t.
Proof.
  apply map_eq. intros k. rewrite fold_delete_lookup. unfold live.
  destruct (entries t !! k) as [e|] eqn:E.
  - destruct (is_expired e now t) eqn:Ex.
    + rewrite decide_True by (apply expired_keys_spec; eauto). symmetry.
      apply map_lookup_filter_None. right. intros e' He'. simplify_eq. by rewrite Ex.
    + rewrite decide_False; [symmetry; by apply map_lookup_filter_Some|].
      intros (e' & He' & Ht)%expired_keys_spec. simplify_eq. congruence.
  - destruct (decide _); symmetry; apply map_lookup_filter_None; by left.
Qed.

Lemma has_active_spec src tag m :
  has_active src tag m = true ↔ ∃ k e, m !! k = Some e ∧ source k = src ∧ outbound_tag e = tag.
Proof.
  unfold has_active. rewrite existsb_exists. split.
  - intros ([k e] & Hin & H). exists k, e. apply andb_true_iff in H as [H1 H2].
    apply bool_decide_eq_true in H1. apply String.eqb_eq in H2.
    apply list_elem_of_In, elem_of_map_to_list in Hin. done.
  - intros (k & e & Hk & <- & <-). exists (k, e). split.
    + by apply list_elem_of_In, elem_of_map_to_list.
    + rewrite bool_decide_true by done. by rewrite String.eqb_refl.
Qed.

Lemma prune_sources_lookup gone active srcs p :
  prune_sources gone active srcs !! p
  = if decide (p ∈ gone ∧ has_active p.1 p.2 active = false) then None else srcs !! p.
Proof.
  unfold prune_sources. revert srcs. induction gone as [|[src tag] gone IH]; intros srcs; cbn [fold_left].
  - rewrite decide_False; [done|]. intros [H _]. by apply not_elem_of_nil in H.
  - rewrite IH. destruct (decide (p ∈ gone ∧ _)) as [[H1 H2]|H1].
    + rewrite decide_True; [done|]. split; [by apply list_elem_of_further | done].
    + destruct (has_active src tag active) eqn:Ea.
      * rewrite decide_False; [done|]. intros [[->|H]%elem_of_cons H2]; simpl in *; [congruence|].
        by apply H1.
      * destruct (decide (p = (src, tag))) as [->|Hne].
        -- rewrite lookup_delete_eq, decide_True; [done|]. split; [apply list_elem_of_here | done].
        -- rewrite lookup_delete_ne, decide_False; [done| |done].
           intros [[->|H]%elem_of_cons H2]; [done|]. by apply H1.
Qed.

Lemma prune_reverse_lookup expired rev tag l :
  prune_reverse expired rev !! tag = Some l ↔
  ∃ l0, rev !! tag = Some l0 ∧ l = filter (fun '(k, _) => k ∉ expired) l0 ∧ l ≠ [].
Proof.
  unfold prune_reverse. rewrite map_lookup_filter_Some, lookup_fmap, fmap_Some. split.
  - intros [(l0 & Hl & ->) Hne]. eauto.
  - intros (l0 & Hl & -> & Hne). eauto.
Qed.

Lemma prune_reverse_in expired rev tag k s :
  (∃ l, prune_reverse expired rev !! tag = Some l ∧ (k, s) ∈ l) ↔
  (∃ l, rev !! tag = Some l ∧ (k, s) ∈ l) ∧ k ∉ expired.
Proof.
  split.
  - intros (l & (l0 & Hl & -> & _)%prune_reverse_lookup & Hin).
    apply list_elem_of_filter in Hin as [? ?]. eauto.
  - intros [(l & Hl & Hin) Hk]. eexists. rewrite prune_reverse_lookup.
    assert (Hf : (k, s) ∈ filter (fun '(k, _) => k ∉ expired) l) by (by apply list_elem_of_filter).
    split; [|exact Hf]. exists l. split_and!; [done | done |].
    intros Hn. rewrite Hn in Hf. by apply not_elem_of_nil in Hf.
Qed.

Lemma live_lookup now t k e :
  live now t !! k = Some e ↔ entries t !! k = Some e ∧ is_expired e now t = false.
Proof. unfold live. by rewrite map_lookup_filter_Some. Qed.

Lemma live_not_expired now t k e :
  live now t !! k = Some e → k ∉ (expired_flows now t).*1.
Proof.
  intros [Hk Hx]%live_lookup (e' & He' & Ht)%expired_keys_spec. simplify_eq. congruence.
Qed.

(** The table after a cleanup that removed something. *)
Lemma pruned_wf now t :
  nat_wf t →
  nat_wf {| entries := live now t;
            reverse := prune_reverse (expired_flows now t).*1 (reverse t);
            source_map := prune_sources
              (flow_source <$> expired_flows now t)
              (live now t) (source_map t);
            ttl_secs := ttl_secs t; cells := cells t |}.
Proof.
  intros [H1 H2 H3 H4 H5]. split; simpl.
  - intros k e Hk. rewrite prune_sources_lookup, decide_False.
    + apply live_lookup in Hk as [Hk _]. by apply H1.
    + intros [_ Ha]. simpl in Ha. assert (Ht : has_active (source k) (outbound_tag e) (live now t) = true)
        by (apply has_active_spec; eauto). congruence.
  - intros src tag tr. rewrite prune_sources_lookup. destruct (decide _) as [|Hno]; [done|].
    intros Hs. apply has_active_spec. destruct (has_active src tag (live now t)) eqn:Ea; [done|].
    exfalso. apply Hno. split; [|done]. destruct (H2 _ _ _ Hs) as (k & e & He & <- & <-).
    apply list_elem_of_fmap. exists (k, e). split; [done|]. apply expired_flows_spec.
    split; [done|]. destruct (is_expired e now t) eqn:Ex; [done|]. exfalso.
    assert (Ht : has_active (source k) (outbound_tag e) (live now t) = true)
      by (apply has_active_spec; exists k, e; by rewrite live_lookup). congruence.
  - intros tag k s. rewrite prune_reverse_in, H3. split.
    + intros [(e & He & Htag & ->) Hn]. exists e. split_and!; try done. apply live_lookup.
      split; [done|]. destruct (is_expired e now t) eqn:Ex; [|done]. exfalso. apply Hn.
      apply expired_keys_spec. eauto.
    + intros (e & He & Htag & ->). split; [|by eapply live_not_expired].
      apply live_lookup in He as [He _]. eauto.
  - intros tag (l0 & _ & _ & Hne)%prune_reverse_lookup. done.
  - intros k e [Hk _]%live_lookup. eauto.
Qed.

Lemma cleanup_spec now t :
  entries (cleanup now t).2 = live now t
  ∧ (cleanup now t).1 = (size (entries t) - size (live now t))%nat
  ∧ (nat_wf t → nat_wf (cleanup now t).2).
Proof.
  unfold cleanup. cbv zeta. unfold clean_sources, clean_reverse, remove_keys, set_maps. cbn [entries reverse source_map ttl_secs cells fst snd].
  rewrite cleanup_left. destruct (0 <? _)%nat eqn:E; simpl; (split_and!; [done | done |]); intros Hwf.
  - by apply pruned_wf.
  - apply Nat.ltb_ge in E. assert (Hsub : live now t ⊆ entries t) by apply map_filter_subseteq.
    assert (Hl : live now t = entries t).
    { apply map_subseteq_size_eq; [done|]. lia. }
    rewrite Hl. by destruct t.
Qed.

(** ** Runs of the table *)

Inductive nat_op :=
| Packet (k : NatKey) (tag : string) (connect : option nat) (now : Z)
| Reply (e : NatEntry) (now : Z)
| Cleanup (now : Z).

Definition nat_step (o : nat_op) (t : NatTable) : NatTable :=
  match o with
  | Packet k tag connect now => (udp_flow k tag connect now t).2
  | Reply e now => touch e now t
  | Cleanup now => (cleanup now t).2
  end.

Definition nat_run (ops : list nat_op) (t : NatTable) : NatTable :=
  fold_left (fun t o => nat_step o t) ops t.

Lemma nat_run_wf ops t : nat_wf t → nat_wf (nat_run ops t).
Proof.
  revert t. induction ops as [|o ops IH]; intros t Ht; [done|]. simpl. apply IH.
  destruct o; simpl; [by apply udp_flow_wf | by apply touch_wf | by apply cleanup_spec].
Qed.

(** ** Properties *)

(** Full Cone mapping, calls one after the other: after any sequence of forwarded
    packets, replies and cleanups, two flows of the same client source through the
    same outbound are served by the same transport, which is also the one a packet
    to a new destination will reuse; and the reverse index lists exactly the flows
    of each outbound. *)
Theorem nat_sequential ttl ops k1 k2 e1 e2 :
  let t := nat_run ops (with_ttl ttl) in
  entries t !! k1 = Some e1 → entries t !! k2 = Some e2 →
  source k1 = source k2 → outbound_tag e1 = outbound_tag e2 →
  transport e1 = transport e2
  ∧ get_transport_for_source (source k1) (outbound_tag e1) t = Some (transport e1)
  ∧ (∀ tag k s, (∃ l, reverse t !! tag = Some l ∧ (k, s) ∈ l) ↔
       (∃ e, entries t !! k = Some e ∧ outbound_tag e = tag ∧ s = source k)).
Proof.
  intros t H1 H2 Hs Ht. pose proof (nat_run_wf ops _ (with_ttl_wf ttl)) as Hwf. fold t in Hwf.
  pose proof (wf_cone t Hwf _ _ H1) as C1. pose proof (wf_cone t Hwf _ _ H2) as C2.
  rewrite <- Hs, <- Ht, C1 in C2. split_and!; [congruence | done | apply (wf_reverse t Hwf)].
Qed.

Definition client : SocketAddr := SockV4 1 5000.
Definition flow (d : Z) : NatKey := {| source := client; dest := Ip (SockV4 d 53) |}.
Definition sample_ops : list nat_op :=
  [Packet (flow 8) "proxy" (Some 1%nat) 0; Packet (flow 9) "proxy" (Some 2%nat) 5000].

Lemma nat_sequential_witness :
  ∃ e1 e2, entries (nat_run sample_ops (with_ttl 120)) !! flow 8 = Some e1
    ∧ entries (nat_run sample_ops (with_ttl 120)) !! flow 9 = Some e2 ∧ transport e1 = transport e2.
Proof.
  eexists _, _. split; [vm_compute; reflexivity|]. split; [vm_compute; reflexivity|].
  apply (nat_sequential 120 sample_ops (flow 8) (flow 9)); reflexivity.
Defined.

(** [cleanup] removes exactly the flows idle for longer than their timeout,
    returns how many it removed, and after it a source keeps its transport
    exactly while it still has a flow through that outbound. *)
Theorem nat_cleanup_exact ttl ops now :
  let t := nat_run ops (with_ttl ttl) in
  let '(removed, t') := cleanup now t in
  (∀ k e, entries t' !! k = Some e ↔ entries t !! k = Some e ∧ is_expired e now t = false)
  ∧ size (entries t) = (removed + size (entries t'))%nat
  ∧ (∀ src tag, is_Some (get_transport_for_source src tag t') ↔
       ∃ k e, entries t' !! k = Some e ∧ source k = src ∧ outbound_tag e = tag).
Proof.
  intros t. pose proof (nat_run_wf ops _ (with_ttl_wf ttl)) as Hwf. fold t in Hwf.
  destruct (cleanup_spec now t) as (He & Hr & Hw). specialize (Hw Hwf).
  destruct (cleanup now t) as [removed t']. simpl in *.
  assert (Hsz : (size (live now t) ≤ size (entries t))%nat).
  { rewrite <- !size_dom. apply subseteq_size, subseteq_dom, map_filter_subseteq. }
  split_and!.
  - intros k e. rewrite He. apply live_lookup.
  - rewrite He. lia.
  - intros src tag. split.
    + intros [tr Htr]. by eapply (wf_source t' Hw).
    + intros (k & e & Hk & <- & <-). exists (transport e). by apply (wf_cone t' Hw).
Qed.

(** A flow whose entry has expired but has not been cleaned up yet is not
    revived: [get_or_insert] hands out a fresh entry that it does not store, and
    reports it as not new, so that the caller starts no reverse relay for it; the
    table keeps the expired entry. *)
Theorem nat_expired_entry_not_replaced k tr tag now t e :
  entries t !! k = Some e → is_expired e now t = true →
  let '(e', is_new, t') := get_or_insert k tr tag now t in
  is_new = false ∧ transport e' = tr ∧ outbound_tag e' = tag
  ∧ entries t' = entries t ∧ reverse t' = reverse t ∧ source_map t' = source_map t
  ∧ entries t' !! k = Some e.
Proof.
  intros Hk Hx. unfold get_or_insert, get. rewrite Hk, Hx. unfold entry_new, insert_entry. simpl.
  rewrite Hk. simpl. done.
Qed.

Lemma nat_expired_entry_not_replaced_witness :
  let t := nat_run sample_ops (with_ttl 120) in
  let '(e', is_new, t') := get_or_insert (flow 8) 7 "proxy" 200000 t in
  is_new = false ∧ transport e' = 7%nat ∧ outbound_tag e' = "proxy"%string
  ∧ entries t' = entries t ∧ reverse t' = reverse t ∧ source_map t' = source_map t
  ∧ entries t' !! flow 8
    = Some {| transport := 1; outbound_tag := "proxy"; last_active := 0; ttl_ms := 120000 |}.
Proof. apply nat_expired_entry_not_replaced; vm_compute; reflexivity. Defined.
