(* ===== verification/NatSteps.v ===== *)
(** * The NAT table under concurrent tasks ([src/src/proxy/nat.rs], [src/src/app/dispatcher.rs])

    Every UDP association has a task that forwards the packets of its client, and
    cleanups run beside them; all share one [NatTable] and hold a lock for one
    section at a time.  Here a task is its source address and where it stands, and
    a step is one section: between any two others may run, and the task of an
    association may be aborted.  (A session without a source counts as 0.0.0.0:0;
    cleanups are not cut off.)  Transports are numbered in the order they are
    opened, so that [opened] says for which source and outbound each was. *)

From S2P Require Import Prelude RustStr Addr NatTable.

Local Open Scope list_scope.

(** ** Tasks *)

(** Where the forwarding of a packet stands: looking for the flow; found, about to
    touch it; looking for the transport of the source; connecting; looking again
    before inserting; inserting into the entries, the reverse index, the source map;
    sending.  [FGone]: the task was aborted. *)
Inductive Phase :=
| FIdle
| FGet (k : NatKey) (tag : string)
| FTouch (k : NatKey) (e : NatEntry)
| FSource (k : NatKey) (tag : string)
| FConnect (k : NatKey) (tag : string)
| FAgain (k : NatKey) (tr : nat) (tag : string)
| FInsert (k : NatKey) (e : NatEntry)
| FReverse (k : NatKey) (e : NatEntry)
| FMap (k : NatKey) (e : NatEntry)
| FSend (k : NatKey) (e : NatEntry)
| FGone.
(** Where a cleanup stands: about to remove expired entries, to clean the reverse
    index, to clean the source map. *)
Inductive CPhase :=
| CStart
| CReverse (keys : list NatKey) (gone : list (SocketAddr * string))
| CSources (gone : list (SocketAddr * string)).

(** [sent]: the packets handed to transports.  [shared]: the sources that two live
    associations had at once.  [torn]: the flows whose insertion was aborted half
    way.  [missed]: the flows that were in the table again when a cleanup that had
    removed them cleaned the reverse index. *)
Record Net := mkNet {
  table : NatTable;
  fwds : list (SocketAddr * Phase);
  cleaners : list CPhase;
  opened : list (SocketAddr * string);
  sent : list (NatKey * nat);
  shared : gset SocketAddr;
  torn : gset NatKey;
  missed : gset NatKey
}.
Definition net_new (ttl : Z) : Net := mkNet (with_ttl ttl) [] [] [] [] ∅ ∅ ∅.

Definition set_table (t : NatTable) (n : Net) : Net :=
  mkNet t (fwds n) (cleaners n) (opened n) (sent n) (shared n) (torn n) (missed n).
Definition set_fwds (f : list (SocketAddr * Phase)) (n : Net) : Net :=
  mkNet (table n) f (cleaners n) (opened n) (sent n) (shared n) (torn n) (missed n).
Definition set_cleaners (c : list CPhase) (n : Net) : Net :=
  mkNet (table n) (fwds n) c (opened n) (sent n) (shared n) (torn n) (missed n).
Definition open_for (o : SocketAddr * string) (n : Net) : Net :=
  mkNet (table n) (fwds n) (cleaners n) (opened n ++ [o]) (sent n) (shared n) (torn n) (missed n).
Definition log_sent (s : NatKey * nat) (n : Net) : Net :=
  mkNet (table n) (fwds n) (cleaners n) (opened n) (sent n ++ [s]) (shared n) (torn n) (missed n).
Definition mark_shared (s : gset SocketAddr) (n : Net) : Net :=
  mkNet (table n) (fwds n) (cleaners n) (opened n) (sent n) (s ∪ shared n) (torn n) (missed n).
Definition mark_torn (s : gset NatKey) (n : Net) : Net :=
  mkNet (table n) (fwds n) (cleaners n) (opened n) (sent n) (shared n) (s ∪ torn n) (missed n).
Definition mark_missed (s : gset NatKey) (n : Net) : Net :=
  mkNet (table n) (fwds n) (cleaners n) (opened n) (sent n) (shared n) (torn n) (s ∪ missed n).

(** The next section of the forwarding of a packet at time [now]; [connects]: there
    is an outbound and it opens a transport; [sends]: the transport takes the
    packet. *)
Definition fwd_step (now : Z) (connects sends : bool) (p : Phase) (n : Net) : option (Phase * Net) :=
  match p with
  | FIdle | FGone => None
  | FGet k tag =>
      Some (match get k now (table n) with Some e => FTouch k e | None => FSource k tag end, n)
  | FTouch k e => Some (FSend k e, set_table (touch e now (table n)) n)
  | FSource k tag =>
      Some (match get_transport_for_source (source k) tag (table n) with
            | Some tr => FAgain k tr tag
            | None => FConnect k tag
            end, n)
  | FConnect k tag =>
      Some (if connects then (FAgain k (length (opened n)) tag, open_for (source k, tag) n) else (FIdle, n))
  | FAgain k tr tag =>
      Some (match get k now (table n) with
            | Some e => (FTouch k e, n)
            | None => let '(e, t) := entry_new tr tag now (table n) in (FInsert k e, set_table t n)
            end)
  | FInsert k e =>
      Some (match entries (table n) !! k with
            | Some _ => (FSend k e, n)
            | None => (FReverse k e, set_table (add_entry k e (table n)) n)
            end)
  | FReverse k e => Some (FMap k e, set_table (add_reverse k e (table n)) n)
  | FMap k e => Some (FSend k e, set_table (add_source k e (table n)) n)
  | FSend k e =>
      Some (FIdle, log_sent (k, transport e) (if sends then set_table (touch e now (table n)) n else n))
  end.
(** The next section of a cleanup; [None]: it is done. *)
Definition clean_step (now : Z) (c : CPhase) (n : Net) : option CPhase * Net :=
  match c with
  | CStart =>
      let expired := expired_flows now (table n) in
      (match expired with [] => None | _ => Some (CReverse expired.*1 (flow_source <$> expired)) end,
       set_table (remove_keys expired.*1 (table n)) n)
  | CReverse keys gone =>
      (Some (CSources gone),
       mark_missed (list_to_set (filter (fun k => is_Some (entries (table n) !! k)) keys))
         (set_table (clean_reverse keys (table n)) n))
  | CSources gone => (None, set_table (clean_sources gone (table n)) n)
  end.

Definition is_live (src : SocketAddr) (f : SocketAddr * Phase) : bool :=
  bool_decide (f.1 = src) && match f.2 with FGone => false | _ => true end.
(** The flow a task is in the middle of inserting. *)
Definition half_inserted (p : Phase) : gset NatKey :=
  match p with FReverse k _ | FMap k _ => {[k]} | _ => ∅ end.

Inductive nat_event :=
| NStart (src : SocketAddr)
| NPacket (i : nat) (d : Address) (tag : string)
| NForward (i : nat) (now : Z) (connects sends : bool)
| NAbort (i : nat)
| NTick
| NClean (j : nat) (now : Z)
| NReply (e : NatEntry) (now : Z).
Definition nat_do (ev : nat_event) (n : Net) : option Net :=
  match ev with
  | NStart src =>
      let n := if existsb (is_live src) (fwds n) then mark_shared {[src]} n else n in
      Some (set_fwds (fwds n ++ [(src, FIdle)]) n)
  | NPacket i d tag =>
      match fwds n !! i with
      | Some (src, FIdle) =>
          Some (set_fwds (<[i := (src, FGet {| source := src; dest := d |} tag)]> (fwds n)) n)
      | _ => None
      end
  | NForward i now connects sends =>
      '(src, p) ← fwds n !! i;
      '(p, n) ← fwd_step now connects sends p n;
      Some (set_fwds (<[i := (src, p)]> (fwds n)) n)
  | NAbort i =>
      '(src, p) ← fwds n !! i;
      Some (mark_torn (half_inserted p) (set_fwds (<[i := (src, FGone)]> (fwds n)) n))
  | NTick => Some (set_cleaners (cleaners n ++ [CStart]) n)
  | NClean j now =>
      c ← cleaners n !! j;
      match clean_step now c n with
      | (Some c, n) => Some (set_cleaners (<[j := c]> (cleaners n)) n)
      | (None, n) => Some (set_cleaners (delete j (cleaners n)) n)
      end
  | NReply e now => Some (set_table (touch e now (table n)) n)
  end.
Fixpoint nat_play (evs : list nat_event) (n : Net) : option Net :=
  match evs with [] => Some n | ev :: evs => n ← nat_do ev n; nat_play evs n end.

(** ** The invariant *)

(** The flow and the transport a task works with. *)
Definition phase_ok (op : list (SocketAddr * string)) (src : SocketAddr) (p : Phase) : Prop :=
  match p with
  | FIdle | FGone => True
  | FGet k _ | FSource k _ | FConnect k _ => source k = src
  | FAgain k tr tag => source k = src ∧ op !! tr = Some (src, tag)
  | FTouch k e | FInsert k e | FReverse k e | FMap k e | FSend k e =>
      source k = src ∧ op !! transport e = Some (src, outbound_tag e)
  end.
(** Some task is about to put the flow [k] into the reverse index, or into the source
    map, for the outbound [tag]. *)
Definition pushing (fs : list (SocketAddr * Phase)) (k : NatKey) (tag : string) : Prop :=
  ∃ i src e, fs !! i = Some (src, FReverse k e) ∧ outbound_tag e = tag.
Definition inserting (fs : list (SocketAddr * Phase)) (k : NatKey) (tag : string) : Prop :=
  pushing fs k tag ∨ ∃ i src e, fs !! i = Some (src, FMap k e) ∧ outbound_tag e = tag.
Definition listed (rev : gmap string (list (NatKey * SocketAddr))) (tag : string) (k : NatKey) : Prop :=
  ∃ l, rev !! tag = Some l ∧ (k, source k) ∈ l.

(** Every flow of [src] through [tag] is served by [tr], and so will the next be. *)
Definition agrees (t : NatTable) (src : SocketAddr) (tag : string) (tr : nat) : Prop :=
  (∀ k e, entries t !! k = Some e → source k = src → outbound_tag e = tag → transport e = tr)
  ∧ (∀ tr', source_map t !! (src, tag) = Some tr' → tr' = tr).
Definition cone_phase (t : NatTable) (src : SocketAddr) (p : Phase) : Prop :=
  match p with
  | FConnect _ tag =>
      source_map t !! (src, tag) = None
      ∧ ∀ k e, entries t !! k = Some e → source k = src → outbound_tag e ≠ tag
  | FAgain _ tr tag => agrees t src tag tr
  | FInsert _ e | FReverse _ e | FMap _ e => agrees t src (outbound_tag e) (transport e)
  | _ => True
  end.
Record cone (n : Net) (src : SocketAddr) : Prop := {
  cone_flows : ∀ k e, entries (table n) !! k = Some e → source k = src → agrees (table n) src (outbound_tag e) (transport e);
  cone_tasks : ∀ i p, fwds n !! i = Some (src, p) → cone_phase (table n) src p
}.
Definition clean_source (n : Net) (src : SocketAddr) : Prop := src ∉ shared n ∧ ∀ k, k ∈ torn n → source k ≠ src.

Record net_inv (n : Net) : Prop := {
  ni_entries : ∀ k e, entries (table n) !! k = Some e → opened n !! transport e = Some (source k, outbound_tag e);
  ni_sources : ∀ src tag tr, source_map (table n) !! (src, tag) = Some tr → opened n !! tr = Some (src, tag);
  ni_sent : ∀ k tr, (k, tr) ∈ sent n → ∃ tag, opened n !! tr = Some (source k, tag);
  ni_phases : ∀ i src p, fwds n !! i = Some (src, p) → phase_ok (opened n) src p;
  ni_mapped : ∀ k e, entries (table n) !! k = Some e →
    k ∈ torn n ∨ is_Some (source_map (table n) !! (source k, outbound_tag e)) ∨ inserting (fwds n) k (outbound_tag e);
  ni_listed : ∀ k e, entries (table n) !! k = Some e →
    k ∈ torn n ∨ k ∈ missed n ∨ listed (reverse (table n)) (outbound_tag e) k ∨ pushing (fwds n) k (outbound_tag e);
  ni_reverse : ∀ tag l k s, reverse (table n) !! tag = Some l → (k, s) ∈ l → s = source k;
  ni_alone : ∀ src i j p q, src ∉ shared n → fwds n !! i = Some (src, p) → fwds n !! j = Some (src, q) →
    p = FGone ∨ q = FGone ∨ i = j;
  ni_cone : ∀ src, clean_source n src → cone n src
}.

Lemma net_new_inv ttl : net_inv (net_new ttl).
Proof. split; cbn; try done. intros k tr H. by apply not_elem_of_nil in H. Qed.

(** The cone holds on when flows and mappings only disappear. *)
Definition fewer (t' t : NatTable) : Prop :=
  (∀ k e, entries t' !! k = Some e → entries t !! k = Some e)
  ∧ (∀ x tr, source_map t' !! x = Some tr → source_map t !! x = Some tr).
Lemma fewer_same t' t : entries t' = entries t → source_map t' = source_map t → fewer t' t.
Proof. intros H1 H2. split; intros *; by rewrite ?H1, ?H2. Qed.
Lemma agrees_fewer t' t src tag tr : fewer t' t → agrees t src tag tr → agrees t' src tag tr.
Proof. intros [H1 H2] [A1 A2]. split; eauto. Qed.
Lemma cone_phase_fewer t' t src p : fewer t' t → cone_phase t src p → cone_phase t' src p.
Proof.
  intros Hf. destruct p; try done; try by apply agrees_fewer. destruct Hf as [H1 H2]. intros [C1 C2]. split; [|eauto].
  destruct (source_map t' !! (src, tag)) as [tr|] eqn:E; [|done]. apply H2 in E. congruence.
Qed.
Lemma phase_ok_more op op' src p : op `prefix_of` op' → phase_ok op src p → phase_ok op' src p.
Proof.
  intros [l ->]. assert (Hl : ∀ j x, op !! j = Some x → (op ++ l) !! j = Some x) by (intros; by apply lookup_app_l_Some).
  destruct p; cbn [phase_ok]; try done; intros [-> Ho]; auto.
Qed.

(** *** One task moves on

    What a section does to the table and the transports, seen from the invariant. *)

Section moves.
Context (n : Net) (i : nat) (src : SocketAddr) (p p' : Phase).
Context (inv : net_inv n) (at_i : fwds n !! i = Some (src, p)).
Let fs := <[i := (src, p')]> (fwds n).

Lemma moved_at : fs !! i = Some (src, p').
Proof using at_i. apply list_lookup_insert_eq. by eapply lookup_lt_Some. Qed.
Lemma moved_other j x : j ≠ i → (fs !! j = Some x ↔ fwds n !! j = Some x).
Proof. intros Hj. unfold fs. by rewrite list_lookup_insert_ne. Qed.
Lemma moved_inv j s q : fs !! j = Some (s, q) → (j = i ∧ s = src ∧ q = p') ∨ (j ≠ i ∧ fwds n !! j = Some (s, q)).
Proof using at_i.
  intros Hj. destruct (decide (j = i)) as [->|Hne]; [|right; split; [done|by apply moved_other]].
  rewrite moved_at in Hj. injection Hj as <- <-. by left.
Qed.
Lemma pushing_kept k tag :
  pushing (fwds n) k tag → (∃ e, p = FReverse k e ∧ outbound_tag e = tag) ∨ pushing fs k tag.
Proof using at_i.
  intros (j&s&e&Hj&He). destruct (decide (j = i)) as [->|Hne].
  - rewrite at_i in Hj. injection Hj as -> ->. left. by exists e.
  - right. exists j, s, e. by rewrite moved_other.
Qed.
Lemma inserting_kept k tag :
  inserting (fwds n) k tag →
  (∃ e, (p = FReverse k e ∨ p = FMap k e) ∧ outbound_tag e = tag) ∨ inserting fs k tag.
Proof using at_i.
  intros [Hp|(j&s&e&Hj&He)].
  - destruct (pushing_kept k tag Hp) as [(e&->&He)|H]; [left; exists e; auto|by right; left].
  - destruct (decide (j = i)) as [->|Hne].
    + rewrite at_i in Hj. injection Hj as -> ->. left. exists e. auto.
    + right. right. exists j, s, e. by rewrite moved_other.
Qed.
Lemma moved_alone s a b q r :
  (p = FGone → p' = FGone) → s ∉ shared n → fs !! a = Some (s, q) → fs !! b = Some (s, r) → q = FGone ∨ r = FGone ∨ a = b.
Proof using inv at_i.
  intros Hp Hs [(->&->&->)|(Ha&Ha')]%moved_inv [(->&E&->)|(Hb&Hb')]%moved_inv; auto.
  - destruct (ni_alone n inv src i b p r Hs at_i Hb') as [|[|]]; naive_solver.
  - subst s. destruct (ni_alone n inv src a i q p Hs Ha' at_i) as [|[|]]; naive_solver.
  - by destruct (ni_alone n inv s a b q r Hs Ha' Hb') as [|[|]]; auto.
Qed.

Lemma quiet_inv t' op st :
  entries t' = entries (table n) → reverse t' = reverse (table n) → source_map t' = source_map (table n) →
  opened n `prefix_of` op → phase_ok op src p' → half_inserted p = ∅ → p ≠ FGone →
  (clean_source n src → cone_phase (table n) src p') →
  (∀ k tr, (k, tr) ∈ st → ∃ tag, op !! tr = Some (source k, tag)) →
  net_inv (mkNet t' fs (cleaners n) op st (shared n) (torn n) (missed n)).
Proof using inv at_i.
  intros He Hr Hs Hop Hp' Hq Hgone Hcp Hst. pose proof inv as [I1 I2 I3 I4 I5 I6 I7 I8 I9].
  assert (Hmore : ∀ j x, opened n !! j = Some x → op !! j = Some x) by (destruct Hop as [l ->]; intros; by apply lookup_app_l_Some).
  assert (Hnq : ∀ k e, p ≠ FReverse k e ∧ p ≠ FMap k e).
  { intros k e. split; intros ->; cbn in Hq; set_solver. }
  split; cbn [table opened sent fwds shared torn missed]; rewrite ?He, ?Hr, ?Hs.
  - eauto.
  - eauto.
  - done.
  - intros j s q [(->&->&->)|(_&Hj)]%moved_inv; [done|]. eapply phase_ok_more; [done|by eapply I4].
  - intros k e Hk. destruct (I5 k e Hk) as [|[|Hi]]; auto.
    destruct (inserting_kept k _ Hi) as [(e'&[Hx|Hx]&_)|]; [by apply Hnq in Hx|by apply Hnq in Hx|auto].
  - intros k e Hk. destruct (I6 k e Hk) as [|[|[|Hi]]]; auto.
    destruct (pushing_kept k _ Hi) as [(e'&Hx&_)|]; [by apply Hnq in Hx|auto].
  - done.
  - intros s a b q r. by apply moved_alone.
  - intros s Hc. change (clean_source n s) in Hc. assert (Hf : fewer t' (table n)) by (by apply fewer_same).
    split; cbn [table fwds].
    + intros k e Hk Hsk. rewrite He in Hk. eapply agrees_fewer; [done|]. by apply (cone_flows n s (I9 s Hc) k).
    + intros j q [(->&->&->)|(_&Hj)]%moved_inv; eapply cone_phase_fewer; [done|by apply Hcp|done|]. by apply (cone_tasks n s (I9 s Hc) j).
Qed.

(** The other tasks of a source that was never shared are gone. *)
Lemma others_gone j q : clean_source n src → p ≠ FGone → j ≠ i → fwds n !! j = Some (src, q) → q = FGone.
Proof using inv at_i.
  intros [Hc _] Hp Hj Hq. by destruct (ni_alone n inv src i j p q Hc at_i Hq) as [|[|E]]; [| |symmetry in E].
Qed.

Lemma insert_inv k e :
  p = FInsert k e → p' = FReverse k e → entries (table n) !! k = None →
  net_inv (set_fwds fs (set_table (add_entry k e (table n)) n)).
Proof using inv at_i.
  intros Ep Ep' Hnone. pose proof inv as [I1 I2 I3 I4 I5 I6 I7 I8 I9].
  pose proof (I4 i src p at_i) as Hok. rewrite Ep in Hok. destruct Hok as [Hsrc Hop].
  assert (Hnq : ∀ k' e', p ≠ FReverse k' e' ∧ p ≠ FMap k' e') by (intros; rewrite Ep; done).
  assert (Hme : pushing fs k (outbound_tag e)).
  { exists i, src, e. split; [|done]. rewrite <- Ep'. apply moved_at. }
  split; cbn [set_fwds set_table table opened sent fwds shared torn missed add_entry set_maps entries reverse source_map].
  - intros k' e' [[<- <-]|[_ Hk]]%lookup_insert_Some; [by rewrite Hsrc|eauto].
  - done.
  - done.
  - intros j s q [(->&->&->)|(_&Hj)]%moved_inv; [by rewrite Ep'|by eapply I4].
  - intros k' e' [[<- <-]|[_ Hk]]%lookup_insert_Some; [by right; right; left|]. destruct (I5 k' e' Hk) as [|[|Hi]]; auto.
    destruct (inserting_kept k' _ Hi) as [(e2&[Hx|Hx]&_)|]; [by apply Hnq in Hx|by apply Hnq in Hx|auto].
  - intros k' e' [[<- <-]|[_ Hk]]%lookup_insert_Some; [auto|]. destruct (I6 k' e' Hk) as [|[|[|Hi]]]; auto.
    destruct (pushing_kept k' _ Hi) as [(e2&Hx&_)|]; [by apply Hnq in Hx|auto].
  - done.
  - intros s a b q r. apply moved_alone. by rewrite Ep.
  - intros s Hc. change (clean_source n s) in Hc. pose proof (I9 s Hc) as [C1 C2].
    destruct (decide (s = src)) as [->|Hne].
    + pose proof (C2 i p at_i) as Hag. rewrite Ep in Hag. cbn [cone_phase] in Hag.
      assert (Hnew : agrees (add_entry k e (table n)) src (outbound_tag e) (transport e)).
      { destruct Hag as [A1 A2]. split; [|done]. cbn [add_entry set_maps entries].
        intros k' e' [[<- <-]|[_ Hk]]%lookup_insert_Some; [done|eauto]. }
      split; cbn [set_fwds set_table table fwds].
      * intros k' e'. cbn [add_entry set_maps entries]. intros [[<- <-]|[_ Hk]]%lookup_insert_Some Hs; [done|].
        pose proof (C1 k' e' Hk Hs) as [A1 A2]. split; [|done]. cbn [add_entry set_maps entries].
        intros k2 e2 [[<- <-]|[_ Hk2]]%lookup_insert_Some Hs2 Ht2; [|eauto].
        symmetry. apply (proj1 Hag k' e' Hk Hs). done.
      * intros j q [(->&_&->)|(Hj&Hl)]%moved_inv; [by rewrite Ep'|]. by rewrite (others_gone j q Hc ltac:(by rewrite Ep) Hj Hl).
    + assert (Hkeep : ∀ tag tr, agrees (table n) s tag tr → agrees (add_entry k e (table n)) s tag tr).
      { intros tag tr [A1 A2]. split; [|done]. cbn [add_entry set_maps entries].
        intros k' e' [[<- _]|[_ Hk]]%lookup_insert_Some Hs; [congruence|eauto]. }
      split; cbn [set_fwds set_table table fwds].
      * intros k' e'. cbn [add_entry set_maps entries]. intros [[<- _]|[_ Hk]]%lookup_insert_Some Hs; [congruence|]. by apply Hkeep, (C1 k').
      * intros j q [(->&->&->)|(_&Hj)]%moved_inv; [done|]. pose proof (C2 j q Hj) as Hq. destruct q; try done; try by apply Hkeep.
        destruct Hq as [Q1 Q2]. split; [done|]. cbn [add_entry set_maps entries].
        intros k' e' [[<- _]|[_ Hk]]%lookup_insert_Some Hs; [congruence|eauto].
Qed.
Lemma reverse_inv k e :
  p = FReverse k e → p' = FMap k e → net_inv (set_fwds fs (set_table (add_reverse k e (table n)) n)).
Proof using inv at_i.
  intros Ep Ep'. pose proof inv as [I1 I2 I3 I4 I5 I6 I7 I8 I9].
  pose proof (I4 i src p at_i) as Hok. rewrite Ep in Hok.
  assert (Hin : ∀ tag k' s, (∃ l, reverse (add_reverse k e (table n)) !! tag = Some l ∧ (k', s) ∈ l)
    ↔ (∃ l, reverse (table n) !! tag = Some l ∧ (k', s) ∈ l) ∨ (tag = outbound_tag e ∧ k' = k ∧ s = source k)).
  { intros tag k' s. cbn [add_reverse set_maps reverse]. destruct (decide (outbound_tag e = tag)) as [<-|Hne].
    - rewrite lookup_insert_eq. split.
      + intros (l&[= <-]&[Hin|Hin%list_elem_of_singleton]%elem_of_app); [|injection Hin as -> ->; by right].
        left. destruct (reverse (table n) !! outbound_tag e) as [l|]; [by exists l|by apply not_elem_of_nil in Hin].
      + intros [(l&->&Hin)|(_&->&->)]; eexists; (split; [done|]); apply elem_of_app; [by left|right; by apply list_elem_of_singleton].
    - rewrite lookup_insert_ne by done. split; [by left|]. intros [|[-> _]]; done. }
  split; cbn [set_fwds set_table table opened sent fwds shared torn missed].
  - done.
  - done.
  - done.
  - intros j s q [(->&->&->)|(_&Hj)]%moved_inv; [by rewrite Ep'|by eapply I4].
  - intros k' e' Hk. destruct (I5 k' e' Hk) as [|[|Hi]]; auto.
    destruct (inserting_kept k' _ Hi) as [(e2&[Hx|Hx]&Ht)|]; [|congruence|auto].
    right. right. right. rewrite Ep in Hx. injection Hx as -> ->. exists i, src, e2. split; [|done]. rewrite <- Ep'. apply moved_at.
  - intros k' e' Hk. destruct (I6 k' e' Hk) as [|[|[Hl|Hi]]]; auto.
    + right. right. left. apply Hin. by left.
    + destruct (pushing_kept k' _ Hi) as [(e2&Hx&Ht)|]; [|auto]. rewrite Ep in Hx. injection Hx as -> ->.
      right. right. left. apply Hin. by right.
  - intros tag l k' s Hl Hm. destruct (proj1 (Hin tag k' s)) as [(l'&Hl'&Hm')|(_&->&->)]; [eauto|by eapply I7|done].
  - intros s a b q r. apply moved_alone. by rewrite Ep.
  - intros s Hc. change (clean_source n s) in Hc. pose proof (I9 s Hc) as [C1 C2]. split; cbn [set_fwds set_table table fwds]; [done|].
    intros j q [(->&->&->)|(_&Hj)]%moved_inv; [|by apply (C2 j)]. pose proof (C2 i p at_i) as Hag. rewrite Ep in Hag. by rewrite Ep'.
Qed.
Lemma map_inv k e :
  p = FMap k e → p' = FSend k e → net_inv (set_fwds fs (set_table (add_source k e (table n)) n)).
Proof using inv at_i.
  intros Ep Ep'. pose proof inv as [I1 I2 I3 I4 I5 I6 I7 I8 I9].
  pose proof (I4 i src p at_i) as Hok. rewrite Ep in Hok. destruct Hok as [Hsrc Hop].
  assert (Hmap : ∀ x tr, source_map (add_source k e (table n)) !! x = Some tr →
    source_map (table n) !! x = Some tr ∨ (x = (src, outbound_tag e) ∧ tr = transport e)).
  { intros x tr. cbn [add_source set_maps source_map]. rewrite Hsrc. destruct (source_map (table n) !! (src, _)) eqn:E; [by left|].
    intros [[<- <-]|[_ H]]%lookup_insert_Some; auto. }
  assert (Hkeep : ∀ x, is_Some (source_map (table n) !! x) ∨ x = (src, outbound_tag e) → is_Some (source_map (add_source k e (table n)) !! x)).
  { intros x Hx. cbn [add_source set_maps source_map]. rewrite Hsrc. destruct (source_map (table n) !! (src, _)) eqn:E.
    - destruct Hx as [| ->]; [done|by eexists].
    - rewrite lookup_insert_is_Some'. destruct Hx as [| ->]; auto. }
  split; cbn [set_fwds set_table table opened sent fwds shared torn missed].
  - done.
  - intros s tag tr [Hx|[[= -> ->] ->]]%Hmap; [by apply I2|done].
  - done.
  - intros j s q [(->&->&->)|(_&Hj)]%moved_inv; [by rewrite Ep'|by eapply I4].
  - intros k' e' Hk. destruct (I5 k' e' Hk) as [|[Hm|Hi]]; [auto|right; left; apply Hkeep; by left|].
    destruct (inserting_kept k' _ Hi) as [(e2&[Hx|Hx]&Ht)|]; [congruence| |auto].
    rewrite Ep in Hx. injection Hx as -> ->. right. left. apply Hkeep. right. by rewrite <- Ht, Hsrc.
  - intros k' e' Hk. destruct (I6 k' e' Hk) as [|[|[|Hi]]]; auto.
    destruct (pushing_kept k' _ Hi) as [(e2&Hx&_)|]; [congruence|auto].
  - done.
  - intros s a b q r. apply moved_alone. by rewrite Ep.
  - intros s Hc. change (clean_source n s) in Hc. pose proof (I9 s Hc) as [C1 C2].
    assert (Hag : ∀ tag tr, (s = src → tag = outbound_tag e → tr = transport e) →
      agrees (table n) s tag tr → agrees (add_source k e (table n)) s tag tr).
    { intros tag tr Heq [A1 A2]. split; [done|]. intros tr' [Hx|[[= -> ->] ->]]%Hmap; [eauto|]. by rewrite Heq. }
    split; cbn [set_fwds set_table table fwds].
    + intros k' e' Hk Hs. apply Hag; [|by apply (C1 k')]. intros -> Ht. pose proof (C2 i p at_i) as Hcp. rewrite Ep in Hcp.
      by apply (proj1 Hcp k').
    + intros j q [(->&->&->)|(Hj&Hl)]%moved_inv; [by rewrite Ep'|]. destruct (decide (s = src)) as [->|Hne].
      { by rewrite (others_gone j q Hc ltac:(by rewrite Ep) Hj Hl). }
      pose proof (C2 j q Hl) as Hq. destruct q; try done; try (by apply Hag).
      destruct Hq as [Q1 Q2]. split; [|done]. destruct (source_map (add_source k e (table n)) !! (s, tag)) as [tr|] eqn:E; [|done].
      apply Hmap in E as [E|[[= -> _] _]]; [congruence|done].
Qed.
End moves.

(** *** Every step *)

Lemma get_entry k now t e : get k now t = Some e → entries t !! k = Some e.
Proof. unfold get. destruct (entries t !! k); [|done]. destruct (is_expired _ _ _); [done|]. by intros [= ->]. Qed.

(** A flow of a clean source has its transport in the source map unless the only task
    of the source is inserting it. *)
Lemma clean_mapped n i src p k e :
  net_inv n → clean_source n src → fwds n !! i = Some (src, p) → p ≠ FGone → half_inserted p = ∅ →
  entries (table n) !! k = Some e → source k = src → is_Some (source_map (table n) !! (src, outbound_tag e)).
Proof.
  intros Hi Hc Hp Hg Hq Hk Hs. destruct (ni_mapped n Hi k e Hk) as [Ht|[Hm|Hins]]; [|by rewrite Hs in Hm|].
  { by apply (proj2 Hc) in Ht. }
  exfalso. assert (∃ j s q, fwds n !! j = Some (s, q) ∧ q ≠ FGone ∧ k ∈ half_inserted q ∧ s = src) as (j&s&q&Hj&Hq'&Hkq&->).
  { destruct Hins as [(j&s&e'&Hj&_)|(j&s&e'&Hj&_)]; pose proof (ni_phases n Hi j s _ Hj) as [E _];
      (eexists j, s, _; split_and!; [exact Hj|done|cbn; set_solver|congruence]). }
  destruct (ni_alone n Hi src i j p q (proj1 Hc) Hp Hj) as [|[|<-]]; [done|done|].
  rewrite Hp in Hj. injection Hj as ->. rewrite Hq in Hkq. set_solver.
Qed.

Lemma fwd_step_inv n i src p now c s p' n' :
  net_inv n → fwds n !! i = Some (src, p) → fwd_step now c s p n = Some (p', n') →
  net_inv (set_fwds (<[i := (src, p')]> (fwds n')) n').
Proof.
  intros Hi Hp. pose proof (ni_phases n Hi i src p Hp) as Hok.
  destruct p as [|k tag|k e|k tag|k tag|k tr tag|k e|k e|k e|k e|]; cbn [fwd_step]; try done; intros Hst.
  - injection Hst as <- <-. cbn [set_fwds]. destruct (get k now (table n)) as [e|] eqn:Eg; eapply (quiet_inv n i src _ _ Hi Hp); try done; try apply Hi.
    apply get_entry, (ni_entries n Hi) in Eg. cbn in Hok |- *. by rewrite <- Hok.
  - injection Hst as <- <-. cbn [set_fwds set_table]. eapply (quiet_inv n i src _ _ Hi Hp); try done; apply Hi.
  - injection Hst as <- <-. cbn [set_fwds]. unfold get_transport_for_source. cbn in Hok. rewrite Hok.
    destruct (source_map (table n) !! (src, tag)) as [tr|] eqn:Em; eapply (quiet_inv n i src _ _ Hi Hp); try done; try apply Hi.
    + cbn. split; [done|]. by apply (ni_sources n Hi).
    + intros Hc. pose proof (ni_cone n Hi src Hc) as [C1 _]. split.
      * intros k' e Hk Hs Ht. destruct (C1 k' e Hk Hs) as [_ A2]. rewrite Ht in A2. by symmetry; apply A2.
      * intros tr' Hm. congruence.
    + intros Hc. split; [done|]. intros k' e Hk Hs Ht.
      destruct (clean_mapped n i src _ k' e Hi Hc Hp ltac:(done) ltac:(done) Hk Hs) as [tr Hm]. congruence.
  - cbn in Hok. destruct c; injection Hst as <- <-; cbn [set_fwds open_for]; eapply (quiet_inv n i src _ _ Hi Hp); try done; try apply Hi.
    + by eexists.
    + cbn. split; [done|]. rewrite Hok. by rewrite lookup_app_r, Nat.sub_diag by done.
    + intros Hc. destruct (cone_tasks n src (ni_cone n Hi src Hc) i _ Hp) as [C1 C2]. split.
      * intros k' e Hk Hs Ht. by destruct (C2 k' e Hk Hs).
      * intros tr' Hm. congruence.
    + intros k' tr' Hin. destruct (ni_sent n Hi k' tr' Hin) as [tag' Ht]. exists tag'. by apply lookup_app_l_Some.
  - destruct (get k now (table n)) as [e|] eqn:Eg; cbn [entry_new] in Hst; injection Hst as <- <-; cbn [set_fwds set_table].
    + eapply (quiet_inv n i src _ _ Hi Hp); try done; try apply Hi. apply get_entry, (ni_entries n Hi) in Eg. cbn in Hok |- *. destruct Hok as [E _].
      by rewrite <- E.
    + eapply (quiet_inv n i src _ _ Hi Hp); try done; try apply Hi. intros Hc. exact (cone_tasks n src (ni_cone n Hi src Hc) i _ Hp).
  - destruct (entries (table n) !! k) as [e0|] eqn:Ek; injection Hst as <- <-; cbn [set_fwds].
    + eapply (quiet_inv n i src _ _ Hi Hp); try done; apply Hi.
    + by eapply (insert_inv n i src _ _ Hi Hp).
  - injection Hst as <- <-. by eapply (reverse_inv n i src _ _ Hi Hp).
  - injection Hst as <- <-. by eapply (map_inv n i src _ _ Hi Hp).
  - injection Hst as <- <-. assert (Hsent : ∀ k' tr', (k', tr') ∈ sent n ++ [(k, transport e)] → ∃ tag, opened n !! tr' = Some (source k', tag)).
    { intros k' tr' [Hin|Hin%list_elem_of_singleton]%elem_of_app; [by apply (ni_sent n Hi)|]. injection Hin as -> ->.
      exists (outbound_tag e). destruct Hok as [-> Hok]. done. }
    destruct s; cbn [set_fwds log_sent set_table]; by eapply (quiet_inv n i src _ _ Hi Hp).
Qed.

(** Cleanups only take away. *)
Lemma fewer_inv n t' ms :
  net_inv n → fewer t' (table n) →
  (∀ k e, entries t' !! k = Some e → is_Some (source_map (table n) !! (source k, outbound_tag e)) →
     is_Some (source_map t' !! (source k, outbound_tag e))) →
  (∀ k e, entries t' !! k = Some e → listed (reverse (table n)) (outbound_tag e) k → k ∈ ms ∨ listed (reverse t') (outbound_tag e) k) →
  (∀ tag l k s, reverse t' !! tag = Some l → (k, s) ∈ l → s = source k) →
  net_inv (mark_missed ms (set_table t' n)).
Proof.
  intros [I1 I2 I3 I4 I5 I6 I7 I8 I9] Hf Hs Hl Hr. pose proof Hf as [F1 F2].
  split; cbn [mark_missed set_table table opened sent fwds shared torn missed]; try done.
  - intros k e Hk. apply I1, F1, Hk.
  - intros src tag tr Hm. apply I2, F2, Hm.
  - intros k e Hk. destruct (I5 k e (F1 _ _ Hk)) as [|[|]]; [by left|right; left; eauto|by right; right].
  - intros k e Hk. destruct (I6 k e (F1 _ _ Hk)) as [|[|[Hx|]]]; [by left|right; left; set_solver| |by right; right; right].
    destruct (Hl k e Hk Hx); [right; left; set_solver|by right; right; left].
  - intros s Hc. destruct (I9 s Hc) as [C1 C2]. split; cbn [mark_missed set_table table fwds].
    + intros k e Hk Hsk. eapply agrees_fewer; [done|]. apply (C1 k); eauto.
    + intros j q Hj. eapply cone_phase_fewer; [done|]. by apply (C2 j).
Qed.
Lemma mark_missed_none n : mark_missed ∅ n = n.
Proof. destruct n. unfold mark_missed. cbn. f_equal. apply union_empty_l_L. Qed.
Lemma clean_step_inv n now c c' n' : net_inv n → clean_step now c n = (c', n') → net_inv n'.
Proof.
  intros Hi. destruct c as [|keys gone|gone]; cbn [clean_step]; intros [= <- <-].
  - rewrite <- (mark_missed_none (set_table _ n)). set (ks := (expired_flows now (table n)).*1). apply fewer_inv; [done| | |auto|apply Hi].
    + split; [|done]. intros k e. cbn [remove_keys set_maps entries]. rewrite fold_delete_lookup. by case_decide.
    + done.
  - apply fewer_inv; [done|by apply fewer_same|done| |].
    + intros k e Hk Hl. destruct (decide (k ∈ keys)) as [Hin|Hn].
      * left. apply elem_of_list_to_set, list_elem_of_filter. split; [by eexists|done].
      * right. apply prune_reverse_in. by split.
    + intros tag l k s Hl Hin. destruct (proj1 (prune_reverse_in keys (reverse (table n)) tag k s)) as [(l0&H0&Hin0) _]; [eauto|].
      by eapply (ni_reverse n Hi).
  - rewrite <- (mark_missed_none (set_table _ n)). apply fewer_inv; [done| | |auto|apply Hi].
    + split; [done|]. intros x tr. cbn [clean_sources set_maps source_map]. rewrite prune_sources_lookup. by case_decide.
    + intros k e Hk Hm. cbn [clean_sources set_maps source_map]. rewrite prune_sources_lookup, decide_False; [done|].
      intros [_ Ha]. cbn [fst snd] in Ha. assert (has_active (source k) (outbound_tag e) (entries (table n)) = true); [|congruence].
      apply has_active_spec. by exists k, e.
Qed.

Lemma assoc_start_inv n src :
  net_inv n →
  net_inv (let n := if existsb (is_live src) (fwds n) then mark_shared {[src]} n else n in
           set_fwds (fwds n ++ [(src, FIdle)]) n).
Proof.
  intros [I1 I2 I3 I4 I5 I6 I7 I8 I9]. set (sh := if existsb (is_live src) (fwds n) then {[src]} ∪ shared n else shared n).
  assert (E : (let n := if existsb (is_live src) (fwds n) then mark_shared {[src]} n else n in set_fwds (fwds n ++ [(src, FIdle)]) n)
    = mkNet (table n) (fwds n ++ [(src, FIdle)]) (cleaners n) (opened n) (sent n) sh (torn n) (missed n)).
  { cbv zeta. subst sh. by destruct (existsb _ _). }
  rewrite E. clear E. assert (Hsh : shared n ⊆ sh) by (subst sh; destruct (existsb _ _); set_solver).
  assert (Hnew : ∀ j s q, (fwds n ++ [(src, FIdle)]) !! j = Some (s, q) →
    fwds n !! j = Some (s, q) ∨ (j = length (fwds n) ∧ s = src ∧ q = FIdle)).
  { intros j s q [Hj|[Hge Hj]]%lookup_app_Some; [by left|]. apply list_lookup_singleton_Some in Hj as [Hz [= <- <-]]. right. split_and!; [lia|done|done]. }
  assert (Hold : ∀ j x, fwds n !! j = Some x → (fwds n ++ [(src, FIdle)]) !! j = Some x) by (intros; by apply lookup_app_l_Some).
  split; cbn [table opened sent fwds shared torn missed]; try done.
  - intros j s q [Hj|(_&->&->)]%Hnew; [by eapply I4|done].
  - intros k e Hk. destruct (I5 k e Hk) as [|[|[(j&s&e'&Hj&Ht)|(j&s&e'&Hj&Ht)]]]; auto; right; right; [left|right]; exists j, s, e'; auto.
  - intros k e Hk. destruct (I6 k e Hk) as [|[|[|(j&s&e'&Hj&Ht)]]]; auto. right. right. right. exists j, s, e'. auto.
  - assert (Hdead : src ∉ sh → ∀ j q, fwds n !! j = Some (src, q) → q = FGone).
    { subst sh. destruct (existsb (is_live src) (fwds n)) eqn:Ee; [set_solver|]. intros _ j q Hj. destruct q; try done;
        (exfalso; assert (existsb (is_live src) (fwds n) = true); [|congruence]; apply existsb_exists; eexists; split;
         [apply list_elem_of_In, (list_elem_of_lookup_2 _ j), Hj|unfold is_live; cbn; by rewrite bool_decide_true]). }
    intros s a b q r Hs [Ha|(->&->&->)]%Hnew [Hb|(->&Eb&->)]%Hnew; auto.
    + apply (I8 s a b); auto.
    + subst s. left. by eapply Hdead.
    + right. left. by eapply Hdead.
  - intros s [Hc1 Hc2]. destruct (I9 s) as [C1 C2]; [split; [set_solver|done]|]. split; cbn [table fwds]; [done|].
    intros j q [Hj|(_&_&->)]%Hnew; [by apply (C2 j)|done].
Qed.
Lemma abort_inv n i src p :
  net_inv n → fwds n !! i = Some (src, p) → net_inv (mark_torn (half_inserted p) (set_fwds (<[i := (src, FGone)]> (fwds n)) n)).
Proof.
  intros Hi Hp. pose proof Hi as [I1 I2 I3 I4 I5 I6 I7 I8 I9].
  split; cbn [mark_torn set_fwds table opened sent fwds shared torn missed]; try done.
  - intros j s q [(->&->&->)|(_&Hj)]%(moved_inv n i src p FGone Hp); [done|by eapply I4].
  - intros k e Hk. destruct (I5 k e Hk) as [|[|Hx]]; [left; set_solver|auto|].
    destruct (inserting_kept n i src p FGone Hp k _ Hx) as [(e'&[->| ->]&_)|]; [left; set_solver|left; set_solver|auto].
  - intros k e Hk. destruct (I6 k e Hk) as [|[|[|Hx]]]; [left; set_solver|auto|auto|].
    destruct (pushing_kept n i src p FGone Hp k _ Hx) as [(e'&->&_)|]; [left; set_solver|auto].
  - intros s a b q r. by apply (moved_alone n i src p FGone Hi Hp).
  - intros s [Hc1 Hc2]. destruct (I9 s) as [C1 C2]; [split; [done|intros k Hk; apply Hc2; set_solver]|].
    split; cbn [mark_torn set_fwds table fwds]; [done|].
    intros j q [(_&_&->)|(_&Hj)]%(moved_inv n i src p FGone Hp); [done|by apply (C2 j)].
Qed.
(** Only activity cells change. *)
Lemma touch_inv n t' : net_inv n → entries t' = entries (table n) → reverse t' = reverse (table n) → source_map t' = source_map (table n) →
  net_inv (set_table t' n).
Proof.
  intros Hi He Hr Hs. rewrite <- (mark_missed_none (set_table t' n)). apply fewer_inv; rewrite ?Hr; [done|by apply fewer_same|by rewrite Hs|auto|apply Hi].
Qed.

Lemma nat_do_inv ev n n' : net_inv n → nat_do ev n = Some n' → net_inv n'.
Proof.
  intros Hi. destruct ev as [src|i d tag|i now c s|i| |j now|e now]; cbn [nat_do].
  - intros [= <-]. by apply assoc_start_inv.
  - destruct (fwds n !! i) as [[src []]|] eqn:Ef; try done. intros [= <-]. cbn [set_fwds].
    eapply (quiet_inv n i src FIdle _ Hi Ef); try done. apply Hi.
  - destruct (fwds n !! i) as [[src p]|] eqn:Ef; [|done]. cbn [mbind option_bind].
    destruct (fwd_step now c s p n) as [[p' n1]|] eqn:Es; [|done]. cbn [mbind option_bind]. intros [= <-]. by eapply fwd_step_inv.
  - destruct (fwds n !! i) as [[src p]|] eqn:Ef; [|done]. cbn [mbind option_bind]. intros [= <-]. by apply abort_inv.
  - intros [= <-]. destruct Hi as [I1 I2 I3 I4 I5 I6 I7 I8 I9]. split; try done. intros s Hc. destruct (I9 s Hc). by split.
  - destruct (cleaners n !! j) as [c|]; [|done]. cbn [mbind option_bind]. destruct (clean_step now c n) as [c' n1] eqn:Ec.
    apply clean_step_inv in Ec; [|done]. assert (Hc : ∀ l, net_inv (set_cleaners l n1)).
    { intros l. destruct Ec as [I1 I2 I3 I4 I5 I6 I7 I8 I9]. split; try done. intros s Hc. destruct (I9 s Hc). by split. }
    destruct c'; intros [= <-]; apply Hc.
  - intros [= <-]. by apply touch_inv.
Qed.
Lemma nat_play_inv evs n n' : net_inv n → nat_play evs n = Some n' → net_inv n'.
Proof.
  revert n. induction evs as [|ev evs IH]; intros n Hi; cbn [nat_play]; [by intros [= <-]|].
  destruct (nat_do ev n) as [n1|] eqn:E; [|done]. apply IH. by eapply nat_do_inv.
Qed.

(** ** Full Cone *)


(** *** Sections in a row *)

(** A packet whose sections run without others in between. *)
Fixpoint run_packet (fuel : nat) (now : Z) (connects : bool) (p : Phase) (n : Net) : Phase * Net :=
  match fuel, p with
  | O, _ | _, FSend _ _ => (p, n)
  | S fuel, _ =>
      match fwd_step now connects false p n with
      | Some (p, n) => run_packet fuel now connects p n
      | None => (p, n)
      end
  end.
Lemma run_packet_step fuel now c p n p' n' :
  fwd_step now c false p n = Some (p', n') → (∀ k e, p ≠ FSend k e) →
  run_packet (S fuel) now c p n = run_packet fuel now c p' n'.
Proof. intros E Hp. cbn [run_packet]. rewrite E. destruct p; try done. by edestruct Hp. Qed.
Lemma run_packet_send fuel now c k e n : run_packet fuel now c (FSend k e) n = (FSend k e, n).
Proof. by destruct fuel. Qed.
(** From the second lookup on, with the transport found or opened. *)
Lemma run_packet_again fuel now c k tr tag n :
  get k now (table n) = None →
  ∃ e b t, get_or_insert k tr tag now (table n) = (e, b, t)
  ∧ run_packet (4 + fuel) now c (FAgain k tr tag) n = (FSend k e, set_table t n).
Proof.
  intros Eg. unfold get_or_insert. rewrite Eg. destruct (entry_new tr tag now (table n)) as [e t1] eqn:Ee.
  change (4 + fuel)%nat with (S (S (S (S fuel)))).
  erewrite run_packet_step; [|cbn [fwd_step]; by rewrite Eg, Ee|done].
  unfold insert_entry. destruct (entries t1 !! k) as [e0|] eqn:Ek.
  - eexists e, false, t1. split; [done|].
    erewrite run_packet_step; [|cbn [fwd_step set_table table]; by rewrite Ek|done]. by rewrite run_packet_send.
  - eexists e, true, _. split; [done|].
    erewrite run_packet_step; [|cbn [fwd_step set_table table]; by rewrite Ek|done].
    do 2 (erewrite run_packet_step; [|done|done]). by rewrite run_packet_send.
Qed.
(** Such a packet is forwarded as the call [udp_flow] says. *)
Theorem packet_alone now (connects : bool) k tag n :
  let '(flow, t) := udp_flow k tag (if connects then Some (length (opened n)) else None) now (table n) in
  let '(p, n') := run_packet 8 now connects (FGet k tag) n in
  table n' = t ∧ p = match flow with Some (e, _) => FSend k e | None => FIdle end.
Proof.
  unfold udp_flow. destruct (get k now (table n)) as [e|] eqn:Eg.
  { erewrite run_packet_step; [|cbn [fwd_step]; by rewrite Eg|done].
    erewrite run_packet_step; [|done|done]. by rewrite run_packet_send. }
  erewrite run_packet_step; [|cbn [fwd_step]; by rewrite Eg|done].
  destruct (get_transport_for_source (source k) tag (table n)) as [tr|] eqn:Es;
    (erewrite run_packet_step; [|cbn [fwd_step]; by rewrite Es|done]).
  - destruct (run_packet_again 2 now connects k tr tag n Eg) as (e&b&t&Hg&Hr). rewrite Hg. change 6%nat with (4 + 2)%nat. by rewrite Hr.
  - destruct connects.
    + erewrite run_packet_step; [|done|done]. set (n1 := open_for (source k, tag) n).
      destruct (run_packet_again 1 now true k (length (opened n)) tag n1 Eg) as (e&b&t&Hg&Hr).
      change (table n1) with (table n) in Hg. rewrite Hg. change 5%nat with (4 + 1)%nat. by rewrite Hr.
    + erewrite run_packet_step; [|done|done]. done.
Qed.

(** *** Witness and races *)

Definition laptop : SocketAddr := SockV4 1 5000.
Definition to (d : Z) : Address := Ip (SockV4 d 53).
Definition flow_to (d : Z) : NatKey := {| source := laptop; dest := to d |}.
(** [m] sections of task [i] at time [now]. *)
Definition run_sections (m i : nat) (now : Z) : list nat_event := replicate m (NForward i now true true).
Definition send_to (i : nat) (d : Z) (m : nat) (now : Z) : list nat_event := NPacket i (to d) "proxy" :: run_sections m i now.

(** A packet, then one to another destination while a cleanup runs between its
    sections. *)
Definition cone_events : list nat_event :=
  [NStart laptop] ++ send_to 0 8 8 0 ++ [NTick] ++ send_to 0 9 2 5000 ++ [NClean 0 5000] ++ run_sections 5 0 5000.
Definition cone_net : Net := default (net_new 120) (nat_play cone_events (net_new 120)).
(** A flow that comes back between two sections of the cleanup that removed it stays
    out of the reverse index. *)
Example reinserted_flow_unlisted :
  let evs := [NStart laptop] ++ send_to 0 8 8 0 ++ [NTick; NClean 0 200000] ++ send_to 0 8 7 200000
             ++ [NClean 0 200000; NClean 0 200000] in
  let n := default (net_new 120) (nat_play evs (net_new 120)) in
  is_Some (entries (table n) !! flow_to 8) ∧ reverse (table n) !! "proxy"%string = None.
Proof. vm_compute. split; [by eexists|reflexivity]. Qed.
(** Two associations of one client address that connect at the same time get two
    transports. *)
Example shared_source_two_transports :
  let evs := [NStart laptop; NStart laptop] ++ send_to 0 8 3 0 ++ send_to 1 9 8 0 ++ run_sections 5 0 0 in
  let n := default (net_new 120) (nat_play evs (net_new 120)) in
  sent n = [(flow_to 9, 1%nat); (flow_to 8, 0%nat)]
  ∧ transport <$> entries (table n) !! flow_to 8 = Some 0%nat ∧ transport <$> entries (table n) !! flow_to 9 = Some 1%nat.
Proof. vm_compute. repeat split. Qed.
