(* ===== verification/Auth.v ===== *)
(** * User authentication ([src/src/app/auth.rs])

    The per-inbound user lists, the decision on a credential and the attempt
    counters. *)

From S2P Require Import Prelude RustStr.

Local Open Scope string_scope.
Local Open Scope list_scope.
Local Open Scope Z_scope.

Inductive Credential :=
| UserPass (username password : string)
| Uuid (uuid : string)
| Password (password : string)
| NoCredential.

Record AuthResult := { success : bool; user : option string; reason : option string }.
Definition auth_ok (u : string) : AuthResult :=
  {| success := true; user := Some u; reason := None |}.
Definition auth_anonymous : AuthResult := {| success := true; user := None; reason := None |}.
Definition auth_denied (r : string) : AuthResult :=
  {| success := false; user := None; reason := Some r |}.

Record UserInfo := {
  name : string;
  credential : Credential;
  speed_limit : option Z;
  max_connections : option Z;
  enabled : bool
}.

Record AuthStats := { total_attempts : Z; success_count : Z; failure_count : Z }.
Definition record_success (s : AuthStats) : AuthStats :=
  {| total_attempts := wrap 64 (total_attempts s + 1);
     success_count := wrap 64 (success_count s + 1); failure_count := failure_count s |}.
Definition record_failure (s : AuthStats) : AuthStats :=
  {| total_attempts := wrap 64 (total_attempts s + 1);
     success_count := success_count s; failure_count := wrap 64 (failure_count s + 1) |}.
Definition snapshot (s : AuthStats) : Z * Z * Z :=
  (total_attempts s, success_count s, failure_count s).

Record Authenticator := {
  users : gmap string (list UserInfo);
  stats : AuthStats;
  allow_anonymous : bool
}.

Definition authenticator_new (anon : bool) : Authenticator :=
  {| users := ∅; stats := {| total_attempts := 0; success_count := 0; failure_count := 0 |};
     allow_anonymous := anon |}.

Definition register_users (tag : string) (us : list UserInfo) (a : Authenticator) : Authenticator :=
  {| users := <[tag := us]> (users a); stats := stats a; allow_anonymous := allow_anonymous a |}.

Definition credentials_match (stored provided : Credential) : bool :=
  match stored, provided with
  | UserPass su sp, UserPass pu pp => String.eqb su pu && String.eqb sp pp
  | Uuid su, Uuid pu => eq_ignore_ascii_case su pu
  | Password sp, Password pp => String.eqb sp pp
  | Password sp, UserPass _ pp => String.eqb sp pp
  | _, _ => false
  end.

(** The loop over the users, in list order. *)
Fixpoint find_user (us : list UserInfo) (c : Credential) : option UserInfo :=
  match us with
  | [] => None
  | u :: us =>
      if negb (enabled u) then find_user us c
      else if credentials_match (credential u) c then Some u
      else find_user us c
  end.

Definition with_stats (s : AuthStats) (a : Authenticator) : Authenticator :=
  {| users := users a; stats := s; allow_anonymous := allow_anonymous a |}.

Definition authenticate (tag : string) (c : Credential) (a : Authenticator)
  : AuthResult * Authenticator :=
  let succeed r := (r, with_stats (record_success (stats a)) a) in
  let fail r := (r, with_stats (record_failure (stats a)) a) in
  match users a !! tag with
  | None =>
      if allow_anonymous a then succeed auth_anonymous
      else fail (auth_denied "no users configured")
  | Some us =>
      if bool_decide (us = []) && allow_anonymous a then succeed auth_anonymous
      else match find_user us c with
           | Some u => succeed (auth_ok (name u))
           | None => fail (auth_denied "invalid credentials")
           end
  end.

(** ** Lemmas *)

#[export] Instance UserInfo_eq_dec : EqDecision UserInfo.
Proof. unfold EqDecision, Decision. repeat decide equality. Defined.

Definition acceptable (c : Credential) (u : UserInfo) : bool :=
  enabled u && credentials_match (credential u) c.

Lemma find_user_spec us c :
  match find_user us c with
  | Some u => ∃ pre post, us = pre ++ u :: post ∧ acceptable c u = true
                ∧ Forall (fun v => acceptable c v = false) pre
  | None => Forall (fun v => acceptable c v = false) us
  end.
Proof.
  induction us as [|u us IH]; simpl; [done|].
  assert (Hskip : acceptable c u = false → match find_user us c with
      | Some v => ∃ pre post, u :: us = pre ++ v :: post ∧ acceptable c v = true
                    ∧ Forall (fun v => acceptable c v = false) pre
      | None => Forall (fun v => acceptable c v = false) (u :: us) end).
  { intros Hu. destruct (find_user us c) as [v|]; [|by constructor].
    destruct IH as (pre & post & -> & Hv & Hpre). exists (u :: pre), post.
    split_and!; [done | done | by constructor]. }
  unfold acceptable in Hskip. destruct (enabled u) eqn:Ee; simpl; [|by apply Hskip].
  destruct (credentials_match (credential u) c) eqn:Em; [|by apply Hskip].
  exists [], us. split_and!; [done | | constructor]. unfold acceptable. by rewrite Ee, Em.
Qed.

(** A run of attempts and registrations. *)
Inductive auth_op := Register (tag : string) (us : list UserInfo) | Attempt (tag : string) (c : Credential).

Fixpoint auth_run (ops : list auth_op) (a : Authenticator) : list AuthResult * Authenticator :=
  match ops with
  | [] => ([], a)
  | Register tag us :: ops => auth_run ops (register_users tag us a)
  | Attempt tag c :: ops =>
      let '(r, a1) := authenticate tag c a in
      let '(rs, a2) := auth_run ops a1 in (r :: rs, a2)
  end.

Definition successes (rs : list AuthResult) : Z := Z.of_nat (length (List.filter success rs)).

Lemma authenticate_stats tag c a :
  stats (authenticate tag c a).2
  = (if success (authenticate tag c a).1 then record_success else record_failure) (stats a).
Proof.
  unfold authenticate. destruct (users a !! tag) as [us|].
  - destruct (_ && _); [done|]. by destruct (find_user us c).
  - by destruct (allow_anonymous a).
Qed.

Lemma auth_run_stats ops a :
  let s := stats a in
  0 <= total_attempts s → 0 <= success_count s → 0 <= failure_count s →
  total_attempts s = success_count s + failure_count s →
  let '(rs, a') := auth_run ops a in
  total_attempts s + Z.of_nat (length rs) < 2 ^ 64 →
  total_attempts (stats a') = total_attempts s + Z.of_nat (length rs)
  ∧ success_count (stats a') = success_count s + successes rs
  ∧ failure_count (stats a') = failure_count s + (Z.of_nat (length rs) - successes rs).
Proof.
  revert a. induction ops as [|[tag us|tag c] ops IH]; intros a s H0 H1 H2 H3; simpl.
  - intros _. unfold successes. simpl. split_and!; unfold s; lia.
  - by apply (IH (register_users tag us a)).
  - pose proof (authenticate_stats tag c a) as Hst.
    destruct (authenticate tag c a) as [r a1]. simpl in Hst.
    specialize (IH a1). destruct (auth_run ops a1) as [rs a2]. intros Hb. fold s in Hst.
    cbn [length] in Hb. assert (Hsr : successes (r :: rs) = Z.b2z (success r) + successes rs)
      by (unfold successes; simpl; destruct (success r); simpl; lia).
    rewrite Hsr. cbn [length].
    assert (Hnn : 0 <= successes rs <= Z.of_nat (length rs)).
    { unfold successes. pose proof (List.filter_length_le success rs). lia. }
    destruct (success r); rewrite Hst in IH; cbn [record_success record_failure total_attempts
      success_count failure_count] in IH; rewrite !wrap_small in IH by (unfold in_width; lia);
      destruct IH as (-> & -> & ->); try lia; simpl Z.b2z; split_and!; lia.
Qed.

(** ** Properties *)

(** [authenticate] admits exactly whom it should: with no user list for the
    inbound (or an empty one) the answer is the anonymous setting; otherwise the
    first enabled user of the list whose stored credential matches is admitted
    under its name, and if there is none the attempt is denied.  A disabled user
    never admits anyone. *)
Theorem authenticate_decision tag c a :
  let r := (authenticate tag c a).1 in
  match users a !! tag with
  | None => r = if allow_anonymous a then auth_anonymous else auth_denied "no users configured"
  | Some us =>
      if bool_decide (us = []) && allow_anonymous a then r = auth_anonymous
      else (∃ pre u post, us = pre ++ u :: post ∧ acceptable c u = true
              ∧ Forall (fun v => acceptable c v = false) pre ∧ r = auth_ok (name u))
           ∨ (Forall (fun v => acceptable c v = false) us ∧ r = auth_denied "invalid credentials")
  end.
Proof.
  unfold authenticate. destruct (users a !! tag) as [us|]; [|by destruct (allow_anonymous a)].
  destruct (_ && _); [done|]. pose proof (find_user_spec us c) as H.
  destruct (find_user us c) as [u|]; simpl; [left | by right].
  destruct H as (pre & post & ? & ? & ?). by exists pre, u, post.
Qed.

(** The authentication statistics count correctly: over any sequence of
    registrations and fewer than 2^64 attempts, the total is the number of
    attempts, and the success and failure counters are the numbers of admitted
    and denied ones. *)
Theorem auth_stats_count anon ops :
  let '(rs, a) := auth_run ops (authenticator_new anon) in
  Z.of_nat (length rs) < 2 ^ 64 →
  snapshot (stats a) = (Z.of_nat (length rs), successes rs, Z.of_nat (length rs) - successes rs).
Proof.
  pose proof (auth_run_stats ops (authenticator_new anon)) as H. simpl in H.
  specialize (H ltac:(lia) ltac:(lia) ltac:(lia) eq_refl).
  destruct (auth_run ops (authenticator_new anon)) as [rs a]. intros Hl.
  destruct (H Hl) as (H1 & H2 & H3). unfold snapshot. by rewrite H1, H2, H3.
Qed.

Definition alice : UserInfo :=
  {| name := "alice"; credential := Password "pw"; speed_limit := None; max_connections := None;
     enabled := true |}.

Lemma auth_stats_count_witness :
  let '(rs, a) := auth_run [Register "in" [alice]; Attempt "in" (UserPass "x" "pw");
                            Attempt "in" (Password "no")] (authenticator_new false) in
  Z.of_nat (length rs) < 2 ^ 64 ∧ snapshot (stats a) = (2, 1, 1).
Proof.
  pose proof (auth_stats_count false [Register "in" [alice]; Attempt "in" (UserPass "x" "pw");
                                      Attempt "in" (Password "no")]) as H.
  split; [reflexivity|]. exact (H eq_refl).
Defined.
