(* ===== verification/Security.v ===== *)
(** * The start-up security audit ([src/src/app/security.rs])

    The audit of a configuration (the fields it reads), the decision to refuse
    start-up, and the masking of secrets in logs. *)

From Stdlib Require Import Ascii.
From S2P Require Import Prelude RustStr.

Local Open Scope string_scope.
Local Open Scope list_scope.
Local Open Scope Z_scope.

Inductive Severity := Block | Warn | Info.
#[export] Instance Severity_eq_dec : EqDecision Severity.
Proof. solve_decision. Defined.

Record SecurityWarning := {
  severity : Severity;
  code : string;
  message : string;
  fix_hint : string
}.
Record SecurityReport := { warnings : list SecurityWarning; blocked : bool }.

(** The parts of [config::types::Config] the audit reads. *)
Record OutboundSettings := {
  allow_insecure : bool;
  password : option string;
  method : option string
}.
Record OutboundConfig := { tag : string; protocol : string; settings : OutboundSettings }.
Record ApiConfig := { listen : string; secret : option string }.
Record Config := { outbounds : list OutboundConfig; api : option ApiConfig }.

Definition insecure_warning (ob : OutboundConfig) : option SecurityWarning :=
  if allow_insecure (settings ob) then
    Some {| severity := Warn; code := "SEC_TLS_INSECURE";
            message := "outbound '" +:+ tag ob +:+ "' has allow_insecure=true";
            fix_hint := "Set allow_insecure to false and use a valid TLS certificate" |}
  else None.

Definition api_warning (a : ApiConfig) : option SecurityWarning :=
  match secret a with
  | Some _ => None
  | None =>
      let listen_external :=
        negb (String.eqb (listen a) "127.0.0.1") && negb (String.eqb (listen a) "localhost") in
      Some (if listen_external then
              {| severity := Block; code := "SEC_API_NO_SECRET";
                 message := "API listens on " +:+ listen a +:+ " without a secret";
                 fix_hint := "Set api.secret or bind API to 127.0.0.1" |}
            else
              {| severity := Info; code := "SEC_API_LOCAL_NO_SECRET";
                 message := "API has no secret (localhost only)";
                 fix_hint := "Consider setting api.secret for defense in depth" |})
  end.

Definition empty_password_warning (ob : OutboundConfig) : option SecurityWarning :=
  match password (settings ob) with
  | Some "" =>
      Some {| severity := Warn; code := "SEC_EMPTY_PASSWORD";
              message := "outbound '" +:+ tag ob +:+ "' has an empty password";
              fix_hint := "Set a strong password for this outbound" |}
  | _ => None
  end.

Definition weak_ciphers : list string :=
  ["rc4"; "rc4-md5"; "aes-128-cfb"; "aes-256-cfb"; "chacha20"; "table"; "none"].

Definition weak_cipher_warning (ob : OutboundConfig) : option SecurityWarning :=
  if String.eqb (protocol ob) "shadowsocks" || String.eqb (protocol ob) "ss" then
    match method (settings ob) with
    | Some m =>
        if bool_decide (m ∈ weak_ciphers) then
          Some {| severity := Warn; code := "SEC_WEAK_CIPHER";
                  message := "outbound '" +:+ tag ob +:+ "' uses weak cipher '" +:+ m +:+ "'";
                  fix_hint := "Use aes-256-gcm or chacha20-ietf-poly1305" |}
        else None
    | None => None
    end
  else None.

Definition is_block (w : SecurityWarning) : bool := bool_decide (severity w = Block).

Definition audit_config (config : Config) : SecurityReport :=
  let ws := omap insecure_warning (outbounds config)
            ++ match api config with
               | Some a => match api_warning a with Some w => [w] | None => [] end
               | None => []
               end
            ++ omap empty_password_warning (outbounds config)
            ++ omap weak_cipher_warning (outbounds config) in
  {| warnings := ws; blocked := existsb is_block ws |}.

Fixpoint join (sep : string) (l : list string) : string :=
  match l with
  | [] => ""
  | [s] => s
  | s :: l => s +:+ sep +:+ join sep l
  end.

(** The error is the text of the refusal; the log output is not modelled. *)
Definition validate_and_warn (config : Config) : result string unit :=
  let report := audit_config config in
  if blocked report then
    Err ("security audit blocked startup: "
         +:+ join "; " (message <$> List.filter is_block (warnings report)))
  else Ok tt.

(** ** Masking *)

(** [str::is_char_boundary] and the slices [&s[..i]] and [&s[i..]], whose panic
    off a boundary is [None]. *)
Definition is_char_boundary (l : bytes) (i : nat) : bool :=
  if (i =? 0)%nat || (i =? length l)%nat then true
  else match l !! i with Some b => negb (is_cont b) | None => false end.
Definition slice_to (l : bytes) (i : nat) : option bytes :=
  if is_char_boundary l i then Some (take i l) else None.
Definition slice_from (l : bytes) (i : nat) : option bytes :=
  if is_char_boundary l i then Some (drop i l) else None.

Definition mask_sensitive (value : string) : option string :=
  let v := as_bytes value in
  if (length v <=? 4)%nat then Some "****"
  else
    visible ← slice_to v 2;
    tail ← slice_from v (length v - 2);
    Some (of_bytes visible +:+ "****" +:+ of_bytes tail).

(** ** Lemmas *)

Lemma omap_no_block (f : OutboundConfig → option SecurityWarning) l :
  (∀ ob w, f ob = Some w → severity w = Warn) → existsb is_block (omap f l) = false.
Proof.
  intros Hf. induction l as [|ob l IH]; [done|]. cbn [omap list_omap].
  destruct (f ob) as [w|] eqn:E; [|done]. cbn [existsb]. unfold is_block at 1.
  rewrite (Hf _ _ E). done.
Qed.

Lemma insecure_warn ob w : insecure_warning ob = Some w → severity w = Warn.
Proof. unfold insecure_warning. destruct (allow_insecure _); by intros [= <-]. Qed.
Lemma empty_password_warn ob w : empty_password_warning ob = Some w → severity w = Warn.
Proof. unfold empty_password_warning. destruct (password _) as [[|]|]; by intros [= <-]. Qed.
Lemma weak_cipher_warn ob w : weak_cipher_warning ob = Some w → severity w = Warn.
Proof.
  unfold weak_cipher_warning. destruct (_ || _); [|done]. destruct (method _); [|done].
  destruct (bool_decide _); by intros [= <-].
Qed.

Definition exposed_api (config : Config) : Prop :=
  ∃ a, api config = Some a ∧ secret a = None ∧ listen a ≠ "127.0.0.1" ∧ listen a ≠ "localhost".

Definition is_ascii (v : bytes) : bool := forallb (fun b => byte_to_Z b <? 128) v.

Lemma ascii_boundary v i : is_ascii v = true → (i ≤ length v)%nat → is_char_boundary v i = true.
Proof.
  intros Ha Hi. unfold is_char_boundary. destruct (_ || _) eqn:E; [done|].
  apply orb_false_iff in E as [_ E]. apply Nat.eqb_neq in E.
  destruct (v !! i) as [b|] eqn:Eb; [|apply lookup_ge_None in Eb; lia].
  unfold is_ascii in Ha. rewrite forallb_forall in Ha.
  specialize (Ha b (proj1 (list_elem_of_In _ _) (list_elem_of_lookup_2 _ _ _ Eb))).
  apply Z.ltb_lt in Ha. unfold is_cont, in_range.
  rewrite (proj2 (Z.leb_gt 128 (byte_to_Z b))) by lia. done.
Qed.

(** ** Properties *)

(** The security audit refuses to start exactly for an API that listens
    anywhere but on 127.0.0.1 or localhost without a secret; nothing an outbound
    does (insecure TLS, an empty password, a weak cipher) blocks start-up. *)
Theorem audit_blocks_exactly config :
  (blocked (audit_config config) = true ↔ exposed_api config)
  ∧ (validate_and_warn config = Ok tt ↔ ~ exposed_api config).
Proof.
  assert (H : blocked (audit_config config) = true ↔ exposed_api config).
  { unfold audit_config. cbn [blocked]. rewrite !existsb_app.
    rewrite (omap_no_block _ _ insecure_warn), (omap_no_block _ _ empty_password_warn),
      (omap_no_block _ _ weak_cipher_warn). rewrite !orb_false_r, orb_false_l. unfold exposed_api.
    destruct (api config) as [a|].
    - unfold api_warning. destruct (secret a) as [sec|] eqn:Es; simpl.
      + split; [done|]. intros (a' & [= <-] & H & _). congruence.
      + destruct (String.eqb (listen a) "127.0.0.1") eqn:E1; simpl;
          [|destruct (String.eqb (listen a) "localhost") eqn:E2; simpl]; split; try done.
        * intros (a' & [= <-] & _ & H & _). by apply String.eqb_eq in E1.
        * intros (a' & [= <-] & _ & _ & H). by apply String.eqb_eq in E2.
        * intros _. apply String.eqb_neq in E1, E2. by exists a.
    - split; [done | by intros (a & H & _)]. }
  split; [done|]. rewrite <- H. unfold validate_and_warn.
  destruct (blocked (audit_config config)); split; try done.
Qed.

(** [mask_sensitive] never panics on an ASCII secret and reveals at most its
    first two and last two characters: a secret of four bytes or fewer is
    replaced completely, a longer one by eight bytes that do not depend on the
    middle or the length. *)
Theorem mask_reveals_little value :
  is_ascii (as_bytes value) = true →
  ∃ m, mask_sensitive value = Some m
    ∧ (length (as_bytes value) ≤ 4 → m = "****")%nat
    ∧ (4 < length (as_bytes value) →
       as_bytes m = take 2 (as_bytes value) ++ as_bytes "****"
                    ++ drop (length (as_bytes value) - 2) (as_bytes value)
       ∧ length (as_bytes m) = 8)%nat.
Proof.
  intros Ha. unfold mask_sensitive. set (v := as_bytes value) in *.
  destruct (length v <=? 4)%nat eqn:E.
  - apply Nat.leb_le in E. exists "****". split_and!; [done | done | lia].
  - apply Nat.leb_gt in E. unfold slice_to, slice_from. rewrite !ascii_boundary by (done || lia).
    simpl. eexists. split; [reflexivity|]. split; [lia|]. intros _.
    assert (Happ : ∀ s t, as_bytes (s +:+ t) = as_bytes s ++ as_bytes t).
    { intros s t. induction s as [|a s IH]; [done|]. unfold as_bytes, String.list_byte_of_string in *.
      rewrite app_cons_str. simpl. by rewrite IH. }
    rewrite !Happ, !as_of_bytes. split; [done|].
    rewrite !length_app, length_take, length_drop. change (length (as_bytes "****")) with 4%nat. lia.
Qed.

Lemma mask_reveals_little_witness :
  ∃ m, mask_sensitive "hunter22" = Some m ∧ as_bytes m = as_bytes "hu****22".
Proof.
  destruct (mask_reveals_little "hunter22" eq_refl) as (m & Hm & _ & H).
  exists m. split; [exact Hm|]. destruct H as [H _]; [simpl; lia|]. exact H.
Defined.

(** [mask_sensitive] panics on a secret whose second or second-to-last
    character is not ASCII, such as one that begins with "a" and a two-byte
    character: the slice falls inside the character. *)
Theorem mask_panics_inside_character a rest :
  (2 ≤ length (as_bytes rest))%nat →
  mask_sensitive (of_bytes [a; Byte.xc3; Byte.xa9] +:+ rest) = None.
Proof.
  intros Hl. unfold mask_sensitive.
  assert (Hb : as_bytes (of_bytes [a; Byte.xc3; Byte.xa9] +:+ rest)
               = a :: Byte.xc3 :: Byte.xa9 :: as_bytes rest).
  { unfold as_bytes, String.list_byte_of_string, of_bytes. simpl. by rewrite !Ascii.byte_of_ascii_of_byte. }
  rewrite Hb. cbn [length]. rewrite (proj2 (Nat.leb_gt _ _)) by lia.
  unfold slice_to, is_char_boundary. cbn [lookup list_lookup].
  rewrite orb_false_l. rewrite (proj2 (Nat.eqb_neq _ _)) by (cbn [length]; lia). done.
Qed.

Lemma mask_panics_inside_character_witness :
  mask_sensitive (of_bytes [Byte.x61; Byte.xc3; Byte.xa9] +:+ "cret") = None.
Proof. apply (mask_panics_inside_character Byte.x61 "cret"). simpl. lia. Defined.
