(* ===== verification/Groups.v ===== *)
(** * Proxy groups ([src/src/proxy/group/])

    A group is an outbound that passes each connection on to one of its
    members, which may be groups themselves.  The shared handler objects
    ([Arc<dyn OutboundHandler>]) live in a store and are named by their index;
    a connection walks from group to member until it reaches an outbound that
    is not a group.  Selection, health state, counters and sticky maps are the
    state of each object.  Clock readings and the outcomes of probes are
    arguments; the hash function of the standard library ([DefaultHasher], whose
    algorithm is unspecified), [powf] and the URL parser are parameters.
    Unsigned additions are those of a release build (modulo 2^64). *)

From S2P Require Import Prelude RustStr Addr IpText F64 Rules.

Local Open Scope string_scope.
Local Open Scope list_scope.
Local Open Scope Z_scope.

(** ** Parameters *)

(** What [parse_url] reads of a parsed URL. *)
Record Url := {
  host_str : option string;
  port_or_known_default : option Z;
  scheme : string;
  path : string;
  query : option string
}.

Class GroupEnv := {
  default_hash : string → Z;
  powf : f64 → f64 → f64;
  url_parse : string → option Url
}.

(** The loop [for (idx, name) in names.iter().enumerate()] returning early. *)
Fixpoint find_index {A} (p : A → bool) (l : list A) : option nat :=
  match l with
  | [] => None
  | a :: l => if p a then Some 0%nat else S <$> find_index p l
  end.

(** ** Data *)

Record HealthChecker := {
  hc_proxies : list nat;
  hc_proxy_names : list string;
  hc_url : string;
  hc_interval : Z;
  hc_latencies : gmap string (option Z)
}.

Record SelectorGroup := {
  sg_name : string;
  sg_proxies : list nat;
  sg_proxy_names : list string;
  sg_selected : nat
}.

Record UrlTestGroup := {
  ug_name : string;
  ug_proxies : list nat;
  ug_proxy_names : list string;
  ug_selected : nat;
  ug_health : HealthChecker;
  ug_tolerance : Z
}.

Record FallbackGroup := {
  fg_name : string;
  fg_proxies : list nat;
  fg_proxy_names : list string;
  fg_health : HealthChecker
}.

Inductive LbStrategy := RoundRobin | Random | ConsistentHash | StickyStrategy.

Record LoadBalanceGroup := {
  lg_name : string;
  lg_proxies : list nat;
  lg_proxy_names : list string;
  lg_counter : Z;
  lg_strategy : LbStrategy
}.

Record LatencySample := { timestamp_ms : Z; latency_ms : Z }.

Record LatencyWeightedGroup := {
  wg_tag : string;
  wg_proxies : list nat;
  wg_proxy_names : list string;
  wg_health : HealthChecker;
  wg_history : gmap string (list LatencySample);
  wg_max_history : nat;
  wg_weight_exponent : f64;
  wg_counter : Z
}.

Record StickyGroup := {
  kg_tag : string;
  kg_proxies : list nat;
  kg_proxy_names : list string;
  kg_sticky_map : gmap string nat
}.

Inductive Handler :=
| Outbound (tag : string)
| Selector (g : SelectorGroup)
| UrlTest (g : UrlTestGroup)
| Fallback (g : FallbackGroup)
| LoadBalance (g : LoadBalanceGroup)
| LatencyWeighted (g : LatencyWeightedGroup)
| Sticky (g : StickyGroup).

Definition members (h : Handler) : list nat :=
  match h with
  | Outbound _ => []
  | Selector g => sg_proxies g
  | UrlTest g => ug_proxies g
  | Fallback g => fg_proxies g
  | LoadBalance g => lg_proxies g
  | LatencyWeighted g => wg_proxies g
  | Sticky g => kg_proxies g
  end.

Definition member_names (h : Handler) : list string :=
  match h with
  | Outbound _ => []
  | Selector g => sg_proxy_names g
  | UrlTest g => ug_proxy_names g
  | Fallback g => fg_proxy_names g
  | LoadBalance g => lg_proxy_names g
  | LatencyWeighted g => wg_proxy_names g
  | Sticky g => kg_proxy_names g
  end.

Definition health_of (h : Handler) : option HealthChecker :=
  match h with
  | UrlTest g => Some (ug_health g)
  | Fallback g => Some (fg_health g)
  | LatencyWeighted g => Some (wg_health g)
  | _ => None
  end.

Abbreviation store := (list Handler).

(** ** Selection *)

Definition health_new (proxies : list nat) (names : list string) (url : string) (interval : Z)
  : HealthChecker :=
  {| hc_proxies := proxies; hc_proxy_names := names; hc_url := url; hc_interval := interval;
     hc_latencies := ∅ |}.

(** [latencies.get(name).copied().flatten()] *)
Definition latency_of (lat : gmap string (option Z)) (name : string) : option Z :=
  match lat !! name with Some (Some l) => Some l | _ => None end.
Definition available (lat : gmap string (option Z)) (name : string) : bool :=
  match lat !! name with Some (Some _) => true | _ => false end.

Definition selector_new (name : string) (proxies : list nat) (names : list string) : SelectorGroup :=
  {| sg_name := name; sg_proxies := proxies; sg_proxy_names := names; sg_selected := 0 |}.

Definition select (g : SelectorGroup) (name : string) : SelectorGroup * bool :=
  match find_index (String.eqb name) (sg_proxy_names g) with
  | Some idx =>
      ({| sg_name := sg_name g; sg_proxies := sg_proxies g; sg_proxy_names := sg_proxy_names g;
          sg_selected := idx |}, true)
  | None => (g, false)
  end.

Definition fallback_new (name : string) (proxies : list nat) (names : list string) (url : string)
    (interval : Z) : FallbackGroup :=
  {| fg_name := name; fg_proxies := proxies; fg_proxy_names := names;
     fg_health := health_new proxies names url interval |}.

Definition first_available (g : FallbackGroup) : nat :=
  default 0%nat (find_index (available (hc_latencies (fg_health g))) (fg_proxy_names g)).

Definition urltest_new (name : string) (proxies : list nat) (names : list string) (url : string)
    (interval tolerance : Z) : UrlTestGroup :=
  {| ug_name := name; ug_proxies := proxies; ug_proxy_names := names; ug_selected := 0;
     ug_health := health_new proxies names url interval; ug_tolerance := tolerance |}.

(** The loop over the names: best index and latency so far. *)
Fixpoint best_loop (lat : gmap string (option Z)) (names : list string) (idx : nat)
    (best_idx : option nat) (best_latency : Z) : option nat * Z :=
  match names with
  | [] => (best_idx, best_latency)
  | name :: names =>
      match lat !! name with
      | Some (Some l) =>
          if l <? best_latency then best_loop lat names (S idx) (Some idx) l
          else best_loop lat names (S idx) best_idx best_latency
      | _ => best_loop lat names (S idx) best_idx best_latency
      end
  end.

Definition set_ug_selected (g : UrlTestGroup) (i : nat) : UrlTestGroup :=
  {| ug_name := ug_name g; ug_proxies := ug_proxies g; ug_proxy_names := ug_proxy_names g;
     ug_selected := i; ug_health := ug_health g; ug_tolerance := ug_tolerance g |}.

(** [None]: the current index is out of range, a panic. *)
Definition update_selection (g : UrlTestGroup) : option UrlTestGroup :=
  let latencies := hc_latencies (ug_health g) in
  let current_idx := ug_selected g in
  current_name ← ug_proxy_names g !! current_idx;
  let current_latency := latency_of latencies current_name in
  Some (match best_loop latencies (ug_proxy_names g) 0 None u64_max with
        | (Some best, best_latency) =>
            let should_switch := match current_latency with
                                 | Some cur => wrap 64 (best_latency + ug_tolerance g) <? cur
                                 | None => true
                                 end in
            if should_switch && negb (best =? current_idx)%nat then set_ug_selected g best else g
        | (None, _) => g
        end).

(** *** Load balancing *)

Definition strategy_from_str_opt (s : option string) : LbStrategy :=
  match s with
  | Some s =>
      if String.eqb s "random" then Random
      else if String.eqb s "consistent-hash" || String.eqb s "consistent-hashing" then ConsistentHash
      else if String.eqb s "sticky" then StickyStrategy
      else RoundRobin
  | None => RoundRobin
  end.

Definition loadbalance_new (name : string) (proxies : list nat) (names : list string)
    (strategy : LbStrategy) : LoadBalanceGroup :=
  {| lg_name := name; lg_proxies := proxies; lg_proxy_names := names; lg_counter := 0;
     lg_strategy := strategy |}.

Definition wrap_i64 (z : Z) : Z := (z + 2 ^ 63) mod 2 ^ 64 - 2 ^ 63.

Definition jump_mul (h : Z) : Z := wrap 64 (wrap 64 (h * 2862933555777941757) + 1).

(** The next jump from bucket [b] with hash state [h]. *)
Definition jump_next (h b : Z) : Z :=
  f64_as_i64 (f64_div (f64_mul (f64_of_u64 (wrap_i64 (b + 1))) (f64_of_u64 (2 ^ 31)))
                      (f64_of_u64 (wrap 64 (Z.shiftr h 33 + 1)))).

Fixpoint jump_loop (fuel : nat) (h b j buckets : Z) : option Z :=
  match fuel with
  | O => None
  | S fuel =>
      if j <? buckets then
        let b := j in
        let h := jump_mul h in
        jump_loop fuel h b (jump_next h b) buckets
      else Some b
  end.

Section Env.
Context `{GroupEnv}.

(** [b as usize]; [None] only when the loop exceeds its fuel. *)
Definition consistent_hash (key : string) (buckets : nat) : option Z :=
  wrap 64 <$> jump_loop (S buckets) (default_hash key) (-1) 0 (wrap_i64 (Z.of_nat buckets)).

(** An index, a panic, or a loop that did not end. *)
Inductive picked := Pick (i : nat) | PickPanics | PickOutOfFuel.

Definition set_lg_counter (g : LoadBalanceGroup) (c : Z) : LoadBalanceGroup :=
  {| lg_name := lg_name g; lg_proxies := lg_proxies g; lg_proxy_names := lg_proxy_names g;
     lg_counter := c; lg_strategy := lg_strategy g |}.

Definition pick_hash (key : string) (len : nat) : picked :=
  match consistent_hash key len with Some i => Pick (Z.to_nat i) | None => PickOutOfFuel end.

(** [nanos]: the sub-second part of the clock. *)
Definition select_index (g : LoadBalanceGroup) (session : Session) (nanos : Z)
  : LoadBalanceGroup * picked :=
  let len := length (lg_proxies g) in
  if (len =? 0)%nat then (g, Pick 0) else
  let next := set_lg_counter g (wrap 64 (lg_counter g + 1)) in
  match lg_strategy g with
  | RoundRobin => (next, Pick (Z.to_nat (lg_counter g mod Z.of_nat len)))
  | Random => (next, Pick (Z.to_nat (wrap 64 (lg_counter g + nanos) mod Z.of_nat len)))
  | ConsistentHash => (g, pick_hash (address_to_string (target session)) len)
  | StickyStrategy =>
      (g, pick_hash (match source session with
                     | Some s => ip_to_string (sock_ip s)
                     | None => address_to_string (target session)
                     end) len)
  end.

(** *** Latency history *)

Definition latency_weighted_new (tag : string) (proxies : list nat) (names : list string)
    (url : string) (interval : Z) (max_history : nat) (exponent : f64) : LatencyWeightedGroup :=
  {| wg_tag := tag; wg_proxies := proxies; wg_proxy_names := names;
     wg_health := health_new proxies names url interval; wg_history := ∅;
     wg_max_history := max_history; wg_weight_exponent := exponent; wg_counter := 0 |}.

Definition set_wg_history (g : LatencyWeightedGroup) (h : gmap string (list LatencySample)) :=
  {| wg_tag := wg_tag g; wg_proxies := wg_proxies g; wg_proxy_names := wg_proxy_names g;
     wg_health := wg_health g; wg_history := h; wg_max_history := wg_max_history g;
     wg_weight_exponent := wg_weight_exponent g; wg_counter := wg_counter g |}.
Definition set_wg_counter (g : LatencyWeightedGroup) (c : Z) :=
  {| wg_tag := wg_tag g; wg_proxies := wg_proxies g; wg_proxy_names := wg_proxy_names g;
     wg_health := wg_health g; wg_history := wg_history g; wg_max_history := wg_max_history g;
     wg_weight_exponent := wg_weight_exponent g; wg_counter := c |}.

Definition record_latency (g : LatencyWeightedGroup) (name : string) (lat now_ms : Z)
  : LatencyWeightedGroup :=
  let samples := default [] (wg_history g !! name)
                 ++ [{| timestamp_ms := now_ms; latency_ms := lat |}] in
  let samples := if (wg_max_history g <? length samples)%nat
                 then drop (length samples - wg_max_history g) samples else samples in
  set_wg_history g (<[name := samples]> (wg_history g)).

Definition history_size (g : LatencyWeightedGroup) (name : string) : nat :=
  default 0%nat (length <$> wg_history g !! name).

Definition hist_avg (h : gmap string (list LatencySample)) (name : string) : option Z :=
  match h !! name with
  | None | Some [] => None
  | Some samples =>
      Some (foldl (fun a s => wrap 64 (a + latency_ms s)) 0 samples / Z.of_nat (length samples))
  end.

Definition avg_latency (g : LatencyWeightedGroup) (name : string) : option Z :=
  match latency_of (hc_latencies (wg_health g)) name, hist_avg (wg_history g) name with
  | Some c, Some h => Some (wrap 64 (c + h) / 2)
  | Some c, None => Some c
  | None, Some h => Some h
  | None, None => None
  end.

Definition weight_of (g : LatencyWeightedGroup) (avg : Z) : f64 :=
  if avg =? 0 then f64_of_u64 1
  else f64_div (f64_of_u64 1) (powf (f64_of_u64 avg) (wg_weight_exponent g)).

Fixpoint weights_from (g : LatencyWeightedGroup) (names : list string) (idx : nat)
  : list (nat * f64) :=
  match names with
  | [] => []
  | name :: names =>
      match avg_latency g name with
      | Some avg => (idx, weight_of g avg) :: weights_from g names (S idx)
      | None => weights_from g names (S idx)
      end
  end.
Definition compute_weights (g : LatencyWeightedGroup) : list (nat * f64) :=
  weights_from g (wg_proxy_names g) 0.

Fixpoint weighted_loop (weights : list (nat * f64)) (position cumulative : f64) : option nat :=
  match weights with
  | [] => None
  | (idx, weight) :: weights =>
      let cumulative := f64_add cumulative weight in
      if f64_lt position cumulative then Some idx else weighted_loop weights position cumulative
  end.

Definition select_proxy (g : LatencyWeightedGroup) : LatencyWeightedGroup * picked :=
  let weights := compute_weights g in
  let next := set_wg_counter g (wrap 64 (wg_counter g + 1)) in
  match weights with
  | [] =>
      match length (wg_proxies g) with
      | O => (next, PickPanics)
      | len => (next, Pick (Z.to_nat (wg_counter g mod Z.of_nat len)))
      end
  | (first, _) :: _ =>
      let total_weight := foldl (fun a w => f64_add a w.2) (f64_of_u64 0) weights in
      if f64_le total_weight (f64_of_u64 0) then (g, Pick first) else
      let position := f64_div (f64_rem (f64_of_u64 (wg_counter g))
                                       (f64_mul total_weight (f64_of_u64 1000))) (f64_of_u64 1000) in
      (next, Pick (match weighted_loop weights position (f64_of_u64 0) with
                   | Some idx => idx
                   | None => default 0%nat (fst <$> last weights)
                   end))
  end.

(** *** Sticky targets *)

Definition sticky_new (tag : string) (proxies : list nat) (names : list string) : StickyGroup :=
  {| kg_tag := tag; kg_proxies := proxies; kg_proxy_names := names; kg_sticky_map := ∅ |}.

Definition set_sticky_map (g : StickyGroup) (m : gmap string nat) : StickyGroup :=
  {| kg_tag := kg_tag g; kg_proxies := kg_proxies g; kg_proxy_names := kg_proxy_names g;
     kg_sticky_map := m |}.
Definition clear_sticky (g : StickyGroup) : StickyGroup := set_sticky_map g ∅.

Definition simple_hash (s : string) : Z :=
  foldl (fun hash b => wrap 64 (wrap 64 (hash * 33) + byte_to_Z b)) 5381 (as_bytes s).

Definition sticky_pick (g : StickyGroup) (session : Session) : StickyGroup * picked :=
  let key := address_to_string (target session) in
  match kg_sticky_map g !! key with
  | Some i => (g, Pick (if (i <? length (kg_proxies g))%nat then i else 0%nat))
  | None =>
      match length (kg_proxies g) with
      | O => (g, PickPanics)
      | len =>
          let idx := Z.to_nat (simple_hash key mod Z.of_nat len) in
          (set_sticky_map g (<[key := idx]> (kg_sticky_map g)), Pick idx)
      end
  end.

(** ** Connections *)

(** One selection by a group object; an outbound that is no group selects
    nothing. *)
Definition pick (h : Handler) (session : Session) (nanos : Z) : Handler * picked :=
  match h with
  | Outbound _ => (h, PickPanics)
  | Selector g => (h, Pick (sg_selected g))
  | UrlTest g =>
      match update_selection g with
      | Some g => (UrlTest g, Pick (ug_selected g))
      | None => (h, PickPanics)
      end
  | Fallback g => (h, Pick (first_available g))
  | LoadBalance g => let '(g, p) := select_index g session nanos in (LoadBalance g, p)
  | LatencyWeighted g => let '(g, p) := select_proxy g in (LatencyWeighted g, p)
  | Sticky g => let '(g, p) := sticky_pick g session in (Sticky g, p)
  end.

(** [selected_name] of the three group types that have it; [None] is a panic. *)
Definition selected_name (h : Handler) : option (Handler * string) :=
  match h with
  | Selector g => n ← sg_proxy_names g !! sg_selected g; Some (h, n)
  | UrlTest g =>
      g ← update_selection g;
      n ← ug_proxy_names g !! ug_selected g; Some (UrlTest g, n)
  | Fallback g => n ← fg_proxy_names g !! first_available g; Some (h, n)
  | _ => None
  end.

(** Where a connection ends: at the outbound that is asked to connect, refused
    by a group without UDP, with a panic, or not within the fuel. *)
Inductive conn := Reached (leaf : nat) | UdpNotSupported (tag : string) | ConnPanics | ConnOutOfFuel.

(** [connect] and, with [udp], [connect_udp] of the object [id].  [nanos] gives
    the clock reading at each object. *)
Fixpoint connect (fuel : nat) (nanos : nat → Z) (σ : store) (id : nat) (session : Session)
    (udp : bool) : store * conn :=
  match fuel with
  | O => (σ, ConnOutOfFuel)
  | S fuel =>
      match σ !! id with
      | None => (σ, ConnPanics)
      | Some (Outbound _) => (σ, Reached id)
      | Some h =>
          match h, udp with
          | Sticky g, true => (σ, UdpNotSupported (kg_tag g))
          | _, _ =>
              let '(h', p) := pick h session (nanos id) in
              let σ := <[id := h']> σ in
              match p with
              | PickPanics => (σ, ConnPanics)
              | PickOutOfFuel => (σ, ConnOutOfFuel)
              | Pick idx =>
                  match members h !! idx with
                  | None => (σ, ConnPanics)
                  | Some next => connect fuel nanos σ next session udp
                  end
              end
          end
      end
  end.

(** ** Health checks *)

Definition parse_url (url : string) : option (string * Z * string) :=
  let full := if starts_with "http://" url || starts_with "https://" url then url
              else "http://" +:+ url in
  parsed ← url_parse full;
  host ← host_str parsed;
  let host := if starts_with "[" host && ends_with "]" host && (2 <? str_len host)
              then String.substring 1 (String.length host - 2) host else host in
  let port := default (if String.eqb (scheme parsed) "https" then 443 else 80)
                      (port_or_known_default parsed) in
  let p := if String.eqb (path parsed) "" then "/" else path parsed in
  let p := match query parsed with Some q => p +:+ "?" +:+ q | None => p end in
  Some (host, port, p).

(** A probe in three calls under a timeout (connect, send the request, read);
    [io] tells the elapsed milliseconds when they all succeed.  [None] as result
    is a panic, or out of fuel, of the connection. *)
Definition test_proxy (fuel : nat) (nanos : nat → Z) (io : nat → option Z) (σ : store) (id : nat)
    (url : string) : store * option (option Z) :=
  match parse_url url with
  | None => (σ, Some None)
  | Some (host, port, _) =>
      let session := mkSession (Domain host port) None "health-check" Tcp false None in
      match connect fuel nanos σ id session false with
      | (σ, Reached leaf) => (σ, Some (io leaf))
      | (σ, UdpNotSupported _) => (σ, Some None)
      | (σ, _) => (σ, None)
      end
  end.

Fixpoint check_loop (fuel : nat) (nanos : nat → nat → Z) (io : nat → nat → option Z) (σ : store)
    (proxies : list nat) (names : list string) (idx : nat) (url : string)
    (results : gmap string (option Z)) : store * option (gmap string (option Z)) :=
  match proxies with
  | [] => (σ, Some results)
  | p :: proxies =>
      match names !! idx with
      | None => (σ, None)
      | Some name =>
          match test_proxy fuel (nanos idx) (io idx) σ p url with
          | (σ, Some lat) =>
              check_loop fuel nanos io σ proxies names (S idx) url (<[name := lat]> results)
          | (σ, None) => (σ, None)
          end
      end
  end.

Definition set_latencies (h : HealthChecker) (l : gmap string (option Z)) : HealthChecker :=
  {| hc_proxies := hc_proxies h; hc_proxy_names := hc_proxy_names h; hc_url := hc_url h;
     hc_interval := hc_interval h; hc_latencies := l |}.
Definition set_health (h : Handler) (l : gmap string (option Z)) : Handler :=
  match h with
  | UrlTest g =>
      UrlTest {| ug_name := ug_name g; ug_proxies := ug_proxies g;
                 ug_proxy_names := ug_proxy_names g; ug_selected := ug_selected g;
                 ug_health := set_latencies (ug_health g) l; ug_tolerance := ug_tolerance g |}
  | Fallback g =>
      Fallback {| fg_name := fg_name g; fg_proxies := fg_proxies g;
                  fg_proxy_names := fg_proxy_names g;
                  fg_health := set_latencies (fg_health g) l |}
  | LatencyWeighted g =>
      LatencyWeighted
        {| wg_tag := wg_tag g; wg_proxies := wg_proxies g; wg_proxy_names := wg_proxy_names g;
           wg_health := set_latencies (wg_health g) l; wg_history := wg_history g;
           wg_max_history := wg_max_history g; wg_weight_exponent := wg_weight_exponent g;
           wg_counter := wg_counter g |}
  | h => h
  end.

(** One round over the members of the group object [id]; [None] when a
    connection of the round panicked. *)
Definition check_all (fuel : nat) (nanos : nat → nat → Z) (io : nat → nat → option Z) (σ : store)
    (id : nat) : option store :=
  h ← σ !! id;
  hc ← health_of h;
  match check_loop fuel nanos io σ (hc_proxies hc) (hc_proxy_names hc) 0 (hc_url hc) ∅ with
  | (σ, Some results) => Some (alter (fun h => set_health h results) id σ)
  | (_, None) => None
  end.

Definition test_single (fuel : nat) (nanos : nat → Z) (io : nat → option Z) (σ : store)
    (hc : HealthChecker) (name url : string) : store * option (option Z) :=
  match find_index (String.eqb name) (hc_proxy_names hc) with
  | None => (σ, Some None)
  | Some idx =>
      match hc_proxies hc !! idx with
      | None => (σ, None)
      | Some p => test_proxy fuel nanos io σ p url
      end
  end.

(** ** Construction *)

Record ProxyGroupConfig := {
  cfg_name : string;
  group_type : string;
  cfg_proxies : list string;
  cfg_url : option string;
  cfg_interval : Z;
  cfg_tolerance : Z;
  cfg_strategy : option string
}.

Inductive group_error :=
| UnknownProxy (group proxy : string)
| NoProxies (group : string)
| UnsupportedType (type group : string).

Definition find_handler (existing : gmap string nat) (result : list (string * nat)) (name : string)
  : option nat :=
  match existing !! name with
  | Some id => Some id
  | None => snd <$> List.find (fun e => String.eqb e.1 name) result
  end.

Fixpoint collect_members (group : string) (existing : gmap string nat) (built : list (string * nat))
    (names : list string) : result group_error (list nat) :=
  match names with
  | [] => Ok []
  | name :: names =>
      match find_handler existing built name with
      | None => Err (UnknownProxy group name)
      | Some id => let? ids := collect_members group existing built names in Ok (id :: ids)
      end
  end.

Definition default_test_url : string := "http://www.gstatic.com/generate_204".

Definition make_group (c : ProxyGroupConfig) (proxies : list nat) : result group_error Handler :=
  let url := default default_test_url (cfg_url c) in
  if String.eqb (group_type c) "selector" then
    Ok (Selector (selector_new (cfg_name c) proxies (cfg_proxies c)))
  else if String.eqb (group_type c) "url-test" then
    Ok (UrlTest (urltest_new (cfg_name c) proxies (cfg_proxies c) url (cfg_interval c)
                             (cfg_tolerance c)))
  else if String.eqb (group_type c) "fallback" then
    Ok (Fallback (fallback_new (cfg_name c) proxies (cfg_proxies c) url (cfg_interval c)))
  else if String.eqb (group_type c) "load-balance" then
    Ok (LoadBalance (loadbalance_new (cfg_name c) proxies (cfg_proxies c)
                                     (strategy_from_str_opt (cfg_strategy c))))
  else if String.eqb (group_type c) "latency-weighted" then
    Ok (LatencyWeighted (latency_weighted_new (cfg_name c) proxies (cfg_proxies c) url
                           (cfg_interval c) 20 (f64_of_u64 2)))
  else if String.eqb (group_type c) "sticky" then
    Ok (Sticky (sticky_new (cfg_name c) proxies (cfg_proxies c)))
  else Err (UnsupportedType (group_type c) (cfg_name c)).

Fixpoint build_loop (existing : gmap string nat) (configs : list ProxyGroupConfig) (σ : store)
    (built : list (string * nat)) : result group_error (store * list (string * nat)) :=
  match configs with
  | [] => Ok (σ, built)
  | c :: configs =>
      let? proxies := collect_members (cfg_name c) existing built (cfg_proxies c) in
      match proxies with
      | [] => Err (NoProxies (cfg_name c))
      | _ =>
          let? h := make_group c proxies in
          build_loop existing configs (σ ++ [h]) (built ++ [(cfg_name c, length σ)])
      end
  end.

Definition build_proxy_groups (configs : list ProxyGroupConfig) (existing : gmap string nat)
    (σ : store) : result group_error (store * list (string * nat)) :=
  build_loop existing configs σ [].

(** ** The operations on a running store *)

Inductive group_op :=
| OpSelect (id : nat) (name : string)
| OpConnect (id : nat) (nanos : nat → Z) (session : Session) (udp : bool)
| OpSelectedName (id : nat)
| OpTestSingle (id : nat) (nanos : nat → Z) (io : nat → option Z) (name url : string)
| OpCheckAll (id : nat) (nanos : nat → nat → Z) (io : nat → nat → option Z)
| OpRecordLatency (id : nat) (name : string) (lat now_ms : Z)
| OpClearSticky (id : nat).

(** The store after an operation; [None] when it panics. *)
Definition run_op (σ : store) (op : group_op) : option store :=
  match op with
  | OpSelect id name =>
      Some (alter (fun h => match h with Selector g => Selector (select g name).1 | h => h end) id σ)
  | OpConnect id nanos session udp =>
      match connect (S id) nanos σ id session udp with
      | (σ, Reached _) | (σ, UdpNotSupported _) => Some σ
      | _ => None
      end
  | OpSelectedName id =>
      match σ !! id with
      | None | Some (Outbound _ | LoadBalance _ | LatencyWeighted _ | Sticky _) => Some σ
      | Some h => '(h, _) ← selected_name h; Some (<[id := h]> σ)
      end
  | OpTestSingle id nanos io name url =>
      match health_of <$> σ !! id with
      | Some (Some hc) =>
          match test_single id nanos io σ hc name url with
          | (σ, Some _) => Some σ
          | (_, None) => None
          end
      | _ => Some σ
      end
  | OpCheckAll id nanos io =>
      match health_of <$> σ !! id with
      | Some (Some _) => check_all id nanos io σ id
      | _ => Some σ
      end
  | OpRecordLatency id name lat now_ms =>
      Some (alter (fun h => match h with
                            | LatencyWeighted g => LatencyWeighted (record_latency g name lat now_ms)
                            | h => h
                            end) id σ)
  | OpClearSticky id =>
      Some (alter (fun h => match h with Sticky g => Sticky (clear_sticky g) | h => h end) id σ)
  end.

Fixpoint run_ops (σ : store) (ops : list group_op) : option store :=
  match ops with
  | [] => Some σ
  | op :: ops => σ ← run_op σ op; run_ops σ ops
  end.

End Env.

(** ** Filters over member names *)

Definition filter_proxies (names : list string) (include_pattern exclude_pattern : option string)
  : list string :=
  List.filter (fun name =>
    if (match include_pattern with Some p => negb (contains p name) | None => false end) then false
    else if (match exclude_pattern with Some p => contains p name | None => false end) then false
    else true) names.

Definition filter_proxies_keyword (names keywords : list string) (exclude : bool) : list string :=
  List.filter (fun name =>
    let matches := existsb (fun kw => contains kw name) keywords in
    if exclude then negb matches else matches) names.

(** ** Validation of nested groups *)

Inductive nesting_error := TooDeep (group : string) | Circular (group : string) | NestOutOfFuel.

Section Nesting.
Variable configs : list ProxyGroupConfig.
Variable max_depth : nat.

Definition is_group_name (n : string) : bool :=
  existsb (fun c => String.eqb (cfg_name c) n) configs.

(** The loop over the members of a group. *)
Fixpoint check_members (check : string → gset string → result nesting_error (gset string))
    (proxies : list string) (visited : gset string) : result nesting_error (gset string) :=
  match proxies with
  | [] => Ok visited
  | p :: proxies =>
      if is_group_name p then let? visited := check p visited in check_members check proxies visited
      else check_members check proxies visited
  end.

Fixpoint check_depth (fuel : nat) (depth : nat) (name : string) (visited : gset string)
  : result nesting_error (gset string) :=
  match fuel with
  | O => Err NestOutOfFuel
  | S fuel =>
      if (max_depth <? depth)%nat then Err (TooDeep name)
      else if decide (name ∈ visited) then Err (Circular name)
      else
        let visited := {[name]} ∪ visited in
        let? visited :=
          match List.find (fun c => String.eqb (cfg_name c) name) configs with
          | Some config => check_members (check_depth fuel (S depth)) (cfg_proxies config) visited
          | None => Ok visited
          end in
        Ok (visited ∖ {[name]})
  end.

Fixpoint validate_loop (todo : list ProxyGroupConfig) : result nesting_error unit :=
  match todo with
  | [] => Ok tt
  | config :: todo =>
      let? _ := check_depth (S (S max_depth)) 0 (cfg_name config) ∅ in validate_loop todo
  end.

Definition validate_group_nesting : result nesting_error unit := validate_loop configs.
End Nesting.

(** ** Nesting: lemmas *)

(** [name] refers to the group [b]; chains of references and their length. *)
Definition refers (configs : list ProxyGroupConfig) (name b : string) : Prop :=
  ∃ c, List.find (fun c => String.eqb (cfg_name c) name) configs = Some c
       ∧ b ∈ cfg_proxies c ∧ is_group_name configs b = true.

Inductive chain (configs : list ProxyGroupConfig) : nat → string → string → Prop :=
| chain_nil a : chain configs 0 a a
| chain_cons k a b c : refers configs a b → chain configs k b c → chain configs (S k) a c.

Section NestingLemmas.
Variable configs : list ProxyGroupConfig.
Variable max_depth : nat.
Local Abbreviation refers := (refers configs).
Local Abbreviation chain := (chain configs).
Local Abbreviation check_depth := (check_depth configs max_depth).
Local Abbreviation check_members := (check_members configs).

Lemma chain_app k l a b c : chain k a b → chain l b c → chain (k + l) a c.
Proof. induction 1; intros Hl; simpl; [done|]. econstructor; eauto. Qed.
Lemma chain_snoc k a b c : chain k a b → refers b c → chain (S k) a c.
Proof.
  intros Hc Hr. replace (S k) with (k + 1)%nat by lia.
  eapply chain_app; [exact Hc|]. econstructor; [exact Hr | constructor].
Qed.

(** A cycle makes chains of every length. *)
Lemma chain_cycle k a n : chain (S k) a a → ∃ m, (n ≤ m)%nat ∧ chain m a a.
Proof.
  intros Hc. induction n as [|n (m & Hm & IH)]; [by exists 0%nat; split; [lia | constructor]|].
  exists (S k + m)%nat. split; [lia|]. eapply chain_app; eauto.
Qed.

Lemma check_members_ok check (P : string → Prop) proxies visited v :
  (∀ p v v', check p v = Ok v' → P p) →
  check_members check proxies visited = Ok v →
  ∀ p, p ∈ proxies → is_group_name configs p = true → P p.
Proof.
  intros HP. revert visited. induction proxies as [|q proxies IH]; intros visited; cbn [Groups.check_members].
  { intros _ p Hp. by apply elem_of_nil in Hp. }
  intros Hc p [->|Hp]%elem_of_cons Hg.
  - rewrite Hg in Hc. destruct (check q visited) eqn:E; [by eapply HP | done].
  - destruct (is_group_name configs q); [|by eapply IH].
    destruct (check q visited); [by eapply IH | done].
Qed.

Lemma check_depth_sound fuel depth name visited v :
  check_depth fuel depth name visited = Ok v → ∀ k b, chain k name b → (k + depth ≤ max_depth)%nat.
Proof.
  revert depth name visited v. induction fuel as [|fuel IH]; intros depth name visited v; [done|].
  cbn [Groups.check_depth]. destruct (Nat.ltb_spec max_depth depth) as [|Hd]; [done|].
  destruct (decide (name ∈ visited)); [done|]. intros Hc k b Hk. inversion Hk as [|k' ? b' ? Hr Hk']; subst; [done|].
  destruct Hr as (c & Hf & Hin & Hg). rewrite Hf in Hc.
  destruct (check_members _ _ _) as [v'|] eqn:Em; [|done].
  assert (∀ k b, chain k b' b → (k + S depth ≤ max_depth)%nat) as Hb; [|specialize (Hb _ _ Hk'); lia].
  eapply (check_members_ok _ (fun p => ∀ k b, chain k p b → (k + S depth ≤ max_depth)%nat)); [|exact Em|done..].
  intros p v1 v2 Hp. exact (IH _ _ _ _ Hp).
Qed.

Lemma check_members_done check proxies visited :
  (∀ p, p ∈ proxies → is_group_name configs p = true → check p visited = Ok visited) →
  check_members check proxies visited = Ok visited.
Proof.
  induction proxies as [|q proxies IH]; intros Hc; [done|]. cbn [Groups.check_members].
  destruct (is_group_name configs q) eqn:Hq.
  - rewrite Hc by (done || constructor). apply IH. intros p Hp. apply Hc. by constructor.
  - apply IH. intros p Hp. apply Hc. by constructor.
Qed.

Lemma check_depth_complete fuel depth name visited :
  (max_depth < fuel + depth)%nat →
  (∀ k b, chain k name b → (k + depth ≤ max_depth)%nat) →
  (∀ v, v ∈ visited → ∃ k, chain (S k) v name) →
  check_depth fuel depth name visited = Ok visited.
Proof.
  revert depth name visited. induction fuel as [|fuel IH]; intros depth name visited Hf Hb Hv.
  { pose proof (Hb 0%nat name (chain_nil _ _)). lia. }
  cbn [Groups.check_depth]. pose proof (Hb 0%nat name (chain_nil _ _)) as H0.
  rewrite (proj2 (Nat.ltb_ge _ _)) by lia.
  destruct (decide (name ∈ visited)) as [Hin|Hin].
  { destruct (Hv _ Hin) as (k & Hk). destruct (chain_cycle _ _ (S max_depth) Hk) as (m & Hm & Hc).
    specialize (Hb _ _ Hc). lia. }
  assert (Hm : match List.find (fun c => String.eqb (cfg_name c) name) configs with
               | Some config => check_members (check_depth fuel (S depth)) (cfg_proxies config)
                                  ({[name]} ∪ visited)
               | None => Ok ({[name]} ∪ visited)
               end = Ok ({[name]} ∪ visited)).
  { destruct (List.find _ _) as [c|] eqn:Ec; [|done]. apply check_members_done. intros p Hp Hg.
    assert (Hr : refers name p) by (by exists c). apply IH; [lia | |].
    - intros k b Hk. specialize (Hb (S k) b (chain_cons _ _ _ _ _ Hr Hk)). lia.
    - intros v [->%elem_of_singleton|Hvv]%elem_of_union.
      + exists 0%nat. econstructor; [exact Hr | constructor].
      + destruct (Hv _ Hvv) as (k & Hk). exists (S k). by eapply chain_snoc. }
  rewrite Hm. cbn [bind_result]. f_equal. set_solver.
Qed.

Lemma check_depth_fuel fuel depth name visited :
  (depth ≤ max_depth + 1 < fuel + depth)%nat → check_depth fuel depth name visited ≠ Err NestOutOfFuel.
Proof.
  revert depth name visited. induction fuel as [|fuel IH]; intros depth name visited Hf; [lia|].
  cbn [Groups.check_depth]. destruct (Nat.ltb_spec max_depth depth); [done|].
  destruct (decide (name ∈ visited)); [done|].
  destruct (List.find _ _) as [c|]; [|done].
  generalize ({[name]} ∪ visited). induction (cfg_proxies c) as [|p ps IHp]; intros v; [done|].
  cbn [Groups.check_members]. destruct (is_group_name configs p); [|apply IHp].
  pose proof (IH (S depth) p v ltac:(lia)) as Hp.
  destruct (check_depth fuel (S depth) p v) as [v'|[]]; try done. apply IHp.
Qed.
End NestingLemmas.

Lemma validate_loop_ok configs max_depth todo :
  validate_loop configs max_depth todo = Ok tt ↔
  ∀ c k b, c ∈ todo → chain configs k (cfg_name c) b → (k ≤ max_depth)%nat.
Proof.
  induction todo as [|c todo IH]; cbn [validate_loop].
  { split; [|done]. intros _ c k b Hc. by apply elem_of_nil in Hc. }
  split.
  - destruct (check_depth _ _ _ _ _ _) as [v|] eqn:E; [|done]. cbn [bind_result].
    intros Hv c' k b [->|Hc]%elem_of_cons Hk; [|by eapply IH].
    pose proof (check_depth_sound _ _ _ _ _ _ _ E _ _ Hk). lia.
  - intros Hall. rewrite check_depth_complete; [|lia| |set_solver].
    + cbn [bind_result]. apply IH. intros c' k b Hc. apply Hall. by constructor.
    + intros k b Hk. specialize (Hall c k b ltac:(constructor) Hk). lia.
Qed.

Lemma validate_loop_fuel configs max_depth todo :
  validate_loop configs max_depth todo ≠ Err NestOutOfFuel.
Proof.
  induction todo as [|c todo IH]; [done|]. cbn [validate_loop].
  pose proof (check_depth_fuel configs max_depth (S (S max_depth)) 0 (cfg_name c) ∅ ltac:(lia)).
  by destruct (check_depth _ _ _ _ _ _) as [|[]].
Qed.

(** [validate_group_nesting] always finishes, and accepts a configuration
    exactly when no chain of references between groups is longer than
    [max_depth]; a circular reference makes chains of every length, so it is
    always refused. *)
Theorem group_nesting_validated configs max_depth :
  validate_group_nesting configs max_depth ≠ Err NestOutOfFuel ∧
  (validate_group_nesting configs max_depth = Ok tt ↔
   ∀ c k b, c ∈ configs → chain configs k (cfg_name c) b → (k ≤ max_depth)%nat).
Proof. split; [apply validate_loop_fuel | apply validate_loop_ok]. Qed.

(** ** Consistent hashing: lemmas *)

Lemma wrap_i64_small z : -2 ^ 63 <= z < 2 ^ 63 → wrap_i64 z = z.
Proof. intros Hz. unfold wrap_i64. rewrite Z.mod_small by lia. lia. Qed.

Lemma jump_mul_range h : 0 <= jump_mul h < 2 ^ 64.
Proof. apply Z.mod_pos_bound. lia. Qed.

(** The step never goes back, rounding included. *)
Lemma jump_next_gt h b : 0 <= h < 2 ^ 64 → 0 <= b < 2 ^ 53 - 1 → b < jump_next h b.
Proof.
  intros Hh Hb. unfold jump_next. rewrite wrap_i64_small by lia.
  assert (Hs : 0 <= Z.shiftr h 33 < 2 ^ 31).
  { rewrite Z.shiftr_div_pow2 by lia. split; [apply Z.div_pos; lia|].
    apply Z.div_lt_upper_bound; lia. }
  unfold wrap. rewrite Z.mod_small by lia.
  pose proof (jump_step_ge (b + 1) (Z.shiftr h 33 + 1) ltac:(lia) ltac:(lia)). lia.
Qed.

(** The loop ends in the last bucket of the jump sequence below [n]; one more
    bucket leaves it there or moves it to the new one. *)
Lemma jump_loop_spec f1 f2 h b j n :
  b < j → 0 <= j → 0 <= n < 2 ^ 53 - 1 → n - j < Z.of_nat f1 → (S f1 ≤ f2)%nat → (0 < f1)%nat →
  ∃ r r', jump_loop f1 h b j n = Some r ∧ jump_loop f2 h b j (n + 1) = Some r' ∧
    (r' = r ∨ r' = n) ∧ (j < n → j <= r < n) ∧ (n <= j → r = b).
Proof.
  revert f2 h b j. induction f1 as [|f1 IH]; intros f2 h b j Hbj Hj Hn Hf1 Hf2 Hpos; [lia|].
  destruct f2 as [|f2]; [lia|]. cbn [jump_loop]. destruct (Z.ltb_spec j n) as [Hlt|Hge].
  - rewrite (proj2 (Z.ltb_lt j (n + 1))) by lia.
    pose proof (jump_next_gt (jump_mul h) j (jump_mul_range h) ltac:(lia)) as Hgt.
    destruct (IH f2 (jump_mul h) j (jump_next (jump_mul h) j)) as (r & r' & H1 & H2 & H3 & H4 & H5);
      [lia.. |].
    exists r, r'. repeat split; try done; try lia;
      destruct (Z.lt_ge_cases (jump_next (jump_mul h) j) n) as [Hc|Hc];
      try (specialize (H4 Hc); lia); specialize (H5 Hc); lia.
  - exists b. destruct (Z.ltb_spec j (n + 1)) as [Hc|Hc].
    + exists n. replace j with n in * by lia. repeat split; [|auto|lia..].
      pose proof (jump_next_gt (jump_mul h) n (jump_mul_range h) ltac:(lia)) as Hgt.
      destruct f2 as [|f2]; [lia|]. cbn [jump_loop].
      by rewrite (proj2 (Z.ltb_ge _ (n + 1))) by lia.
    + exists b. repeat split; auto; lia.
Qed.

Lemma consistent_hash_spec `{GroupEnv} key n :
  (0 < n)%nat → Z.of_nat n < 2 ^ 53 - 1 →
  ∃ i, consistent_hash key n = Some i ∧ 0 <= i < Z.of_nat n ∧
    (consistent_hash key (S n) = Some i ∨ consistent_hash key (S n) = Some (Z.of_nat n)).
Proof.
  intros Hn Hm. unfold consistent_hash. rewrite !wrap_i64_small by lia.
  destruct (jump_loop_spec (S n) (S (S n)) (default_hash key) (-1) 0 (Z.of_nat n))
    as (r & r' & H1 & H2 & H3 & H4 & _); [lia.. |].
  replace (Z.of_nat n + 1) with (Z.of_nat (S n)) in H2 by lia.
  specialize (H4 ltac:(lia)). rewrite H1, H2. unfold wrap. simpl. exists r.
  rewrite Z.mod_small by lia.
  repeat split; [lia | lia |]. destruct H3 as [->| ->]; [left|right]; by rewrite Z.mod_small by lia.
Qed.

(** The jump consistent hash always finishes with a bucket in range, and
    adding one bucket moves a key nowhere but to the new bucket: the floating
    point step never goes back to an earlier bucket. *)
Theorem consistent_hash_minimal_disruption `{GroupEnv} key n :
  (0 < n)%nat → Z.of_nat n < 2 ^ 53 - 1 →
  ∃ i, consistent_hash key n = Some i ∧ 0 <= i < Z.of_nat n ∧
    (consistent_hash key (S n) = Some i ∨ consistent_hash key (S n) = Some (Z.of_nat n)).
Proof. apply consistent_hash_spec. Qed.

(** The published test vectors of the algorithm. *)
Example jump_samples :
  jump_loop 60 42 (-1) 0 57 = Some 43 ∧ jump_loop 700 0xDEAD10CC (-1) 0 666 = Some 361
  ∧ jump_loop 1100 256 (-1) 0 1024 = Some 520.
Proof. repeat split; vm_compute; reflexivity. Qed.

(** ** Selection: lemmas *)

Lemma find_index_lt {A} (p : A → bool) l i : find_index p l = Some i → (i < length l)%nat.
Proof.
  revert i. induction l as [|a l IH]; intros i; [done|]. cbn [find_index].
  destruct (p a); [intros [= <-]; simpl; lia|].
  destruct (find_index p l) as [j|]; [|done]. intros [= <-]. specialize (IH j eq_refl). simpl. lia.
Qed.

(** The best index is that of a least latency. *)
Lemma best_loop_spec lat names idx b0 l0 :
  let '(bi, bl) := best_loop lat names idx b0 l0 in
  bl <= l0 ∧ (∀ n l, n ∈ names → latency_of lat n = Some l → bl <= l) ∧
  ((bi = b0 ∧ bl = l0) ∨
   (∃ i n, bi = Some (idx + i)%nat ∧ names !! i = Some n ∧ latency_of lat n = Some bl ∧ bl < l0)).
Proof.
  revert idx b0 l0. induction names as [|n names IH]; intros idx b0 l0; cbn [best_loop].
  { split; [lia|]. split; [|auto]. intros n l Hn. by apply elem_of_nil in Hn. }
  assert (Hskip : ∀ b1 l1,
    (∀ l, latency_of lat n = Some l → l1 <= l) → l1 <= l0 →
    ((b1 = b0 ∧ l1 = l0) ∨ (b1 = Some idx ∧ latency_of lat n = Some l1 ∧ l1 < l0)) →
    let '(bi, bl) := best_loop lat names (S idx) b1 l1 in
    bl <= l0 ∧ (∀ n' l, n' ∈ n :: names → latency_of lat n' = Some l → bl <= l) ∧
    ((bi = b0 ∧ bl = l0) ∨ (∃ i n', bi = Some (idx + i)%nat ∧ (n :: names) !! i = Some n'
                                   ∧ latency_of lat n' = Some bl ∧ bl < l0))).
  { intros b1 l1 Hl1 Hle Hor. specialize (IH (S idx) b1 l1).
    destruct (best_loop lat names (S idx) b1 l1) as [bi bl]. destruct IH as (I1 & I2 & I3).
    split; [lia|]. split.
    - intros n' l [->|Hn]%elem_of_cons Hlat; [specialize (Hl1 _ Hlat); lia | by eapply I2].
    - destruct I3 as [[-> ->]|(i & n' & -> & Hi & Hlat & Hlt)].
      + destruct Hor as [Ho|(-> & Ho1 & Ho2)]; [by left|]. right. exists 0%nat, n.
        by rewrite Nat.add_0_r.
      + right. exists (S i), n'. rewrite Nat.add_succ_r. repeat split; [done..|lia]. }
  assert (Hlat : latency_of lat n = match lat !! n with Some (Some l) => Some l | _ => None end) by done.
  destruct (lat !! n) as [[l|]|].
  - destruct (Z.ltb_spec l l0).
    + apply Hskip; [intros l' Hl'; simplify_eq/=; lia | lia | right; done].
    + apply Hskip; [intros l' Hl'; simplify_eq/=; lia | lia | by left].
  - apply Hskip; [intros l' Hl'; simplify_eq/= | lia | by left].
  - apply Hskip; [intros l' Hl'; simplify_eq/= | lia | by left].
Qed.

Lemma update_selection_shape g g' :
  update_selection g = Some g' → ug_proxies g' = ug_proxies g ∧ ug_proxy_names g' = ug_proxy_names g
    ∧ ug_health g' = ug_health g ∧ (ug_selected g' = ug_selected g ∨
        (ug_selected g' < length (ug_proxy_names g))%nat).
Proof.
  unfold update_selection. destruct (ug_proxy_names g !! ug_selected g) as [cur|]; [|done]. simpl.
  pose proof (best_loop_spec (hc_latencies (ug_health g)) (ug_proxy_names g) 0 None u64_max) as Hb.
  destruct (best_loop _ _ _ _ _) as [[best|] bl]; [|intros [= <-]; auto].
  destruct (_ && _); intros [= <-]; [|auto]. cbn. repeat split; [].
  destruct Hb as (_ & _ & [[? _]|(i & n & [= ->] & Hi & _)]); [done|]. right.
  by eapply lookup_lt_Some.
Qed.

(** After a url-test update, the selected member is within the tolerance of
    every measured member, and the selection moves only to a member of least
    latency and only when the current one was not measured or is slower by more
    than the tolerance. *)
Theorem urltest_selects_within_tolerance g :
  (ug_selected g < length (ug_proxy_names g))%nat → 0 <= ug_tolerance g →
  (∀ n l, latency_of (hc_latencies (ug_health g)) n = Some l → 0 <= l < u64_max - ug_tolerance g) →
  ∃ g', update_selection g = Some g' ∧
    let lat := latency_of (hc_latencies (ug_health g)) in
    (∀ n l, n ∈ ug_proxy_names g → lat n = Some l →
       ∃ n' l', ug_proxy_names g !! ug_selected g' = Some n' ∧ lat n' = Some l'
                ∧ l' <= l + ug_tolerance g) ∧
    (ug_selected g' ≠ ug_selected g →
       ∃ n' l', ug_proxy_names g !! ug_selected g' = Some n' ∧ lat n' = Some l' ∧
         (∀ n l, n ∈ ug_proxy_names g → lat n = Some l → l' <= l) ∧
         (∀ cur l, ug_proxy_names g !! ug_selected g = Some cur → lat cur = Some l →
            l' + ug_tolerance g < l)).
Proof.
  intros Hsel Htol Hlat. unfold update_selection.
  destruct (lookup_lt_is_Some_2 _ _ Hsel) as [cur Hcur]. rewrite Hcur. simpl.
  pose proof (best_loop_spec (hc_latencies (ug_health g)) (ug_proxy_names g) 0 None u64_max) as Hb.
  destruct (best_loop _ _ _ _ _) as [bi bl]. destruct Hb as (_ & Hmin & Hb).
  destruct Hb as [[-> ->]|(i & n & -> & Hi & Hbl & _)].
  { eexists. split; [done|]. split; [|done]. intros n l Hn Hl.
    specialize (Hmin n l Hn Hl). specialize (Hlat n l Hl). lia. }
  pose proof (Hlat _ _ Hbl) as Hr. unfold wrap. unfold u64_max in *. rewrite Z.mod_small by lia.
  eexists. split; [done|]. change (0 + i)%nat with i. destruct (Nat.eqb_spec i (ug_selected g)) as [->|Hne].
  { rewrite andb_false_r. split; [|done]. intros n' l' Hn' Hl'. exists n, bl.
    specialize (Hmin n' l' Hn' Hl'). repeat split; [done..|lia]. }
  rewrite andb_true_r.
  destruct (latency_of (hc_latencies (ug_health g)) cur) as [lc|] eqn:Hlc.
  - destruct (Z.ltb_spec (bl + ug_tolerance g) lc); cbn; (split; [|try done]).
    + intros n' l' Hn' Hl'. exists n, bl. specialize (Hmin n' l' Hn' Hl'). repeat split; [done..|lia].
    + intros _. exists n, bl. repeat split; [done..|]. intros ? ? [= <-] Hl. simplify_eq. done.
    + intros n' l' Hn' Hl'. exists cur, lc. specialize (Hmin n' l' Hn' Hl'). repeat split; [done..|lia].
  - cbn. split.
    + intros n' l' Hn' Hl'. exists n, bl. specialize (Hmin n' l' Hn' Hl'). repeat split; [done..|lia].
    + intros _. exists n, bl. repeat split; [done..|]. intros ? ? [= <-] Hl. simplify_eq.
Qed.

(** ** Running groups: lemmas *)

Definition selected_ok (h : Handler) : Prop :=
  match h with
  | Selector g => (sg_selected g < length (sg_proxies g))%nat
  | UrlTest g => (ug_selected g < length (ug_proxies g))%nat
  | _ => True
  end.

Record group_ok (id : nat) (h : Handler) : Prop := {
  gok_nonempty : (0 < length (members h))%nat;
  gok_names : length (member_names h) = length (members h);
  gok_size : Z.of_nat (length (members h)) < 2 ^ 53 - 1;
  gok_earlier : Forall (fun m => m < id)%nat (members h);
  gok_selected : selected_ok h;
  gok_health : ∀ hc, health_of h = Some hc →
                 hc_proxies hc = members h ∧ hc_proxy_names hc = member_names h
}.

Definition handler_ok (id : nat) (h : Handler) : Prop :=
  match h with Outbound _ => True | _ => group_ok id h end.
Definition store_ok (σ : store) : Prop := ∀ id h, σ !! id = Some h → handler_ok id h.

(** What operations never change: the outbounds and the members of groups. *)
Definition shape (h : Handler) : string + list nat * list string :=
  match h with Outbound tag => inl tag | _ => inr (members h, member_names h) end.
Definition same_shape (σ σ' : store) : Prop := shape <$> σ = shape <$> σ'.

(** The outbounds a group can hand a connection to. *)
Inductive reaches (σ : store) : nat → nat → Prop :=
| reaches_outbound id tag : σ !! id = Some (Outbound tag) → reaches σ id id
| reaches_member id h m leaf :
    σ !! id = Some h → m ∈ members h → reaches σ m leaf → reaches σ id leaf.

#[export] Instance same_shape_equiv : Equivalence same_shape.
Proof. unfold same_shape. split; [done | by intros ? ? -> | by intros ? ? ? -> ->]. Qed.

Lemma same_shape_length σ σ' : same_shape σ σ' → length σ = length σ'.
Proof. intros Hs. apply (f_equal length) in Hs. by rewrite !length_fmap in Hs. Qed.

Lemma same_shape_insert σ id h h' :
  σ !! id = Some h → shape h' = shape h → same_shape σ (<[id := h']> σ).
Proof.
  intros Hl Hs. unfold same_shape. rewrite list_fmap_insert, Hs.
  by rewrite list_insert_id by (by rewrite list_lookup_fmap, Hl).
Qed.

Lemma same_shape_lookup σ σ' id h :
  same_shape σ σ' → σ !! id = Some h → ∃ h', σ' !! id = Some h' ∧ shape h' = shape h.
Proof.
  intros Hs Hl. pose proof (f_equal (lookup id) Hs) as Hi. rewrite !list_lookup_fmap, Hl in Hi.
  destruct (σ' !! id) as [h'|]; [|done]. simpl in Hi. exists h'. split; [done|]. by simplify_eq.
Qed.

Lemma shape_members h h' : shape h' = shape h → members h' = members h.
Proof. destruct h, h'; simpl; intros; simplify_eq; done. Qed.

#[export] Instance reaches_proper : Proper (same_shape ==> eq ==> eq ==> iff) reaches.
Proof.
  assert (Hdir : ∀ σ σ' a b, same_shape σ σ' → reaches σ a b → reaches σ' a b).
  { intros σ σ' a b Hs Hr. induction Hr as [id tag Hl|id h m leaf Hl Hm _ IH].
    - destruct (same_shape_lookup _ _ _ _ Hs Hl) as ([] & Hl' & Hsh); try done.
      by eapply reaches_outbound.
    - destruct (same_shape_lookup _ _ _ _ Hs Hl) as (h' & Hl' & Hsh).
      eapply reaches_member; [exact Hl' | by rewrite (shape_members _ _ Hsh) | exact IH]. }
  intros σ σ' Hs ? a -> ? b ->. split; apply Hdir; [done | by symmetry].
Qed.

Lemma store_ok_insert σ id h' : store_ok σ → handler_ok id h' → store_ok (<[id := h']> σ).
Proof.
  intros Hok Hh i h. rewrite list_lookup_insert_Some. intros [(-> & -> & _)|[_ Hl]]; [done | by apply Hok].
Qed.

Section Running.
Context `{GroupEnv}.

Lemma weights_from_lt g names idx i w :
  (i, w) ∈ weights_from g names idx → (i < idx + length names)%nat.
Proof.
  revert idx. induction names as [|n names IH]; intros idx; cbn [weights_from].
  { intros Hin. by apply elem_of_nil in Hin. }
  destruct (avg_latency g n) as [a|].
  - intros [[= -> ->]|Hin]%elem_of_cons; [simpl; lia|]. specialize (IH _ Hin). simpl. lia.
  - intros Hin. specialize (IH _ Hin). simpl. lia.
Qed.

Lemma weighted_loop_in weights position cumulative i :
  weighted_loop weights position cumulative = Some i → ∃ w, (i, w) ∈ weights.
Proof.
  revert cumulative. induction weights as [|[j w] weights IH]; intros cumulative; [done|].
  cbn [weighted_loop]. destruct (f64_lt _ _).
  - intros [= ->]. exists w. by constructor.
  - intros Hl. destruct (IH _ Hl) as (w' & Hin). exists w'. by constructor.
Qed.

Lemma mod_index c len : (0 < len)%nat → (Z.to_nat (c mod Z.of_nat len) < len)%nat.
Proof. intros Hl. pose proof (Z.mod_pos_bound c (Z.of_nat len)). lia. Qed.

Lemma pick_hash_lt key len :
  (0 < len)%nat → Z.of_nat len < 2 ^ 53 - 1 → ∃ i, pick_hash key len = Pick i ∧ (i < len)%nat.
Proof.
  intros H0 H1. destruct (consistent_hash_spec key len H0 H1) as (i & Hi & Hr & _).
  unfold pick_hash. rewrite Hi. exists (Z.to_nat i). split; [done | lia].
Qed.

Lemma select_index_ok g session nanos :
  (0 < length (lg_proxies g))%nat → Z.of_nat (length (lg_proxies g)) < 2 ^ 53 - 1 →
  ∃ c i, select_index g session nanos = (set_lg_counter g c, Pick i) ∧ (i < length (lg_proxies g))%nat.
Proof.
  intros H0 H1. unfold select_index. rewrite (proj2 (Nat.eqb_neq _ _)) by lia.
  assert (Hg : g = set_lg_counter g (lg_counter g)) by (by destruct g).
  destruct (lg_strategy g).
  - eexists _, _. split; [done | by apply mod_index].
  - eexists _, _. split; [done | by apply mod_index].
  - destruct (pick_hash_lt (address_to_string (target session)) _ H0 H1) as (i & -> & Hi).
    exists (lg_counter g), i. by rewrite <- Hg.
  - edestruct (pick_hash_lt (match source session with
                             | Some s => ip_to_string (sock_ip s)
                             | None => address_to_string (target session)
                             end) _ H0 H1) as (i & -> & Hi).
    exists (lg_counter g), i. by rewrite <- Hg.
Qed.

Lemma select_proxy_ok g :
  (0 < length (wg_proxies g))%nat → length (wg_proxy_names g) = length (wg_proxies g) →
  ∃ c i, select_proxy g = (set_wg_counter g c, Pick i) ∧ (i < length (wg_proxies g))%nat.
Proof.
  intros H0 Hn. unfold select_proxy.
  assert (Hg : g = set_wg_counter g (wg_counter g)) by (by destruct g).
  assert (Hw : ∀ i w, (i, w) ∈ compute_weights g → (i < length (wg_proxies g))%nat).
  { intros i w Hin. apply weights_from_lt in Hin. lia. }
  destruct (compute_weights g) as [|[first w] ws] eqn:Ew.
  - destruct (length (wg_proxies g)) as [|len] eqn:El; [lia|]. eexists _, _. split; [done|].
    apply mod_index. lia.
  - destruct (f64_le _ _).
    + exists (wg_counter g), first. rewrite <- Hg. split; [done|]. apply (Hw first w). by constructor.
    + eexists _, _. split; [done|]. destruct (weighted_loop _ _ _) as [i|] eqn:El.
      * destruct (weighted_loop_in _ _ _ _ El) as (w' & Hin). by apply (Hw i w').
      * destruct (last ((first, w) :: ws)) as [[i wi]|] eqn:Ela; [|by apply last_None in Ela].
        apply (Hw i wi). by apply last_Some_elem_of.
Qed.

Lemma sticky_pick_ok g session :
  (0 < length (kg_proxies g))%nat →
  ∃ m i, sticky_pick g session = (set_sticky_map g m, Pick i) ∧ (i < length (kg_proxies g))%nat.
Proof.
  intros H0. unfold sticky_pick. destruct (kg_sticky_map g !! _) as [i|].
  - exists (kg_sticky_map g). eexists. split; [by destruct g|]. destruct (Nat.ltb_spec i (length (kg_proxies g))); lia.
  - destruct (length (kg_proxies g)) as [|len] eqn:El; [lia|]. eexists _, _. split; [done|].
    apply mod_index. lia.
Qed.

(** A selection keeps the group well-formed and gives an index of a member. *)
Lemma pick_ok id h session nanos :
  group_ok id h → (∀ tag, h ≠ Outbound tag) →
  ∃ h' i, pick h session nanos = (h', Pick i) ∧ group_ok id h' ∧ shape h' = shape h
          ∧ (i < length (members h))%nat.
Proof.
  intros Hok Hout. pose proof Hok as [H0 Hn Hs He Hsel Hhc].
  destruct h as [tag|g|g|g|g|g|g]; cbn [members member_names selected_ok health_of pick] in *;
    [by destruct (Hout tag) | | | | | |].
  - by eexists _, _.
  - rewrite <- Hn in Hsel. destruct (update_selection g) as [g'|] eqn:E.
    + destruct (update_selection_shape _ _ E) as (E1 & E2 & E3 & E4).
      eexists _, _. split; [done|]. split; [|cbn; rewrite E1, E2; split; [done | lia]].
      split; cbn; rewrite ?E1, ?E2, ?E3; try done. lia.
    + unfold update_selection in E. destruct (lookup_lt_is_Some_2 _ _ Hsel) as [cur Hc].
      by rewrite Hc in E.
  - eexists _, _. split; [done|]. split; [done|]. split; [done|]. unfold first_available.
    destruct (find_index _ _) as [i|] eqn:E; simpl; [apply find_index_lt in E; lia | done].
  - destruct (select_index_ok g session nanos H0 Hs) as (c & i & -> & Hi). by eexists _, _.
  - destruct (select_proxy_ok g H0 Hn) as (c & i & -> & Hi). by eexists _, _.
  - destruct (sticky_pick_ok g session H0) as (c & i & -> & Hi). by eexists _, _.
Qed.

(** A connection ends at an outbound the group reaches, within fuel above its
    index, and leaves the store well-formed. *)
Definition conn_ok (σ : store) (id : nat) (udp : bool) (r : conn) : Prop :=
  match r with
  | Reached leaf => reaches σ id leaf
  | UdpNotSupported _ => udp = true
  | ConnPanics | ConnOutOfFuel => False
  end.

Lemma connect_ok fuel nanos σ id session udp :
  store_ok σ → (id < length σ)%nat → (id < fuel)%nat →
  let '(σ', r) := connect fuel nanos σ id session udp in
  store_ok σ' ∧ same_shape σ σ' ∧ conn_ok σ id udp r.
Proof.
  revert σ id. induction fuel as [|fuel IH]; intros σ id Hok Hlt Hf; [lia|]. cbn [connect].
  destruct (lookup_lt_is_Some_2 _ _ Hlt) as [h Hh]. rewrite Hh.
  assert (Hdec : (∃ tag, h = Outbound tag) ∨ ∀ tag, h ≠ Outbound tag) by (destruct h; eauto).
  destruct Hdec as [[tag ->]|Hno].
  { split; [done|]. split; [done|]. by eapply reaches_outbound. }
  assert (Hg : group_ok id h) by (specialize (Hok _ _ Hh); destruct h; [by destruct (Hno tag) | done..]).
  assert (Hmain : let '(σ', r) :=
            let '(h', p) := pick h session (nanos id) in
            match p with
            | PickPanics => (<[id := h']> σ, ConnPanics)
            | PickOutOfFuel => (<[id := h']> σ, ConnOutOfFuel)
            | Pick idx =>
                match members h !! idx with
                | None => (<[id := h']> σ, ConnPanics)
                | Some next => connect fuel nanos (<[id := h']> σ) next session udp
                end
            end in store_ok σ' ∧ same_shape σ σ' ∧ conn_ok σ id udp r).
  { destruct (pick_ok id h session (nanos id) Hg Hno) as (h' & i & -> & Hg' & Hsh & Hi).
    destruct (lookup_lt_is_Some_2 _ _ Hi) as [next Hnext]. rewrite Hnext.
    pose proof (same_shape_insert σ id h h' Hh Hsh) as Hss.
    assert (Hin : next ∈ members h) by (by eapply list_elem_of_lookup_2).
    pose proof (proj1 (Forall_forall _ _) (gok_earlier _ _ Hg) _ Hin) as Hlow. cbn in Hlow.
    specialize (IH (<[id := h']> σ) next). rewrite length_insert in IH.
    assert (Hok' : store_ok (<[id := h']> σ)) by (apply store_ok_insert; [done | by destruct h']).
    destruct (connect fuel nanos (<[id := h']> σ) next session udp) as [σ' r].
    destruct IH as (I1 & I2 & I3); [done | lia | lia |]. split; [done|]. split; [by etrans|].
    destruct r; try done. cbn in I3 |- *. rewrite <- Hss in I3. by eapply reaches_member. }
  destruct h as [tag|g|g|g|g|g|g]; [by destruct (Hno tag) | | | | | |]; try exact Hmain.
  by destruct udp.
Qed.

Lemma test_proxy_ok fuel nanos io σ id url :
  store_ok σ → (id < length σ)%nat → (id < fuel)%nat →
  ∃ σ' lat, test_proxy fuel nanos io σ id url = (σ', Some lat) ∧ store_ok σ' ∧ same_shape σ σ'.
Proof.
  intros Hok Hlt Hf. unfold test_proxy. destruct (parse_url url) as [[[host port] p]|]; [|by eexists _, _].
  pose proof (connect_ok fuel nanos σ id
    (mkSession (Domain host port) None "health-check" Tcp false None) false Hok Hlt Hf) as Hc.
  destruct (connect _ _ _ _ _ _) as [σ' r]. destruct Hc as (H1 & H2 & H3).
  destruct r; try done. by eexists _, _.
Qed.

Lemma check_loop_ok fuel nanos io proxies names idx url σ results :
  store_ok σ → Forall (fun p => p < length σ ∧ p < fuel)%nat proxies →
  (idx + length proxies ≤ length names)%nat →
  ∃ σ' res, check_loop fuel nanos io σ proxies names idx url results = (σ', Some res)
            ∧ store_ok σ' ∧ same_shape σ σ'.
Proof.
  intros Hok Hp. revert σ idx results Hok Hp.
  induction proxies as [|p proxies IH]; intros σ idx results Hok Hp Hn; [by eexists _, _|].
  cbn [check_loop]. cbn in Hn. apply Forall_cons_1 in Hp as [[Hp1 Hp2] Hp].
  destruct (lookup_lt_is_Some_2 names idx ltac:(lia)) as [name ->].
  destruct (test_proxy_ok fuel (nanos idx) (io idx) σ p url Hok Hp1 Hp2) as (σ1 & lat & -> & Hok1 & Hs1).
  destruct (IH σ1 (S idx) (<[name := lat]> results) Hok1) as (σ2 & res & Hc & Hok2 & Hs2); [|lia|].
  - by rewrite <- (same_shape_length _ _ Hs1).
  - exists σ2, res. split; [done|]. split; [done | by etrans].
Qed.

Lemma shape_set_health h l : shape (set_health h l) = shape h.
Proof. by destruct h. Qed.
Lemma group_ok_set_health id h l : group_ok id h → group_ok id (set_health h l).
Proof.
  intros [H0 Hn Hs He Hsel Hhc]. destruct h; try done; cbn in *;
    (split; [done..|]); cbn; intros hc [= <-]; exact (Hhc _ eq_refl).
Qed.

Lemma alter_ok σ id f :
  store_ok σ → (∀ h, σ !! id = Some h → handler_ok id h → handler_ok id (f h) ∧ shape (f h) = shape h) →
  store_ok (alter f id σ) ∧ same_shape σ (alter f id σ).
Proof.
  intros Hok Hf. destruct (σ !! id) as [h|] eqn:Hl.
  - destruct (Hf h eq_refl (Hok _ _ Hl)) as [H1 H2].
    assert (Ha : alter f id σ = <[id := f h]> σ).
    { apply list_eq. intros i. destruct (decide (i = id)) as [->|Hne].
      - rewrite list_lookup_alter_eq, Hl, list_lookup_insert_eq by (by eapply lookup_lt_Some). done.
      - by rewrite list_lookup_alter_ne, list_lookup_insert_ne by done. }
    rewrite Ha. split; [by apply store_ok_insert | by eapply same_shape_insert].
  - assert (Ha : alter f id σ = σ).
    { apply list_eq. intros i. destruct (decide (i = id)) as [->|Hne].
      - by rewrite list_lookup_alter_eq, Hl.
      - by rewrite list_lookup_alter_ne by done. }
    by rewrite Ha.
Qed.
End Running.

Definition op_id (op : group_op) : nat :=
  match op with
  | OpSelect id _ | OpConnect id _ _ _ | OpSelectedName id | OpTestSingle id _ _ _ _
  | OpCheckAll id _ _ | OpRecordLatency id _ _ _ | OpClearSticky id => id
  end.

Section Operations.
Context `{GroupEnv}.

Definition keeps (σ : store) (r : option store) : Prop :=
  ∃ σ', r = Some σ' ∧ store_ok σ' ∧ same_shape σ σ'.

Lemma keeps_alter σ id f :
  store_ok σ → (∀ h, σ !! id = Some h → handler_ok id h → handler_ok id (f h) ∧ shape (f h) = shape h) →
  keeps σ (Some (alter f id σ)).
Proof. intros Hok Hf. eexists. split; [done|]. by apply alter_ok. Qed.

Lemma keeps_refl σ : store_ok σ → keeps σ (Some σ).
Proof. intros Hok. by exists σ. Qed.

(** The health checker of a group tests its members, which come earlier. *)
Lemma health_members σ id h hc :
  store_ok σ → σ !! id = Some h → health_of h = Some hc →
  Forall (fun p => p < length σ ∧ p < id)%nat (hc_proxies hc)
  ∧ length (hc_proxy_names hc) = length (hc_proxies hc) ∧ group_ok id h.
Proof.
  intros Hok Hl Hhc. pose proof (Hok _ _ Hl) as Hg. pose proof (lookup_lt_Some _ _ _ Hl) as Hlt.
  assert (Hgo : group_ok id h) by (destruct h; done).
  destruct (gok_health _ _ Hgo _ Hhc) as [-> ->]. split; [|split; [apply Hgo | done]].
  eapply Forall_impl; [apply Hgo|]. intros m Hm. cbn in Hm. lia.
Qed.

Lemma check_all_keeps σ id nanos io h hc :
  store_ok σ → σ !! id = Some h → health_of h = Some hc → keeps σ (check_all id nanos io σ id).
Proof.
  intros Hok Hl Hhc. destruct (health_members _ _ _ _ Hok Hl Hhc) as (Hp & Hn & _).
  unfold check_all. rewrite Hl. simpl. rewrite Hhc. simpl.
  destruct (check_loop_ok id nanos io (hc_proxies hc) (hc_proxy_names hc) 0 (hc_url hc) σ ∅ Hok Hp)
    as (σ1 & res & -> & Hok1 & Hs1); [lia|].
  destruct (alter_ok σ1 id (fun h => set_health h res) Hok1) as [H1 H2].
  { intros h1 _ Hh1. split; [|apply shape_set_health].
    destruct h1; try done; by apply group_ok_set_health. }
  eexists. split; [done|]. split; [done | by etrans].
Qed.

Lemma test_single_keeps σ id nanos io h hc name url :
  store_ok σ → σ !! id = Some h → health_of h = Some hc →
  keeps σ (match test_single id nanos io σ hc name url with (σ, Some _) => Some σ | _ => None end).
Proof.
  intros Hok Hl Hhc. destruct (health_members _ _ _ _ Hok Hl Hhc) as (Hp & Hn & _).
  unfold test_single. destruct (find_index _ _) as [i|] eqn:Ei; [|by apply keeps_refl].
  apply find_index_lt in Ei. destruct (lookup_lt_is_Some_2 (hc_proxies hc) i ltac:(lia)) as [p Hpi].
  rewrite Hpi. rewrite Forall_forall in Hp.
  destruct (Hp p) as [Hp1 Hp2]; [by eapply list_elem_of_lookup_2|].
  destruct (test_proxy_ok id nanos io σ p url Hok Hp1 Hp2) as (σ1 & lat & -> & Hok1 & Hs1).
  by exists σ1.
Qed.

Lemma selected_name_keeps σ id h :
  store_ok σ → σ !! id = Some h →
  match h with Selector _ | UrlTest _ | Fallback _ => True | _ => False end →
  keeps σ ('(h, _) ← selected_name h; Some (<[id := h]> σ)).
Proof.
  intros Hok Hl Hty. pose proof (Hok _ _ Hl) as Hg.
  assert (Hgo : group_ok id h) by (by destruct h).
  assert (Hsn : ∃ h' n, selected_name h = Some (h', n) ∧ group_ok id h' ∧ shape h' = shape h).
  { destruct (pick_ok id h (mkSession (Domain "" 0) None "" Tcp false None) 0 Hgo) as (h' & i & Hp & Hg' & Hsh & Hi);
      [by destruct h|]. pose proof (gok_names _ _ Hgo) as Hn.
    destruct h; try done; cbn [pick selected_name members member_names] in *.
    - simplify_eq. rewrite <- Hn in Hi. destruct (lookup_lt_is_Some_2 _ _ Hi) as [n ->]. by eexists _, _.
    - destruct (update_selection g) as [g'|]; [|done]. injection Hp as <- <-. rewrite <- Hn in Hi.
      simpl. replace (ug_proxy_names g') with (ug_proxy_names g) by (cbn in Hsh; congruence).
      destruct (lookup_lt_is_Some_2 _ _ Hi) as [n ->]. by eexists _, _.
    - simplify_eq. rewrite <- Hn in Hi. destruct (lookup_lt_is_Some_2 _ _ Hi) as [n ->]. by eexists _, _. }
  destruct Hsn as (h' & n & -> & Hg' & Hsh). simpl. eexists. split; [done|].
  split; [apply store_ok_insert; [done | by destruct h'] | by eapply same_shape_insert].
Qed.

(** Every operation on an object of the store returns and keeps it well-formed. *)
Lemma run_op_keeps σ op : store_ok σ → (op_id op < length σ)%nat → keeps σ (run_op σ op).
Proof.
  intros Hok Hid. destruct op as [id name|id nanos s udp|id|id nanos io name url|id nanos io|id name lat now|id];
    cbn [op_id run_op] in *.
  - apply keeps_alter; [done|]. intros h Hl Hh. destruct h; try done. unfold select.
    destruct (find_index _ _) as [i|] eqn:Ei; [|done]. apply find_index_lt in Ei.
    split; [|done]. destruct Hh as [H0 Hn Hs He Hsel Hhc]. split; try done. cbn in *. lia.
  - pose proof (connect_ok (S id) nanos σ id s udp Hok Hid ltac:(lia)) as Hc.
    destruct (connect _ _ _ _ _ _) as [σ' []]; destruct Hc as (H1 & H2 & H3); try done; by exists σ'.
  - destruct (lookup_lt_is_Some_2 _ _ Hid) as [h Hl]. rewrite Hl.
    destruct h; try (by apply keeps_refl); by apply selected_name_keeps.
  - destruct (lookup_lt_is_Some_2 _ _ Hid) as [h Hl]. rewrite Hl. simpl.
    destruct (health_of h) as [hc|] eqn:E; [by eapply test_single_keeps | by apply keeps_refl].
  - destruct (lookup_lt_is_Some_2 _ _ Hid) as [h Hl]. rewrite Hl. simpl.
    destruct (health_of h) as [hc|] eqn:E; [by eapply check_all_keeps | by apply keeps_refl].
  - apply keeps_alter; [done|]. intros h Hl Hh. destruct h; try done.
    split; [|done]. destruct Hh as [H0 Hn Hs He Hsel Hhc]. by split.
  - apply keeps_alter; [done|]. intros h Hl Hh. destruct h; try done.
    split; [|done]. destruct Hh as [H0 Hn Hs He Hsel Hhc]. by split.
Qed.

Lemma run_ops_keeps σ ops :
  store_ok σ → Forall (fun op => op_id op < length σ)%nat ops → keeps σ (run_ops σ ops).
Proof.
  revert σ. induction ops as [|op ops IH]; intros σ Hok Hids; [by apply keeps_refl|].
  apply Forall_cons_1 in Hids as [Hid Hids]. cbn [run_ops].
  destruct (run_op_keeps σ op Hok Hid) as (σ1 & -> & Hok1 & Hs1). simpl.
  rewrite (same_shape_length _ _ Hs1) in Hids.
  destruct (IH σ1 Hok1 Hids) as (σ2 & -> & Hok2 & Hs2). exists σ2. split; [done|].
  split; [done | by etrans].
Qed.

(** *** Construction *)

Lemma find_handler_lt existing built name id n :
  (∀ nm i, existing !! nm = Some i → i < n)%nat → Forall (fun e => e.2 < n)%nat built →
  find_handler existing built name = Some id → (id < n)%nat.
Proof.
  intros He Hb. unfold find_handler. destruct (existing !! name) as [i|] eqn:E.
  - intros [= <-]. by eapply He.
  - destruct (List.find _ _) as [[nm i]|] eqn:Ef; [|done]. intros [= <-].
    apply List.find_some in Ef as [Hin _]. rewrite Forall_forall in Hb.
    apply (Hb (nm, i)). by apply list_elem_of_In.
Qed.

Lemma collect_members_ok group existing built names ids n :
  (∀ nm i, existing !! nm = Some i → i < n)%nat → Forall (fun e => e.2 < n)%nat built →
  collect_members group existing built names = Ok ids →
  Forall (fun m => m < n)%nat ids ∧ length ids = length names.
Proof.
  intros He Hb. revert ids. induction names as [|nm names IH]; intros ids; cbn [collect_members].
  { intros [= <-]. done. }
  destruct (find_handler existing built nm) as [id|] eqn:Ef; [|done].
  destruct (collect_members group existing built names) as [ids'|]; [|done]. intros [= <-].
  destruct (IH ids' eq_refl) as [H1 H2]. split; [|simpl; lia]. constructor; [|done].
  by eapply find_handler_lt.
Qed.

Lemma make_group_ok c ids h id :
  (0 < length ids)%nat → length ids = length (cfg_proxies c) →
  Z.of_nat (length (cfg_proxies c)) < 2 ^ 53 - 1 → Forall (fun m => m < id)%nat ids →
  make_group c ids = Ok h → handler_ok id h.
Proof.
  intros H0 Hl Hs He. unfold make_group.
  repeat (destruct (String.eqb (group_type c) _); [intros [= <-]; split; cbn; try done; try lia;
    intros hc [= <-]; done|]). done.
Qed.

Lemma build_loop_ok existing configs σ built σ' built' :
  store_ok σ → (∀ nm i, existing !! nm = Some i → i < length σ)%nat →
  Forall (fun e => e.2 < length σ)%nat built →
  Forall (fun c => Z.of_nat (length (cfg_proxies c)) < 2 ^ 53 - 1) configs →
  build_loop existing configs σ built = Ok (σ', built') →
  store_ok σ' ∧ Forall (fun e => e.2 < length σ')%nat built'.
Proof.
  intros Hok He Hb Hc. revert σ built Hok He Hb.
  induction Hc as [|c configs Hc _ IH]; intros σ built Hok He Hb; cbn [build_loop].
  { intros [= <- <-]. done. }
  destruct (collect_members _ _ _ _) as [ids|] eqn:Ec; [|done].
  destruct (collect_members_ok _ _ _ _ _ _ He Hb Ec) as [Hids Hlen]. cbn [bind_result].
  destruct ids as [|i0 ids]; [done|].
  destruct (make_group c (i0 :: ids)) as [h|] eqn:Em; [|done]. cbn [bind_result]. apply IH.
  - intros id h' Hl. apply lookup_app_Some in Hl as [Hl|[Hge Hl]]; [by apply Hok|].
    apply list_lookup_singleton_Some in Hl as [Hz <-].
    replace id with (length σ) by lia. eapply make_group_ok; try done. simpl. lia.
  - intros nm i Hi. rewrite length_app. specialize (He nm i Hi). lia.
  - rewrite length_app. apply Forall_app. split; [|repeat constructor; simpl; lia].
    eapply Forall_impl; [exact Hb|]. intros e Hlt. cbn in *. lia.
Qed.

End Operations.

(** C18: for groups that [build_proxy_groups] accepts over outbounds, whatever
    selections, connections, health checks, latency records and resets come
    before, every operation returns without a panic, and a connection through
    any group, nested to any depth, ends at an outbound among the members the
    configuration gave it; only a sticky group refuses UDP. *)
Theorem groups_always_connect `{GroupEnv} configs existing σ0 σ built ops :
  Forall (fun h => ∃ tag, h = Outbound tag) σ0 →
  (∀ name id, existing !! name = Some id → (id < length σ0)%nat) →
  Forall (fun c => Z.of_nat (length (cfg_proxies c)) < 2 ^ 53 - 1) configs →
  build_proxy_groups configs existing σ0 = Ok (σ, built) →
  Forall (fun op => op_id op < length σ)%nat ops →
  ∃ σ', run_ops σ ops = Some σ' ∧
    ∀ name id nanos session udp, (name, id) ∈ built →
      conn_ok σ id udp (connect (S id) nanos σ' id session udp).2.
Proof.
  intros H0 He Hc Hb Hops.
  assert (Hok0 : store_ok σ0).
  { intros id h Hl. rewrite Forall_forall in H0.
    destruct (H0 h) as [tag ->]; [by eapply list_elem_of_lookup_2 | done]. }
  destruct (build_loop_ok _ _ _ _ _ _ Hok0 He (Forall_nil_2 _) Hc Hb) as [Hok Hbuilt].
  destruct (run_ops_keeps σ ops Hok Hops) as (σ' & Hr & Hok' & Hs). exists σ'. split; [done|].
  intros name id nanos session udp Hin. rewrite Forall_forall in Hbuilt. specialize (Hbuilt _ Hin).
  cbn in Hbuilt. rewrite (same_shape_length _ _ Hs) in Hbuilt.
  pose proof (connect_ok (S id) nanos σ' id session udp Hok' Hbuilt ltac:(lia)) as Hcn.
  destruct (connect _ _ _ _ _ _) as [σ2 r]. destruct Hcn as (_ & _ & Hcn).
  destruct r; try done. cbn in *. by rewrite Hs.
Qed.

(** ** Round robin *)

(** The selections of [n] calls in a row. *)
Fixpoint picks `{GroupEnv} (n : nat) (g : LoadBalanceGroup) (session : nat → Session)
    (nanos : nat → Z) : list picked :=
  match n with
  | O => []
  | S n => let '(g, p) := select_index g (session n) (nanos n) in p :: picks n g session nanos
  end.

Lemma picks_round_robin `{GroupEnv} n g session nanos :
  lg_strategy g = RoundRobin → (0 < length (lg_proxies g))%nat →
  0 <= lg_counter g → lg_counter g + Z.of_nat n <= 2 ^ 64 →
  picks n g session nanos
  = (fun i => Pick (Z.to_nat ((lg_counter g + Z.of_nat i) mod Z.of_nat (length (lg_proxies g)))))
    <$> seq 0 n.
Proof.
  revert g. induction n as [|n IH]; intros g Hs Hl Hc Hn; [done|].
  cbn [picks]. unfold select_index. rewrite (proj2 (Nat.eqb_neq _ _)), Hs by lia.
  cbn [seq]. rewrite fmap_cons. f_equal; [by rewrite Z.add_0_r|].
  destruct (decide (n = 0%nat)) as [->|Hne]; [done|].
  assert (Hw : wrap 64 (lg_counter g + 1) = lg_counter g + 1) by (unfold wrap; rewrite Z.mod_small; lia).
  rewrite IH; cbn; rewrite ?Hw; try done; try lia.
  rewrite <- fmap_S_seq, <- list_fmap_compose. apply list_fmap_ext. intros i j _. cbn. do 3 f_equal. lia.
Qed.

(** A round-robin group hands any run of as many connections as it has
    members to each member exactly once, wherever its counter stands (up to the
    wrap-around of the counter). *)
Theorem round_robin_fair `{GroupEnv} g session nanos :
  lg_strategy g = RoundRobin → (0 < length (lg_proxies g))%nat →
  0 <= lg_counter g → lg_counter g + Z.of_nat (length (lg_proxies g)) <= 2 ^ 64 →
  picks (length (lg_proxies g)) g session nanos ≡ₚ Pick <$> seq 0 (length (lg_proxies g)).
Proof.
  intros Hs Hl Hc Hn. rewrite picks_round_robin by done.
  set (len := length (lg_proxies g)) in *. set (c := lg_counter g) in *.
  change (fun i => Pick (Z.to_nat ((c + Z.of_nat i) mod Z.of_nat len)))
    with (Pick ∘ (fun i => Z.to_nat ((c + Z.of_nat i) mod Z.of_nat len))).
  rewrite list_fmap_compose. apply fmap_Permutation.
  apply submseteq_length_Permutation; [|by rewrite length_fmap].
  apply NoDup_submseteq.
  - apply NoDup_fmap_2_strong; [|apply NoDup_seq].
    intros i j [_ Hi]%elem_of_seq [_ Hj]%elem_of_seq Heq.
    pose proof (Z.mod_pos_bound (c + Z.of_nat i) (Z.of_nat len)).
    pose proof (Z.mod_pos_bound (c + Z.of_nat j) (Z.of_nat len)).
    apply Z2Nat.inj in Heq; [|lia..].
    pose proof (Z_div_mod_eq_full (c + Z.of_nat i) (Z.of_nat len)).
    pose proof (Z_div_mod_eq_full (c + Z.of_nat j) (Z.of_nat len)).
    assert ((c + Z.of_nat i) / Z.of_nat len = (c + Z.of_nat j) / Z.of_nat len) by nia. nia.
  - intros x (i & -> & _)%list_elem_of_fmap. apply elem_of_seq.
    pose proof (Z.mod_pos_bound (c + Z.of_nat i) (Z.of_nat len)). lia.
Qed.

(** ** Witnesses *)

#[local] Instance example_env : GroupEnv := {|
  default_hash := fun s => simple_hash s;
  powf := f64_mul;
  url_parse := fun s => Some {| host_str := Some "probe.example"; port_or_known_default := Some 80;
                                scheme := "http"; path := ""; query := None |}
|}.

Definition example_lb : LoadBalanceGroup :=
  {| lg_name := "lb"; lg_proxies := [0; 1; 2]%nat; lg_proxy_names := ["a"; "b"; "c"];
     lg_counter := 7; lg_strategy := RoundRobin |}.
Definition example_session : Session := mkSession (Domain "example.com" 443) None "in" Tcp false None.

Lemma round_robin_fair_witness :
  picks 3 example_lb (fun _ => example_session) (fun _ => 0) ≡ₚ [Pick 0; Pick 1; Pick 2].
Proof.
  apply (round_robin_fair example_lb (fun _ => example_session) (fun _ => 0)); [reflexivity|simpl; lia..].
Defined.

Lemma consistent_hash_minimal_disruption_witness :
  ∃ i, consistent_hash "example.com:443" 4 = Some i ∧ 0 <= i < Z.of_nat 4 ∧
    (consistent_hash "example.com:443" 5 = Some i ∨ consistent_hash "example.com:443" 5 = Some (Z.of_nat 4)).
Proof. apply (consistent_hash_minimal_disruption "example.com:443" 4); simpl; lia. Defined.

Definition example_urltest : UrlTestGroup :=
  let hc := set_latencies (health_new [0; 1]%nat ["a"; "b"] "http://t" 300)
              {["a" := Some 300; "b" := Some 100]} in
  {| ug_name := "auto"; ug_proxies := [0; 1]%nat; ug_proxy_names := ["a"; "b"]; ug_selected := 0;
     ug_health := hc; ug_tolerance := 150 |}.

Lemma urltest_selects_within_tolerance_witness :
  ∃ g', update_selection example_urltest = Some g' ∧ ug_selected g' = 1%nat ∧
    (∀ n l, n ∈ ug_proxy_names example_urltest →
       latency_of (hc_latencies (ug_health example_urltest)) n = Some l →
       ∃ n' l', ug_proxy_names example_urltest !! ug_selected g' = Some n' ∧
         latency_of (hc_latencies (ug_health example_urltest)) n' = Some l' ∧ l' <= l + 150).
Proof.
  destruct (urltest_selects_within_tolerance example_urltest) as (g' & Hg & Htol & _).
  - simpl. lia.
  - simpl. lia.
  - intros n l. unfold latency_of, example_urltest, set_latencies. cbn.
    intros Hl. destruct (({["a" := Some 300; "b" := Some 100]} : gmap string (option Z)) !! n)
      as [[l'|]|] eqn:E; [|discriminate..]. injection Hl as <-.
    apply lookup_insert_Some in E as [[_ [= <-]]|[_ E]]; [unfold u64_max; lia|].
    apply lookup_singleton_Some in E as [_ [= <-]]. unfold u64_max. lia.
  - exists g'. split; [exact Hg|]. split; [|exact Htol].
    vm_compute in Hg. injection Hg as <-. reflexivity.
Defined.

Definition example_groups : list ProxyGroupConfig := [
  {| cfg_name := "auto"; group_type := "url-test"; cfg_proxies := ["a"; "b"]; cfg_url := None;
     cfg_interval := 300; cfg_tolerance := 150; cfg_strategy := None |};
  {| cfg_name := "hash"; group_type := "load-balance"; cfg_proxies := ["auto"; "b"]; cfg_url := None;
     cfg_interval := 300; cfg_tolerance := 150; cfg_strategy := Some "consistent-hash" |};
  {| cfg_name := "main"; group_type := "selector"; cfg_proxies := ["hash"; "auto"]; cfg_url := None;
     cfg_interval := 300; cfg_tolerance := 150; cfg_strategy := None |}
].
Definition example_existing : gmap string nat := {["a" := 0%nat; "b" := 1%nat]}.
Definition example_built : store * list (string * nat) :=
  match build_proxy_groups example_groups example_existing [Outbound "a"; Outbound "b"] with
  | Ok r => r
  | Err _ => ([], [])
  end.

Lemma groups_always_connect_witness :
  ∃ σ', run_ops example_built.1
          [OpCheckAll 2 (fun _ _ => 0) (fun _ leaf => Some (100 - 50 * Z.of_nat leaf));
           OpSelect 4 "auto"; OpConnect 4 (fun _ => 0) example_session false] = Some σ' ∧
    conn_ok example_built.1 4 true (connect 5 (fun _ => 0) σ' 4 example_session true).2.
Proof.
  destruct (groups_always_connect example_groups example_existing [Outbound "a"; Outbound "b"]
    example_built.1 example_built.2
    [OpCheckAll 2 (fun _ _ => 0) (fun _ leaf => Some (100 - 50 * Z.of_nat leaf));
     OpSelect 4 "auto"; OpConnect 4 (fun _ => 0) example_session false]) as (σ' & Hr & Hc).
  - repeat (apply List.Forall_cons; [by eexists|]). apply List.Forall_nil.
  - intros name id Hl. unfold example_existing in Hl. apply lookup_insert_Some in Hl as [[_ <-]|[_ Hl]]; [simpl; lia|].
    apply lookup_singleton_Some in Hl as [_ <-]. simpl. lia.
  - repeat (apply List.Forall_cons; [simpl; lia|]). apply List.Forall_nil.
  - vm_compute. reflexivity.
  - repeat (apply List.Forall_cons; [vm_compute; lia|]). apply List.Forall_nil.
  - exists σ'. split; [exact Hr|]. apply (Hc "main"). vm_compute. repeat constructor.
Defined.

Lemma group_nesting_samples :
  validate_group_nesting example_groups 1 = Err (TooDeep "auto")
  ∧ validate_group_nesting example_groups 2 = Ok tt.
Proof. split; vm_compute; reflexivity. Qed.
