(* ===== verification/Config.v ===== *)
(** * Configuration ([src/src/config/types.rs], [src/src/config/mod.rs])

    The configuration records with their defaults, the effective TLS and
    transport settings, the protocol aliases and [validate].  Reading YAML and
    JSON into them is serde's work and is not modelled. *)

From S2P Require Import Prelude RustStr Rules Router Groups.

Local Open Scope string_scope.
Local Open Scope list_scope.
Local Open Scope Z_scope.

(** ** Outbounds *)

Record TransportConfig := mkTransport {
  transport_type : string;
  tc_path : option string;
  tc_host : option string;
  tc_headers : option (gmap string string);
  tc_service_name : option string;
  shadow_tls_password : option string;
  shadow_tls_sni : option string
}.
(** The derived [Default]: every field's own default. *)
Definition transport_default : TransportConfig := mkTransport "" None None None None None None.
(** serde's default for the type of a transport that is given. *)
Definition default_tcp : string := "tcp".

Record TlsFragmentConfig := mkTlsFragment {
  tf_min_length : Z;
  tf_max_length : Z;
  tf_min_delay_ms : Z;
  tf_max_delay_ms : Z
}.
Definition tls_fragment_default : TlsFragmentConfig := mkTlsFragment 10 100 10 50.

Record TlsConfig := mkTls {
  tls_enabled : bool;
  tls_security : string;
  tls_sni : option string;
  tls_allow_insecure : bool;
  tls_alpn : option (list string);
  tls_public_key : option string;
  tls_short_id : option string;
  tls_server_name : option string;
  tls_fingerprint : option string;
  ech_config : option string;
  ech_grease : bool;
  ech_outer_sni : option string;
  ech_auto : bool;
  tls_fragment : option TlsFragmentConfig
}.
Definition tls_default : TlsConfig :=
  mkTls false "tls" None false None None None None None None false None false None.

Record MuxConfig := mkMux {
  mux_protocol : string;
  mux_max_connections : Z;
  max_streams_per_connection : Z;
  mux_padding : bool
}.
Definition mux_default : MuxConfig := mkMux "sing-mux" 4 128 false.

Record DialerConfig := mkDialer {
  interface_name : option string;
  bind_address : option string;
  routing_mark : option Z;
  tcp_fast_open : bool;
  mptcp : bool;
  connect_timeout_ms : option Z;
  tcp_keep_alive_secs : option Z;
  happy_eyeballs : option bool;
  dialer_domain_resolver : option string
}.

Record WireGuardPeerConfig := mkPeer {
  peer_key : string;
  peer_endpoint : option string;
  allowed_ips : list string;
  peer_keepalive : option Z;
  peer_preshared_key : option string
}.

Record OutboundSettings := mkSettings {
  address : option string;
  port : option Z;
  uuid : option string;
  password : option string;
  method : option string;
  security : option string;
  sni : option string;
  allow_insecure : bool;
  flow : option string;
  public_key : option string;
  short_id : option string;
  server_name : option string;
  fingerprint : option string;
  plugin : option string;
  plugin_opts : option string;
  identity_key : option string;
  private_key : option string;
  peer_public_key : option string;
  preshared_key : option string;
  local_address : option string;
  mtu : option Z;
  keepalive : option Z;
  username : option string;
  private_key_passphrase : option string;
  congestion_control : option string;
  up_mbps : option Z;
  down_mbps : option Z;
  alter_id : option Z;
  peers : option (list WireGuardPeerConfig);
  socks_port : option Z;
  transport : option TransportConfig;
  tls : option TlsConfig;
  mux : option MuxConfig;
  obfs : option string;
  obfs_password : option string;
  chain : option (list string);
  dialer : option DialerConfig;
  domain_resolver : option string
}.
Definition settings_default : OutboundSettings :=
  mkSettings None None None None None None None false None None None None None None None None None
    None None None None None None None None None None None None None None None None None None None
    None None.

Record OutboundConfig := mkOutbound {
  o_tag : string;
  o_protocol : string;
  o_settings : OutboundSettings
}.

Definition effective_transport (s : OutboundSettings) : TransportConfig := default transport_default (transport s).
Definition effective_tls (s : OutboundSettings) : TlsConfig :=
  match tls s with
  | Some tls => tls
  | None =>
      let sec := default "" (security s) in
      let enabled := negb (String.eqb sec "") && negb (String.eqb sec "none") in
      mkTls enabled (if String.eqb sec "" then "tls" else sec) (sni s) (allow_insecure s) None
        (public_key s) (short_id s) (server_name s) (fingerprint s) None false None false None
  end.

(** *** Aliases *)

Definition set_flow (f : string) (s : OutboundSettings) : OutboundSettings :=
  let 'mkSettings a b c d e g h i _ k l m n o p q r t u v w x y z a1 b1 c1 d1 e1 f1 g1 h1 i1 j1 k1 l1 m1 n1 := s in
  mkSettings a b c d e g h i (Some f) k l m n o p q r t u v w x y z a1 b1 c1 d1 e1 f1 g1 h1 i1 j1 k1 l1 m1 n1.
Definition set_security_tls (sec : string) (tl : TlsConfig) (s : OutboundSettings) : OutboundSettings :=
  let 'mkSettings a b c d e _ h i j k l m n o p q r t u v w x y z a1 b1 c1 d1 e1 f1 g1 _ i1 j1 k1 l1 m1 n1 := s in
  mkSettings a b c d e (Some sec) h i j k l m n o p q r t u v w x y z a1 b1 c1 d1 e1 f1 g1 (Some tl) i1 j1 k1 l1 m1 n1.
Definition set_transport (tc : TransportConfig) (s : OutboundSettings) : OutboundSettings :=
  let 'mkSettings a b c d e g h i j k l m n o p q r t u v w x y z a1 b1 c1 d1 e1 f1 _ h1 i1 j1 k1 l1 m1 n1 := s in
  mkSettings a b c d e g h i j k l m n o p q r t u v w x y z a1 b1 c1 d1 e1 f1 (Some tc) h1 i1 j1 k1 l1 m1 n1.

Definition ensure_tls_security (sec : string) (s : OutboundSettings) : OutboundSettings :=
  let t := default tls_default (tls s) in
  set_security_tls sec
    (mkTls true sec (tls_sni t) (tls_allow_insecure t) (tls_alpn t) (tls_public_key t) (tls_short_id t)
       (tls_server_name t) (tls_fingerprint t) (ech_config t) (ech_grease t) (ech_outer_sni t) (ech_auto t)
       (tls_fragment t)) s.
Definition set_transport_type (ty : string) (s : OutboundSettings) : OutboundSettings :=
  let t := default transport_default (transport s) in
  set_transport (mkTransport ty (tc_path t) (tc_host t) (tc_headers t) (tc_service_name t)
                   (shadow_tls_password t) (shadow_tls_sni t)) s.

Definition normalize_outbound_alias (o : OutboundConfig) : OutboundConfig :=
  let protocol := to_lowercase (trim (o_protocol o)) in
  let s := o_settings o in
  let named p := String.eqb protocol p in
  if named "vless-tcp-reality-vision" then
    mkOutbound (o_tag o) "vless" (ensure_tls_security "reality" (set_flow "xtls-rprx-vision" s))
  else if named "vless-xhttp-reality-enc" then
    mkOutbound (o_tag o) "vless" (ensure_tls_security "reality" (set_transport_type "xhttp" s))
  else if named "vless-xhttp-enc" then
    mkOutbound (o_tag o) "vless" (ensure_tls_security "tls" (set_transport_type "xhttp" s))
  else if named "vless-ws-enc" then
    mkOutbound (o_tag o) "vless" (ensure_tls_security "tls" (set_transport_type "ws" s))
  else if named "anytls" || named "any-tls" then
    let s := set_transport_type "anytls" s in
    mkOutbound (o_tag o) "vless" (match security s with None => ensure_tls_security "tls" s | Some _ => s end)
  else if named "any-reality" || named "anytls-reality" then
    mkOutbound (o_tag o) "vless" (ensure_tls_security "reality" (set_transport_type "anytls" s))
  else if named "shadowsocks-2022" || named "ss-2022" then mkOutbound (o_tag o) "shadowsocks" s
  else if named "vmess-ws" then mkOutbound (o_tag o) "vmess" (set_transport_type "ws" s)
  else if named "socks" then mkOutbound (o_tag o) "socks5" s
  else o.

(** ** Inbounds *)

Record AuthUserConfig := mkAuthUser { au_username : string; au_password : string }.
Record ShadowsocksUserConfig := mkSsUser { ssu_password : string; ssu_method : option string }.
Record VlessClientConfig := mkVlessClient { vc_uuid : string; vc_flow : option string }.

Record InboundSettings := mkInSettings {
  is_method : option string;
  is_password : option string;
  is_users : option (list ShadowsocksUserConfig);
  is_uuid : option string;
  is_flow : option string;
  is_clients : option (list VlessClientConfig);
  is_network : option string;
  is_auth : option (list AuthUserConfig);
  set_system_proxy : bool;
  system_proxy_bypass : list string;
  system_proxy_socks_port : option Z;
  auto_route : bool;
  route_backend : option string;
  cgroup_path : option string;
  tproxy_mark : Z;
  tproxy_table : Z;
  dns_hijack : list string;
  is_private_key : option string;
  wg_peers : option (list string);
  is_preshared_key : option string
}.
Record InboundConfig := mkInbound {
  i_tag : string;
  i_protocol : string;
  i_listen : string;
  i_port : Z;
  i_sniffing : bool;
  i_settings : InboundSettings;
  i_max_connections : option Z
}.

(** ** The whole configuration

    The parts [validate] and the core read. *)

Record Config := mkConfig {
  profile : option string;
  inbounds : list InboundConfig;
  outbounds : list OutboundConfig;
  proxy_groups : list ProxyGroupConfig;
  router : RouterConfig;
  max_connections : Z
}.

Inductive config_error :=
| NoInbound
| NoOutbound
| BadDefault (tag : string)
| RuleNotImplemented (rule_type : string)
| BadRuleOutbound (tag : string)
| BadGroupMember (group proxy : string)
| ChainMissing (tag : string)
| ChainEmpty (tag : string)
| ChainContainsItself (tag : string)
| ChainUnknownHop (tag hop : string)
| ChainNestedHop (tag hop : string)
| ChainHopNotReady (tag hop : string)
| UnsupportedProtocol (protocol : string)
| ConstructorFailed (tag why : string)
| GroupFailed (e : group_error).

(** A loop that stops at the first error. *)
Fixpoint each {A E} (f : A → result E unit) (l : list A) : result E unit :=
  match l with
  | [] => Ok tt
  | a :: l => let? _ := f a in each f l
  end.

Definition contains (tags : list string) (t : string) : bool := bool_decide (t ∈ tags).
Definition all_tags (c : Config) : list string := (o_tag <$> outbounds c) ++ (cfg_name <$> proxy_groups c).
Definition check_rule (tags : list string) (r : RuleConfig) : result config_error unit :=
  if String.eqb (rule_type r) "ip-asn" || String.eqb (rule_type r) "uid" then Err (RuleNotImplemented (rule_type r))
  else if contains tags (cfg_outbound r) then Ok tt else Err (BadRuleOutbound (cfg_outbound r)).
Definition check_group (tags : list string) (g : ProxyGroupConfig) : result config_error unit :=
  each (fun p => if contains tags p then Ok tt else Err (BadGroupMember (cfg_name g) p)) (cfg_proxies g).
Definition check_chain (tags : list string) (o : OutboundConfig) : result config_error unit :=
  if negb (String.eqb (o_protocol o) "chain") then Ok tt else
  match chain (o_settings o) with
  | None => Err (ChainMissing (o_tag o))
  | Some [] => Err (ChainEmpty (o_tag o))
  | Some hops =>
      each (fun hop => if String.eqb hop (o_tag o) then Err (ChainContainsItself (o_tag o))
                       else if contains tags hop then Ok tt
                       else Err (ChainUnknownHop (o_tag o) hop)) hops
  end.

Definition validate (c : Config) : result config_error unit :=
  if bool_decide (inbounds c = []) then Err NoInbound
  else if bool_decide (outbounds c = []) then Err NoOutbound
  else
    let tags := all_tags c in
    if negb (contains tags (cfg_default (router c))) then Err (BadDefault (cfg_default (router c)))
    else
      let? _ := each (check_rule tags) (cfg_rules (router c)) in
      let? _ := each (check_group tags) (proxy_groups c) in
      each (check_chain (o_tag <$> outbounds c)) (outbounds c).

Definition normalize_protocol_aliases (c : Config) : Config :=
  mkConfig (profile c) (inbounds c) (normalize_outbound_alias <$> outbounds c) (proxy_groups c) (router c)
    (max_connections c).

(** ** Lemmas *)

Lemma each_Ok {A E} (f : A → result E unit) l : each f l = Ok tt ↔ ∀ a, a ∈ l → f a = Ok tt.
Proof.
  induction l as [|a l IH]; cbn [each]; [split; [set_solver|done]|].
  destruct (f a) as [[]|e] eqn:E'; cbn.
  - rewrite IH. split; intros H; [intros x [->|Hx]%elem_of_cons; auto|intros; apply H; by right].
  - split; [done|]. intros H. rewrite (H a) in E'; [done|left].
Qed.
Lemma normalize_tag o : o_tag (normalize_outbound_alias o) = o_tag o.
Proof. unfold normalize_outbound_alias. by repeat case_match. Qed.

(** What a validated configuration promises. *)
Record config_ok (c : Config) : Prop := {
  cok_default : cfg_default (router c) ∈ all_tags c;
  cok_rules : ∀ r, r ∈ cfg_rules (router c) → cfg_outbound r ∈ all_tags c;
  cok_groups : ∀ g p, g ∈ proxy_groups c → p ∈ cfg_proxies g → p ∈ all_tags c
}.
Lemma validate_ok c : validate c = Ok tt → config_ok c.
Proof.
  unfold validate, contains. repeat case_bool_decide; try done. simpl.
  destruct (each (check_rule _) _) as [[]|e] eqn:E1; [|done]. simpl.
  destruct (each (check_group _) _) as [[]|e] eqn:E2; [|done]. intros _.
  rewrite each_Ok in E1. rewrite each_Ok in E2. split; [done| |].
  - intros r Hr. specialize (E1 r Hr). unfold check_rule, contains in E1. repeat case_match; bool_prop; done.
  - intros g p Hg Hp. specialize (E2 g Hg). unfold check_group in E2. rewrite each_Ok in E2.
    specialize (E2 p Hp). unfold contains in E2. case_bool_decide; done.
Qed.
