(* ===== verification/Outbounds.v ===== *)
(** * The outbound manager ([src/src/app/outbound_manager.rs])

    Construction of the handlers from the configuration: base outbounds, then
    chains over them, then proxy groups over both, in the object store of
    [Groups].  Whether the constructor of a protocol accepts its settings is the
    class [Builders]; the kind of each base handler is kept beside the store. *)

From S2P Require Import Prelude RustStr Addr Trie Rules Router Groups Config.

Local Open Scope string_scope.
Local Open Scope list_scope.
Local Open Scope Z_scope.

(** The constructors of the protocol modules: [Some] is an error. *)
Class Builders := constructor_error : string → OutboundConfig → option string.

Inductive OutKind :=
| Direct
| RejectKind
| Blackhole
| Protocol (name : string)
| Chain (hops : list nat).

Record GroupMeta := mkMeta { gm_type : string; gm_proxies : list string }.
Record OutboundManager := mkManager {
  objects : store;
  kinds : gmap nat OutKind;
  handlers : gmap string nat;
  group_metas : gmap string GroupMeta
}.

Section build.
Context `{Builders}.

(** The [match] on the protocol name. *)
Definition protocol_names : list string :=
  ["vless"; "hysteria2"; "hysteria"; "hysteria1"; "shadowsocks"; "ss"; "trojan"; "vmess"; "wireguard"; "wg";
   "http"; "https"; "socks5"; "socks"; "ssh"; "tuic"; "tor"; "naive"; "naiveproxy"; "masque"].
Definition build_outbound (c : OutboundConfig) : result config_error OutKind :=
  let p := o_protocol c in
  if String.eqb p "direct" then Ok Direct
  else if String.eqb p "reject" || String.eqb p "block" then Ok RejectKind
  else if String.eqb p "blackhole" then Ok Blackhole
  else if contains protocol_names p then
    match constructor_error p c with
    | Some why => Err (ConstructorFailed (o_tag c) why)
    | None => Ok (Protocol p)
    end
  else Err (UnsupportedProtocol p).

(** [handlers.insert(tag, handler)] with a new object. *)
Definition register (tag : string) (k : OutKind) (m : OutboundManager) : OutboundManager :=
  mkManager (objects m ++ [Outbound tag]) (<[length (objects m) := k]> (kinds m))
    (<[tag := length (objects m)]> (handlers m)) (group_metas m).

Fixpoint add_outbounds (cs : list OutboundConfig) (m : OutboundManager) : result config_error OutboundManager :=
  match cs with
  | [] => Ok m
  | c :: cs =>
      if String.eqb (o_protocol c) "chain" then add_outbounds cs m
      else
        let? k := build_outbound c in
        add_outbounds cs (register (o_tag c) k m)
  end.

(** [config_map]: a later configuration replaces an earlier one of its tag. *)
Definition config_map (cs : list OutboundConfig) : gmap string OutboundConfig :=
  foldl (fun m c => <[o_tag c := c]> m) ∅ cs.

Fixpoint collect_hops (tag : string) (cm : gmap string OutboundConfig) (hs : gmap string nat) (hops : list string)
  : result config_error (list nat) :=
  match hops with
  | [] => Ok []
  | hop :: hops =>
      if String.eqb hop tag then Err (ChainContainsItself tag) else
      match cm !! hop with
      | None => Err (ChainUnknownHop tag hop)
      | Some hop_cfg =>
          if String.eqb (o_protocol hop_cfg) "chain" then Err (ChainNestedHop tag hop) else
          match hs !! hop with
          | None => Err (ChainHopNotReady tag hop)
          | Some id => let? ids := collect_hops tag cm hs hops in Ok (id :: ids)
          end
      end
  end.
Fixpoint add_chains (cm : gmap string OutboundConfig) (cs : list OutboundConfig) (m : OutboundManager)
  : result config_error OutboundManager :=
  match cs with
  | [] => Ok m
  | c :: cs =>
      if negb (String.eqb (o_protocol c) "chain") then add_chains cm cs m
      else
        match chain (o_settings c) with
        | None => Err (ChainMissing (o_tag c))
        | Some [] => Err (ChainEmpty (o_tag c))
        | Some hops =>
            let? ids := collect_hops (o_tag c) cm (handlers m) hops in
            add_chains cm cs (register (o_tag c) (Chain ids) m)
        end
  end.

Definition add_groups (gs : list ProxyGroupConfig) (m : OutboundManager) : result config_error OutboundManager :=
  match build_proxy_groups gs (handlers m) (objects m) with
  | Err e => Err (GroupFailed e)
  | Ok (σ, built) =>
      Ok (mkManager σ (kinds m)
            (foldl (fun hs '(name, id) => <[name := id]> hs) (handlers m) built)
            (foldl (fun ms c => <[cfg_name c := mkMeta (group_type c) (cfg_proxies c)]> ms) (group_metas m) gs))
  end.

Definition manager_new (configs : list OutboundConfig) (group_configs : list ProxyGroupConfig)
  : result config_error OutboundManager :=
  let cs := normalize_outbound_alias <$> configs in
  let? m := add_outbounds cs (mkManager [] ∅ ∅ ∅) in
  let? m := add_chains (config_map cs) cs m in
  add_groups group_configs m.
End build.

Definition manager_get (tag : string) (m : OutboundManager) : option nat := handlers m !! tag.
Definition group_meta (name : string) (m : OutboundManager) : option GroupMeta := group_metas m !! name.
Definition is_group (name : string) (m : OutboundManager) : bool := bool_decide (is_Some (group_metas m !! name)).

(** [handler.tag()] *)
Definition handler_tag (h : Handler) : string :=
  match h with
  | Outbound tag => tag
  | Selector g => sg_name g
  | UrlTest g => ug_name g
  | Fallback g => fg_name g
  | LoadBalance g => lg_name g
  | LatencyWeighted g => wg_tag g
  | Sticky g => kg_tag g
  end.
Definition group_selected (name : string) (m : OutboundManager) : option (option string * OutboundManager) :=
  match manager_get name m with
  | None => Some (None, m)
  | Some id =>
      match objects m !! id with
      | None => Some (None, m)
      | Some h =>
          match h with
          | Selector _ | UrlTest _ | Fallback _ =>
              '(h', n) ← selected_name h;
              Some (Some n, mkManager (<[id := h']> (objects m)) (kinds m) (handlers m) (group_metas m))
          | _ => Some (None, m)
          end
      end
  end.
Definition manager_select_proxy (group_name proxy_name : string) (m : OutboundManager) : bool * OutboundManager :=
  match manager_get group_name m with
  | None => (false, m)
  | Some id =>
      match objects m !! id with
      | Some (Selector g) =>
          let '(g', ok) := select g proxy_name in
          (ok, mkManager (<[id := Selector g']> (objects m)) (kinds m) (handlers m) (group_metas m))
      | _ => (false, m)
      end
  end.

(** The two maps are iterated in an order of their own, given here. *)
Definition first_proxy_tag (group_order handler_order : list string) (m : OutboundManager) : option string :=
  match List.find (fun n => match group_metas m !! n with Some g => String.eqb (gm_type g) "selector" | None => false end)
          group_order with
  | Some n => Some n
  | None => List.find (fun t => negb (String.eqb t "direct") && negb (String.eqb t "reject")) handler_order
  end.
(** An order in which a map can be iterated. *)
Definition iterates {A} (order : list string) (m : gmap string A) : Prop := order ≡ₚ (map_to_list m).*1.

(** ** Lemmas *)

Definition is_chain (c : OutboundConfig) : bool := String.eqb (o_protocol c) "chain".
Definition chain_kind (k : OutKind) : bool := match k with Chain _ => true | _ => false end.

(** The manager before groups are added: every object is a base outbound or a
    chain, known by its tag and its kind. *)
Record base_inv (cs : list OutboundConfig) (m : OutboundManager) : Prop := {
  bi_objects : ∀ id h, objects m !! id = Some h →
    ∃ tag k, h = Outbound tag ∧ kinds m !! id = Some k ∧ tag ∈ o_tag <$> cs;
  bi_handlers : ∀ tag id, handlers m !! tag = Some id →
    ∃ k c, objects m !! id = Some (Outbound tag) ∧ kinds m !! id = Some k
           ∧ c ∈ cs ∧ o_tag c = tag ∧ chain_kind k = is_chain c;
  bi_chains : ∀ id hops, kinds m !! id = Some (Chain hops) →
    hops ≠ [] ∧ Forall (fun h => ∃ tag k, objects m !! h = Some (Outbound tag) ∧ kinds m !! h = Some k
                                          ∧ chain_kind k = false) hops
}.

Lemma register_inv cs m c k :
  base_inv cs m → c ∈ cs → chain_kind k = is_chain c →
  (∀ hops, k = Chain hops → hops ≠ [] ∧ Forall (fun h => ∃ tag k', objects m !! h = Some (Outbound tag)
                              ∧ kinds m !! h = Some k' ∧ chain_kind k' = false) hops) →
  base_inv cs (register (o_tag c) k m).
Proof.
  intros [Ho Hh Hc] Hin Hk Hhops. set (n := length (objects m)).
  assert (Hold : ∀ id h, objects m !! id = Some h →
    (objects m ++ [Outbound (o_tag c)]) !! id = Some h ∧ <[n := k]> (kinds m) !! id = kinds m !! id).
  { intros id h Hid. pose proof (lookup_lt_Some _ _ _ Hid).
    split; [by apply lookup_app_l_Some|]. rewrite lookup_insert_ne; [done|]. unfold n. lia. }
  split; cbn [register objects kinds handlers]; fold n.
  - intros id h Hid. apply lookup_app_Some in Hid as [Hid|[Hge Hid]].
    + destruct (Hold _ _ Hid) as [_ ->]. by apply Ho.
    + apply list_lookup_singleton_Some in Hid as [Hid <-]. exists (o_tag c), k. split; [done|].
      split; [|by apply list_elem_of_fmap_2]. replace id with n by (unfold n; lia). apply lookup_insert_eq.
  - intros tag id Hid. apply lookup_insert_Some in Hid as [[<- <-]|[Hne Hid]].
    + exists k, c. split_and!; try done; [|apply lookup_insert_eq].
      rewrite lookup_app_r by lia. by rewrite Nat.sub_diag.
    + destruct (Hh _ _ Hid) as (k'&c'&H1&H2&?). exists k', c'. destruct (Hold _ _ H1) as [-> ->]. done.
  - intros id hops Hid. assert (Hok : ∀ l, (l ≠ [] ∧ Forall (fun h => ∃ tag k', objects m !! h = Some (Outbound tag)
      ∧ kinds m !! h = Some k' ∧ chain_kind k' = false) l) → l ≠ [] ∧ Forall (fun h => ∃ tag k', (objects m ++ [Outbound (o_tag c)]) !! h = Some (Outbound tag)
      ∧ <[n := k]> (kinds m) !! h = Some k' ∧ chain_kind k' = false) l).
    { intros l [Hne Hall]. split; [done|]. eapply Forall_impl; [exact Hall|]. intros h (tag&k'&H1&H2&H3).
      exists tag, k'. destruct (Hold _ _ H1) as [-> ->]. done. }
    apply lookup_insert_Some in Hid as [[<- ->]|[Hne Hid]]; apply Hok; [by apply Hhops|by eapply Hc].
Qed.

Section proofs.
Context `{Builders}.

Lemma build_outbound_kind c k : build_outbound c = Ok k → chain_kind k = false.
Proof. unfold build_outbound. repeat case_match; intros; simplify_eq; done. Qed.

Lemma add_outbounds_inv cs0 cs m m' :
  base_inv cs0 m → cs ⊆ cs0 → add_outbounds cs m = Ok m' →
  base_inv cs0 m' ∧ (∀ t, is_Some (handlers m !! t) → is_Some (handlers m' !! t))
  ∧ ∀ c, c ∈ cs → is_chain c = false → is_Some (handlers m' !! o_tag c).
Proof.
  revert m. induction cs as [|c cs IH]; intros m Hm Hsub Hadd; cbn [add_outbounds] in Hadd.
  { simplify_eq. split_and!; [done|done|set_solver]. }
  change (String.eqb (o_protocol c) "chain") with (is_chain c) in Hadd. destruct (is_chain c) eqn:Ec.
  - destruct (IH m Hm ltac:(set_solver) Hadd) as (H1&H2&H3). split_and!; try done.
    intros x [->|Hx]%elem_of_cons Hxc; [congruence|auto].
  - destruct (build_outbound c) as [k|e] eqn:Ek; [|done]. cbn in Hadd.
    apply build_outbound_kind in Ek.
    assert (base_inv cs0 (register (o_tag c) k m)) as Hr.
    { apply register_inv; [done|set_solver|congruence|]. intros hops ->. done. }
    destruct (IH _ Hr ltac:(set_solver) Hadd) as (H1&H2&H3).
    assert (is_Some (handlers m' !! o_tag c)) by (apply H2; cbn; rewrite lookup_insert_eq; eauto).
    split_and!; [done| |].
    + intros t Ht. apply H2. cbn. destruct (decide (o_tag c = t)) as [<-|]; [rewrite lookup_insert_eq; eauto|].
      by rewrite lookup_insert_ne.
    + intros x [->|Hx]%elem_of_cons Hxc; auto.
Qed.

Lemma config_map_lookup cs (m : gmap string OutboundConfig) tag c :
  foldl (fun m c => <[o_tag c := c]> m) m cs !! tag = Some c → (c ∈ cs ∧ o_tag c = tag) ∨ m !! tag = Some c.
Proof.
  revert m. induction cs as [|x cs IH]; intros m; cbn [foldl]; [auto|]. intros [Hc|Hc]%IH; [left; set_solver|].
  apply lookup_insert_Some in Hc as [[<- <-]|[_ Hc]]; [left; set_solver|auto].
Qed.
(** With distinct tags a tag has one configuration. *)
Lemma same_tag cs c1 c2 : NoDup (o_tag <$> cs) → c1 ∈ cs → c2 ∈ cs → o_tag c1 = o_tag c2 → c1 = c2.
Proof.
  intros Hnd [i Hi]%list_elem_of_lookup_1 [j Hj]%list_elem_of_lookup_1 Heq.
  assert (i = j) as ->; [|congruence].
  eapply (NoDup_lookup (o_tag <$> cs)); [done| |]; rewrite list_lookup_fmap; [rewrite Hi|rewrite Hj]; cbn; by rewrite ?Heq.
Qed.

Lemma collect_hops_spec cs m tag hops ids :
  NoDup (o_tag <$> cs) → base_inv cs m →
  collect_hops tag (config_map cs) (handlers m) hops = Ok ids →
  length ids = length hops
  ∧ Forall (fun h => ∃ tag k, objects m !! h = Some (Outbound tag) ∧ kinds m !! h = Some k ∧ chain_kind k = false) ids.
Proof.
  intros Hnd Hm. revert ids. induction hops as [|hop hops IH]; intros ids Hc; cbn [collect_hops] in Hc.
  { by simplify_eq. }
  destruct (String.eqb hop tag); [done|]. destruct (config_map cs !! hop) as [c|] eqn:Ec; [|done].
  destruct (String.eqb (o_protocol c) "chain") eqn:Ech; [done|]. destruct (handlers m !! hop) as [id|] eqn:Eid; [|done].
  destruct (collect_hops _ _ _ hops) as [ids'|e] eqn:E; [|done]. cbn in Hc. simplify_eq.
  destruct (IH _ eq_refl) as [Hl Hall]. split; [cbn; lia|]. constructor; [|done].
  destruct (bi_handlers _ _ Hm _ _ Eid) as (k&c'&H1&H2&H3&H4&H5). exists hop, k. split_and!; [done|done|].
  rewrite H5. apply config_map_lookup in Ec as [[Hin Htag]|Ec]; [|by rewrite lookup_empty in Ec].
  by rewrite (same_tag cs c' c Hnd H3 Hin ltac:(congruence)).
Qed.

Lemma add_chains_inv cs0 cs m m' :
  NoDup (o_tag <$> cs0) → base_inv cs0 m → cs ⊆ cs0 → add_chains (config_map cs0) cs m = Ok m' →
  base_inv cs0 m' ∧ (∀ t, is_Some (handlers m !! t) → is_Some (handlers m' !! t))
  ∧ ∀ c, c ∈ cs → is_chain c = true → is_Some (handlers m' !! o_tag c).
Proof.
  intros Hnd. revert m. induction cs as [|c cs IH]; intros m Hm Hsub Hadd; cbn [add_chains] in Hadd.
  { simplify_eq. split_and!; [done|done|set_solver]. }
  change (String.eqb (o_protocol c) "chain") with (is_chain c) in Hadd. destruct (is_chain c) eqn:Ec; cbn [negb] in Hadd.
  - destruct (chain (o_settings c)) as [[|hop hops]|] eqn:Eh; try done.
    destruct (collect_hops _ _ _ _) as [ids|e] eqn:Ei; [|done]. cbn [mbind] in Hadd.
    destruct (collect_hops_spec _ _ _ _ _ Hnd Hm Ei) as [Hl Hall].
    assert (base_inv cs0 (register (o_tag c) (Chain ids) m)) as Hr.
    { apply register_inv; [done|set_solver|by rewrite Ec|]. intros ? [= <-]. split; [by destruct ids|done]. }
    destruct (IH _ Hr ltac:(set_solver) Hadd) as (H1&H2&H3).
    assert (is_Some (handlers m' !! o_tag c)) by (apply H2; cbn; rewrite lookup_insert_eq; eauto).
    split_and!; [done| |].
    + intros t Ht. apply H2. cbn. destruct (decide (o_tag c = t)) as [<-|]; [rewrite lookup_insert_eq; eauto|].
      by rewrite lookup_insert_ne.
    + intros x [->|Hx]%elem_of_cons Hxc; auto.
  - destruct (IH m Hm ltac:(set_solver) Hadd) as (H1&H2&H3). split_and!; try done.
    intros x [->|Hx]%elem_of_cons Hxc; [congruence|auto].
Qed.

Lemma base_store_ok cs m : base_inv cs m → store_ok (objects m).
Proof. intros Hm id h Hid. destruct (bi_objects _ _ Hm _ _ Hid) as (tag&k&->&_). done. Qed.

(** Building groups keeps the objects there were and names the new ones. *)
Lemma build_loop_prefix existing configs σ built σ' built' :
  build_loop existing configs σ built = Ok (σ', built') →
  (∃ l, σ' = σ ++ l ∧ Forall (fun h => ∀ tag, h ≠ Outbound tag) l)
  ∧ built'.*1 = built.*1 ++ (cfg_name <$> configs).
Proof.
  revert σ built. induction configs as [|c configs IH]; intros σ built Hb; cbn [build_loop] in Hb.
  { simplify_eq. split; [exists []; by rewrite app_nil_r|]. by rewrite app_nil_r. }
  destruct (collect_members _ _ _ _) as [ps|e]; [|done]. cbn [bind_result] in Hb. destruct ps as [|p ps]; [done|].
  destruct (make_group c (p :: ps)) as [h|e] eqn:Em; [|done]. cbn [bind_result] in Hb.
  destruct (IH _ _ Hb) as [(l&->&Hl) ->]. split.
  - exists (h :: l). split; [by rewrite <- app_assoc|]. constructor; [|done].
    intros tag ->. unfold make_group in Em. repeat case_match; simplify_eq.
  - rewrite fmap_app, <- app_assoc. done.
Qed.

Lemma foldl_insert_lookup (l : list (string * nat)) (m : gmap string nat) k :
  (is_Some (foldl (fun hs '(name, id) => <[name := id]> hs) m l !! k) ↔ k ∈ l.*1 ∨ is_Some (m !! k))
  ∧ (∀ id, foldl (fun hs '(name, id) => <[name := id]> hs) m l !! k = Some id → (k, id) ∈ l ∨ m !! k = Some id).
Proof.
  revert m. induction l as [|[n i] l IH]; intros m; cbn [foldl fmap list_fmap].
  { split; [set_solver|auto]. }
  destruct (IH (<[n := i]> m)) as [H1 H2]. split.
  - rewrite H1. destruct (decide (n = k)) as [->|Hne].
    + rewrite lookup_insert_eq. split; [intros _; left; left|intros _; right; eauto].
    + rewrite lookup_insert_ne by done. cbn. rewrite elem_of_cons. split; [intros [?|?]; auto|]. intros [[?|?]|?]; [congruence|auto..].
  - intros id Hid. destruct (H2 id Hid) as [?|Hi]; [left; by right|].
    apply lookup_insert_Some in Hi as [[<- <-]|[_ ?]]; [left; left|auto].
Qed.
End proofs.

(** ** Theorems *)

Lemma manager_new_inv `{Builders} configs gs m :
  NoDup (o_tag <$> configs) → manager_new configs gs = Ok m →
  ∃ m0 σ built, base_inv (normalize_outbound_alias <$> configs) m0
    ∧ (o_tag <$> (normalize_outbound_alias <$> configs) = o_tag <$> configs)
    ∧ (∀ t, is_Some (handlers m0 !! t) ↔ t ∈ o_tag <$> configs)
    ∧ build_proxy_groups gs (handlers m0) (objects m0) = Ok (σ, built)
    ∧ objects m = σ ∧ kinds m = kinds m0
    ∧ handlers m = foldl (fun hs '(name, id) => <[name := id]> hs) (handlers m0) built.
Proof.
  intros Hnd Hnew. unfold manager_new in Hnew. set (cs := normalize_outbound_alias <$> configs) in *.
  assert (Htags : o_tag <$> cs = o_tag <$> configs).
  { unfold cs. rewrite <- list_fmap_compose. apply list_fmap_ext. intros. apply normalize_tag. }
  assert (base_inv cs (mkManager [] ∅ ∅ ∅)) as H0 by (split; cbn; intros *; rewrite ?lookup_nil, ?lookup_empty; done).
  destruct (add_outbounds cs _) as [m1|e] eqn:E1; [|done]. cbn [bind_result] in Hnew.
  destruct (add_chains _ cs m1) as [m0|e] eqn:E2; [|done]. cbn [bind_result] in Hnew.
  destruct (add_outbounds_inv _ _ _ _ H0 ltac:(done) E1) as (I1&_&R1).
  destruct (add_chains_inv cs cs m1 m0 ltac:(by rewrite Htags) I1 ltac:(done) E2) as (I2&K2&R2).
  unfold add_groups in Hnew. destruct (build_proxy_groups _ _ _) as [[σ built]|e] eqn:E3; [|done]. simplify_eq.
  exists m0, σ, built. split_and!; try done. intros t. rewrite <- Htags. split.
  - intros [id Hid]. destruct (bi_handlers _ _ I2 _ _ Hid) as (k&c&_&_&Hc&<-&_). by apply list_elem_of_fmap_2.
  - intros (c&->&Hc)%list_elem_of_fmap_1. destruct (is_chain c) eqn:Ec; auto.
Qed.

(** C25: a manager that is built from outbounds with distinct tags, and groups of
    fewer than 2^53 - 1 members each, knows exactly the tags of the configured outbounds and groups; after any sequence of
    selections, connections, health checks, latency records and resets, none of
    which panics, a connection through any of them ends, whatever the groups select
    then, at a configured outbound (or is refused by a sticky group for UDP); and a
    chain has at least one hop, each an outbound that is not a chain. *)
Theorem outbound_manager_sound `{Builders} `{GroupEnv} configs gs m :
  NoDup (o_tag <$> configs) →
  Forall (fun c => Z.of_nat (length (cfg_proxies c)) < 2 ^ 53 - 1) gs →
  manager_new configs gs = Ok m →
  (∀ t, is_Some (manager_get t m) ↔ t ∈ (o_tag <$> configs) ++ (cfg_name <$> gs))
  ∧ (∀ ops, Forall (fun op => op_id op < length (objects m))%nat ops →
      ∃ σ, run_ops (objects m) ops = Some σ
      ∧ ∀ t id nanos session udp, manager_get t m = Some id →
      match (connect (S id) nanos σ id session udp).2 with
      | Reached leaf => ∃ tag k, objects m !! leaf = Some (Outbound tag) ∧ kinds m !! leaf = Some k
                                 ∧ tag ∈ o_tag <$> configs
      | UdpNotSupported _ => udp = true
      | ConnPanics | ConnOutOfFuel => False
      end)
  ∧ (∀ id hops, kinds m !! id = Some (Chain hops) →
      hops ≠ [] ∧ Forall (fun h => ∃ tag k, objects m !! h = Some (Outbound tag) ∧ kinds m !! h = Some k
                                            ∧ chain_kind k = false) hops).
Proof.
  intros Hnd Hsz Hnew. destruct (manager_new_inv _ _ _ Hnd Hnew) as (m0&σ&built&I&Htags&Ht&Hb&Ho&Hk&Hh).
  unfold manager_get. rewrite Ho, Hk, Hh. unfold build_proxy_groups in Hb.
  destruct (build_loop_prefix _ _ _ _ _ _ Hb) as [(l&Hl&Hnl) Hnames]. cbn [fmap list_fmap app] in Hnames.
  assert (Hlt0 : ∀ nm i, handlers m0 !! nm = Some i → (i < length (objects m0))%nat).
  { intros nm i Hi. destruct (bi_handlers _ _ I _ _ Hi) as (k&c&Hob&_). by eapply lookup_lt_Some. }
  destruct (build_loop_ok _ _ _ _ _ _ (base_store_ok _ _ I) Hlt0 (Forall_nil_2 _) Hsz Hb) as [Hok Hbuilt].
  split_and!.
  - intros t. rewrite (proj1 (foldl_insert_lookup built (handlers m0) t)), Hnames, Ht, elem_of_app. tauto.
  - intros ops Hops. destruct (run_ops_keeps σ ops Hok Hops) as (σ1&Hrun&Hok1&Hsame). exists σ1. split; [done|].
    intros t id nanos session udp Hid.
    assert (id < length σ)%nat as Hlt.
    { destruct (proj2 (foldl_insert_lookup built (handlers m0) t) id Hid) as [Hin|Hin].
      - rewrite Forall_forall in Hbuilt. apply (Hbuilt _ Hin).
      - rewrite Hl, length_app. specialize (Hlt0 _ _ Hin). lia. }
    rewrite (same_shape_length _ _ Hsame) in Hlt.
    pose proof (connect_ok (S id) nanos σ1 id session udp Hok1 Hlt ltac:(lia)) as Hc.
    destruct (connect _ _ _ _ _ _) as [σ' r]. destruct Hc as (_&_&Hc). cbn [snd].
    destruct r as [leaf|tag| |]; try done. cbn in Hc. rewrite <- Hsame in Hc. clear Hid Hlt.
    induction Hc as [leaf tag Hleaf|]; [|done].
    rewrite Hl in Hleaf. apply lookup_app_Some in Hleaf as [Hleaf|[_ Hleaf]].
    2: { rewrite Forall_forall in Hnl. apply list_elem_of_lookup_2 in Hleaf. by destruct (Hnl _ Hleaf tag). }
    destruct (bi_objects _ _ I _ _ Hleaf) as (tag'&k&[= <-]&Hkk&Hin). exists tag, k.
    rewrite Hl, (lookup_app_l_Some _ _ _ _ Hleaf). split_and!; try done. by rewrite <- Htags.
  - intros id hops Hid. destruct (bi_chains _ _ I _ _ Hid) as [Hne Hall]. split; [done|].
    eapply Forall_impl; [exact Hall|]. intros h (tag&k&H1&H2&H3). exists tag, k.
    rewrite Hl, (lookup_app_l_Some _ _ _ _ H1). done.
Qed.

(** ** Configuration, router and outbounds together *)

Section routing.
Context {IpNet Regex : Type} `{!IpNetOps IpNet} `{!IpNetDisplay IpNet} `{!RegexOps Regex}.

(** The rules of a router carry the actions of the configured rules. *)
Definition from_rules (rcs : list RuleConfig) (tb : Table (IpNet := IpNet) (Regex := Regex)) : Prop :=
  Forall (fun e => ∃ rc, rc ∈ rcs ∧ e.2 = action_from_config rc) (tb_rules tb).
Lemma push_rule_from rcs tb rule rc :
  rc ∈ rcs → from_rules rcs tb → from_rules rcs (push_rule tb rule (action_from_config rc)).
Proof. intros. apply Forall_app. split; [done|]. repeat constructor. eauto. Qed.
Lemma add_rule_from rcs ps tb rc tb' :
  rc ∈ rcs → from_rules rcs tb → add_rule ps tb rc = Ok tb' → from_rules rcs tb'.
Proof.
  intros Hrc Htb. unfold add_rule. destruct (String.eqb _ _).
  - assert (Hgen : ∀ l acc, (∀ t, acc = Ok t → from_rules rcs t) → ∀ t,
      foldl (fun acc provider_name =>
             let? tb := acc in
             match ps !! provider_name with
             | None => Err (UnknownProvider provider_name)
             | Some data =>
                 Ok (push_rule tb (RuleSet provider_name data) (action_from_config rc))
             end) acc l = Ok t → from_rules rcs t).
    { induction l as [|name l IH]; intros acc Hacc t; cbn [foldl]; [apply Hacc|].
      apply IH. intros t' (t0 & -> & H)%bind_Ok. destruct (ps !! name); [|done].
      injection H as <-. apply push_rule_from; [done|]. by apply Hacc. }
    apply Hgen. by intros t [= <-].
  - destruct (rule_from_config rc); [|done]. intros [= <-]. by apply push_rule_from.
Qed.
Lemma router_new_rules ld config (r : Router (IpNet := IpNet) (Regex := Regex)) :
  router_new ld config = Ok r →
  default_tag r = cfg_default config
  ∧ Forall (fun e => ∃ rc, rc ∈ cfg_rules config ∧ e.2 = action_from_config rc) (rules r).
Proof.
  unfold router_new. intros (gi & _ & H)%bind_Ok. apply bind_Ok in H as (gs & _ & H).
  destruct (load_all_providers ld _) as [ps|]; [|done].
  apply bind_Ok in H as (tb & Htb & [= <-]). cbn. split; [done|].
  enough (Hgen : ∀ l acc, l ⊆ cfg_rules config → (∀ t, acc = Ok t → from_rules (cfg_rules config) t) → ∀ t,
    foldl (fun acc rc => let? tb := acc in add_rule ps tb rc) acc l = Ok t → from_rules (cfg_rules config) t).
  { eapply Hgen; [done| |exact Htb]. intros t [= <-]. constructor. }
  induction l as [|rc l IH]; intros acc Hsub Hacc t; cbn [foldl]; [apply Hacc|].
  apply IH; [set_solver|]. intros t' (t0 & -> & H)%bind_Ok. eapply add_rule_from; [|by apply Hacc|exact H]. set_solver.
Qed.

Lemma route_tag env (r : Router (IpNet := IpNet) (Regex := Regex)) session :
  (route_with_rule env r session).1 = default_tag r
  ∨ ∃ e, e ∈ rules r ∧ outbound_tag e.2 = Some (route_with_rule env r session).1.
Proof.
  unfold route_with_rule.
  match goal with |- context [match ?s with Some i => _ | None => (default_tag r, None) end] => destruct s as [idx|] end;
    [|by left].
  destruct (rules r !! idx) as [[rule action]|] eqn:E; [|by left]. cbn.
  destruct (outbound_tag action) as [t|] eqn:Ea; [|by left]. right. exists (rule, action).
  split; [by eapply list_elem_of_lookup_2|done].
Qed.

Lemma action_outbound rc t :
  outbound_tag (action_from_config rc) = Some t →
  t = cfg_outbound rc ∨ t = "direct" ∧ action_from_config rc = Bypass.
Proof. unfold action_from_config. repeat case_match; cbn; intros; simplify_eq; auto. Qed.

(** C3: with a configuration that passes [validate] and from which the router and
    the outbound manager are built, every routing decision names a registered
    outbound or group; the one exception is a [bypass] rule, which names
    [direct], in a configuration without an outbound of that tag. *)
Theorem validated_config_routes `{Builders} ld c (r : Router (IpNet := IpNet) (Regex := Regex)) m env session :
  validate c = Ok tt → NoDup (o_tag <$> outbounds c) →
  Forall (fun g => Z.of_nat (length (cfg_proxies g)) < 2 ^ 53 - 1) (proxy_groups c) →
  router_new ld (router c) = Ok r →
  manager_new (outbounds c) (proxy_groups c) = Ok m →
  let tag := (route_with_rule env r session).1 in
  is_Some (manager_get tag m)
  ∨ tag = "direct" ∧ "direct" ∉ all_tags c
    ∧ ∃ rc, rc ∈ cfg_rules (router c) ∧ action_from_config rc = Bypass.
Proof.
  intros [Hd Hr Hg]%validate_ok Hnd Hsz Hrt Hm tag.
  assert (Hreg : ∀ t, t ∈ all_tags c → is_Some (manager_get t m)).
  { intros t Ht. destruct (manager_new_inv _ _ _ Hnd Hm) as (m0&σ&built&_&_&Hk&Hb&_&_&Hh).
    unfold build_proxy_groups in Hb. apply build_loop_prefix in Hb as [_ Hn]. cbn [fmap list_fmap app] in Hn.
    unfold manager_get. rewrite Hh. apply foldl_insert_lookup. rewrite Hn, Hk. unfold all_tags in Ht. set_solver. }
  destruct (router_new_rules _ _ _ Hrt) as [Hdef Hrules].
  destruct (route_tag env r session) as [Htag|(e&He&Htag)]; fold tag in Htag.
  { left. apply Hreg. by rewrite Htag, Hdef. }
  rewrite Forall_forall in Hrules. destruct (Hrules e He) as (rc&Hrc&Ha). rewrite Ha in Htag.
  destruct (action_outbound rc tag Htag) as [->|[-> Hby]]; [left; by apply Hreg, Hr|].
  destruct (decide ("direct" ∈ all_tags c)); [left; by apply Hreg|right]. eauto.
Qed.
End routing.

(** [validate] accepts a proxy group that refers to a group listed after it (or
    to itself), but the manager cannot be built from such a configuration, in
    whatever way the rest of it looks. *)
Theorem forward_group_reference_fails `{Builders} c g gs p :
  NoDup (o_tag <$> outbounds c) →
  proxy_groups c = g :: gs → p ∈ cfg_proxies g → p ∉ o_tag <$> outbounds c →
  ∀ m, manager_new (outbounds c) (proxy_groups c) ≠ Ok m.
Proof.
  intros Hnd Hg Hp Ho m Hm. destruct (manager_new_inv _ _ _ Hnd Hm) as (m0&σ&built&_&_&Hk&Hb&_).
  rewrite Hg in Hb. unfold build_proxy_groups in Hb. cbn [build_loop] in Hb.
  destruct (collect_members _ _ _ _) as [ps|e] eqn:E; [|done]. clear Hb.
  assert (Hno : find_handler (handlers m0) [] p = None).
  { unfold find_handler. destruct (handlers m0 !! p) eqn:Eh; [|done]. exfalso. apply Ho, Hk. by rewrite Eh. }
  revert ps E. induction (cfg_proxies g) as [|q l IH]; intros ps E; [set_solver|]. cbn [collect_members] in E.
  apply elem_of_cons in Hp as [<-|Hp]; [by rewrite Hno in E|].
  destruct (find_handler _ _ q); [|done]. destruct (collect_members _ _ _ l) as [ids|]; [|done]. by eapply IH.
Qed.

(** ** Witnesses *)

#[local] Instance ex_env : GroupEnv :=
  {| default_hash := fun _ => 0; powf := fun x _ => x; url_parse := fun _ => None |}.
#[local] Instance all_build : Builders := fun _ _ => None.
Definition plain (tag proto : string) : OutboundConfig := mkOutbound tag proto settings_default.
Definition group_cfg (name ty : string) (ps : list string) : ProxyGroupConfig :=
  {| cfg_name := name; group_type := ty; cfg_proxies := ps; cfg_url := None; cfg_interval := 300;
     cfg_tolerance := 150; cfg_strategy := None |}.
Definition chain_settings (hops : list string) : OutboundSettings :=
  let 'mkSettings a b c d e g h i j k l m n o p q r t u v w x y z a1 b1 c1 d1 e1 f1 g1 h1 i1 j1 k1 _ m1 n1 := settings_default in
  mkSettings a b c d e g h i j k l m n o p q r t u v w x y z a1 b1 c1 d1 e1 f1 g1 h1 i1 j1 k1 (Some hops) m1 n1.
Definition ex_outbounds : list OutboundConfig :=
  [plain "direct" "direct"; plain "a" "vmess-ws"; plain "b" "trojan";
   mkOutbound "via" "chain" (chain_settings ["a"; "b"])].
Definition ex_groups : list ProxyGroupConfig := [group_cfg "auto" "url-test" ["a"; "via"]; group_cfg "proxy" "selector" ["auto"; "direct"]].
Definition ex_inbound : InboundConfig :=
  mkInbound "in" "mixed" "127.0.0.1" 7890 false
    (mkInSettings None None None None None None None None false [] None true None None 1 100 [] None None None) None.
Definition ex_config (default_tag : string) (gs : list ProxyGroupConfig) : Config :=
  mkConfig None [ex_inbound] ex_outbounds gs
    (mkRouterConfig [sample_rule "domain-suffix" ["example.org"] "via" "route"; sample_rule "dst-port" ["22"] "direct" "bypass"]
       default_tag None None ∅) 10000.
Definition ex_manager : OutboundManager :=
  match manager_new ex_outbounds ex_groups with Ok m => m | Err _ => mkManager [] ∅ ∅ ∅ end.
Definition ex_router : Router (IpNet := SampleNet) (Regex := string) :=
  match router_new sample_loader (router (ex_config "proxy" ex_groups)) with
  | Ok r => r
  | Err _ => mkRouter [] "" domain_trie_new ip_trie_new None None ∅
  end.

Lemma outbound_manager_sound_witness : is_Some (manager_get "proxy" ex_manager).
Proof.
  assert (manager_new ex_outbounds ex_groups = Ok ex_manager) as Hm by (vm_compute; reflexivity).
  assert ("proxy" ∈ (o_tag <$> ex_outbounds) ++ (cfg_name <$> ex_groups)) as Hin by (vm_compute; set_solver).
  refine (proj2 (proj1 (outbound_manager_sound ex_outbounds ex_groups ex_manager _ _ Hm) "proxy") Hin).
  - apply (bool_decide_unpack _). vm_compute. exact I.
  - repeat constructor.
Defined.

Lemma validated_config_routes_witness :
  let tag := (route_with_rule sample_env ex_router (sample_session (Domain "www.example.org" 443))).1 in
  tag = "via" ∧ (is_Some (manager_get tag ex_manager) ∨ tag = "direct").
Proof.
  split; [vm_compute; reflexivity|].
  destruct (validated_config_routes sample_loader (ex_config "proxy" ex_groups) ex_router ex_manager sample_env
    (sample_session (Domain "www.example.org" 443))) as [Hs|[Hd _]]; [..|by left|by right].
  - vm_compute. reflexivity.
  - apply (bool_decide_unpack _). vm_compute. exact I.
  - repeat constructor.
  - vm_compute. reflexivity.
  - vm_compute. reflexivity.
Defined.

Lemma forward_group_reference_fails_witness :
  let c := ex_config "proxy" [group_cfg "proxy" "selector" ["auto"; "direct"]; group_cfg "auto" "url-test" ["a"]] in
  validate c = Ok tt ∧ ∀ m, manager_new (outbounds c) (proxy_groups c) ≠ Ok m.
Proof.
  split; [vm_compute; reflexivity|].
  apply (forward_group_reference_fails
    (ex_config "proxy" [group_cfg "proxy" "selector" ["auto"; "direct"]; group_cfg "auto" "url-test" ["a"]])
    (group_cfg "proxy" "selector" ["auto"; "direct"]) [group_cfg "auto" "url-test" ["a"]] "auto").
  - apply (bool_decide_unpack _). vm_compute. exact I.
  - reflexivity.
  - vm_compute. set_solver.
  - vm_compute. set_solver.
Defined.
