(* ===== verification/Srs.v ===== *)
(** * Binary rule sets ([src/src/router/srs.rs])

    The reader of sing-box rule-set files.  The cursor is the list of bytes
    still to read; a reader returns what it read and the rest, or an error.
    Decompression ([flate2]) is a parameter.  Besides the code's own errors there
    are [CapacityOverflow], the panic of an allocation larger than the address
    space allows, and [SrsOutOfFuel].  The main results: reading never runs out
    of fuel, and a file written in the documented format reads back as the rules
    it holds. *)

From S2P Require Import Prelude RustStr Addr Trie IpText Rules.

Local Open Scope string_scope.
Local Open Scope list_scope.
Local Open Scope Z_scope.
Set Warnings "-register-all".

Inductive srs_error :=
| TooShort
| BadMagic (a b c : byte)
| UnsupportedVersion (v : byte)
| DecompressFailed
| UnexpectedEof
| UnknownRuleType (t : byte)
| UvarintOverflow
| NotUtf8
| CapacityOverflow
| SrsOutOfFuel.

Definition reader (A : Type) : Type := bytes → result srs_error (A * bytes).
Definition ret {A} (a : A) : reader A := fun cur => Ok (a, cur).
Definition fail {A} (e : srs_error) : reader A := fun _ => Err e.
Definition bind {A B} (p : reader A) (k : A → reader B) : reader B :=
  fun cur => match p cur with Ok (a, cur) => k a cur | Err e => Err e end.
Notation "'read!' x ':=' p 'in' k" := (bind p (fun x => k))
  (at level 10, x binder, p at level 100, k at level 200) : rust_scope.

Definition SRS_MAGIC : bytes := [Byte.x53; Byte.x52; Byte.x53].

(** [isize::MAX] on a 64-bit target. *)
Definition isize_max : Z := 2 ^ 63 - 1.

(** ** Readers *)

Definition read_u8 : reader byte := fun cur =>
  match cur with b :: cur => Ok (b, cur) | [] => Err UnexpectedEof end.

Definition read_exact (n : Z) : reader bytes := fun cur =>
  if n <=? len cur then Ok (take (Z.to_nat n) cur, drop (Z.to_nat n) cur) else Err UnexpectedEof.

(** One turn per byte; the shift reaches 64 after ten. *)
Fixpoint uvarint_loop (turns : nat) (shift acc : Z) : reader Z :=
  match turns with
  | O => fail UvarintOverflow
  | S turns =>
      read! b := read_u8 in
      let acc := Z.lor acc (wrap 64 (Z.shiftl (Z.land (byte_to_Z b) 0x7F) shift)) in
      if Z.land (byte_to_Z b) 0x80 =? 0 then ret acc else uvarint_loop turns (shift + 7) acc
  end.
Definition read_uvarint : reader Z := uvarint_loop 10 0 0.

(** [for _ in 0..count]: each turn of [p] reads at least a byte. *)
Fixpoint times_fuel {A} (fuel : nat) (p : reader A) (count : Z) : reader (list A) :=
  if count <=? 0 then ret [] else
  match fuel with
  | O => fail SrsOutOfFuel
  | S fuel => read! a := p in read! l := times_fuel fuel p (count - 1) in ret (a :: l)
  end.
Definition times {A} (p : reader A) (count : Z) : reader (list A) :=
  fun cur => times_fuel (S (length cur)) p count cur.

(** [vec![0u8; len]] *)
Definition alloc_bytes (n : Z) : reader unit :=
  if isize_max <? n then fail CapacityOverflow else ret tt.

Definition read_string : reader string :=
  read! n := read_uvarint in
  read! _ := alloc_bytes n in
  read! buf := read_exact n in
  match from_utf8 buf with Some s => ret s | None => fail NotUtf8 end.

(** [Vec::with_capacity(count)] of 24-byte strings. *)
Definition read_string_list : reader (list string) :=
  read! count := read_uvarint in
  read! _ := alloc_bytes (24 * count) in
  times read_string count.

Definition read_domain_matcher : reader (list string * list string) :=
  read! domains := read_string_list in
  read! suffixes := read_string_list in
  ret (domains, suffixes).

(** The prefix length that [from] and [to] of [w] bits share:
    [w - (w - leading_zeros(from ^ to))]. *)
Definition range_prefix (w from to : Z) : option Z :=
  if to <? from then None else
  let diff := Z.lxor from to in
  let host_bits := if diff =? 0 then 0 else Z.log2 diff + 1 in
  Some (w - host_bits).

Section Nets.
Context {IpNet : Type} `{!IpNetOps IpNet}.

Definition range_to_cidr_v4 (from to : bytes) : option IpNet :=
  let from_ip := from_be_bytes from in
  prefix ← range_prefix 32 from_ip (from_be_bytes to);
  net_parse (ip_to_string (V4 from_ip) +:+ "/" +:+ uint_to_string prefix).

Definition range_to_cidr_v6 (from to : bytes) : option IpNet :=
  let from_ip := from_be_bytes from in
  prefix ← range_prefix 128 from_ip (from_be_bytes to);
  net_parse (ip_to_string (V6 from_ip) +:+ "/" +:+ uint_to_string prefix).

Definition read_ip_range : reader (option IpNet) :=
  read! flag := read_u8 in
  if negb (byte_to_Z flag =? 0) then
    read! from := read_exact 16 in read! to := read_exact 16 in ret (range_to_cidr_v6 from to)
  else
    read! from := read_exact 4 in read! to := read_exact 4 in ret (range_to_cidr_v4 from to).

Definition read_ip_set : reader (list IpNet) :=
  read! count := read_uvarint in
  read! cidrs := times read_ip_range count in
  ret (omap id cidrs).

Definition skip_payload : reader unit :=
  read! n := read_uvarint in
  read! _ := alloc_bytes n in
  read! _ := read_exact n in ret tt.

Definition skip_unknown_item (item_type : Z) : reader unit :=
  if (item_type =? 18) || (item_type =? 19) then ret tt else
  read! count := read_uvarint in
  read! _ := times skip_payload count in ret tt.

Definition rules_read : Type := list DomainRule * list IpNet.

(** The loop over the items of a default rule. *)
Fixpoint default_rule_loop (fuel : nat) (domain_rules : list DomainRule) (ip_cidrs : list IpNet)
  : reader rules_read :=
  match fuel with
  | O => fail SrsOutOfFuel
  | S fuel =>
      read! b := read_u8 in
      let item_type := byte_to_Z b in
      if item_type =? 0xFF then read! _ := read_u8 in ret (domain_rules, ip_cidrs)
      else if item_type =? 2 then
        read! m := read_domain_matcher in
        default_rule_loop fuel (domain_rules ++ (DrFull <$> m.1) ++ (DrSuffix <$> m.2)) ip_cidrs
      else if (item_type =? 3) || (item_type =? 4) then
        read! l := read_string_list in
        default_rule_loop fuel (domain_rules ++ (DrKeyword <$> l)) ip_cidrs
      else if (item_type =? 5) || (item_type =? 6) then
        read! cidrs := read_ip_set in default_rule_loop fuel domain_rules (ip_cidrs ++ cidrs)
      else
        read! _ := skip_unknown_item item_type in default_rule_loop fuel domain_rules ip_cidrs
  end.
Definition read_default_rule : reader rules_read :=
  fun cur => default_rule_loop (S (length cur)) [] [] cur.

Definition concat_rules (l : list rules_read) : rules_read := (concat (l.*1), concat (l.*2)).

Fixpoint read_rule (fuel : nat) : reader rules_read :=
  match fuel with
  | O => fail SrsOutOfFuel
  | S fuel =>
      read! t := read_u8 in
      if byte_to_Z t =? 0 then read_default_rule
      else if byte_to_Z t =? 1 then
        read! _ := read_u8 in
        read! count := read_uvarint in
        read! l := times (read_rule fuel) count in
        read! _ := read_u8 in
        ret (concat_rules l)
      else fail (UnknownRuleType t)
  end.

(** The body after decompression. *)
Definition read_body : reader rules_read := fun cur =>
  (read! rule_count := read_uvarint in
   read! l := times (read_rule (S (length cur))) rule_count in
   ret (concat_rules l)) cur.

Definition is_srs_format (data : bytes) : bool :=
  (4 <=? length data)%nat && bool_decide (slice data 0 3 = SRS_MAGIC).

(** [inflate]: [ZlibDecoder::read_to_end]. *)
Definition parse_srs (inflate : bytes → option bytes) (data : bytes)
  : result srs_error (RuleSetData IpNet) :=
  if (length data <? 4)%nat then Err TooShort
  else if negb (bool_decide (slice data 0 3 = SRS_MAGIC)) then
    Err (BadMagic (byte_at data 0) (byte_at data 1) (byte_at data 2))
  else if 3 <? byte_to_Z (byte_at data 3) then Err (UnsupportedVersion (byte_at data 3))
  else match inflate (drop 4 data) with
       | None => Err DecompressFailed
       | Some decompressed =>
           let? r := read_body decompressed in
           Ok (mkRuleSetData r.1.1 r.1.2)
       end.

End Nets.

(** ** Reading terminates *)

(** On at most [n] bytes the reader has fuel enough, and what is left is no
    longer ([good]) or shorter ([eats]) than what was there. *)
Definition good {A} (n : nat) (p : reader A) : Prop :=
  ∀ cur, (length cur ≤ n)%nat →
    match p cur with Ok (_, rest) => (length rest ≤ length cur)%nat | Err e => e ≠ SrsOutOfFuel end.
Definition eats {A} (n : nat) (p : reader A) : Prop :=
  ∀ cur, (length cur ≤ n)%nat →
    match p cur with Ok (_, rest) => (length rest < length cur)%nat | Err e => e ≠ SrsOutOfFuel end.

Create HintDb srs.

Lemma good_ret {A} n (a : A) : good n (ret a).
Proof. intros cur _. simpl. lia. Qed.
Lemma good_fail {A} n e : e ≠ SrsOutOfFuel → good n (fail (A := A) e).
Proof. by intros He cur _. Qed.
Lemma eats_fail {A} n e : e ≠ SrsOutOfFuel → eats n (fail (A := A) e).
Proof. by intros He cur _. Qed.
Lemma good_mono {A} n m (p : reader A) : (m ≤ n)%nat → good n p → good m p.
Proof. intros Hm Hp cur Hc. apply Hp. lia. Qed.
Lemma eats_good {A} n (p : reader A) : eats n p → good n p.
Proof. intros Hp cur Hc. specialize (Hp cur Hc). destruct (p cur) as [[]|]; [lia | done]. Qed.
Lemma good_bind {A B} n (p : reader A) (k : A → reader B) :
  good n p → (∀ a, good n (k a)) → good n (bind p k).
Proof.
  intros Hp Hk cur Hc. unfold bind. specialize (Hp cur Hc). destruct (p cur) as [[a rest]|]; [|done].
  specialize (Hk a rest ltac:(lia)). destruct (k a rest) as [[]|]; [lia | done].
Qed.
Lemma eats_bind {A B} n (p : reader A) (k : A → reader B) :
  eats n p → (∀ a, good (n - 1) (k a)) → eats n (bind p k).
Proof.
  intros Hp Hk cur Hc. unfold bind. specialize (Hp cur Hc). destruct (p cur) as [[a rest]|]; [|done].
  specialize (Hk a rest ltac:(lia)). destruct (k a rest) as [[]|]; [lia | done].
Qed.
Lemma eats_read_u8 n : eats n read_u8.
Proof. intros [|b cur] _; simpl; [done | lia]. Qed.
Lemma good_read_exact n k : good n (read_exact k).
Proof. intros cur _. unfold read_exact. destruct (_ <=? _); [rewrite length_drop; lia | done]. Qed.
Lemma good_alloc n k : good n (alloc_bytes k).
Proof. unfold alloc_bytes. destruct (_ <? _); [by apply good_fail | apply good_ret]. Qed.
#[export] Hint Resolve good_ret good_fail good_read_exact good_alloc eats_read_u8 : srs.

Lemma eats_uvarint n turns shift acc : eats n (uvarint_loop turns shift acc).
Proof.
  revert n shift acc. induction turns as [|turns IH]; intros n shift acc; [by apply eats_fail|].
  cbn [uvarint_loop]. apply eats_bind; [auto with srs|]. intros b.
  destruct (_ =? 0); [auto with srs | apply eats_good, IH].
Qed.
Lemma eats_read_uvarint n : eats n read_uvarint.
Proof. apply eats_uvarint. Qed.
#[export] Hint Resolve eats_read_uvarint : srs.
#[export] Hint Extern 1 (good _ read_u8) => apply eats_good, eats_read_u8 : srs.
#[export] Hint Extern 1 (good _ read_uvarint) => apply eats_good, eats_read_uvarint : srs.

Ltac good_step :=
  match goal with
  | |- good _ (bind _ _) => apply good_bind; [auto with srs | intros ?]
  | |- eats _ (bind _ _) => apply eats_bind; [auto with srs | intros ?]
  | |- good _ (if ?c then _ else _) => destruct c
  | |- good _ (match ?c with Some _ => _ | None => _ end) => destruct c
  | |- good _ _ => solve [auto with srs]
  end.
Ltac good_solve := repeat good_step.

Lemma good_times_fuel {A} n (p : reader A) fuel count :
  eats n p → (n < fuel)%nat → good n (times_fuel fuel p count).
Proof.
  intros Hp. revert n Hp count. induction fuel as [|fuel IH]; intros n Hp count Hf; [lia|].
  cbn [times_fuel]. destruct (_ <=? 0); [apply good_ret|]. intros cur Hc.
  unfold bind at 1. pose proof (Hp cur Hc) as Hpc. destruct (p cur) as [[a rest]|]; [|done].
  assert (Hn' : eats (n - 1) p) by (intros c Hlc; apply Hp; lia).
  destruct (decide (n = 0%nat)) as [->|Hne]; [lia|].
  assert (Hg : good (n - 1) (read! l := times_fuel fuel p (count - 1) in ret (a :: l))).
  { apply good_bind; [apply IH; [done | lia] | intros ?; apply good_ret]. }
  specialize (Hg rest ltac:(lia)).
  destruct (bind _ _ rest) as [[]|]; [lia | done].
Qed.

Lemma good_times {A} n (p : reader A) count : eats n p → good n (times p count).
Proof.
  intros Hp cur Hc. unfold times.
  apply (good_times_fuel (length cur) p (S (length cur)) count); [|lia|lia].
  intros c Hlc. apply Hp. lia.
Qed.
#[export] Hint Resolve good_times : srs.

Lemma eats_read_string n : eats n read_string.
Proof. unfold read_string. good_solve. Qed.
Lemma good_read_string_list n : good n read_string_list.
Proof. unfold read_string_list. good_solve. apply good_times, eats_read_string. Qed.
Lemma eats_skip_payload n : eats n skip_payload.
Proof. unfold skip_payload. good_solve. Qed.
#[export] Hint Resolve eats_read_string good_read_string_list eats_skip_payload : srs.
Lemma good_read_domain_matcher n : good n read_domain_matcher.
Proof. unfold read_domain_matcher. good_solve. Qed.
#[export] Hint Resolve good_read_domain_matcher : srs.

Section Terminates.
Context {IpNet : Type} `{!IpNetOps IpNet}.

Lemma eats_read_ip_range n : eats n (read_ip_range (IpNet := IpNet)).
Proof. unfold read_ip_range. good_solve. Qed.
Lemma good_read_ip_set n : good n (read_ip_set (IpNet := IpNet)).
Proof. unfold read_ip_set. good_solve. apply good_times, eats_read_ip_range. Qed.
Lemma good_skip_unknown n t : good n (skip_unknown_item t).
Proof. unfold skip_unknown_item. good_solve. Qed.

Lemma good_default_rule_loop fuel n ds cs :
  (n < fuel)%nat → good n (default_rule_loop (IpNet := IpNet) fuel ds cs).
Proof.
  revert n ds cs. induction fuel as [|fuel IH]; intros n ds cs Hf; [lia|]. cbn [default_rule_loop].
  destruct (decide (n = 0%nat)) as [->|Hn].
  { intros [|b cur] Hc; [done | simpl in Hc; lia]. }
  apply eats_good, eats_bind; [auto with srs|]. intros b.
  repeat match goal with |- good _ (if ?c then _ else _) => destruct c end.
  - good_solve.
  - apply good_bind; [auto with srs | intros m; apply IH; lia].
  - apply good_bind; [auto with srs | intros m; apply IH; lia].
  - apply good_bind; [apply good_read_ip_set | intros m; apply IH; lia].
  - apply good_bind; [apply good_skip_unknown | intros m; apply IH; lia].
Qed.

Lemma good_read_default_rule n : good n (read_default_rule (IpNet := IpNet)).
Proof.
  intros cur Hc. unfold read_default_rule. apply (good_default_rule_loop (S (length cur)) (length cur)); lia.
Qed.

Lemma eats_read_rule fuel n : (n < fuel)%nat → eats n (read_rule (IpNet := IpNet) fuel).
Proof.
  revert n. induction fuel as [|fuel IH]; intros n Hf; [lia|]. cbn [read_rule].
  destruct (decide (n = 0%nat)) as [->|Hn].
  { intros [|b cur] Hc; [done | simpl in Hc; lia]. }
  apply eats_bind; [auto with srs|]. intros t. destruct (_ =? 0); [apply good_read_default_rule|].
  destruct (_ =? 1); [|by apply good_fail]. do 2 good_step.
  apply good_bind; [apply good_times, IH; lia | intros l; good_solve].
Qed.

Lemma good_read_body n : good n (read_body (IpNet := IpNet)).
Proof.
  intros cur Hc. unfold read_body.
  apply (good_bind (length cur)); [auto with srs | | lia]. intros count.
  apply good_bind; [apply good_times, eats_read_rule; lia | auto with srs].
Qed.

(** Whatever bytes a rule-set file holds and whatever they decompress to,
    the reader finishes: counts larger than the data end with an error, and the
    nesting of logical rules is bounded by the data. *)
Theorem srs_parse_terminates inflate data :
  parse_srs (IpNet := IpNet) inflate data ≠ Err SrsOutOfFuel.
Proof.
  unfold parse_srs. destruct (_ <? 4)%nat; [done|]. destruct (negb _); [done|].
  destruct (3 <? _); [done|]. destruct (inflate _) as [body|]; [|done].
  pose proof (good_read_body (length body) body (le_n _)) as Hb.
  destruct (read_body body) as [[]|]; [done|]. by intros [= ->].
Qed.
End Terminates.

(** ** The documented format *)

Fixpoint enc_uvarint_turns (turns : nat) (z : Z) : bytes :=
  match turns with
  | O => []
  | S turns =>
      if z <? 128 then [byte_of_Z z]
      else byte_of_Z (128 + z mod 128) :: enc_uvarint_turns turns (z / 128)
  end.
Definition enc_uvarint (z : Z) : bytes := enc_uvarint_turns 10 z.

Definition enc_string (s : string) : bytes := enc_uvarint (str_len s) ++ as_bytes s.
Definition enc_payload (l : bytes) : bytes := enc_uvarint (len l) ++ l.
Definition enc_list {A} (enc : A → bytes) (l : list A) : bytes :=
  enc_uvarint (Z.of_nat (length l)) ++ concat (enc <$> l).

Inductive srs_range := RangeV4 (from to : bytes) | RangeV6 (from to : bytes).
Definition enc_range (r : srs_range) : bytes :=
  match r with
  | RangeV4 from to => [Byte.x00] ++ from ++ to
  | RangeV6 from to => [Byte.x01] ++ from ++ to
  end.
Definition range_ok (r : srs_range) : Prop :=
  match r with
  | RangeV4 from to => length from = 4%nat ∧ length to = 4%nat
  | RangeV6 from to => length from = 16%nat ∧ length to = 16%nat
  end.

Inductive srs_item :=
| ItemDomains (full suffix : list string)
| ItemKeywords (l : list string)
| ItemRegexes (l : list string)
| ItemIpCidr (source : bool) (l : list srs_range)
| ItemFlag (t : byte)
| ItemOther (t : byte) (l : list bytes).

Definition enc_item (i : srs_item) : bytes :=
  match i with
  | ItemDomains full suffix => [Byte.x02] ++ enc_list enc_string full ++ enc_list enc_string suffix
  | ItemKeywords l => [Byte.x03] ++ enc_list enc_string l
  | ItemRegexes l => [Byte.x04] ++ enc_list enc_string l
  | ItemIpCidr source l => [if source then Byte.x05 else Byte.x06] ++ enc_list enc_range l
  | ItemFlag t => [t]
  | ItemOther t l => [t] ++ enc_list enc_payload l
  end.

Definition string_ok (s : string) : Prop := str_ok s ∧ str_len s <= isize_max.
Definition strings_ok (l : list string) : Prop :=
  Forall string_ok l ∧ 24 * Z.of_nat (length l) <= isize_max.
Definition item_ok (i : srs_item) : Prop :=
  match i with
  | ItemDomains full suffix => strings_ok full ∧ strings_ok suffix
  | ItemKeywords l | ItemRegexes l => strings_ok l
  | ItemIpCidr _ l => Forall range_ok l ∧ Z.of_nat (length l) < 2 ^ 64
  | ItemFlag t => byte_to_Z t = 18 ∨ byte_to_Z t = 19
  | ItemOther t l =>
      (byte_to_Z t ∉ [2; 3; 4; 5; 6; 18; 19; 255]) ∧ Forall (fun p => len p <= isize_max) l
      ∧ Z.of_nat (length l) < 2 ^ 64
  end.

Inductive srs_rule :=
| RuleDefault (items : list srs_item) (invert : byte)
| RuleLogical (mode : byte) (rules : list srs_rule) (invert : byte).

Fixpoint enc_rule (r : srs_rule) : bytes :=
  match r with
  | RuleDefault items invert => [Byte.x00] ++ concat (enc_item <$> items) ++ [Byte.xff; invert]
  | RuleLogical mode rules invert =>
      [Byte.x01; mode] ++ enc_uvarint (Z.of_nat (length rules)) ++ concat (map enc_rule rules)
      ++ [invert]
  end.

Fixpoint rule_ok (r : srs_rule) : Prop :=
  match r with
  | RuleDefault items _ => Forall item_ok items
  | RuleLogical _ rules _ =>
      Z.of_nat (length rules) < 2 ^ 64 ∧
      (fix all (l : list srs_rule) : Prop := match l with [] => True | r :: l => rule_ok r ∧ all l end) rules
  end.

Section Contents.
Context {IpNet : Type} `{!IpNetOps IpNet}.

Definition range_cidr (r : srs_range) : option IpNet :=
  match r with
  | RangeV4 from to => range_to_cidr_v4 from to
  | RangeV6 from to => range_to_cidr_v6 from to
  end.

Definition item_contents (i : srs_item) : rules_read (IpNet := IpNet) :=
  match i with
  | ItemDomains full suffix => ((DrFull <$> full) ++ (DrSuffix <$> suffix), [])
  | ItemKeywords l | ItemRegexes l => (DrKeyword <$> l, [])
  | ItemIpCidr _ l => ([], omap range_cidr l)
  | ItemFlag _ | ItemOther _ _ => ([], [])
  end.

Fixpoint rule_contents (r : srs_rule) : rules_read (IpNet := IpNet) :=
  match r with
  | RuleDefault items _ => concat_rules (item_contents <$> items)
  | RuleLogical _ rules _ => concat_rules (map rule_contents rules)
  end.
End Contents.

(** ** Reading back what was written *)

(** The low seven bits and the continuation bit of a byte of a varint. *)
Lemma varint_byte z : 0 <= z < 256 → Z.land z 127 = z mod 128 ∧ (Z.land z 128 =? 0) = (z <? 128).
Proof.
  intros Hz. split; [change 127 with (Z.ones 7); by rewrite Z.land_ones by lia|].
  destruct (Z.ltb_spec z 128).
  - change 128 with (Z.shiftl 1 7). by rewrite land_low_high by lia.
  - apply Z.eqb_neq. intros H0. apply (f_equal (fun v => Z.testbit v 7)) in H0.
    rewrite Z.land_spec, Z.bits_0 in H0. change (Z.testbit 128 7) with true in H0.
    rewrite andb_true_r, Z.testbit_false in H0 by lia. change (2 ^ 7) with 128 in H0.
    assert (z / 128 = 1) as Hd by (symmetry; apply (Z.div_unique z 128 1 (z - 128)); lia).
    by rewrite Hd in H0.
Qed.

Lemma uvarint_loop_enc turns z acc rest :
  (1 ≤ turns ≤ 10)%nat → let s := 7 * (10 - Z.of_nat turns) in
  0 <= acc < 2 ^ s → 0 <= z → z * 2 ^ s < 2 ^ 64 →
  uvarint_loop turns s acc (enc_uvarint_turns turns z ++ rest) = Ok (acc + z * 2 ^ s, rest).
Proof.
  revert z acc. induction turns as [|turns IH]; intros z acc Ht s Ha Hz Hm; [lia|].
  assert (Hs : 0 <= s <= 63) by lia.
  cbn [uvarint_loop enc_uvarint_turns]. destruct (Z.ltb_spec z 128) as [Hlt|Hge].
  - destruct (varint_byte z ltac:(lia)) as [H7f H80].
    unfold bind. cbn [app read_u8]. rewrite byte_to_of_Z, (Z.mod_small z 256) by lia.
    rewrite H7f, H80, (proj2 (Z.ltb_lt z 128)), Z.shiftl_mul_pow2, (Z.mod_small z) by lia.
    unfold wrap. rewrite Z.mod_small by nia. unfold ret. by rewrite lor_add by lia.
  - assert (Ht' : (1 ≤ turns)%nat).
    { destruct turns; [|lia]. assert (2 ^ 63 <= 2 ^ s) by (apply Z.pow_le_mono_r; lia). nia. }
    pose proof (Z.mod_pos_bound z 128 ltac:(lia)) as Hmod.
    pose proof (Z.div_mod z 128 ltac:(lia)) as Hdm.
    destruct (varint_byte (128 + z mod 128) ltac:(lia)) as [H7f H80].
    replace ((128 + z mod 128) mod 128) with (z mod 128) in H7f
      by (rewrite <- (Z.mul_1_l 128) at 2; rewrite Z.add_comm, Z.mod_add, Z.mod_mod by lia; done).
    unfold bind. cbn [app read_u8]. rewrite byte_to_of_Z, (Z.mod_small (128 + _)) by lia.
    assert (H2s : 2 ^ (s + 7) = 2 ^ s * 128) by (rewrite Z.pow_add_r by lia; done).
    rewrite H7f, H80, (proj2 (Z.ltb_ge _ 128)), Z.shiftl_mul_pow2 by lia.
    unfold wrap. rewrite Z.mod_small by nia. rewrite lor_add by lia.
    specialize (IH (z / 128) (acc + z mod 128 * 2 ^ s)).
    replace (7 * (10 - Z.of_nat turns)) with (s + 7) in IH by lia. cbv zeta in IH.
    rewrite H2s in IH. rewrite IH by nia. do 2 f_equal. nia.
Qed.

Lemma read_uvarint_enc z rest : u64_ok z → read_uvarint (enc_uvarint z ++ rest) = Ok (z, rest).
Proof.
  intros Hz. unfold read_uvarint, enc_uvarint.
  pose proof (uvarint_loop_enc 10 z 0 rest ltac:(lia)) as H. cbv zeta in H.
  change (7 * (10 - Z.of_nat 10)) with 0 in H. unfold in_width in Hz.
  rewrite H by (change (2 ^ 0) with 1; lia). do 2 f_equal. lia.
Qed.

Lemma srs_read_exact_app l rest n : n = len l → read_exact n (l ++ rest) = Ok (l, rest).
Proof.
  intros ->. unfold read_exact, len. rewrite length_app.
  rewrite (proj2 (Z.leb_le _ _)) by lia. by rewrite Nat2Z.id, take_app_length, drop_app_length.
Qed.

Lemma alloc_bytes_ok n cur : n <= isize_max → alloc_bytes n cur = Ok (tt, cur).
Proof. intros Hn. unfold alloc_bytes. by rewrite (proj2 (Z.ltb_ge _ _)) by lia. Qed.

Lemma times_enc {A B} (p : reader B) (enc : A → bytes) (f : A → B) n l rest :
  (∀ a rest, a ∈ l → (length (enc a ++ rest) ≤ n)%nat → p (enc a ++ rest) = Ok (f a, rest)) →
  (∀ a, a ∈ l → enc a ≠ []) → (length (concat (enc <$> l) ++ rest) ≤ n)%nat →
  times p (Z.of_nat (length l)) (concat (enc <$> l) ++ rest) = Ok (f <$> l, rest).
Proof.
  intros Hp Hne Hn. unfold times.
  assert (Hfuel : (length l < S (length (concat (enc <$> l) ++ rest)))%nat).
  { clear Hp Hn. rewrite length_app. induction l as [|a l IH]; [simpl; lia|].
    rewrite fmap_cons. cbn [concat length]. rewrite length_app.
    assert (enc a ≠ []) as Ha by (apply Hne; constructor).
    assert (0 < length (enc a))%nat by (destruct (enc a); [done | simpl; lia]).
    assert (length l < S (length (concat (enc <$> l)) + length rest))%nat; [|lia].
    apply IH. intros b Hb. apply Hne. by constructor. }
  revert Hfuel. generalize (S (length (concat (enc <$> l) ++ rest))). intros fuel.
  revert fuel. induction l as [|a l IH]; intros fuel Hf.
  { by destruct fuel. }
  destruct fuel as [|fuel]; [lia|]. cbn [times_fuel]. rewrite (proj2 (Z.leb_gt _ 0)) by (simpl; lia).
  rewrite fmap_cons in *. cbn [concat] in *. rewrite <- app_assoc in *.
  unfold bind. rewrite Hp by (constructor || done).
  replace (Z.of_nat (length (a :: l)) - 1) with (Z.of_nat (length l)) by (simpl; lia).
  rewrite IH; [done | | | | simpl in Hf; lia].
  - intros b r Hb. apply Hp. by constructor.
  - intros b Hb. apply Hne. by constructor.
  - rewrite length_app in Hn. lia.
Qed.

Lemma read_list_enc {A B} (p : reader B) (enc : A → bytes) (f : A → B) l rest :
  (∀ a rest, a ∈ l → p (enc a ++ rest) = Ok (f a, rest)) → (∀ a, a ∈ l → enc a ≠ []) →
  Z.of_nat (length l) < 2 ^ 64 →
  (read! count := read_uvarint in times p count) (enc_list enc l ++ rest) = Ok (f <$> l, rest).
Proof.
  intros Hp Hne Hl. unfold bind, enc_list. rewrite <- app_assoc, read_uvarint_enc.
  - eapply times_enc; eauto.
  - unfold in_width. lia.
Qed.

Lemma enc_uvarint_ne z : enc_uvarint z ≠ [].
Proof. unfold enc_uvarint. cbn [enc_uvarint_turns]. by destruct (z <? 128). Qed.
Lemma enc_string_ne s : enc_string s ≠ [].
Proof. unfold enc_string. intros [H _]%app_eq_nil. by apply enc_uvarint_ne in H. Qed.
Lemma enc_payload_ne s : enc_payload s ≠ [].
Proof. unfold enc_payload. intros [H _]%app_eq_nil. by apply enc_uvarint_ne in H. Qed.
Lemma enc_range_ne r : enc_range r ≠ [].
Proof. by destruct r. Qed.

Lemma read_string_enc s rest : string_ok s → read_string (enc_string s ++ rest) = Ok (s, rest).
Proof.
  intros [Hs Hl]. unfold read_string, bind, enc_string. rewrite <- app_assoc, read_uvarint_enc.
  - rewrite alloc_bytes_ok by done. rewrite srs_read_exact_app by (by rewrite len_as_bytes).
    by rewrite from_utf8_as_bytes.
  - unfold in_width, str_len, isize_max in *. lia.
Qed.

Lemma read_string_list_enc l rest :
  strings_ok l → read_string_list (enc_list enc_string l ++ rest) = Ok (l, rest).
Proof.
  intros [Hs Hl]. rewrite Forall_forall in Hs.
  assert (Hr : (read! count := read_uvarint in times read_string count) (enc_list enc_string l ++ rest)
               = Ok (id <$> l, rest)).
  { apply read_list_enc; [|by intros; apply enc_string_ne | unfold isize_max in Hl; lia].
    intros s r Hin. apply read_string_enc. by apply Hs. }
  rewrite list_fmap_id in Hr. unfold read_string_list, bind in *. unfold enc_list in *.
  rewrite <- app_assoc, read_uvarint_enc in * by (unfold in_width, isize_max in *; lia).
  by rewrite alloc_bytes_ok.
Qed.

Lemma skip_payload_enc p rest :
  len p <= isize_max → skip_payload (enc_payload p ++ rest) = Ok (tt, rest).
Proof.
  intros Hl. unfold skip_payload, bind, enc_payload. rewrite <- app_assoc, read_uvarint_enc.
  - by rewrite alloc_bytes_ok, srs_read_exact_app.
  - unfold in_width, len, isize_max in *. lia.
Qed.

Section RoundTrip.
Context {IpNet : Type} `{!IpNetOps IpNet}.

Lemma read_ip_range_enc r rest :
  range_ok r → read_ip_range (IpNet := IpNet) (enc_range r ++ rest) = Ok (range_cidr r, rest).
Proof.
  destruct r as [from to|from to]; intros [Hf Ht]; unfold read_ip_range, bind, enc_range;
    rewrite <- !app_assoc; cbn [app read_u8].
  - change (negb (byte_to_Z Byte.x00 =? 0)) with false. cbv beta iota.
    rewrite srs_read_exact_app by (unfold len; lia). by rewrite srs_read_exact_app by (unfold len; lia).
  - change (negb (byte_to_Z Byte.x01 =? 0)) with true. cbv beta iota.
    rewrite srs_read_exact_app by (unfold len; lia). by rewrite srs_read_exact_app by (unfold len; lia).
Qed.

Lemma read_ip_set_enc l rest :
  Forall range_ok l → Z.of_nat (length l) < 2 ^ 64 →
  read_ip_set (IpNet := IpNet) (enc_list enc_range l ++ rest) = Ok (omap range_cidr l, rest).
Proof.
  intros Hr Hl. rewrite Forall_forall in Hr.
  assert (Hs : (read! count := read_uvarint in times (read_ip_range (IpNet := IpNet)) count)
                 (enc_list enc_range l ++ rest) = Ok (range_cidr <$> l, rest)).
  { apply read_list_enc; [|by intros; apply enc_range_ne | done].
    intros r rs Hin. apply read_ip_range_enc. by apply Hr. }
  unfold read_ip_set, bind in *. destruct (read_uvarint _) as [[count cur]|]; [|done].
  rewrite Hs. unfold ret. do 2 f_equal. clear. induction l as [|r l IH]; [done|].
  rewrite fmap_cons. cbn. destruct (range_cidr r); cbn; by rewrite IH.
Qed.

Lemma skip_unknown_enc t l rest :
  t ≠ 18 → t ≠ 19 → Forall (fun p => len p <= isize_max) l → Z.of_nat (length l) < 2 ^ 64 →
  skip_unknown_item t (enc_list enc_payload l ++ rest) = Ok (tt, rest).
Proof.
  intros H1 H2 Hp Hl. rewrite Forall_forall in Hp. unfold skip_unknown_item.
  rewrite (proj2 (Z.eqb_neq _ _) H1), (proj2 (Z.eqb_neq _ _) H2). cbn [orb].
  assert (Hs : (read! count := read_uvarint in times skip_payload count) (enc_list enc_payload l ++ rest)
               = Ok ((fun _ => tt) <$> l, rest)).
  { apply read_list_enc; [|by intros; apply enc_payload_ne | done].
    intros p r Hin. apply skip_payload_enc. by apply Hp. }
  unfold bind in *. destruct (read_uvarint _) as [[count cur]|]; [|done]. by rewrite Hs.
Qed.

(** One item of a default rule. *)
Lemma default_rule_item fuel ds cs i rest :
  item_ok i →
  default_rule_loop (S fuel) ds cs (enc_item i ++ rest)
  = default_rule_loop (IpNet := IpNet) fuel (ds ++ (item_contents i).1) (cs ++ (item_contents i).2) rest.
Proof.
  intros Hok. destruct i as [full suffix|l|l|source l|t|t l]; cbn [default_rule_loop enc_item item_contents fst snd] in *;
    rewrite <- ?app_assoc; unfold bind; cbn [app read_u8].
  - destruct Hok as [H1 H2]. change (byte_to_Z Byte.x02) with 2. cbn [Z.eqb Pos.eqb].
    unfold read_domain_matcher, bind. rewrite read_string_list_enc, read_string_list_enc by done.
    unfold ret. cbn [fst snd]. by rewrite app_nil_r.
  - change (byte_to_Z Byte.x03) with 3. cbn [Z.eqb Pos.eqb orb].
    by rewrite read_string_list_enc, app_nil_r by done.
  - change (byte_to_Z Byte.x04) with 4. cbn [Z.eqb Pos.eqb orb].
    by rewrite read_string_list_enc, app_nil_r by done.
  - destruct Hok as [H1 H2]. destruct source;
      [change (byte_to_Z Byte.x05) with 5 | change (byte_to_Z Byte.x06) with 6];
      cbn [Z.eqb Pos.eqb orb]; by rewrite read_ip_set_enc, app_nil_r by done.
  - unfold skip_unknown_item. destruct Hok as [-> | ->]; cbn [Z.eqb Pos.eqb orb]; by rewrite !app_nil_r.
  - destruct Hok as (H1 & H2 & H3). rewrite !not_elem_of_cons in H1.
    destruct H1 as (N2 & N3 & N4 & N5 & N6 & N18 & N19 & N255 & _).
    rewrite (proj2 (Z.eqb_neq _ _) N255), (proj2 (Z.eqb_neq _ _) N2), (proj2 (Z.eqb_neq _ _) N3),
      (proj2 (Z.eqb_neq _ _) N4), (proj2 (Z.eqb_neq _ _) N5), (proj2 (Z.eqb_neq _ _) N6). cbn [orb].
    by rewrite skip_unknown_enc, !app_nil_r by done.
Qed.

Lemma default_rule_items fuel ds cs items invert rest :
  Forall item_ok items → (length items < fuel)%nat →
  default_rule_loop fuel ds cs (concat (enc_item <$> items) ++ [Byte.xff; invert] ++ rest)
  = Ok ((ds ++ (concat_rules (IpNet := IpNet) (item_contents <$> items)).1,
         cs ++ (concat_rules (IpNet := IpNet) (item_contents <$> items)).2), rest).
Proof.
  intros Hok. revert fuel ds cs. induction Hok as [|i items Hi _ IH]; intros fuel ds cs Hf;
    (destruct fuel as [|fuel]; [simpl in Hf; lia|]).
  - cbn. by rewrite !app_nil_r.
  - rewrite fmap_cons. cbn [concat]. rewrite <- app_assoc, default_rule_item by done.
    rewrite IH by (simpl in Hf; lia). rewrite fmap_cons. unfold concat_rules. cbn.
    by rewrite <- !app_assoc.
Qed.
End RoundTrip.

Lemma srs_rule_nested_ind (P : srs_rule → Prop) :
  (∀ items invert, P (RuleDefault items invert)) →
  (∀ mode rules invert, Forall P rules → P (RuleLogical mode rules invert)) → ∀ r, P r.
Proof.
  intros Hd Hl. fix IH 1. intros [items invert|mode rules invert]; [apply Hd|]. apply Hl.
  induction rules as [|r rules IHr]; constructor; [apply IH | exact IHr].
Qed.

Lemma rule_ok_logical mode rules invert :
  rule_ok (RuleLogical mode rules invert) ↔ Z.of_nat (length rules) < 2 ^ 64 ∧ Forall rule_ok rules.
Proof.
  cbn [rule_ok]. apply and_iff_compat_l. clear. induction rules as [|r rules IH]; [by split|].
  rewrite Forall_cons, IH. done.
Qed.

Lemma enc_rule_ne r : enc_rule r ≠ [].
Proof. by destruct r. Qed.

Lemma items_length items : (length items ≤ length (concat (enc_item <$> items)))%nat.
Proof.
  induction items as [|i items IH]; [done|]. rewrite fmap_cons. cbn [concat length].
  rewrite length_app. assert (0 < length (enc_item i))%nat by (destruct i; simpl; lia). lia.
Qed.

Section Rules.
Context {IpNet : Type} `{!IpNetOps IpNet}.

Lemma read_rule_enc r fuel rest :
  rule_ok r → (length (enc_rule r ++ rest) < fuel)%nat →
  read_rule (IpNet := IpNet) fuel (enc_rule r ++ rest) = Ok (rule_contents r, rest).
Proof.
  revert fuel rest. induction r as [items invert|mode rules invert IH] using srs_rule_nested_ind;
    intros fuel rest Hok Hf; (destruct fuel as [|fuel]; [lia|]); cbn [read_rule enc_rule];
    unfold bind; cbn [app read_u8].
  - change (byte_to_Z Byte.x00 =? 0) with true. cbv beta iota. unfold read_default_rule.
    rewrite <- app_assoc, default_rule_items; [done | done |].
    rewrite length_app. pose proof (items_length items). lia.
  - apply rule_ok_logical in Hok as [Hl Hok]. change (byte_to_Z Byte.x01 =? 0) with false.
    change (byte_to_Z Byte.x01 =? 1) with true. cbv beta iota. cbn [read_u8].
    rewrite <- !app_assoc, read_uvarint_enc by (unfold in_width; lia).
    cbn [enc_rule] in Hf. rewrite <- !app_assoc, !length_app in Hf. cbn [length] in Hf.
    rewrite Forall_forall in IH, Hok.
    rewrite (times_enc _ enc_rule rule_contents (fuel - 1) rules ([invert] ++ rest)); [done | | |].
    + intros r rs Hin Hlen. apply IH; [done | by apply Hok | lia].
    + intros r _. apply enc_rule_ne.
    + rewrite !length_app in *. change (enc_rule <$> rules) with (map enc_rule rules).
      cbn [length] in *. lia.
Qed.

(** A rule-set file that holds a list of rules in the documented format
    (string lists, domain matchers, address ranges, skipped items, nested
    logical rules), followed by any bytes, reads back as exactly the domain
    rules and networks of those rules, in order. *)
Theorem srs_roundtrip inflate version compressed rules trailing :
  byte_to_Z version <= 3 → Forall rule_ok rules → Z.of_nat (length rules) < 2 ^ 64 →
  inflate compressed = Some (enc_uvarint (Z.of_nat (length rules)) ++ concat (enc_rule <$> rules) ++ trailing) →
  parse_srs (IpNet := IpNet) inflate (SRS_MAGIC ++ [version] ++ compressed)
  = Ok (mkRuleSetData (concat_rules (rule_contents <$> rules)).1 (concat_rules (rule_contents <$> rules)).2).
Proof.
  intros Hv Hok Hl Hi. unfold parse_srs. cbn [app SRS_MAGIC length].
  change ((S (S (S (S (length compressed)))) <? 4)%nat) with false. cbv iota.
  change (slice (_ :: _) 0 3) with SRS_MAGIC. rewrite bool_decide_true by done. cbn [negb].
  change (byte_at (_ :: _) 3) with version. rewrite (proj2 (Z.ltb_ge _ _)) by lia.
  change (drop 4 (_ :: _)) with compressed. rewrite Hi. unfold read_body, bind.
  rewrite read_uvarint_enc by (unfold in_width; lia). rewrite Forall_forall in Hok.
  set (cur := enc_uvarint _ ++ _).
  rewrite (times_enc _ enc_rule rule_contents (length cur) rules trailing); [done | | |].
  - intros r rs Hin Hlen. apply read_rule_enc; [by apply Hok | lia].
  - intros r _. apply enc_rule_ne.
  - unfold cur. rewrite !length_app. lia.
Qed.
End Rules.

(** ** Ranges *)

(** Two numbers share their first [w - k] bits exactly when their quotients by
    [2^k] agree; [k] bits cover the difference. *)
Lemma lxor_shiftr_eq x y k : 0 <= k → Z.shiftr x k = Z.shiftr y k ↔ Z.shiftr (Z.lxor x y) k = 0.
Proof. intros Hk. rewrite Z.shiftr_lxor. symmetry. apply Z.lxor_eq_0_iff. Qed.

(** The prefix computed for an address range is the longest one whose
    network, taken at the first address, contains the whole range. *)
Theorem srs_range_prefix_tight w from to p :
  0 <= from → range_prefix w from to = Some p →
  (∀ x, from <= x <= to → Z.shiftr x (w - p) = Z.shiftr from (w - p)) ∧
  (∀ q, p < q <= w → Z.shiftr to (w - q) ≠ Z.shiftr from (w - q)).
Proof.
  intros H0. unfold range_prefix. destruct (Z.ltb_spec to from) as [|Hle]; [done|].
  set (k := if Z.lxor from to =? 0 then 0 else Z.log2 (Z.lxor from to) + 1). intros [= <-].
  replace (w - (w - k)) with k by lia.
  assert (Hx : 0 <= Z.lxor from to) by (apply Z.lxor_nonneg; lia).
  assert (Hk : 0 <= k) by (unfold k; destruct (_ =? 0); [lia | pose proof (Z.log2_nonneg (Z.lxor from to)); lia]).
  assert (Hends : Z.shiftr from k = Z.shiftr to k).
  { apply lxor_shiftr_eq; [done|]. unfold k. destruct (Z.eqb_spec (Z.lxor from to) 0) as [->|Hne];
      [apply Z.shiftr_0_l | apply Z.shiftr_eq_0; lia]. }
  split.
  - intros x Hr. rewrite !Z.shiftr_div_pow2 in * by done.
    assert (0 < 2 ^ k) by (apply Z.pow_pos_nonneg; lia).
    pose proof (Z.div_le_mono from x (2 ^ k)). pose proof (Z.div_le_mono x to (2 ^ k)). lia.
  - intros q Hq Heq. symmetry in Heq. apply lxor_shiftr_eq in Heq; [|lia].
    assert (Hpos : 0 < k) by lia. unfold k in *.
    destruct (Z.eqb_spec (Z.lxor from to) 0) as [|Hne]; [lia|].
    assert (Hl : 0 < Z.lxor from to) by lia.
    rewrite Z.shiftr_div_pow2 in Heq by lia. apply Z.div_small_iff in Heq; [|apply Z.pow_nonzero; lia].
    destruct Heq as [Heq|Heq]; [|lia]. destruct Heq as [_ Heq].
    apply Z.log2_lt_pow2 in Heq; lia.
Qed.

(** ** Witnesses *)

Definition example_rules : list srs_rule := [
  RuleDefault [ItemDomains ["example.com"] ["example.org"]; ItemFlag Byte.x12;
               ItemOther Byte.x09 [[Byte.x61]]] Byte.x00;
  RuleLogical Byte.x01
    [RuleDefault [ItemKeywords ["ads"];
                  ItemIpCidr false [RangeV4 [Byte.x0a; Byte.x00; Byte.x00; Byte.x00]
                                            [Byte.x0a; Byte.xff; Byte.xff; Byte.xff]]] Byte.x00] Byte.x01
].
Definition example_body : bytes :=
  enc_uvarint (Z.of_nat (length example_rules)) ++ concat (enc_rule <$> example_rules) ++ [Byte.x00].

Lemma srs_roundtrip_witness :
  parse_srs (IpNet := SampleNet) (fun c => Some c) (SRS_MAGIC ++ [Byte.x02] ++ example_body)
  = Ok (mkRuleSetData [DrFull "example.com"; DrSuffix "example.org"; DrKeyword "ads"] [net_10_8]).
Proof.
  etransitivity;
    [apply (srs_roundtrip (fun c => Some c) Byte.x02 example_body example_rules [Byte.x00])
    | vm_compute; reflexivity].
  - vm_compute. discriminate.
  - assert (Hs : ∀ s, utf8_valid (as_bytes s) = true → (str_len s <=? isize_max) = true → strings_ok [s]).
    { intros s H1 H2. split; [|unfold isize_max; simpl; lia].
      apply List.Forall_cons; [split; [exact H1 | by apply Z.leb_le] | apply List.Forall_nil]. }
    apply List.Forall_cons; [|apply List.Forall_cons; [|apply List.Forall_nil]].
    + cbn [rule_ok]. apply List.Forall_cons; [|apply List.Forall_cons; [|apply List.Forall_cons; [|apply List.Forall_nil]]].
      * split; apply Hs; vm_compute; reflexivity.
      * left. reflexivity.
      * split; [|split; [|simpl; lia]].
        -- rewrite !not_elem_of_cons. repeat split; try (vm_compute; discriminate). apply not_elem_of_nil.
        -- apply List.Forall_cons; [unfold isize_max, len; simpl; lia | apply List.Forall_nil].
    + cbn [rule_ok]. split; [simpl; lia|]. split; [|exact I].
      apply List.Forall_cons; [|apply List.Forall_cons; [|apply List.Forall_nil]].
      * apply Hs; vm_compute; reflexivity.
      * split; [|simpl; lia]. apply List.Forall_cons; [split; reflexivity | apply List.Forall_nil].
  - vm_compute. reflexivity.
  - reflexivity.
Defined.

Lemma srs_range_prefix_tight_witness :
  ∀ x, 167772160 <= x <= 184549375 → Z.shiftr x 24 = Z.shiftr 167772160 24.
Proof. apply (srs_range_prefix_tight 32 167772160 184549375 8); [lia | vm_compute; reflexivity]. Defined.
