(* ===== verification/Provider.v ===== *)
(** * Rule providers ([src/src/router/provider.rs])

    The three text formats, the binary format with the cache beside a text file,
    and the provider that keeps its rules loaded from a file or a server.  The
    file system is a map from paths to contents and modification times, in
    nanoseconds; the answers of the server are a parameter. *)

From Stdlib Require Import Ascii.
From S2P Require Import Prelude RustStr Addr Trie IpText Rules Srs.

Local Open Scope string_scope.
Local Open Scope list_scope.
Local Open Scope Z_scope.
Set Warnings "-register-all".

(** [Ipv4Net::new] and [Ipv6Net::new]: a network from an address and a length
    that fits. *)
Class IpNetMake (IpNet : Type) := net_new : IpAddr → Z → option IpNet.
Class IpNetMakeLaws (IpNet : Type) `{!IpNetOps IpNet, !IpNetMake IpNet} : Prop := {
  net_new_own : ∀ n, net_new (net_addr n) (Z.of_nat (net_prefix_len n)) = Some n;
  net_addr_ok : ∀ n, in_width (addr_width (net_addr n)) (addr_bits (net_addr n));
  net_prefix_small : ∀ n, Z.of_nat (net_prefix_len n) <= 128
}.

(** ** Text *)

Definition QUOTE : ascii := Ascii.ascii_of_nat 34.

(** What a line holds; [None] for one that is skipped. *)
Definition line_body (line : string) : option string :=
  let line := trim line in
  if String.eqb line "" || starts_with "#" line || String.eqb line "payload:" then None
  else
    let line := default line (strip_prefix "- " line) in
    let line := trim_matches QUOTE (trim_matches "'"%char line) in
    if String.eqb line "" then None else Some line.
Definition bodies (content : string) : list string := omap line_body (lines content).

Section provider.
Context {IpNet : Type} `{!IpNetOps IpNet, !IpNetMake IpNet, !EqDecision IpNet}.

Definition domain_rule (line : string) : DomainRule :=
  match strip_prefix "domain:" line with
  | Some d => DrFull (to_lowercase d)
  | None =>
      match strip_prefix "domain_suffix:" line with
      | Some s => DrSuffix (to_lowercase s)
      | None =>
          match strip_prefix "domain_keyword:" line with
          | Some k => DrKeyword (to_lowercase k)
          | None =>
              match strip_prefix "+." line with
              | Some s => DrSuffix (to_lowercase s)
              | None => DrSuffix (to_lowercase line)
              end
          end
      end
  end.
Definition parse_domain_rules (content : string) : result string (RuleSetData IpNet) :=
  Ok (mkRuleSetData (domain_rule <$> bodies content) []).

Definition parse_net (value : string) : result string IpNet :=
  match net_parse value with Some n => Ok n | None => Err "invalid CIDR" end.
Fixpoint parse_nets (ls : list string) : result string (list IpNet) :=
  match ls with
  | [] => Ok []
  | l :: ls => let? n := parse_net l in let? ns := parse_nets ls in Ok (n :: ns)
  end.
Definition parse_ipcidr_rules (content : string) : result string (RuleSetData IpNet) :=
  let? ns := parse_nets (bodies content) in Ok (mkRuleSetData [] ns).

(** [value.split(',').next()] *)
Definition first_field (value : string) : string := default value (head (split_on ","%char value)).
Inductive classical_line := ClDomain (r : DomainRule) | ClNet (value : string) | ClOther.
Definition classical (line : string) : classical_line :=
  match strip_prefix "DOMAIN-SUFFIX," line with
  | Some v => ClDomain (DrSuffix (to_lowercase (first_field v)))
  | None =>
      match strip_prefix "DOMAIN-KEYWORD," line with
      | Some v => ClDomain (DrKeyword (to_lowercase (first_field v)))
      | None =>
          match strip_prefix "DOMAIN," line with
          | Some v => ClDomain (DrFull (to_lowercase (first_field v)))
          | None =>
              match strip_prefix "IP-CIDR," line with
              | Some v => ClNet (first_field v)
              | None =>
                  match strip_prefix "IP-CIDR6," line with
                  | Some v => ClNet (first_field v)
                  | None => ClOther
                  end
              end
          end
      end
  end.
Fixpoint parse_classical_lines (ls : list string) : result string (RuleSetData IpNet) :=
  match ls with
  | [] => Ok (mkRuleSetData [] [])
  | l :: ls =>
      match classical l with
      | ClDomain r => let? d := parse_classical_lines ls in Ok (mkRuleSetData (r :: domain_rules d) (ip_cidrs d))
      | ClNet v => let? n := parse_net v in let? d := parse_classical_lines ls in Ok (mkRuleSetData (domain_rules d) (n :: ip_cidrs d))
      | ClOther => parse_classical_lines ls
      end
  end.
Definition parse_classical_rules (content : string) : result string (RuleSetData IpNet) := parse_classical_lines (bodies content).

(** [RuleProvider::parse_content] and the [match behavior] of the compiler. *)
Definition parse_behavior (behavior content : string) : result string (RuleSetData IpNet) :=
  if String.eqb behavior "domain" then parse_domain_rules content
  else if String.eqb behavior "ipcidr" then parse_ipcidr_rules content
  else if String.eqb behavior "classical" then parse_classical_rules content
  else Err "unsupported behavior".

(** ** The binary format *)

Definition to_le_bytes (n : nat) (z : Z) : bytes := rev (to_be_bytes n z).
Definition from_le_bytes (l : bytes) : Z := from_be_bytes (rev l).
Definition BINARY_MAGIC : bytes := [Byte.x4f; Byte.x57; Byte.x52; Byte.x53].
Definition BINARY_VERSION : byte := Byte.x01.

Definition rule_tag (r : DomainRule) : byte * string :=
  match r with DrFull v => (Byte.x00, v) | DrSuffix v => (Byte.x01, v) | DrKeyword v => (Byte.x02, v) end.
Definition serialize_rule (r : DomainRule) : bytes :=
  let '(tag, v) := rule_tag r in [tag] ++ to_le_bytes 2 (wrap 16 (str_len v)) ++ as_bytes v.
Definition serialize_net (n : IpNet) : bytes :=
  match net_addr n with
  | V4 a => [Byte.x04; byte_of_Z (Z.of_nat (net_prefix_len n))] ++ to_be_bytes 4 a
  | V6 a => [Byte.x06; byte_of_Z (Z.of_nat (net_prefix_len n))] ++ to_be_bytes 16 a
  end.
Definition serialize_ruleset_binary (d : RuleSetData IpNet) : bytes :=
  BINARY_MAGIC ++ [BINARY_VERSION] ++ to_le_bytes 4 (wrap 32 (Z.of_nat (length (domain_rules d))))
  ++ to_le_bytes 4 (wrap 32 (Z.of_nat (length (ip_cidrs d))))
  ++ concat (serialize_rule <$> domain_rules d) ++ concat (serialize_net <$> ip_cidrs d).

(** The data behind the position. *)
Definition read_rule (data : bytes) : result string (DomainRule * bytes) :=
  match data with
  | tag :: l0 :: l1 :: data =>
      let n := Z.to_nat (from_le_bytes [l0; l1]) in
      if (length data <? n)%nat then Err "truncated at domain value"
      else
        match from_utf8 (take n data) with
        | None => Err "invalid UTF-8"
        | Some v =>
            let t := byte_to_Z tag in
            if t =? 0 then Ok (DrFull v, drop n data)
            else if t =? 1 then Ok (DrSuffix v, drop n data)
            else if t =? 2 then Ok (DrKeyword v, drop n data)
            else Err "unknown domain rule type"
        end
  | _ => Err "truncated at domain rule"
  end.
Definition read_net (data : bytes) : result string (IpNet * bytes) :=
  match data with
  | family :: prefix_len :: data =>
      let f := byte_to_Z family in
      let make (n : nat) (addr : Z → IpAddr) :=
        if (length data <? n)%nat then Err "truncated at address"
        else match net_new (addr (from_be_bytes (take n data))) (byte_to_Z prefix_len) with
             | Some net => Ok (net, drop n data)
             | None => Err "invalid CIDR"
             end in
      if f =? 4 then make 4%nat V4 else if f =? 6 then make 16%nat V6 else Err "unknown CIDR family"
  | _ => Err "truncated at CIDR"
  end.
(** [for _ in 0..count]: every turn eats a byte or fails, so that as many units as
    there are bytes are enough. *)
Fixpoint read_many {A} (read : bytes → result string (A * bytes)) (fuel : nat) (count : Z) (data : bytes)
  : option (result string (list A * bytes)) :=
  if count <=? 0 then Some (Ok ([], data))
  else
    match read data with
    | Err e => Some (Err e)
    | Ok (a, data) =>
        match fuel with
        | O => None
        | S fuel =>
            match read_many read fuel (count - 1) data with
            | Some (Ok (l, data)) => Some (Ok (a :: l, data))
            | r => r
            end
        end
    end.
(** [None] would be a run out of fuel. *)
Definition deserialize_ruleset_binary (data : bytes) : option (result string (RuleSetData IpNet)) :=
  if (length data <? 13)%nat || negb (bool_decide (slice data 0 4 = BINARY_MAGIC)) then Some (Err "bad magic")
  else if negb (byte_to_Z (byte_at data 4) =? byte_to_Z BINARY_VERSION) then Some (Err "unsupported version")
  else
    let domain_count := from_le_bytes (slice data 5 9) in
    let cidr_count := from_le_bytes (slice data 9 13) in
    match read_many read_rule (length data) domain_count (drop 13 data) with
    | Some (Ok (rules, rest)) =>
        match read_many read_net (length data) cidr_count rest with
        | Some (Ok (nets, _)) => Some (Ok (mkRuleSetData rules nets))
        | Some (Err e) => Some (Err e)
        | None => None
        end
    | Some (Err e) => Some (Err e)
    | None => None
    end.

(** ** Files *)

(** Contents and modification time of a file, and which files can be written and
    opened for reading.  The metadata of a file needs no permission on it. *)
Record World := mkWorld {
  files : gmap string (bytes * Z);
  now : Z;
  writable : string → bool;
  readable : string → bool
}.
Definition fs_content (path : string) (w : World) : option bytes := fst <$> files w !! path.
Definition fs_read (path : string) (w : World) : option bytes := if readable w path then fs_content path w else None.
Definition fs_modified (path : string) (w : World) : option Z := snd <$> files w !! path.
(** [None] when the file cannot be written; it is then as it was. *)
Definition fs_write (path : string) (content : bytes) (w : World) : option World :=
  if writable w path then Some (mkWorld (<[path := (content, now w)]> (files w)) (now w) (writable w) (readable w)) else None.
Definition read_to_string (path : string) (w : World) : result string string :=
  match fs_read path w with
  | None => Err "read"
  | Some b => match from_utf8 b with Some s => Ok s | None => Err "not UTF-8" end
  end.

Definition compile_ruleset_to_binary (text_path binary_path behavior : string) (w : World) : result string World :=
  let? content := read_to_string text_path w in
  let? data := parse_behavior behavior content in
  match fs_write binary_path (serialize_ruleset_binary data) w with
  | Some w => Ok w
  | None => Err "create"
  end.
Definition bin_path (text_path : string) : string := text_path +:+ ".bin".
(** The cache is not older than the text. *)
Definition cache_fresh (text_path : string) (w : World) : bool :=
  match fs_modified text_path w, fs_modified (bin_path text_path) w with
  | Some text_t, Some bin_t => text_t <=? bin_t
  | _, _ => false
  end.
(** What a valid cache holds, [Ok None] when there is none or it is corrupted; not
    being able to open or read it is an error. *)
Definition cached_ruleset (text_path : string) (w : World) : result string (option (RuleSetData IpNet)) :=
  if cache_fresh text_path w then
    match fs_read (bin_path text_path) w with
    | None => Err "open"
    | Some b => Ok (match deserialize_ruleset_binary b with Some (Ok data) => Some data | _ => None end)
    end
  else Ok None.
Definition load_ruleset_with_binary_cache (text_path behavior : string) (w : World) : result string (RuleSetData IpNet) * World :=
  match cached_ruleset text_path w with
  | Err e => (Err e, w)
  | Ok (Some data) => (Ok data, w)
  | Ok None =>
      match (let? content := read_to_string text_path w in parse_behavior behavior content) with
      | Err e => (Err e, w)
      | Ok data => (Ok data, default w (fs_write (bin_path text_path) (serialize_ruleset_binary data) w))
      end
  end.

(** ** The provider *)

(** What the server answers to a request for the URL with a condition. *)
Inductive response :=
| SendFailed
| NotModified
| BadStatus (code : Z)
| Success (last_modified : option string) (text : option string).
Record Provider := mkProvider { base : RuleProvider IpNet; last_modified : option string }.
Definition provider_new (name : string) (config : RuleProviderConfig) : Provider :=
  mkProvider (Rules.provider_new name config) None.
Definition conf (p : Provider) : RuleProviderConfig := prov_config (base p).
Definition rules_of (p : Provider) : RuleSetData IpNet := prov_rules (base p).
Definition is_loaded (p : Provider) : bool := prov_loaded (base p).
Definition set_base (rules : RuleSetData IpNet) (loaded : bool) (p : Provider) : Provider :=
  mkProvider (mkRuleProvider (prov_name (base p)) (conf p) rules loaded) (last_modified p).
Definition set_modified (lm : option string) (p : Provider) : Provider := mkProvider (base p) lm.
Definition should_periodic_refresh (p : Provider) : bool := String.eqb (provider_type (conf p)) "http" && (0 <? interval (conf p)).

#[export] Instance ruleset_eq_dec : EqDecision (RuleSetData IpNet).
Proof. assert (EqDecision DomainRule) by solve_decision. solve_decision. Defined.
Definition replace_rules (parsed : RuleSetData IpNet) (p : Provider) : bool * Provider :=
  (negb (bool_decide (rules_of p = parsed)), set_base parsed (is_loaded p) p).

Section ops.
Context (fetch : string → option string → response) (inflate : bytes → option bytes).

Definition refresh_http_provider (p : Provider) (w : World) : result string bool * Provider * World :=
  if negb (String.eqb (provider_type (conf p)) "http") then (Ok false, p, w)
  else
    match url (conf p) with
    | None => (Err "missing url", p, w)
    | Some u =>
        match fetch u (last_modified p) with
        | SendFailed => (Err "HTTP request failed", p, w)
        | NotModified => (Ok false, p, w)
        | BadStatus _ => (Err "HTTP status", p, w)
        | Success _ None => (Err "failed to read response body", p, w)
        | Success lm (Some content) =>
            match fs_write (path (conf p)) (as_bytes content) w with
            | None => (Err "write", p, w)
            | Some w =>
                match parse_behavior (behavior (conf p)) content with
                | Err e => (Err e, p, w)
                | Ok parsed =>
                    let '(changed, p) := replace_rules parsed p in
                    let p := match lm with Some l => set_modified (Some l) p | None => p end in
                    (Ok changed, set_base (rules_of p) true p, w)
                end
            end
        end
    end.
Definition parse_file (p : Provider) (raw : bytes) : result string (RuleSetData IpNet) :=
  if is_srs_format raw then match parse_srs inflate raw with Ok d => Ok d | Err _ => Err "srs" end
  else match from_utf8 raw with
       | None => Err "not valid UTF-8 and not SRS format"
       | Some content => parse_behavior (behavior (conf p)) content
       end.
Definition load_from_local_file (p : Provider) (w : World) : result string bool * Provider :=
  match fs_read (path (conf p)) w with
  | None => (Err "failed to read", p)
  | Some raw =>
      match parse_file p raw with
      | Err e => (Err e, p)
      | Ok parsed => let '(changed, p) := replace_rules parsed p in (Ok changed, p)
      end
  end.
(** Whole seconds since the file was written, 0 for a time in the future. *)
Definition should_update_cache (p : Provider) (w : World) : bool :=
  match fs_modified (path (conf p)) w with
  | Some m => interval (conf p) <? Z.max 0 (now w - m) / 1000000000
  | None => true
  end.
Definition load_http_with_cache_fallback (p : Provider) (w : World) : result string bool * Provider * World :=
  match url (conf p) with
  | None => (Err "type 'http' but no 'url'", p, w)
  | Some _ =>
      let has_cache := bool_decide (is_Some (files w !! path (conf p))) in
      if should_update_cache p w then
        match refresh_http_provider p w with
        | (Ok changed, p, w) => (Ok changed, p, w)
        | (Err e, p, w) =>
            if has_cache then let '(r, p) := load_from_local_file p w in (r, p, w)
            else (Err "download failed and no cache available", p, w)
        end
      else let '(r, p) := load_from_local_file p w in (r, p, w)
  end.
(** The lock around it serialises the callers. *)
Definition load_once (p : Provider) (w : World) : result string unit * Provider * World :=
  if is_loaded p then (Ok tt, p, w)
  else
    let '(r, p, w) :=
      if String.eqb (provider_type (conf p)) "http" then load_http_with_cache_fallback p w
      else let '(r, p) := load_from_local_file p w in (r, p, w) in
    match r with
    | Err e => (Err e, p, w)
    | Ok _ => (Ok tt, set_base (rules_of p) true p, w)
    end.
Definition init_load_if_needed (p : Provider) (w : World) : result string unit * Provider * World :=
  if lazy (conf p) then (Ok tt, p, w) else load_once p w.
Definition ensure_loaded_for_match (p : Provider) (w : World) : Provider * World :=
  if negb (lazy (conf p)) || is_loaded p then (p, w) else let '(_, p, w) := load_once p w in (p, w).
Definition matches_domain (domain : string) (p : Provider) (w : World) : bool * Provider * World :=
  let '(p, w) := ensure_loaded_for_match p w in (ruleset_matches_domain (rules_of p) domain, p, w).
Definition matches_ip (ip : IpAddr) (p : Provider) (w : World) : bool * Provider * World :=
  let '(p, w) := ensure_loaded_for_match p w in (ruleset_matches_ip (rules_of p) ip, p, w).
Definition load_provider (name : string) (config : RuleProviderConfig) (w : World) : result string Provider * World :=
  match init_load_if_needed (provider_new name config) w with
  | (Ok _, p, w) => (Ok p, w)
  | (Err e, _, w) => (Err e, w)
  end.
(** [configs] in the order the map is walked. *)
Fixpoint load_all_providers (configs : list (string * RuleProviderConfig)) (w : World)
  : result string (list (string * Provider)) * World :=
  match configs with
  | [] => (Ok [], w)
  | (name, config) :: configs =>
      match load_provider name config w with
      | (Err e, w) => (Err e, w)
      | (Ok p, w) =>
          match load_all_providers configs w with
          | (Err e, w) => (Err e, w)
          | (Ok ps, w) => (Ok ((name, p) :: ps), w)
          end
      end
  end.
End ops.

(** ** The binary format reads back *)

Lemma from_to_le n z : 0 <= z < 256 ^ Z.of_nat n → from_le_bytes (to_le_bytes n z) = z.
Proof. intros Hz. unfold from_le_bytes, to_le_bytes. rewrite rev_involutive. by apply from_to_be_bytes. Qed.
Lemma length_to_le n z : length (to_le_bytes n z) = n.
Proof. unfold to_le_bytes. by rewrite length_rev, length_to_be_bytes. Qed.

Definition value_of (r : DomainRule) : string := (rule_tag r).2.
(** What the fields of the format can hold. *)
Definition rule_fits (r : DomainRule) : Prop := str_ok (value_of r) ∧ str_len (value_of r) < 2 ^ 16.
Definition fits (d : RuleSetData IpNet) : Prop :=
  Forall rule_fits (domain_rules d) ∧ Z.of_nat (length (domain_rules d)) < 2 ^ 32 ∧ Z.of_nat (length (ip_cidrs d)) < 2 ^ 32.

Lemma from_utf8_own s : str_ok s → from_utf8 (as_bytes s) = Some s.
Proof. intros Hs. unfold from_utf8. rewrite Hs. f_equal. apply String.string_of_list_byte_of_string. Qed.
Lemma read_rule_own r rest : rule_fits r → read_rule (serialize_rule r ++ rest) = Ok (r, rest).
Proof.
  intros [Hok Hl]. unfold serialize_rule. destruct (rule_tag r) as [tag v] eqn:E.
  assert (Hv : value_of r = v) by (unfold value_of; by rewrite E). rewrite Hv in *.
  assert (H0 : 0 <= str_len v) by (unfold str_len; lia). rewrite wrap_small by (unfold in_width; lia).
  destruct (to_le_bytes 2 (str_len v)) as [|l0 [|l1 [|]]] eqn:El; try (by apply (f_equal length) in El; rewrite length_to_le in El).
  cbn [app read_rule]. rewrite <- El, from_to_le by (cbn; lia). unfold str_len. rewrite Nat2Z.id.
  assert (Hb : length (as_bytes v) = String.length v) by (by autorewrite with rust_rw).
  rewrite length_app, (proj2 (Nat.ltb_ge _ _)) by lia. rewrite <- Hb, take_app_length, drop_app_length, from_utf8_own by done.
  destruct r; cbn in E; injection E as <- <-; reflexivity.
Qed.
Context `{!IpNetMakeLaws IpNet}.
Lemma read_net_own n rest : read_net (serialize_net n ++ rest) = Ok (n, rest).
Proof using All.
  unfold serialize_net. pose proof (net_addr_ok n) as Ha. pose proof (net_new_own n) as Hn. pose proof (net_prefix_small n) as Hp.
  destruct (net_addr n) as [a|a]; cbn [addr_width addr_bits] in *; cbn [app read_net];
    rewrite length_app, length_to_be_bytes, (proj2 (Nat.ltb_ge _ _)) by lia;
    rewrite byte_to_of_small by (unfold in_width; lia); rewrite ?(take_app_length' _ _ 4), ?(drop_app_length' _ _ 4),
      ?(take_app_length' _ _ 16), ?(drop_app_length' _ _ 16) by (by rewrite length_to_be_bytes);
    rewrite from_to_be_bytes by exact Ha; by rewrite Hn.
Qed.
Lemma read_many_own {A} (read : bytes → result string (A * bytes)) (ser : A → bytes) l rest fuel :
  Forall (fun a => ∀ rest, read (ser a ++ rest) = Ok (a, rest)) l → (length l <= fuel)%nat →
  read_many read fuel (Z.of_nat (length l)) (concat (ser <$> l) ++ rest) = Some (Ok (l, rest)).
Proof.
  intros Hl. revert fuel. induction Hl as [|a l Ha Hl IH]; intros fuel Hf.
  - by destruct fuel.
  - destruct fuel as [|fuel]; [cbn in Hf; lia|]. cbn [fmap list_fmap concat length] in *. rewrite <- app_assoc. cbn [read_many].
    rewrite (proj2 (Z.leb_gt _ _)) by lia. rewrite Ha. replace (Z.of_nat (S (length l)) - 1) with (Z.of_nat (length l)) by lia.
    by rewrite IH by lia.
Qed.
Lemma length_concat_fmap {A} (ser : A → bytes) l : (∀ a, 0 < length (ser a))%nat → (length l <= length (concat (ser <$> l)))%nat.
Proof. intros Hs. induction l as [|a l IH]; cbn; [lia|]. rewrite length_app. specialize (Hs a). lia. Qed.

Lemma binary_reads_back d : fits d → deserialize_ruleset_binary (serialize_ruleset_binary d) = Some (Ok d).
Proof using All.
  intros (Hr&Hn1&Hn2). unfold deserialize_ruleset_binary, serialize_ruleset_binary. rewrite !wrap_small by (unfold in_width; lia).
  set (n1 := to_le_bytes 4 _). set (n2 := to_le_bytes 4 _). set (rs := concat (serialize_rule <$> domain_rules d)). set (ns := concat _).
  assert (L1 : length n1 = 4%nat) by apply length_to_le. assert (L2 : length n2 = 4%nat) by apply length_to_le.
  set (data := BINARY_MAGIC ++ [BINARY_VERSION] ++ n1 ++ n2 ++ rs ++ ns).
  assert (Hlen : length data = (13 + length rs + length ns)%nat) by (unfold data; rewrite !length_app, L1, L2; cbn; lia).
  rewrite Hlen at 1. rewrite (proj2 (Nat.ltb_ge _ _)) by lia. change (slice data 0 4) with BINARY_MAGIC. rewrite bool_decide_true by done.
  change (byte_at data 4) with BINARY_VERSION. rewrite Z.eqb_refl. cbn [orb negb].
  assert (slice data 5 9 = n1) as -> by (unfold data; rewrite app_assoc; apply slice_mid; [done|by rewrite L1]).
  assert (slice data 9 13 = n2) as ->.
  { unfold data. rewrite (app_assoc BINARY_MAGIC), (app_assoc (BINARY_MAGIC ++ _)). apply slice_mid; rewrite length_app, L1, ?L2; done. }
  assert (drop 13 data = rs ++ ns) as ->.
  { unfold data. rewrite (app_assoc BINARY_MAGIC), (app_assoc (BINARY_MAGIC ++ _)), (app_assoc (_ ++ n1)). apply drop_app_length'.
    by rewrite !length_app, L1, L2. }
  unfold n1, n2. rewrite !from_to_le by (cbn; lia).
  assert (Hpos1 : ∀ r, (0 < length (serialize_rule r))%nat) by (intros r; unfold serialize_rule; destruct (rule_tag r); cbn; lia).
  assert (Hpos2 : ∀ n : IpNet, (0 < length (serialize_net n))%nat) by (intros n; unfold serialize_net; destruct (net_addr n); cbn; lia).
  unfold rs at 1. rewrite read_many_own.
  - rewrite <- (app_nil_r ns). unfold ns at 1. rewrite read_many_own; [by destruct d| |].
    + apply Forall_true. intros n rest. apply read_net_own.
    + pose proof (length_concat_fmap _ (ip_cidrs d) Hpos2) as Hx. fold ns in Hx. lia.
  - eapply Forall_impl; [exact Hr|]. intros r Hfr rest. by apply read_rule_own.
  - pose proof (length_concat_fmap _ (domain_rules d) Hpos1) as Hx. fold rs in Hx. lia.
Qed.

(** Reading any file ends. *)
Lemma read_rule_eats data r rest : read_rule data = Ok (r, rest) → (length rest < length data)%nat.
Proof.
  destruct data as [|tag [|l0 [|l1 data]]]; try discriminate. cbn [read_rule].
  destruct (_ <? _)%nat; [done|]. destruct (from_utf8 _); [|done].
  repeat case_match; intros [= _ <-]; cbn [length]; rewrite length_drop; lia.
Qed.
Lemma read_net_eats data (n : IpNet) rest : read_net data = Ok (n, rest) → (length rest < length data)%nat.
Proof.
  destruct data as [|f [|p data]]; try discriminate. cbn [read_net].
  repeat case_match; intros [= _ <-]; cbn [length]; rewrite length_drop; lia.
Qed.
Lemma read_many_total {A} (read : bytes → result string (A * bytes)) fuel count data :
  (∀ data a rest, read data = Ok (a, rest) → (length rest < length data)%nat) → (length data <= fuel)%nat →
  match read_many read fuel count data with
  | Some (Ok (_, rest)) => (length rest <= length data)%nat
  | Some (Err _) => True
  | None => False
  end.
Proof.
  intros Hr. revert count data. induction fuel as [|fuel IH]; intros count data Hf; cbn [read_many]; (destruct (count <=? 0); [lia|]);
    destruct (read data) as [[a rest]|] eqn:E; try done; apply Hr in E; [lia|].
  specialize (IH (count - 1) rest ltac:(lia)). destruct (read_many read fuel (count - 1) rest) as [[[l rest']|]|]; [lia|done|done].
Qed.
Lemma deserialize_total data : deserialize_ruleset_binary data ≠ None.
Proof.
  unfold deserialize_ruleset_binary. case_match; [done|]. case_match; [done|].
  pose proof (read_many_total read_rule (length data) (from_le_bytes (slice data 5 9)) (drop 13 data) read_rule_eats) as H1.
  rewrite length_drop in H1. specialize (H1 ltac:(lia)).
  destruct (read_many read_rule _ _ _) as [[[rs rest]|]|]; [|done|done].
  pose proof (read_many_total read_net (length data) (from_le_bytes (slice data 9 13)) rest read_net_eats ltac:(lia)) as H2.
  by destruct (read_many read_net _ _ _) as [[[]|]|].
Qed.

(** ** The cache *)

Section cache.
Context (behavior text_path : string).
Definition put_file (path : string) (content : bytes) (w : World) : World :=
  mkWorld (<[path := (content, now w)]> (files w)) (now w) (writable w) (readable w).
Definition parsed_text (w : World) : result string (RuleSetData IpNet) :=
  let? content := read_to_string text_path w in parse_behavior behavior content.
(** The lines of a text fit into the fields of the format. *)
Definition content_fits (c : bytes) : Prop :=
  ∀ s d, from_utf8 c = Some s → parse_behavior behavior s = Ok d → fits d.

(** From a start without a cache: time passes, permissions change, the text is
    edited at a time later than the cache's, other files are written, and the rules
    are loaded, always as the same behaviour. *)
Inductive history : World → Prop :=
| history_start w :
    files w !! bin_path text_path = None → (∀ c t, files w !! text_path = Some (c, t) → content_fits c) → history w
| history_later w t : history w → now w <= t → history (mkWorld (files w) t (writable w) (readable w))
| history_access w wr rd : history w → history (mkWorld (files w) (now w) wr rd)
| history_edit w c :
    history w → content_fits c → (∀ b t, files w !! bin_path text_path = Some (b, t) → t < now w) → history (put_file text_path c w)
| history_other w path c : history w → path ≠ text_path → path ≠ bin_path text_path → history (put_file path c w)
| history_load w : history w → history (load_ruleset_with_binary_cache text_path behavior w).2.

Definition cache_inv (w : World) : Prop :=
  (∀ c t, files w !! text_path = Some (c, t) → content_fits c)
  ∧ ∀ c t b bt, files w !! text_path = Some (c, t) → files w !! bin_path text_path = Some (b, bt) →
      bt < t ∨ ∃ s d, from_utf8 c = Some s ∧ parse_behavior behavior s = Ok d ∧ fits d ∧ b = serialize_ruleset_binary d.

Lemma bin_path_ne : bin_path text_path ≠ text_path.
Proof.
  unfold bin_path. induction text_path as [|a s IH]; [done|]. intros [= E]. by apply IH.
Qed.
Lemma cached_sound w d :
  cache_inv w → readable w text_path = true → cached_ruleset text_path w = Ok (Some d) → parsed_text w = Ok d.
Proof using All.
  intros [_ Hc] Hr. unfold cached_ruleset, cache_fresh, parsed_text, read_to_string, fs_modified, fs_read, fs_content.
  rewrite Hr. destruct (files w !! text_path) as [[c t]|] eqn:Et; [|done].
  destruct (files w !! bin_path text_path) as [[b bt]|] eqn:Eb; [|done]. cbn [fmap option_fmap option_map fst snd].
  destruct (Z.leb_spec t bt) as [Hle|]; [|done]. destruct (Hc c t b bt eq_refl eq_refl) as [|(s&d'&Hs&Hp&Hf&->)]; [lia|].
  destruct (readable w (bin_path text_path)); [|done]. rewrite binary_reads_back by done. intros [= <-]. by rewrite Hs.
Qed.
Lemma cached_unreadable w :
  cached_ruleset text_path w
  = if cache_fresh text_path w && negb (readable w (bin_path text_path)) then Err "open" else Ok (default None (result_to_option (cached_ruleset text_path w))).
Proof.
  unfold cached_ruleset, fs_read. destruct (cache_fresh text_path w) eqn:Ef; [|done].
  destruct (readable w (bin_path text_path)); [|done]. unfold cache_fresh, fs_modified in Ef. unfold fs_content.
  destruct (files w !! text_path); [|done]. by destruct (files w !! bin_path text_path).
Qed.
Lemma load_inv w : cache_inv w → cache_inv (load_ruleset_with_binary_cache text_path behavior w).2.
Proof using All.
  intros Hc. unfold load_ruleset_with_binary_cache. destruct (cached_ruleset text_path w) as [[]|]; [done| |done].
  change (let? content := read_to_string text_path w in parse_behavior behavior content) with (parsed_text w).
  destruct (parsed_text w) as [d|e] eqn:Ep; [|done]. cbn [snd]. unfold fs_write. destruct (writable w (bin_path text_path)); [|done].
  cbn [default from_option id]. destruct Hc as [Ht Hc]. unfold parsed_text, read_to_string, fs_read, fs_content in Ep. split; cbn [files].
  - intros c t. rewrite lookup_insert_ne by apply bin_path_ne. apply Ht.
  - intros c t b bt. rewrite lookup_insert_ne by apply bin_path_ne. rewrite lookup_insert_eq. intros Et [= <- <-]. right.
    destruct (readable w text_path); [|done].
    rewrite Et in Ep. cbn [fmap option_fmap option_map fst] in Ep. destruct (from_utf8 c) as [s|] eqn:Es; [|done].
    exists s, d. split_and!; [done|done| |done]. by eapply (Ht c t Et s).
Qed.
Lemma history_inv w : history w → cache_inv w.
Proof using All.
  induction 1 as [w Hb Ht|w t _ IH _|w wr rd _ IH|w c _ [Ht Hc] Hf Hlt|w path c _ [Ht Hc] H1 H2|w _ IH].
  - split; [done|]. intros c t b bt _ E. by rewrite Hb in E.
  - exact IH.
  - exact IH.
  - split; cbn [files put_file].
    + intros c' t. rewrite lookup_insert_eq. by intros [= <- <-].
    + intros c' t b bt. rewrite lookup_insert_eq, lookup_insert_ne by (intros E; by apply bin_path_ne). intros [= <- <-] E. left. by eapply Hlt.
  - split; cbn [files put_file]; intros *; rewrite !lookup_insert_ne by done; eauto.
  - by apply load_inv.
Qed.
End cache.

(** C8: the binary cache beside a text rule file does not show.  Starting without a
    cache, when the file is always loaded as the same behaviour, each edit is later
    than the cache then on disk, what the text parses to fits the fields of the
    format, and only the loads write the cache, loading a readable text gives
    exactly what parsing it as it is now would give, its errors included; the one
    exception is a cache that is valid but cannot be opened, whose error is
    returned. *)
Theorem binary_cache_transparent behavior text_path w :
  history behavior text_path w → readable w text_path = true →
  (load_ruleset_with_binary_cache text_path behavior w).1
  = if cache_fresh text_path w && negb (readable w (bin_path text_path)) then Err "open"
    else parsed_text behavior text_path w.
Proof using All.
  intros Hh%history_inv Hr. unfold load_ruleset_with_binary_cache. rewrite cached_unreadable.
  destruct (_ && _); [done|]. destruct (cached_ruleset text_path w) as [[d|]|] eqn:E; cbn [result_to_option default from_option id].
  - symmetry. by eapply cached_sound.
  - fold (parsed_text behavior text_path w). by destruct (parsed_text behavior text_path w).
  - fold (parsed_text behavior text_path w). by destruct (parsed_text behavior text_path w).
Qed.

(** ** The provider *)

Section sound.
Context (fetch : string → option string → response) (inflate : bytes → option bytes).
Context (polite : ∀ u, fetch u None ≠ NotModified).

(** The file on disk holds what the rules were parsed from. *)
Definition backed (p : Provider) (w : World) : Prop :=
  ∃ raw, fs_content (path (conf p)) w = Some raw
    ∧ (parse_file inflate p raw = Ok (rules_of p)
       ∨ ∃ content, raw = as_bytes content ∧ parse_behavior (behavior (conf p)) content = Ok (rules_of p)).
(** The same name and configuration. *)
Definition same_provider (p p' : Provider) : Prop := prov_name (base p') = prov_name (base p) ∧ conf p' = conf p.
(** Only a load sets the time of the server's version. *)
Definition provider_wf (p : Provider) : Prop := is_loaded p = false → last_modified p = None.

Lemma fs_read_write path c w w' : fs_write path c w = Some w' → fs_content path w' = Some c.
Proof. unfold fs_write, fs_content. case_match; [|done]. intros [= <-]. cbn. by rewrite lookup_insert_eq. Qed.
Lemma refresh_spec p w :
  match refresh_http_provider fetch p w with
  | (Err _, p', _) => p' = p
  | (Ok changed, p', w') =>
      (changed = false ∧ p' = p ∧ w' = w ∧ (String.eqb (provider_type (conf p)) "http" = true → ∃ u, fetch u (last_modified p) = NotModified))
      ∨ (is_loaded p' = true ∧ same_provider p p' ∧ backed p' w' ∧ changed = negb (bool_decide (rules_of p = rules_of p')))
  end.
Proof.
  unfold refresh_http_provider. destruct (String.eqb (provider_type (conf p)) "http"); [cbn [negb]|left; done].
  destruct (url (conf p)) as [u|]; [|done]. destruct (fetch u (last_modified p)) as [| |c|lm [content|]] eqn:Ef; try done.
  - left. eauto.
  - destruct (fs_write _ _ w) as [w'|] eqn:Ew; [|done]. destruct (parse_behavior _ content) as [d|e] eqn:Ep; [|done].
    unfold replace_rules. right. destruct lm as [lm|]; split_and!; try done.
    all: exists (as_bytes content); split; [by apply fs_read_write in Ew|]; right; by exists content.
Qed.
Lemma fs_read_content path c w : fs_read path w = Some c → fs_content path w = Some c.
Proof. unfold fs_read. by case_match. Qed.
Lemma local_spec p w :
  match load_from_local_file inflate p w with
  | (Err _, p') => p' = p
  | (Ok _, p') => is_loaded p' = is_loaded p ∧ same_provider p p' ∧ last_modified p' = last_modified p ∧ backed p' w
  end.
Proof.
  unfold load_from_local_file. destruct (fs_read (path (conf p)) w) as [raw|] eqn:Er; [apply fs_read_content in Er|done].
  destruct (parse_file inflate p raw) as [d|e] eqn:Ep; [|done]. cbn. split_and!; try done. exists raw. split; [done|]. by left.
Qed.
Lemma fallback_spec p w :
  provider_wf p → is_loaded p = false → String.eqb (provider_type (conf p)) "http" = true →
  match load_http_with_cache_fallback fetch inflate p w with
  | (Err _, p', _) => p' = p
  | (Ok _, p', w') => same_provider p p' ∧ backed p' w'
  end.
Proof using polite.
  intros Hwf Hl Ht. unfold load_http_with_cache_fallback. destruct (url (conf p)); [|done].
  destruct (should_update_cache p w).
  - pose proof (refresh_spec p w) as Hr. destruct (refresh_http_provider fetch p w) as [[[changed|e] p1] w1].
    + destruct Hr as [(_&_&_&Hu)|(_&Hc&Hb&_)]; [|done]. destruct (Hu Ht) as (u&Hu'). rewrite Hwf in Hu' by done. by apply polite in Hu'.
    + subst p1. case_bool_decide; [|done]. pose proof (local_spec p w1) as Hs.
      destruct (load_from_local_file inflate p w1) as [[b|e'] p2]; [|done]. by destruct Hs as (_&?&_&?).
  - pose proof (local_spec p w) as Hs. destruct (load_from_local_file inflate p w) as [[b|e'] p2]; [|done]. by destruct Hs as (_&?&_&?).
Qed.
Lemma backed_loaded p w : backed p w → backed (set_base (rules_of p) true p) w.
Proof. done. Qed.

Lemma load_once_spec p w :
  provider_wf p →
  match load_once fetch inflate p w with
  | (Err _, p', _) => p' = p
  | (Ok _, p', w') => is_loaded p' = true ∧ same_provider p p' ∧ (is_loaded p = true → p' = p ∧ w' = w) ∧ (is_loaded p = false → backed p' w')
  end.
Proof using polite.
  intros Hwf. unfold load_once. destruct (is_loaded p) eqn:El; [by split_and!|].
  destruct (String.eqb (provider_type (conf p)) "http") eqn:Et.
  - pose proof (fallback_spec p w Hwf El Et) as Hf. destruct (load_http_with_cache_fallback fetch inflate p w) as [[[c|e] p1] w1]; [|done].
    destruct Hf as [Hc Hb]. by split_and!.
  - pose proof (local_spec p w) as Hs. destruct (load_from_local_file inflate p w) as [[c|e] p1]; [|done].
    destruct Hs as (_&Hc&_&Hb). by split_and!.
Qed.

(** C39: loading a rule provider either fails and leaves the provider exactly as it
    was, or makes it loaded with rules parsed from what its file holds then, read
    from disk or just downloaded; a refresh of a running provider never changes its
    rules unless it succeeds, and reports a change exactly when they differ. *)
Theorem provider_load_sound p w :
  provider_wf p →
  match load_once fetch inflate p w with
  | (Err _, p', _) => p' = p
  | (Ok _, p', w') => is_loaded p' = true ∧ same_provider p p' ∧ (is_loaded p = true → p' = p ∧ w' = w) ∧ (is_loaded p = false → backed p' w')
  end
  ∧ match refresh_http_provider fetch p w with
    | (Err _, p', _) => p' = p
    | (Ok changed, p', w') => changed = negb (bool_decide (rules_of p = rules_of p')) ∧ (p' = p ∨ backed p' w')
    end.
Proof using polite.
  intros Hwf. split.
  - by apply load_once_spec.
  - pose proof (refresh_spec p w) as Hr. destruct (refresh_http_provider fetch p w) as [[[changed|e] p1] w1]; [|done].
    destruct Hr as [(->&->&_)|(_&_&Hb&Hch)]; [|auto]. split; [|by left]. by rewrite bool_decide_true.
Qed.

(** What the rules see of a provider ([Rules.Env]). *)
Lemma provider_interface env p w :
  Rules.load_once env (base p) = match load_once fetch inflate p w with (Ok _, p', _) => Some (rules_of p') | _ => None end →
  provider_wf p →
  base (ensure_loaded_for_match fetch inflate p w).1 = Rules.ensure_loaded_for_match env (base p).
Proof using polite.
  intros He Hwf. unfold ensure_loaded_for_match, Rules.ensure_loaded_for_match. fold (conf p) (is_loaded p).
  destruct (negb (lazy (conf p)) || is_loaded p) eqn:E; [done|]. apply orb_false_iff in E as [_ El].
  rewrite He. clear He. pose proof (load_once_spec p w Hwf) as Hs. destruct (load_once fetch inflate p w) as [[[u|e] p'] w']; [|by subst].
  destruct Hs as (Hl&[Hn Hc]&_). cbn [fst]. rewrite <- Hn. fold (conf p). rewrite <- Hc, <- Hl. by destruct p' as [[]].
Qed.
End sound.
End provider.

(** ** Concrete runs *)

#[local] Instance sample_make : IpNetMake SampleNet := fun ip n =>
  if bool_decide (ip = sample_addr net_10_8) && (n =? 8) then Some net_10_8
  else if bool_decide (ip = sample_addr net_10_1_16) && (n =? 16) then Some net_10_1_16
  else if bool_decide (ip = sample_addr net_v6_2001_32) && (n =? 32) then Some net_v6_2001_32
  else None.
#[local] Instance sample_make_laws : IpNetMakeLaws SampleNet.
Proof.
  split.
  - intros []; vm_compute; reflexivity.
  - intros []; vm_compute; split; congruence.
  - intros []; vm_compute; congruence.
Qed.
Definition NL : string := String (Ascii.ascii_of_nat 10) "".
Definition demo_text : string :=
  "payload:" +:+ NL +:+ "  - '+.Example.com'" +:+ NL +:+ "# comment" +:+ NL +:+ "domain:one.org".
Definition demo_world : World :=
  mkWorld {["rules.txt" := (as_bytes demo_text, 5)]} 10 (fun _ => true) (fun _ => true).
Definition demo_rules : RuleSetData SampleNet := mkRuleSetData [DrSuffix "example.com"; DrFull "one.org"] [].

Example demo_parses : parse_behavior (IpNet := SampleNet) "domain" demo_text = Ok demo_rules.
Proof. vm_compute. reflexivity. Qed.
Lemma demo_fits : content_fits (IpNet := SampleNet) "domain" (as_bytes demo_text).
Proof.
  intros s d Hs. assert (s = demo_text) as -> by (vm_compute in Hs; injection Hs as <-; reflexivity).
  rewrite demo_parses. intros [= <-]. split_and!; [|vm_compute; reflexivity..].
  repeat constructor; vm_compute; reflexivity.
Qed.
Lemma demo_history : history (IpNet := SampleNet) "domain" "rules.txt" demo_world.
Proof.
  apply history_start; [vm_compute; reflexivity|]. intros c t E.
  assert (c = as_bytes demo_text) as -> by (vm_compute in E; injection E as <- _; reflexivity). apply demo_fits.
Qed.
(** The second load reads the cache that the first one wrote. *)
Lemma binary_cache_transparent_witness :
  let w := (load_ruleset_with_binary_cache (IpNet := SampleNet) "rules.txt" "domain" demo_world).2 in
  cached_ruleset "rules.txt" w = Ok (Some demo_rules)
  ∧ (load_ruleset_with_binary_cache (IpNet := SampleNet) "rules.txt" "domain" w).1 = parsed_text "domain" "rules.txt" w.
Proof.
  split; [vm_compute; reflexivity|].
  refine (eq_trans (binary_cache_transparent "domain" "rules.txt" _ (history_load _ _ _ demo_history) _) _); vm_compute; reflexivity.
Defined.
(** The cache does not record the behaviour it was made for. *)
Example cache_ignores_behavior :
  let w := (load_ruleset_with_binary_cache (IpNet := SampleNet) "rules.txt" "domain" demo_world).2 in
  (load_ruleset_with_binary_cache (IpNet := SampleNet) "rules.txt" "ipcidr" w).1 = Ok demo_rules
  ∧ parsed_text (IpNet := SampleNet) "ipcidr" "rules.txt" w = Err "invalid CIDR".
Proof. vm_compute. split; reflexivity. Qed.

Definition demo_provider : Provider (IpNet := SampleNet) :=
  provider_new "cn" (mkRuleProviderConfig "http" "domain" "rules.txt" (Some "https://example.net/cn") 60 false).
Definition demo_server (text : string) (u : string) (since : option string) : response :=
  if bool_decide (since = None) then Success (Some "now") (Some text) else NotModified.
Lemma demo_polite text u : demo_server text u None ≠ NotModified.
Proof. done. Qed.
Lemma provider_load_sound_witness :
  match load_once (demo_server "+.cn") (fun _ => None) demo_provider (mkWorld ∅ 0 (fun _ => true) (fun _ => true)) with
  | (Err _, p', _) => p' = demo_provider
  | (Ok _, p', w') =>
      is_loaded p' = true ∧ same_provider demo_provider p' ∧ (is_loaded demo_provider = true → p' = demo_provider ∧ w' = mkWorld ∅ 0 (fun _ => true) (fun _ => true))
      ∧ (is_loaded demo_provider = false → backed (fun _ => None) p' w')
  end
  ∧ match refresh_http_provider (demo_server "+.cn") demo_provider (mkWorld ∅ 0 (fun _ => true) (fun _ => true)) with
    | (Err _, p', _) => p' = demo_provider
    | (Ok changed, p', w') => changed = negb (bool_decide (rules_of demo_provider = rules_of p')) ∧ (p' = demo_provider ∨ backed (fun _ => None) p' w')
    end.
Proof. apply (provider_load_sound (demo_server "+.cn") (fun _ => None) (demo_polite _) demo_provider). intros _. reflexivity. Defined.
(** A download that does not parse replaces the good file on disk: the provider
    fails, and the next start has no cache to fall back on. *)
Example bad_download_destroys_cache :
  let conf := mkRuleProviderConfig "http" "ipcidr" "nets.txt" (Some "https://example.net/nets") 60 false in
  let w := mkWorld {["nets.txt" := (as_bytes "10.0.0.0/8", 0)]} 100000000000 (fun _ => true) (fun _ => true) in
  let p := provider_new (IpNet := SampleNet) "nets" conf in
  (load_from_local_file (fun _ => None) p w).1 = Ok true
  ∧ let '(r, _, w') := load_once (demo_server "<html>") (fun _ => None) p w in
    r = Err "invalid CIDR" ∧ (load_from_local_file (fun _ => None) p w').1 = Err "invalid CIDR".
Proof. vm_compute. auto. Qed.
