(* ===== verification/Traffic.v ===== *)
(** * Rate limits, connection limits, counters ([src/src/common/traffic.rs])

    The token bucket, the connection limiter over a counting semaphore, the
    traffic counters and the routing mark.  Instants are nanoseconds; calls of
    one limiter are taken one after the other.  [happy_eyeballs_connect] and the
    socket options are not modelled. *)

From S2P Require Import Prelude RustStr IpText.

Local Open Scope string_scope.
Local Open Scope list_scope.
Local Open Scope Z_scope.

(** ** Token bucket *)

(** [as i64] *)
Definition to_i64 (z : Z) : Z := (z + 2 ^ 63) mod 2 ^ 64 - 2 ^ 63.

Record RateLimiter := {
  tokens : Z;
  max_tokens : Z;
  refill_rate : Z;
  last_refill : Z
}.

Definition limiter_new (bytes_per_second now : Z) : RateLimiter :=
  let max := to_i64 bytes_per_second in
  {| tokens := max; max_tokens := max; refill_rate := max; last_refill := now |}.

Definition with_tokens (t : Z) (l : RateLimiter) : RateLimiter :=
  {| tokens := t; max_tokens := max_tokens l; refill_rate := refill_rate l;
     last_refill := last_refill l |}.

(** [duration_since] saturates at zero, [as_millis] truncates. *)
Definition refill (l : RateLimiter) (now : Z) : RateLimiter :=
  let elapsed := saturating_sub now (last_refill l) in
  let new_tokens := Z.quot (to_i64 (to_i64 (elapsed / 1000000) * refill_rate l)) 1000 in
  if 0 <? new_tokens then
    {| tokens := Z.min (to_i64 (tokens l + new_tokens)) (max_tokens l);
       max_tokens := max_tokens l; refill_rate := refill_rate l; last_refill := now |}
  else l.

Definition try_consume (l : RateLimiter) (n now : Z) : RateLimiter * Z :=
  let l := refill l now in
  let n := to_i64 n in
  let consume := Z.max (Z.min n (tokens l)) 0 in
  (if 0 <? consume then with_tokens (to_i64 (tokens l - consume)) l else l, consume).

Definition available (l : RateLimiter) (now : Z) : RateLimiter * Z :=
  let l := refill l now in (l, Z.max (tokens l) 0).

Definition max_rate (l : RateLimiter) : Z := max_tokens l.

(** A run of requests [(n, now)]: the bytes granted in all. *)
Fixpoint consume_all (l : RateLimiter) (reqs : list (Z * Z)) : RateLimiter * Z :=
  match reqs with
  | [] => (l, 0)
  | (n, now) :: reqs =>
      let '(l, got) := try_consume l n now in
      let '(l, rest) := consume_all l reqs in (l, got + rest)
  end.

(** ** Connection limiter *)

(** The semaphore's free permits and the gauge of active connections; a guard
    is one acquired slot. *)
Record ConnectionLimiter := { permits : Z; max_connections : Z; active : Z }.

Definition connection_limiter_new (max : Z) : ConnectionLimiter :=
  {| permits := max; max_connections := max; active := 0 |}.
Definition try_acquire (l : ConnectionLimiter) : ConnectionLimiter * bool :=
  if 0 <? permits l then
    ({| permits := permits l - 1; max_connections := max_connections l;
        active := wrap 64 (active l + 1) |}, true)
  else (l, false).
(** Dropping a guard: the gauge is lowered, then the permit is returned. *)
Definition drop_guard (l : ConnectionLimiter) : ConnectionLimiter :=
  {| permits := permits l + 1; max_connections := max_connections l;
     active := wrap 64 (active l - 1) |}.

(** Only a held guard can be dropped: [guards] counts them. *)
Inductive limiter_step : ConnectionLimiter * Z → ConnectionLimiter * Z → Prop :=
| step_acquire l l' g : try_acquire l = (l', true) → limiter_step (l, g) (l', g + 1)
| step_refused l l' g : try_acquire l = (l', false) → limiter_step (l, g) (l', g)
| step_drop l g : 0 < g → limiter_step (l, g) (drop_guard l, g - 1).

(** ** Counters *)

Record TrafficStats := { upload : Z; download : Z }.
Definition stats_new : TrafficStats := {| upload := 0; download := 0 |}.
Definition add_upload (s : TrafficStats) (n : Z) : TrafficStats :=
  {| upload := wrap 64 (upload s + n); download := download s |}.
Definition add_download (s : TrafficStats) (n : Z) : TrafficStats :=
  {| upload := upload s; download := wrap 64 (download s + n) |}.
Definition total (s : TrafficStats) : Z := wrap 64 (upload s + download s).
Definition stats_reset (s : TrafficStats) : TrafficStats := stats_new.

(** ** Routing marks *)

(** [trim_start_matches]: every leading copy of the pattern goes. *)
Fixpoint trim_start_matches (fuel : nat) (pat s : string) : string :=
  match fuel with
  | O => s
  | S fuel => match strip_prefix pat s with Some s => trim_start_matches fuel pat s | None => s end
  end.

(** [u32::from_str_radix(s, 16)]: an optional plus sign, at least one digit. *)
Fixpoint hex_loop (acc : Z) (s : string) : option Z :=
  match s with
  | EmptyString => Some acc
  | String a s =>
      match hex_value a with
      | Some d => if acc * 16 + d <? 2 ^ 32 then hex_loop (acc * 16 + d) s else None
      | None => None
      end
  end.
Definition from_str_radix_16 (s : string) : option Z :=
  let digits := default s (strip_prefix "+" s) in
  if String.eqb digits "" then None else hex_loop 0 digits.

Definition mark_from_hex (s : string) : option Z :=
  let s := trim_start_matches (String.length s) "0x" s in
  from_str_radix_16 (trim_start_matches (String.length s) "0X" s).
Definition mark_from_string (s : string) : option Z :=
  if starts_with "0x" s || starts_with "0X" s then mark_from_hex s else parse_uint 32 s.

(** ** Lemmas *)

Lemma to_i64_small z : -2 ^ 63 <= z < 2 ^ 63 → to_i64 z = z.
Proof. intros Hz. unfold to_i64. rewrite Z.mod_small by lia. lia. Qed.

(** A limiter in use: between empty and full, with a rate small enough for the
    product of the refill. *)
Record limiter_ok (l : RateLimiter) : Prop := {
  lok_tokens : 0 <= tokens l <= max_tokens l;
  lok_rate : 0 <= refill_rate l < 2 ^ 62;
  lok_max : max_tokens l < 2 ^ 62
}.

(** The refill product stays in range until [now]. *)
Definition in_range (l : RateLimiter) (now : Z) : Prop :=
  last_refill l <= now ∧ (now - last_refill l) * refill_rate l < 2 ^ 62 * 1000000
  ∧ now - last_refill l < 2 ^ 62.

Lemma refill_ok l now :
  limiter_ok l → in_range l now →
  limiter_ok (refill l now) ∧ max_tokens (refill l now) = max_tokens l
  ∧ refill_rate (refill l now) = refill_rate l
  ∧ last_refill l <= last_refill (refill l now) <= now
  ∧ 1000000000 * (tokens (refill l now) - tokens l)
    <= refill_rate l * (last_refill (refill l now) - last_refill l).
Proof.
  intros [Ht Hr Hm] (Hn & Hp & He). unfold refill, saturating_sub. rewrite Z.max_l by lia.
  set (d := now - last_refill l) in *.
  assert (Hms : 0 <= d / 1000000 /\ 1000000 * (d / 1000000) <= d).
  { split; [apply Z.div_pos; lia | apply Z.mul_div_le; lia]. }
  rewrite (to_i64_small (d / 1000000)) by lia.
  assert (Hprod : 0 <= d / 1000000 * refill_rate l < 2 ^ 62) by nia.
  rewrite (to_i64_small (_ * _)) by lia. rewrite Z.quot_div_nonneg by lia.
  set (k := d / 1000000 * refill_rate l / 1000).
  assert (Hk : 0 <= k ∧ 1000 * k <= d / 1000000 * refill_rate l).
  { split; [apply Z.div_pos; lia | apply Z.mul_div_le; lia]. }
  destruct (Z.ltb_spec 0 k).
  - cbn. rewrite to_i64_small by lia. repeat split; cbn; try lia. unfold d in *. nia.
  - repeat split; try lia; done.
Qed.

Lemma try_consume_ok l n now :
  limiter_ok l → in_range l now → u64_ok n →
  let '(l', got) := try_consume l n now in
  limiter_ok l' ∧ max_tokens l' = max_tokens l ∧ refill_rate l' = refill_rate l
  ∧ last_refill l <= last_refill l' <= now ∧ 0 <= got <= n
  ∧ 1000000000 * (got + tokens l' - tokens l) <= refill_rate l * (last_refill l' - last_refill l).
Proof.
  intros Hok Hin Hn. destruct (refill_ok l now Hok Hin) as ([Ht Hr Hm] & H1 & H2 & H3 & H4).
  unfold try_consume. set (l1 := refill l now) in *.
  set (got := Z.max (Z.min (to_i64 n) (tokens l1)) 0).
  assert (Hgot : 0 <= got <= tokens l1 ∧ got <= n).
  { unfold got, to_i64, in_width in *. Z.div_mod_to_equations. lia. }
  destruct (Z.ltb_spec 0 got) as [Hp|Hz].
  - unfold with_tokens. cbn. rewrite to_i64_small by lia. repeat split; cbn; lia.
  - repeat split; try done; lia.
Qed.

(** Requests in order of time, the refill product in range for the whole run. *)
Fixpoint run_ok (start rate last : Z) (reqs : list (Z * Z)) : Prop :=
  match reqs with
  | [] => True
  | (n, now) :: reqs =>
      last <= now ∧ (now - start) * rate < 2 ^ 62 * 1000000 ∧ now - start < 2 ^ 62 ∧ u64_ok n
      ∧ run_ok start rate now reqs
  end.
(** The time of the last request. *)
Fixpoint end_of (start : Z) (reqs : list (Z * Z)) : Z :=
  match reqs with [] => start | (_, now) :: reqs => end_of now reqs end.

Lemma consume_all_bound start reqs l now0 :
  limiter_ok l → start <= last_refill l <= now0 → run_ok start (refill_rate l) now0 reqs →
  1000000000 * (consume_all l reqs).2
  <= 1000000000 * tokens l + refill_rate l * (end_of now0 reqs - last_refill l).
Proof.
  revert l now0. induction reqs as [|[n now] reqs IH]; intros l now0 Hok Hs Hrun.
  { cbn. destruct Hok as [Ht Hr Hm]. nia. }
  cbn [run_ok] in Hrun. destruct Hrun as (Hle & Hp & Hd & Hn & Hrun). cbn [consume_all].
  assert (Hin : in_range l now).
  { destruct Hok as [_ Hrate _].
    assert ((now - last_refill l) * refill_rate l <= (now - start) * refill_rate l)
      by (apply Z.mul_le_mono_nonneg_r; lia).
    unfold in_range. lia. }
  pose proof (try_consume_ok l n now Hok Hin Hn) as Hc.
  destruct (try_consume l n now) as [l1 got]. destruct Hc as (Hok1 & Hm1 & Hr1 & Hl1 & Hgot & Hacc).
  specialize (IH l1 now Hok1 ltac:(lia)). rewrite Hr1 in IH. specialize (IH Hrun).
  destruct (consume_all l1 reqs) as [l2 rest]. cbn [snd] in *.
  cbn [end_of]. destruct Hok as [_ Hrate _]. nia.
Qed.

(** ** Theorems *)

(** However requests come, the bytes a rate limiter grants never exceed a
    full bucket plus the rate times the time from its creation to the last
    request. *)
Theorem rate_limit_holds bytes_per_second start reqs :
  0 <= bytes_per_second < 2 ^ 62 → run_ok start bytes_per_second start reqs →
  1000000000 * (consume_all (limiter_new bytes_per_second start) reqs).2
  <= bytes_per_second * (1000000000 + (end_of start reqs - start)).
Proof.
  intros Hb Hrun. pose proof (to_i64_small bytes_per_second ltac:(lia)) as Hm.
  pose proof (consume_all_bound start reqs (limiter_new bytes_per_second start) start) as Hc.
  unfold limiter_new in *. cbn in Hc. rewrite Hm in Hc. specialize (Hc ltac:(split; cbn; lia) ltac:(lia) Hrun).
  rewrite Hm. lia.
Qed.

Lemma rate_limit_holds_witness :
  1000000000 * (consume_all (limiter_new 1000 0) [(800, 0); (800, 100000000); (800, 300000000)]).2
  <= 1000 * (1000000000 + (300000000 - 0)).
Proof.
  apply (rate_limit_holds 1000 0 [(800, 0); (800, 100000000); (800, 300000000)]); [lia|].
  cbn. unfold in_width. repeat split; lia.
Defined.

(** At every point at most [max_connections] guards are held, the gauge shows
    exactly how many, and a slot is refused only when all are held. *)
Theorem connection_limit_holds max l g :
  0 <= max < 2 ^ 32 → rtc limiter_step (connection_limiter_new max, 0) (l, g) →
  0 <= g <= max ∧ active l = g ∧ permits l = max - g ∧
  ((try_acquire l).2 = false ↔ g = max).
Proof.
  intros Hmax Hr.
  assert (Hinv : ∀ s s', rtc limiter_step s s' →
    0 <= s.2 <= max ∧ active s.1 = s.2 ∧ permits s.1 = max - s.2 →
    0 <= s'.2 <= max ∧ active s'.1 = s'.2 ∧ permits s'.1 = max - s'.2).
  { induction 1 as [|s s1 s2 Hs _ IH]; [done|]. intros (H1 & H2 & H3). apply IH.
    destruct Hs as [k k' g' Ha|k k' g' Ha|k g' Hg]; cbn in *.
    - unfold try_acquire in Ha. destruct (Z.ltb_spec 0 (permits k)); [|done]. injection Ha as <-.
      cbn. unfold wrap. rewrite Z.mod_small by lia. lia.
    - unfold try_acquire in Ha. destruct (Z.ltb_spec 0 (permits k)); [done|]. injection Ha as <-. lia.
    - unfold wrap. rewrite Z.mod_small by lia. lia. }
  destruct (Hinv _ _ Hr) as (H1 & H2 & H3); [cbn; lia|]. cbn in *. repeat split; try lia.
  - unfold try_acquire. destruct (Z.ltb_spec 0 (permits l)); [done | lia].
  - intros ->. unfold try_acquire. destruct (Z.ltb_spec 0 (permits l)); [lia | done].
Qed.

Example mark_samples :
  mark_from_string "0xFF" = Some 255 ∧ mark_from_string "42" = Some 42
  ∧ mark_from_string "0x" = None ∧ mark_from_string "0x0X10" = Some 16
  ∧ mark_from_string "0x100000000" = None.
Proof. repeat split; vm_compute; reflexivity. Qed.

Lemma connection_limit_holds_witness :
  0 <= 1 <= 1 ∧ active (try_acquire (connection_limiter_new 1)).1 = 1 ∧
  permits (try_acquire (connection_limiter_new 1)).1 = 1 - 1 ∧
  ((try_acquire (try_acquire (connection_limiter_new 1)).1).2 = false ↔ 1 = 1).
Proof.
  apply (connection_limit_holds 1 (try_acquire (connection_limiter_new 1)).1 1); [lia|].
  apply rtc_once. apply (step_acquire (connection_limiter_new 1) _ 0). reflexivity.
Defined.
