(* ===== verification/ConnPool.v ===== *)
(** * Connection pool ([src/src/proxy/connection_pool.rs])

    Idle TCP connections by target.  A connection is a number, instants are
    nanoseconds, and each operation runs under the pool's lock.  The background
    cleanup timer only calls [cleanup]. *)

From S2P Require Import Prelude RustStr IpText.

Local Open Scope string_scope.
Local Open Scope list_scope.
Local Open Scope Z_scope.

Record PooledConn := { stream : nat; created_at : Z; last_used : Z }.

Record PoolConfig := {
  max_idle_per_host : nat;
  idle_timeout : Z;
  max_lifetime : Z;
  cleanup_interval : Z
}.
Definition pool_config_default : PoolConfig :=
  {| max_idle_per_host := 8; idle_timeout := 90000000000; max_lifetime := 300000000000;
     cleanup_interval := 30000000000 |}.

(** A key is the host and the port. *)
Definition PoolKey : Type := string * Z.
Definition key_to_string (k : PoolKey) : string := k.1 +:+ ":" +:+ uint_to_string k.2.

Record ConnectionPool := { pool_config : PoolConfig; conns : gmap (string * Z) (list PooledConn) }.

Definition pool_new (config : PoolConfig) : ConnectionPool := {| pool_config := config; conns := ∅ |}.
Definition with_conns (m : gmap (string * Z) (list PooledConn)) (p : ConnectionPool) : ConnectionPool :=
  {| pool_config := pool_config p; conns := m |}.

Definition expired (c : PoolConfig) (now : Z) (e : PooledConn) : bool :=
  (idle_timeout c <? saturating_sub now (last_used e))
  || (max_lifetime c <? saturating_sub now (created_at e)).

(** The loop [while let Some(entry) = queue.pop_back()], on the reversed queue:
    what is left of it and the connection found. *)
Fixpoint pop_loop (c : PoolConfig) (now : Z) (rev : list PooledConn) : list PooledConn * option nat :=
  match rev with
  | [] => ([], None)
  | e :: rev => if expired c now e then pop_loop c now rev else (rev, Some (stream e))
  end.

Definition get (p : ConnectionPool) (key : PoolKey) (now : Z) : ConnectionPool * option nat :=
  match conns p !! key with
  | None => (p, None)
  | Some queue =>
      match pop_loop (pool_config p) now (reverse queue) with
      | (rev, Some s) => (with_conns (<[key := reverse rev]> (conns p)) p, Some s)
      | (_, None) => (with_conns (delete key (conns p)) p, None)
      end
  end.

Definition put (p : ConnectionPool) (key : PoolKey) (s : nat) (now : Z) : ConnectionPool :=
  let queue := default [] (conns p !! key) in
  let queue := if (max_idle_per_host (pool_config p) <=? length queue)%nat then tail queue else queue in
  with_conns (<[key := queue ++ [{| stream := s; created_at := now; last_used := now |}]]> (conns p)) p.

Definition cleanup (p : ConnectionPool) (now : Z) : ConnectionPool :=
  with_conns
    (omap (fun queue =>
             let queue := List.filter (fun e => negb (expired (pool_config p) now e)) queue in
             if decide (queue = []) then None else Some queue) (conns p)) p.

Definition clear (p : ConnectionPool) : ConnectionPool := with_conns ∅ p.

Record PoolStats := { idle_connections : nat; hosts : nat }.
Definition stats (p : ConnectionPool) : PoolStats :=
  {| idle_connections := map_fold (fun _ queue n => (n + length queue)%nat) 0%nat (conns p);
     hosts := size (conns p) |}.

(** ** Operations with the owners of connections

    A caller owns the connections it opened or got; returning one gives it up.
    [owned] are the connections outside the pool. *)

Inductive pool_step : ConnectionPool * list nat → ConnectionPool * list nat → Prop :=
| step_open p owned s :
    s ∉ owned → (∀ k q e, conns p !! k = Some q → e ∈ q → stream e ≠ s) →
    pool_step (p, owned) (p, s :: owned)
| step_put p owned key s now :
    s ∈ owned → pool_step (p, owned) (put p key s now, List.filter (fun x => negb (x =? s)%nat) owned)
| step_get p p' owned key s now :
    get p key now = (p', Some s) → pool_step (p, owned) (p', s :: owned)
| step_miss p p' owned key now :
    get p key now = (p', None) → pool_step (p, owned) (p', owned)
| step_cleanup p owned now : pool_step (p, owned) (cleanup p now, owned)
| step_clear p owned : pool_step (p, owned) (clear p, owned)
| step_close p owned s :
    pool_step (p, owned) (p, List.filter (fun x => negb (x =? s)%nat) owned).

(** ** Lemmas *)

Lemma pop_loop_spec c now rev rest r :
  pop_loop c now rev = (rest, r) →
  match r with
  | Some s => ∃ dropped e, rev = dropped ++ e :: rest ∧ Forall (fun e => expired c now e = true) dropped
                           ∧ expired c now e = false ∧ stream e = s
  | None => Forall (fun e => expired c now e = true) rev
  end.
Proof.
  revert rest r. induction rev as [|e rev IH]; intros rest r; cbn [pop_loop].
  { by intros [= <- <-]. }
  destruct (expired c now e) eqn:E.
  - intros Hp. specialize (IH _ _ Hp). destruct r as [s|]; [|by constructor].
    destruct IH as (dropped & e' & -> & Hd & He & Hs). exists (e :: dropped), e'. by repeat split; [constructor|..].
  - intros [= <- <-]. by exists [], e.
Qed.

(** A connection is in the pool. *)
Definition in_pool (m : gmap (string * Z) (list PooledConn)) (s : nat) : Prop :=
  ∃ k q e, m !! k = Some q ∧ e ∈ q ∧ stream e = s.

Record pool_inv (p : ConnectionPool) (owned : list nat) : Prop := {
  inv_queue : ∀ k q, conns p !! k = Some q →
    NoDup (stream <$> q) ∧ (length q ≤ Nat.max 1 (max_idle_per_host (pool_config p)))%nat;
  inv_keys : ∀ k1 k2 q1 q2 e1 e2, conns p !! k1 = Some q1 → conns p !! k2 = Some q2 →
    e1 ∈ q1 → e2 ∈ q2 → stream e1 = stream e2 → k1 = k2;
  inv_owned : NoDup owned ∧ ∀ s, s ∈ owned → ~ in_pool (conns p) s
}.

(** Replacing the queue of one key by parts of it and connections nobody has. *)
Lemma pool_inv_update p owned key q' :
  pool_inv p owned → NoDup (stream <$> q') →
  (length q' ≤ Nat.max 1 (max_idle_per_host (pool_config p)))%nat →
  (∀ e, e ∈ q' → (∃ q e0, conns p !! key = Some q ∧ e0 ∈ q ∧ stream e0 = stream e)
                 ∨ (~ in_pool (conns p) (stream e) ∧ stream e ∉ owned)) →
  pool_inv (with_conns (<[key := q']> (conns p)) p) owned.
Proof.
  intros [Hq Hk [Hn Ho]] Hnd Hlen Hsub. split; cbn.
  - intros k q. rewrite lookup_insert_Some. intros [[<- <-]|[_ Hl]]; [done | by apply (Hq k)].
  - assert (Hone : ∀ k q e e', conns p !! k = Some q → e ∈ q → e' ∈ q' → stream e = stream e' → k = key).
    { intros k q e e' Hl He He' Hs. destruct (Hsub e' He') as [(q0 & e0 & Hl0 & He0 & Hs0)|[Hno _]].
      - apply (Hk k key q q0 e e0); try done. congruence.
      - destruct Hno. exists k, q, e. done. }
    intros k1 k2 q1 q2 e1 e2. rewrite !lookup_insert_Some.
    intros [[<- <-]|[_ H1]] [[<- <-]|[_ H2]] He1 He2 Hs; [done | | | by eapply Hk].
    + symmetry. by eapply Hone.
    + by eapply Hone.
  - split; [done|]. intros s Hs (k & q & e & Hl & He & Hse). subst s.
    apply lookup_insert_Some in Hl as [[<- <-]|[_ Hl]].
    + destruct (Hsub e He) as [(q0 & e0 & Hl0 & He0 & Hs0)|[_ Hno]]; [|done].
      apply (Ho _ Hs). by exists key, q0, e0.
    + apply (Ho _ Hs). by exists k, q, e.
Qed.

Lemma streams_sublist q' q : sublist q' q → sublist (stream <$> q') (stream <$> q).
Proof. induction 1; cbn; by constructor. Qed.

Lemma filter_sublist {A} (f : A → bool) q : sublist (List.filter f q) q.
Proof. induction q as [|e q IH]; cbn; [constructor|]. by destruct (f e); constructor. Qed.

(** Removing entries keeps the invariant. *)
Lemma pool_inv_shrink p p' owned :
  pool_config p' = pool_config p → pool_inv p owned →
  (∀ k q', conns p' !! k = Some q' → ∃ q, conns p !! k = Some q ∧ sublist q' q) → pool_inv p' owned.
Proof.
  intros Hc [Hq Hk [Hn Ho]] Hsub. split.
  - intros k q' Hl. destruct (Hsub k q' Hl) as (q & Hlq & Hs). destruct (Hq k q Hlq) as [H1 H2].
    rewrite Hc. split; [|apply sublist_length in Hs; lia].
    eapply sublist_NoDup; [exact H1 | by apply streams_sublist].
  - intros k1 k2 q1 q2 e1 e2 H1 H2 He1 He2. destruct (Hsub _ _ H1) as (q1' & H1' & S1).
    destruct (Hsub _ _ H2) as (q2' & H2' & S2).
    eapply (Hk k1 k2 q1' q2'); eauto using elem_of_sublist.
  - split; [done|]. intros s Hs (k & q & e & Hl & He & <-). destruct (Hsub _ _ Hl) as (q0 & Hl0 & S0).
    apply (Ho _ Hs). exists k, q0, e. split; [done|]. split; [by eapply elem_of_sublist | done].
Qed.

Lemma put_keeps p owned key s now :
  pool_inv p owned → s ∈ owned →
  pool_inv (put p key s now) (List.filter (fun x => negb (x =? s)%nat) owned).
Proof.
  intros Hinv Hs. pose proof Hinv as [Hq Hk [Hn Ho]].
  assert (Hinv' : pool_inv p (List.filter (fun x => negb (x =? s)%nat) owned)).
  { split; [done..|]. split; [eapply sublist_NoDup; [exact Hn | apply filter_sublist]|].
    intros x [Hx _]%list_elem_of_In%filter_In. apply Ho. by apply list_elem_of_In. }
  unfold put. set (q := default [] (conns p !! key)).
  set (q1 := if (_ <=? _)%nat then tail q else q).
  assert (Hsub : sublist q1 q).
  { unfold q1. destruct (_ <=? _)%nat; [|done]. destruct q; [done|]. by apply sublist_cons. }
  assert (Hqq : NoDup (stream <$> q) ∧ ∀ e, e ∈ q → ∃ q0, conns p !! key = Some q0 ∧ e ∈ q0).
  { unfold q. destruct (conns p !! key) as [q0|] eqn:E; cbn; [|split; [constructor|set_solver]].
    split; [by apply (Hq key) | eauto]. }
  destruct Hqq as [Hnd Hin]. apply pool_inv_update; [done| | |].
  - rewrite fmap_app. apply NoDup_app. split; [eapply sublist_NoDup; [exact Hnd | by apply streams_sublist]|].
    split; [|apply NoDup_singleton]. intros x Hx1 Hx2%list_elem_of_singleton. cbn in Hx2. subst x.
    apply list_elem_of_fmap in Hx1 as (e & -> & He).
    apply (elem_of_sublist _ _ _ He) in Hsub. destruct (Hin e Hsub) as (q0 & Hl0 & He0).
    apply (Ho _ Hs). by exists key, q0, e.
  - rewrite length_app. cbn. unfold q1. destruct (Nat.leb_spec (max_idle_per_host (pool_config p)) (length q)).
    + assert (length q ≤ Nat.max 1 (max_idle_per_host (pool_config p)))%nat.
      { unfold q. destruct (conns p !! key) as [q0|] eqn:E; cbn; [by apply (Hq key) | lia]. }
      destruct q; cbn in *; lia.
    + lia.
  - intros e [He|He%list_elem_of_singleton]%elem_of_app.
    + left. apply (elem_of_sublist _ _ _ He) in Hsub. destruct (Hin e Hsub) as (q0 & Hl0 & He0).
      by exists q0, e.
    + right. subst e. cbn. split; [by apply Ho|]. intros [_ Hx]%list_elem_of_In%filter_In.
      by rewrite Nat.eqb_refl in Hx.
Qed.

Lemma get_keeps p p' owned key now r :
  pool_inv p owned → get p key now = (p', r) →
  pool_inv p' owned ∧ match r with
    | Some s => (s ∉ owned) ∧ ~ in_pool (conns p') s
    | None => True
    end.
Proof.
  intros Hinv. pose proof Hinv as [Hq Hk [Hn Ho]]. unfold get.
  destruct (conns p !! key) as [queue|] eqn:Hl; [|by intros [= <- <-]].
  destruct (pop_loop _ _ _) as [rev [s|]] eqn:Hp; intros [= <- <-].
  - apply pop_loop_spec in Hp as (dropped & e & Hrev & _ & _ & <-).
    assert (Hqueue : queue = reverse rev ++ e :: reverse dropped).
    { rewrite <- (reverse_involutive queue), Hrev, reverse_app, reverse_cons, <- app_assoc. done. }
    destruct (Hq key queue Hl) as [Hnd Hlen]. rewrite Hqueue, fmap_app, fmap_cons in Hnd.
    rewrite Hqueue, length_app in Hlen. apply NoDup_app in Hnd as (Hnd1 & Hdis & Hnd2).
    assert (Hnew : ∀ x, x ∈ reverse rev → x ∈ queue) by (intros x Hx; rewrite Hqueue; set_solver).
    assert (He : e ∈ queue) by (rewrite Hqueue; set_solver).
    split; [|split].
    + apply pool_inv_update; [done | done | cbn in *; lia |]. intros x Hx. left.
      exists queue, x. split; [done|]. split; [by apply Hnew | done].
    + intros Hown. apply (Ho _ Hown). by exists key, queue, e.
    + intros (k & q & x & Hlk & Hx & Hs). cbn in Hlk. apply lookup_insert_Some in Hlk as [[<- <-]|[Hne Hlk]].
      * apply (Hdis (stream e)); [|by constructor]. rewrite <- Hs. by apply list_elem_of_fmap_2.
      * apply Hne. symmetry. by apply (Hk k key q queue x e).
  - split; [|done]. apply (pool_inv_shrink p); [done..|]. cbn. intros k q' Hd.
    apply lookup_delete_Some in Hd as [_ Hd]. by exists q'.
Qed.

Lemma cleanup_keeps p owned now : pool_inv p owned → pool_inv (cleanup p now) owned.
Proof.
  intros Hinv. apply (pool_inv_shrink p); [done..|]. cbn. intros k q'. rewrite lookup_omap.
  destruct (conns p !! k) as [q|]; [|done]. cbn. case_decide; [done|]. intros [= <-].
  exists q. split; [done | apply filter_sublist].
Qed.

Lemma pool_step_keeps s s' : pool_step s s' → pool_inv s.1 s.2 → pool_inv s'.1 s'.2.
Proof.
  intros Hs. destruct Hs as [p owned s Hno Hfresh|p owned key s now Hs|p p' owned key s now Hg
    |p p' owned key now Hg|p owned now|p owned|p owned s]; cbn; intros Hinv.
  - destruct Hinv as [Hq Hk [Hn Ho]]. split; [done..|]. split; [by constructor|].
    intros x [->|Hx]%elem_of_cons; [|by apply Ho]. intros (k & q & e & Hl & He & Hx). by eapply Hfresh.
  - by apply put_keeps.
  - destruct (get_keeps _ _ _ _ _ _ Hinv Hg) as ([Hq Hk [Hn Ho]] & H1 & H2). split; [done..|].
    split; [by constructor|]. intros x [->|Hx]%elem_of_cons; [done | by apply Ho].
  - by eapply get_keeps.
  - by apply cleanup_keeps.
  - apply (pool_inv_shrink p); [done..|]. cbn. intros k q Hl. by rewrite lookup_empty in Hl.
  - destruct Hinv as [Hq Hk [Hn Ho]]. split; [done..|].
    split; [eapply sublist_NoDup; [exact Hn | apply filter_sublist]|].
    intros x [Hx _]%list_elem_of_In%filter_In. apply Ho. by apply list_elem_of_In.
Qed.

(** ** Theorems *)

(** Whatever sequence of opens, returns, reuses, cleanups and closes, a
    connection is in one place: owned by one caller or in one position of one
    queue, never handed out twice; and no queue exceeds the configured limit
    (or one, where the limit is zero). *)
Theorem pool_connections_exclusive config p owned :
  rtc pool_step (pool_new config, []) (p, owned) →
  NoDup owned ∧ (∀ s, s ∈ owned → ~ in_pool (conns p) s) ∧
  (∀ k q, conns p !! k = Some q →
     NoDup (stream <$> q) ∧ (length q ≤ Nat.max 1 (max_idle_per_host (pool_config p)))%nat) ∧
  (∀ k1 k2 q1 q2 e1 e2, conns p !! k1 = Some q1 → conns p !! k2 = Some q2 →
     e1 ∈ q1 → e2 ∈ q2 → stream e1 = stream e2 → k1 = k2).
Proof.
  intros Hr.
  assert (Hinv : ∀ s s', rtc pool_step s s' → pool_inv s.1 s.2 → pool_inv s'.1 s'.2).
  { induction 1; eauto using pool_step_keeps. }
  destruct (Hinv _ _ Hr) as [Hq Hk [Hn Ho]]; [|done].
  split; cbn; [by intros k q Hl | by intros k1 k2 q1 q2 e1 e2 Hl | split; [constructor | set_solver]].
Qed.

Lemma pool_connections_exclusive_witness :
  let p := put (pool_new pool_config_default) ("example.com", 443) 7 1000 in
  let p' := (get p ("example.com", 443) 2000).1 in
  NoDup [7%nat] ∧ (∀ s, s ∈ [7%nat] → ~ in_pool (conns p') s).
Proof.
  destruct (pool_connections_exclusive pool_config_default
    (get (put (pool_new pool_config_default) ("example.com", 443) 7 1000) ("example.com", 443) 2000).1 [7%nat])
    as (H1 & H2 & _); [|by split].
  eapply rtc_l; [apply (step_open _ _ 7); [set_solver | by intros k q e Hl]|].
  eapply rtc_l; [apply (step_put _ _ ("example.com", 443) 7 1000); set_solver|].
  eapply rtc_l; [|apply rtc_refl]. apply (step_get _ _ [] ("example.com", 443) 7 2000).
  vm_compute. reflexivity.
Defined.

(** [get] hands out the most recently returned connection of the key that has
    not expired, and drops the expired ones behind it; it misses only when the
    key has none. *)
Theorem pool_get_most_recent p key now queue :
  conns p !! key = Some queue →
  match (get p key now).2 with
  | Some s => ∃ older e newer, queue = older ++ e :: newer ∧ stream e = s
      ∧ expired (pool_config p) now e = false
      ∧ Forall (fun e => expired (pool_config p) now e = true) newer
      ∧ conns (get p key now).1 = <[key := older]> (conns p)
  | None => Forall (fun e => expired (pool_config p) now e = true) queue
      ∧ conns (get p key now).1 = delete key (conns p)
  end.
Proof.
  intros Hl. unfold get. rewrite Hl.
  destruct (pop_loop _ _ _) as [rev [s|]] eqn:Hp; cbn; apply pop_loop_spec in Hp.
  - destruct Hp as (dropped & e & Hrev & Hd & He & <-). exists (reverse rev), e, (reverse dropped).
    split; [by rewrite <- (reverse_involutive queue), Hrev, reverse_app, reverse_cons, <- app_assoc|].
    split; [done|]. split; [done|]. split; [by apply Forall_reverse | done].
  - split; [|done]. by apply Forall_reverse.
Qed.

Lemma pool_get_most_recent_witness :
  let p := put (put (pool_new pool_config_default) ("h", 1) 7 1000) ("h", 1) 8 2000 in
  ∃ older e newer,
    [{| stream := 7; created_at := 1000; last_used := 1000 |};
     {| stream := 8; created_at := 2000; last_used := 2000 |}] = older ++ e :: newer ∧ stream e = 8%nat.
Proof.
  destruct (pool_get_most_recent
    (put (put (pool_new pool_config_default) ("h", 1) 7 1000) ("h", 1) 8 2000) ("h", 1) 3000
    [{| stream := 7; created_at := 1000; last_used := 1000 |};
     {| stream := 8; created_at := 2000; last_used := 2000 |}]) as (older & e & newer & H1 & H2 & _).
  - vm_compute. reflexivity.
  - exists older, e, newer. split; [exact H1 | exact H2].
Defined.
