(* ===== verification/Relay.v ===== *)
(** * The relay ([src/src/proxy/relay.rs])

    The buffer pool and the bidirectional copy between a client and a remote
    stream.  An endpoint is the bytes its peer will still send, the bytes
    written to it and whether its write half was shut down.  A script lists, for
    each turn of the loop, which branch of the [select!] completes, how long
    after the turn began, and how a write that follows it ends; [possible] says
    which scripts the endpoints allow.  Sleeping takes exactly as long as asked.
    The splice and io_uring relays, which no caller reaches, are left out. *)

From S2P Require Import Prelude Traffic.

Local Open Scope Z_scope.

(** ** Buffer pool *)

Definition BUF_SIZE_SMALL : Z := 4 * 1024.
Definition BUF_SIZE : Z := 32 * 1024.
Definition BUF_SIZE_LARGE : Z := 64 * 1024.
Definition POOL_MAX : Z := 512.

(** A [Vec<u8>]: its length and its capacity. *)
Record Buffer := mkBuffer { b_len : Z; b_cap : Z }.
(** [vec![0u8; n]] *)
Definition vec_zeroed (n : Z) : Buffer := mkBuffer n n.

(** The stacks have their top first. *)
Record BufferPool := mkPool {
  small : list Buffer;
  medium : list Buffer;
  large : list Buffer;
  pool_max : Z;
  hits : Z;
  misses : Z
}.
Definition pool_new (capacity : Z) : BufferPool := mkPool [] [] [] capacity 0 0.

Inductive tier := Small | Medium | Large.
Definition stack_of (t : tier) (p : BufferPool) : list Buffer :=
  match t with Small => small p | Medium => medium p | Large => large p end.
Definition set_stack (t : tier) (l : list Buffer) (p : BufferPool) : BufferPool :=
  match t with
  | Small => mkPool l (medium p) (large p) (pool_max p) (hits p) (misses p)
  | Medium => mkPool (small p) l (large p) (pool_max p) (hits p) (misses p)
  | Large => mkPool (small p) (medium p) l (pool_max p) (hits p) (misses p)
  end.
Definition count_hit (p : BufferPool) : BufferPool :=
  mkPool (small p) (medium p) (large p) (pool_max p) (wrap 64 (hits p + 1)) (misses p).
Definition count_miss (p : BufferPool) : BufferPool :=
  mkPool (small p) (medium p) (large p) (pool_max p) (hits p) (wrap 64 (misses p + 1)).

Definition get_tier (size : Z) : tier * Z :=
  if size <=? BUF_SIZE_SMALL then (Small, BUF_SIZE_SMALL)
  else if size <=? BUF_SIZE then (Medium, BUF_SIZE)
  else (Large, BUF_SIZE_LARGE).
Definition get_sized (size : Z) (p : BufferPool) : Buffer * BufferPool :=
  let '(t, alloc_size) := get_tier size in
  match stack_of t p with
  | buf :: rest => (buf, count_hit (set_stack t rest p))
  | [] => (vec_zeroed alloc_size, count_miss p)
  end.
Definition get (p : BufferPool) : Buffer * BufferPool := get_sized BUF_SIZE p.
Definition get_small (p : BufferPool) : Buffer * BufferPool := get_sized BUF_SIZE_SMALL p.
Definition get_large (p : BufferPool) : Buffer * BufferPool := get_sized BUF_SIZE_LARGE p.

Definition put_tier (cap max : Z) : option (tier * Z) :=
  if (cap <=? BUF_SIZE_SMALL * 2) && (BUF_SIZE_SMALL <=? cap) then Some (Small, max / 4)
  else if (cap <=? BUF_SIZE * 4) && (BUF_SIZE <=? cap) then Some (Medium, max)
  else if (cap <=? BUF_SIZE_LARGE * 4) && (BUF_SIZE_LARGE <=? cap) then Some (Large, max / 4)
  else None.
Definition put (buf : Buffer) (p : BufferPool) : BufferPool :=
  match put_tier (b_cap buf) (pool_max p) with
  | None => p
  | Some (t, max_cap) =>
      if Z.of_nat (length (stack_of t p)) <? max_cap
      then set_stack t (buf :: stack_of t p) p else p
  end.
Definition pool_stats (p : BufferPool) : Z * Z := (hits p, misses p).

(** The pool and the buffers taken from it and not yet returned. *)
Inductive pool_step : BufferPool * list Buffer → BufferPool * list Buffer → Prop :=
| step_get size p out buf p' :
    get_sized size p = (buf, p') → pool_step (p, out) (p', buf :: out)
| step_put buf p out1 out2 :
    pool_step (p, out1 ++ buf :: out2) (put buf p, out1 ++ out2)
| step_lose buf p out1 out2 :
    pool_step (p, out1 ++ buf :: out2) (p, out1 ++ out2).

(** ** Endpoints, turns and options *)

Record Endpoint := mkEnd { incoming : bytes; received : bytes; write_shut : bool }.
Definition shutdown (e : Endpoint) : Endpoint := mkEnd (incoming e) (received e) true.
Definition consume (n : nat) (e : Endpoint) : Endpoint :=
  mkEnd (drop n (incoming e)) (received e) (write_shut e).
Definition deliver (data : bytes) (e : Endpoint) : Endpoint :=
  mkEnd (incoming e) (received e ++ data) (write_shut e).

(** [Some n]: [Ok(n)]; [None]: an error. *)
Inductive CopyEvent :=
| ClientRead (r : option nat)
| RemoteRead (r : option nat)
| Cancelled.
(** [wrote]: [None] when the write that follows succeeds, [Some k] when it fails
    after [k] bytes. *)
Record Turn := mkTurn { after : Z; event : CopyEvent; wrote : option nat }.

Record RelayOptions := mkOptions {
  idle_timeout : Z;
  stats : option TrafficStats;
  upload_limiter : option RateLimiter;
  download_limiter : option RateLimiter
}.
(** 300 seconds, in nanoseconds *)
Definition options_default : RelayOptions := mkOptions 300000000000 None None None.

Record Relay := mkRelay {
  client : Endpoint;
  remote : Endpoint;
  up : Z;
  down : Z;
  client_done : bool;
  remote_done : bool;
  opts : RelayOptions;
  now : Z
}.

Inductive ending :=
| Finished (upload download : Z)
| Failed
| Hangs.

(** ** Waiting for tokens *)

Fixpoint wait_for_tokens (fuel : nat) (l : RateLimiter) (remaining now : Z) : option (RateLimiter * Z) :=
  match fuel with
  | O => None
  | S fuel =>
      if 0 <? remaining then
        let '(l, consumed) := try_consume l remaining now in
        let remaining := remaining - consumed in
        if 0 <? remaining then
          let rate := Z.max (max_rate l) 1 in
          let wait_ms := Z.min (Z.max (remaining * 1000 / rate) 1) 100 in
          wait_for_tokens fuel l remaining (now + wait_ms * 1000000)
        else wait_for_tokens fuel l remaining now
      else Some (l, now)
  end.
Definition wait_fuel (n : nat) : nat := S (S n * 1001 + 1).
Definition wait_limiter (l : option RateLimiter) (n : nat) (now : Z)
  : option (option RateLimiter * Z) :=
  match l with
  | None => Some (None, now)
  | Some l =>
      match wait_for_tokens (wait_fuel n) l (Z.of_nat n) now with
      | Some (l, now) => Some (Some l, now)
      | None => None
      end
  end.

(** ** The manual copy loop *)

Definition with_clock (t : Z) (r : Relay) : Relay :=
  mkRelay (client r) (remote r) (up r) (down r) (client_done r) (remote_done r) (opts r) t.
Definition finished (r : Relay) : option ending := Some (Finished (up r) (down r)).

(** [n] bytes from the client, written to the remote. *)
Definition upload_turn (n : nat) (wrote : option nat) (r : Relay) : Relay * option ending :=
  let data := take n (incoming (client r)) in
  let o := opts r in
  match wait_limiter (upload_limiter o) n (now r) with
  | None => (r, Some Hangs)
  | Some (l, t) =>
      let o' := mkOptions (idle_timeout o) (stats o) l (download_limiter o) in
      match wrote with
      | Some k =>
          (mkRelay (consume n (client r)) (deliver (take k data) (remote r)) (up r) (down r)
             (client_done r) (remote_done r) o' t, Some Failed)
      | None =>
          (mkRelay (consume n (client r)) (deliver data (remote r)) (wrap 64 (up r + Z.of_nat n)) (down r)
             (client_done r) (remote_done r)
             (mkOptions (idle_timeout o) ((fun s => add_upload s (Z.of_nat n)) <$> stats o) l
                (download_limiter o)) t, None)
      end
  end.
Definition download_turn (n : nat) (wrote : option nat) (r : Relay) : Relay * option ending :=
  let data := take n (incoming (remote r)) in
  let o := opts r in
  match wait_limiter (download_limiter o) n (now r) with
  | None => (r, Some Hangs)
  | Some (l, t) =>
      let o' := mkOptions (idle_timeout o) (stats o) (upload_limiter o) l in
      match wrote with
      | Some k =>
          (mkRelay (deliver (take k data) (client r)) (consume n (remote r)) (up r) (down r)
             (client_done r) (remote_done r) o' t, Some Failed)
      | None =>
          (mkRelay (deliver data (client r)) (consume n (remote r)) (up r) (wrap 64 (down r + Z.of_nat n))
             (client_done r) (remote_done r)
             (mkOptions (idle_timeout o) ((fun s => add_download s (Z.of_nat n)) <$> stats o)
                (upload_limiter o) l) t, None)
      end
  end.
Definition client_eof (r : Relay) : Relay :=
  mkRelay (client r) (shutdown (remote r)) (up r) (down r) true (remote_done r) (opts r) (now r).
Definition remote_eof (r : Relay) : Relay :=
  mkRelay (shutdown (client r)) (remote r) (up r) (down r) (client_done r) true (opts r) (now r).

Definition copy_turn (t : Turn) (r : Relay) : Relay * option ending :=
  if idle_timeout (opts r) <? after t then
    let r := with_clock (now r + idle_timeout (opts r)) r in (r, finished r)
  else
    let r := with_clock (now r + after t) r in
    match event t with
    | Cancelled => (r, finished r)
    | ClientRead (Some O) => (client_eof r, None)
    | ClientRead (Some n) => upload_turn n (wrote t) r
    | ClientRead None => (r, finished r)
    | RemoteRead (Some O) => (remote_eof r, None)
    | RemoteRead (Some n) => download_turn n (wrote t) r
    | RemoteRead None => (r, finished r)
    end.

(** A script that is over leaves the loop waiting. *)
Fixpoint copy_loop (ts : list Turn) (r : Relay) : Relay * option ending :=
  if client_done r && remote_done r then (r, finished r) else
  match ts with
  | [] => (r, None)
  | t :: ts =>
      match copy_turn t r with
      | (r, None) => copy_loop ts r
      | (r, Some e) => (r, Some e)
      end
  end.

(** ** The two plain copies

    Without statistics or limiters the relay is two [tokio::io::copy] joined,
    under one timeout for the whole of it.  [f_up_res] is how the upload ended,
    [Some true] well. *)

Record Fast := mkFast {
  f_client : Endpoint;
  f_remote : Endpoint;
  f_up : Z;
  f_down : Z;
  f_up_res : option bool;
  f_down_res : option bool;
  f_elapsed : Z
}.
Definition is_some {A} (o : option A) : bool := match o with Some _ => true | None => false end.

Definition fast_event (t : Turn) (f : Fast) : Fast :=
  match event t with
  | Cancelled => f
  | ClientRead (Some O) =>
      mkFast (f_client f) (shutdown (f_remote f)) (f_up f) (f_down f) (Some true) (f_down_res f) (f_elapsed f)
  | ClientRead (Some n) =>
      let data := take n (incoming (f_client f)) in
      match wrote t with
      | None => mkFast (consume n (f_client f)) (deliver data (f_remote f)) (wrap 64 (f_up f + Z.of_nat n))
                  (f_down f) (f_up_res f) (f_down_res f) (f_elapsed f)
      | Some k => mkFast (consume n (f_client f)) (deliver (take k data) (f_remote f)) (f_up f)
                    (f_down f) (Some false) (f_down_res f) (f_elapsed f)
      end
  | ClientRead None =>
      mkFast (f_client f) (f_remote f) (f_up f) (f_down f) (Some false) (f_down_res f) (f_elapsed f)
  | RemoteRead (Some O) =>
      mkFast (shutdown (f_client f)) (f_remote f) (f_up f) (f_down f) (f_up_res f) (Some true) (f_elapsed f)
  | RemoteRead (Some n) =>
      let data := take n (incoming (f_remote f)) in
      match wrote t with
      | None => mkFast (deliver data (f_client f)) (consume n (f_remote f)) (f_up f)
                  (wrap 64 (f_down f + Z.of_nat n)) (f_up_res f) (f_down_res f) (f_elapsed f)
      | Some k => mkFast (deliver (take k data) (f_client f)) (consume n (f_remote f)) (f_up f)
                    (f_down f) (f_up_res f) (Some false) (f_elapsed f)
      end
  | RemoteRead None =>
      mkFast (f_client f) (f_remote f) (f_up f) (f_down f) (f_up_res f) (Some false) (f_elapsed f)
  end.

Fixpoint fast_loop (idle : Z) (ts : list Turn) (f : Fast) : Fast * option ending :=
  match f_up_res f, f_down_res f with
  | Some true, Some true => (f, Some (Finished (f_up f) (f_down f)))
  | Some _, Some _ => (f, Some Failed)
  | _, _ =>
      match ts with
      | [] => (f, None)
      | t :: ts =>
          let elapsed := f_elapsed f + after t in
          if idle <? elapsed then (f, Some (Finished 0 0)) else
          match event t with
          | Cancelled => (f, Some (Finished 0 0))
          | _ => fast_loop idle ts
                   (fast_event t (mkFast (f_client f) (f_remote f) (f_up f) (f_down f) (f_up_res f)
                                    (f_down_res f) elapsed))
          end
      end
  end.

(** ** Entry points *)

Definition start (o : RelayOptions) (c r : Endpoint) (t : Z) : Relay := mkRelay c r 0 0 false false o t.

(** Both ends as the relay leaves them, how it ended and the pool.  Without
    statistics and limiters the plain copies run, otherwise the manual loop. *)
Definition relay_with_options (o : RelayOptions) (ts : list Turn) (c r : Endpoint) (t : Z) (p : BufferPool)
  : Endpoint * Endpoint * option ending * BufferPool :=
  if negb (is_some (upload_limiter o)) && negb (is_some (download_limiter o)) && negb (is_some (stats o)) then
    let '(f, e) := fast_loop (idle_timeout o) ts (mkFast c r 0 0 None None 0) in
    (f_client f, f_remote f, e, p)
  else
    let '(buf_a, p) := get p in
    let '(buf_b, p) := get p in
    let '(s, e) := copy_loop ts (start o c r t) in
    (client s, remote s, e,
     match e with Some (Finished _ _) => put buf_b (put buf_a p) | _ => p end).
Definition relay (ts : list Turn) (c r : Endpoint) (t : Z) (p : BufferPool) :=
  relay_with_options options_default ts c r t p.
Definition relay_proxy_streams (c r : Endpoint) (o : RelayOptions) (ts : list Turn) (t : Z) (p : BufferPool) :=
  relay_with_options o ts c r t p.

(** ** The scripts two endpoints allow

    Reads return what is there, at most a buffer of it, and zero only at the end
    of the stream; a finished direction is not read again. *)

Definition read_ok (done : bool) (e : Endpoint) (n : nat) : bool :=
  negb done && (Z.of_nat n <=? BUF_SIZE) && (n <=? length (incoming e))%nat
  && (negb (n =? 0)%nat || (length (incoming e) =? 0)%nat).
Definition turn_ok (t : Turn) (c_done r_done : bool) (c r : Endpoint) : bool :=
  (0 <=? after t) &&
  match event t with
  | ClientRead (Some n) => read_ok c_done c n
  | RemoteRead (Some n) => read_ok r_done r n
  | ClientRead None => negb c_done
  | RemoteRead None => negb r_done
  | Cancelled => true
  end.
Fixpoint possible (ts : list Turn) (r : Relay) : bool :=
  match ts with
  | [] => true
  | t :: ts =>
      (client_done r && remote_done r)
      || (turn_ok t (client_done r) (remote_done r) (client r) (remote r)
          && match copy_turn t r with (r, None) => possible ts r | _ => true end)
  end.
(** No error, no cancellation and no silence longer than the timeout. *)
Definition undisturbed (idle : Z) (t : Turn) : bool :=
  (after t <=? idle)
  && match event t with ClientRead (Some _) | RemoteRead (Some _) => true | _ => false end
  && negb (is_some (wrote t)).

(** ** Lemmas *)

(** What has been moved from the start [s0] to [s], with [lost_up] and
    [lost_down] read but not written. *)
Record moved (s0 s : Relay) (lost_up lost_down : bytes) : Prop := {
  mv_up : received (remote s0) ++ incoming (client s0)
          = received (remote s) ++ lost_up ++ incoming (client s);
  mv_down : received (client s0) ++ incoming (remote s0)
            = received (client s) ++ lost_down ++ incoming (remote s)
}.
(** The counters, the statistics and the half closes of a relay under way. *)
Record counted (s0 s : Relay) : Prop := {
  ct_pos : 0 <= up s ∧ 0 <= down s;
  ct_up : up s = len (received (remote s)) - len (received (remote s0));
  ct_down : down s = len (received (client s)) - len (received (client s0));
  ct_stats : stats (opts s)
             = (fun x => {| upload := wrap 64 (upload x + up s); download := wrap 64 (download x + down s) |})
               <$> stats (opts s0);
  ct_client : client_done s = true → incoming (client s) = [] ∧ write_shut (remote s) = true;
  ct_remote : remote_done s = true → incoming (remote s) = [] ∧ write_shut (client s) = true
}.
Definition small_enough (s0 : Relay) : Prop :=
  len (incoming (client s0)) < 2 ^ 64 ∧ len (incoming (remote s0)) < 2 ^ 64.

(** The counters do not wrap. *)
Lemma counted_up s0 s n :
  small_enough s0 → moved s0 s [] [] → counted s0 s → (n <= length (incoming (client s)))%nat →
  wrap 64 (up s + Z.of_nat n) = up s + Z.of_nat n.
Proof.
  intros [Hc _] [Hm _] [Hpos Hu _ _ _ _] Hn. apply wrap_small. unfold in_width.
  apply (f_equal length) in Hm. rewrite !length_app in Hm. unfold len in *. simpl in Hm. lia.
Qed.
Lemma counted_down s0 s n :
  small_enough s0 → moved s0 s [] [] → counted s0 s → (n <= length (incoming (remote s)))%nat →
  wrap 64 (down s + Z.of_nat n) = down s + Z.of_nat n.
Proof.
  intros [_ Hc] [_ Hm] [Hpos _ Hu _ _ _] Hn. apply wrap_small. unfold in_width.
  apply (f_equal length) in Hm. rewrite !length_app in Hm. unfold len in *. simpl in Hm. lia.
Qed.

(** How a turn ends: the loop goes on with the invariant, or it stops. *)
Definition turn_post (s0 s : Relay) (e : option ending) : Prop :=
  match e with
  | None | Some Hangs => moved s0 s [] [] ∧ counted s0 s
  | Some (Finished u d) => moved s0 s [] [] ∧ counted s0 s ∧ u = up s ∧ d = down s
  | Some Failed => ∃ lu ld, moved s0 s lu ld
  end.

Lemma upload_turn_post s0 s n w :
  small_enough s0 → moved s0 s [] [] → counted s0 s → read_ok (client_done s) (client s) n = true →
  let '(s', e) := upload_turn n w s in turn_post s0 s' e.
Proof.
  intros Hs Hm Hc Hr. unfold read_ok in Hr. rewrite !andb_true_iff, negb_true_iff in Hr.
  destruct Hr as [[[Hd _] Hn] _]. apply Nat.leb_le in Hn.
  unfold upload_turn. destruct (wait_limiter _ _ _) as [[l t]|]; [|done].
  pose proof (counted_up _ _ _ Hs Hm Hc Hn) as Hw. destruct Hm as [M1 M2], Hc as [P U D S C R].
  destruct w as [k|]; simpl.
  - exists (drop k (take n (incoming (client s)))), []. split; simpl; [|done].
    rewrite M1. simpl. rewrite <- app_assoc. f_equal. by rewrite (app_assoc (take k _)), take_drop, take_drop.
  - rewrite Hw. split; [split|split]; simpl.
    + by rewrite M1, <- app_assoc, take_drop.
    + done.
    + lia.
    + unfold len in *. rewrite length_app, length_take. lia.
    + done.
    + rewrite S. destruct (stats (opts s0)); simpl; [|done].
      unfold add_upload. simpl. by rewrite wrap_add_l, Z.add_assoc.
    + rewrite Hd. done.
    + done.
Qed.
Lemma download_turn_post s0 s n w :
  small_enough s0 → moved s0 s [] [] → counted s0 s → read_ok (remote_done s) (remote s) n = true →
  let '(s', e) := download_turn n w s in turn_post s0 s' e.
Proof.
  intros Hs Hm Hc Hr. unfold read_ok in Hr. rewrite !andb_true_iff, negb_true_iff in Hr.
  destruct Hr as [[[Hd _] Hn] _]. apply Nat.leb_le in Hn.
  unfold download_turn. destruct (wait_limiter _ _ _) as [[l t]|]; [|done].
  pose proof (counted_down _ _ _ Hs Hm Hc Hn) as Hw. destruct Hm as [M1 M2], Hc as [P U D S C R].
  destruct w as [k|]; simpl.
  - exists [], (drop k (take n (incoming (remote s)))). split; simpl; [done|].
    rewrite M2. simpl. rewrite <- app_assoc. f_equal. by rewrite (app_assoc (take k _)), take_drop, take_drop.
  - rewrite Hw. split; [split|split]; simpl.
    + done.
    + by rewrite M2, <- app_assoc, take_drop.
    + lia.
    + done.
    + unfold len in *. rewrite length_app, length_take. lia.
    + rewrite S. destruct (stats (opts s0)); simpl; [|done].
      unfold add_download. simpl. by rewrite wrap_add_l, Z.add_assoc.
    + done.
    + rewrite Hd. done.
Qed.

Lemma read_zero done e : read_ok done e 0 = true → incoming e = [].
Proof.
  unfold read_ok. rewrite !andb_true_iff. simpl. intros [_ H]. apply Nat.eqb_eq in H. by apply nil_length_inv.
Qed.

Lemma copy_turn_post s0 s t :
  small_enough s0 → moved s0 s [] [] → counted s0 s →
  turn_ok t (client_done s) (remote_done s) (client s) (remote s) = true →
  let '(s', e) := copy_turn t s in turn_post s0 s' e.
Proof.
  intros Hs Hm Hc Ht. unfold turn_ok in Ht. apply andb_true_iff in Ht as [_ Ht].
  assert (Hclk : ∀ z, moved s0 (with_clock z s) [] [] ∧ counted s0 (with_clock z s)).
  { intros z. destruct Hm, Hc. split; by split. }
  unfold copy_turn. destruct (_ <? _); [destruct (Hclk (now s + idle_timeout (opts s))); done|].
  destruct (Hclk (now s + after t)) as [Hm' Hc'].
  destruct (event t) as [[[|n]|]|[[|n]|]|]; try done.
  - apply read_zero in Ht. destruct Hm' as [? ?], Hc' as [P ? ? ? ? ?]. split; split; simpl; try done.
  - by apply upload_turn_post.
  - apply read_zero in Ht. destruct Hm' as [? ?], Hc' as [P ? ? ? ? ?]. split; split; simpl; try done.
  - by apply download_turn_post.
Qed.

Lemma copy_loop_post s0 s ts :
  small_enough s0 → moved s0 s [] [] → counted s0 s → possible ts s = true →
  let '(s', e) := copy_loop ts s in turn_post s0 s' e.
Proof.
  intros Hs. revert s. induction ts as [|t ts IH]; intros s Hm Hc Hp; simpl in *.
  { by destruct (_ && _). }
  destruct (client_done s && remote_done s); [done|]. simpl in Hp.
  apply andb_true_iff in Hp as [Ht Hp]. pose proof (copy_turn_post _ _ _ Hs Hm Hc Ht) as Hpost.
  destruct (copy_turn t s) as [s' [e|]]; [done|]. destruct Hpost. by apply IH.
Qed.

Lemma start_inv o c r t : moved (start o c r t) (start o c r t) [] [] ∧ 
  (∀ x, stats o = Some x → u64_ok (upload x) ∧ u64_ok (download x)) → counted (start o c r t) (start o c r t).
Proof.
  intros [_ Hx]. split; simpl; try lia; try done. destruct (stats o) as [[u d]|]; simpl; [|done].
  destruct (Hx _ eq_refl) as [H1 H2]. simpl in *. by rewrite !Z.add_0_r, !wrap_small.
Qed.

(** The turns a relay still needs when nothing disturbs it. *)
Definition turns_left (s : Relay) : nat :=
  length (incoming (client s)) + length (incoming (remote s))
  + (if client_done s then 0 else 1) + (if remote_done s then 0 else 1).
Definition unlimited (o : RelayOptions) : Prop := upload_limiter o = None ∧ download_limiter o = None.

Lemma copy_turn_progress s t :
  unlimited (opts s) → undisturbed (idle_timeout (opts s)) t = true →
  turn_ok t (client_done s) (remote_done s) (client s) (remote s) = true →
  ∃ s', copy_turn t s = (s', None) ∧ (turns_left s' < turns_left s)%nat
        ∧ unlimited (opts s') ∧ idle_timeout (opts s') = idle_timeout (opts s).
Proof.
  intros [Hu Hd] Hq Ht. unfold undisturbed in Hq. rewrite !andb_true_iff in Hq. destruct Hq as [[Ha He] Hw].
  unfold turn_ok in Ht. apply andb_true_iff in Ht as [_ Ht]. apply Z.leb_le in Ha.
  unfold copy_turn. rewrite (proj2 (Z.ltb_ge _ _)) by done. destruct (wrote t); [done|].
  destruct (event t) as [[[|n]|]|[[|n]|]|]; try done;
    unfold read_ok in Ht; rewrite !andb_true_iff, negb_true_iff in Ht; destruct Ht as [[[Hdn _] Hn] _].
  - eexists. split; [done|]. unfold turns_left. simpl. rewrite Hdn. split; [lia|done].
  - unfold upload_turn. simpl. rewrite Hu. simpl. eexists. split; [done|]. unfold turns_left. simpl.
    apply Nat.leb_le in Hn. rewrite length_drop. split; [lia|]. done.
  - eexists. split; [done|]. unfold turns_left. simpl. rewrite Hdn. split; [lia|done].
  - unfold download_turn. simpl. rewrite Hd. simpl. eexists. split; [done|]. unfold turns_left. simpl.
    apply Nat.leb_le in Hn. rewrite length_drop. split; [lia|]. done.
Qed.

Lemma copy_loop_ends s ts :
  unlimited (opts s) → possible ts s = true → forallb (undisturbed (idle_timeout (opts s))) ts = true →
  (turns_left s <= length ts)%nat →
  ∃ s', copy_loop ts s = (s', finished s') ∧ client_done s' = true ∧ remote_done s' = true.
Proof.
  revert s. induction ts as [|t ts IH]; intros s Hu Hp Hq Hl; simpl in *.
  - unfold turns_left in Hl. destruct (client_done s) eqn:E1, (remote_done s) eqn:E2; try lia.
    exists s. by repeat split.
  - destruct (client_done s) eqn:E1, (remote_done s) eqn:E2; simpl in *; try (by exists s);
      apply andb_true_iff in Hp as [Ht Hp]; apply andb_true_iff in Hq as [Hq1 Hq2];
      assert (turn_ok t (client_done s) (remote_done s) (client s) (remote s) = true) as Ht' by (by rewrite E1, E2);
      destruct (copy_turn_progress s t Hu Hq1 Ht') as (s'&Hs&Hlt&Hu'&Hi);
      rewrite Hs in *; rewrite <- Hi in Hq2; apply IH; try done; lia.
Qed.

Lemma relay_runs_loop o ts c r t p :
  is_some (stats o) || is_some (upload_limiter o) || is_some (download_limiter o) = true →
  (relay_with_options o ts c r t p).1
  = (client (copy_loop ts (start o c r t)).1, remote (copy_loop ts (start o c r t)).1, (copy_loop ts (start o c r t)).2).
Proof.
  intros Ho. unfold relay_with_options.
  rewrite <- !negb_orb, (orb_comm _ (is_some (stats o))), orb_assoc, Ho. cbn [negb].
  destruct (get p) as [ba p1]. destruct (get p1) as [bb p2]. by destruct (copy_loop _ _).
Qed.

(** ** Theorems *)

(** C4: the copy loop that the relay runs when it has statistics or a limiter (the
    dispatcher always passes statistics) keeps the bytes: whatever branches
    complete in whatever order, with cancellations, timeouts and errors, it writes
    each side exactly the bytes read from the other, in order and without loss
    unless a write fails; unless a write fails, its counters and the shared
    statistics are the bytes it wrote, a direction that is done has delivered
    everything and half-closed the other side, and a result it returns is its
    counters.  The relay with such options ends as this loop does.  The plain copies
    that run without statistics and limiters are not covered: cut off, they report
    no bytes. *)
Theorem relay_keeps_order o ts c r t s e :
  len (incoming c) < 2 ^ 64 → len (incoming r) < 2 ^ 64 →
  (∀ x, stats o = Some x → u64_ok (upload x) ∧ u64_ok (download x)) →
  possible ts (start o c r t) = true →
  copy_loop ts (start o c r t) = (s, e) →
  (∃ lost_up lost_down,
    received r ++ incoming c = received (remote s) ++ lost_up ++ incoming (client s)
    ∧ received c ++ incoming r = received (client s) ++ lost_down ++ incoming (remote s)
    ∧ (e ≠ Some Failed → lost_up = [] ∧ lost_down = []))
  ∧ (e ≠ Some Failed →
     up s = len (received (remote s)) - len (received r)
     ∧ down s = len (received (client s)) - len (received c)
     ∧ stats (opts s) = (fun x => {| upload := wrap 64 (upload x + up s);
                                      download := wrap 64 (download x + down s) |}) <$> stats o
     ∧ (client_done s = true → incoming (client s) = [] ∧ write_shut (remote s) = true)
     ∧ (remote_done s = true → incoming (remote s) = [] ∧ write_shut (client s) = true))
  ∧ (∀ u d, e = Some (Finished u d) → u = up s ∧ d = down s)
  ∧ (is_some (stats o) || is_some (upload_limiter o) || is_some (download_limiter o) = true →
     ∀ p, (relay_with_options o ts c r t p).1 = (client s, remote s, e)).
Proof.
  intros H1 H2 Hx Hp Hl.
  pose proof (fun Ho p => relay_runs_loop o ts c r t p Ho) as Hrun. rewrite Hl in Hrun.
  pose proof (copy_loop_post (start o c r t) (start o c r t) ts) as Hpost. rewrite Hl in Hpost.
  specialize (Hpost (conj H1 H2) ltac:(done) ltac:(by apply start_inv) Hp).
  destruct e as [[u d| |]|]; simpl in Hpost;
    first [destruct Hpost as (M&C&->&->)|destruct Hpost as (lu&ld&M)|destruct Hpost as (M&C)];
    destruct M as [M1 M2]; simpl in M1, M2.
  2: { split; [by exists lu, ld|]. by split_and!. }
  all: split; [by exists [], []|]; destruct C as [P U D S C R]; simpl in *; split; [done|]; split; [|done];
    intros ?? [= <- <-]; done.
Qed.

Lemma relay_ends_well idle x c r t ts :
  len (incoming c) < 2 ^ 64 → len (incoming r) < 2 ^ 64 → u64_ok (upload x) → u64_ok (download x) →
  let s := start (mkOptions idle (Some x) None None) c r t in
  possible ts s = true → forallb (undisturbed idle) ts = true →
  (length (incoming c) + length (incoming r) + 2 <= length ts)%nat →
  ∀ p, (relay_with_options (mkOptions idle (Some x) None None) ts c r t p).1
  = (mkEnd [] (received c ++ incoming r) true, mkEnd [] (received r ++ incoming c) true,
     Some (Finished (len (incoming c)) (len (incoming r)))).
Proof.
  intros H1 H2 Hx1 Hx2 s Hp Hq Hl p.
  destruct (copy_loop_ends s ts) as (s'&Hs&Hc&Hr); [done|done|done|unfold turns_left; simpl; lia|].
  pose proof (copy_loop_post s s ts (conj H1 H2) ltac:(done)) as Hpost. rewrite Hs in Hpost.
  destruct Hpost as ([M1 M2]&[P U D S C R]&_&_);
    [by apply start_inv; split; [|intros ? [= <-]]|done|]. simpl in M1, M2.
  destruct (C Hc) as [Hi1 Hs1], (R Hr) as [Hi2 Hs2]. rewrite Hi1 in M1. rewrite Hi2 in M2. rewrite app_nil_r in M1, M2.
  unfold relay_with_options, is_some. cbn [upload_limiter download_limiter stats negb andb].
  destruct (get p) as [ba p1]. destruct (get p1) as [bb p2]. fold s. rewrite Hs.
  unfold finished. cbn [fst]. destruct (client s') as [ci cr cw] eqn:E1, (remote s') as [ri rr rw] eqn:E2. simpl in *.
  subst ci ri cw rw. subst s. simpl in *. rewrite M1, M2. f_equal. f_equal. f_equal; unfold len in *.
  - rewrite U, <- M1, length_app. simpl. lia.
  - rewrite D, <- M2, length_app. simpl. lia.
Qed.

(** C10: a relay with statistics and without limiters, which is how the dispatcher
    runs every relay, and that nothing disturbs (no read or write error, no
    cancellation, no silence beyond the timeout) ends after at most one turn per byte and two
    more, with everything either side sent delivered to the other, both write
    halves shut down, and the byte counts as its result. *)
Theorem relay_completes idle x c r t ts :
  len (incoming c) < 2 ^ 64 → len (incoming r) < 2 ^ 64 → u64_ok (upload x) → u64_ok (download x) →
  let s := start (mkOptions idle (Some x) None None) c r t in
  possible ts s = true → forallb (undisturbed idle) ts = true →
  (length (incoming c) + length (incoming r) + 2 <= length ts)%nat →
  ∀ p, (relay_with_options (mkOptions idle (Some x) None None) ts c r t p).1
  = (mkEnd [] (received c ++ incoming r) true, mkEnd [] (received r ++ incoming c) true,
     Some (Finished (len (incoming c)) (len (incoming r)))).
Proof. apply relay_ends_well. Qed.

(** *** The plain copies *)

(** A client that sends a byte at every [idle]. *)
Definition drip (idle : Z) (n : nat) : list Turn := replicate n (mkTurn idle (ClientRead (Some 1%nat)) None).

Lemma copy_loop_drip idle x n c r s :
  opts s = mkOptions idle (Some x) None None → client_done s = false →
  client s = c → remote s = r → length (incoming c) = n →
  ∃ s', copy_loop (drip idle n) s = (s', None) ∧ received (remote s') = received r ++ incoming c.
Proof.
  revert x c r s. induction n as [|n IH]; intros x c r s Ho Hd Hc Hr Hn.
  { destruct (incoming c) eqn:E; [|done]. simpl. rewrite Hd. simpl. exists s. by rewrite Hr, app_nil_r. }
  destruct c as [[|b inc] rc w]; [done|]. simpl in Hn. cbn [drip replicate copy_loop]. rewrite Hd. cbn [andb].
  unfold copy_turn at 1. rewrite Ho. cbn [idle_timeout after event wrote]. rewrite Z.ltb_irrefl.
  unfold upload_turn. cbn [with_clock opts client remote now up down client_done remote_done]. rewrite Ho, Hc.
  cbn [upload_limiter wait_limiter incoming take].
  edestruct (IH (add_upload x 1) (mkEnd inc rc w) (deliver [b] r)) as (s'&Hs&Hrec);
    [..|exists s'; split; [exact Hs|rewrite Hrec; cbn [deliver received incoming]; by rewrite <- app_assoc]];
    cbn; try done; try lia. by rewrite Hr.
Qed.

(** Without statistics or limiters the timeout covers the whole relay, not
    the silence: a client that never pauses longer than the timeout is cut off
    after its first byte and zero bytes are reported, where the loop with
    statistics passes everything on. *)
Theorem relay_plain_cuts_active idle x c r t p :
  0 < idle → (2 <= length (incoming c))%nat → 
  let ts := drip idle (length (incoming c)) in
  (relay_with_options (mkOptions idle None None None) ts c r t p).1
  = (mkEnd (drop 1 (incoming c)) (received c) (write_shut c),
     mkEnd (incoming r) (received r ++ take 1 (incoming c)) (write_shut r), Some (Finished 0 0))
  ∧ ∃ c', (relay_with_options (mkOptions idle (Some x) None None) ts c r t p).1.1.2 = c'
          ∧ received c' = received r ++ incoming c.
Proof.
  intros Hi Hn ts. destruct c as [[|b1 [|b2 inc]] rc w]; simpl in Hn; try lia. split.
  - unfold relay_with_options, ts. cbn [is_some upload_limiter download_limiter stats negb andb idle_timeout].
    cbn [incoming length drip replicate fast_loop f_up_res f_down_res f_elapsed after event].
    rewrite Z.add_0_l, Z.ltb_irrefl. cbn [fast_event event wrote f_up_res f_down_res f_elapsed].
    rewrite (proj2 (Z.ltb_lt idle (idle + idle))) by lia. cbn. by destruct r.
  - unfold relay_with_options. cbn [is_some upload_limiter download_limiter stats negb andb].
    destruct (get p) as [ba p1]. destruct (get p1) as [bb p2].
    destruct (copy_loop_drip idle x (length (incoming (mkEnd (b1 :: b2 :: inc) rc w))) (mkEnd (b1 :: b2 :: inc) rc w) r
      (start (mkOptions idle (Some x) None None) (mkEnd (b1 :: b2 :: inc) rc w) r t)) as (s'&Hs&Hrec); try done.
    fold ts in Hs. rewrite Hs. cbn. eauto.
Qed.

(** *** Waiting for tokens *)

Lemma refill_progress l now :
  limiter_ok l → in_range l now → 1 <= refill_rate l → 1 <= max_tokens l →
  tokens (refill l now) = 0 → (now - last_refill l) / 1000000 < 1000 ∧ last_refill (refill l now) = last_refill l.
Proof.
  intros [Ht Hr Hm] (Hn & Hp & He) H1 H2. unfold refill, saturating_sub. rewrite Z.max_l by lia.
  set (d := now - last_refill l) in *.
  assert (Hms : 0 <= d / 1000000 /\ 1000000 * (d / 1000000) <= d).
  { split; [apply Z.div_pos; lia | apply Z.mul_div_le; lia]. }
  rewrite (to_i64_small (d / 1000000)) by lia.
  assert (Hprod : 0 <= d / 1000000 * refill_rate l < 2 ^ 62) by nia.
  rewrite (to_i64_small (_ * _)) by lia. rewrite Z.quot_div_nonneg by lia.
  assert (Hk : 1000 <= d / 1000000 → 0 < d / 1000000 * refill_rate l / 1000).
  { intros. apply Z.div_str_pos. nia. }
  assert (0 <= d / 1000000 * refill_rate l / 1000 <= d / 1000000 * refill_rate l).
  { split; [apply Z.div_pos; lia|]. apply Z.div_le_upper_bound; lia. }
  destruct (Z.ltb_spec 0 (d / 1000000 * refill_rate l / 1000)).
  - cbn. rewrite to_i64_small by lia. lia.
  - intros _. split; [|done]. lia.
Qed.

(** Sleeps left: a token comes after at most a thousand of them. *)
Definition sleeps (l : RateLimiter) (remaining now : Z) : Z :=
  remaining * 1001 + Z.max 0 (1000 - (now - last_refill l) / 1000000).

Lemma wait_ends fuel l remaining now horizon :
  limiter_ok l → 1 <= refill_rate l → 1 <= max_tokens l →
  0 <= remaining < 2 ^ 62 → last_refill l <= now →
  sleeps l remaining now + 1 < Z.of_nat fuel →
  now + (sleeps l remaining now) * 100000000 <= horizon →
  (horizon - last_refill l) * refill_rate l < 2 ^ 62 * 1000000 → horizon - last_refill l < 2 ^ 62 →
  ∃ l' now', wait_for_tokens fuel l remaining now = Some (l', now') ∧ limiter_ok l'.
Proof.
  revert l remaining now. induction fuel as [|fuel IH]; intros l remaining now Hok Hr Hm Hrem Hlast Hf Hh Hp He.
  { unfold sleeps in Hf. lia. }
  cbn [wait_for_tokens]. destruct (Z.ltb_spec 0 remaining) as [Hpos|Hz]; [|by eexists _, _].
  assert (Hs : 0 <= sleeps l remaining now) by (unfold sleeps; lia).
  assert (Hin : in_range l now).
  { split; [done|]. assert ((now - last_refill l) * refill_rate l <= (horizon - last_refill l) * refill_rate l)
      by (apply Z.mul_le_mono_nonneg_r; lia). lia. }
  pose proof (try_consume_ok l remaining now Hok Hin ltac:(unfold in_width; lia)) as Hc.
  destruct (try_consume l remaining now) as [l1 got] eqn:E.
  destruct Hc as (Hok1 & Hm1 & Hr1 & Hl1 & Hgot & _).
  assert (Hprog : 0 < got ∨ ((now - last_refill l) / 1000000 < 1000 ∧ last_refill l1 = last_refill l)).
  { destruct (Z.eq_dec got 0) as [->|]; [right|left; lia].
    pose proof (refill_progress l now Hok Hin Hr Hm) as Hrp. destruct (refill_ok l now Hok Hin) as ([Ht _ _]&_).
    unfold try_consume in E. injection E as El Eg. rewrite to_i64_small in Eg by lia.
    assert (tokens (refill l now) = 0) as Hz by lia. rewrite Hz in El.
    rewrite (to_i64_small remaining), (Z.min_r remaining 0) in El by lia. simpl in El. subst l1. by apply Hrp. }
  assert (Hmono : ∀ w, 0 <= w → (now + w - last_refill l1) / 1000000 >= 0).
  { intros. apply Z.le_ge, Z.div_pos; lia. }
  destruct (Z.ltb_spec 0 (remaining - got)) as [Hmore|Hdone].
  - set (w := Z.min _ 100). assert (1 <= w <= 100) by lia.
    assert (Hdec : sleeps l1 (remaining - got) (now + w * 1000000) + 1 <= sleeps l remaining now).
    { unfold sleeps. specialize (Hmono (w * 1000000)). destruct Hprog as [Hg|[Hg El]].
      - specialize (Hmono ltac:(lia)). lia.
      - rewrite El. replace (now + w * 1000000 - last_refill l) with (now - last_refill l + w * 1000000) by lia.
        rewrite Z.div_add by lia. lia. }
    apply IH; rewrite ?Hm1, ?Hr1; try done; try lia.
    assert ((horizon - last_refill l1) * refill_rate l <= (horizon - last_refill l) * refill_rate l)
      by (apply Z.mul_le_mono_nonneg_r; lia). lia.
  - destruct fuel as [|fuel]; [unfold sleeps in Hf; lia|]. cbn [wait_for_tokens].
    rewrite (proj2 (Z.ltb_ge 0 (remaining - got))) by lia. by eexists _, _.
Qed.

(** C40: a throttled direction is only delayed: with a rate of at least one byte
    per second the wait before a write ends within a thousand sleeps per byte and
    leaves a consistent bucket; with a rate of zero it never ends. *)
Theorem throttle_terminates l n now :
  limiter_ok l → last_refill l <= now →
  (1 <= refill_rate l → 1 <= max_tokens l →
   in_range l (now + (Z.of_nat n * 1001 + 1000) * 100000000) →
   ∃ l' now', wait_limiter (Some l) n now = Some (Some l', now') ∧ limiter_ok l')
  ∧ (tokens l = 0 → refill_rate l = 0 → (0 < n)%nat → Z.of_nat n < 2 ^ 62 →
     ∀ fuel, wait_for_tokens fuel l (Z.of_nat n) now = None).
Proof.
  intros Hok Hlast. split.
  - intros Hr Hm (_&Hp&He). unfold wait_limiter.
    assert (0 <= (now - last_refill l) / 1000000) by (apply Z.div_pos; lia).
    set (h := now + (Z.of_nat n * 1001 + 1000) * 100000000) in *.
    destruct (wait_ends (wait_fuel n) l (Z.of_nat n) now h) as (l'&now'&->&?); eauto;
      unfold sleeps, wait_fuel; lia.
  - intros Ht Hr Hn Hb fuel. revert now Hlast. induction fuel as [|fuel IH]; intros now Hlast; [done|].
    cbn [wait_for_tokens]. rewrite (proj2 (Z.ltb_lt _ _)) by lia.
    assert (refill l now = l) as Hl.
    { unfold refill. rewrite Hr, Z.mul_0_r. done. }
    unfold try_consume. rewrite Hl, Ht, to_i64_small by lia. rewrite Z.min_r by lia. cbn [Z.max Z.ltb Z.compare].
    rewrite Z.sub_0_r, (proj2 (Z.ltb_lt _ _)) by lia. apply IH. lia.
Qed.

(** *** The pool *)

Definition buffer_of (sizes : list Z) (b : Buffer) : Prop := b_len b = b_cap b ∧ b_cap b ∈ sizes.
Record pool_inv (cap : Z) (x : BufferPool * list Buffer) : Prop := {
  pi_max : pool_max x.1 = cap;
  pi_small : Forall (buffer_of [BUF_SIZE_SMALL]) (small x.1) ∧ Z.of_nat (length (small x.1)) <= cap / 4;
  pi_medium : Forall (buffer_of [BUF_SIZE; BUF_SIZE_LARGE]) (medium x.1) ∧ Z.of_nat (length (medium x.1)) <= cap;
  pi_large : large x.1 = [];
  pi_out : Forall (buffer_of [BUF_SIZE_SMALL; BUF_SIZE; BUF_SIZE_LARGE]) x.2
}.

Lemma buffer_of_sub l l' b : l ⊆ l' → buffer_of l b → buffer_of l' b.
Proof. intros H [? ?]. split; [done|]. set_solver. Qed.

Lemma get_sized_spec cap size p out buf p' :
  pool_inv cap (p, out) → get_sized size p = (buf, p') →
  pool_inv cap (p', buf :: out) ∧ (size <= BUF_SIZE_LARGE → size <= b_len buf)
  ∧ (BUF_SIZE < size → hits p' = hits p ∧ misses p' = wrap 64 (misses p + 1)).
Proof.
  intros [Hm [Hs Hsl] [Hd Hdl] Hl Ho] Hg. unfold get_sized, get_tier in Hg. simpl in *.
  change BUF_SIZE_SMALL with 4096 in *. change BUF_SIZE with 32768 in *. change BUF_SIZE_LARGE with 65536 in *.
  destruct (Z.leb_spec size 4096); [|destruct (Z.leb_spec size 32768)]; cbn [stack_of] in Hg.
  - destruct (small p) as [|b l] eqn:E; injection Hg as <- <-.
    + split; [|simpl; lia]. split; simpl; rewrite ?E; try done. constructor; [|done]. split; simpl; [done|set_solver].
    + apply Forall_cons in Hs as [Hb Hs]. split; [|destruct Hb as [-> Hb%list_elem_of_singleton]; rewrite Hb; lia].
      split; simpl in *; try done; [split; [done|lia]|]. constructor; [|done]. eapply buffer_of_sub, Hb. set_solver.
  - destruct (medium p) as [|b l] eqn:E; injection Hg as <- <-.
    + split; [|simpl; lia]. split; simpl; rewrite ?E; try done. constructor; [|done]. split; simpl; [done|set_solver].
    + apply Forall_cons in Hd as [Hb Hd]. split.
      * split; simpl in *; try done; [split; [done|lia]|]. constructor; [|done]. eapply buffer_of_sub, Hb. set_solver.
      * destruct Hb as [-> Hb]. split; [|lia]. intros _. apply elem_of_cons in Hb as [Hb|Hb%list_elem_of_singleton]; lia.
  - rewrite Hl in Hg. injection Hg as <- <-. split; [|simpl; lia].
    split; simpl; rewrite ?Hl; try done. constructor; [|done]. split; simpl; [done|set_solver].
Qed.

Lemma put_spec cap buf p out :
  0 <= cap → pool_inv cap (p, out) → buffer_of [BUF_SIZE_SMALL; BUF_SIZE; BUF_SIZE_LARGE] buf →
  pool_inv cap (put buf p, out).
Proof.
  intros Hc [Hm [Hs Hsl] [Hd Hdl] Hl Ho] [Hlen Hb]. cbn [fst snd] in *. unfold put. rewrite Hm.
  assert (Hfit : ∀ t m, put_tier (b_cap buf) cap = Some (t, m) →
    t = Small ∧ m = cap / 4 ∧ buffer_of [BUF_SIZE_SMALL] buf
    ∨ t = Medium ∧ m = cap ∧ buffer_of [BUF_SIZE; BUF_SIZE_LARGE] buf).
  { rewrite !elem_of_cons, elem_of_nil in Hb. unfold buffer_of.
    destruct Hb as [Hb|[Hb|[Hb|[]]]]; rewrite Hb in *; intros ? ? H; injection H as <- <-;
      [left|right..]; split_and!; try done; by repeat constructor. }
  destruct (put_tier (b_cap buf) cap) as [[t m]|]; [|by split].
  destruct (Hfit t m eq_refl) as [(->&->&Hf)|(->&->&Hf)]; cbn [stack_of];
    match goal with |- context [Z.ltb ?a ?b] => destruct (Z.ltb_spec a b) end; try (by split); split; cbn [set_stack small medium large pool_max fst snd]; try done;
    (split; [by constructor|cbn [length]; lia]).
Qed.

(** In every use of the pool the tiers stay within their limits and a buffer
    has at least the size asked for, but the large tier never holds a buffer:
    returned 64 KiB buffers go to the medium tier, and every request for a large
    buffer allocates. *)
Theorem large_buffers_never_recycled cap p out :
  0 <= cap → rtc pool_step (pool_new cap, []) (p, out) →
  large p = [] ∧ Z.of_nat (length (small p)) <= cap / 4 ∧ Z.of_nat (length (medium p)) <= cap
  ∧ (∀ size buf p', get_sized size p = (buf, p') →
       (size <= BUF_SIZE_LARGE → size <= b_len buf)
       ∧ (BUF_SIZE < size → hits p' = hits p ∧ misses p' = wrap 64 (misses p + 1))).
Proof.
  intros Hc Hr.
  assert (pool_inv cap (p, out)) as Hinv.
  { assert (pool_inv cap (pool_new cap, [])) as H0.
    { split; cbn; [done|split; [constructor|apply Z.div_pos; lia]|split; [constructor|lia]|done|constructor]. }
    revert H0. revert Hr. generalize (pool_new cap, @nil Buffer), (p, out). intros x y Hr.
    induction Hr as [|x y z Hs _ IH]; [done|]. intros Hx. apply IH.
    destruct Hs as [size q o buf q' Hg|buf q o1 o2|buf q o1 o2].
    - by eapply get_sized_spec.
    - destruct Hx as [? ? ? ? Ho]. simpl in *. apply Forall_app in Ho as [Ho1 [Hb Ho2]%Forall_cons].
      apply put_spec; [done| |done]. split; try done. simpl. by apply Forall_app.
    - destruct Hx as [? ? ? ? Ho]. simpl in *. apply Forall_app in Ho as [Ho1 [Hb Ho2]%Forall_cons].
      split; try done. simpl. by apply Forall_app. }
  pose proof Hinv as [? [? ?] [? ?] ? ?]. split_and!; try done. intros size buf p' Hg.
  by destruct (get_sized_spec _ _ _ _ _ _ Hinv Hg) as (_&?&?).
Qed.

(** ** Witnesses *)

Definition ex_client : Endpoint := mkEnd [Byte.x61; Byte.x62; Byte.x63] [] false.
Definition ex_remote : Endpoint := mkEnd [Byte.x7a] [] false.
Definition ex_stats : TrafficStats := {| upload := 0; download := 0 |}.
Definition ex_options : RelayOptions := mkOptions 1000 (Some ex_stats) None None.
Definition ex_script : list Turn :=
  [mkTurn 5 (ClientRead (Some 2%nat)) None; mkTurn 7 (RemoteRead (Some 1%nat)) None;
   mkTurn 1000 (ClientRead (Some 1%nat)) None; mkTurn 0 (ClientRead (Some 0%nat)) None;
   mkTurn 3 (RemoteRead (Some 0%nat)) None; mkTurn 0 (ClientRead (Some 0%nat)) None].

Lemma relay_keeps_order_witness :
  ∃ s, copy_loop [mkTurn 5 (ClientRead (Some 2%nat)) (Some 1%nat)] (start ex_options ex_client ex_remote 0)
         = (s, Some Failed)
       ∧ ∃ lost_up lost_down,
         [Byte.x61; Byte.x62; Byte.x63] = received (remote s) ++ lost_up ++ incoming (client s)
         ∧ [Byte.x7a] = received (client s) ++ lost_down ++ incoming (remote s).
Proof.
  eexists. split; [reflexivity|].
  edestruct (relay_keeps_order ex_options [mkTurn 5 (ClientRead (Some 2%nat)) (Some 1%nat)]
    ex_client ex_remote 0) as ((lu&ld&H1&H2&_)&_); [| | | |reflexivity|].
  1-2: vm_compute; reflexivity.
  - intros x [= <-]. cbn. unfold in_width. lia.
  - reflexivity.
  - exists lu, ld. by split.
Defined.

Lemma relay_completes_witness :
  (relay_with_options ex_options ex_script ex_client ex_remote 0 (pool_new POOL_MAX)).1
  = (mkEnd [] [Byte.x7a] true, mkEnd [] [Byte.x61; Byte.x62; Byte.x63] true, Some (Finished 3 1)).
Proof.
  apply (relay_completes 1000 ex_stats ex_client ex_remote 0
    ex_script); try reflexivity; vm_compute; repeat split; congruence || lia.
Defined.

Lemma relay_plain_cuts_active_witness :
  (relay_with_options (mkOptions 1000 None None None) (drip 1000 3) ex_client ex_remote 0 (pool_new POOL_MAX)).1
  = (mkEnd [Byte.x62; Byte.x63] [] false, mkEnd [Byte.x7a] [Byte.x61] false, Some (Finished 0 0)).
Proof.
  apply (relay_plain_cuts_active 1000 ex_stats ex_client ex_remote 0 (pool_new POOL_MAX)); vm_compute; reflexivity || lia.
Defined.

Lemma throttle_terminates_witness :
  ∃ l' now', wait_limiter (Some (limiter_new 100 0)) 3 0 = Some (Some l', now') ∧ limiter_ok l'.
Proof.
  apply (throttle_terminates (limiter_new 100 0) 3 0); vm_compute; repeat split; congruence || done.
Defined.

Lemma large_buffers_never_recycled_witness :
  let p := put (vec_zeroed 65536) (get_large (pool_new 8)).2 in
  large p = [] ∧ (get_large p).1 = vec_zeroed 65536 ∧ b_len (get p).1 = 65536.
Proof.
  split; [|split; reflexivity].
  eapply (large_buffers_never_recycled 8 _ []); [lia|].
  eapply rtc_l; [by eapply (step_get BUF_SIZE_LARGE)|].
  apply rtc_once, (step_put _ _ [] []).
Defined.
