(* ===== verification/Splice.v ===== *)
(** * Zero-copy relaying ([src/src/proxy/relay.rs], modules [splice] and
    [uring_relay])

    The kernel moves bytes from one socket into a pipe and from the pipe into
    the other socket.  A direction is the bytes still to come from the source,
    those in the pipe and those the destination has; what the system calls
    return is a script.  Both paths are compiled but not used: a note at
    [relay_proxy_streams] says that they relay too little, and
    [splice_pause_ends_relay] shows why. *)

From S2P Require Import Prelude.

Local Open Scope Z_scope.

Definition PIPE_SIZE : Z := 65536.

(** What a call to [splice] returns: a number of bytes, or an error, which may
    be [WouldBlock]. *)
Inductive sys :=
| Moved (n : nat)
| Fails (would_block : bool).

Record Flow := mkFlow { source : bytes; pipe : bytes; dest : bytes }.
(** The kernel's side of a call that moved [n] bytes. *)
Definition into_pipe (n : nat) (f : Flow) : Flow :=
  mkFlow (drop n (source f)) (pipe f ++ take n (source f)) (dest f).
Definition out_of_pipe (n : nat) (f : Flow) : Flow :=
  mkFlow (source f) (drop n (pipe f)) (dest f ++ take n (pipe f)).

(** ** [splice] *)

(** Step 2; [None]: the call has not returned. *)
Fixpoint drain (n written : nat) (calls : list sys) (f : Flow) : option (result bool nat * Flow) :=
  if (n <=? written)%nat then Some (Ok written, f)
  else
    match calls with
    | [] => None
    | Fails wb :: _ => Some (Err wb, f)
    | Moved O :: _ => Some (Ok written, f)
    | Moved w :: calls => drain n (written + w) calls (out_of_pipe w f)
    end.
Definition splice_one_direction (calls : list sys) (f : Flow) : option (result bool nat * Flow) :=
  match calls with
  | [] => None
  | Fails true :: _ => Some (Ok 0%nat, f)
  | Fails false :: _ => Some (Err false, f)
  | Moved O :: _ => Some (Ok 0%nat, f)
  | Moved n :: calls => drain n 0 calls (into_pipe n f)
  end.

(** One turn of the loop of a direction: whether the token was cancelled, and
    the system calls. *)
Record turn := mkTurn { cancelled : bool; calls : list sys }.
(** The flow, the bytes counted, and whether the loop ended. *)
Fixpoint splice_loop (ts : list turn) (f : Flow) (count : Z) : Flow * Z * bool :=
  match ts with
  | [] => (f, count, false)
  | t :: ts =>
      if cancelled t then (f, count, true)
      else
        match splice_one_direction (calls t) f with
        | None => (f, count, false)
        | Some (Ok O, f) => (f, count, true)
        | Some (Ok n, f) => splice_loop ts f (wrap 64 (count + Z.of_nat n))
        | Some (Err true, f) => splice_loop ts f count
        | Some (Err false, f) => (f, count, true)
        end
  end.
(** Both directions; a [timeout] of the whole gives the counters as they are. *)
Definition splice_relay (up_turns down_turns : list turn) (up down : Flow) : Flow * Flow * (Z * Z) :=
  let '(u, nu, _) := splice_loop up_turns up 0 in
  let '(d, nd, _) := splice_loop down_turns down 0 in
  (u, d, (nu, nd)).

(** ** [uring_relay] *)

(** One turn: the done flag, the completion of the first splice ([None]: none
    was there) and of the second. *)
Record uturn := mkUturn { done_flag : bool; cqe_in : option sys; cqe_out : option sys }.
Fixpoint uring_splice_direction (ts : list uturn) (f : Flow) (total : Z) : Flow * Z * bool :=
  match ts with
  | [] => (f, total, false)
  | t :: ts =>
      if done_flag t then (f, total, true)
      else
        match cqe_in t with
        | None => uring_splice_direction ts f total
        | Some (Moved O) => (f, total, true)
        | Some (Fails true) => uring_splice_direction ts f total
        | Some (Fails false) => (f, total, true)
        | Some (Moved n) =>
            let f := into_pipe n f in
            match cqe_out t with
            | Some (Moved w) =>
                uring_splice_direction ts (out_of_pipe w f) (if (0 <? w)%nat then wrap 64 (total + Z.of_nat w) else total)
            | _ => uring_splice_direction ts f total
            end
        end
  end.
(** Nothing is reported when the timeout comes first. *)
Definition uring_relay (timeout : bool) (up_turns down_turns : list uturn) (up down : Flow) : Flow * Flow * (Z * Z) :=
  let '(u, nu, _) := uring_splice_direction up_turns up 0 in
  let '(d, nd, _) := uring_splice_direction down_turns down 0 in
  (u, d, if timeout then (0, 0) else (nu, nd)).

(** ** What the kernel promises *)

Definition whole (f : Flow) : bytes := dest f ++ pipe f ++ source f.
(** A call moves bytes that are there. *)
Fixpoint drain_ok (n written : nat) (calls : list sys) (f : Flow) : bool :=
  if (n <=? written)%nat then true
  else
    match calls with
    | Moved w :: calls =>
        (w <=? n - written)%nat && (w <=? length (pipe f))%nat
        && ((w =? 0)%nat || drain_ok n (written + w) calls (out_of_pipe w f))
    | _ => true
    end.
Definition calls_ok (calls : list sys) (f : Flow) : bool :=
  match calls with
  | Moved n :: calls => (n <=? length (source f))%nat && drain_ok n 0 calls (into_pipe n f)
  | _ => true
  end.
Fixpoint turns_ok (ts : list turn) (f : Flow) : bool :=
  match ts with
  | [] => true
  | t :: ts =>
      calls_ok (calls t) f
      && match splice_one_direction (calls t) f with Some (_, f) => turns_ok ts f | None => true end
  end.

Lemma whole_into n f : whole (into_pipe n f) = whole f.
Proof. unfold whole, into_pipe. cbn [source pipe dest]. by rewrite <- app_assoc, take_drop. Qed.
Lemma whole_out n f : whole (out_of_pipe n f) = whole f.
Proof. unfold whole, out_of_pipe. cbn [source pipe dest]. rewrite <- app_assoc, (app_assoc (take n _)). by rewrite take_drop. Qed.
Lemma drain_whole n w cs f r f' : drain n w cs f = Some (r, f') → whole f' = whole f.
Proof.
  revert w f. induction cs as [|c cs IH]; intros w f; cbn [drain]; destruct (n <=? w)%nat; intros Hd; try by simplify_eq.
  destruct c as [[|k]|wb]; try by simplify_eq. apply IH in Hd. by rewrite Hd, whole_out.
Qed.
Lemma splice_whole cs f r f' : splice_one_direction cs f = Some (r, f') → whole f' = whole f.
Proof.
  intros Hs. destruct cs as [|[[|n]|[]] cs]; cbn [splice_one_direction] in Hs; try by simplify_eq.
  apply drain_whole in Hs. by rewrite Hs, whole_into.
Qed.
(** What a call reports is what it delivered. *)
Lemma drain_delivered n w cs f k f' :
  drain_ok n w cs f = true → drain n w cs f = Some (Ok k, f') →
  (w <= k)%nat ∧ (length (dest f') = length (dest f) + (k - w))%nat.
Proof.
  revert w f. induction cs as [|c cs IH]; intros w f Hok; cbn [drain]; cbn [drain_ok] in Hok;
    destruct (n <=? w)%nat eqn:E; intros Hd; try (simplify_eq; lia).
  destruct c as [[|j]|wb]; try (simplify_eq; lia).
  apply andb_true_iff in Hok as [[_ Hj%Nat.leb_le]%andb_true_iff Hok]. cbn [Nat.eqb orb] in Hok.
  destruct (IH _ _ Hok Hd) as [Hle Hlen]. cbn [dest out_of_pipe] in Hlen. rewrite length_app, length_take in Hlen. lia.
Qed.
Lemma drain_dest_le n w cs f r f' : drain n w cs f = Some (r, f') → (length (dest f) <= length (dest f'))%nat.
Proof.
  revert w f. induction cs as [|c cs IH]; intros w f; cbn [drain]; destruct (n <=? w)%nat; intros Hd; try (simplify_eq; lia).
  destruct c as [[|k]|wb]; try (simplify_eq; lia). apply IH in Hd. cbn [dest out_of_pipe] in Hd. rewrite length_app in Hd. lia.
Qed.
Lemma splice_delivered cs f k f' :
  calls_ok cs f = true → splice_one_direction cs f = Some (Ok k, f') →
  (length (dest f') = length (dest f) + k)%nat.
Proof.
  intros Hok Hs. destruct cs as [|[[|n]|[]] cs]; cbn [splice_one_direction] in Hs; try (simplify_eq; lia).
  apply andb_true_iff in Hok as [_ Hok]. destruct (drain_delivered _ _ _ _ _ _ Hok Hs) as [_ H]. cbn [dest into_pipe] in H. lia.
Qed.
Lemma splice_dest_le cs f r f' : splice_one_direction cs f = Some (r, f') → (length (dest f) <= length (dest f'))%nat.
Proof.
  intros Hs. destruct cs as [|[[|n]|[]] cs]; cbn [splice_one_direction] in Hs; try (simplify_eq; lia).
  apply drain_dest_le in Hs. exact Hs.
Qed.

Lemma splice_loop_sound ts f count f' n e :
  turns_ok ts f = true → 0 <= count <= len (dest f) → len (whole f) < 2 ^ 64 →
  splice_loop ts f count = (f', n, e) →
  whole f' = whole f ∧ count <= n ∧ n - count <= len (dest f') - len (dest f).
Proof.
  revert f count. induction ts as [|t ts IH]; intros f count Hok H0 Hb Hl; cbn [splice_loop] in Hl.
  { simplify_eq. split; [done|lia]. }
  cbn [turns_ok] in Hok. apply andb_true_iff in Hok as [Hc Hok]. destruct (cancelled t).
  { simplify_eq. split; [done|lia]. }
  destruct (splice_one_direction (calls t) f) as [[r f1]|] eqn:E; [|simplify_eq; split; [done|lia]].
  pose proof (splice_whole _ _ _ _ E) as Hw. pose proof (splice_dest_le _ _ _ _ E) as Hd.
  assert (len (dest f) <= len (dest f1) <= len (whole f1)) as [Hd1 Hd2] by (unfold whole, len; rewrite length_app; lia).
  destruct r as [[|k]|[]].
  - simplify_eq. split_and!; [done|lia|lia].
  - assert (Hk := splice_delivered _ _ _ _ Hc E).
    assert (len (dest f1) = len (dest f) + Z.of_nat (S k)) as Hk' by (unfold len; lia).
    rewrite wrap_small in Hl by (unfold in_width; rewrite Hw in Hd2; lia).
    apply IH in Hl as (H1&H2&H3); [|done|lia|by rewrite Hw]. split_and!; [congruence|lia|lia].
  - apply IH in Hl as (H1&H2&H3); [|done|lia|by rewrite Hw]. split_and!; [congruence|lia|lia].
  - simplify_eq. split_and!; [done|lia|lia].
Qed.

(** Between the two sockets a spliced relay keeps order and what has left
    one socket is delivered or still in its pipe; the result never exceeds what
    was delivered. *)
Theorem splice_keeps_order up_turns down_turns up down u d nu nd :
  turns_ok up_turns up = true → turns_ok down_turns down = true →
  len (whole up) < 2 ^ 64 → len (whole down) < 2 ^ 64 →
  splice_relay up_turns down_turns up down = (u, d, (nu, nd)) →
  whole u = whole up ∧ whole d = whole down
  ∧ 0 <= nu <= len (dest u) - len (dest up) ∧ 0 <= nd <= len (dest d) - len (dest down).
Proof.
  unfold splice_relay. intros H1 H2 H3 H4 Hr.
  destruct (splice_loop up_turns up 0) as [[u' nu'] eu] eqn:Eu. destruct (splice_loop down_turns down 0) as [[d' nd'] ed] eqn:Ed.
  simplify_eq.
  destruct (splice_loop_sound up_turns up 0 _ _ _ H1 (conj (Z.le_refl 0) (len_nonneg _)) H3 Eu) as (?&?&?).
  destruct (splice_loop_sound down_turns down 0 _ _ _ H2 (conj (Z.le_refl 0) (len_nonneg _)) H4 Ed) as (?&?&?). split_and!; [done|done|lia..].
Qed.

(** Why the zero-copy path relays too little: a socket with nothing to read at
    the moment is taken for one at its end, so whatever would happen after the
    first pause of the source does not happen. *)
Theorem splice_pause_ends_relay before rest ts f n :
  splice_loop (before ++ mkTurn false (Fails true :: rest) :: ts) f n
  = splice_loop (before ++ [mkTurn false (Fails true :: rest)]) f n.
Proof.
  revert f n. induction before as [|t before IH]; intros f n; [done|]. cbn [app splice_loop]. destruct (cancelled t); [done|].
  destruct (splice_one_direction (calls t) f) as [[[[|k]|[]] f1]|]; try done; apply IH.
Qed.

(** ** io_uring *)

Lemma uring_whole ts f n f' n' e : uring_splice_direction ts f n = (f', n', e) → whole f' = whole f.
Proof.
  revert f n. induction ts as [|t ts IH]; intros f n; cbn [uring_splice_direction]; intros Hu; [by simplify_eq|].
  destruct (done_flag t); [by simplify_eq|].
  destruct (cqe_in t) as [[[|k]|[]]|]; [by simplify_eq| |by apply IH in Hu|by simplify_eq|by apply IH in Hu].
  destruct (cqe_out t) as [[w|[]]|]; apply IH in Hu; rewrite Hu, ?whole_out; apply whole_into.
Qed.
(** A second splice that moves fewer bytes than the first leaves the rest in the
    pipe, and an end of file closes the pipe over it. *)
Example uring_short_write_lost :
  let f := mkFlow [Byte.x61; Byte.x62; Byte.x63] [] [] in
  uring_relay false
    [mkUturn false (Some (Moved 3)) (Some (Moved 1)); mkUturn false (Some (Moved 0)) None] [] f (mkFlow [] [] [])
  = (mkFlow [] [Byte.x62; Byte.x63] [Byte.x61], mkFlow [] [] [], (1, 0)).
Proof. reflexivity. Qed.
Example splice_data_then_pause :
  let f := mkFlow [Byte.x61; Byte.x62; Byte.x63] [] [] in
  splice_relay
    [mkTurn false [Moved 1; Moved 1]; mkTurn false [Fails true]; mkTurn false [Moved 2; Moved 2]] [] f (mkFlow [] [] [])
  = (mkFlow [Byte.x62; Byte.x63] [] [Byte.x61], mkFlow [] [] [], (1, 0)).
Proof. reflexivity. Qed.
