(* ===== verification/Proc.v ===== *)
(** * Conversations over a byte stream

    The protocol handlers are asynchronous functions that alternate
    [write_all(..).await?] and [read_exact(..).await?] on one connection.  A
    handler is a value of [proc]: what it writes, what it waits for, and how it
    ends.  Two of them joined by a pair of unbounded byte queues make a [net],
    whose [step] lets either side move; [settles] says that a conversation ends
    in one state whatever the schedule, and [joined_by_parts] reduces that to
    running the two sides apart.  A side that has failed has dropped its stream,
    so the other one reads an end of file; a side that has returned keeps it. *)

From stdpp Require Import relations.
From S2P Require Import Prelude RustStr Addr.

Inductive stop :=
| UnexpectedEof
| Bail (why : string)
| Panicked.

Inductive proc (A : Type) :=
| Ret (a : A)
| Stop (e : stop)
| Write (data : bytes) (k : proc A)
| Read (n : Z) (k : bytes → proc A).
Arguments Ret {A} a.
Arguments Stop {A} e.
Arguments Write {A} data k.
Arguments Read {A} n k.

Fixpoint bind_proc {A B} (p : proc A) (f : A → proc B) : proc B :=
  match p with
  | Ret a => f a
  | Stop e => Stop e
  | Write d k => Write d (bind_proc k f)
  | Read n k => Read n (fun b => bind_proc (k b) f)
  end.
Notation "'let@' x ':=' p 'in' k" := (bind_proc p (fun x => k))
  (at level 10, x binder, p at level 100, k at level 200) : rust_scope.

(** [read_exact] of [n] bytes, [read_u8], [read_u16] and [write_all]. *)
Definition read_exact (n : Z) : proc bytes := Read n Ret.
Definition read_u8 : proc Z := let@ b := read_exact 1 in Ret (byte_to_Z (byte_at b 0)).
Definition read_u16 : proc Z := let@ b := read_exact 2 in Ret (from_be_bytes b).
Definition write_all (d : bytes) : proc unit := Write d (Ret tt).
Definition bail {A} (why : string) : proc A := Stop (Bail why).
Definition or_bail {A} (why : string) (o : option A) : proc A :=
  match o with Some a => Ret a | None => bail why end.
Definition or_fail {A} (r : result string A) : proc A := match r with Ok a => Ret a | Err e => bail e end.

(** ** One side against a complete input

    What the handler returns, the input it left, and what it wrote. *)

Fixpoint run {A} (p : proc A) (input : bytes) : result stop A * bytes * bytes :=
  match p with
  | Ret a => (Ok a, input, [])
  | Stop e => (Err e, input, [])
  | Write d k => let '(r, rest, out) := run k input in (r, rest, d ++ out)
  | Read n k =>
      if len input <? n then (Err UnexpectedEof, [], [])
      else run (k (take (Z.to_nat n) input)) (drop (Z.to_nat n) input)
  end.

(** A stream whose first bytes were read ahead ([PrefixedStream]). *)
Fixpoint with_prefix {A} (prefix : bytes) (p : proc A) : proc A :=
  match p with
  | Ret a => Ret a
  | Stop e => Stop e
  | Write d k => Write d (with_prefix prefix k)
  | Read n k =>
      if n <=? len prefix
      then with_prefix (drop (Z.to_nat n) prefix) (k (take (Z.to_nat n) prefix))
      else Read (n - len prefix) (fun b => with_prefix [] (k (prefix ++ b)))
  end.

(** ** Two sides *)

Record net (A B : Type) := Net {
  client : proc A;
  server : proc B;
  c2s : bytes;
  s2c : bytes
}.
Arguments Net {A B} _ _ _ _.
Arguments client {A B} _.
Arguments server {A B} _.
Arguments c2s {A B} _.
Arguments s2c {A B} _.

(** What one side can do: [i] is the queue it reads, [o] the one it writes and
    [gone] whether the peer has dropped its end. *)
Inductive move {A} (gone : bool) : proc A → bytes → proc A → bytes → bytes → Prop :=
| move_write d k i : move gone (Write d k) i k i d
| move_read n k i : n <= len i →
    move gone (Read n k) i (k (take (Z.to_nat n) i)) (drop (Z.to_nat n) i) []
| move_eof n k i : len i < n → gone = true → move gone (Read n k) i (Stop UnexpectedEof) [] [].

Definition stopped {A} (p : proc A) : bool := match p with Stop _ => true | _ => false end.

Inductive step {A B} : net A B → net A B → Prop :=
| step_client c c' s cs sc sc' out :
    move (stopped s) c sc c' sc' out → step (Net c s cs sc) (Net c' s (cs ++ out) sc')
| step_server c s s' cs cs' sc out :
    move (stopped c) s cs s' cs' out → step (Net c s cs sc) (Net c s' cs' (sc ++ out)).

(** [x] ends in [f]: [f] is stuck, some run reaches it, and no other run can
    end elsewhere or go on longer. *)
Definition settles {A B} (x f : net A B) : Prop :=
  nf step f ∧ ∃ n, nsteps step n x f
    ∧ ∀ m y, nsteps step m x y → (m <= n)%nat ∧ nsteps step (n - m) y f.

(** The scheduler that lets the client go first. *)
Definition move_fn {A} (gone : bool) (p : proc A) (i : bytes) : option (proc A * bytes * bytes) :=
  match p with
  | Write d k => Some (k, i, d)
  | Read n k =>
      if n <=? len i then Some (k (take (Z.to_nat n) i), drop (Z.to_nat n) i, [])
      else if gone then Some (Stop UnexpectedEof, [], []) else None
  | _ => None
  end.
Fixpoint converse {A B} (fuel : nat) (x : net A B) : net A B :=
  match fuel with
  | O => x
  | S fuel =>
      match move_fn (stopped (server x)) (client x) (s2c x) with
      | Some (c, sc, out) => converse fuel (Net c (server x) (c2s x ++ out) sc)
      | None =>
          match move_fn (stopped (client x)) (server x) (c2s x) with
          | Some (s, cs, out) => converse fuel (Net (client x) s cs (s2c x ++ out))
          | None => x
          end
      end
  end.

(** ** The schedule does not matter *)

Lemma move_fn_spec {A} gone (p : proc A) i p' i' out :
  move gone p i p' i' out ↔ move_fn gone p i = Some (p', i', out).
Proof.
  split.
  - destruct 1; simpl; first done.
    + by rewrite (proj2 (Z.leb_le _ _)).
    + subst. by rewrite (proj2 (Z.leb_gt _ _)).
  - destruct p; simpl; intros; simplify_eq; first constructor.
    repeat case_match; simplify_eq; bool_prop; constructor; lia.
Qed.

(** What a side can do stays possible, with the same effect, when its queue
    grows at the end, as long as its peer is not gone. *)
Lemma move_app {A} (p : proc A) i p' i' out more :
  move false p i p' i' out → move false p (i ++ more) p' (i' ++ more) out.
Proof.
  inversion 1 as [|n k ? Hn|]; subst; try done; first constructor.
  rewrite <- (take_app_le _ more), <- drop_app_le by (unfold len in *; lia).
  constructor. unfold len in *. rewrite length_app. lia.
Qed.
Lemma move_not_stopped {A} gone (p : proc A) i p' i' out :
  move gone p i p' i' out → stopped p = false.
Proof. by destruct 1. Qed.
Lemma move_det {A} gone (p : proc A) i p1 i1 o1 p2 i2 o2 :
  move gone p i p1 i1 o1 → move gone p i p2 i2 o2 → p1 = p2 ∧ i1 = i2 ∧ o1 = o2.
Proof. rewrite !move_fn_spec. intros. by simplify_eq. Qed.

(** The peer writing or reading one more time does not change a move. *)
Lemma move_live {A} gone (p : proc A) i p' i' out :
  gone = false → move gone p i p' i' out → ∀ gone', move gone' p i p' i' out.
Proof. intros -> H gone'. inversion H; subst; try done; by constructor. Qed.

Lemma step_diamond {A B} (x y z : net A B) :
  step x y → step x z → y = z ∨ ∃ w, step y w ∧ step z w.
Proof.
  assert (∀ (c c' : proc A) (s s' : proc B) cs cs' sc sc' o1 o2,
    move (stopped s) c sc c' sc' o1 → move (stopped c) s cs s' cs' o2 →
    ∃ w, step (Net c' s (cs ++ o1) sc') w ∧ step (Net c s' cs' (sc ++ o2)) w) as Hcs.
  { intros c c' s s' cs cs' sc sc' o1 o2 H1 H2.
    pose proof (move_not_stopped _ _ _ _ _ _ H1) as E1.
    pose proof (move_not_stopped _ _ _ _ _ _ H2) as E2. rewrite E2 in H1. rewrite E1 in H2.
    exists (Net c' s' (cs' ++ o1) (sc' ++ o2)). split.
    - by apply step_server, (move_live false), move_app.
    - by apply step_client, (move_live false), move_app. }
  destruct 1 as [c c' s cs sc sc' o H|c s s' cs cs' sc o H]; intros Hz; inversion Hz; subst;
    lazymatch goal with
    | H1 : move _ ?p _ _ _ _, H2 : move _ ?p _ _ _ _ |- _ =>
        left; destruct (move_det _ _ _ _ _ _ _ _ _ H1 H2) as (->&->&->); done
    | _ => right
    end; first eauto.
  edestruct Hcs as (w&?&?); [done|exact H|]. eauto.
Qed.

Lemma nsteps_peel {A B} n (x y f : net A B) :
  nf step f → nsteps step n x f → step x y → ∃ m, n = S m ∧ nsteps step m y f.
Proof.
  revert x y. induction n as [|n IH]; intros x y Hnf Hn Hy.
  { inversion Hn; subst. destruct Hnf. eexists; eauto. }
  inversion Hn as [|? ? z ? Hz Hzf]; subst. exists n. split; first done.
  destruct (step_diamond _ _ _ Hy Hz) as [->|(w&Hyw&Hzw)]; first done.
  destruct (IH _ _ Hnf Hzf Hzw) as (m&->&?). by eapply nsteps_l.
Qed.

Lemma settles_intro {A B} (x f : net A B) : rtc step x f → nf step f → settles x f.
Proof.
  intros [n Hn]%rtc_nsteps_1 Hnf. split; first done. exists n. split; first done.
  intros m. revert n x Hn. induction m as [|m IH]; intros n x Hn y Hy.
  { inversion Hy; subst. rewrite Nat.sub_0_r. split; [lia|done]. }
  inversion Hy as [|? ? z ? Hz Hzy]; subst.
  destruct (nsteps_peel _ _ _ _ Hnf Hn Hz) as (k&->&Hk).
  destruct (IH _ _ Hk _ Hzy). split; [lia|done].
Qed.

Lemma converse_steps {A B} fuel (x : net A B) : rtc step x (converse fuel x).
Proof.
  revert x. induction fuel as [|fuel IH]; intros [c s cs sc]; simpl; first done.
  destruct (move_fn (stopped s) c sc) as [[[c' sc'] out]|] eqn:E.
  { eapply rtc_l; last apply IH. by apply step_client, move_fn_spec. }
  destruct (move_fn (stopped c) s cs) as [[[s' cs'] out]|] eqn:E'; last done.
  eapply rtc_l; last apply IH. by apply step_server, move_fn_spec.
Qed.

Definition ended {A} (p : proc A) : bool := match p with Ret _ | Stop _ => true | _ => false end.
Lemma ended_nf {A B} (x : net A B) : ended (client x) = true → ended (server x) = true → nf step x.
Proof. intros Hc Hs [y Hy]. inversion Hy as [? ? ? ? ? ? ? H|? ? ? ? ? ? ? H]; subst; by inversion H; subst. Qed.

(** ** Running the sides apart *)

(** [p] reads exactly [i], writes [o] and goes on as [q]. *)
Inductive exec {A} : proc A → bytes → proc A → bytes → Prop :=
| exec_refl p : exec p [] p []
| exec_write d k i q o : exec k i q o → exec (Write d k) i q (d ++ o)
| exec_read n k b i q o : len b = n → exec (k b) i q o → exec (Read n k) (b ++ i) q o.

Lemma exec_trans {A} (p q r : proc A) i1 o1 i2 o2 :
  exec p i1 q o1 → exec q i2 r o2 → exec p (i1 ++ i2) r (o1 ++ o2).
Proof.
  induction 1; intros; simpl; rewrite <- ?app_assoc; try done; constructor; auto.
Qed.

Lemma exec_bind {A B} (p q : proc A) (f : A → proc B) i o :
  exec p i q o → exec (let@ a := p in f a) i (let@ a := q in f a) o.
Proof. induction 1; simpl; by constructor. Qed.

(** The form in which a handler's proof steps through a bind. *)
Lemma exec_then {A B} (p : proc A) a (f : A → proc B) r i1 o1 i2 o2 i o :
  exec p i1 (Ret a) o1 → exec (f a) i2 r o2 → i = i1 ++ i2 → o = o1 ++ o2 →
  exec (let@ a := p in f a) i r o.
Proof. intros H1 H2 -> ->. eapply exec_trans; [exact (exec_bind _ _ f _ _ H1)|done]. Qed.
Lemma exec_then_quiet {A B} (p : proc A) a (f : A → proc B) r i1 i2 o :
  exec p i1 (Ret a) [] → exec (f a) i2 r o → exec (let@ a := p in f a) (i1 ++ i2) r o.
Proof. intros. by eapply exec_then. Qed.

Lemma exec_exact n b : len b = n → exec (read_exact n) b (Ret b) [].
Proof. intros. rewrite <- (app_nil_r b) at 1. by repeat constructor. Qed.
Lemma exec_u8 b : exec read_u8 [b] (Ret (byte_to_Z b)) [].
Proof. eapply (exec_then _ [b]); [by apply exec_exact|constructor|done|done]. Qed.
Lemma exec_u8_of z : u8_ok z → exec read_u8 [byte_of_Z z] (Ret z) [].
Proof. intros. rewrite <- (byte_to_of_small z) at 2 by done. apply exec_u8. Qed.
Lemma exec_u16 z : u16_ok z → exec read_u16 (to_be_bytes 2 z) (Ret z) [].
Proof.
  intros. unfold read_u16. rewrite <- (app_nil_r (to_be_bytes 2 z)). eapply exec_then_quiet.
  { apply exec_exact. reflexivity. }
  rewrite from_to_be_2 by done. constructor.
Qed.
Lemma exec_put {A} d (k : proc A) : exec (Write d k) [] k d.
Proof. rewrite <- (app_nil_r d) at 2. by repeat constructor. Qed.

Lemma exec_run {A} (p q : proc A) i o rest :
  exec p i q o →
  run p (i ++ rest) = let '(r, left_, out) := run q rest in (r, left_, o ++ out).
Proof.
  induction 1 as [|? ? ? ? ? ? IH|n k b i q o Hb ? IH]; simpl.
  - by destruct (run p rest) as [[? ?] ?].
  - rewrite IH. destruct (run q rest) as [[? ?] ?]. by rewrite <- app_assoc.
  - rewrite <- app_assoc, <- IH. unfold len in *. subst n. rewrite Nat2Z.id, length_app.
    rewrite (proj2 (Z.ltb_ge _ _)) by lia. by rewrite take_app_length, drop_app_length.
Qed.

(** Bytes read ahead are read first. *)
Lemma run_with_prefix {A} (p : proc A) pre input :
  let '(r, rest, out) := run (with_prefix pre p) input in
  ∃ rest', run p (pre ++ input) = (r, rest', out) ∧ (r = Err UnexpectedEof ∨ ∃ p', rest' = p' ++ rest).
Proof.
  revert pre input. induction p as [a|e|d k IH|n k IH]; intros pre input; simpl.
  - eexists. split; [done|right; by eexists].
  - eexists. split; [done|right; by eexists].
  - specialize (IH pre input). destruct (run (with_prefix pre k) input) as [[r rest] out].
    destruct IH as (rest'&->&?). eauto.
  - destruct (Z.leb_spec n (len pre)) as [Hle|Hlt].
    + pose proof (len_nonneg input) as Hi. specialize (IH (take (Z.to_nat n) pre) (drop (Z.to_nat n) pre) input).
      destruct (run (with_prefix _ _) input) as [[r rest] out]. destruct IH as (rest'&IH&?).
      unfold len in *. rewrite length_app, (proj2 (Z.ltb_ge _ _)) by lia.
      rewrite take_app_le, drop_app_le by lia. eauto.
    + simpl. unfold len in *. rewrite length_app.
      destruct (Z.ltb_spec (Z.of_nat (length input)) (n - Z.of_nat (length pre))).
      { rewrite (proj2 (Z.ltb_lt _ _)) by lia. eauto. }
      rewrite (proj2 (Z.ltb_ge _ _)) by lia.
      replace (Z.to_nat n) with (length pre + Z.to_nat (n - Z.of_nat (length pre)))%nat by lia.
      rewrite take_app_add, drop_app_add.
      specialize (IH (pre ++ take (Z.to_nat (n - Z.of_nat (length pre))) input) []
        (drop (Z.to_nat (n - Z.of_nat (length pre))) input)).
      by destruct (run (with_prefix [] _) _) as [[r rest] out].
Qed.

Lemma exec_client {A B} (p q : proc A) (s : proc B) i o cs rest :
  exec p i q o → rtc step (Net p s cs (i ++ rest)) (Net q s (cs ++ o) rest).
Proof.
  intros H. revert cs. induction H as [|? ? ? ? ? ? IH|n k b i q o Hb ? IH]; intros cs; simpl.
  - by rewrite app_nil_r.
  - eapply rtc_l; [apply step_client, move_write|]. rewrite app_assoc. apply IH.
  - rewrite <- app_assoc. eapply rtc_l.
    { apply step_client, move_read. unfold len in *. rewrite length_app. lia. }
    unfold len in Hb. subst n. rewrite Nat2Z.id, take_app_length, drop_app_length, app_nil_r. apply IH.
Qed.
Lemma exec_server {A B} (p q : proc B) (c : proc A) i o sc rest :
  exec p i q o → rtc step (Net c p (i ++ rest) sc) (Net c q rest (sc ++ o)).
Proof.
  intros H. revert sc. induction H as [|? ? ? ? ? ? IH|n k b i q o Hb ? IH]; intros sc; simpl.
  - by rewrite app_nil_r.
  - eapply rtc_l; [apply step_server, move_write|]. rewrite app_assoc. apply IH.
  - rewrite <- app_assoc. eapply rtc_l.
    { apply step_server, move_read. unfold len in *. rewrite length_app. lia. }
    unfold len in Hb. subst n. rewrite Nat2Z.id, take_app_length, drop_app_length, app_nil_r. apply IH.
Qed.

(** A script of alternating moves: the client writes without reading, or the
    server reads from what is queued and the client reads all of its answer. *)
Inductive joined {A B} : proc A → proc B → bytes → proc A → proc B → bytes → Prop :=
| joined_end c s cs : joined c s cs c s cs
| joined_client c c' s cs o f g e :
    exec c [] c' o → joined c' s (cs ++ o) f g e → joined c s cs f g e
| joined_server c s s' c' cs i rest o o' f g e :
    exec s i s' o → cs = i ++ rest → exec c o c' o' →
    joined c' s' (rest ++ o') f g e → joined c s cs f g e.

Lemma joined_steps {A B} (c : proc A) (s : proc B) cs f g e :
  joined c s cs f g e → rtc step (Net c s cs []) (Net f g e []).
Proof.
  induction 1 as [|c c' s cs o f g e H _ IH|c s s' c' cs i rest o o' f g e H -> Hc _ IH]; first done.
  - etrans; last exact IH. exact (exec_client _ _ s _ _ cs [] H).
  - etrans; first exact (exec_server _ _ c _ _ [] rest H).
    etrans; last exact IH. rewrite <- (app_nil_r o) at 1. simpl.
    exact (exec_client _ _ s' _ _ rest [] Hc).
Qed.

(** Conversations in sequence. *)
Lemma joined_bind {A B A' B'} (c : proc A) (s : proc B) cs x y e (k : A → proc A') (l : B → proc B') f g e' :
  joined c s cs (Ret x) (Ret y) e → joined (k x) (l y) e f g e' →
  joined (let@ a := c in k a) (let@ b := s in l b) cs f g e'.
Proof.
  intros H Hk. remember (Ret x) as rx eqn:Ex. remember (Ret y) as ry eqn:Ey.
  induction H as [c s cs|c c' s cs o f0 g0 e H _ IH|c s s' c' cs i rest o o' f0 g0 e H -> Hc _ IH]; subst.
  - exact Hk.
  - eapply joined_client; [exact (exec_bind _ _ k _ _ H)|auto].
  - eapply joined_server; [exact (exec_bind _ _ l _ _ H)|done|exact (exec_bind _ _ k _ _ Hc)|auto].
Qed.
(** A client that goes on after its part of a conversation. *)
Lemma joined_then {A B A'} (c : proc A) (s s' : proc B) cs x e (k : A → proc A') f g e' :
  joined c s cs (Ret x) s' e → joined (k x) s' e f g e' → joined (let@ a := c in k a) s cs f g e'.
Proof.
  intros H Hk. remember (Ret x) as rx eqn:Ex.
  induction H as [c s cs|c c' s cs o f0 g0 e H _ IH|c s s' c' cs i rest o o' f0 g0 e H -> Hc _ IH]; subst.
  - exact Hk.
  - eapply joined_client; [exact (exec_bind _ _ k _ _ H)|auto].
  - eapply joined_server; [exact H|done|exact (exec_bind _ _ k _ _ Hc)|auto].
Qed.

Lemma joined_by_parts {A B} (c : proc A) (s : proc B) f g e :
  joined c s [] f g e → ended f = true → ended g = true →
  settles (Net c s [] []) (Net f g e []).
Proof. intros H Hf Hg. apply settles_intro; [by apply joined_steps|by apply ended_nf]. Qed.

(** A conversation that settles never gets stuck elsewhere: every state it can
    pass through is one from which the end is still reached. *)
Lemma settles_any {A B} (x f y : net A B) : settles x f → rtc step x y → settles y f ∧ (nf step y → y = f).
Proof.
  intros (Hnf&n&Hn&Hall) Hy. destruct (rtc_nsteps_1 _ _ Hy) as [m Hm].
  destruct (Hall _ _ Hm) as [Hle Hrest]. split.
  - apply settles_intro; [by eapply rtc_nsteps_2|done].
  - intros Hny. inversion Hrest; subst; first done. destruct Hny. eexists; eauto.
Qed.

(** ** Stepping through a handler *)

Lemma exec_u8_bind {A} b (f : Z → proc A) i r o :
  exec (f (byte_to_Z b)) i r o → exec (let@ x := read_u8 in f x) (b :: i) r o.
Proof. exact (exec_then_quiet _ _ f r [b] i o (exec_u8 b)). Qed.
Lemma exec_u8z_bind {A} z (f : Z → proc A) i r o :
  u8_ok z → exec (f z) i r o → exec (let@ x := read_u8 in f x) (byte_of_Z z :: i) r o.
Proof. intros Hz. exact (exec_then_quiet _ _ f r [byte_of_Z z] i o (exec_u8_of z Hz)). Qed.
Lemma exec_u16_bind {A} z (f : Z → proc A) i r o :
  u16_ok z → exec (f z) i r o → exec (let@ x := read_u16 in f x) (to_be_bytes 2 z ++ i) r o.
Proof. intros Hz. exact (exec_then_quiet _ _ f r _ i o (exec_u16 z Hz)). Qed.
Lemma exec_exact_bind {A} n b (f : bytes → proc A) i r o :
  len b = n → exec (f b) i r o → exec (let@ x := read_exact n in f x) (b ++ i) r o.
Proof. intros Hb. exact (exec_then_quiet _ _ f r _ i o (exec_exact n b Hb)). Qed.
Lemma exec_write_bind {A} d (f : unit → proc A) i r o :
  exec (f tt) i r o → exec (let@ x := write_all d in f x) i r (d ++ o).
Proof. apply exec_write. Qed.
Lemma exec_ret_bind {A B} (a : A) (f : A → proc B) i r o :
  exec (f a) i r o → exec (let@ x := Ret a in f x) i r o.
Proof. done. Qed.
Lemma exec_refl' {A} (p : proc A) i o : i = [] → o = [] → exec p i p o.
Proof. intros -> ->. constructor. Qed.

(** A complete input that one side reads to the end of its work. *)
Lemma exec_run_ret {A} (p : proc A) a i o rest : exec p i (Ret a) o → run p (i ++ rest) = (Ok a, rest, o).
Proof. intros H. rewrite (exec_run _ _ _ _ rest H). simpl. by rewrite app_nil_r. Qed.


Lemma run_bind {A B} (p : proc A) (f : A → proc B) input :
  run (let@ a := p in f a) input =
  match run p input with
  | (Ok a, rest, o) => let '(r, rest', o') := run (f a) rest in (r, rest', o ++ o')
  | (Err e, rest, o) => (Err e, rest, o)
  end.
Proof.
  revert input. induction p as [a|e|d k IH|n k IH]; intros input; simpl.
  - by destruct (run (f a) input) as [[? ?] ?].
  - done.
  - rewrite IH. destruct (run k input) as [[[a|e] rest] o]; last done.
    destruct (run (f a) rest) as [[? ?] ?]. by rewrite <- app_assoc.
  - case_match; [done|apply IH].
Qed.
(** A handler that ends well got a value from its first part. *)
Lemma run_bind_Ok {A B} (p : proc A) (f : A → proc B) input b rest out :
  run (let@ a := p in f a) input = (Ok b, rest, out) →
  ∃ a mid o o', run p input = (Ok a, mid, o) ∧ run (f a) mid = (Ok b, rest, o') ∧ out = o ++ o'.
Proof.
  rewrite run_bind. destruct (run p input) as [[[a|e] mid] o]; last done.
  destruct (run (f a) mid) as [[r rest'] o'] eqn:E. intros [= -> -> <-]. eauto 10.
Qed.
Lemma run_exact_Ok n input b rest out :
  run (read_exact n) input = (Ok b, rest, out) →
  n <= len input ∧ b = take (Z.to_nat n) input ∧ rest = drop (Z.to_nat n) input ∧ out = [].
Proof. simpl. destruct (Z.ltb_spec (len input) n); [done|]. by intros [= <- <- <-]. Qed.
Lemma run_u8_Ok input z rest out :
  run read_u8 input = (Ok z, rest, out) →
  ∃ b, input = b :: rest ∧ z = byte_to_Z b ∧ out = [].
Proof.
  intros (b&mid&o&o'&H&[= <- <- <-]&->)%run_bind_Ok.
  apply run_exact_Ok in H as (Hn&->&->&->). destruct input as [|c input]; [done|]. by exists c.
Qed.

(** ** Handlers that cannot panic *)

Fixpoint never_panics {A} (p : proc A) : Prop :=
  match p with
  | Ret _ => True
  | Stop e => e ≠ Panicked
  | Write _ k => never_panics k
  | Read _ k => ∀ b, never_panics (k b)
  end.
Lemma never_panics_bind {A B} (p : proc A) (f : A → proc B) :
  never_panics p → (∀ a, never_panics (f a)) → never_panics (let@ a := p in f a).
Proof. intros Hp Hf. induction p; simpl in *; auto. Qed.
Lemma never_panics_bail {A} why : never_panics (@bail A why).
Proof. done. Qed.
Lemma never_panics_or_bail {A} why (o : option A) : never_panics (or_bail why o).
Proof. by destruct o. Qed.
Lemma never_panics_u8 : never_panics read_u8.
Proof. done. Qed.
Lemma never_panics_u16 : never_panics read_u16.
Proof. done. Qed.
Lemma never_panics_exact n : never_panics (read_exact n).
Proof. done. Qed.
Lemma never_panics_write d : never_panics (write_all d).
Proof. done. Qed.
Lemma never_panics_ret {A} (a : A) : never_panics (Ret a).
Proof. done. Qed.
Create HintDb procs.
#[export] Hint Resolve never_panics_bail never_panics_or_bail never_panics_u8 never_panics_u16
  never_panics_exact never_panics_write never_panics_ret : procs.
Ltac panic_free :=
  repeat first
    [ solve [auto with procs]
    | apply never_panics_bind; [|intros ?]
    | match goal with |- never_panics (if ?c then _ else _) => destruct c end ].
Lemma never_panics_run {A} (p : proc A) input : never_panics p → (run p input).1.1 ≠ Err Panicked.
Proof.
  revert input. induction p as [a|e|d k IH|n k IH]; intros input Hp; simpl in *.
  - done.
  - congruence.
  - specialize (IH input Hp). by destruct (run k input) as [[? ?] ?].
  - case_match; [done|by apply IH].
Qed.

(** A datagram with its destination or origin, as the UDP transports pass it on. *)
Record UdpPacket := mkPacket { p_addr : Address; p_data : bytes }.

(** ** SOCKS-style addresses on a stream

    [[ATYP][ADDR][PORT]], as the Trojan and SOCKS handlers read it: they differ
    in how they decode a domain and in their messages. *)

Definition read_addr_port (decode : bytes → option string) (bad unsupported : string) : proc Address :=
  let@ atyp := read_u8 in
  if atyp =? 1 then
    let@ ip := read_exact 4 in
    let@ port := read_u16 in
    Ret (Ip (sock_new (V4 (from_be_bytes ip)) port))
  else if atyp =? 3 then
    let@ l := read_u8 in
    let@ domain_bytes := read_exact l in
    let@ port := read_u16 in
    let@ domain := or_bail bad (decode domain_bytes) in
    Ret (Domain domain port)
  else if atyp =? 4 then
    let@ ip := read_exact 16 in
    let@ port := read_u16 in
    Ret (Ip (sock_new (V6 (from_be_bytes ip)) port))
  else bail unsupported.

Lemma exec_addr_port decode bad unsupported a :
  (∀ d, str_ok d → decode (as_bytes d) = Some d) →
  addr_ok a → addr_short a → addr_plain a →
  exec (read_addr_port decode bad unsupported) (encode_socks5 a []) (Ret a) [].
Proof.
  intros Hd Hok Hs Hp. unfold read_addr_port.
  destruct a as [[ip p|ip p fl sc]|d p];
    cbn [encode_socks5 app addr_ok sock_ok addr_short addr_plain] in *; apply exec_u8_bind.
  - change (byte_to_Z Byte.x01 =? 1) with true. cbn iota. destruct Hok.
    apply exec_exact_bind; first done. rewrite <- (app_nil_r (to_be_bytes 2 p)).
    apply exec_u16_bind; first done. rewrite from_to_be_4 by done. constructor.
  - change (byte_to_Z Byte.x04) with 4. cbn [Z.eqb Pos.eqb]. destruct Hok as (?&?&_), Hp as [-> ->].
    apply exec_exact_bind; first done. rewrite <- (app_nil_r (to_be_bytes 2 p)).
    apply exec_u16_bind; first done. rewrite from_to_be_bytes by done. constructor.
  - change (byte_to_Z Byte.x03) with 3. cbn [Z.eqb Pos.eqb]. destruct Hok as [Hok ?].
    unfold str_len in *. apply exec_u8z_bind; first (unfold in_width; lia).
    apply exec_exact_bind; first (unfold len; by rewrite length_as_bytes).
    rewrite <- (app_nil_r (to_be_bytes 2 p)). apply exec_u16_bind; first done.
    rewrite (Hd d Hok). constructor.
Qed.
Lemma never_panics_addr_port decode bad unsupported : never_panics (read_addr_port decode bad unsupported).
Proof. unfold read_addr_port. panic_free. Qed.
#[export] Hint Resolve never_panics_addr_port : procs.
