(* ===== verification/Vless.v ===== *)
(** * VLESS ([src/src/proxy/outbound/vless/], [src/src/proxy/inbound/vless.rs])

    Both ends of the protocol as conversations: the client's request and the
    response it waits for, the server's handler with its table of clients, and
    the UDP frames (XUDP inside length-prefixed frames) of a UDP session.  The
    two ends are joined: a configured client always gets its session, whatever
    it wants to reach and whatever the schedule, and nobody else does. *)

From S2P Require Import Prelude RustStr Addr Rules Framing Xudp Proc.

Definition CMD_TCP : Z := 1.
Definition CMD_UDP : Z := 2.
Definition XRV : string := "xtls-rprx-vision".

(** ** The client *)

Definition encode_addons (flow : option string) : bytes :=
  match flow with
  | Some f =>
      if String.eqb f "" then []
      else [Byte.x0a] ++ [byte_of_Z (str_len f)] ++ as_bytes f
  | None => []
  end.

(** The request header, sent with one [write_all]; a [Uuid] is its 16 bytes. *)
Definition request (uuid : bytes) (target : Address) (flow : option string) (command : Z) : bytes :=
  let addons := encode_addons flow in
  let buf := [Byte.x00] ++ uuid ++ [byte_of_Z (len addons)] ++ addons
             ++ [byte_of_Z command] ++ to_be_bytes 2 (port target) in
  encode_vless target buf.
Definition write_request (uuid : bytes) (target : Address) (flow : option string) (command : Z)
  : proc unit := write_all (request uuid target flow command).

Definition read_response : proc unit :=
  let@ version := read_u8 in
  if negb (version =? 0) then bail "unexpected VLESS response version" else
  let@ addons_len := read_u8 in
  if 0 <? addons_len then let@ _ := read_exact addons_len in Ret tt else Ret tt.

Record VlessOutbound := mkOutbound {
  o_uuid : bytes;
  o_flow : option string;
}.

(** [new]: the flow, when given, must be the vision flow. *)
Definition outbound_new (parse_uuid : string → option bytes) (uuid : string) (flow : option string)
  : result string VlessOutbound :=
  match parse_uuid uuid with
  | None => Err "invalid uuid"%string
  | Some u =>
      match flow with
      | Some f => if String.eqb f XRV then Ok (mkOutbound u flow)
                  else Err "vless: unsupported flow"%string
      | None => Ok (mkOutbound u flow)
      end
  end.

(** [connect] over the stream the transport opened.  The result is whether the
    stream it returns is wrapped in a [VisionStream]: what the caller writes to the
    result then goes through [Vision], and not to this conversation. *)
Definition connect (o : VlessOutbound) (target : Address) : proc bool :=
  let@ _ := write_request (o_uuid o) target (o_flow o) CMD_TCP in
  let@ _ := read_response in
  Ret (bool_decide (o_flow o = Some XRV)).
Definition connect_udp (o : VlessOutbound) (target : Address) : proc unit :=
  let@ _ := write_request (o_uuid o) target None CMD_UDP in
  read_response.

(** ** The server *)

Record VlessClient := mkClient { c_uuid : bytes; c_flow : option string }.
Record VlessInbound := mkInbound {
  tag : string;
  clients : list VlessClient;
  client_map : gmap (list Z) nat;
}.
(** The key of a client: its 16 bytes as numbers. *)
Definition uuid_key (u : bytes) : list Z := byte_to_Z <$> u.

Section New.
Context (parse_uuid : string → option bytes).

Fixpoint parse_clients (l : list (string * option string)) : result string (list VlessClient) :=
  match l with
  | [] => Ok []
  | (u, flow) :: l =>
      match parse_uuid u with
      | None => Err "invalid uuid"%string
      | Some uuid => let? cs := parse_clients l in Ok (mkClient uuid flow :: cs)
      end
  end.

(** [client_map.insert(uuid, idx)] for each client in turn. *)
Fixpoint build_map (idx : nat) (cs : list VlessClient) (m : gmap (list Z) nat) : gmap (list Z) nat :=
  match cs with
  | [] => m
  | c :: cs => build_map (S idx) cs (<[uuid_key (c_uuid c) := idx]> m)
  end.

Definition inbound_new (tag : string) (uuid flow : option string)
    (client_list : option (list (string * option string))) : result string VlessInbound :=
  let? first :=
    match uuid with
    | Some u => parse_clients [(u, flow)]
    | None => Ok []
    end in
  let? more := match client_list with Some l => parse_clients l | None => Ok [] end in
  match first ++ more with
  | [] => Err "requires 'settings.uuid' or non-empty 'settings.clients'"%string
  | cs => Ok (mkInbound tag cs (build_map 0 cs ∅))
  end.
End New.

Definition read_target (port : Z) : proc Address :=
  let@ addr_type := read_u8 in
  if addr_type =? 1 then
    let@ ip := read_exact 4 in Ret (Ip (sock_new (V4 (from_be_bytes ip)) port))
  else if addr_type =? 2 then
    let@ domain_len := read_u8 in
    let@ domain_buf := read_exact domain_len in
    let@ domain := or_bail "invalid domain name encoding" (from_utf8 domain_buf) in
    Ret (Domain domain port)
  else if addr_type =? 3 then
    let@ ip := read_exact 16 in Ret (Ip (sock_new (V6 (from_be_bytes ip)) port))
  else bail "unknown VLESS address type".

Definition handle (i : VlessInbound) (source : SocketAddr) : proc Session :=
  let@ version := read_u8 in
  if negb (version =? 0) then bail "unsupported VLESS version" else
  let@ uuid_bytes := read_exact 16 in
  let@ client_idx := or_bail "unknown client UUID" (client_map i !! uuid_key uuid_bytes) in
  match clients i !! client_idx with
  | None => Stop Panicked
  | Some _client =>
      let@ addons_len := read_u8 in
      let@ _ := if 0 <? addons_len then read_exact addons_len else Ret [] in
      let@ command := read_u8 in
      let@ port := read_u16 in
      let@ target := read_target port in
      let@ _ := write_all [Byte.x00; Byte.x00] in
      let network := if command =? 2 then Udp else Tcp in
      Ret (mkSession target (Some source) (tag i) network false None)
  end.

(** ** UDP *)

Definition write_udp_frame (data : bytes) : proc unit :=
  write_all (to_be_bytes 2 (wrap 16 (len data)) ++ data).
Definition read_udp_frame : proc bytes :=
  let@ l := read_u16 in
  if l =? 0 then bail "VLESS UDP frame with zero length" else read_exact l.

Record VlessUdpTransport := mkUdp {
  u_target : Address;
  u_session : Z;
  session_opened : bool;
}.

Definition send (t : VlessUdpTransport) (p : UdpPacket) : proc VlessUdpTransport :=
  let@ t :=
    if session_opened t then Ret t
    else let@ _ := write_udp_frame (encode (new_session (u_session t) (p_addr p))) in
         Ret (mkUdp (u_target t) (u_session t) true) in
  let@ _ := write_udp_frame (encode (Xudp.data (u_session t) (p_addr p) (p_data p))) in
  Ret t.

(** One turn of the loop of [recv]: [None] goes round again. *)
Definition recv_turn (t : VlessUdpTransport) : proc (option UdpPacket) :=
  let@ data := read_udp_frame in
  match decode data with
  | Ok (frame, _) =>
      if frame_type frame =? 2 then
        Ret (Some (mkPacket (default (u_target t) (address frame)) (payload frame)))
      else if frame_type frame =? 3 then bail "XUDP session closed by remote"
      else Ret None
  | Err _ => Ret (Some (mkPacket (u_target t) data))
  end.
(** [fuel] turns at most; [None] when they are used up. *)
Fixpoint recv (fuel : nat) (t : VlessUdpTransport) : proc (option UdpPacket) :=
  match fuel with
  | O => Ret None
  | S fuel =>
      let@ r := recv_turn t in
      match r with Some p => Ret (Some p) | None => recv fuel t end
  end.

(** ** The handshake *)

Lemma exec_read_target a i r o (f : Address → proc Session) :
  addr_ok a → addr_short a → addr_plain a →
  exec (f a) i r o →
  exec (let@ t := read_target (port a) in f t) (encode_vless a [] ++ i) r o.
Proof.
  intros Hok Hs Hp Hf.
  assert (exec (read_target (port a)) (encode_vless a []) (Ret a) []) as H.
  { unfold read_target. destruct a as [[ip p|ip p fl sc]|d p]; cbn [encode_vless app port sock_port addr_ok sock_ok addr_short addr_plain] in *.
    - destruct Hok. apply exec_u8_bind. change (byte_to_Z Byte.x01 =? 1) with true. cbn iota.
      rewrite <- (app_nil_r (to_be_bytes 4 ip)).
      apply exec_exact_bind; first done. rewrite from_to_be_4 by done. constructor.
    - destruct Hok as (?&?&_), Hp as [-> ->]. apply exec_u8_bind.
      change (byte_to_Z Byte.x03) with 3. cbn [Z.eqb Pos.eqb].
      rewrite <- (app_nil_r (to_be_bytes 16 ip)).
      apply exec_exact_bind; first done. rewrite from_to_be_bytes by done. constructor.
    - destruct Hok. apply exec_u8_bind. change (byte_to_Z Byte.x02) with 2. cbn [Z.eqb Pos.eqb].
      unfold str_len in *. apply exec_u8z_bind; first (unfold in_width; lia).
      rewrite <- (app_nil_r (as_bytes d)).
      apply exec_exact_bind; first (unfold len; by rewrite length_as_bytes).
      rewrite from_utf8_as_bytes by done. constructor. }
  exact (exec_then_quiet _ _ f _ _ _ _ H Hf).
Qed.

Definition known (i : VlessInbound) (uuid : bytes) : Prop :=
  ∃ idx c, client_map i !! uuid_key uuid = Some idx ∧ clients i !! idx = Some c.

Lemma uuid_key_inj u v : uuid_key u = uuid_key v → u = v.
Proof. apply list_fmap_eq_inj. intros a b. apply byte_to_Z_inj. Qed.

Lemma build_map_spec cs : ∀ idx m u,
  (∃ k, build_map idx cs m !! uuid_key u = Some k ∧
     ((∃ j c, k = idx + j ∧ cs !! j = Some c ∧ c_uuid c = u)%nat
      ∨ (m !! uuid_key u = Some k ∧ u ∉ c_uuid <$> cs)))
  ∨ (build_map idx cs m !! uuid_key u = None ∧ m !! uuid_key u = None ∧ u ∉ c_uuid <$> cs).
Proof.
  induction cs as [|c cs IH]; intros idx m u; simpl.
  { destruct (m !! uuid_key u) as [k|] eqn:E; [left; exists k|right];
      repeat split; try done; try right; repeat split; try done; apply not_elem_of_nil. }
  destruct (IH (S idx) (<[uuid_key (c_uuid c) := idx]> m) u) as [(k&Hk&[(j&c'&->&Hj&Hu)|[Hm Hn]])|(Hk&Hm&Hn)].
  - left. exists (S idx + j)%nat. split; first done. left. exists (S j), c'. repeat split; [lia|done|done].
  - left. exists k. split; first done. destruct (decide (c_uuid c = u)) as [<-|Hne].
    + rewrite lookup_insert_eq in Hm. simplify_eq. left. exists 0%nat, c. repeat split; lia.
    + right. rewrite lookup_insert_ne in Hm by (intros E%uuid_key_inj; done). split; first done.
      rewrite not_elem_of_cons. split; [congruence|done].
  - right. destruct (decide (c_uuid c = u)) as [<-|Hne].
    { by rewrite lookup_insert_eq in Hm. }
    rewrite lookup_insert_ne in Hm by (intros E%uuid_key_inj; done).
    rewrite not_elem_of_cons. repeat split; [done|done|congruence|done].
Qed.

(** An inbound made by [new] knows exactly the clients of its settings. *)
Lemma inbound_new_known parse t uuid flow cl i u :
  inbound_new parse t uuid flow cl = Ok i →
  tag i = t
  ∧ (u ∈ c_uuid <$> clients i → known i u)
  ∧ (client_map i !! uuid_key u ≠ None → u ∈ c_uuid <$> clients i).
Proof.
  unfold inbound_new. intros H.
  apply bind_Ok in H as (first_&_&H). apply bind_Ok in H as (more&_&H).
  destruct (first_ ++ more) as [|c cs] eqn:E; first done. injection H as <-.
  cbn [tag clients client_map]. split; first done. unfold known. cbn [clients client_map].
  destruct (build_map_spec (c :: cs) 0 ∅ u) as [(k&Hk&[(j&c'&->&Hj&Hu)|[Hm _]])|(Hk&_&Hn)].
  - split; [intros _; by exists j, c'|intros _]. subst u. apply list_elem_of_fmap.
    exists c'. split; [done|by eapply list_elem_of_lookup_2].
  - by rewrite lookup_empty in Hm.
  - split; [done|intros Hx; by destruct Hx].
Qed.

Lemma exec_skip_addons {A} (a : bytes) (f : bytes → proc A) i r o :
  len a < 256 → (∀ b, exec (f b) i r o) →
  exec (let@ n := read_u8 in let@ b := (if 0 <? n then read_exact n else Ret []) in f b)
    (byte_of_Z (len a) :: a ++ i) r o.
Proof.
  intros Ha Hf. pose proof (len_nonneg a). apply exec_u8z_bind; first (unfold in_width; lia).
  destruct (Z.ltb_spec 0 (len a)) as [Hpos|Hz]; first by apply exec_exact_bind.
  destruct a; [apply exec_ret_bind, Hf|unfold len in Hz; cbn [length] in Hz; lia].
Qed.

(** The server's side: it reads the request, and the request only. *)
Lemma exec_handle i source uuid target flow command :
  known i uuid → length uuid = 16%nat → len (encode_addons flow) < 256 → u8_ok command →
  addr_ok target → addr_short target → addr_plain target →
  exec (handle i source) (request uuid target flow command)
    (Ret (mkSession target (Some source) (tag i) (if command =? 2 then Udp else Tcp) false None))
    [Byte.x00; Byte.x00].
Proof.
  intros (idx&c&Hm&Hc) Hu Hf Hcmd Hok Hs Hp.
  unfold request. rewrite encode_vless_app, <- !app_assoc. cbn [app].
  apply exec_u8_bind. change (negb (byte_to_Z Byte.x00 =? 0)) with false. cbn iota.
  apply exec_exact_bind; first (unfold len; by rewrite Hu).
  rewrite Hm. apply exec_ret_bind. rewrite Hc. apply exec_skip_addons; first done. intros _.
  apply exec_u8z_bind; first done. apply exec_u16_bind; first by apply port_ok.
  rewrite <- (app_nil_r (encode_vless target [])). apply exec_read_target; try done.
  rewrite <- (app_nil_r [Byte.x00; Byte.x00]). apply exec_write_bind. constructor.
Qed.

Lemma exec_response : exec read_response [Byte.x00; Byte.x00] (Ret tt) [].
Proof. do 2 (apply exec_u8_bind; cbv beta). exact (exec_refl (Ret tt)). Qed.

Section Handshake.
Context (parse_uuid : string → option bytes).
(** A parsed [Uuid] has 16 bytes. *)
Hypothesis uuid_16 : ∀ s u, parse_uuid s = Some u → length u = 16%nat.

Lemma outbound_new_ok uuid flow o :
  outbound_new parse_uuid uuid flow = Ok o →
  length (o_uuid o) = 16%nat ∧ o_flow o = flow ∧ len (encode_addons flow) < 256.
Proof.
  unfold outbound_new. intros H. destruct (parse_uuid uuid) as [u|] eqn:E; last done.
  apply uuid_16 in E. destruct flow as [f|]; last by injection H as <-.
  destruct (String.eqb_spec f XRV) as [->|]; [by injection H as <-|done].
Qed.

(** C23: a client configured in the server's settings gets its session.  The
    client's [connect] (request, then wait for the response) and the server's
    [handle], run against each other under any schedule, end with the client holding
    a stream, wrapped for the vision flow exactly when that was asked for, and the
    server holding a TCP session for exactly the address the client asked for, with
    nothing left in either direction to skip.  Without the vision flow the bytes the
    client writes next are what the server's stream yields first. *)
Theorem vless_handshake tag uuid flow cl i my_uuid my_flow o target source early :
  inbound_new parse_uuid tag uuid flow cl = Ok i →
  outbound_new parse_uuid my_uuid my_flow = Ok o →
  o_uuid o ∈ c_uuid <$> clients i →
  addr_ok target → addr_short target → addr_plain target →
  settles (Net (connect o target) (handle i source) [] [])
          (Net (Ret (bool_decide (my_flow = Some XRV)))
               (Ret (mkSession target (Some source) tag Tcp false None)) [] [])
  ∧ (my_flow = None →
     settles (Net (let@ v := connect o target in let@ _ := write_all early in Ret v)
                  (handle i source) [] [])
             (Net (Ret false) (Ret (mkSession target (Some source) tag Tcp false None)) early [])).
Proof.
  intros Hi Ho Hin Hok Hs Hp. destruct (outbound_new_ok _ _ _ Ho) as (Hu&<-&Hfit).
  destruct (inbound_new_known _ _ _ _ _ _ (o_uuid o) Hi) as (<-&Hk&_).
  pose proof (exec_handle i source (o_uuid o) target (o_flow o) CMD_TCP (Hk Hin) Hu Hfit ltac:(done) Hok Hs Hp) as Hex.
  assert (Hb : o_flow o = None → false = bool_decide (o_flow o = Some XRV)) by (intros ->; done).
  split; [|intros Hf; rewrite (Hb Hf) at 1];
    (apply joined_by_parts; [|done|done]); (eapply joined_client; [exact (exec_put _ _)|]).
  - eapply (joined_server _ _ _ (Ret _) _ _ [] _ []); [exact Hex|by rewrite app_nil_r| |constructor].
    change [Byte.x00; Byte.x00] with ([Byte.x00] ++ [Byte.x00] ++ []). do 2 (constructor; first done). constructor.
  - eapply (joined_server _ _ _ (Ret _) _ _ [] _ early); [exact Hex|by rewrite app_nil_r| |constructor].
    change [Byte.x00; Byte.x00] with ([Byte.x00] ++ [Byte.x00] ++ []). do 2 (constructor; first done). exact (exec_put _ _).
Qed.
End Handshake.

Definition sample_parse (s : string) : option bytes :=
  if String.eqb s "first" then Some (replicate 16 Byte.x07)
  else if String.eqb s "second" then Some (replicate 16 Byte.x09) else None.
Definition sample_inbound : VlessInbound :=
  match inbound_new sample_parse "in" (Some "first"%string) None (Some [("second"%string, Some XRV)]) with
  | Ok i => i
  | Err _ => mkInbound "" [] ∅
  end.
Lemma sample_parse_16 s u : sample_parse s = Some u → length u = 16%nat.
Proof. unfold sample_parse. by repeat case_match; intros; simplify_eq. Qed.

Lemma vless_handshake_witness :
  settles (Net (let@ v := connect (mkOutbound (replicate 16 Byte.x09) None) (Domain "a.b" 443) in
                let@ _ := write_all [Byte.x16; Byte.x03] in Ret v)
               (handle sample_inbound (SockV4 1 2)) [] [])
          (Net (Ret false)
               (Ret (mkSession (Domain "a.b" 443) (Some (SockV4 1 2)) "in" Tcp false None))
               [Byte.x16; Byte.x03] []).
Proof.
  refine (proj2 (vless_handshake sample_parse sample_parse_16 "in" (Some "first"%string) None
    (Some [("second"%string, Some XRV)]) sample_inbound "second" None _ _ _ _ _ _ _ _ _ _) _); try done.
  right. left.
Defined.

(** ** Nobody else gets in *)

Lemma handle_no_panic parse t uuid flow cl i source :
  inbound_new parse t uuid flow cl = Ok i → never_panics (handle i source).
Proof.
  intros Hi. unfold handle.
  apply never_panics_bind; first auto with procs. intros version.
  destruct (negb _); first auto with procs.
  apply never_panics_bind; first auto with procs. intros u.
  destruct (client_map i !! uuid_key u) as [idx|] eqn:E; last done.
  cbn [or_bail bind_proc].
  destruct (proj1 (proj2 (inbound_new_known _ _ _ _ _ _ u Hi))) as (idx'&c&E'&Hc).
  { eapply inbound_new_known; first done. by rewrite E. }
  simplify_eq. rewrite Hc. unfold read_target. panic_free.
Qed.

(** C24: the server opens a session only for a configured client: whatever bytes arrive, a session means that they start with version 0 and the 16 bytes of a client of the settings; a well-formed request of an unknown client is refused before anything is written back; and no input makes the handler panic (the index stored for a client is always one of the client list). *)
Theorem vless_only_known_clients parse t uuid flow cl i source input :
  inbound_new parse t uuid flow cl = Ok i →
  (∀ s rest out, run (handle i source) input = (Ok s, rest, out) →
     ∃ u after, input = Byte.x00 :: u ++ after ∧ length u = 16%nat ∧ u ∈ c_uuid <$> clients i)
  ∧ (∀ u after, input = Byte.x00 :: u ++ after → length u = 16%nat → u ∉ c_uuid <$> clients i →
     run (handle i source) input = (Err (Bail "unknown client UUID"), after, []))
  ∧ (run (handle i source) input).1.1 ≠ Err Panicked.
Proof.
  intros Hi. split; [|split].
  - intros s rest out (v&r1&o1&o2&H1&H2&_)%run_bind_Ok.
    apply run_u8_Ok in H1 as (b&->&->&_).
    destruct (Z.eqb_spec (byte_to_Z b) 0) as [Hb|]; last done. simpl negb in H2. cbn iota in H2.
    assert (b = Byte.x00) as -> by by apply byte_to_Z_inj.
    apply run_bind_Ok in H2 as (u&r2&o3&o4&H2&H3&_).
    apply run_exact_Ok in H2 as (Hlen&->&->&_). change (Z.to_nat 16) with 16%nat in H3.
    apply run_bind_Ok in H3 as (idx&r3&o5&o6&H3&_&_).
    exists (take 16 r1), (drop 16 r1). rewrite take_drop. split; first done.
    split; first (rewrite length_take; unfold len in Hlen; lia).
    eapply inbound_new_known; first done. intros E. by rewrite E in H3.
  - intros u after -> Hu Hn.
    assert (client_map i !! uuid_key u = None) as E.
    { destruct (client_map i !! uuid_key u) eqn:E; last done. destruct Hn.
      eapply inbound_new_known; first done. by rewrite E. }
    assert (exec (handle i source) ([Byte.x00] ++ u) (bail "unknown client UUID") []) as H.
    { apply exec_u8_bind. rewrite <- (app_nil_r u).
      apply exec_exact_bind; first (unfold len; by rewrite Hu). rewrite E. constructor. }
    change (Byte.x00 :: u ++ after) with (([Byte.x00] ++ u) ++ after).
    exact (exec_run _ _ _ _ after H).
  - by eapply never_panics_run, handle_no_panic.
Qed.

Lemma vless_only_known_clients_witness :
  (∀ s rest out, run (handle sample_inbound (SockV4 1 2)) (Byte.x00 :: replicate 16 Byte.x08 ++ [Byte.x00]) = (Ok s, rest, out) →
     ∃ u after, Byte.x00 :: replicate 16 Byte.x08 ++ [Byte.x00] = Byte.x00 :: u ++ after ∧ length u = 16%nat
       ∧ u ∈ c_uuid <$> clients sample_inbound)
  ∧ (∀ u after, Byte.x00 :: replicate 16 Byte.x08 ++ [Byte.x00] = Byte.x00 :: u ++ after → length u = 16%nat →
     u ∉ c_uuid <$> clients sample_inbound →
     run (handle sample_inbound (SockV4 1 2)) (Byte.x00 :: replicate 16 Byte.x08 ++ [Byte.x00])
     = (Err (Bail "unknown client UUID"), after, []))
  ∧ (run (handle sample_inbound (SockV4 1 2)) (Byte.x00 :: replicate 16 Byte.x08 ++ [Byte.x00])).1.1 ≠ Err Panicked.
Proof.
  apply (vless_only_known_clients sample_parse "in" (Some "first"%string) None
    (Some [("second"%string, Some XRV)])). done.
Defined.

(** ** UDP frames *)

Lemma exec_udp_frame d : 1 <= len d < 65536 →
  exec read_udp_frame (to_be_bytes 2 (wrap 16 (len d)) ++ d) (Ret d) [].
Proof.
  intros H. rewrite wrap_small by (unfold in_width; lia).
  apply exec_u16_bind; first (unfold in_width; lia).
  rewrite (proj2 (Z.eqb_neq _ _)) by lia. by apply exec_exact.
Qed.

Definition packet_ok (p : UdpPacket) : Prop :=
  addr_ok (p_addr p) ∧ addr_short (p_addr p) ∧ addr_plain (p_addr p)
  ∧ len (encode (Xudp.data 0 (p_addr p) (p_data p))) < 65536.

(** The length of an encoded frame does not depend on the session. *)
Lemma len_encode_data id a d : len (encode (Xudp.data id a d)) = 3 + len (encode_address a) + 2 + len d.
Proof. unfold encode, len. cbn [Xudp.data frame_type address payload session_id]. rewrite !length_app, !length_to_be_bytes. cbn [length]. lia. Qed.
Lemma len_encode_new id a : len (encode (new_session id a)) = 3 + len (encode_address a) + 2.
Proof. unfold encode, len. cbn [new_session frame_type address payload session_id]. rewrite !length_app, !length_to_be_bytes. cbn [length]. lia. Qed.

Lemma exec_recv_data fuel t id p :
  u16_ok id → packet_ok p →
  let d := encode (Xudp.data id (p_addr p) (p_data p)) in
  exec (recv (S fuel) t) (to_be_bytes 2 (wrap 16 (len d)) ++ d) (Ret (Some p)) [].
Proof.
  intros Hid (Ha&Hs&Hp&Hl) d. cbn [recv]. rewrite <- (app_nil_r (_ ++ d)).
  apply (exec_then_quiet _ (Some p)); last constructor.
  unfold recv_turn. rewrite <- (app_nil_r (_ ++ d)). apply (exec_then_quiet _ d).
  { apply exec_udp_frame. unfold d. rewrite len_encode_data in *.
    pose proof (len_nonneg (encode_address (p_addr p))). pose proof (len_nonneg (p_data p)). lia. }
  rewrite <- (app_nil_r d). unfold d. rewrite xudp_decode_encode.
  { destruct p. constructor. }
  rewrite len_encode_data in Hl. pose proof (len_nonneg (encode_address (p_addr p))).
  pose proof (len_nonneg (p_data p)).
  refine (conj _ (conj Hid (conj _ (conj (or_intror eq_refl) (conj Ha (conj Hs Hp)))))); first done.
  cbn. unfold in_width. lia.
Qed.

(** The NEW frame that opens a session is read and skipped. *)
Lemma exec_recv_new fuel t id a i r :
  u16_ok id → addr_ok a → addr_short a → addr_plain a →
  exec (recv fuel t) i r [] →
  let d := encode (new_session id a) in
  exec (recv (S fuel) t) (to_be_bytes 2 (wrap 16 (len d)) ++ d ++ i) r [].
Proof.
  intros Hid Ha Hs Hp Hi d. cbn [recv]. rewrite app_assoc.
  apply (exec_then_quiet _ None); last done.
  unfold recv_turn. rewrite <- (app_nil_r (_ ++ d)). apply (exec_then_quiet _ d).
  { apply exec_udp_frame. unfold d. rewrite len_encode_new. unfold len.
    rewrite length_encode_address. destruct a as [[]|dm ?]; try lia. cbn in Hs. unfold str_len in Hs. lia. }
  rewrite <- (app_nil_r d). unfold d. rewrite xudp_decode_encode; first constructor.
  by refine (conj _ (conj Hid (conj _ (conj (or_introl eq_refl) (conj Ha (conj Hs Hp)))))).
Qed.

(** A sender that sends a list of packets, a receiver that collects as many. *)
Fixpoint send_all (t : VlessUdpTransport) (ps : list UdpPacket) : proc VlessUdpTransport :=
  match ps with
  | [] => Ret t
  | p :: ps => let@ t := send t p in send_all t ps
  end.
Fixpoint recv_all (n : nat) (t : VlessUdpTransport) : proc (list UdpPacket) :=
  match n with
  | O => Ret []
  | S n =>
      let@ r := recv 2 t in
      match r with
      | Some p => let@ ps := recv_all n t in Ret (p :: ps)
      | None => bail "out of turns"
      end
  end.

Lemma exec_send_all id tgt ps : ∀ opened, ∃ out,
  exec (send_all (mkUdp tgt id opened) ps) [] (Ret (mkUdp tgt id (opened || negb (bool_decide (ps = []))))) out
  ∧ (u16_ok id → Forall packet_ok ps → ∀ t, exec (recv_all (length ps) t) out (Ret ps) []).
Proof.
  induction ps as [|p ps IH]; intros opened; cbn [send_all recv_all length].
  { exists []. rewrite bool_decide_true, orb_false_r by done. split; intros; constructor. }
  destruct (IH true) as (out&Hs&Hr).
  set (d := encode (Xudp.data id (p_addr p) (p_data p))).
  set (f := to_be_bytes 2 (wrap 16 (len d)) ++ d).
  set (d' := encode (new_session id (p_addr p))).
  set (f' := to_be_bytes 2 (wrap 16 (len d')) ++ d').
  exists ((if opened then f else f' ++ f) ++ out). split.
  - rewrite orb_true_r. eapply (exec_then _ (mkUdp tgt id true) _ _ []); [|exact Hs|done|done].
    destruct opened; [exact (exec_put f _)|].
    exact (exec_write _ _ _ _ _ (exec_put f _)).
  - intros Hid [Hp Hps]%Forall_cons t.
    assert (exec (recv 2 t) (if opened then f else f' ++ f) (Ret (Some p)) []) as H.
    { destruct opened; first by apply exec_recv_data.
      unfold f'. rewrite <- app_assoc. destruct Hp as (?&?&?&?) eqn:E.
      apply exec_recv_new; try done. by apply exec_recv_data. }
    apply (exec_then_quiet _ _ _ _ _ _ _ H). cbv beta iota.
    rewrite <- (app_nil_r out). apply (exec_then_quiet _ ps); [by apply Hr|constructor].
Qed.

(** UDP packets sent through a VLESS session are received one for one, in order and with their addresses: the first [send] opens the session with a NEW frame, which the receiver skips, and each packet whose XUDP frame fits the 16-bit length of a VLESS frame comes out of one [recv] as it went into [send], under any schedule of the two ends; two turns of the receive loop are enough for each. *)
Theorem vless_udp_in_order id tgt t ps :
  u16_ok id → Forall packet_ok ps →
  settles (Net (send_all (mkUdp tgt id false) ps) (recv_all (length ps) t) [] [])
          (Net (Ret (mkUdp tgt id (negb (bool_decide (ps = []))))) (Ret ps) [] []).
Proof.
  intros Hid Hps. destruct (exec_send_all id tgt ps false) as (out&Hs&Hr).
  apply joined_by_parts; try done. eapply joined_client; first exact Hs.
  eapply (joined_server _ _ (Ret ps) _ _ out [] [] []);
    [by apply Hr|by rewrite app_nil_r|constructor|constructor].
Qed.
Lemma vless_udp_in_order_witness :
  settles (Net (send_all (mkUdp (Domain "a.b" 53) 7 false)
                 [mkPacket (Ip (SockV4 1 53)) [Byte.x41]; mkPacket (Domain "c.d" 53) []])
               (recv_all 2 (mkUdp (Domain "x.y" 1) 9 true)) [] [])
          (Net (Ret (mkUdp (Domain "a.b" 53) 7 true))
               (Ret [mkPacket (Ip (SockV4 1 53)) [Byte.x41]; mkPacket (Domain "c.d" 53) []]) [] []).
Proof.
  apply (vless_udp_in_order 7 (Domain "a.b" 53) (mkUdp (Domain "x.y" 1) 9 true)
    [mkPacket (Ip (SockV4 1 53)) [Byte.x41]; mkPacket (Domain "c.d" 53) []]); first done.
  repeat constructor; done.
Defined.

(** A frame of 65536 bytes or more is announced with its length modulo 65536: the receiver gets a truncated frame (or an error, when nothing is left of the length) and takes the remaining bytes for the next frame. *)
Theorem vless_udp_oversized_misframed d out :
  65536 <= len d → exec (write_udp_frame d) [] (Ret tt) out →
  run read_udp_frame out =
    if len d mod 65536 =? 0 then (Err (Bail "VLESS UDP frame with zero length"), d, [])
    else (Ok (take (Z.to_nat (len d mod 65536)) d), drop (Z.to_nat (len d mod 65536)) d, []).
Proof.
  intros Hd H.
  assert (out = to_be_bytes 2 (wrap 16 (len d)) ++ d) as ->.
  { inversion H as [|? ? ? ? ? Hk|]; subst. inversion Hk; subst. by rewrite app_nil_r. }
  unfold wrap. change (2 ^ 16) with 65536. pose proof (Z.mod_pos_bound (len d) 65536).
  set (l := len d mod 65536) in *. unfold read_udp_frame. rewrite run_bind.
  rewrite (exec_run_ret _ l _ _ d (exec_u16 l ltac:(unfold in_width; lia))).
  destruct (Z.eqb_spec l 0); first done. simpl. rewrite (proj2 (Z.ltb_ge _ _)) by lia. done.
Qed.
Lemma vless_udp_oversized_misframed_witness :
  run read_udp_frame (to_be_bytes 2 (wrap 16 (len (replicate (Z.to_nat 65537) Byte.x41)))
                      ++ replicate (Z.to_nat 65537) Byte.x41)
  = (Ok (take (Z.to_nat 1) (replicate (Z.to_nat 65537) Byte.x41)),
     drop (Z.to_nat 1) (replicate (Z.to_nat 65537) Byte.x41), []).
Proof.
  assert (len (replicate (Z.to_nat 65537) Byte.x41) = 65537) as E
    by (unfold len; rewrite length_replicate; lia).
  rewrite (vless_udp_oversized_misframed (replicate (Z.to_nat 65537) Byte.x41)); rewrite ?E; [done|lia|].
  rewrite <- E at 1. exact (exec_put _ _).
Defined.
