(* ===== verification/Trojan.v ===== *)
(** * Trojan ([src/src/proxy/outbound/trojan/], [src/src/proxy/inbound/trojan.rs])

    The client's request, the server's handler and the UDP frames, as
    conversations.  SHA-224 comes from a library and is a parameter; its output
    has 28 bytes. *)

From S2P Require Import Prelude RustStr Addr IpText Rules Proc.

Definition CMD_CONNECT : Z := 1.
Definition CMD_UDP_ASSOCIATE : Z := 3.
Definition CRLF : bytes := [Byte.x0d; Byte.x0a].

Definition hex_byte (b : byte) : string :=
  String (hex_char (byte_to_Z b / 16)) (String (hex_char (byte_to_Z b mod 16)) "").
Fixpoint hex_encode (l : bytes) : string :=
  match l with
  | [] => ""
  | b :: l => hex_byte b +:+ hex_encode l
  end.
Definition password_hash (sha224 : bytes → bytes) (password : string) : string :=
  hex_encode (sha224 (as_bytes password)).

Definition encode_trojan_addr (addr : Address) : bytes :=
  match addr with
  | Ip (SockV4 ip port) => [Byte.x01] ++ to_be_bytes 4 ip ++ to_be_bytes 2 port
  | Ip (SockV6 ip port _ _) => [Byte.x04] ++ to_be_bytes 16 ip ++ to_be_bytes 2 port
  | Domain domain port =>
      [Byte.x03] ++ [byte_of_Z (str_len domain)] ++ as_bytes domain ++ to_be_bytes 2 port
  end.

(** ** The client *)

Definition request (password_hash : string) (target : Address) (command : Z) : bytes :=
  as_bytes password_hash ++ CRLF ++ [byte_of_Z command] ++ encode_trojan_addr target ++ CRLF.
Definition write_request (password_hash : string) (target : Address) (command : Z) : proc unit :=
  write_all (request password_hash target command).

Record TrojanOutbound := mkOutbound { o_hash : string }.
Definition outbound_new (sha224 : bytes → bytes) (password : string) : TrojanOutbound :=
  mkOutbound (password_hash sha224 password).
(** [connect] and [connect_udp] over the stream the transport opened. *)
Definition connect (o : TrojanOutbound) (target : Address) : proc unit :=
  write_request (o_hash o) target CMD_CONNECT.
Definition connect_udp (o : TrojanOutbound) (target : Address) : proc unit :=
  write_request (o_hash o) target CMD_UDP_ASSOCIATE.

(** ** The server *)

Record TrojanInbound := mkInbound { tag : string; password_hashes : list string }.
Definition inbound_new (sha224 : bytes → bytes) (tag : string) (password : option string)
  : result string TrojanInbound :=
  match password with
  | Some p => Ok (mkInbound tag [password_hash sha224 p])
  | None => Err "trojan inbound requires 'settings.password'"%string
  end.

Definition handle (i : TrojanInbound) (source : SocketAddr) : proc Session :=
  let@ hash_buf := read_exact 56 in
  let@ received_hash := or_bail "trojan inbound: invalid password hash encoding" (from_utf8 hash_buf) in
  if negb (bool_decide (received_hash ∈ password_hashes i)) then bail "authentication failed" else
  let@ crlf := read_exact 2 in
  if negb (bool_decide (crlf = CRLF)) then bail "trojan inbound: expected CRLF after password hash" else
  let@ command := read_u8 in
  let@ target := read_addr_port from_utf8 "trojan inbound: invalid domain encoding"
                   "trojan inbound: unsupported address type" in
  let@ _crlf := read_exact 2 in
  let network := if command =? 3 then Udp else Tcp in
  Ret (mkSession target (Some source) (tag i) network false None).

(** ** UDP frames *)

Definition udp_frame (addr : Address) (payload : bytes) : bytes :=
  encode_trojan_addr addr ++ to_be_bytes 2 (wrap 16 (len payload)) ++ CRLF ++ payload.
Definition write_udp_frame (addr : Address) (payload : bytes) : proc unit :=
  write_all (udp_frame addr payload).
Definition read_udp_frame : proc (Address * bytes) :=
  let@ addr := read_addr_port from_utf8 "invalid utf-8" "trojan: unsupported address type" in
  let@ l := read_u16 in
  let@ _crlf := read_exact 2 in
  let@ payload := read_exact l in
  Ret (addr, payload).

(** ** Hashes *)

Lemma encode_trojan_addr_socks5 a : encode_trojan_addr a = encode_socks5 a [].
Proof. by destruct a as [[]|]. Qed.

Lemma hex_byte_inj a b : hex_byte a = hex_byte b → a = b.
Proof.
  intros H.
  assert (forallb (fun a => forallb (fun b => implb (String.eqb (hex_byte (byte_of_Z a)) (hex_byte (byte_of_Z b))) (a =? b))
    (seqZ 0 256)) (seqZ 0 256) = true) as E by (vm_compute; reflexivity).
  rewrite forallb_forall in E.
  assert (∀ b, In (byte_to_Z b) (seqZ 0 256)) as Hin.
  { intros c. apply list_elem_of_In, elem_of_seqZ. pose proof (byte_to_Z_range c). lia. }
  pose proof (proj1 (forallb_forall _ _) (E _ (Hin a)) _ (Hin b)) as E'. cbv beta in E'.
  rewrite !byte_of_to_Z, H, String.eqb_refl in E'. apply byte_to_Z_inj. by apply Z.eqb_eq.
Qed.
Lemma hex_encode_cons b l :
  hex_encode (b :: l) = String (hex_char (byte_to_Z b / 16)) (String (hex_char (byte_to_Z b mod 16)) (hex_encode l)).
Proof. done. Qed.
Lemma hex_encode_inj l l' : hex_encode l = hex_encode l' → l = l'.
Proof.
  revert l'. induction l as [|b l IH]; intros [|b' l']; rewrite ?hex_encode_cons; try done.
  intros [= H1 H2 H3]. f_equal; [|by apply IH]. apply hex_byte_inj. unfold hex_byte. by rewrite H1, H2.
Qed.
Lemma length_hex_encode l : String.length (hex_encode l) = (2 * length l)%nat.
Proof. induction l; [done|]. rewrite hex_encode_cons. simpl. lia. Qed.

Lemma hex_encode_ok l : str_ok (hex_encode l).
Proof.
  apply utf8_valid_ascii. induction l as [|b l IH]; [constructor|]. rewrite hex_encode_cons.
  assert (∀ d, 0 <= d < 16 → byte_to_Z (Ascii.byte_of_ascii (hex_char d)) < 128) as Hc.
  { assert (forallb (fun d => byte_to_Z (Ascii.byte_of_ascii (hex_char d)) <? 128) (seqZ 0 16) = true) as E
      by (vm_compute; reflexivity).
    intros d Hd. apply Z.ltb_lt. apply (proj1 (forallb_forall _ _) E). apply list_elem_of_In, elem_of_seqZ. lia. }
  pose proof (byte_to_Z_range b).
  constructor; [apply Hc; split; [apply Z.div_pos; lia|apply Z.div_lt_upper_bound; lia]|].
  constructor; [apply Hc, Z.mod_pos_bound; lia|exact IH].
Qed.

(** ** The handshake *)

Lemma exec_trojan_handle i source hash target command :
  hash ∈ password_hashes i → str_ok hash → String.length hash = 56%nat → u8_ok command →
  addr_ok target → addr_short target → addr_plain target →
  exec (handle i source) (request hash target command)
    (Ret (mkSession target (Some source) (tag i) (if command =? 3 then Udp else Tcp) false None)) [].
Proof.
  intros Hin Hh Hl Hc Hok Hs Hp. unfold request, handle.
  apply exec_exact_bind; first (unfold len; by rewrite length_as_bytes, Hl).
  rewrite from_utf8_as_bytes by done. cbn [or_bail bind_proc].
  rewrite bool_decide_true by done. cbn [negb].
  apply exec_exact_bind; first done. rewrite bool_decide_true by done. cbn [negb].
  apply exec_u8z_bind; first done. rewrite encode_trojan_addr_socks5.
  eapply exec_then_quiet; first by apply exec_addr_port; first apply from_utf8_as_bytes.
  rewrite <- (app_nil_r CRLF). apply exec_exact_bind; [done|constructor].
Qed.

Section Handshake.
Context (sha224 : bytes → bytes).
(** A SHA-224 digest has 28 bytes. *)
Hypothesis sha224_28 : ∀ m, length (sha224 m) = 28%nat.

Lemma length_password_hash p : String.length (password_hash sha224 p) = 56%nat.
Proof. unfold password_hash. by rewrite length_hex_encode, sha224_28. Qed.

(** A Trojan client that knows the password always gets its session, and the request ends exactly where the payload begins: client and server, run against each other under any schedule, end with the server holding a session for the address the client asked for (UDP for the associate command, TCP otherwise), whatever the client writes right behind the request being what the server's stream yields first; the server answers nothing. *)
Theorem trojan_handshake tag password i target udp source early :
  inbound_new sha224 tag (Some password) = Ok i →
  addr_ok target → addr_short target → addr_plain target →
  settles
    (Net (let@ _ := (if (udp : bool) then connect_udp else connect) (outbound_new sha224 password) target in
          write_all early) (handle i source) [] [])
    (Net (Ret tt) (Ret (mkSession target (Some source) tag (if udp then Udp else Tcp) false None)) early []).
Proof.
  intros [= <-] Hok Hs Hp. apply joined_by_parts; try done.
  set (cmd := if udp then CMD_UDP_ASSOCIATE else CMD_CONNECT).
  eapply joined_client with (o := request (password_hash sha224 password) target cmd ++ early).
  { unfold cmd. destruct udp; exact (exec_write _ _ _ _ _ (exec_put early _)). }
  eapply (joined_server _ _ _ _ _ (request (password_hash sha224 password) target cmd) early [] []).
  - apply (exec_trojan_handle (mkInbound tag [password_hash sha224 password])); try done.
    + by left.
    + apply hex_encode_ok.
    + apply length_password_hash.
    + by unfold cmd; destruct udp.
  - done.
  - constructor.
  - rewrite app_nil_r. by unfold cmd; destruct udp; constructor.
Qed.

(** A session is opened only for the holder of the password: whatever bytes arrive, a session means that they start with the 56 hexadecimal digits of the password's digest followed by CRLF, so that a client using another password is let in only if SHA-224 collides on the two; and no input makes the handler panic. *)
Theorem trojan_only_password_holders tag password i source input :
  inbound_new sha224 tag (Some password) = Ok i →
  (∀ s rest out, run (handle i source) input = (Ok s, rest, out) →
     ∃ after, input = as_bytes (password_hash sha224 password) ++ CRLF ++ after)
  ∧ (∀ other after, input = as_bytes (password_hash sha224 other) ++ after →
     sha224 (as_bytes other) ≠ sha224 (as_bytes password) →
     run (handle i source) input = (Err (Bail "authentication failed"), after, []))
  ∧ (run (handle i source) input).1.1 ≠ Err Panicked.
Proof.
  intros [= <-]. split; [|split].
  - intros s rest out (h&r1&o1&o2&H1&H2&_)%run_bind_Ok.
    apply run_exact_Ok in H1 as (Hlen&->&->&_). change (Z.to_nat 56) with 56%nat in H2.
    apply run_bind_Ok in H2 as (hash&r2&o3&o4&H2&H3&_).
    destruct (from_utf8 (take 56 input)) as [hash'|] eqn:E; last done. injection H2 as -> <- <-.
    apply from_utf8_Some in E as [_ E]. cbn [password_hashes] in H3.
    destruct (bool_decide_reflect (hash ∈ [password_hash sha224 password])) as [Hh|]; last done.
    apply list_elem_of_singleton in Hh as ->. cbn [negb] in H3.
    apply run_bind_Ok in H3 as (crlf&r3&o5&o6&H3&H4&_).
    apply run_exact_Ok in H3 as (_&->&->&_). change (Z.to_nat 2) with 2%nat in H4.
    destruct (bool_decide_reflect (take 2 (drop 56 input) = CRLF)) as [Hc|]; last done.
    exists (drop 2 (drop 56 input)). by rewrite <- Hc, take_drop, E, take_drop.
  - intros other after -> Hne.
    assert (exec (handle (mkInbound tag [password_hash sha224 password]) source)
      (as_bytes (password_hash sha224 other)) (bail "authentication failed") []) as H.
    { rewrite <- (app_nil_r (as_bytes _)).
      apply exec_exact_bind; first (unfold len; by rewrite length_as_bytes, length_password_hash).
      rewrite from_utf8_as_bytes by apply hex_encode_ok. cbn [or_bail bind_proc password_hashes].
      rewrite bool_decide_false; first constructor.
      rewrite list_elem_of_singleton. by intros E%hex_encode_inj. }
    exact (exec_run _ _ _ _ after H).
  - apply never_panics_run. unfold handle. panic_free.
Qed.
End Handshake.

(** A stand-in for the digest: 28 bytes that depend on the message. *)
Definition sample_sha (m : bytes) : bytes := take 28 (m ++ replicate 28 Byte.x00).
Lemma sample_sha_28 m : length (sample_sha m) = 28%nat.
Proof. unfold sample_sha. rewrite length_take, length_app, length_replicate. lia. Qed.

Lemma trojan_handshake_witness :
  settles
    (Net (let@ _ := connect (outbound_new sample_sha "secret") (Ip (SockV4 1 443)) in write_all [Byte.x16])
       (handle (mkInbound "in" [password_hash sample_sha "secret"]) (SockV4 2 3)) [] [])
    (Net (Ret tt) (Ret (mkSession (Ip (SockV4 1 443)) (Some (SockV4 2 3)) "in" Tcp false None)) [Byte.x16] []).
Proof. by apply (trojan_handshake sample_sha sample_sha_28 "in" "secret" _ (Ip (SockV4 1 443)) false). Defined.

Lemma trojan_only_password_holders_witness :
  run (handle (mkInbound "in" [password_hash sample_sha "secret"]) (SockV4 2 3))
    (as_bytes (password_hash sample_sha "guess") ++ CRLF)
  = (Err (Bail "authentication failed"), CRLF, []).
Proof.
  eapply (trojan_only_password_holders sample_sha sample_sha_28 "in" "secret" _ (SockV4 2 3));
    [reflexivity|reflexivity|]. vm_compute. discriminate.
Defined.

(** ** UDP *)

(** A Trojan UDP frame is read back as it was written, and the frame only: a packet of up to 65535 bytes comes out of [read_udp_frame] with its address, and the bytes behind the frame are left; a longer one is announced with its length modulo 65536, so that the reader takes its tail for the next frame. *)
Theorem trojan_udp_roundtrip addr payload rest :
  addr_ok addr → addr_short addr → addr_plain addr →
  run read_udp_frame (udp_frame addr payload ++ rest) =
    (Ok (addr, take (Z.to_nat (len payload mod 65536)) payload),
     drop (Z.to_nat (len payload mod 65536)) payload ++ rest, []).
Proof.
  intros Hok Hs Hp. set (l := len payload mod 65536).
  pose proof (Z.mod_pos_bound (len payload) 65536 ltac:(lia)) as Hl. fold l in Hl.
  assert (l <= len payload) as Hle by (apply Z.mod_le; [apply len_nonneg|lia]).
  assert (exec read_udp_frame (encode_socks5 addr [] ++ to_be_bytes 2 l ++ CRLF ++ take (Z.to_nat l) payload)
    (Ret (addr, take (Z.to_nat l) payload)) []) as H.
  { eapply exec_then_quiet; first by apply exec_addr_port; first apply from_utf8_as_bytes.
    apply exec_u16_bind; first (unfold in_width; lia).
    apply exec_exact_bind; first done. rewrite <- (app_nil_r (take _ _)) at 1.
    apply exec_exact_bind; last constructor. unfold len in *. rewrite length_take. lia. }
  rewrite <- (exec_run_ret _ _ _ _ (drop (Z.to_nat l) payload ++ rest) H). f_equal.
  unfold udp_frame. rewrite encode_trojan_addr_socks5. unfold wrap. change (2 ^ 16) with 65536. fold l.
  rewrite <- !app_assoc. do 3 f_equal. by rewrite app_assoc, take_drop.
Qed.
Lemma trojan_udp_roundtrip_witness :
  run read_udp_frame (udp_frame (Domain "a.b" 53) [Byte.x41; Byte.x42] ++ [Byte.x01])
  = (Ok (Domain "a.b" 53, [Byte.x41; Byte.x42]), [Byte.x01], []).
Proof. by apply (trojan_udp_roundtrip (Domain "a.b" 53) [Byte.x41; Byte.x42] [Byte.x01]). Defined.
