(* ===== verification/Socks5.v ===== *)
(** * SOCKS5 ([src/src/proxy/inbound/socks5.rs], [src/src/proxy/outbound/socks5.rs])

    Both ends of the negotiation as conversations (method selection, the
    username/password exchange, the request and its reply), joined into one
    theorem for all pairs of configurations, and the two UDP relays, which
    read datagrams from a socket. *)

From S2P Require Import Prelude RustStr Addr IpText Rules Proc.

(** ** The server *)

Record Socks5Inbound := mkInbound {
  tag : string;
  listen : string;
  auth_users : list (string * string);
}.
Definition inbound_new (tag listen : string) : Socks5Inbound := mkInbound tag listen [].
Definition with_auth (users : list (string * string)) (i : Socks5Inbound) : Socks5Inbound :=
  mkInbound (tag i) (listen i) users.

(** [read_address]: the length of each field is right by construction, so
    [Address::from_socks5] can only fail on a domain that is not UTF-8. *)
Definition from_socks5_or_bail (atyp : byte) (data : bytes) (port : Z) : proc Address :=
  match from_socks5 atyp data port with Ok a => Ret a | Err _ => bail "bad address" end.
Definition read_address : proc Address :=
  let@ atyp := read_u8 in
  if atyp =? 1 then
    let@ addr := read_exact 4 in
    let@ port := read_u16 in
    from_socks5_or_bail Byte.x01 addr port
  else if atyp =? 3 then
    let@ l := read_u8 in
    let@ domain := read_exact l in
    let@ port := read_u16 in
    from_socks5_or_bail Byte.x03 domain port
  else if atyp =? 4 then
    let@ addr := read_exact 16 in
    let@ port := read_u16 in
    from_socks5_or_bail Byte.x04 addr port
  else bail "unsupported SOCKS5 address type".

(** The UDP relay a session gets: the address of the client's UDP socket, once
    known, and the address its TCP connection came from. *)
Record UdpRelay := mkRelay { client_addr : option SocketAddr; relay_source : SocketAddr }.
Record InboundResult := mkResult { session : Session; udp_transport : option UdpRelay }.

(** The method negotiation, with the username and password exchange. *)
Definition negotiate (i : Socks5Inbound) : proc unit :=
  let@ ver := read_u8 in
  if negb (ver =? 5) then bail "unsupported SOCKS version" else
  let@ nmethods := read_u8 in
  let@ methods := read_exact nmethods in
  match auth_users i with
  | _ :: _ =>
      if negb (bool_decide (Byte.x02 ∈ methods)) then
        let@ _ := write_all [Byte.x05; Byte.xff] in
        bail "SOCKS5 client does not support username/password auth"
      else
        let@ _ := write_all [Byte.x05; Byte.x02] in
        let@ auth_ver := read_u8 in
        if negb (auth_ver =? 1) then bail "unsupported SOCKS5 auth version" else
        let@ ulen := read_u8 in
        let@ username := read_exact ulen in
        let username := from_utf8_lossy username in
        let@ plen := read_u8 in
        let@ password := read_exact plen in
        let password := from_utf8_lossy password in
        if negb (bool_decide ((username, password) ∈ auth_users i)) then
          let@ _ := write_all [Byte.x01; Byte.x01] in bail "SOCKS5 auth failed"
        else write_all [Byte.x01; Byte.x00]
  | [] => write_all [Byte.x05; Byte.x00]
  end.

Definition unspecified : Address := Ip (SockV4 0 0).
(** [bound]: the local address of the UDP socket, or that binding failed. *)
Definition handle (i : Socks5Inbound) (bound : option SocketAddr) (source : SocketAddr)
  : proc InboundResult :=
  let@ _ := negotiate i in
  let@ ver := read_u8 in
  if negb (ver =? 5) then bail "invalid SOCKS5 request version" else
  let@ cmd := read_u8 in
  let@ _rsv := read_u8 in
  let@ target := read_address in
  if cmd =? 1 then
    let@ _ := write_all [Byte.x05; Byte.x00; Byte.x00; Byte.x01; Byte.x00; Byte.x00; Byte.x00;
                         Byte.x00; Byte.x00; Byte.x00] in
    Ret (mkResult (mkSession target (Some source) (tag i) Tcp false None) None)
  else if cmd =? 3 then
    let@ local_addr := or_bail "bind" bound in
    let reply := [Byte.x05; Byte.x00; Byte.x00]
      ++ match local_addr with
         | SockV4 ip port => [Byte.x01] ++ to_be_bytes 4 ip ++ to_be_bytes 2 port
         | SockV6 ip port _ _ => [Byte.x04] ++ to_be_bytes 16 ip ++ to_be_bytes 2 port
         end in
    let@ _ := write_all reply in
    Ret (mkResult (mkSession unspecified (Some source) (tag i) Udp false None)
           (Some (mkRelay None source)))
  else
    let@ _ := write_all [Byte.x05; Byte.x07; Byte.x00; Byte.x01; Byte.x00; Byte.x00; Byte.x00;
                         Byte.x00; Byte.x00; Byte.x00] in
    bail "unsupported SOCKS5 command".

(** ** The client *)

Record Socks5Outbound := mkOutbound {
  server_addr : string;
  server_port : Z;
  username : option string;
  password : option string;
}.
(** [new]: the username falls back to the [uuid] setting. *)
Definition outbound_new (address : option string) (port : option Z) (user uuid pass : option string)
  : result string Socks5Outbound :=
  match address, port with
  | None, _ => Err "missing 'address'"%string
  | Some _, None => Err "missing 'port'"%string
  | Some a, Some p =>
      Ok (mkOutbound a p (match user with Some u => Some u | None => uuid end) pass)
  end.

Definition auth_request (u p : string) : bytes :=
  [Byte.x01] ++ [byte_of_Z (str_len u)] ++ as_bytes u ++ [byte_of_Z (str_len p)] ++ as_bytes p.

Definition handshake (o : Socks5Outbound) : proc unit :=
  let has_auth := match username o, password o with Some _, Some _ => true | _, _ => false end in
  let@ _ := write_all (if has_auth then [Byte.x05; Byte.x02; Byte.x00; Byte.x02]
                       else [Byte.x05; Byte.x01; Byte.x00]) in
  let@ resp := read_exact 2 in
  if negb (byte_to_Z (byte_at resp 0) =? 5) then bail "socks5: server returned unsupported version" else
  let method := byte_to_Z (byte_at resp 1) in
  if method =? 0 then Ret tt
  else if method =? 2 then
    (** the two [unwrap]s *)
    match username o, password o with
    | Some u, Some p =>
        let@ _ := write_all (auth_request u p) in
        let@ auth_resp := read_exact 2 in
        if negb (byte_to_Z (byte_at auth_resp 1) =? 0) then bail "socks5: authentication failed"
        else Ret tt
    | _, _ => Stop Panicked
    end
  else if method =? 255 then bail "socks5: server rejected all authentication methods"
  else bail "socks5: unsupported auth method selected".

Definition send_request (cmd : Z) (target : Address) : proc Address :=
  let@ _ := write_all (encode_socks5 target ([Byte.x05] ++ [byte_of_Z cmd] ++ [Byte.x00])) in
  let@ resp_head := read_exact 3 in
  if negb (byte_to_Z (byte_at resp_head 0) =? 5) then bail "socks5: invalid reply version" else
  if negb (byte_to_Z (byte_at resp_head 1) =? 0) then bail "socks5: request failed" else
  read_addr_port (fun d => Some (from_utf8_lossy d)) "" "socks5: unsupported bind address type".

Definition connect (o : Socks5Outbound) (target : Address) : proc unit :=
  let@ _ := handshake o in
  let@ _bind := send_request 1 target in
  Ret tt.

(** [connect_udp]: the address of the server's UDP relay.  A name is looked up
    by the system resolver, [lookup]. *)
Definition relay_address (o : Socks5Outbound) (lookup : string → Z → list SocketAddr) (bind_addr : Address)
  : proc SocketAddr :=
  match bind_addr with
  | Ip addr =>
      Ret (match sock_ip addr with
           | V4 0 | V6 0 =>
               sock_new (default (V4 (from_be_bytes [Byte.x7f; Byte.x00; Byte.x00; Byte.x01]))
                           (parse_ip (server_addr o))) (sock_port addr)
           | _ => addr
           end)
  | Domain host port => or_bail "socks5: cannot resolve UDP relay address" (head (lookup host port))
  end.
Definition connect_udp (o : Socks5Outbound) (lookup : string → Z → list SocketAddr) : proc SocketAddr :=
  let@ _ := handshake o in
  let@ bind_addr := send_request 3 unspecified in
  relay_address o lookup bind_addr.

(** ** The UDP relays

    A datagram is its bytes and its origin.  [recv] takes datagrams from the
    socket until one yields a packet or an error; [Waiting] is a socket that has
    run dry. *)

Inductive received (S : Type) :=
| Received (p : UdpPacket) (rest : list (bytes * SocketAddr)) (s : S)
| RecvFailed (why : string) (rest : list (bytes * SocketAddr)) (s : S)
| RecvPanicked
| Waiting (s : S).
Arguments Received {S} p rest s.
Arguments RecvFailed {S} why rest s.
Arguments RecvPanicked {S}.
Arguments Waiting {S} s.

(** [Bytes::copy_from_slice(&data[payload_start..])]. *)
Definition datagram_payload (data : bytes) (start : nat) : option bytes :=
  if (start <=? length data)%nat then Some (drop start data) else None.

Fixpoint relay_recv (dgrams : list (bytes * SocketAddr)) (r : UdpRelay) : received UdpRelay :=
  match dgrams with
  | [] => Waiting r
  | (data, from) :: rest =>
      if negb (bool_decide (sock_ip from = sock_ip (relay_source r))) then relay_recv rest r else
      let r := match client_addr r with
               | None => mkRelay (Some from) (relay_source r)
               | Some _ => r
               end in
      if (length data <? 4)%nat then RecvFailed "SOCKS5 UDP packet too short" rest r
      else if negb (byte_to_Z (byte_at data 2) =? 0) then relay_recv rest r
      else match parse_socks5_udp_addr (drop 3 data) with
           | Err _ => RecvFailed "bad address" rest r
           | Ok (addr, addr_len) =>
               match datagram_payload data (3 + addr_len) with
               | Some payload => Received (mkPacket addr payload) rest r
               | None => RecvPanicked
               end
           end
  end.
Definition udp_datagram (p : UdpPacket) : bytes :=
  encode_socks5 (p_addr p) [Byte.x00; Byte.x00; Byte.x00] ++ p_data p.
(** [send]: the datagram and where it goes. *)
Definition relay_send (r : UdpRelay) (p : UdpPacket) : result string (bytes * SocketAddr) :=
  match client_addr r with
  | None => Err "SOCKS5 UDP: client address not yet known"%string
  | Some a => Ok (udp_datagram p, a)
  end.

Definition out_send (relay_addr : SocketAddr) (p : UdpPacket) : bytes * SocketAddr := (udp_datagram p, relay_addr).
Fixpoint out_recv (dgrams : list (bytes * SocketAddr)) : received unit :=
  match dgrams with
  | [] => Waiting tt
  | (data, _from) :: rest =>
      if (length data <? 4)%nat then out_recv rest
      else if negb (byte_to_Z (byte_at data 2) =? 0) then out_recv rest
      else match parse_socks5_udp_addr (drop 3 data) with
           | Err _ => out_recv rest
           | Ok (addr, addr_len) =>
               match datagram_payload data (3 + addr_len) with
               | Some payload => Received (mkPacket addr payload) rest tt
               | None => out_recv rest
               end
           end
  end.

(** ** The two ends together *)

Lemma exec_read_address a :
  addr_ok a → addr_short a → addr_plain a → exec read_address (encode_socks5 a []) (Ret a) [].
Proof.
  intros Hok Hs Hp. unfold read_address.
  destruct a as [[ip p|ip p fl sc]|d p];
    cbn [encode_socks5 app addr_ok sock_ok addr_short addr_plain] in *; apply exec_u8_bind.
  - change (byte_to_Z Byte.x01 =? 1) with true. cbn iota. destruct Hok.
    apply exec_exact_bind; first done. rewrite <- (app_nil_r (to_be_bytes 2 p)).
    apply exec_u16_bind; first done. unfold from_socks5_or_bail, from_socks5.
    change (byte_to_Z Byte.x01 =? 1) with true. cbn iota.
    rewrite bool_decide_false by (rewrite length_to_be_bytes; lia).
    change [byte_at (to_be_bytes 4 ip) 0; byte_at (to_be_bytes 4 ip) 1;
            byte_at (to_be_bytes 4 ip) 2; byte_at (to_be_bytes 4 ip) 3] with (to_be_bytes 4 ip).
    rewrite from_to_be_4 by done. constructor.
  - change (byte_to_Z Byte.x04) with 4. cbn [Z.eqb Pos.eqb]. destruct Hok as (?&?&_), Hp as [-> ->].
    apply exec_exact_bind; first done. rewrite <- (app_nil_r (to_be_bytes 2 p)).
    apply exec_u16_bind; first done. unfold from_socks5_or_bail, from_socks5.
    change (byte_to_Z Byte.x04) with 4. cbn [Z.eqb Pos.eqb].
    rewrite bool_decide_false by (rewrite length_to_be_bytes; lia).
    change (slice (to_be_bytes 16 ip) 0 16) with (to_be_bytes 16 ip).
    rewrite from_to_be_bytes by done. constructor.
  - change (byte_to_Z Byte.x03) with 3. cbn [Z.eqb Pos.eqb]. destruct Hok as [Hok ?].
    unfold str_len in *. apply exec_u8z_bind; first (unfold in_width; lia).
    apply exec_exact_bind; first (unfold len; by rewrite length_as_bytes).
    rewrite <- (app_nil_r (to_be_bytes 2 p)). apply exec_u16_bind; first done.
    unfold from_socks5_or_bail, from_socks5. change (byte_to_Z Byte.x03) with 3. cbn [Z.eqb Pos.eqb].
    rewrite from_utf8_as_bytes by done. constructor.
Qed.

(** The reply of a CONNECT, read by the client. *)
Definition connect_reply : bytes :=
  [Byte.x05; Byte.x00; Byte.x00; Byte.x01; Byte.x00; Byte.x00; Byte.x00; Byte.x00; Byte.x00; Byte.x00].

Definition await_reply : proc Address :=
  let@ resp_head := read_exact 3 in
  if negb (byte_to_Z (byte_at resp_head 0) =? 5) then bail "socks5: invalid reply version" else
  if negb (byte_to_Z (byte_at resp_head 1) =? 0) then bail "socks5: request failed" else
  read_addr_port (fun d => Some (from_utf8_lossy d)) "" "socks5: unsupported bind address type".

Lemma exec_await_reply a :
  addr_ok a → addr_short a → addr_plain a →
  exec await_reply ([Byte.x05; Byte.x00; Byte.x00] ++ encode_socks5 a []) (Ret a) [].
Proof.
  intros. unfold await_reply. apply exec_exact_bind; first done.
  change (negb (byte_to_Z (byte_at [Byte.x05; Byte.x00; Byte.x00] 0) =? 5)) with false.
  change (negb (byte_to_Z (byte_at [Byte.x05; Byte.x00; Byte.x00] 1) =? 0)) with false. cbn iota.
  apply exec_addr_port; try done. intros d Hd. by rewrite from_utf8_lossy_valid.
Qed.

(** The server's side of the request. *)
Definition serve (i : Socks5Inbound) (bound : option SocketAddr) (source : SocketAddr) : proc InboundResult :=
  let@ ver := read_u8 in
  if negb (ver =? 5) then bail "invalid SOCKS5 request version" else
  let@ cmd := read_u8 in
  let@ _rsv := read_u8 in
  let@ target := read_address in
  if cmd =? 1 then
    let@ _ := write_all connect_reply in
    Ret (mkResult (mkSession target (Some source) (tag i) Tcp false None) None)
  else if cmd =? 3 then
    let@ local_addr := or_bail "bind" bound in
    let@ _ := write_all ([Byte.x05; Byte.x00; Byte.x00]
      ++ match local_addr with
         | SockV4 ip port => [Byte.x01] ++ to_be_bytes 4 ip ++ to_be_bytes 2 port
         | SockV6 ip port _ _ => [Byte.x04] ++ to_be_bytes 16 ip ++ to_be_bytes 2 port
         end) in
    Ret (mkResult (mkSession unspecified (Some source) (tag i) Udp false None)
           (Some (mkRelay None source)))
  else
    let@ _ := write_all [Byte.x05; Byte.x07; Byte.x00; Byte.x01; Byte.x00; Byte.x00; Byte.x00;
                         Byte.x00; Byte.x00; Byte.x00] in
    bail "unsupported SOCKS5 command".
Lemma handle_serve i bound source : handle i bound source = (let@ _ := negotiate i in serve i bound source).
Proof. done. Qed.

Lemma exec_serve_connect i bound source target :
  addr_ok target → addr_short target → addr_plain target →
  exec (serve i bound source) ([Byte.x05; Byte.x01; Byte.x00] ++ encode_socks5 target [])
    (Ret (mkResult (mkSession target (Some source) (tag i) Tcp false None) None)) connect_reply.
Proof.
  intros. unfold serve. cbn [app]. apply exec_u8_bind. change (negb (byte_to_Z Byte.x05 =? 5)) with false. cbn iota.
  do 2 apply exec_u8_bind. rewrite <- (app_nil_r (encode_socks5 target [])).
  eapply exec_then_quiet; first by apply exec_read_address.
  change (byte_to_Z Byte.x01 =? 1) with true. cbn iota. exact (exec_put connect_reply _).
Qed.

(** The client's handshake in parts: after its greeting, and after its
    credentials. *)
Definition has_auth (o : Socks5Outbound) : bool :=
  match username o, password o with Some _, Some _ => true | _, _ => false end.
Definition hello (o : Socks5Outbound) : bytes :=
  if has_auth o then [Byte.x05; Byte.x02; Byte.x00; Byte.x02] else [Byte.x05; Byte.x01; Byte.x00].
Definition await_auth : proc unit :=
  let@ auth_resp := read_exact 2 in
  if negb (byte_to_Z (byte_at auth_resp 1) =? 0) then bail "socks5: authentication failed" else Ret tt.
Definition await_method (o : Socks5Outbound) : proc unit :=
  let@ resp := read_exact 2 in
  if negb (byte_to_Z (byte_at resp 0) =? 5) then bail "socks5: server returned unsupported version" else
  let method := byte_to_Z (byte_at resp 1) in
  if method =? 0 then Ret tt
  else if method =? 2 then
    match username o, password o with
    | Some u, Some p => let@ _ := write_all (auth_request u p) in await_auth
    | _, _ => Stop Panicked
    end
  else if method =? 255 then bail "socks5: server rejected all authentication methods"
  else bail "socks5: unsupported auth method selected".
Lemma handshake_parts o : handshake o = (let@ _ := write_all (hello o) in await_method o).
Proof. done. Qed.

(** The whole client from a point of its handshake on: the request, its reply,
    and [early] written as soon as the tunnel stands. *)
Definition client_from (p : proc unit) (target : Address) (early : bytes) : proc unit :=
  let@ _ := (let@ _ := p in let@ _ := send_request 1 target in Ret tt) in write_all early.
Lemma client_exec p q target early i o :
  exec p i q o → exec (client_from p target early) i (client_from q target early) o.
Proof. intros H. by apply exec_bind, exec_bind. Qed.

Definition request (target : Address) : bytes := [Byte.x05; Byte.x01; Byte.x00] ++ encode_socks5 target [].
Definition client_waiting (early : bytes) : proc unit :=
  let@ _ := (let@ _ := await_reply in Ret tt) in write_all early.
Lemma exec_client_request target early :
  exec (client_from (Ret tt) target early) [] (client_waiting early) (request target).
Proof. unfold request. rewrite <- encode_socks5_app. exact (exec_put _ _). Qed.
Lemma exec_client_reply early : exec (client_waiting early) connect_reply (Ret tt) early.
Proof.
  eapply (exec_then _ tt _ _ connect_reply [] [] early); [|apply exec_put|by rewrite app_nil_r|done].
  eapply (exec_then _ (Ip (SockV4 0 0)) _ _ connect_reply [] [] []); [|constructor|by rewrite app_nil_r|done].
  by apply (exec_await_reply (Ip (SockV4 0 0))).
Qed.

(** From the end of the negotiation on. *)
Lemma joined_connect i bound source target early :
  addr_ok target → addr_short target → addr_plain target →
  joined (client_from (Ret tt) target early) (serve i bound source) []
    (Ret tt) (Ret (mkResult (mkSession target (Some source) (tag i) Tcp false None) None)) early.
Proof.
  intros. eapply joined_client; first apply exec_client_request.
  eapply (joined_server _ _ _ _ _ (request target) [] connect_reply early);
    [by apply exec_serve_connect|by rewrite app_nil_r|apply exec_client_reply|constructor].
Qed.

Definition creds_ok (o : Socks5Outbound) : Prop :=
  ∀ s, username o = Some s ∨ password o = Some s → str_ok s ∧ str_len s < 256.
(** Whether the server's user list admits the client. *)
Definition admits (i : Socks5Inbound) (o : Socks5Outbound) : bool :=
  match auth_users i with
  | [] => true
  | users =>
      match username o, password o with
      | Some u, Some p => bool_decide ((u, p) ∈ users)
      | _, _ => false
      end
  end.
Definition refusal (o : Socks5Outbound) : proc unit :=
  if has_auth o then bail "socks5: authentication failed"
  else bail "socks5: server rejected all authentication methods".
Definition refused (o : Socks5Outbound) : proc InboundResult :=
  if has_auth o then bail "SOCKS5 auth failed"
  else bail "SOCKS5 client does not support username/password auth".

(** The username and password exchange on the server. *)
Lemma exec_auth (users : list (string * string)) u p (k : bool → proc unit) i r o :
  str_ok u → str_len u < 256 → str_ok p → str_len p < 256 →
  exec (k (bool_decide ((u, p) ∈ users))) i r o →
  exec (let@ auth_ver := read_u8 in
        if negb (auth_ver =? 1) then bail "unsupported SOCKS5 auth version" else
        let@ ulen := read_u8 in
        let@ username := read_exact ulen in
        let username := from_utf8_lossy username in
        let@ plen := read_u8 in
        let@ password := read_exact plen in
        let password := from_utf8_lossy password in
        k (bool_decide ((username, password) ∈ users))) (auth_request u p ++ i) r o.
Proof.
  intros Hu Hul Hp Hpl Hk. unfold auth_request. cbn [app].
  apply exec_u8_bind. change (negb (byte_to_Z Byte.x01 =? 1)) with false. cbn iota.
  unfold str_len in *. apply exec_u8z_bind; first (unfold in_width; lia). rewrite <- !app_assoc.
  apply exec_exact_bind; first (unfold len; by rewrite length_as_bytes).
  apply exec_u8z_bind; first (unfold in_width; lia).
  apply exec_exact_bind; first (unfold len; by rewrite length_as_bytes).
  cbv zeta. by rewrite !from_utf8_lossy_valid.
Qed.

(** The server after it has chosen the username/password method. *)
Definition negotiate_auth (i : Socks5Inbound) : proc unit :=
  let@ auth_ver := read_u8 in
  if negb (auth_ver =? 1) then bail "unsupported SOCKS5 auth version" else
  let@ ulen := read_u8 in
  let@ username := read_exact ulen in
  let username := from_utf8_lossy username in
  let@ plen := read_u8 in
  let@ password := read_exact plen in
  let password := from_utf8_lossy password in
  if negb (bool_decide ((username, password) ∈ auth_users i)) then
    let@ _ := write_all [Byte.x01; Byte.x01] in bail "SOCKS5 auth failed"
  else write_all [Byte.x01; Byte.x00].

Lemma exec_negotiate_hello i o :
  exec (negotiate i) (hello o)
    (match auth_users i with
     | [] => Ret tt
     | _ => if has_auth o then negotiate_auth i
            else bail "SOCKS5 client does not support username/password auth"
     end)
    [Byte.x05; match auth_users i with [] => Byte.x00 | _ => if has_auth o then Byte.x02 else Byte.xff end].
Proof.
  unfold negotiate, hello. destruct (has_auth o);
    (apply exec_u8_bind; change (negb (byte_to_Z Byte.x05 =? 5)) with false; cbn iota; apply exec_u8_bind).
  - apply (exec_exact_bind _ [Byte.x00; Byte.x02] _ []); first done.
    destruct (auth_users i) eqn:E; first exact (exec_put _ _).
    rewrite bool_decide_true by (right; left). cbn [negb]. unfold negotiate_auth. rewrite E. exact (exec_put _ _).
  - apply (exec_exact_bind _ [Byte.x00] _ []); first done.
    destruct (auth_users i) eqn:E; first exact (exec_put _ _).
    rewrite bool_decide_false by (by rewrite list_elem_of_singleton). exact (exec_put _ _).
Qed.

Lemma exec_negotiate_auth i u p :
  str_ok u → str_len u < 256 → str_ok p → str_len p < 256 →
  exec (negotiate_auth i) (auth_request u p)
    (if bool_decide ((u, p) ∈ auth_users i) then Ret tt else bail "SOCKS5 auth failed")
    [Byte.x01; if bool_decide ((u, p) ∈ auth_users i) then Byte.x00 else Byte.x01].
Proof.
  intros. unfold negotiate_auth. rewrite <- (app_nil_r (auth_request u p)).
  apply (exec_auth _ _ _ (fun b => if negb b then _ else _)); try done.
  destruct (bool_decide _); exact (exec_put _ _).
Qed.

(** C26: a SOCKS5 client and a SOCKS5 server of this program agree for every pair of configurations: run against each other under any schedule, they end with a tunnel to exactly the address asked for when the server has no users or lists the client's username and password, and with an error on both sides otherwise (the client that offers no credentials is told that no method fits, the one with wrong credentials that it is not authenticated); in the first case what the client writes next is what the server's stream yields first, and the client never blocks on, or panics at, an answer of this server. *)
Theorem socks5_negotiation i o bound source target early :
  creds_ok o → addr_ok target → addr_short target → addr_plain target →
  settles (Net (let@ _ := connect o target in write_all early) (handle i bound source) [] [])
    (if admits i o
     then Net (Ret tt) (Ret (mkResult (mkSession target (Some source) (tag i) Tcp false None) None)) early []
     else Net (refusal o) (refused o) [] []).
Proof.
  intros Hc Hok Hs Hp. rewrite handle_serve.
  change (let@ _ := connect o target in write_all early) with (client_from (handshake o) target early).
  assert (joined (client_from (handshake o) target early) (let@ _ := negotiate i in serve i bound source) []
    (if admits i o then Ret tt else refusal o)
    (if admits i o then Ret (mkResult (mkSession target (Some source) (tag i) Tcp false None) None) else refused o)
    (if admits i o then early else [])) as H.
  2: { destruct (admits i o); apply joined_by_parts; try done; unfold refusal, refused; by destruct (has_auth o). }
  eapply joined_client.
  { apply client_exec. rewrite handshake_parts. exact (exec_put (hello o) (await_method o)). }
  pose proof (exec_bind _ _ (fun _ => serve i bound source) _ _ (exec_negotiate_hello i o)) as Hn.
  unfold admits. destruct (auth_users i) as [|user users] eqn:Eu.
  { eapply (joined_server _ _ _ _ _ (hello o) [] _ [] _ _ _ Hn); first by rewrite app_nil_r.
    - apply client_exec. exact (exec_exact_bind 2 [Byte.x05; Byte.x00] _ [] _ _ eq_refl (exec_refl _)).
    - by apply joined_connect. }
  unfold refusal, refused, has_auth in *. destruct (username o) as [u|] eqn:Eo, (password o) as [p|] eqn:Ep.
  2-4: eapply (joined_server _ _ _ _ _ (hello o) [] _ [] _ _ _ Hn);
    [by rewrite app_nil_r| |constructor];
    exact (exec_bind _ _ _ _ _ (exec_bind _ _ _ _ _ (exec_exact_bind 2 [Byte.x05; Byte.xff] _ [] _ _ eq_refl (exec_refl _)))).
  destruct (Hc u (or_introl Eo)), (Hc p (or_intror Ep)).
  eapply (joined_server _ _ _ _ _ (hello o) [] _ (auth_request u p) _ _ _ Hn); first by rewrite app_nil_r.
  { apply (client_exec _ await_auth). apply (exec_exact_bind 2 [Byte.x05; Byte.x02] _ []); first done.
    change (negb (byte_to_Z (byte_at [Byte.x05; Byte.x02] 0) =? 5)) with false.
    change (byte_to_Z (byte_at [Byte.x05; Byte.x02] 1)) with 2. cbn [Z.eqb Pos.eqb]. rewrite Eo, Ep.
    exact (exec_put _ _). }
  pose proof (exec_bind _ _ (fun _ => serve i bound source) _ _ (exec_negotiate_auth i u p ltac:(done) ltac:(done) ltac:(done) ltac:(done))) as Ha.
  rewrite Eu in Ha. simpl app.
  destruct (bool_decide ((u, p) ∈ user :: users)).
  - eapply (joined_server _ _ _ _ _ (auth_request u p) [] _ [] _ _ _ Ha); first by rewrite app_nil_r.
    + apply client_exec. exact (exec_exact_bind 2 [Byte.x01; Byte.x00] _ [] _ _ eq_refl (exec_refl _)).
    + by apply joined_connect.
  - eapply (joined_server _ _ _ _ _ (auth_request u p) [] _ [] _ _ _ Ha); [by rewrite app_nil_r| |constructor].
    exact (exec_bind _ _ _ _ _ (exec_bind _ _ _ _ _ (exec_exact_bind 2 [Byte.x01; Byte.x01] _ [] _ _ eq_refl (exec_refl _)))).
Qed.
Lemma socks5_negotiation_witness :
  settles (Net (let@ _ := connect (mkOutbound "p" 1080 (Some "user"%string) (Some "pass"%string)) (Domain "a.b" 80) in
                write_all [Byte.x47])
             (handle (with_auth [("user"%string, "pass"%string)] (inbound_new "in" "::")) None (SockV4 1 2)) [] [])
    (Net (Ret tt) (Ret (mkResult (mkSession (Domain "a.b" 80) (Some (SockV4 1 2)) "in" Tcp false None) None))
       [Byte.x47] []).
Proof.
  apply (socks5_negotiation (with_auth [("user"%string, "pass"%string)] (inbound_new "in" "::"))
    (mkOutbound "p" 1080 (Some "user"%string) (Some "pass"%string)) None (SockV4 1 2) (Domain "a.b" 80) [Byte.x47]);
    try done.
  intros s [[= <-]|[= <-]]; done.
Defined.

(** A client configured without both a username and a password panics when the server selects the username/password method it was not offered: the answer [05 02] is enough. *)
Theorem socks5_client_panics o rest :
  username o = None ∨ password o = None →
  run (handshake o) (Byte.x05 :: Byte.x02 :: rest) = (Err Panicked, rest, hello o).
Proof.
  intros H. rewrite handshake_parts.
  assert (exec (await_method o) [Byte.x05; Byte.x02] (Stop Panicked) []) as E.
  { apply (exec_exact_bind 2 [Byte.x05; Byte.x02] _ []); first done.
    change (byte_to_Z (byte_at [Byte.x05; Byte.x02] 0)) with 5.
    change (byte_to_Z (byte_at [Byte.x05; Byte.x02] 1)) with 2. cbn [Z.eqb Pos.eqb negb].
    destruct H as [H|H]; rewrite H; [|destruct (username o)]; constructor. }
  pose proof (exec_run _ _ _ _ rest (exec_trans _ _ _ _ _ _ _ (exec_put (hello o) (await_method o)) E)) as H'.
  etrans; first exact H'. simpl. by rewrite !app_nil_r.
Qed.
Lemma socks5_client_panics_witness :
  run (handshake (mkOutbound "p" 1080 None None)) [Byte.x05; Byte.x02]
  = (Err Panicked, [], [Byte.x05; Byte.x01; Byte.x00]).
Proof. apply (socks5_client_panics (mkOutbound "p" 1080 None None) []). by left. Defined.

(** ** The UDP relay *)

Lemma parse_bound data a n : parse_socks5_udp_addr data = Ok (a, n) → (n <= length data)%nat.
Proof.
  unfold parse_socks5_udp_addr. intros H. repeat case_match; simplify_eq; repeat case_bool_decide; try done; lia.
Qed.
Lemma datagram_payload_ok data a n :
  (3 <= length data)%nat → parse_socks5_udp_addr (drop 3 data) = Ok (a, n) →
  datagram_payload data (3 + n) = Some (drop (3 + n) data).
Proof.
  intros Hd H%parse_bound. rewrite length_drop in H. unfold datagram_payload.
  by rewrite (proj2 (Nat.leb_le _ _)) by lia.
Qed.

(** What the relay may do with a run of datagrams: [origin] is the address its
    replies go to from then on. *)
Definition relay_kept (r r' : UdpRelay) : Prop :=
  relay_source r' = relay_source r
  ∧ match client_addr r with
    | Some a => client_addr r' = Some a
    | None => ∀ a, client_addr r' = Some a → sock_ip a = sock_ip (relay_source r)
    end.
Lemma relay_kept_refl r : relay_kept r r.
Proof. split; [done|]. destruct (client_addr r) eqn:E; [done|]. by intros. Qed.
Lemma relay_kept_note r from :
  sock_ip from = sock_ip (relay_source r) →
  relay_kept r (match client_addr r with None => mkRelay (Some from) (relay_source r) | Some _ => r end).
Proof.
  intros H. unfold relay_kept. destruct (client_addr r) eqn:E; [done|]. split; [done|]. by intros a [= <-].
Qed.
Lemma relay_kept_trans r1 r2 r3 : relay_kept r1 r2 → relay_kept r2 r3 → relay_kept r1 r3.
Proof.
  intros [E1 H1] [E2 H2]. split; [congruence|]. destruct (client_addr r1); [by rewrite H1 in H2|].
  destruct (client_addr r2) eqn:E; intros b Hb; [apply H1|rewrite <- E1; by apply H2]. congruence.
Qed.

Lemma udp_datagram_parses p :
  addr_ok (p_addr p) → addr_short (p_addr p) → addr_plain (p_addr p) →
  ∃ n, parse_socks5_udp_addr (drop 3 (udp_datagram p)) = Ok (p_addr p, n)
    ∧ (length (udp_datagram p) <? 4)%nat = false ∧ byte_to_Z (byte_at (udp_datagram p) 2) = 0
    ∧ datagram_payload (udp_datagram p) (3 + n) = Some (p_data p).
Proof.
  intros Ha Hs Hp. exists (length (encode_socks5 (p_addr p) [])).
  assert (udp_datagram p = [Byte.x00; Byte.x00; Byte.x00] ++ encode_socks5 (p_addr p) [] ++ p_data p) as ->.
  { unfold udp_datagram. by rewrite encode_socks5_app, <- app_assoc. }
  pose proof (parse_encode_socks5 _ (p_data p) Ha Hs Hp) as H.
  assert (0 < length (encode_socks5 (p_addr p) []))%nat as H0
    by (rewrite length_encode_socks5; destruct (p_addr p) as [[]|]; lia).
  split; first exact H. split; [|split; first done].
  - apply Nat.ltb_ge. rewrite !length_app. cbn [length]. lia.
  - erewrite datagram_payload_ok; [|by rewrite length_app; cbn [length]; lia|exact H]. f_equal.
    change 3%nat with (length [Byte.x00; Byte.x00; Byte.x00]).
    by rewrite drop_app_add, drop_app_length.
Qed.

(** The relay on any run of datagrams. *)
Lemma relay_recv_sound dgrams r :
  match relay_recv dgrams r with
  | Received q rest r' =>
      relay_kept r r' ∧ is_Some (client_addr r')
      ∧ ∃ before data f, dgrams = before ++ (data, f) :: rest ∧ sock_ip f = sock_ip (relay_source r)
          ∧ ∃ n, parse_socks5_udp_addr (drop 3 data) = Ok (p_addr q, n) ∧ p_data q = drop (3 + n) data
  | RecvFailed _ _ r' | Waiting r' => relay_kept r r'
  | RecvPanicked => False
  end.
Proof.
  revert r. induction dgrams as [|[data f] rest IH]; intros r; cbn [relay_recv]; first apply relay_kept_refl.
  destruct (bool_decide_reflect (sock_ip f = sock_ip (relay_source r))) as [Hf|Hf]; cbn [negb].
  2: { specialize (IH r). destruct (relay_recv rest r); try done.
       destruct IH as (?&?&before&d&f'&->&?&?).
       split; [done|split; [done|]]. exists ((data, f) :: before), d, f'. eauto. }
  pose proof (relay_kept_note r f Hf) as Hk.
  set (r1 := match client_addr r with None => _ | Some _ => r end) in *.
  assert (is_Some (client_addr r1)) as Hs1 by (unfold r1; destruct (client_addr r) eqn:E; rewrite ?E; eauto).
  destruct (Nat.ltb_spec (length data) 4) as [|Hl]; first done.
  destruct (negb _).
  { specialize (IH r1).
    destruct (relay_recv rest r1); try done; [|by eapply relay_kept_trans..].
    destruct IH as (?&?&before&d&f'&->&Hf'&?). rewrite (proj1 Hk) in Hf'.
    split; [by eapply relay_kept_trans|split; [done|]]. exists ((data, f) :: before), d, f'. eauto. }
  destruct (parse_socks5_udp_addr (drop 3 data)) as [[a n]|] eqn:E; last done.
  rewrite (datagram_payload_ok data a n) by (done || lia). split; first done. split; first done.
  exists [], data, f. eauto.
Qed.

(** The SOCKS5 UDP relay serves one client and loses nothing of a well-formed packet: it never panics whatever the datagrams; it hands on only datagrams whose origin has the IP address of the TCP connection, in the order they arrive; the address it replies to, once known, stays the first one and has that IP address; a datagram written by the client side comes out with its address and payload, and the reply written by the relay comes out the same on the client side, whatever junk the client side has to skip first. *)
Theorem socks5_udp_relay r dgrams p from skipped :
  (match relay_recv dgrams r with
   | Received q rest r' =>
       relay_kept r r' ∧ is_Some (client_addr r')
       ∧ ∃ before data f, dgrams = before ++ (data, f) :: rest ∧ sock_ip f = sock_ip (relay_source r)
           ∧ ∃ n, parse_socks5_udp_addr (drop 3 data) = Ok (p_addr q, n) ∧ p_data q = drop (3 + n) data
   | RecvFailed _ _ r' | Waiting r' => relay_kept r r'
   | RecvPanicked => False
   end)
  ∧ (addr_ok (p_addr p) → addr_short (p_addr p) → addr_plain (p_addr p) →
     (sock_ip from = sock_ip (relay_source r) →
      ∃ r', relay_recv [(udp_datagram p, from)] r = Received p [] r'
            ∧ ∀ q, relay_send r' q = Ok (udp_datagram q, default from (client_addr r)))
     ∧ (Forall (fun d => (length d.1 < 4)%nat ∨ byte_at d.1 2 ≠ Byte.x00) skipped →
        out_recv (skipped ++ [(udp_datagram p, from)]) = Received p [] tt)).
Proof.
  split; first apply relay_recv_sound. intros Ha Hs Hp.
  destruct (udp_datagram_parses p Ha Hs Hp) as (n&Hparse&Hlen&Hfrag&Hpay). split.
  - intros Hf. cbn [relay_recv]. rewrite bool_decide_true by done. cbn [negb].
    rewrite Hlen, Hfrag, Hparse, Hpay. destruct p as [a d]. eexists. split; first done.
    intros q. unfold relay_send. by destruct (client_addr r) eqn:E; rewrite ?E.
  - intros Hsk. induction Hsk as [|[d f] ? Hd _ IH]; cbn [out_recv app].
    { rewrite Hlen, Hfrag, Hparse, Hpay. by destruct p. }
    destruct (Nat.ltb_spec (length d) 4); first done. destruct Hd as [|Hne]; first (simpl in *; lia).
    rewrite (proj2 (Z.eqb_neq _ _)); first done. intros E. by apply Hne, byte_to_Z_inj.
Qed.
Lemma socks5_udp_relay_witness :
  (match relay_recv [([Byte.x00], SockV4 9 9); (udp_datagram (mkPacket (Domain "a.b" 53) [Byte.x41]), SockV4 7 5)]
           (mkRelay None (SockV4 7 1)) with
   | Received q rest r' =>
       relay_kept (mkRelay None (SockV4 7 1)) r' ∧ is_Some (client_addr r')
       ∧ ∃ before data f,
           [([Byte.x00], SockV4 9 9); (udp_datagram (mkPacket (Domain "a.b" 53) [Byte.x41]), SockV4 7 5)]
             = before ++ (data, f) :: rest ∧ sock_ip f = sock_ip (SockV4 7 1)
           ∧ ∃ n, parse_socks5_udp_addr (drop 3 data) = Ok (p_addr q, n) ∧ p_data q = drop (3 + n) data
   | RecvFailed _ _ r' | Waiting r' => relay_kept (mkRelay None (SockV4 7 1)) r'
   | RecvPanicked => False
   end)
  ∧ out_recv ([([Byte.x01], SockV4 1 1)] ++ [(udp_datagram (mkPacket (Domain "a.b" 53) [Byte.x41]), SockV4 7 5)])
    = Received (mkPacket (Domain "a.b" 53) [Byte.x41]) [] tt.
Proof.
  destruct (socks5_udp_relay (mkRelay None (SockV4 7 1))
    [([Byte.x00], SockV4 9 9); (udp_datagram (mkPacket (Domain "a.b" 53) [Byte.x41]), SockV4 7 5)]
    (mkPacket (Domain "a.b" 53) [Byte.x41]) (SockV4 7 5) [([Byte.x01], SockV4 1 1)]) as [H1 H2].
  split; [exact H1|]. apply H2; [done..|]. repeat constructor.
Defined.
