(* ===== verification/HostPort.v ===== *)
(** * "host:port" strings

    [str::parse::<SocketAddr>] and the function that three handlers repeat:
    [parse_connect_target] ([src/src/proxy/inbound/http.rs]), [parse_hy2_addr]
    ([src/src/proxy/inbound/hysteria2.rs]) and [parse_hysteria2_addr]
    ([src/src/proxy/outbound/hysteria2/mod.rs]); and that it reads back what
    [Address::to_hysteria2_addr_string] writes. *)

From Stdlib Require Import Ascii.
From S2P Require Import Prelude RustStr Addr IpText.

Local Open Scope string_scope.
Local Open Scope list_scope.
Local Open Scope Z_scope.

(** ** [SocketAddr::from_str] *)

(** A port in a socket address: digits only, no sign. *)
Definition parse_port (w : Z) (s : string) : option Z :=
  match s with
  | "" => None
  | _ => v ← parse_digits 0 s; if v <? 2 ^ w then Some v else None
  end.
Definition parse_sock_v4 (s : string) : option SocketAddr :=
  '(h, p) ← rsplit_once ":"%char s;
  ip ← parse_ipv4 h;
  port ← parse_port 16 p;
  Some (SockV4 ip port).
Definition parse_sock_v6 (s : string) : option SocketAddr :=
  s ← strip_prefix "[" s;
  '(body, rest) ← split_once "]"%char s;
  p ← strip_prefix ":" rest;
  port ← parse_port 16 p;
  match split_once "%"%char body with
  | Some (h, z) => ip ← parse_ipv6 h; scope ← parse_port 32 z; Some (SockV6 ip port 0 scope)
  | None => ip ← parse_ipv6 body; Some (SockV6 ip port 0 0)
  end.
Definition parse_socket_addr (s : string) : option SocketAddr :=
  match parse_sock_v4 s with
  | Some a => Some a
  | None => parse_sock_v6 s
  end.

Inductive target_error := NoPort | BadPort.

Definition parse_target (s : string) : result target_error Address :=
  match parse_socket_addr s with
  | Some addr => Ok (Ip addr)
  | None =>
      match rsplit_once ":"%char s with
      | None => Err NoPort
      | Some (host, port_str) =>
          match parse_uint 16 port_str with
          | None => Err BadPort
          | Some port =>
              match parse_ip host with
              | Some ip => Ok (Ip (sock_new ip port))
              | None => Ok (Domain host port)
              end
          end
      end
  end.

(** [Display] of an address. *)
Definition address_to_string (a : Address) : string :=
  match a with
  | Domain domain port => domain +:+ ":" +:+ uint_to_string port
  | Ip addr => sock_to_string addr
  end.

Definition to_hysteria2_addr_string (a : Address) : string :=
  match a with
  | Ip addr => sock_to_string addr
  | Domain domain port => domain +:+ ":" +:+ uint_to_string port
  end.

(** ** Decimal numbers *)

Lemma digit_value_char d : 0 <= d < 10 → digit_value (digit_char d) = Some d.
Proof.
  intros H. assert (d ∈ seqZ 0 10) as Hd by (apply elem_of_seqZ; lia).
  assert (forallb (fun d => bool_decide (digit_value (digit_char d) = Some d)) (seqZ 0 10) = true) as E
    by (vm_compute; reflexivity).
  by apply list_elem_of_In, (proj1 (forallb_forall _ _) E), bool_decide_eq_true in Hd.
Qed.

Lemma dec_digits_nonempty fuel z s : fuel ≠ O → dec_digits fuel z s ≠ ""%string.
Proof.
  revert z s. induction fuel as [|fuel IH]; intros z s Hf; first done. cbn [dec_digits].
  destruct (z <? 10); first done. destruct fuel; [done|by apply IH].
Qed.

Lemma parse_dec_digits fuel : ∀ z acc s, 0 <= z < 10 ^ Z.of_nat fuel →
  ∃ k, parse_digits acc (dec_digits fuel z s) = parse_digits (acc * 10 ^ Z.of_nat k + z) s.
Proof.
  induction fuel as [|fuel IH]; intros z acc s Hz.
  { exists O. simpl in *. f_equal. lia. }
  cbn [dec_digits]. pose proof (Z.div_mod z 10 ltac:(lia)) as Hdm.
  pose proof (Z.mod_pos_bound z 10 ltac:(lia)).
  destruct (Z.ltb_spec z 10).
  - exists 1%nat. cbn [parse_digits]. rewrite digit_value_char by lia. simpl. f_equal.
    rewrite Z.mod_small by lia. lia.
  - destruct (IH (z / 10) acc (String (digit_char (z mod 10)) s)) as [k Hk].
    { split; [apply Z.div_pos; lia|]. apply Z.div_lt_upper_bound; [lia|].
      rewrite Nat2Z.inj_succ, Z.pow_succ_r in Hz by lia. lia. }
    exists (S k). rewrite Hk. cbn [parse_digits]. rewrite digit_value_char by lia. simpl. f_equal.
    rewrite Nat2Z.inj_succ, Z.pow_succ_r by lia. lia.
Qed.

(** Every character of a printed number satisfies what digits satisfy. *)
Fixpoint all_chars (P : Ascii.ascii → bool) (s : string) : bool :=
  match s with "" => true | String a t => P a && all_chars P t end.
Definition is_digit (a : Ascii.ascii) : bool := (48 <=? ascii_code a) && (ascii_code a <=? 57).
Lemma digit_char_digit d : 0 <= d < 10 → is_digit (digit_char d) = true.
Proof.
  intros H%digit_value_char. unfold digit_value in H. unfold is_digit. by destruct (_ && _).
Qed.
Lemma dec_digits_digits fuel : ∀ z s, all_chars is_digit s = true → 0 <= z → all_chars is_digit (dec_digits fuel z s) = true.
Proof.
  induction fuel as [|fuel IH]; intros z s Hs Hz; first done. cbn [dec_digits].
  pose proof (Z.mod_pos_bound z 10 ltac:(lia)).
  assert (all_chars is_digit (String (digit_char (z mod 10)) s) = true) as H'.
  { cbn [all_chars]. by rewrite digit_char_digit by lia. }
  destruct (z <? 10); first done. apply IH; [done|]. apply Z.div_pos; lia.
Qed.

Lemma parse_digits_to_string z : 0 <= z < 2 ^ 64 → parse_digits 0 (uint_to_string z) = Some z.
Proof.
  intros Hz. destruct (parse_dec_digits 20 z 0 "") as [k Hk]; first (cbn; lia).
  unfold uint_to_string. by rewrite Hk.
Qed.
Lemma uint_to_string_digits z : 0 <= z → all_chars is_digit (uint_to_string z) = true.
Proof. by apply dec_digits_digits. Qed.
Lemma uint_to_string_nonempty z : uint_to_string z ≠ ""%string.
Proof. by apply dec_digits_nonempty. Qed.

Lemma parse_port_to_string w z : in_width w z → w <= 64 → parse_port w (uint_to_string z) = Some z.
Proof.
  intros Hz Hw. pose proof (Z.pow_le_mono_r 2 w 64 ltac:(lia) Hw). unfold in_width in Hz.
  unfold parse_port. pose proof (uint_to_string_nonempty z).
  destruct (uint_to_string z) eqn:E; first done. rewrite <- E.
  rewrite parse_digits_to_string by lia. simpl. by rewrite (proj2 (Z.ltb_lt _ _)) by lia.
Qed.
Lemma parse_uint_to_string w z : in_width w z → w <= 64 → parse_uint w (uint_to_string z) = Some z.
Proof.
  intros Hz Hw. pose proof (parse_port_to_string w z Hz Hw) as H. unfold parse_port, parse_uint in *.
  pose proof (uint_to_string_digits z ltac:(apply Hz)) as Hd.
  destruct (uint_to_string z) as [|a s]; first done. cbn [all_chars] in Hd. apply andb_true_iff in Hd as [Hd _].
  assert (a ≠ "+"%char) as Ha by (by intros ->).
  destruct a as [[] [] [] [] [] [] [] []]; try done.
Qed.

(** ** Splitting *)

Definition no_char (c : Ascii.ascii) (s : string) : bool := all_chars (fun a => negb (Ascii.eqb a c)) s.
Lemma all_chars_impl (P Q : Ascii.ascii → bool) s :
  (∀ a, P a = true → Q a = true) → all_chars P s = true → all_chars Q s = true.
Proof.
  intros H. induction s as [|a s IH]; first done. cbn [all_chars]. intros [??]%andb_true_iff.
  apply andb_true_iff. auto.
Qed.
Lemma rsplit_once_none c s : no_char c s = true → rsplit_once c s = None.
Proof.
  unfold no_char. induction s as [|a s IH]; first done. cbn [all_chars rsplit_once]. intros [Ha Hs]%andb_true_iff.
  rewrite (IH Hs). by apply negb_true_iff in Ha as ->.
Qed.
Lemma rsplit_once_app c h t : no_char c t = true → rsplit_once c (h +:+ String c t) = Some (h, t).
Proof.
  intros Ht. induction h as [|a h IH].
  - simpl. by rewrite rsplit_once_none, Ascii.eqb_refl.
  - rewrite app_cons_str. cbn [rsplit_once]. by rewrite IH.
Qed.
Lemma no_char_uint c z : is_digit c = false → 0 <= z → no_char c (uint_to_string z) = true.
Proof.
  intros Hc Hz. eapply all_chars_impl, uint_to_string_digits; last done. intros a Ha.
  apply negb_true_iff. destruct (Ascii.eqb_spec a c) as [->|]; [congruence|done].
Qed.

(** ** Reading back *)

Lemma parse_sock_v4_display ip p : u32_ok ip → u16_ok p → parse_socket_addr (sock_to_string (SockV4 ip p)) = Some (SockV4 ip p).
Proof.
  intros Hip Hp. unfold parse_socket_addr, parse_sock_v4. cbn [sock_to_string].
  change (":" +:+ ?s) with (String ":" s).
  rewrite rsplit_once_app by (by apply no_char_uint; [|apply Hp]). cbn [mbind option_bind].
  rewrite parse_ipv4_display by done. cbn [mbind option_bind].
  by rewrite parse_port_to_string by done.
Qed.

(** What the format can carry: any IPv4 socket address, an IPv6 one that the
    standard library's own [Display] and [FromStr] agree on, and a name that is
    not itself an address literal. *)
Definition addr_printable (a : Address) : Prop :=
  match a with
  | Ip (SockV4 _ _) => True
  | Ip s => parse_socket_addr (sock_to_string s) = Some s
  | Domain d _ => parse_ip d = None ∧ strip_prefix "[" d = None
  end.

Lemma strip_bracket_app d t : strip_prefix "[" d = None → strip_prefix "[" (d +:+ String ":" t) = None.
Proof. destruct d as [|a d]; first done. rewrite app_cons_str. cbn [strip_prefix]. by destruct (Ascii.eqb _ _). Qed.

Lemma parse_target_display a :
  addr_ok a → addr_printable a → parse_target (to_hysteria2_addr_string a) = Ok a.
Proof.
  intros Hok Hpr. unfold parse_target. destruct a as [[ip p|ip p fl sc]|d p]; cbn [to_hysteria2_addr_string].
  - destruct Hok. by rewrite parse_sock_v4_display.
  - by rewrite Hpr.
  - destruct Hok as [Hd Hp], Hpr as [Hip Hbr]. change (":" +:+ ?s) with (String ":" s).
    assert (no_char ":" (uint_to_string p) = true) as Hc by (by apply no_char_uint; [|apply Hp]).
    assert (parse_socket_addr (d +:+ String ":" (uint_to_string p)) = None) as ->.
    { unfold parse_socket_addr, parse_sock_v4, parse_sock_v6. rewrite rsplit_once_app by done.
      rewrite strip_bracket_app by done. cbn [mbind option_bind].
      unfold parse_ip in Hip. by destruct (parse_ipv4 d). }
    rewrite rsplit_once_app by done. rewrite parse_uint_to_string by done. by rewrite Hip.
Qed.
