(* ===== verification/Resolver.v ===== *)
(** * Building the resolver ([src/src/dns/resolver.rs], [src/src/dns/dhcp.rs])

    [build_resolver] stacks the DNS components: name servers (one, split by
    domain, racing, or a primary with a fallback) under a hosts table, under the
    pool of fake addresses, under a family preference, under the cache.  The
    stack is a value of type [Stack] here and [resolve] runs it on the state of
    its two stateful layers.  Name servers are leaves; the answer of the third-
    party client to the n-th query is the class [Network].  [Arc]s are indices,
    so that the test of [SplitResolver] on pointers is one on indices. *)

From Stdlib Require Import Ascii.
From S2P Require Import Prelude RustStr Addr Trie Rules IpText Hosts FakeIp DnsCache HostPort.

Local Open Scope string_scope.
Local Open Scope list_scope.
Local Open Scope Z_scope.

(** ** Configuration *)

Record DnsServerConfig := mkServer { s_address : string; s_domains : list string }.
Record FakeIpConfig := mkFake { ipv4_range : string; ipv6_range : option string; exclude : list string }.
Record FallbackFilterConfig := mkFilter { ip_cidr : list string; f_domain : list string }.
(** [hosts] in the order the map is iterated. *)
Record DnsConfig := mkDns {
  servers : list DnsServerConfig;
  cache_size : nat;
  cache_ttl : Z;
  negative_cache_ttl : Z;
  hosts : list (string * string);
  fake_ip : option FakeIpConfig;
  mode : string;
  fallback : list DnsServerConfig;
  fallback_filter : option FallbackFilterConfig;
  edns_client_subnet : option string;
  prefer_ip : option string
}.
Definition default_dns_mode : string := "split".
Definition default_fakeip_range : string := "198.18.0.0/15".
Definition default_cache_size : nat := 1024.
Definition default_cache_ttl : Z := 300.
Definition default_negative_cache_ttl : Z := 30.

(** ** The system's servers *)

Definition push_new (ip : IpAddr) (servers : list IpAddr) : list IpAddr :=
  if bool_decide (ip ∈ servers) then servers else servers ++ [ip].
Definition push_parsed (s : string) (servers : list IpAddr) : list IpAddr :=
  match parse_ip s with Some ip => push_new ip servers | None => servers end.
Definition resolv_conf_line (servers : list IpAddr) (line : string) : list IpAddr :=
  match strip_prefix "nameserver" (trim line) with
  | Some rest => push_parsed (default (trim rest) (head (split_on "%" (trim rest)))) servers
  | None => servers
  end.
Definition detect_dns_resolv_conf (content : string) : list IpAddr := foldl resolv_conf_line [] (lines content).

Definition extract_ip_after_colon (line : string) : option string :=
  match rsplit_once ":"%char line with
  | None => None
  | Some (_, after) => if String.eqb (trim after) "" then None else Some (trim after)
  end.
Definition macos_line (servers : list IpAddr) (line : string) : list IpAddr :=
  let trimmed := trim line in
  if starts_with "nameserver[" trimmed || starts_with "nameserver :" trimmed then
    match extract_ip_after_colon trimmed with Some s => push_parsed s servers | None => servers end
  else servers.
Definition detect_dns_macos (stdout : string) : list IpAddr := foldl macos_line [] (lines stdout).

Definition is_ascii_digit (a : ascii) : bool := (48 <=? ascii_code a) && (ascii_code a <=? 57).
Definition extract_ip_from_line (line : string) : option string :=
  let trimmed := trim line in
  match trimmed with
  | String c _ =>
      if is_ascii_digit c then
        match split_whitespace trimmed with
        | word :: _ => if contains "." word || contains ":" word then Some word else None
        | [] => None
        end
      else None
  | "" => None
  end.
Definition netsh_line (servers : list IpAddr) (line : string) : list IpAddr :=
  match extract_ip_from_line (trim line) with Some s => push_parsed s servers | None => servers end.
(** The loop over the output of [ipconfig]; the heading in Chinese is a constant
    of its own. *)
Definition dns_heading_zh : string := "DNS " +:+ of_bytes (byte_of_Z <$> [230; 156; 141; 229; 138; 161; 229; 153; 168]).
Definition ipconfig_line (st : bool * list IpAddr) (line : string) : bool * list IpAddr :=
  let '(in_dns_section, servers) := st in
  let trimmed := trim line in
  if contains "DNS Servers" trimmed || contains dns_heading_zh trimmed then
    (true, match extract_ip_after_colon trimmed with Some s => push_parsed s servers | None => servers end)
  else if in_dns_section then
    match parse_ip trimmed with
    | Some ip => (true, push_new ip servers)
    | None => (false, servers)
    end
  else (false, servers).
Definition detect_dns_windows (netsh ipconfig : string) : list IpAddr :=
  match foldl netsh_line [] (lines netsh) with
  | [] => (foldl ipconfig_line (false, []) (lines ipconfig)).2
  | servers => servers
  end.

(** ** Server addresses *)

Inductive build_error :=
| NoSystemServers
| NotSupported (scheme : string)
| BadDohUrl
| UnknownDohHost (host : string)
| BadDnsAddress (s : string)
| FakePoolPanics.

(** What the third-party client is configured with. *)
Inductive ServerSpec :=
| Clear (ips : list IpAddr) (port : Z)
| Tls (addr : SocketAddr) (name : string)
| Https (addr : SocketAddr) (name : option string).

Definition get_system_dns_servers (detected : list IpAddr) (interface_hint : option string) : result build_error (list IpAddr) :=
  match detected with [] => Err NoSystemServers | _ => Ok detected end.

Definition unbracket (s : string) : string := trim_end_matches "]" (trim_start_matches "[" s).

Definition parse_ip_port (s : string) (default_port : Z) : result build_error (IpAddr * Z) :=
  match parse_ip s with
  | Some ip => Ok (ip, default_port)
  | None =>
      match parse_socket_addr s with
      | Some addr => Ok (sock_ip addr, sock_port addr)
      | None =>
          match parse_ip (unbracket s) with
          | Some ip => Ok (ip, default_port)
          | None => Err (BadDnsAddress s)
          end
      end
  end.

(** The operating system and the URL parser. *)
Class Platform := {
  system_servers : list IpAddr;
  (** [Url::parse]: the host and the port, when there are any. *)
  url_parse : string → option (option string * option Z)
}.

Definition known_doh (host : string) : option IpAddr :=
  if String.eqb host "dns.google" || String.eqb host "dns.google.com" then Some (V4 134744072)
  else if String.eqb host "cloudflare-dns.com" then Some (V4 16843009)
  else if String.eqb host "dns.alidns.com" then Some (V4 3741648133)
  else None.

Definition parse_dns_address `{Platform} (address : string) : result build_error ServerSpec :=
  match strip_prefix "dhcp://" address with
  | Some iface =>
      let iface_hint := if String.eqb iface "" || String.eqb iface "auto" then None else Some iface in
      let? ips := get_system_dns_servers system_servers iface_hint in Ok (Clear ips 53)
  | None =>
      if starts_with "quic://" address then Err (NotSupported "quic") else
      match strip_prefix "tls://" address with
      | Some tls_addr =>
          let? '(ip, port) := parse_ip_port tls_addr 853 in Ok (Tls (sock_new ip port) (ip_to_string ip))
      | None =>
          if starts_with "h3://" address then Err (NotSupported "h3") else
          if starts_with "https://" address then
            match url_parse address with
            | Some (Some h, p) =>
                let host := unbracket h in
                let port := default 443 p in
                match match parse_ip host with Some ip => Some ip | None => known_doh host end with
                | Some ip => Ok (Https (sock_new ip port) (match parse_ip host with Some _ => None | None => Some host end))
                | None => Err (UnknownDohHost host)
                end
            | _ => Err BadDohUrl
            end
          else let? '(ip, port) := parse_ip_port address 53 in Ok (Clear [ip] port)
      end
  end.

(** ** Domain rules *)

Section resolver.
Context {IpNet Regex : Type} `{!IpNetOps IpNet} `{!RegexOps Regex}.

Inductive DnsDomainRule :=
| Full (s : string)
| Suffix (s : string)
| Keyword (s : string)
| RegexRule (r : Regex).

(** [None]: the pattern is not a regular expression. *)
Definition rule_parse (s : string) : option DnsDomainRule :=
  match strip_prefix "full:" s with Some v => Some (Full (to_lowercase v)) | None =>
  match strip_prefix "domain:" s with Some v => Some (Full (to_lowercase v)) | None =>
  match strip_prefix "domain_suffix:" s with Some v => Some (Suffix (to_lowercase v)) | None =>
  match strip_prefix "domain_keyword:" s with Some v => Some (Keyword (to_lowercase v)) | None =>
  match strip_prefix "domain_regex:" s with Some v => RegexRule <$> regex_new v | None =>
  match strip_prefix "+." s with
  | Some suffix => Some (Suffix (to_lowercase suffix))
  | None => Some (Suffix (to_lowercase s))
  end end end end end end.
Definition rule_matches (host : string) (r : DnsDomainRule) : bool :=
  let host_lower := to_lowercase host in
  match r with
  | Full domain => String.eqb host_lower domain
  | Suffix suffix => String.eqb host_lower suffix || ends_with ("." +:+ suffix) host_lower
  | Keyword keyword => contains keyword host_lower
  | RegexRule re => regex_is_match re host_lower
  end.

(** ** Resolvers *)

Inductive leaf :=
| SystemResolver
| HickoryResolver (spec : ServerSpec).
Record SplitResolver := mkSplit {
  sp_rules : list (list DnsDomainRule * nat);
  sp_default : nat;
  sp_leaves : list leaf
}.
Inductive nameserver :=
| One (l : leaf)
| Split (s : SplitResolver).
Record FallbackResolver := mkFallback {
  fb_primary : nameserver;
  fb_fallback : nameserver;
  filter_cidrs : list IpNet;
  filter_domains : list string
}.
Inductive upstream :=
| Servers (n : nameserver)
| Race (ls : list leaf)
| Fallback (f : FallbackResolver).
Inductive preference := NoPreference | PreferV4 | PreferV6.
Record Stack := mkStack {
  st_upstream : upstream;
  st_hosts : option (gmap string (list IpAddr));
  st_fake : bool;
  st_prefer : preference
}.

(** ** Building *)

Definition hickory_new `{Platform} (address : string) : result build_error leaf :=
  let? spec := parse_dns_address address in Ok (HickoryResolver spec).

Fixpoint split_loop `{Platform} (servers : list DnsServerConfig) (default : option nat) (s : SplitResolver)
  : result build_error (option nat * SplitResolver) :=
  match servers with
  | [] => Ok (default, s)
  | server :: servers =>
      let? l := hickory_new (s_address server) in
      let id := length (sp_leaves s) in
      let s := mkSplit (sp_rules s) (sp_default s) (sp_leaves s ++ [l]) in
      match s_domains server with
      | [] => split_loop servers (match default with None => Some id | d => d end) s
      | domains =>
          match omap rule_parse domains with
          | [] => split_loop servers default s
          | rules => split_loop servers default (mkSplit (sp_rules s ++ [(rules, id)]) (sp_default s) (sp_leaves s))
          end
      end
  end.
Definition build_nameserver_resolver `{Platform} (servers : list DnsServerConfig) : result build_error nameserver :=
  match servers with
  | [] => Ok (One SystemResolver)
  | [mkServer address []] => let? l := hickory_new address in Ok (One l)
  | _ =>
      let? '(default, s) := split_loop servers None (mkSplit [] 0 []) in
      match default, last (sp_rules s) with
      | Some d, _ => Ok (Split (mkSplit (sp_rules s) d (sp_leaves s)))
      | None, Some (_, d) => Ok (Split (mkSplit (sp_rules s) d (sp_leaves s)))
      | None, None => Ok (Split (mkSplit (sp_rules s) (length (sp_leaves s)) (sp_leaves s ++ [SystemResolver])))
      end
  end.

Definition fallback_new (p f : nameserver) (cidrs domains : list string) : FallbackResolver :=
  mkFallback p f (omap net_parse cidrs) domains.

Fixpoint hickory_all `{Platform} (servers : list DnsServerConfig) : result build_error (list leaf) :=
  match servers with
  | [] => Ok []
  | s :: servers => let? l := hickory_new (s_address s) in let? ls := hickory_all servers in Ok (l :: ls)
  end.
Definition build_upstream `{Platform} (config : DnsConfig) : result build_error upstream :=
  if String.eqb (mode config) "race" then
    let? ls := hickory_all (servers config) in
    match ls with [] => Ok (Servers (One SystemResolver)) | _ => Ok (Race ls) end
  else if String.eqb (mode config) "fallback" then
    let? p := build_nameserver_resolver (servers config) in
    match fallback config with
    | [] => Ok (Servers p)
    | fb =>
        let? f := build_nameserver_resolver fb in
        Ok (Fallback (fallback_new p f
              (default [] (ip_cidr <$> fallback_filter config)) (default [] (f_domain <$> fallback_filter config))))
    end
  else let? n := build_nameserver_resolver (servers config) in Ok (Servers n).

Definition add_host (hosts : gmap string (list IpAddr)) (entry : string * string) : gmap string (list IpAddr) :=
  match parse_ip entry.2 with Some ip => push_host ip entry.1 hosts | None => hosts end.
Definition hosts_table (entries : list (string * string)) : gmap string (list IpAddr) := foldl add_host ∅ entries.

(** The stack, and the state of the pool and of the cache. *)
Record DnsState := mkDnsState { pool : option FakeIpPool; cached : CachedResolver }.
Definition build_resolver `{Platform} (config : DnsConfig) : result build_error (Stack * DnsState) :=
  let? up := build_upstream config in
  let table := match hosts config with [] => None | es => Some (hosts_table es) end in
  let pref :=
    match prefer_ip config with
    | Some p => if String.eqb p "ipv4" || String.eqb p "v4" then PreferV4
                else if String.eqb p "ipv6" || String.eqb p "v6" then PreferV6 else NoPreference
    | None => NoPreference
    end in
  let cache := resolver_new (cache_ttl config) (negative_cache_ttl config) (cache_size config) in
  match fake_ip config with
  | None => Ok (mkStack up table false pref, mkDnsState None cache)
  | Some fake_cfg =>
      match pool_new (ipv4_range fake_cfg) (ipv6_range fake_cfg) (exclude fake_cfg) with
      | None => Err FakePoolPanics
      | Some p => Ok (mkStack up table true pref, mkDnsState (Some p) cache)
      end
  end.

(** ** Resolving *)

(** The answers of the operating system and of the third-party client to the
    [n]-th query, and the order in which racing answers arrive. *)
Class Network := {
  lookup_host : nat → DnsResolver;
  lookup_ip : nat → ServerSpec → DnsResolver;
  arrival : nat → list nat
}.

Section run.
Context `{Network} (n : nat).

Definition leaf_resolve (l : leaf) (host : string) : result dns_error (list IpAddr) :=
  let? addrs := match l with SystemResolver => lookup_host n host | HickoryResolver spec => lookup_ip n spec host end in
  match addrs with [] => Err (NoAddresses host) | _ => Ok addrs end.

Fixpoint find_rule (host : string) (rules : list (list DnsDomainRule * nat)) : option nat :=
  match rules with
  | [] => None
  | (rs, id) :: rules => if existsb (rule_matches host) rs then Some id else find_rule host rules
  end.
Definition find_resolver (host : string) (s : SplitResolver) : nat := default (sp_default s) (find_rule host (sp_rules s)).
Definition nth_resolve (s : SplitResolver) (id : nat) (host : string) : result dns_error (list IpAddr) :=
  match sp_leaves s !! id with Some l => leaf_resolve l host | None => Err NoResolvers end.
Definition split_resolve (s : SplitResolver) (host : string) : result dns_error (list IpAddr) :=
  let id := find_resolver host s in
  match nth_resolve s id host with
  | Ok addrs => Ok addrs
  | Err e => if (id =? sp_default s)%nat then Err e else nth_resolve s (sp_default s) host
  end.
Definition nameserver_resolve (ns : nameserver) : DnsResolver :=
  match ns with One l => leaf_resolve l | Split s => split_resolve s end.

Definition should_fallback_ip (f : FallbackResolver) (addrs : list IpAddr) : bool :=
  match filter_cidrs f with
  | [] => false
  | nets => existsb (fun ip => existsb (fun net => net_contains net ip) nets) addrs
  end.
Definition should_fallback_domain (f : FallbackResolver) (host : string) : bool :=
  let host_lower := to_lowercase host in
  existsb (fun d => let d_lower := to_lowercase d in
                    String.eqb host_lower d_lower || ends_with ("." +:+ d_lower) host_lower) (filter_domains f).
Definition fallback_resolve (f : FallbackResolver) (host : string) : result dns_error (list IpAddr) :=
  if should_fallback_domain f host then nameserver_resolve (fb_fallback f) host
  else
    match nameserver_resolve (fb_primary f) host with
    | Ok addrs => if should_fallback_ip f addrs then nameserver_resolve (fb_fallback f) host else Ok addrs
    | Err _ => nameserver_resolve (fb_fallback f) host
    end.
Definition upstream_resolve (u : upstream) : DnsResolver :=
  match u with
  | Servers ns => nameserver_resolve ns
  | Race ls => race_resolve (leaf_resolve <$> ls) (arrival n)
  | Fallback f => fallback_resolve f
  end.
Definition hosts_layer (st : Stack) : DnsResolver :=
  match st_hosts st with Some t => hosts_resolve (upstream_resolve (st_upstream st)) t | None => upstream_resolve (st_upstream st) end.

(** [FakeIpResolver::resolve] *)
Definition fake_layer (st : Stack) (p : option FakeIpPool) (host : string)
  : result dns_error (list IpAddr) * option FakeIpPool :=
  match p with
  | None => (hosts_layer st host, None)
  | Some p =>
      if is_excluded host p then (hosts_layer st host, Some p)
      else let '(ip, p) := allocate host p in (Ok [ip], Some p)
  end.
Definition prefer_layer (st : Stack) (r : result dns_error (list IpAddr)) (host : string) : result dns_error (list IpAddr) :=
  match st_prefer st with
  | NoPreference => r
  | PreferV4 => prefer_ipv4_resolve (fun _ => r) host
  | PreferV6 => prefer_ipv6_resolve (fun _ => r) host
  end.
(** Everything under the cache. *)
Definition inner_resolve (st : Stack) (p : option FakeIpPool) (host : string)
  : result dns_error (list IpAddr) * option FakeIpPool :=
  let '(r, p) := fake_layer st p host in (prefer_layer st r host, p).

(** Whether the cache has to ask. *)
Definition asks (t_read t_store : Z) (h : string) (s : CachedResolver) : bool :=
  match read_cache t_read h s with
  | Some _ => false
  | None =>
      let '(_, is_leader, s) := join_inflight h (count_miss s) in
      if is_leader then true else match read_cache t_store h s with Some _ => false | None => true end
  end.
(** A query with no other running. *)
Definition resolve (st : Stack) (t_read t_store t_evict : Z) (host : string) (s : DnsState)
  : result dns_error (list IpAddr) * DnsState :=
  let '(r, p) := inner_resolve st (pool s) host in
  let '(answer, c) := DnsCache.resolve (fun _ => r) t_read t_store t_evict host (cached s) in
  (answer, mkDnsState (if asks t_read t_store host (cached s) then p else pool s) c).
End run.

(** ** What the cache holds *)

(** Every address in the cache satisfies [P] for its name, which holds of what
    the layers below answered. *)
Definition cache_all (P : string → IpAddr → Prop) (s : CachedResolver) : Prop :=
  ∀ h e addrs, cache s !! h = Some e → value e = Positive addrs → addrs ≠ [] ∧ Forall (P h) addrs.
Definition answer_all (P : string → IpAddr → Prop) (h : string) (r : result dns_error (list IpAddr)) : Prop :=
  match r with Ok addrs => addrs ≠ [] ∧ Forall (P h) addrs | Err _ => True end.

Lemma cache_all_sub P s s' : cache s' ⊆ cache s → cache_all P s → cache_all P s'.
Proof. intros Hs Hc h e addrs He. apply (Hc h e addrs). by eapply lookup_weaken. Qed.
Lemma read_cache_all P now h s r s' :
  cache_all P s → read_cache now h s = Some (r, s') → answer_all P h r ∧ cache_all P s'.
Proof.
  intros Hc Hr. unfold read_cache, peek in Hr. destruct (cache s !! h) as [e|] eqn:E; [|done].
  destruct (expires_at e <=? now); [done|].
  assert (cache_all P (with_cache (<[h := bump e]> (cache s)) s)) as Hb.
  { intros h' e' l He'. cbn in He'. apply lookup_insert_Some in He' as [[<- <-]|[_ He']]; [|by apply Hc].
    apply (Hc h e l E). }
  destruct (value e) as [addrs|msg] eqn:Ev; cbn in Hr; simplify_eq; split; [|exact Hb|done|exact Hb].
  by eapply Hc.
Qed.
Lemma evict_if_needed_sub now s : cache (evict_if_needed now s) ⊆ cache s.
Proof.
  unfold evict_if_needed. etrans; [|apply evict_expired_sub]. apply (proj1 (proj2 (evict_oldest_spec _))).
Qed.
Lemma cached_resolve_all P inner t1 t2 t3 h s r s' :
  cache_all P s → answer_all P h (inner h) → DnsCache.resolve inner t1 t2 t3 h s = (r, s') →
  answer_all P h r ∧ cache_all P s'.
Proof.
  intros Hc Hi Hr. unfold DnsCache.resolve in Hr. destruct (read_cache t1 h s) as [[r1 s1]|] eqn:E1.
  { simplify_eq. by eapply read_cache_all. }
  destruct (join_inflight h (count_miss s)) as [[k lead] s1] eqn:E2.
  assert (cache s1 = cache s) as Hs1.
  { unfold join_inflight in E2. destruct (inflight _ !! h); by simplify_eq. }
  assert (cache_all P s1) as Hc1 by (intros h' e l; rewrite Hs1; apply Hc).
  destruct lead; cbn [negb] in Hr.
  - simplify_eq. split; [done|]. cbn. eapply cache_all_sub; [apply evict_if_needed_sub|]. cbn [touch_order with_order cache].
    unfold store. destruct (inner h) as [addrs|err] eqn:Ei.
    + intros h' e l He Hv. cbn in He. apply lookup_insert_Some in He as [[<- <-]|[_ He]]; [|by eapply Hc1].
      cbn in Hv. by simplify_eq.
    + destruct (0 <? negative_ttl s1); [|done].
      intros h' e l He Hv. cbn in He. apply lookup_insert_Some in He as [[<- <-]|[_ He]]; [done|by eapply Hc1].
  - destruct (read_cache t2 h s1) as [[r2 s2]|] eqn:E3; simplify_eq; [by eapply read_cache_all|].
    split; [done|]. unfold drop_stale. destruct (inflight s1 !! h) as [m|]; [|done]. by destruct (m =? k)%nat.
Qed.
(** The layers below matter only when they are asked. *)
Lemma not_asked inner inner' t1 t2 t3 h s :
  asks t1 t2 h s = false → DnsCache.resolve inner t1 t2 t3 h s = DnsCache.resolve inner' t1 t2 t3 h s.
Proof.
  unfold asks, DnsCache.resolve. destruct (read_cache t1 h s) as [[? ?]|]; [done|].
  destruct (join_inflight h (count_miss s)) as [[k lead] s1]. destruct lead; [done|]. cbn [negb].
  by destruct (read_cache t2 h s1) as [[? ?]|].
Qed.

(** ** Where answers come from *)

Definition ns_leaves (ns : nameserver) : list leaf := match ns with One l => [l] | Split s => sp_leaves s end.
Definition up_leaves (u : upstream) : list leaf :=
  match u with
  | Servers ns => ns_leaves ns
  | Race ls => ls
  | Fallback f => ns_leaves (fb_primary f) ++ ns_leaves (fb_fallback f)
  end.

Section answers.
Context `{Network} (n : nat) (host : string).

Lemma leaf_resolve_nonempty l addrs : leaf_resolve n l host = Ok addrs → addrs ≠ [].
Proof.
  unfold leaf_resolve. destruct (match l with SystemResolver => _ | HickoryResolver _ => _ end) as [[|a l']|]; cbn; try done.
  by intros [= <-].
Qed.
Lemma nth_resolve_leaf s id addrs :
  nth_resolve n s id host = Ok addrs → ∃ l, l ∈ sp_leaves s ∧ leaf_resolve n l host = Ok addrs.
Proof. unfold nth_resolve. destruct (sp_leaves s !! id) as [l|] eqn:E; [|done]. exists l. split; [by eapply list_elem_of_lookup_2|done]. Qed.
Lemma nameserver_leaf ns addrs :
  nameserver_resolve n ns host = Ok addrs → ∃ l, l ∈ ns_leaves ns ∧ leaf_resolve n l host = Ok addrs.
Proof.
  destruct ns as [l|s]; cbn [nameserver_resolve ns_leaves]; intros Hr.
  - exists l. split; [by apply list_elem_of_singleton|done].
  - unfold split_resolve in Hr. destruct (nth_resolve n s (find_resolver host s) host) eqn:E.
    + simplify_eq. by eapply nth_resolve_leaf.
    + destruct (_ =? _)%nat; [done|]. by eapply nth_resolve_leaf.
Qed.
Lemma race_leaf ls addrs :
  race_resolve (leaf_resolve n <$> ls) (arrival n) host = Ok addrs → ∃ l, l ∈ ls ∧ leaf_resolve n l host = Ok addrs.
Proof.
  intros Hr. destruct ls as [|l [|l2 ls]]; [done| |].
  - exists l. split; [by apply list_elem_of_singleton|done].
  - set (all := l :: l2 :: ls) in *. change (race_resolve (leaf_resolve n <$> all) (arrival n) host)
      with (race_loop host None (omap (fun i => (fun r : DnsResolver => (i, r host)) <$> (leaf_resolve n <$> all) !! i) (arrival n))) in Hr.
    pose proof (race_loop_spec host (omap (fun i => (fun r : DnsResolver => (i, r host)) <$> (leaf_resolve n <$> all) !! i) (arrival n)) None) as Hs.
    rewrite Hr in Hs. destruct Hs as (i&Hi&_). apply list_elem_of_omap in Hi as (j&_&Hj).
    rewrite list_lookup_fmap in Hj. destruct (all !! j) as [l'|] eqn:E; [|done]. cbn in Hj. simplify_eq.
    exists l'. split; [by eapply list_elem_of_lookup_2|done].
Qed.
Lemma upstream_leaf u addrs :
  upstream_resolve n u host = Ok addrs → ∃ l, l ∈ up_leaves u ∧ leaf_resolve n l host = Ok addrs.
Proof.
  destruct u as [ns|ls|f]; cbn [upstream_resolve up_leaves]; intros Hr; [by apply nameserver_leaf|by apply race_leaf|].
  unfold fallback_resolve in Hr.
  assert (∀ ns, ns = fb_primary f ∨ ns = fb_fallback f → nameserver_resolve n ns host = Ok addrs →
            ∃ l, l ∈ ns_leaves (fb_primary f) ++ ns_leaves (fb_fallback f) ∧ leaf_resolve n l host = Ok addrs) as Hns.
  { intros ns Hns Hx. destruct (nameserver_leaf ns addrs Hx) as (l&Hl&Hr'). exists l. split; [|done].
    apply elem_of_app. destruct Hns as [-> | ->]; auto. }
  destruct (should_fallback_domain f host); [by eapply Hns; eauto|].
  destruct (nameserver_resolve n (fb_primary f) host) as [l|] eqn:E; [|by eapply Hns; eauto].
  destruct (should_fallback_ip f l); [by eapply Hns; eauto|]. apply (Hns (fb_primary f)); [by left|congruence].
Qed.
End answers.

(** Servers none of which can be asked: each is for domains only, and none of
    its domain rules is readable. *)
Definition no_server (l : list DnsServerConfig) : Prop :=
  Forall (fun s => s_domains s ≠ [] ∧ omap rule_parse (s_domains s) = []) l.
Definition leaf_from `{Platform} (l : list DnsServerConfig) (x : leaf) : Prop :=
  (x = SystemResolver ∧ no_server l)
  ∨ ∃ server spec, server ∈ l ∧ parse_dns_address (s_address server) = Ok spec ∧ x = HickoryResolver spec.

Section building.
Context `{Platform}.

Lemma hickory_new_Ok address l : hickory_new address = Ok l → ∃ spec, parse_dns_address address = Ok spec ∧ l = HickoryResolver spec.
Proof. unfold hickory_new. destruct (parse_dns_address address) as [spec|]; cbn; [|done]. intros [= <-]. eauto. Qed.
Lemma split_loop_spec l d s d' s' :
  split_loop l d s = Ok (d', s') →
  (∀ x, x ∈ sp_leaves s' → x ∈ sp_leaves s ∨
     ∃ server spec, server ∈ l ∧ parse_dns_address (s_address server) = Ok spec ∧ x = HickoryResolver spec)
  ∧ (d' = None → sp_rules s' = [] → no_server l).
Proof.
  revert d s. induction l as [|server l IH]; intros d s Hl; cbn [split_loop] in Hl.
  { simplify_eq. split; [auto|]. intros _ _. constructor. }
  destruct (hickory_new (s_address server)) as [x|] eqn:Ex; cbn [bind_result] in Hl; [|done].
  apply hickory_new_Ok in Ex as (spec&Hspec&->).
  assert (Hstep : ∀ d1 s1, split_loop l d1 s1 = Ok (d', s') → sp_leaves s1 = sp_leaves s ++ [HickoryResolver spec] →
    (∀ x, x ∈ sp_leaves s' → x ∈ sp_leaves s ∨
       ∃ server0 spec0, server0 ∈ server :: l ∧ parse_dns_address (s_address server0) = Ok spec0 ∧ x = HickoryResolver spec0)
    ∧ (d' = None → sp_rules s' = [] → no_server l)).
  { intros d1 s1 H1 H2. destruct (IH _ _ H1) as [Hin Hno]. split; [|done]. intros x Hx.
    destruct (Hin x Hx) as [Hx'|(sv&sp&?&?&?)]; [|right; exists sv, sp; split_and!; [by apply list_elem_of_further|done..]].
    rewrite H2 in Hx'. apply elem_of_app in Hx' as [?|Hx']; [by left|]. apply list_elem_of_singleton in Hx' as ->.
    right. exists server, spec. split_and!; [apply list_elem_of_here|done..]. }
  destruct (s_domains server) as [|dm dms] eqn:Ed.
  - destruct (Hstep _ _ Hl) as [Hin _]; [done|]. split; [done|]. intros -> _. exfalso. clear -Hl.
    assert (∀ l x s d', split_loop l (Some x) s = Ok (d', s') → d' = Some x) as Hd.
    { clear. induction l as [|sv l IH]; intros x s d' Hs; cbn [split_loop] in Hs; [by simplify_eq|].
      destruct (hickory_new _); cbn [bind_result] in Hs; [|done].
      destruct (s_domains sv); [by eapply IH|]. destruct (omap _ _); by eapply IH. }
    destruct d; apply Hd in Hl; done.
  - destruct (omap rule_parse (dm :: dms)) as [|r rs] eqn:Er.
    + destruct (Hstep _ _ Hl) as [Hin Hno]; [done|]. split; [done|]. intros H1 H2. constructor; [|by apply Hno]. by rewrite Ed.
    + destruct (Hstep _ _ Hl) as [Hin _]; [done|]. split; [done|]. intros _ Hn. exfalso.
      assert (∀ l d s d', split_loop l d s = Ok (d', s') → sp_rules s ≠ [] → sp_rules s' ≠ []) as Hd.
      { clear. induction l as [|sv l IH]; intros d s d' Hs Hne; cbn [split_loop] in Hs; [by simplify_eq|].
        destruct (hickory_new _); cbn [bind_result] in Hs; [|done].
        destruct (s_domains sv); [by eapply IH|]. destruct (omap _ _); eapply IH; eauto.
        cbn. intros E. apply app_nil in E as [E _]. done. }
      eapply Hd; [exact Hl| |done]. cbn. intros E. apply app_nil in E as [_ E]. done.
Qed.
Lemma nameserver_leaves_from l ns : build_nameserver_resolver l = Ok ns → Forall (leaf_from l) (ns_leaves ns).
Proof.
  unfold build_nameserver_resolver. intros Hb.
  assert (Hsplit : (let? '(default, s) := split_loop l None (mkSplit [] 0 []) in
      match default, last (sp_rules s) with
      | Some d, _ => Ok (Split (mkSplit (sp_rules s) d (sp_leaves s)))
      | None, Some (_, d) => Ok (Split (mkSplit (sp_rules s) d (sp_leaves s)))
      | None, None => Ok (Split (mkSplit (sp_rules s) (length (sp_leaves s)) (sp_leaves s ++ [SystemResolver])))
      end) = Ok ns → Forall (leaf_from l) (ns_leaves ns)).
  { destruct (split_loop l None _) as [[d s]|] eqn:E; cbn [bind_result]; [|done]. apply split_loop_spec in E as [Hin Hno].
    assert (Forall (leaf_from l) (sp_leaves s)) as Hs.
    { apply Forall_forall. intros x Hx. destruct (Hin x Hx) as [Hx'|?]; [by apply elem_of_nil in Hx'|by right]. }
    intros Heq. destruct d as [d|]; [by simplify_eq|]. destruct (last (sp_rules s)) as [[rs d]|] eqn:El; simplify_eq; [done|].
    apply Forall_app. split; [done|]. constructor; [|constructor]. left. split; [done|]. apply Hno; [done|].
    by apply last_None. }
  destruct l as [|[a ds] [|s2 l]].
  - simplify_eq. constructor; [|constructor]. left. split; [done|constructor].
  - destruct ds; [|by apply Hsplit]. destruct (hickory_new a) as [x|] eqn:Ex; cbn [bind_result] in Hb; [|done].
    simplify_eq. apply hickory_new_Ok in Ex as (spec&?&->). constructor; [|constructor]. right.
    exists (mkServer a []), spec. split_and!; [apply list_elem_of_here|done..].
  - by destruct ds; apply Hsplit.
Qed.
Lemma hickory_all_from l ls :
  hickory_all l = Ok ls →
  Forall (fun x => ∃ server spec, server ∈ l ∧ parse_dns_address (s_address server) = Ok spec ∧ x = HickoryResolver spec) ls
  ∧ (ls = [] → l = []).
Proof.
  revert ls. induction l as [|s l IH]; intros ls Hl; cbn [hickory_all] in Hl; [by simplify_eq|].
  destruct (hickory_new _) as [x|] eqn:Ex; cbn [bind_result] in Hl; [|done].
  destruct (hickory_all l) as [xs|]; cbn [bind_result] in Hl; [|done]. simplify_eq. split; [|done].
  apply hickory_new_Ok in Ex as (spec&?&->). constructor.
  - exists s, spec. split_and!; [apply list_elem_of_here|done..].
  - destruct (IH xs eq_refl) as [Hx _]. eapply Forall_impl; [exact Hx|]. intros y (sv&sp&?&?&?).
    exists sv, sp. split_and!; [by apply list_elem_of_further|done..].
Qed.

(** The lists of servers in use: the fallback list only in its mode, and when it
    is not empty. *)
Definition lists_in_use (config : DnsConfig) : list (list DnsServerConfig) :=
  servers config ::
  (if String.eqb (mode config) "fallback" then match fallback config with [] => [] | fb => [fb] end else []).
(** Where the leaves of a built resolver come from. *)
Definition leaf_of_config (config : DnsConfig) (x : leaf) : Prop := ∃ l, l ∈ lists_in_use config ∧ leaf_from l x.
Lemma leaf_of_servers config x : leaf_from (servers config) x → leaf_of_config config x.
Proof. intros Hx. exists (servers config). split; [apply list_elem_of_here|done]. Qed.
Lemma build_upstream_leaves config u : build_upstream config = Ok u → Forall (leaf_of_config config) (up_leaves u).
Proof.
  unfold build_upstream. destruct (String.eqb (mode config) "race").
  { destruct (hickory_all (servers config)) as [ls|] eqn:E; cbn [bind_result]; [|done].
    apply hickory_all_from in E as [Hls Hnil]. intros Hu. destruct ls as [|l ls]; simplify_eq.
    - constructor; [|constructor]. apply leaf_of_servers. left. split; [done|]. rewrite Hnil by done. constructor.
    - eapply Forall_impl; [exact Hls|]. intros x Hx. apply leaf_of_servers. by right. }
  destruct (String.eqb (mode config) "fallback") eqn:Em;
    (destruct (build_nameserver_resolver (servers config)) as [p|] eqn:Ep; cbn [bind_result]; [|done]);
    apply nameserver_leaves_from in Ep; apply (Forall_impl _ (leaf_of_config config)) in Ep; try apply leaf_of_servers.
  - destruct (fallback config) as [|f0 fs] eqn:Ef; [by intros [= <-]|].
    destruct (build_nameserver_resolver (f0 :: fs)) as [f|] eqn:Eb; cbn [bind_result]; [|done]. intros [= <-].
    cbn [up_leaves fallback_new fb_primary fb_fallback]. apply Forall_app. split; [done|].
    apply nameserver_leaves_from in Eb. eapply Forall_impl; [exact Eb|]. intros x Hx.
    exists (f0 :: fs). split; [|done]. unfold lists_in_use. rewrite Em, Ef. apply list_elem_of_further, list_elem_of_here.
  - by intros [= <-].
Qed.
End building.

(** ** A run of the whole stack *)

Section stack.
Context `{Platform} `{Network} (config : DnsConfig).
(** The fake addresses that names were given. *)
Context (given : string → IpAddr → Prop).

Definition pool_of (fc : FakeIpConfig) : option FakeIpPool := pool_new (ipv4_range fc) (ipv6_range fc) (exclude fc).
(** Names that are not given fake addresses. *)
Definition real (h : string) : Prop :=
  ∀ fc p, fake_ip config = Some fc → pool_of fc = Some p → is_excluded h p = true.
(** What the configuration allows as an address of [h]. *)
Inductive genuine (h : string) (a : IpAddr) : Prop :=
| from_fake fc p :
    fake_ip config = Some fc → pool_of fc = Some p → is_excluded h p = false → is_fake_ip a p = true → given h a →
    genuine h a
| from_hosts name text :
    real h → (name, text) ∈ hosts config → to_lowercase name = to_lowercase h → parse_ip text = Some a → genuine h a
| from_server l server spec k addrs :
    real h → l ∈ lists_in_use config → server ∈ l → parse_dns_address (s_address server) = Ok spec →
    lookup_ip k spec h = Ok addrs → a ∈ addrs → genuine h a
| from_system l k addrs :
    real h → l ∈ lists_in_use config → no_server l → lookup_host k h = Ok addrs → a ∈ addrs → genuine h a.

Lemma leaf_genuine n h l addrs :
  real h → leaf_of_config config l → leaf_resolve n l h = Ok addrs → Forall (genuine h) addrs.
Proof.
  intros Hreal (sl&Hsl&Hl) Hr. unfold leaf_resolve in Hr. apply Forall_forall. intros a Ha.
  destruct Hl as [[-> Hsys]|(sv&spec&Hin&Hspec&->)].
  - destruct (lookup_host n h) as [l|] eqn:E; cbn [bind_result] in Hr; [|done].
    assert (l = addrs) as -> by (by destruct l; simplify_eq). by eapply from_system.
  - destruct (lookup_ip n spec h) as [l|] eqn:E; cbn [bind_result] in Hr; [|done].
    assert (l = addrs) as -> by (by destruct l; simplify_eq). by eapply from_server.
Qed.

Lemma hosts_table_spec es name addrs :
  hosts_table es !! name = Some addrs →
  addrs ≠ [] ∧ Forall (fun a => ∃ n t, (n, t) ∈ es ∧ to_lowercase n = name ∧ parse_ip t = Some a) addrs.
Proof.
  unfold hosts_table. revert name addrs. induction es as [|[n t] es IH] using rev_ind; intros name addrs; [done|].
  rewrite foldl_app. cbn [foldl]. unfold add_host at 1. cbn [fst snd].
  assert (Hold : ∀ addrs, foldl add_host ∅ es !! name = Some addrs →
    addrs ≠ [] ∧ Forall (fun a => ∃ n0 t0, (n0, t0) ∈ es ++ [(n, t)] ∧ to_lowercase n0 = name ∧ parse_ip t0 = Some a) addrs).
  { intros l Hl. destruct (IH _ _ Hl) as [Hne Hall]. split; [done|]. eapply Forall_impl; [exact Hall|].
    intros a (n0&t0&?&?&?). exists n0, t0. split_and!; [apply elem_of_app; by left|done..]. }
  destruct (parse_ip t) as [ip|] eqn:Et; [|apply Hold].
  unfold push_host. rewrite lookup_insert_Some. intros [[Hn <-]|[_ Hl]]; [|by apply Hold].
  split; [by destruct (default _ _)|]. apply Forall_app. split.
  - rewrite Hn. destruct (foldl add_host ∅ es !! name) as [l|] eqn:El; cbn [default]; [by apply Hold|constructor].
  - constructor; [|constructor]. exists n, t. split_and!; [|done..]. apply elem_of_app. right. by apply list_elem_of_singleton.
Qed.

Lemma build_resolver_spec st s :
  build_resolver config = Ok (st, s) →
  Forall (leaf_of_config config) (up_leaves (st_upstream st))
  ∧ (∀ t, st_hosts st = Some t → t = hosts_table (hosts config))
  ∧ cache (cached s) = ∅
  ∧ match fake_ip config with Some fc => pool s = pool_of fc ∧ is_Some (pool s) | None => pool s = None end.
Proof.
  unfold build_resolver. destruct (build_upstream config) as [u|] eqn:Eu; cbn [bind_result]; [|done].
  apply build_upstream_leaves in Eu.
  assert (Hh : ∀ t, match hosts config with [] => None | es => Some (hosts_table es) end = Some t → t = hosts_table (hosts config)).
  { intros t. destruct (hosts config); [done|]. by intros [= <-]. }
  destruct (fake_ip config) as [fc|].
  - fold (pool_of fc). destruct (pool_of fc) as [p|] eqn:Ep; [|done]. intros [= <- <-]. split; [done|]. split; [exact Hh|]. split; [done|]. split; [done|by eexists].
  - intros [= <- <-]. split; [done|]. split; [exact Hh|]. by split.
Qed.

Lemma prefer_layer_all st r h : answer_all genuine h r → answer_all genuine h (prefer_layer st r h).
Proof.
  intros Hr. unfold prefer_layer. destruct (st_prefer st); [done| |];
    unfold prefer_ipv4_resolve, prefer_ipv6_resolve; destruct r as [l|e]; cbn [bind_result]; try done;
    destruct (_ ++ _) as [|a l'] eqn:E; try done; (split; [done|]); rewrite <- E; destruct Hr as [_ Hr];
    apply Forall_app; split; apply Forall_forall; intros x Hx; apply list_elem_of_In, filter_In in Hx as [Hx _];
    apply list_elem_of_In in Hx; by eapply Forall_forall in Hr.
Qed.
Lemma hosts_layer_all n st h :
  Forall (leaf_of_config config) (up_leaves (st_upstream st)) → (∀ t, st_hosts st = Some t → t = hosts_table (hosts config)) →
  real h → answer_all genuine h (hosts_layer n st h).
Proof.
  intros Hl Ht Hreal.
  assert (Hup : answer_all genuine h (upstream_resolve n (st_upstream st) h)).
  { destruct (upstream_resolve n (st_upstream st) h) as [addrs|] eqn:E; [|done]. apply upstream_leaf in E as (l&Hin&Hr).
    split; [by eapply leaf_resolve_nonempty|]. eapply leaf_genuine; [done| |done]. by eapply Forall_forall in Hl. }
  unfold hosts_layer. destruct (st_hosts st) as [t|]; [|done]. rewrite (Ht t eq_refl). unfold hosts_resolve.
  destruct (hosts_table (hosts config) !! to_lowercase h) as [addrs|] eqn:E; [|done].
  apply hosts_table_spec in E as [Hne Hall]. split; [done|]. eapply Forall_impl; [exact Hall|].
  intros a (nm&tx&?&?&?). by eapply from_hosts.
Qed.

Definition pool_ok (p : option FakeIpPool) : Prop :=
  match fake_ip config, p with
  | None, None => True
  | Some fc, Some p => ∃ p0, pool_of fc = Some p0 ∧ pool_inv p0 p ∧ exclude_domains p = exclude_domains p0
  | _, _ => False
  end.
Definition pools_in_range : Prop := ∀ fc p, fake_ip config = Some fc → pool_of fc = Some p → pool_in_range p.

Lemma alloc_excludes f d p : exclude_domains (alloc f d p).2 = exclude_domains p.
Proof. unfold alloc. destruct (find_existing _ p); [done|]. destruct f; cbn; unfold commit; by destruct (_ !! _). Qed.
Lemma alloc_fake p0 f d p : pool_in_range p0 → pool_inv p0 p → is_fake_ip (alloc f d p).1 p0 = true.
Proof.
  intros Hr Hp. unfold alloc. destruct (find_existing (map_key f d) p) as [ip|] eqn:E; [by eapply inv_fake|].
  destruct (take_offset f p) as [ip p1] eqn:Et. pose proof (take_offset_fake f p0 p ip p1 Hr Hp Et) as Hf.
  pose proof (take_offset_inv f p0 p Hp) as Hp1. rewrite Et in Hp1. cbn [snd] in Hp1.
  destruct (commit (map_key f d) ip p1) as [ip' p2] eqn:Ec. cbn [fst].
  destruct (commit_result _ _ _ _ _ Ec) as [-> |Hc]; [done|by eapply inv_fake].
Qed.

Lemma inner_resolve_all n st p h r p' :
  Forall (leaf_of_config config) (up_leaves (st_upstream st)) → (∀ t, st_hosts st = Some t → t = hosts_table (hosts config)) →
  pools_in_range → pool_ok p → (∀ q, p = Some q → given h (allocate h q).1) →
  inner_resolve n st p h = (r, p') → answer_all genuine h r ∧ pool_ok p'.
Proof.
  intros Hl Ht Hrange Hp Hg Hi. unfold inner_resolve, fake_layer in Hi. unfold pool_ok in *.
  destruct (fake_ip config) as [fc|] eqn:Ef, p as [p|]; try done.
  - destruct Hp as (p0&Hp0&Hinv&Hex).
    assert (He : is_excluded h p = is_excluded h p0) by (unfold is_excluded; by rewrite Hex).
    rewrite He in Hi. destruct (is_excluded h p0) eqn:Ee.
    + simplify_eq. split; [|eauto]. apply prefer_layer_all, hosts_layer_all; [done..|]. intros fc' q Hq1 Hq2. by simplify_eq.
    + destruct (allocate h p) as [ip q] eqn:Ea. simplify_eq. split.
      * apply prefer_layer_all. split; [done|]. constructor; [|constructor].
        specialize (Hg p eq_refl). rewrite Ea in Hg. eapply from_fake; eauto.
        pose proof (alloc_fake p0 Fam4 h p (Hrange _ _ Ef Hp0) Hinv) as Hf. unfold allocate in Ea. by rewrite Ea in Hf.
      * exists p0. pose proof (alloc_inv p0 Fam4 h p (Hrange _ _ Ef Hp0) Hinv) as H1. pose proof (alloc_excludes Fam4 h p) as H2.
        unfold allocate in Ea. rewrite Ea in H1, H2. cbn [snd] in H1, H2. split_and!; [done|done|congruence].
  - simplify_eq. split; [|done]. apply prefer_layer_all, hosts_layer_all; [done..|]. intros fc' q Hq1 Hq2. congruence.
Qed.

Record query := mkQuery { q_host : string; q_read : Z; q_store : Z; q_evict : Z }.
Fixpoint run (st : Stack) (qs : list query) (n : nat) (s : DnsState) : list (string * result dns_error (list IpAddr)) * DnsState :=
  match qs with
  | [] => ([], s)
  | q :: qs =>
      let '(r, s) := resolve n st (q_read q) (q_store q) (q_evict q) (q_host q) s in
      let '(rs, s) := run st qs (S n) s in
      ((q_host q, r) :: rs, s)
  end.
End stack.

(** The name was asked for, and the pool gave it this address then. *)
Definition gave `{Platform} `{Network} (st : Stack) (qs : list query) (n : nat) (s : DnsState) (h : string) (a : IpAddr) : Prop :=
  ∃ asked q later p, qs = asked ++ q :: later ∧ q_host q = h
    ∧ pool (run st asked n s).2 = Some p ∧ a = (allocate h p).1.

Section runs.
Context `{Platform} `{Network} (config : DnsConfig) (st : Stack) (qs0 : list query) (n0 : nat) (s0 : DnsState).
Context (leaves_ok : Forall (leaf_of_config config) (up_leaves (st_upstream st))).
Context (hosts_ok : ∀ t, st_hosts st = Some t → t = hosts_table (hosts config)).
Context (in_range : pools_in_range config).

Lemma run_app qs1 qs2 n s :
  (run st (qs1 ++ qs2) n s).2 = (run st qs2 (n + length qs1) (run st qs1 n s).2).2.
Proof.
  revert n s. induction qs1 as [|q qs1 IH]; intros n s; cbn [app run length]; [by rewrite Nat.add_0_r|].
  destruct (resolve n st _ _ _ _ s) as [r s1]. specialize (IH (S n) s1). rewrite <- Nat.add_succ_comm.
  destruct (run st (qs1 ++ qs2) (S n) s1) as [rs2 s2]. destruct (run st qs1 (S n) s1) as [rs3 s3]. exact IH.
Qed.
Lemma run_all asked qs rs s' :
  qs0 = asked ++ qs → let s := (run st asked n0 s0).2 in
  pool_ok config (pool s) → cache_all (genuine config (gave st qs0 n0 s0)) (cached s) →
  run st qs (n0 + length asked) s = (rs, s') →
  Forall (fun '(h, r) => answer_all (genuine config (gave st qs0 n0 s0)) h r) rs.
Proof using leaves_ok hosts_ok in_range.
  revert asked rs. induction qs as [|q qs IH]; intros asked rs Hqs s Hp Hc Hr; cbn [run] in Hr.
  { simplify_eq. constructor. }
  destruct (resolve _ st _ _ _ _ s) as [r s1] eqn:E1. destruct (run st qs (S _) s1) as [rs1 s2] eqn:E2. injection Hr as <- <-. subst qs0.
  assert (Hnext : s1 = (run st (asked ++ [q]) n0 s0).2).
  { rewrite run_app. fold s. cbn [run]. by rewrite E1. }
  unfold resolve in E1. destruct (inner_resolve _ st (pool s) (q_host q)) as [ri pi] eqn:Ei.
  destruct (DnsCache.resolve _ _ _ _ _ _) as [ra c] eqn:Ec. injection E1 as <- <-.
  edestruct (inner_resolve_all config (gave st (asked ++ q :: qs) n0 s0)) as [Hi Hpi];
    [exact leaves_ok|exact hosts_ok|exact in_range|exact Hp|intros p Ep; by exists asked, q, qs, p|exact Ei|].
  apply (cached_resolve_all (genuine config (gave st (asked ++ q :: qs) n0 s0))) in Ec as [Ha Hc']; [|done|exact Hi].
  constructor; [done|]. apply (IH (asked ++ [q])).
  - by rewrite <- app_assoc.
  - rewrite <- Hnext. cbn [pool]. by destruct (asks _ _ _ _).
  - rewrite <- Hnext. exact Hc'.
  - rewrite <- Hnext, length_app. cbn [length]. by rewrite Nat.add_assoc, Nat.add_1_r.
Qed.
End runs.

(** C17: for every configuration that builds, with a pool of fake addresses that
    lies within the address space, and every sequence of queries one after another,
    each answer is non-empty and every address in it is one the configuration
    allows for the name that was asked.  When the pool serves the name, that is the
    address the pool gave to this name at this query or an earlier one (the cache
    may keep it after the pool has given it to another name).  Otherwise it is an
    entry of the hosts table for the name, or the answer to a query for it, at this
    or an earlier time, of a server in one of the lists in use, the fallback list
    being in use only in its mode; the operating system answers only if one of
    these lists has no server that can be asked.  Neither the cache nor the race
    nor the fallback hands out an answer to a query for another name. *)
Theorem dns_answers_genuine `{Platform} `{Network} config st s qs n rs s' :
  build_resolver config = Ok (st, s) → pools_in_range config → run st qs n s = (rs, s') →
  ∀ h addrs, (h, Ok addrs) ∈ rs → addrs ≠ [] ∧ Forall (genuine config (gave st qs n s) h) addrs.
Proof.
  intros Hb Hrange Hr h addrs Hin. apply build_resolver_spec in Hb as (Hl&Ht&Hc&Hp).
  assert (Hall : Forall (fun '(h, r) => answer_all (genuine config (gave st qs n s)) h r) rs).
  { apply (run_all config st qs n s Hl Ht Hrange [] qs rs s'); cbn [run snd length]; [done| | |by rewrite Nat.add_0_r].
    - unfold pool_ok. destruct (fake_ip config) as [fc|] eqn:Ef; [|by rewrite Hp].
      destruct Hp as [Hp [p Hs]]. rewrite Hs in *. exists p. split; [done|]. split; [|done]. by eapply pool_new_inv.
    - intros h' e l He. by rewrite Hc in He. }
  eapply Forall_forall in Hall; [|exact Hin]. exact Hall.
Qed.

(** A split resolver asks the server of the first rule that matches the name,
    or the default; when that server fails, the default is asked, once. *)
Theorem split_asks_first_match `{Network} n s host before rs id after :
  sp_rules s = before ++ (rs, id) :: after →
  Forall (fun '(rs', _) => existsb (rule_matches host) rs' = false) before → existsb (rule_matches host) rs = true →
  split_resolve n s host
  = match nth_resolve n s id host with
    | Ok addrs => Ok addrs
    | Err e => if (id =? sp_default s)%nat then Err e else nth_resolve n s (sp_default s) host
    end.
Proof.
  intros Hr Hb Hm. unfold split_resolve.
  assert (find_resolver host s = id) as ->; [|done]. unfold find_resolver. rewrite Hr.
  assert (find_rule host (before ++ (rs, id) :: after) = Some id) as ->; [|done].
  induction Hb as [|[rs' id'] before Hx Hb IH] in s, Hr |- *; cbn [app find_rule]; [by rewrite Hm|]. rewrite Hx.
  apply (IH (mkSplit (before ++ (rs, id) :: after) 0 [])). done.
Qed.
End resolver.

(** ** EDNS client subnet (module [ecs]) *)

Module ecs.

Definition ECS_OPTION_CODE : Z := 8.
Record EcsOption := mkEcs {
  family : Z;
  source_prefix_length : Z;
  scope_prefix_length : Z;
  address : IpAddr
}.
Definition parse_ecs_subnet {IpNet} `{!IpNetOps IpNet} (s : string) : option EcsOption :=
  (fun net => mkEcs (match net_addr net with V4 _ => 1 | V6 _ => 2 end) (Z.of_nat (net_prefix_len net)) 0 (net_addr net))
  <$> net_parse s.
Definition encode (e : EcsOption) : bytes :=
  let addr_bytes := octets (address e) in
  let prefix_bytes := Z.to_nat ((source_prefix_length e + 7) / 8) in
  let truncated := take (Nat.min prefix_bytes (length addr_bytes)) addr_bytes in
  to_be_bytes 2 (family e) ++ [byte_of_Z (source_prefix_length e)] ++ [byte_of_Z (scope_prefix_length e)] ++ truncated.

Inductive ecs_error := EcsTooShort (n : nat) | EcsFamily (f : Z).
(** Into an array of [w] zero octets. *)
Definition padded (w : nat) (d : bytes) : bytes :=
  let copy_len := Nat.min (length d) w in take copy_len d ++ replicate (w - copy_len) Byte.x00.
Definition decode (data : bytes) : result ecs_error EcsOption :=
  match data with
  | f0 :: f1 :: spl :: scope :: addr_data =>
      let fam := from_be_bytes [f0; f1] in
      let? a := if fam =? 1 then Ok (V4 (from_be_bytes (padded 4 addr_data)))
                else if fam =? 2 then Ok (V6 (from_be_bytes (padded 16 addr_data)))
                else Err (EcsFamily fam) in
      Ok (mkEcs fam (byte_to_Z spl) (byte_to_Z scope) a)
  | _ => Err (EcsTooShort (length data))
  end.
Definition build_ecs_opt_rdata (e : EcsOption) : bytes :=
  let option_data := encode e in
  to_be_bytes 2 ECS_OPTION_CODE ++ to_be_bytes 2 (wrap 16 (len option_data)) ++ option_data.

(** The address with everything behind the bytes of the prefix cleared. *)
Definition cut_address (e : EcsOption) : IpAddr :=
  let k := Z.to_nat ((source_prefix_length e + 7) / 8) in
  match address e with
  | V4 ip => V4 (from_be_bytes (take k (to_be_bytes 4 ip) ++ replicate (4 - k) Byte.x00))
  | V6 ip => V6 (from_be_bytes (take k (to_be_bytes 16 ip) ++ replicate (16 - k) Byte.x00))
  end.
Definition ecs_ok (e : EcsOption) : Prop :=
  u8_ok (source_prefix_length e) ∧ u8_ok (scope_prefix_length e)
  ∧ family e = match address e with V4 _ => 1 | V6 _ => 2 end.

Lemma padded_take w k d : length d = w → padded w (take (Nat.min k w) d) = take k d ++ replicate (w - k) Byte.x00.
Proof.
  intros Hd. unfold padded. rewrite length_take. replace (Nat.min (Nat.min (Nat.min k w) (length d)) w) with (Nat.min k w) by lia.
  rewrite take_take. replace (Nat.min (Nat.min k w) (Nat.min k w)) with (Nat.min k w) by lia. f_equal.
  - destruct (Nat.le_ge_cases k w); [by rewrite Nat.min_l|]. rewrite Nat.min_r by done. rewrite !take_ge by lia. done.
  - f_equal. lia.
Qed.

(** An ECS option read back has its family and lengths and the octets its
    prefix touches; the option data is never longer than the address. *)
Theorem ecs_roundtrip e :
  ecs_ok e →
  decode (encode e) = Ok (mkEcs (family e) (source_prefix_length e) (scope_prefix_length e) (cut_address e))
  ∧ (length (encode e) <= 20)%nat.
Proof.
  intros (Hs&Hc&Hf). unfold encode. split.
  - destruct (address e) as [ip|ip] eqn:Ea; rewrite Hf; cbn [octets]; rewrite length_to_be_bytes.
    + change (to_be_bytes 2 1) with [Byte.x00; Byte.x01]. cbn [app decode]. change (from_be_bytes [Byte.x00; Byte.x01]) with 1.
      cbn [Z.eqb Pos.eqb bind_result]. rewrite padded_take by (by rewrite length_to_be_bytes).
      rewrite !byte_to_of_small by done. unfold cut_address. by rewrite Ea.
    + change (to_be_bytes 2 2) with [Byte.x00; Byte.x02]. cbn [app decode]. change (from_be_bytes [Byte.x00; Byte.x02]) with 2.
      cbn [Z.eqb Pos.eqb bind_result]. rewrite padded_take by (by rewrite length_to_be_bytes).
      rewrite !byte_to_of_small by done. unfold cut_address. by rewrite Ea.
  - rewrite !length_app, length_to_be_bytes, length_take. cbn [length].
    assert (length (octets (address e)) <= 16)%nat by (destruct (address e); cbn [octets]; rewrite length_to_be_bytes; lia). lia.
Qed.
(** The bits behind a prefix that ends inside an octet are sent: of 10.1.31.9/20
    the third octet goes out whole. *)
Example ecs_sends_host_bits :
  encode (mkEcs 1 20 0 (V4 167845641)) = [Byte.x00; Byte.x01; Byte.x14; Byte.x00; Byte.x0a; Byte.x01; Byte.x1f].
Proof. reflexivity. Qed.
Lemma ecs_roundtrip_witness :
  decode (encode (mkEcs 1 24 0 (V4 167845641))) = Ok (mkEcs 1 24 0 (V4 167845632)).
Proof. refine (proj1 (ecs_roundtrip (mkEcs 1 24 0 (V4 167845641)) _)). split_and!; by vm_compute. Defined.
End ecs.

(** ** The system's servers *)

Lemma push_parsed_nodup s l : NoDup l → NoDup (push_parsed s l).
Proof.
  intros Hl. unfold push_parsed, push_new. destruct (parse_ip s) as [ip|]; [|done]. case_bool_decide; [done|].
  apply NoDup_app. split; [done|]. split; [|apply NoDup_singleton]. intros x Hx ->%list_elem_of_singleton. done.
Qed.
(** Every address is listed once, in the order of the file. *)
Lemma resolv_conf_nodup content : NoDup (detect_dns_resolv_conf content).
Proof.
  unfold detect_dns_resolv_conf. assert (NoDup ([] : list IpAddr)) as H by constructor. revert H.
  generalize (@nil IpAddr). induction (lines content) as [|x ls IH]; intros l Hl; cbn [foldl]; [done|].
  apply IH. unfold resolv_conf_line. destruct (strip_prefix _ _); [|done]. by apply push_parsed_nodup.
Qed.
Definition newline : string := String LF "".
Example resolv_conf_read :
  detect_dns_resolv_conf ("# comment" +:+ newline +:+ "nameserver 8.8.8.8" +:+ newline +:+ "nameserver fe80::1%eth0"
                          +:+ newline +:+ "nameserver 8.8.8.8" +:+ newline +:+ "search lan")
  = [V4 134744072; V6 338288524927261089654018896841347694593].
Proof. reflexivity. Qed.
(** An address is taken from behind the last colon of its line, which is inside
    it when it is an IPv6 address. *)
Example macos_ipv6_lost :
  detect_dns_macos ("  nameserver[0] : 8.8.8.8" +:+ newline +:+ "  nameserver[1] : 2001:4860:4860::8888") = [V4 134744072].
Proof. reflexivity. Qed.

(** ** A configuration *)

Local Instance sample_platform : Platform := {| system_servers := []; url_parse := fun _ => None |}.
Definition sample_answer (spec : ServerSpec) : DnsResolver :=
  match spec with
  | Clear [V4 134744072] _ => fun _ => Ok [V4 100]
  | _ => fun h => if String.eqb h "a.corp.local" then Err (Upstream "refused") else Ok [V4 200]
  end.
Local Instance sample_network : Network :=
  {| lookup_host := fun _ _ => Err (Upstream "no system"); lookup_ip := fun _ => sample_answer; arrival := fun _ => [] |}.
Definition sample_dns (fake : option FakeIpConfig) : DnsConfig :=
  mkDns [mkServer "8.8.8.8" []; mkServer "tls://10.0.0.1" ["+.corp.local"; "keyword:x"]] 100 300 30
    [("Router.lan", "192.168.1.1")] fake "split" [] None None None.
Definition sample_queries : list query :=
  [mkQuery "www.example.com" 0 1 1; mkQuery "router.lan" 0 1 1; mkQuery "b.corp.local" 0 1 1; mkQuery "a.corp.local" 0 1 1;
   mkQuery "www.example.com" 5 6 6].
Definition answers_of (config : DnsConfig) (qs : list query) : list (string * result dns_error (list IpAddr)) :=
  match build_resolver (IpNet := SampleNet) (Regex := string) config with
  | Ok (st, s) => (run (IpNet := SampleNet) (Regex := string) st qs 0 s).1
  | Err _ => []
  end.
Example sample_answers :
  snd <$> answers_of (sample_dns None) sample_queries = [Ok [V4 100]; Ok [V4 3232235777]; Ok [V4 200]; Ok [V4 100]; Ok [V4 100]].
Proof. vm_compute. reflexivity. Qed.
(** With a pool of fake addresses the hosts table is not consulted. *)
Example hosts_ignored_with_fakeip :
  answers_of (sample_dns (Some (mkFake "198.18.0.0/15" None []))) [mkQuery "router.lan" 0 1 1]
  = [("router.lan", Ok [V4 3323068417])].
Proof. vm_compute. reflexivity. Qed.
(** A cached fake address outlives its mapping: in a pool of four the fifth name
    takes over the address the cache still gives for the first. *)
Example cached_fake_address_stale :
  let config := sample_dns (Some (mkFake "10.0.0.0/30" None [])) in
  let qs := (fun h => mkQuery h 0 1 1) <$> ["a"; "b"; "c"; "d"; "e"; "a"] in
  match build_resolver (IpNet := SampleNet) (Regex := string) config with
  | Ok (st, s) =>
      let '(rs, s') := run (IpNet := SampleNet) (Regex := string) st qs 0 s in
      (last rs, p ← pool s'; FakeIp.lookup (V4 167772161) p)
  | Err _ => (None, None)
  end = (Some ("a", Ok [V4 167772161]), Some "e").
Proof. vm_compute. reflexivity. Qed.

Definition sample_built : Stack (IpNet := SampleNet) (Regex := string) * DnsState :=
  Eval vm_compute in
    match build_resolver (IpNet := SampleNet) (Regex := string) (sample_dns None) with
    | Ok x => x
    | Err _ => (mkStack (Race []) None false NoPreference, mkDnsState None (resolver_new 0 0 0))
    end.
Lemma dns_answers_genuine_witness :
  Forall (genuine (Regex := string) (sample_dns None) (gave sample_built.1 sample_queries 0 sample_built.2) "b.corp.local") [V4 200].
Proof.
  refine (proj2 (dns_answers_genuine (IpNet := SampleNet) (Regex := string) (sample_dns None) sample_built.1 sample_built.2 sample_queries 0
            (answers_of (sample_dns None) sample_queries) (run sample_built.1 sample_queries 0 sample_built.2).2 _ _ _
            "b.corp.local" [V4 200] _)).
  - vm_compute. reflexivity.
  - intros fc p Hf. discriminate Hf.
  - vm_compute. reflexivity.
  - apply (list_elem_of_lookup_2 _ 2). vm_compute. reflexivity.
Defined.
Lemma split_asks_first_match_witness :
  split_resolve (Regex := string) 0
    (mkSplit [([Suffix "lan"], 0%nat); ([Suffix "corp.local"], 1%nat)] 0
       [HickoryResolver (Clear [V4 134744072] 53); HickoryResolver (Clear [V4 1] 53)]) "b.corp.local" = Ok [V4 200].
Proof.
  refine (eq_trans (split_asks_first_match (Regex := string) 0 _ "b.corp.local" [([Suffix "lan"], 0%nat)] [Suffix "corp.local"] 1%nat [] _ _ _) _).
  - reflexivity.
  - repeat constructor.
  - reflexivity.
  - reflexivity.
Defined.
