(* ===== verification/Tracker.v ===== *)
(** * Connection tracking ([src/src/app/tracker.rs])

    The table of connections with their shared counters, the totals, and the
    route, error and latency statistics.  A guard and the entry of its
    connection share their counters through [Arc]s: they live in [cells], by the
    identifier of the connection, and outlive the entry.  Operations are taken
    one after the other; [Drop] only tries the lock and is told whether it got
    it.  Instants are nanoseconds. *)

From stdpp Require Import gmap strings sorting.
From Stdlib Require Import SpecFloat.
From S2P Require Import Prelude Addr Rules HostPort F64.

Local Open Scope Z_scope.

Record ConnectionInfo := mkInfo {
  ci_id : Z;
  ci_target : string;
  ci_inbound_tag : string;
  ci_outbound_tag : string;
  ci_route_tag : string;
  ci_matched_rule : string;
  ci_start_time : Z;
  ci_upload : Z;
  ci_download : Z;
  ci_source : option SocketAddr;
  ci_network : string
}.
Record TrafficSnapshot := mkSnapshot { total_up : Z; total_down : Z; active_count : Z }.
Record OutboundTraffic := mkTraffic { ot_upload : Z; ot_download : Z; ot_connections : Z }.
Definition traffic_default : OutboundTraffic := mkTraffic 0 0 0.

(** The three [Arc]s of a connection. *)
Record Cell := mkCell { c_upload : Z; c_download : Z; last_activity : Z }.

Record ConnectionTracker := mkTracker {
  connections : gmap Z ConnectionInfo;
  cells : gmap Z Cell;
  total_upload : Z;
  total_download : Z;
  route_stats : gmap string Z;
  error_stats : gmap string Z;
  latency_ring : list Z;
  latency_capacity : nat;
  outbound_traffic : gmap string OutboundTraffic
}.
Definition tracker_new : ConnectionTracker := mkTracker ∅ ∅ 0 0 ∅ ∅ [] 2048 ∅.

Definition set_tables (conns : gmap Z ConnectionInfo) (cs : gmap Z Cell) (t : ConnectionTracker) :=
  mkTracker conns cs (total_upload t) (total_download t) (route_stats t) (error_stats t)
    (latency_ring t) (latency_capacity t) (outbound_traffic t).
Definition set_totals (u d : Z) (ot : gmap string OutboundTraffic) (t : ConnectionTracker) :=
  mkTracker (connections t) (cells t) u d (route_stats t) (error_stats t)
    (latency_ring t) (latency_capacity t) ot.
Definition set_stats (rs es : gmap string Z) (ring : list Z) (t : ConnectionTracker) :=
  mkTracker (connections t) (cells t) (total_upload t) (total_download t) rs es
    ring (latency_capacity t) (outbound_traffic t).

(** [*map.entry(key).or_insert(0) += 1] *)
Definition bump (key : string) (m : gmap string Z) : gmap string Z :=
  <[key := wrap 64 (default 0 (m !! key) + 1)]> m.
Definition record_route_hit (route_tag : string) (t : ConnectionTracker) : ConnectionTracker :=
  set_stats (bump route_tag (route_stats t)) (error_stats t) (latency_ring t) t.
Definition record_error (code : string) (t : ConnectionTracker) : ConnectionTracker :=
  set_stats (route_stats t) (bump code (error_stats t)) (latency_ring t) t.

(** [while ring.len() > capacity { ring.pop_front() }] *)
Fixpoint pop_excess (cap : nat) (ring : list Z) : list Z :=
  if (length ring <=? cap)%nat then ring
  else match ring with [] => [] | _ :: ring => pop_excess cap ring end.
Definition record_latency_ms (latency_ms : Z) (t : ConnectionTracker) : ConnectionTracker :=
  set_stats (route_stats t) (error_stats t)
    (pop_excess (latency_capacity t) (latency_ring t ++ [latency_ms])) t.

Definition accumulate_outbound_traffic (tag : string) (up down : Z) (t : ConnectionTracker)
  : ConnectionTracker :=
  let entry := default traffic_default (outbound_traffic t !! tag) in
  set_totals (total_upload t) (total_download t)
    (<[tag := mkTraffic (wrap 64 (ot_upload entry + up)) (wrap 64 (ot_download entry + down))
                (ot_connections entry)]> (outbound_traffic t)) t.
(** The totals and the outbound of a connection that goes. *)
Definition archive (info : ConnectionInfo) (c : Cell) (t : ConnectionTracker) : ConnectionTracker :=
  accumulate_outbound_traffic (ci_outbound_tag info) (c_upload c) (c_download c)
    (set_totals (wrap 64 (total_upload t + c_upload c)) (wrap 64 (total_download t + c_download c))
       (outbound_traffic t) t).

Definition network_name (n : NetworkKind) : string :=
  match n with Tcp => "tcp" | Udp => "udp" end.
(** [id] is the value drawn from the process-wide counter. *)
Definition track (id : Z) (session : Session) (outbound_tag route_tag : string)
  (matched_rule : option string) (now : Z) (t : ConnectionTracker) : ConnectionTracker :=
  let info := mkInfo id (address_to_string (target session)) (inbound_tag session) outbound_tag route_tag
    (default "MATCH"%string matched_rule) now 0 0 (source session) (network_name (network session)) in
  let entry := default traffic_default (outbound_traffic t !! outbound_tag) in
  let t := set_totals (total_upload t) (total_download t)
    (<[outbound_tag := mkTraffic (ot_upload entry) (ot_download entry)
                         (wrap 32 (ot_connections entry + 1))]> (outbound_traffic t)) t in
  let t := record_route_hit route_tag t in
  set_tables (<[id := info]> (connections t)) (<[id := mkCell 0 0 now]> (cells t)) t.
(** [NEXT_ID.fetch_add(1)] *)
Definition next_id (n : Z) : Z := wrap 64 (n + 1).

Definition cell_of (id : Z) (t : ConnectionTracker) : Cell := default (mkCell 0 0 0) (cells t !! id).
Definition list_info (t : ConnectionTracker) (id : Z) (info : ConnectionInfo) : ConnectionInfo :=
  mkInfo (ci_id info) (ci_target info) (ci_inbound_tag info) (ci_outbound_tag info)
    (ci_route_tag info) (ci_matched_rule info) (ci_start_time info)
    (c_upload (cell_of id t)) (c_download (cell_of id t)) (ci_source info) (ci_network info).
Definition list_connections (t : ConnectionTracker) : gmap Z ConnectionInfo :=
  map_imap (fun id info => Some (list_info t id info)) (connections t).

Definition snapshot (t : ConnectionTracker) : TrafficSnapshot :=
  mkSnapshot (total_upload t) (total_download t) 0.
Definition snapshot_async (t : ConnectionTracker) : TrafficSnapshot :=
  mkSnapshot (total_upload t) (total_download t) (Z.of_nat (size (connections t))).
Definition active_count_sync (unlocked : bool) (t : ConnectionTracker) : Z :=
  if unlocked then Z.of_nat (size (connections t)) else 0.

Definition close (id : Z) (t : ConnectionTracker) : bool * ConnectionTracker :=
  (match connections t !! id with Some _ => true | None => false end,
   set_tables (delete id (connections t)) (cells t) t).
Definition close_all (t : ConnectionTracker) : Z * ConnectionTracker :=
  (Z.of_nat (size (connections t)), set_tables ∅ (cells t) t).

Definition idle_too_long (max_idle now : Z) (c : Cell) : bool :=
  max_idle <? saturating_sub now (last_activity c).
(** One entry of the table under [retain]. *)
Definition retain_one (max_idle now : Z) (id : Z) (info : ConnectionInfo) (t : ConnectionTracker)
  : ConnectionTracker :=
  let c := cell_of id t in
  if idle_too_long max_idle now c
  then set_tables (delete id (connections t)) (cells t) (archive info c t)
  else t.
Definition close_idle (max_idle now : Z) (t : ConnectionTracker) : Z * ConnectionTracker :=
  let before := size (connections t) in
  let t' := foldl (fun t '(id, info) => retain_one max_idle now id info t) t
              (map_to_list (connections t)) in
  (Z.of_nat before - Z.of_nat (size (connections t')), t').

Definition reset_traffic (t : ConnectionTracker) : ConnectionTracker := set_totals 0 0 ∅ t.
Definition per_outbound_traffic (t : ConnectionTracker) := outbound_traffic t.

(** *** Guards *)

Definition set_cell (id : Z) (c : Cell) (t : ConnectionTracker) : ConnectionTracker :=
  set_tables (connections t) (<[id := c]> (cells t)) t.
Definition add_upload (id n now : Z) (t : ConnectionTracker) : ConnectionTracker :=
  let c := cell_of id t in
  set_cell id (mkCell (wrap 64 (c_upload c + n)) (c_download c) now) t.
Definition add_download (id n now : Z) (t : ConnectionTracker) : ConnectionTracker :=
  let c := cell_of id t in
  set_cell id (mkCell (c_upload c) (wrap 64 (c_download c + n)) now) t.
Definition drop_guard (id : Z) (unlocked : bool) (t : ConnectionTracker) : ConnectionTracker :=
  if unlocked then
    match connections t !! id with
    | Some info => archive info (cell_of id t) (set_tables (delete id (connections t)) (cells t) t)
    | None => t
    end
  else t.

(** *** Percentiles *)

Definition sort_u64 (l : list Z) : list Z := merge_sort Z.le l.
(** The constants 0.50, 0.95 and 0.99. *)
Definition P50 : f64 := S754_finite false 4503599627370496 (-53).
Definition P95 : f64 := S754_finite false 8556839292003942 (-53).
Definition P99 : f64 := S754_finite false 8917127262193582 (-53).
(** [x.round() as usize]: halves away from zero. *)
Definition f64_round_usize (x : f64) : Z :=
  match x with
  | S754_finite false m e =>
      Z.min (if 0 <=? e then Z.pos m * 2 ^ e else (Z.pos m + 2 ^ (- e - 1)) / 2 ^ (- e)) u64_max
  | S754_infinity false => u64_max
  | _ => 0
  end.
Definition p_index (p : f64) (n : nat) : Z :=
  f64_round_usize (f64_mul (SFsub 53 1024 (f64_of_u64 (Z.of_nat n)) (f64_of_u64 1)) p).
(** [values[idx]]: [None] where the index panics. *)
Definition p_at (values : list Z) (p : f64) : option Z := values !! Z.to_nat (p_index p (length values)).
Definition latency_percentiles_ms (t : ConnectionTracker) : option (option (Z * Z * Z)) :=
  match latency_ring t with
  | [] => Some None
  | ring =>
      let values := sort_u64 ring in
      p50 ← p_at values P50; p95 ← p_at values P95; p99 ← p_at values P99;
      Some (Some (p50, p95, p99))
  end.

(** ** Runs

    [live] are the guards alive.  Guards are made by [track] and used until
    they are dropped. *)

Inductive op :=
| Track (session : Session) (outbound_tag route_tag : string) (matched_rule : option string) (now : Z)
| AddUpload (id n now : Z)
| AddDownload (id n now : Z)
| DropGuard (id : Z) (unlocked : bool)
| Close (id : Z)
| CloseAll
| CloseIdle (max_idle now : Z).
Record world := mkWorld { tr : ConnectionTracker; next : Z; live : gset Z }.
Definition world_new : world := mkWorld tracker_new 1 ∅.

Definition step (o : op) (w : world) : world :=
  match o with
  | Track s ot rt mr now => mkWorld (track (next w) s ot rt mr now (tr w)) (next_id (next w)) ({[next w]} ∪ live w)
  | AddUpload id n now => if decide (id ∈ live w) then mkWorld (add_upload id n now (tr w)) (next w) (live w) else w
  | AddDownload id n now => if decide (id ∈ live w) then mkWorld (add_download id n now (tr w)) (next w) (live w) else w
  | DropGuard id u =>
      if decide (id ∈ live w) then mkWorld (drop_guard id u (tr w)) (next w) (live w ∖ {[id]}) else w
  | Close id => mkWorld (close id (tr w)).2 (next w) (live w)
  | CloseAll => mkWorld (close_all (tr w)).2 (next w) (live w)
  | CloseIdle m now => mkWorld (close_idle m now (tr w)).2 (next w) (live w)
  end.

(** Upload or download. *)
Definition bytes_of (up : bool) (c : Cell) : Z := if up then c_upload c else c_download c.
Definition total_of (up : bool) (t : ConnectionTracker) : Z := if up then total_upload t else total_download t.
Definition outbound_of (up : bool) (o : OutboundTraffic) : Z := if up then ot_upload o else ot_download o.

Section msum.
Context {K A : Type} `{Countable K}.
Implicit Types (f : K → A → Z) (m : gmap K A).
Definition msum f m : Z := map_fold (fun k v acc => f k v + acc) 0 m.
Lemma msum_empty f : msum f ∅ = 0.
Proof. apply map_fold_empty. Qed.
Lemma msum_insert f m k v : m !! k = None → msum f (<[k := v]> m) = f k v + msum f m.
Proof. intros. unfold msum. apply (map_fold_insert_L (fun k v acc => f k v + acc)); [intros; lia|done]. Qed.
Lemma msum_delete f m k v : m !! k = Some v → msum f m = f k v + msum f (delete k m).
Proof. intros. unfold msum. apply (map_fold_delete_L (fun k v acc => f k v + acc)); [intros; lia|done]. Qed.
Lemma msum_insert_any f m k v : msum f (<[k := v]> m) = f k v + msum f (delete k m).
Proof. rewrite <- insert_delete_eq. apply msum_insert. apply lookup_delete_eq. Qed.
Lemma msum_ext f g m : (∀ k v, m !! k = Some v → f k v = g k v) → msum f m = msum g m.
Proof.
  induction m as [|k v m Hk IH] using map_ind; intros Hfg; [by rewrite !msum_empty|].
  rewrite !msum_insert by done. rewrite Hfg by apply lookup_insert_eq. rewrite IH; [done|].
  intros k' v' Hk'. apply Hfg. rewrite lookup_insert_ne by (intros ->; congruence). done.
Qed.
End msum.

(** The bytes of the connections in the table, and those of all outbounds. *)
Definition tracked (up : bool) (t : ConnectionTracker) : Z :=
  msum (fun id _ => bytes_of up (cell_of id t)) (connections t).
Definition by_outbound (up : bool) (t : ConnectionTracker) : Z :=
  msum (fun _ o => outbound_of up o) (outbound_traffic t).

(** What an operation adds to the guards, and what it takes out of the books. *)
Definition added (up : bool) (o : op) (w : world) : Z :=
  match o, up with
  | AddUpload id n _, true | AddDownload id n _, false => if decide (id ∈ live w) then n else 0
  | _, _ => 0
  end.
Definition lost (up : bool) (o : op) (w : world) : Z :=
  match o with
  | AddUpload id _ _ | AddDownload id _ _ =>
      match connections (tr w) !! id with Some _ => 0 | None => added up o w end
  | Close id => match connections (tr w) !! id with Some _ => bytes_of up (cell_of id (tr w)) | None => 0 end
  | CloseAll => tracked up (tr w)
  | _ => 0
  end.
(** The world after a run, with all that was added and lost in it. *)
Fixpoint run (up : bool) (ops : list op) (w : world) : world * Z * Z :=
  match ops with
  | [] => (w, 0, 0)
  | o :: ops =>
      let '(w', a, l) := run up ops (step o w) in (w', added up o w + a, lost up o w + l)
  end.

(** ** Lemmas *)

Definition eq64 (a b : Z) : Prop := wrap 64 a = wrap 64 b.
Lemma eq64_refl a : eq64 a a.
Proof. done. Qed.
Lemma eq64_wrap a : eq64 (wrap 64 a) a.
Proof. unfold eq64, wrap. by rewrite Z.mod_mod. Qed.
Lemma eq64_add a a' b b' : eq64 a a' → eq64 b b' → eq64 (a + b) (a' + b').
Proof. unfold eq64, wrap. intros Ha Hb. by rewrite Zplus_mod, Ha, Hb, <- Zplus_mod. Qed.
Lemma eq64_trans a b c : eq64 a b → eq64 b c → eq64 a c.
Proof. unfold eq64. congruence. Qed.
Lemma eq64_wrap_add a b : eq64 (wrap 64 a + b) (a + b).
Proof. apply eq64_add; [apply eq64_wrap|done]. Qed.
#[local] Instance eq64_equiv : Equivalence eq64.
Proof. unfold eq64. split; congruence. Qed.
#[local] Instance eq64_add_proper : Proper (eq64 ==> eq64 ==> eq64) Z.add.
Proof. intros ? ? ? ? ? ?. by apply eq64_add. Qed.

Lemma archive_connections info c t :
  connections (archive info c t) = connections t ∧ cells (archive info c t) = cells t.
Proof. done. Qed.
Lemma archive_total up info c t : eq64 (total_of up (archive info c t)) (total_of up t + bytes_of up c).
Proof. destruct up; apply eq64_wrap. Qed.
Lemma archive_outbound up info c t : eq64 (by_outbound up (archive info c t)) (by_outbound up t + bytes_of up c).
Proof.
  unfold by_outbound, archive, accumulate_outbound_traffic. cbn [outbound_traffic set_totals total_upload].
  rewrite msum_insert_any. destruct (outbound_traffic t !! ci_outbound_tag info) as [e|] eqn:E.
  - rewrite (msum_delete _ (outbound_traffic t) _ _ E). cbn [default]. 
    destruct up; cbn; rewrite eq64_wrap; apply f_equal; lia.
  - rewrite delete_id by done. cbn [default]. destruct up; cbn; rewrite eq64_wrap; apply f_equal; lia.
Qed.

(** The connections named are in the table and their identifiers were given out. *)
Definition ids_ok (w : world) : Prop :=
  ∀ id, is_Some (connections (tr w) !! id) ∨ id ∈ live w → id < next w.

(** Counting one entry apart. *)
Lemma tracked_delete up t id info :
  connections t !! id = Some info →
  tracked up t = bytes_of up (cell_of id t) + tracked up (set_tables (delete id (connections t)) (cells t) t).
Proof. intros. unfold tracked. by rewrite (msum_delete _ _ _ _ H). Qed.

Lemma archive_tracked up info c t : tracked up (archive info c t) = tracked up t.
Proof. done. Qed.

(** Removing an entry and archiving it keeps the books. *)
Lemma retire_books up id info t :
  connections t !! id = Some info →
  let t' := set_tables (delete id (connections t)) (cells t) (archive info (cell_of id t) t) in
  eq64 (total_of up t' + tracked up t') (total_of up t + tracked up t)
  ∧ (eq64 (total_of up t) (by_outbound up t) → eq64 (total_of up t') (by_outbound up t')).
Proof.
  intros Hid t'. split.
  - rewrite (tracked_delete up t id info Hid).
    change (total_of up t') with (total_of up (archive info (cell_of id t) t)).
    change (tracked up t') with (tracked up (set_tables (delete id (connections t)) (cells t) t)).
    rewrite archive_total. apply f_equal. lia.
  - intros Hb. change (total_of up t') with (total_of up (archive info (cell_of id t) t)).
    change (by_outbound up t') with (by_outbound up (archive info (cell_of id t) t)).
    by rewrite archive_total, archive_outbound, Hb.
Qed.

Definition books (up : bool) (t t' : ConnectionTracker) : Prop :=
  eq64 (total_of up t' + tracked up t') (total_of up t + tracked up t)
  ∧ (eq64 (total_of up t) (by_outbound up t) → eq64 (total_of up t') (by_outbound up t'))
  ∧ connections t' ⊆ connections t.
Lemma books_refl up t : books up t t.
Proof. done. Qed.
Lemma books_trans up t1 t2 t3 : books up t1 t2 → books up t2 t3 → books up t1 t3.
Proof. intros (H1&H2&H3) (H4&H5&H6). split_and!; [by rewrite H4|auto|by etrans]. Qed.

Lemma retain_one_books up m now id info t :
  connections t !! id = Some info → books up t (retain_one m now id info t).
Proof.
  intros Hid. unfold retain_one. case_match; [|apply books_refl].
  destruct (retire_books up id info t Hid). split_and!; [done|done|]. apply delete_subseteq.
Qed.
Lemma retain_one_other m now id info t id' :
  id' ≠ id → connections (retain_one m now id info t) !! id' = connections t !! id'.
Proof. intros. unfold retain_one. case_match; [|done]. cbn. by rewrite lookup_delete_ne. Qed.

Lemma retain_books up m now l t :
  NoDup l.*1 → (∀ id info, (id, info) ∈ l → connections t !! id = Some info) →
  books up t (foldl (fun t '(id, info) => retain_one m now id info t) t l).
Proof.
  revert t. induction l as [|[id info] l IH]; intros t Hnd Hl; cbn [foldl]; [apply books_refl|].
  cbn in Hnd. apply NoDup_cons in Hnd as [Hni Hnd].
  eapply books_trans; [apply (retain_one_books up m now id info), Hl; left|]. apply IH; [done|].
  intros id' info' Hin. rewrite retain_one_other; [apply Hl; by right|].
  intros ->. apply Hni. by apply (list_elem_of_fmap_2 fst) in Hin.
Qed.
Lemma close_idle_books up m now t : books up t (close_idle m now t).2.
Proof.
  apply retain_books; [apply NoDup_fst_map_to_list|]. intros. by apply elem_of_map_to_list.
Qed.

Lemma cell_of_other t id c id' : id' ≠ id → cell_of id' (set_cell id c t) = cell_of id' t.
Proof. intros. unfold cell_of. cbn. by rewrite lookup_insert_ne. Qed.
Lemma cell_of_same t id c : cell_of id (set_cell id c t) = c.
Proof. unfold cell_of. cbn. by rewrite lookup_insert_eq. Qed.

(** A counter written through a guard. *)
Lemma set_cell_tracked up id c t :
  tracked up (set_cell id c t) =
  match connections t !! id with
  | Some _ => tracked up t + (bytes_of up c - bytes_of up (cell_of id t))
  | None => tracked up t
  end.
Proof.
  unfold tracked. cbn [connections set_cell set_tables].
  destruct (connections t !! id) as [info|] eqn:E.
  - rewrite !(msum_delete _ (connections t) _ _ E), cell_of_same.
    rewrite (msum_ext (fun id0 _ => bytes_of up (cell_of id0 (set_cell id c t))) (fun id0 _ => bytes_of up (cell_of id0 t)));
      [lia|]. intros k v Hk. apply lookup_delete_Some in Hk as [Hk _]. by rewrite cell_of_other.
  - apply msum_ext. intros k v Hk. rewrite cell_of_other by congruence. done.
Qed.

Lemma track_books up w s ot rt mr now :
  ids_ok w →
  let t' := track (next w) s ot rt mr now (tr w) in
  total_of up t' = total_of up (tr w) ∧ tracked up t' = tracked up (tr w) ∧ by_outbound up t' = by_outbound up (tr w).
Proof.
  intros Hids t'. assert (connections (tr w) !! next w = None) as Hn.
  { destruct (connections (tr w) !! next w) eqn:E; [exfalso|done].
    assert (next w < next w); [|lia]. apply Hids. left. by rewrite E. }
  split_and!; [by destruct up| |].
  - unfold tracked, t', track. cbn [connections set_tables record_route_hit set_stats set_totals]. rewrite msum_insert by done.
    unfold cell_of at 1. cbn [cells set_tables]. rewrite lookup_insert_eq. 
    replace (bytes_of up _) with 0 by (by destruct up). rewrite Z.add_0_l. apply msum_ext.
    intros k v Hk. unfold cell_of. cbn. rewrite lookup_insert_ne by congruence. done.
  - unfold by_outbound, t', track. cbn [outbound_traffic set_tables record_route_hit set_stats set_totals].
    rewrite msum_insert_any. destruct (outbound_traffic (tr w) !! ot) as [e|] eqn:E.
    + rewrite (msum_delete _ (outbound_traffic (tr w)) _ _ E). by destruct up.
    + rewrite delete_id by done. by destruct up.
Qed.

(** Every operation keeps the books: what it adds is in the table, in the totals
    or lost. *)
Lemma step_books up o w :
  ids_ok w →
  eq64 (total_of up (tr (step o w)) + tracked up (tr (step o w)) + lost up o w)
       (total_of up (tr w) + tracked up (tr w) + added up o w)
  ∧ (eq64 (total_of up (tr w)) (by_outbound up (tr w)) →
     eq64 (total_of up (tr (step o w))) (by_outbound up (tr (step o w)))).
Proof.
  intros Hids. destruct o as [s ot rt mr now|id n now|id n now|id u|id| |m now]; cbn [step lost added tr].
  - destruct (track_books up w s ot rt mr now Hids) as (->&->&->). done.
  - unfold added. destruct (decide (id ∈ live w)); [|by destruct up, (connections (tr w) !! id)]. cbn [tr].
    split; [|by destruct up]. unfold add_upload. rewrite set_cell_tracked.
    replace (total_of up (set_cell _ _ _)) with (total_of up (tr w)) by (by destruct up).
    destruct (connections (tr w) !! id); [|by destruct up]. destruct up; cbn [bytes_of c_upload c_download]; [|apply f_equal; lia].
    rewrite Z.add_0_r, <- !Z.add_assoc. apply eq64_add, eq64_add; [done..|].
    transitivity (c_upload (cell_of id (tr w)) + n + - c_upload (cell_of id (tr w))); [|apply f_equal; lia].
    apply eq64_add; [apply eq64_wrap|done].
  - unfold added. destruct (decide (id ∈ live w)); [|by destruct up, (connections (tr w) !! id)]. cbn [tr].
    split; [|by destruct up]. unfold add_download. rewrite set_cell_tracked.
    replace (total_of up (set_cell _ _ _)) with (total_of up (tr w)) by (by destruct up).
    destruct (connections (tr w) !! id); [|by destruct up]. destruct up; cbn [bytes_of c_upload c_download]; [apply f_equal; lia|].
    rewrite Z.add_0_r, <- !Z.add_assoc. apply eq64_add, eq64_add; [done..|].
    transitivity (c_download (cell_of id (tr w)) + n + - c_download (cell_of id (tr w))); [|apply f_equal; lia].
    apply eq64_add; [apply eq64_wrap|done].
  - destruct (decide (id ∈ live w)); [|done]. cbn [tr]. unfold drop_guard. destruct u; [|done].
    destruct (connections (tr w) !! id) as [info|] eqn:E; [|done].
    rewrite !Z.add_0_r. by apply (retire_books up id info (tr w)).
  - cbn [close tr snd]. split; [|by destruct up].
    replace (total_of up (set_tables _ _ _)) with (total_of up (tr w)) by (by destruct up).
    destruct (connections (tr w) !! id) as [info|] eqn:E.
    + rewrite (tracked_delete up (tr w) id info E). apply f_equal. lia.
    + unfold tracked. cbn [connections set_tables]. rewrite delete_id by done. done.
  - cbn [close_all tr snd]. split; [|by destruct up].
    replace (total_of up (set_tables _ _ _)) with (total_of up (tr w)) by (by destruct up).
    unfold tracked at 1. cbn [connections set_tables]. rewrite msum_empty. apply f_equal. lia.
  - destruct (close_idle_books up m now (tr w)) as (H1&H2&_). rewrite !Z.add_0_r. done.
Qed.

Lemma step_ids o w : ids_ok w → 0 <= next w < 2 ^ 64 - 1 → ids_ok (step o w) ∧ next w <= next (step o w) <= next w + 1.
Proof.
  intros Hids Hn. assert (Hsub : ∀ t, connections t ⊆ connections (tr w) → ∀ l, l ⊆ live w → ids_ok (mkWorld t (next w) l)).
  { intros t Ht l Hl id [[x Hx]|Hx]; apply Hids; [left|right; set_solver]. exists x. by eapply lookup_weaken. }
  destruct o as [s ot rt mr now|id n now|id n now|id u|id| |m now]; cbn [step]; repeat case_decide;
    try (split; [done|lia]); (split; [|cbn [next]; unfold next_id; rewrite ?wrap_small by (unfold in_width; lia); lia]).
  - intros id. cbn [tr next live]. unfold next_id. rewrite wrap_small by (unfold in_width; lia).
    cbn [track connections set_tables record_route_hit set_stats set_totals].
    intros [[x Hx]|Hx]; [apply lookup_insert_Some in Hx as [[<- _]|[_ Hx]]; [lia|]|apply elem_of_union in Hx as [Hx%elem_of_singleton|Hx]; [lia|]];
      enough (id < next w) by lia; apply Hids; eauto.
  - by apply Hsub.
  - by apply Hsub.
  - apply Hsub; [|set_solver]. unfold drop_guard. destruct u; [|done]. case_match; [|done]. apply delete_subseteq.
  - apply Hsub; [|done]. apply delete_subseteq.
  - apply Hsub; [|done]. apply map_empty_subseteq.
  - apply Hsub; [|done]. apply (close_idle_books true m now).
Qed.

Lemma run_books up ops w w' a l :
  ids_ok w → 0 <= next w → next w + Z.of_nat (length ops) < 2 ^ 64 →
  run up ops w = (w', a, l) →
  eq64 (total_of up (tr w') + tracked up (tr w') + l) (total_of up (tr w) + tracked up (tr w) + a)
  ∧ (eq64 (total_of up (tr w)) (by_outbound up (tr w)) → eq64 (total_of up (tr w')) (by_outbound up (tr w'))).
Proof.
  revert w w' a l. induction ops as [|o ops IH]; intros w w' a l Hids Hn Hlen Hrun; cbn [run length] in *.
  { by simplify_eq. }
  destruct (run up ops (step o w)) as [[w1 a1] l1] eqn:E. simplify_eq.
  destruct (step_ids o w Hids ltac:(lia)) as [Hids' Hn']. destruct (step_books up o w Hids) as [Hb Hg].
  destruct (IH _ _ _ _ Hids' ltac:(lia) ltac:(lia) E) as [Hb1 Hg1]. split; [|auto].
  transitivity (total_of up (tr w') + tracked up (tr w') + l1 + lost up o w); [apply f_equal; lia|]. rewrite Hb1.
  transitivity (total_of up (tr (step o w)) + tracked up (tr (step o w)) + lost up o w + a1); [apply f_equal; lia|].
  rewrite Hb. apply f_equal. lia.
Qed.

(** ** Theorems *)

(** C11: in every sequence of connections opened, used, dropped and closed, in
    each direction the totals plus the bytes of the connections in the table
    plus what was lost are all the bytes reported by the guards, and the totals
    are the sum over the outbounds.  Bytes are lost only by [close] and
    [close_all], which discard what they remove, and by guards used after their
    entry was removed. *)
Theorem tracker_accounts_for_traffic up ops w a l :
  Z.of_nat (length ops) < 2 ^ 64 - 1 →
  run up ops world_new = (w, a, l) →
  wrap 64 (total_of up (tr w) + tracked up (tr w) + l) = wrap 64 a
  ∧ wrap 64 (total_of up (tr w)) = wrap 64 (by_outbound up (tr w)).
Proof.
  intros Hlen Hrun. assert (ids_ok world_new) as Hids.
  { intros id [[x Hx]|Hx]; [by apply (lookup_empty_Some id x) in Hx|set_solver]. }
  destruct (run_books up ops world_new w a l Hids) as [Hb Hg]; [done|cbn; lia|done|].
  split; [|by apply Hg; destruct up]. rewrite Hb. by destruct up.
Qed.

Lemma pop_excess_spec cap ring : pop_excess cap ring = drop (length ring - cap) ring.
Proof.
  induction ring as [|x ring IH]; [done|]. cbn [pop_excess].
  destruct (Nat.leb_spec (length (x :: ring)) cap) as [Hle|Hlt].
  - replace (_ - _)%nat with 0%nat by lia. done.
  - rewrite IH. cbn [length] in *. by replace (S (length ring) - cap)%nat with (S (length ring - cap)) by lia.
Qed.
Definition record_latencies (ls : list Z) (t : ConnectionTracker) : ConnectionTracker :=
  foldl (fun t l => record_latency_ms l t) t ls.
Lemma record_latencies_spec ls t :
  (length (latency_ring t) <= latency_capacity t)%nat →
  latency_ring (record_latencies ls t) = drop (length (latency_ring t ++ ls) - latency_capacity t) (latency_ring t ++ ls)
  ∧ latency_capacity (record_latencies ls t) = latency_capacity t.
Proof.
  revert t. induction ls as [|x ls IH]; intros t Ht.
  { rewrite app_nil_r. by replace (length (latency_ring t) - latency_capacity t)%nat with 0%nat by lia. }
  change (record_latencies (x :: ls) t) with (record_latencies ls (record_latency_ms x t)).
  destruct (IH (record_latency_ms x t)) as [-> ->].
  { cbn. rewrite pop_excess_spec, length_drop, length_app. lia. }
  cbn [record_latency_ms latency_ring set_stats latency_capacity]. rewrite pop_excess_spec. split; [|done].
  set (r := latency_ring t ++ [x]). rewrite (cons_middle x), app_assoc. fold r.
  rewrite <- drop_app_le by lia. rewrite drop_drop, length_drop, !length_app. f_equal. lia.
Qed.

(** The percentile indices of every possible ring, checked one by one. *)
Definition indices_ok (n : nat) : bool :=
  let i p := p_index p (S n) in
  (0 <=? i P50) && (i P50 <=? i P95) && (i P95 <=? i P99) && (i P99 <=? Z.of_nat n).
Lemma all_indices_ok : forallb indices_ok (seq 0 2048) = true.
Proof. vm_compute. reflexivity. Qed.
Lemma index_ok n : (n < 2048)%nat → indices_ok n = true.
Proof.
  intros Hn. pose proof (proj1 (forallb_forall indices_ok (seq 0 2048)) all_indices_ok n) as H.
  apply H, in_seq. lia.
Qed.
Lemma sort_perm l : sort_u64 l ≡ₚ l.
Proof. apply merge_sort_Permutation. Qed.
Lemma sort_at l i j x y :
  (i <= j)%nat → sort_u64 l !! i = Some x → sort_u64 l !! j = Some y → x <= y.
Proof.
  intros Hij Hi Hj. destruct (decide (i = j)) as [->|]; [simplify_eq; lia|].
  assert (StronglySorted Z.le (sort_u64 l)) as Hs by (apply (StronglySorted_merge_sort Z.le)).
  eapply (StronglySorted_app_1_elem_of Z.le (take j (sort_u64 l)) (drop j (sort_u64 l))).
  - by rewrite take_drop.
  - apply (list_elem_of_lookup_2 _ i). rewrite lookup_take_lt by lia. done.
  - apply (list_elem_of_lookup_2 _ 0). rewrite lookup_drop, Nat.add_0_r. done.
Qed.

(** After any latencies were recorded the ring holds the last 2048 of them,
    the percentiles never index out of range, each is a recorded latency, and
    the median is at most the 95th and that at most the 99th percentile. *)
Theorem latency_percentiles_sound ls :
  let t := record_latencies ls tracker_new in
  latency_ring t = drop (length ls - 2048) ls
  ∧ match latency_percentiles_ms t with
    | None => False
    | Some None => ls = []
    | Some (Some (p50, p95, p99)) =>
        p50 ∈ latency_ring t ∧ p95 ∈ latency_ring t ∧ p99 ∈ latency_ring t ∧ p50 <= p95 <= p99
    end.
Proof.
  destruct (record_latencies_spec ls tracker_new) as [Hr _]; [cbn; lia|]. cbn [latency_ring tracker_new app latency_capacity] in Hr.
  cbn zeta. split; [done|]. unfold latency_percentiles_ms. rewrite Hr.
  assert (Hl : (length (drop (length ls - 2048) ls) <= 2048)%nat) by (rewrite length_drop; lia).
  destruct (drop (length ls - 2048) ls) as [|x ring] eqn:E.
  { apply (f_equal length) in E. rewrite length_drop in E. cbn in E. apply nil_length_inv. lia. }
  clear E Hr. set (l := x :: ring) in *.
  assert (indices_ok (length ring) = true) as Hi.
  { apply index_ok. cbn in Hl. lia. }
  unfold indices_ok in Hi. cbv zeta in Hi. rewrite !andb_true_iff, !Z.leb_le in Hi. destruct Hi as [[[H0 H1] H2] H3].
  assert (Hlen : length (sort_u64 l) = S (length ring)) by (by rewrite sort_perm).
  assert (Hat : ∀ p, p_index p (S (length ring)) <= Z.of_nat (length ring) →
    ∃ v, sort_u64 l !! Z.to_nat (p_index p (S (length ring))) = Some v ∧ v ∈ l).
  { intros p Hp. destruct (lookup_lt_is_Some_2 (sort_u64 l) (Z.to_nat (p_index p (S (length ring))))) as [v Hv]; [lia|].
    exists v. split; [done|]. rewrite <- (sort_perm l). by eapply list_elem_of_lookup_2. }
  unfold p_at. rewrite Hlen.
  destruct (Hat P50) as (v1&E1&?); [lia|]. destruct (Hat P95) as (v2&E2&?); [lia|]. destruct (Hat P99) as (v3&E3&?); [lia|].
  rewrite E1, E2, E3. cbn [mbind option_bind]. split_and!; try done.
  - eapply (sort_at l), E2; [|exact E1]. lia.
  - eapply (sort_at l), E3; [|exact E2]. lia.
Qed.

(** ** Witnesses *)

Definition ex_session : Session := mkSession (Domain "example.org" 443) None "mixed" Tcp false None.
Definition ex_ops : list op :=
  [Track ex_session "proxy" "MATCH" None 0; AddUpload 1 10 5; AddDownload 1 20 6;
   Track ex_session "direct" "MATCH" None 7; AddUpload 2 3 8; Close 2; AddUpload 2 4 9; DropGuard 2 true;
   CloseIdle 1 100; AddUpload 1 1 101; DropGuard 1 true].

(** Of the 18 bytes uploaded 10 are in the totals: [close] lost three, and the
    guards of the two removed connections five more. *)
Lemma tracker_accounts_for_traffic_witness :
  ∃ w, run true ex_ops world_new = (w, 18, 8) ∧ wrap 64 (total_upload (tr w) + tracked true (tr w) + 8) = wrap 64 18.
Proof.
  eexists. split; [vm_compute; reflexivity|].
  eapply (tracker_accounts_for_traffic true ex_ops); [vm_compute; reflexivity|vm_compute; reflexivity].
Defined.
Example tracker_totals : snapshot (tr (run true ex_ops world_new).1.1) = mkSnapshot 10 20 0.
Proof. vm_compute. reflexivity. Qed.
