(* ===== verification/Dispatch.v ===== *)
(** * The dispatcher ([src/src/app/dispatcher.rs])

    What happens to a connection an inbound has accepted: sniffing, the FakeIP
    reverse lookup, the mode or the router choosing an outbound, tracking, the
    circuit breaker, the connection with retries and the relay; and what happens
    to each UDP packet of an association.  Also the error categories
    ([src/src/common/error.rs]) and the operation mode
    ([src/src/app/clash_mode.rs]).  What the network does during a dispatch (the
    first bytes, name resolution, each connection attempt, the turns of the
    relay, the instants) is the record [Wire]. *)

From S2P Require Import Prelude RustStr Addr Trie Rules Router Outcome Sniff FakeIp Resilience NatTable Groups Config Outbounds Traffic Relay Proc HostPort Tracker.

Local Open Scope string_scope.
Local Open Scope list_scope.
Local Open Scope Z_scope.

(** ** Errors *)

Inductive IoErrorKind :=
| ConnectionRefusedKind | ConnectionReset | ConnectionAborted | BrokenPipe | TimedOut | OtherIo.
Inductive ProxyError :=
| PIo (k : IoErrorKind) | PProtocol (s : string) | PConfig (s : string) | PDnsResolutionFailed (s : string)
| PConnectionRefused (s : string) | PConnectionTimeout (s : string) | PTlsHandshakeFailed (s : string)
| PAuthenticationFailed (s : string) | PCircuitBreakerOpen (s : string) | PRateLimited (s : string)
| PCancelled | PUnsupported (s : string) | POther (s : string).
Inductive ProxyErrorKind :=
| KIo | KProtocol | KConfig | KDnsResolutionFailed | KConnectionRefused | KConnectionTimeout
| KTlsHandshakeFailed | KAuthenticationFailed | KCircuitBreakerOpen | KRateLimited | KCancelled
| KUnsupported | KOther.
(** An [anyhow::Error] by what it can be downcast to. *)
Inductive AnyError := AnyProxy (e : ProxyError) | AnyIo (k : IoErrorKind) | AnyOther (s : string).

Definition kind (e : ProxyError) : ProxyErrorKind :=
  match e with
  | PIo _ => KIo | PProtocol _ => KProtocol | PConfig _ => KConfig
  | PDnsResolutionFailed _ => KDnsResolutionFailed | PConnectionRefused _ => KConnectionRefused
  | PConnectionTimeout _ => KConnectionTimeout | PTlsHandshakeFailed _ => KTlsHandshakeFailed
  | PAuthenticationFailed _ => KAuthenticationFailed | PCircuitBreakerOpen _ => KCircuitBreakerOpen
  | PRateLimited _ => KRateLimited | PCancelled => KCancelled | PUnsupported _ => KUnsupported
  | POther _ => KOther
  end.
Definition classify (e : AnyError) : ProxyErrorKind :=
  match e with
  | AnyProxy pe => kind pe
  | AnyIo k =>
      match k with
      | ConnectionRefusedKind => KConnectionRefused
      | ConnectionReset | ConnectionAborted | BrokenPipe => KConnectionRefused
      | TimedOut => KConnectionTimeout
      | OtherIo => KIo
      end
  | AnyOther _ => KOther
  end.
Definition kind_is_retryable (k : ProxyErrorKind) : bool :=
  match k with KConnectionTimeout | KDnsResolutionFailed | KIo => true | _ => false end.
Definition kind_should_switch_node (k : ProxyErrorKind) : bool :=
  match k with
  | KConnectionRefused | KConnectionTimeout | KTlsHandshakeFailed | KCircuitBreakerOpen => true
  | _ => false
  end.
Definition kind_is_permanent (k : ProxyErrorKind) : bool :=
  match k with KConfig | KUnsupported | KAuthenticationFailed | KCancelled => true | _ => false end.
Definition is_retryable (e : ProxyError) : bool :=
  match e with PConnectionTimeout _ | PDnsResolutionFailed _ | PIo _ => true | _ => false end.
Definition should_switch_node (e : ProxyError) : bool :=
  match e with
  | PConnectionRefused _ | PConnectionTimeout _ | PTlsHandshakeFailed _ | PCircuitBreakerOpen _ => true
  | _ => false
  end.
Definition is_permanent (e : ProxyError) : bool :=
  match e with PConfig _ | PUnsupported _ | PAuthenticationFailed _ | PCancelled => true | _ => false end.
Definition kind_as_str (k : ProxyErrorKind) : string :=
  match k with
  | KIo => "IO" | KProtocol => "PROTOCOL" | KConfig => "CONFIG" | KDnsResolutionFailed => "DNS_FAILED"
  | KConnectionRefused => "CONN_REFUSED" | KConnectionTimeout => "CONN_TIMEOUT"
  | KTlsHandshakeFailed => "TLS_FAILED" | KAuthenticationFailed => "AUTH_FAILED"
  | KCircuitBreakerOpen => "CIRCUIT_OPEN" | KRateLimited => "RATE_LIMITED" | KCancelled => "CANCELLED"
  | KUnsupported => "UNSUPPORTED" | KOther => "OTHER"
  end.

(** ** Mode *)

Inductive ClashMode := ModeRule | ModeGlobal | ModeDirect.
Definition mode_as_str (m : ClashMode) : string :=
  match m with ModeRule => "rule" | ModeGlobal => "global" | ModeDirect => "direct" end.
Definition mode_from_str (s : string) : option ClashMode :=
  let l := to_lowercase s in
  if String.eqb l "rule" || String.eqb l "rules" then Some ModeRule
  else if String.eqb l "global" then Some ModeGlobal
  else if String.eqb l "direct" then Some ModeDirect
  else None.
(** The value of the global byte. *)
Definition mode_as_u8 (m : ClashMode) : Z := match m with ModeRule => 0 | ModeGlobal => 1 | ModeDirect => 2 end.
Definition get_mode (byte : Z) : ClashMode :=
  if byte =? 1 then ModeGlobal else if byte =? 2 then ModeDirect else ModeRule.
Definition set_mode_str (s : string) (byte : Z) : bool * Z :=
  match mode_from_str s with Some m => (true, mode_as_u8 m) | None => (false, byte) end.

(** ** The dispatcher *)

Section dispatch.
Context {IpNet Regex : Type} `{!IpNetOps IpNet} `{!IpNetDisplay IpNet} `{!RegexOps Regex}.

Record Dispatcher := mkDispatcher {
  d_router : Router (IpNet := IpNet) (Regex := Regex);
  d_env : Env IpNet;
  d_manager : OutboundManager;
  d_tracker : ConnectionTracker;
  d_next_id : Z;
  d_breakers : gmap string CircuitBreaker;
  d_nat : NatTable;
  d_fakeip : option FakeIpPool;
  d_mode : Z;
  d_pool : BufferPool
}.
Definition with_tracker (t : ConnectionTracker) (d : Dispatcher) : Dispatcher :=
  mkDispatcher (d_router d) (d_env d) (d_manager d) t (d_next_id d) (d_breakers d) (d_nat d) (d_fakeip d)
    (d_mode d) (d_pool d).
Definition with_next (n : Z) (d : Dispatcher) : Dispatcher :=
  mkDispatcher (d_router d) (d_env d) (d_manager d) (d_tracker d) n (d_breakers d) (d_nat d) (d_fakeip d)
    (d_mode d) (d_pool d).
Definition with_breaker (tag : string) (b : CircuitBreaker) (d : Dispatcher) : Dispatcher :=
  mkDispatcher (d_router d) (d_env d) (d_manager d) (d_tracker d) (d_next_id d) (<[tag := b]> (d_breakers d))
    (d_nat d) (d_fakeip d) (d_mode d) (d_pool d).
Definition with_pool (p : BufferPool) (d : Dispatcher) : Dispatcher :=
  mkDispatcher (d_router d) (d_env d) (d_manager d) (d_tracker d) (d_next_id d) (d_breakers d) (d_nat d)
    (d_fakeip d) (d_mode d) p.
Definition with_nat (n : NatTable) (d : Dispatcher) : Dispatcher :=
  mkDispatcher (d_router d) (d_env d) (d_manager d) (d_tracker d) (d_next_id d) (d_breakers d) n
    (d_fakeip d) (d_mode d) (d_pool d).
Definition update_router (r : Router) (d : Dispatcher) : Dispatcher :=
  mkDispatcher r (d_env d) (d_manager d) (d_tracker d) (d_next_id d) (d_breakers d) (d_nat d) (d_fakeip d)
    (d_mode d) (d_pool d).
Definition update_outbound_manager (m : OutboundManager) (d : Dispatcher) : Dispatcher :=
  mkDispatcher (d_router d) (d_env d) m (d_tracker d) (d_next_id d) (d_breakers d) (d_nat d) (d_fakeip d)
    (d_mode d) (d_pool d).

Definition circuit_breaker_for (tag : string) (d : Dispatcher) : CircuitBreaker :=
  default (breaker_new CircuitBreakerConfig_default) (d_breakers d !! tag).
Definition record_error_code (code : string) (d : Dispatcher) : Dispatcher :=
  with_tracker (Tracker.record_error code (d_tracker d)) d.

(** What the network and the clock do during one TCP dispatch. *)
Record Wire := mkWire {
  w_peek : option nat;
  w_group_order : list string;
  w_handler_order : list string;
  w_resolve : string → result AnyError (list IpAddr);
  w_connect : Z → result AnyError Endpoint;
  w_script : list Turn;
  w_relay_error : AnyError;
  w_start : Z;
  w_checked : Z;
  w_failed : Z;
  w_done : Z;
  w_unlocked : bool
}.

Inductive dispatched :=
| Done (r : result AnyError unit)
| StillRelaying
| Crashed.

(** A stream whose first bytes were read ahead. *)
Definition prefixed (prefix : bytes) (e : Endpoint) : Endpoint :=
  mkEnd (prefix ++ incoming e) (received e) (write_shut e).

Definition set_target (a : Address) (s : Session) : Session :=
  mkSession a (Rules.source s) (inbound_tag s) (network s) (sniff_enabled s) (detected_protocol s).
Definition set_protocol (p : option string) (s : Session) : Session :=
  mkSession (target s) (Rules.source s) (inbound_tag s) (network s) (sniff_enabled s) p.

(** The sniffing block; [Nothing]: the first read failed. *)
Definition sniff_stage (s : Session) (client : Endpoint) (peek : option nat) : outcome (Session * Endpoint) :=
  if sniff_enabled s then
    match peek with
    | None => Nothing
    | Some n =>
        let peek_buf := take n (incoming client) in
        let stream := prefixed peek_buf (consume n client) in
        match Sniff.sniff peek_buf with
        | Found host =>
            Found (set_protocol (detect_protocol peek_buf) (set_target (Domain host (Addr.port (target s))) s), stream)
        | Nothing => Found (set_protocol (detect_protocol peek_buf) s, stream)
        | Panic => Panic
        | OutOfFuel => OutOfFuel
        end
    end
  else Found (s, client).

Definition unfake_stage (pool : option FakeIpPool) (s : Session) : Session :=
  match pool, target s with
  | Some pool, Ip addr =>
      if is_fake_ip (sock_ip addr) pool then
        match FakeIp.lookup (sock_ip addr) pool with
        | Some domain => set_target (Domain domain (sock_port addr)) s
        | None => s
        end
      else s
  | _, _ => s
  end.

Definition choose_outbound (w : Wire) (s : Session) (d : Dispatcher) : string * option string :=
  match get_mode (d_mode d) with
  | ModeGlobal =>
      (default "direct" (first_proxy_tag (w_group_order w) (w_handler_order w) (d_manager d)), Some "GLOBAL")
  | ModeDirect => ("direct", Some "DIRECT")
  | ModeRule => route_with_rule (d_env d) (d_router d) s
  end.

Definition relay_options : RelayOptions := mkOptions 300000000000 (Some stats_new) None None.
Definition elapsed_ms (start now : Z) : Z := (now - start) / 1000000.

(** The instrumented block: resolving, the breaker, connecting, relaying.  The
    session the outbound is asked for is part of the result. *)
Definition connect_and_relay (w : Wire) (id : Z) (oid : nat) (tag : string) (s : Session) (client : Endpoint)
    (d : Dispatcher) : dispatched * option Session * Endpoint * option Endpoint * Dispatcher :=
  let resolved :=
    match target s, kinds (d_manager d) !! oid with
    | Domain _ _, Some Direct =>
        match resolve_with (fun _ _ => Err (AnyOther "")) (target s) (Some (w_resolve w)) with
        | Ok addr => Ok (set_target (Ip addr) s)
        | Err (ResolverFailed e) => Err e
        | Err (DnsResolutionFailed _ _) => Err (AnyOther "DNS resolution failed")
        end
    | _, _ => Ok s
    end in
  match resolved with
  | Err e => (Done (Err e), None, client, None, d)
  | Ok connect_session =>
      let '(allowed, b) := allow_request (w_checked w) (circuit_breaker_for tag d) in
      let d := with_breaker tag b d in
      if negb allowed then
        (Done (Err (AnyProxy (PCircuitBreakerOpen tag))), None, client, None,
         record_error_code "OUTBOUND_CIRCUIT_OPEN" d)
      else
        match (retry_with_backoff RetryPolicy_default (w_connect w)).1.1 with
        | None => (Crashed, Some connect_session, client, None, d)
        | Some (Err e) =>
            (Done (Err e), Some connect_session, client, None,
             record_error_code (kind_as_str (classify e)) (with_breaker tag (record_failure (w_failed w) b) d))
        | Some (Ok remote) =>
            let d := with_breaker tag (record_success b) d in
            let '(c, r, e, p) := relay_proxy_streams client remote relay_options (w_script w) (w_checked w) (d_pool d) in
            let d := with_pool p d in
            match e with
            | None => (StillRelaying, Some connect_session, c, Some r, d)
            | Some Hangs => (StillRelaying, Some connect_session, c, Some r, d)
            | Some Failed =>
                (Done (Err (w_relay_error w)), Some connect_session, c, Some r,
                 record_error_code (kind_as_str (classify (w_relay_error w))) d)
            | Some (Finished up down) =>
                let t := Tracker.record_latency_ms (elapsed_ms (w_start w) (w_done w)) (d_tracker d) in
                let t := Tracker.add_upload id up (w_done w) t in
                let t := Tracker.add_download id down (w_done w) t in
                (Done (Ok tt), Some connect_session, c, Some r, with_tracker t d)
            end
        end
  end.

(** [dispatch] of a TCP session.  Besides its outcome: the session the outbound
    was asked to connect, and both streams as they are left. *)
Definition dispatch_tcp (w : Wire) (session : Session) (client : Endpoint) (d : Dispatcher)
  : dispatched * option Session * Endpoint * option Endpoint * Dispatcher :=
  match sniff_stage session client (w_peek w) with
  | Nothing => (Done (Err (AnyIo OtherIo)), None, client, None, d)
  | Panic | OutOfFuel => (Crashed, None, client, None, d)
  | Found (session, client) =>
      let session := unfake_stage (d_fakeip d) session in
      let '(outbound_tag, matched_rule) := choose_outbound w session d in
      let route_tag := default "MATCH" matched_rule in
      match manager_get outbound_tag (d_manager d) ≫= fun id => pair id <$> objects (d_manager d) !! id with
      | None =>
          (Done (Err (AnyProxy (PConfig outbound_tag))), None, client, None,
           record_error_code "OUTBOUND_NOT_FOUND" d)
      | Some (oid, outbound) =>
          let id := d_next_id d in
          let tag := handler_tag outbound in
          let d := with_next (Tracker.next_id id)
            (with_tracker (Tracker.track id session tag route_tag matched_rule (w_start w) (d_tracker d)) d) in
          let d := with_breaker tag (circuit_breaker_for tag d) d in
          match connect_and_relay w id oid tag session client d with
          | (Done r, cs, c, rm, d) =>
              (Done r, cs, c, rm, with_tracker (Tracker.drop_guard id (w_unlocked w) (d_tracker d)) d)
          | other => other
          end
      end
  end.

(** ** UDP

    One packet of an association: [connect] is what the outbound's
    [connect_udp] gives if it is called, [sent] whether the transport takes the
    packet, [now] the instant in milliseconds.  Returned are the packet with the
    transport it was handed to, whether a reverse relay was started for that
    transport, and the dispatcher. *)

Definition udp_session (s : Session) (p : UdpPacket) : Session :=
  mkSession (p_addr p) (Rules.source s) (inbound_tag s) Udp false None.
Definition udp_key (s : Session) (p : UdpPacket) : NatKey :=
  {| NatTable.source := default (SockV4 0 0) (Rules.source s); dest := p_addr p |}.

(** The outbound transport for a new flow. *)
Definition open_transport (tag : string) (connect : result AnyError nat) (src : SocketAddr) (d : Dispatcher)
  : option nat * Dispatcher :=
  match get_transport_for_source src tag (d_nat d) with
  | Some t => (Some t, d)
  | None =>
      match manager_get tag (d_manager d) with
      | None => (None, record_error_code "UDP_OUTBOUND_NOT_FOUND" d)
      | Some _ =>
          match connect with
          | Ok t => (Some t, d)
          | Err _ => (None, record_error_code "UDP_OUTBOUND_CONNECT_FAILED" d)
          end
      end
  end.

Definition forward_packet (connect : result AnyError nat) (sent : bool) (now : Z) (s : Session) (p : UdpPacket)
    (d : Dispatcher) : option (UdpPacket * nat) * bool * Dispatcher :=
  let '(tag, matched_rule) := route_with_rule (d_env d) (d_router d) (udp_session s p) in
  let d := with_tracker (Tracker.record_route_hit (default "MATCH" matched_rule) (d_tracker d)) d in
  let k := udp_key s p in
  let flow :=
    match NatTable.get k now (d_nat d) with
    | Some e => (Some (e, false), with_nat (NatTable.touch e now (d_nat d)) d)
    | None =>
        match open_transport tag connect (NatTable.source k) d with
        | (None, d) => (None, d)
        | (Some t, d) =>
            let '(e, is_new, n) := get_or_insert k t tag now (d_nat d) in (Some (e, is_new), with_nat n d)
        end
    end in
  match flow with
  | (None, d) => (None, false, d)
  | (Some (e, is_new), d) =>
      if sent
      then (Some (p, NatTable.transport e), is_new, with_nat (NatTable.touch e now (d_nat d)) d)
      else (Some (p, NatTable.transport e), is_new, record_error_code "UDP_OUTBOUND_SEND_FAILED" d)
  end.

(** One turn of a reverse relay: what its transport received, and whether the
    inbound took it.  The loop goes on while the answer is [true]. *)
Definition reverse_turn (e : NatEntry) (got : result AnyError UdpPacket) (sent : bool) (now : Z) (d : Dispatcher)
  : option UdpPacket * bool * Dispatcher :=
  match got with
  | Ok reply =>
      if sent then (Some reply, true, with_nat (NatTable.touch e now (d_nat d)) d)
      else (None, false, record_error_code "UDP_INBOUND_SEND_FAILED" d)
  | Err _ => (None, false, record_error_code "UDP_OUTBOUND_RECV_FAILED" d)
  end.
End dispatch.

(** ** Lemmas *)

Lemma prefixed_consume n e : prefixed (take n (incoming e)) (consume n e) = e.
Proof. destruct e. unfold prefixed, consume. cbn. by rewrite take_drop. Qed.
(** Sniffing consumes nothing: the peeked bytes are put back. *)
Lemma sniff_stage_client s c peek s' c' : sniff_stage s c peek = Found (s', c') → c' = c.
Proof.
  unfold sniff_stage. destruct (sniff_enabled s); [|by intros [= _ <-]].
  destruct peek; [|done]. repeat case_match; try done; intros [= _ <-]; apply prefixed_consume.
Qed.

(** A connection that is tracked, used and dropped. *)
Lemma tracked_round id s tag rt mr start lat u dn done t :
  connections t !! id = None → u64_ok u → u64_ok dn →
  let t' := Tracker.drop_guard id true (Tracker.add_download id dn done (Tracker.add_upload id u done
              (Tracker.record_latency_ms lat (Tracker.track id s tag rt mr start t)))) in
  let e := default traffic_default (outbound_traffic t !! tag) in
  connections t' = connections t ∧ error_stats t' = error_stats t
  ∧ total_upload t' = wrap 64 (total_upload t + u) ∧ total_download t' = wrap 64 (total_download t + dn)
  ∧ outbound_traffic t' !! tag = Some (mkTraffic (wrap 64 (ot_upload e + u)) (wrap 64 (ot_download e + dn))
                                         (wrap 32 (ot_connections e + 1))).
Proof.
  intros Hid Hu Hd t' e. unfold t', Tracker.drop_guard. 
  cbn [connections Tracker.add_download Tracker.add_upload set_cell set_tables Tracker.record_latency_ms set_stats
       Tracker.track Tracker.record_route_hit set_totals].
  rewrite lookup_insert_eq.
  assert (Hc : ∀ tt, cells tt !! id = Some (mkCell u dn done) → cell_of id tt = mkCell u dn done).
  { intros tt H. unfold cell_of. by rewrite H. }
  rewrite Hc.
  2: { cbn. rewrite lookup_insert_eq. unfold cell_of. cbn. rewrite !lookup_insert_eq. cbn.
       unfold cell_of. cbn. rewrite lookup_insert_eq. cbn. by rewrite !wrap_small. }
  cbn. rewrite delete_insert_eq, delete_id by done. split_and!; try done.
  rewrite lookup_insert_eq. cbn. rewrite lookup_insert_eq. done.
Qed.

(** A connection that is tracked and dropped unused, with one error counted. *)
Lemma tracked_abort id s tag rt mr start code t :
  connections t !! id = None → u64_ok (total_upload t) → u64_ok (total_download t) →
  let t' := Tracker.drop_guard id true (Tracker.record_error code (Tracker.track id s tag rt mr start t)) in
  connections t' = connections t ∧ error_stats t' = bump code (error_stats t)
  ∧ total_upload t' = total_upload t ∧ total_download t' = total_download t.
Proof.
  intros Hid Hu Hd t'. unfold t', Tracker.drop_guard.
  cbn [connections Tracker.record_error set_tables set_stats Tracker.track Tracker.record_route_hit set_totals].
  rewrite lookup_insert_eq. unfold cell_of. cbn. rewrite lookup_insert_eq. cbn.
  rewrite delete_insert_eq, delete_id, !Z.add_0_r, !wrap_small by done. done.
Qed.

(** The same when the table is locked as the guard is dropped: the entry stays with
    what was counted, and nothing is added to the totals. *)
Lemma tracked_round_kept id s tag rt mr start lat u dn done t :
  connections t !! id = None → u64_ok u → u64_ok dn →
  let t' := Tracker.drop_guard id false (Tracker.add_download id dn done (Tracker.add_upload id u done
              (Tracker.record_latency_ms lat (Tracker.track id s tag rt mr start t)))) in
  is_Some (connections t' !! id) ∧ delete id (connections t') = connections t ∧ error_stats t' = error_stats t
  ∧ c_upload (cell_of id t') = u ∧ c_download (cell_of id t') = dn
  ∧ total_upload t' = total_upload t ∧ total_download t' = total_download t.
Proof.
  intros Hid Hu Hd t'.
  assert (Hc : cell_of id t' = mkCell u dn done).
  { unfold t', cell_of. cbn. rewrite lookup_insert_eq. unfold cell_of. cbn. rewrite !lookup_insert_eq. cbn.
    unfold cell_of. cbn. rewrite lookup_insert_eq. cbn. by rewrite !wrap_small. }
  rewrite Hc. unfold t', Tracker.drop_guard. cbn. rewrite lookup_insert_eq, delete_insert_eq, delete_id by done.
  by split_and!; [eexists|..].
Qed.
Lemma tracked_abort_kept id s tag rt mr start code t :
  connections t !! id = None →
  let t' := Tracker.drop_guard id false (Tracker.record_error code (Tracker.track id s tag rt mr start t)) in
  is_Some (connections t' !! id) ∧ delete id (connections t') = connections t ∧ error_stats t' = bump code (error_stats t)
  ∧ total_upload t' = total_upload t ∧ total_download t' = total_download t.
Proof.
  intros Hid t'. unfold t', Tracker.drop_guard. cbn. rewrite lookup_insert_eq, delete_insert_eq, delete_id by done.
  split_and!; [by eexists|done..].
Qed.

Section theorems.
Context {IpNet Regex : Type} `{!IpNetOps IpNet} `{!IpNetDisplay IpNet} `{!RegexOps Regex}.
Abbreviation Dispatcher' := (Dispatcher (IpNet := IpNet) (Regex := Regex)).

(** A direct outbound is given a resolved address, every other the name. *)
Definition asks_for (w : Wire) (oid : nat) (d : Dispatcher') (s s' : Session) : Prop :=
  match target s, kinds (d_manager d) !! oid with
  | Domain host p, Some Direct =>
      ∃ ip rest, w_resolve w host = Ok (ip :: rest) ∧ s' = set_target (Ip (sock_new ip p)) s
  | _, _ => s' = s
  end.

Lemma resolved_as w oid d s s' :
  asks_for w oid d s s' →
  (match target s, kinds (d_manager d) !! oid with
   | Domain _ _, Some Direct =>
       match resolve_with (fun _ _ => Err (AnyOther "")) (target s) (Some (w_resolve w)) with
       | Ok addr => Ok (set_target (Ip addr) s)
       | Err (ResolverFailed e) => Err e
       | Err (DnsResolutionFailed _ _) => Err (AnyOther "DNS resolution failed")
       end
   | _, _ => Ok s
   end) = Ok s'.
Proof.
  intros Hask. unfold asks_for in Hask. destruct (target s) as [a|host p] eqn:Et; [congruence|].
  destruct (kinds (d_manager d) !! oid) as [[]|]; try congruence. destruct Hask as (ip&rest&Hr&->). cbn. by rewrite Hr.
Qed.

(** C2: a TCP connection whose outbound is known, whose breaker lets it pass and
    one of whose attempts succeeds, is relayed completely when nothing disturbs
    the streams: the remote gets every byte of the client, those read for
    sniffing included, the client every byte of the remote, both are closed,
    no error is counted and the breaker records a success.  If the table can be
    locked when the connection's guard is dropped, the connection leaves the table
    and the totals and the outbound's counters grow by exactly these bytes, modulo
    2^64; if another task holds it then, the entry stays in the table with these
    bytes as its counts, and the totals do not grow.  The connection's number is
    taken to be free in the table. *)
Theorem dispatch_delivers w s c d s' rule oid h s'' remote s1 :
  sniff_stage s c (w_peek w) = Found (s1, c) → s' = unfake_stage (d_fakeip d) s1 →
  (∃ tag, choose_outbound w s' d = (tag, rule) ∧ manager_get tag (d_manager d) = Some oid) →
  objects (d_manager d) !! oid = Some h →
  asks_for w oid d s' s'' →
  (allow_request (w_checked w) (circuit_breaker_for (handler_tag h) d)).1 = true →
  (retry_with_backoff RetryPolicy_default (w_connect w)).1.1 = Some (Ok remote) →
  len (incoming c) < 2 ^ 64 → len (incoming remote) < 2 ^ 64 →
  possible (w_script w) (Relay.start relay_options c remote (w_checked w)) = true →
  forallb (undisturbed (idle_timeout relay_options)) (w_script w) = true →
  (length (incoming c) + length (incoming remote) + 2 <= length (w_script w))%nat →
  connections (d_tracker d) !! d_next_id d = None →
  let '(r, asked, c', r', d') := dispatch_tcp w s c d in
  let t := d_tracker d in
  let t' := d_tracker d' in
  let tag := handler_tag h in
  let e := default traffic_default (outbound_traffic t !! tag) in
  r = Done (Ok tt) ∧ asked = Some s''
  ∧ c' = mkEnd [] (received c ++ incoming remote) true
  ∧ r' = Some (mkEnd [] (received remote ++ incoming c) true)
  ∧ error_stats t' = error_stats t
  ∧ (if w_unlocked w then
       connections t' = connections t
       ∧ total_upload t' = wrap 64 (total_upload t + len (incoming c))
       ∧ total_download t' = wrap 64 (total_download t + len (incoming remote))
       ∧ outbound_traffic t' !! tag
         = Some (mkTraffic (wrap 64 (ot_upload e + len (incoming c))) (wrap 64 (ot_download e + len (incoming remote)))
                   (wrap 32 (ot_connections e + 1)))
     else
       is_Some (connections t' !! d_next_id d) ∧ delete (d_next_id d) (connections t') = connections t
       ∧ c_upload (cell_of (d_next_id d) t') = len (incoming c)
       ∧ c_download (cell_of (d_next_id d) t') = len (incoming remote)
       ∧ total_upload t' = total_upload t ∧ total_download t' = total_download t)
  ∧ d_breakers d' !! tag
    = Some (record_success (allow_request (w_checked w) (circuit_breaker_for tag d)).2).
Proof.
  intros Hsn Hs' (tag0&Hch&Hget) Hobj Hask Hallow Hretry Hlc Hlr Hposs Hund Hlong Hfresh.
  unfold dispatch_tcp. rewrite Hsn. rewrite <- Hs', Hch, Hget. cbn [mbind option_bind]. rewrite Hobj.
  cbn [fmap option_fmap option_map].
  set (tag := handler_tag h) in *. set (id := d_next_id d) in *.
  set (t1 := Tracker.track id s' tag (default "MATCH" rule) rule (w_start w) (d_tracker d)).
  set (d1 := with_breaker tag _ _).
  assert (Hcb : circuit_breaker_for tag d1 = circuit_breaker_for tag d).
  { unfold circuit_breaker_for at 1, d1. cbn. rewrite lookup_insert_eq. done. }
  unfold connect_and_relay. rewrite (resolved_as w oid d1 s' s'' Hask), Hcb.
  destruct (allow_request (w_checked w) (circuit_breaker_for tag d)) as [al b] eqn:Eal. cbn in Hallow. subst al.
  cbn [negb]. rewrite Hretry. cbv zeta.
  unfold relay_proxy_streams. 
  pose proof (relay_ends_well (idle_timeout relay_options) stats_new c remote (w_checked w) (w_script w) Hlc Hlr
    ltac:(unfold in_width; cbn; lia) ltac:(unfold in_width; cbn; lia) Hposs Hund Hlong) as Hrel.
  change (mkOptions (idle_timeout relay_options) (Some stats_new) None None) with relay_options in Hrel.
  specialize (Hrel (d_pool (with_breaker tag (record_success b) (with_breaker tag b d1)))).
  destruct (relay_with_options _ _ _ _ _ _) as [[[c2 r2] e2] p2]. cbn [fst] in Hrel. injection Hrel as -> -> ->.
  pose proof (tracked_round id s' tag (default "MATCH" rule) rule (w_start w)
    (elapsed_ms (w_start w) (w_done w)) (len (incoming c)) (len (incoming remote)) (w_done w) (d_tracker d) Hfresh
    ltac:(split; [apply len_nonneg|done]) ltac:(split; [apply len_nonneg|done])) as (T1&T2&T3&T4&T5).
  pose proof (tracked_round_kept id s' tag (default "MATCH" rule) rule (w_start w)
    (elapsed_ms (w_start w) (w_done w)) (len (incoming c)) (len (incoming remote)) (w_done w) (d_tracker d) Hfresh
    ltac:(split; [apply len_nonneg|done]) ltac:(split; [apply len_nonneg|done])) as (K1&K2&K3&K4&K5&K6&K7).
  destruct (w_unlocked w); split_and!; try done; cbn; by rewrite lookup_insert_eq.
Qed.

(** How an outbound that cannot be used is reported. *)
Inductive unusable (w : Wire) (tag : string) (d : Dispatcher') : AnyError → string → CircuitBreaker → Prop :=
| breaker_refuses :
    (allow_request (w_checked w) (circuit_breaker_for tag d)).1 = false →
    unusable w tag d (AnyProxy (PCircuitBreakerOpen tag)) "OUTBOUND_CIRCUIT_OPEN"
      (allow_request (w_checked w) (circuit_breaker_for tag d)).2
| attempts_fail e :
    (allow_request (w_checked w) (circuit_breaker_for tag d)).1 = true →
    (retry_with_backoff RetryPolicy_default (w_connect w)).1.1 = Some (Err e) →
    unusable w tag d e (kind_as_str (classify e))
      (record_failure (w_failed w) (allow_request (w_checked w) (circuit_breaker_for tag d)).2).

(** C38: when the breaker refuses or every attempt fails, the client gets the
    error, its stream is untouched and nothing was sent; the totals are as before,
    exactly one error is counted under its category, and the breaker has recorded
    the failure (or the refusal, without a connection being attempted).  The table
    is as before if it can be locked when the connection's guard is dropped, and
    otherwise keeps the entry of the connection and is as before but for it.  The
    connection's number is taken to be free in the table. *)
Theorem dispatch_unusable_outbound w s c d s1 s' rule oid h s'' err code b :
  sniff_stage s c (w_peek w) = Found (s1, c) → s' = unfake_stage (d_fakeip d) s1 →
  (∃ tag, choose_outbound w s' d = (tag, rule) ∧ manager_get tag (d_manager d) = Some oid) →
  objects (d_manager d) !! oid = Some h → asks_for w oid d s' s'' →
  unusable w (handler_tag h) d err code b →
  connections (d_tracker d) !! d_next_id d = None →
  u64_ok (total_upload (d_tracker d)) → u64_ok (total_download (d_tracker d)) →
  let '(r, asked, c', r', d') := dispatch_tcp w s c d in
  r = Done (Err err) ∧ c' = c ∧ r' = None
  ∧ (if w_unlocked w then connections (d_tracker d') = connections (d_tracker d)
     else is_Some (connections (d_tracker d') !! d_next_id d)
          ∧ delete (d_next_id d) (connections (d_tracker d')) = connections (d_tracker d))
  ∧ total_upload (d_tracker d') = total_upload (d_tracker d)
  ∧ total_download (d_tracker d') = total_download (d_tracker d)
  ∧ error_stats (d_tracker d') = bump code (error_stats (d_tracker d))
  ∧ d_breakers d' !! handler_tag h = Some b
  ∧ (code = "OUTBOUND_CIRCUIT_OPEN" → asked = None).
Proof.
  intros Hsn Hs' (tag0&Hch&Hget) Hobj Hask Hun Hfresh Hu Hd.
  unfold dispatch_tcp. rewrite Hsn. rewrite <- Hs', Hch, Hget. cbn [mbind option_bind]. rewrite Hobj.
  cbn [fmap option_fmap option_map].
  set (tag := handler_tag h) in *. set (id := d_next_id d) in *. set (d1 := with_breaker tag _ _).
  assert (Hcb : circuit_breaker_for tag d1 = circuit_breaker_for tag d).
  { unfold circuit_breaker_for at 1, d1. cbn. rewrite lookup_insert_eq. done. }
  unfold connect_and_relay. rewrite (resolved_as w oid d1 s' s'' Hask), Hcb.
  pose proof (tracked_abort id s' tag (default "MATCH" rule) rule (w_start w) code (d_tracker d) Hfresh Hu Hd)
    as (T1&T2&T3&T4).
  pose proof (tracked_abort_kept id s' tag (default "MATCH" rule) rule (w_start w) code (d_tracker d) Hfresh)
    as (K1&K2&K3&K4&K5).
  destruct Hun as [Hal|e Hal Hre];
    destruct (allow_request (w_checked w) (circuit_breaker_for tag d)) as [al b]; cbn in Hal; subst al; cbn [negb].
  - destruct (w_unlocked w); split_and!; try done; cbn; by rewrite lookup_insert_eq.
  - rewrite Hre.
    destruct (w_unlocked w); split_and!; try done; try (cbn; by rewrite lookup_insert_eq); intros Hk; by destruct (classify e).
Qed.

(** When a write of the relay fails, the error is reported and counted, but
    the bytes that had passed are not: the totals stay as they were, however much
    was delivered. *)
Theorem relay_failure_uncounted w s c d s1 s' rule oid h s'' remote :
  sniff_stage s c (w_peek w) = Found (s1, c) → s' = unfake_stage (d_fakeip d) s1 →
  (∃ tag, choose_outbound w s' d = (tag, rule) ∧ manager_get tag (d_manager d) = Some oid) →
  objects (d_manager d) !! oid = Some h → asks_for w oid d s' s'' →
  (allow_request (w_checked w) (circuit_breaker_for (handler_tag h) d)).1 = true →
  (retry_with_backoff RetryPolicy_default (w_connect w)).1.1 = Some (Ok remote) →
  (copy_loop (w_script w) (Relay.start relay_options c remote (w_checked w))).2 = Some Failed →
  connections (d_tracker d) !! d_next_id d = None → w_unlocked w = true →
  u64_ok (total_upload (d_tracker d)) → u64_ok (total_download (d_tracker d)) →
  let '(r, asked, c', r', d') := dispatch_tcp w s c d in
  r = Done (Err (w_relay_error w)) ∧ asked = Some s''
  ∧ r' = Some (Relay.remote (copy_loop (w_script w) (Relay.start relay_options c remote (w_checked w))).1)
  ∧ total_upload (d_tracker d') = total_upload (d_tracker d)
  ∧ total_download (d_tracker d') = total_download (d_tracker d)
  ∧ error_stats (d_tracker d') = bump (kind_as_str (classify (w_relay_error w))) (error_stats (d_tracker d)).
Proof.
  intros Hsn Hs' (tag0&Hch&Hget) Hobj Hask Hal Hre Hfail Hfresh Hunl Hu Hd.
  unfold dispatch_tcp. rewrite Hsn. rewrite <- Hs', Hch, Hget. cbn [mbind option_bind]. rewrite Hobj.
  cbn [fmap option_fmap option_map].
  set (tag := handler_tag h) in *. set (id := d_next_id d) in *. set (d1 := with_breaker tag _ _).
  assert (Hcb : circuit_breaker_for tag d1 = circuit_breaker_for tag d).
  { unfold circuit_breaker_for at 1, d1. cbn. rewrite lookup_insert_eq. done. }
  unfold connect_and_relay. rewrite (resolved_as w oid d1 s' s'' Hask), Hcb.
  destruct (allow_request (w_checked w) (circuit_breaker_for tag d)) as [al b]; cbn in Hal; subst al; cbn [negb].
  rewrite Hre. cbv zeta. unfold relay_proxy_streams, relay_with_options, is_some.
  cbn [relay_options upload_limiter download_limiter stats negb andb].
  destruct (Relay.get _) as [ba p1]. destruct (Relay.get p1) as [bb p2].
  fold relay_options in Hfail |- *. destruct (copy_loop _ _) as [sx ex]. cbn [snd] in Hfail. subst ex.
  pose proof (tracked_abort id s' tag (default "MATCH" rule) rule (w_start w) (kind_as_str (classify (w_relay_error w)))
    (d_tracker d) Hfresh Hu Hd) as (T1&T2&T3&T4).
  rewrite Hunl. by split_and!.
Qed.
End theorems.

(** ** Witnesses *)

Definition ex_dispatcher : Dispatcher (IpNet := SampleNet) (Regex := string) :=
  mkDispatcher ex_router sample_env ex_manager tracker_new 1 ∅ table_new None 0 (pool_new POOL_MAX).
Definition ex_wire (connect : Z → result AnyError Endpoint) (script : list Turn) : Wire :=
  mkWire (Some 3%nat) [] [] (fun _ => Err (AnyOther "")) connect script (AnyIo BrokenPipe) 0 5 6 7 true.
Definition ex_tcp : Session := mkSession (Domain "www.example.org" 443) None "in" Tcp true None.
Definition second_try (a : Z) : result AnyError Endpoint := if a =? 0 then Err (AnyIo TimedOut) else Ok ex_remote.

Lemma dispatch_delivers_witness :
  let '(r, asked, c', r', d') := dispatch_tcp (ex_wire second_try ex_script) ex_tcp ex_client ex_dispatcher in
  r = Done (Ok tt) ∧ c' = mkEnd [] [Byte.x7a] true
  ∧ r' = Some (mkEnd [] [Byte.x61; Byte.x62; Byte.x63] true)
  ∧ total_upload (d_tracker d') = 3 ∧ total_download (d_tracker d') = 1.
Proof.
  pose proof (dispatch_delivers (ex_wire second_try ex_script) ex_tcp ex_client ex_dispatcher
    ex_tcp (Some "domain-suffix(example.org)") 3 (Outbound "via") ex_tcp ex_remote ex_tcp) as H.
  destruct (dispatch_tcp _ _ _ _) as [[[[r asked] c'] r'] d'].
  destruct H as (H1&_&H3&H4&_&(_&H7&H8&_)&_).
  1-2: vm_compute; reflexivity.
  - exists "via". split; vm_compute; reflexivity.
  - vm_compute. reflexivity.
  - vm_compute. reflexivity.
  - vm_compute. reflexivity.
  - vm_compute. reflexivity.
  - vm_compute. reflexivity.
  - vm_compute. reflexivity.
  - vm_compute. reflexivity.
  - vm_compute. reflexivity.
  - vm_compute. lia.
  - vm_compute. reflexivity.
  - split_and!; [exact H1|exact H3|exact H4|exact H7|exact H8].
Defined.

Lemma dispatch_unusable_outbound_witness :
  let '(r, asked, c', r', d') :=
    dispatch_tcp (ex_wire (fun _ => Err (AnyIo TimedOut)) []) ex_tcp ex_client ex_dispatcher in
  r = Done (Err (AnyIo TimedOut)) ∧ c' = ex_client ∧ r' = None
  ∧ error_stats (d_tracker d') = {["CONN_TIMEOUT" := 1]}.
Proof.
  pose proof (dispatch_unusable_outbound (ex_wire (fun _ => Err (AnyIo TimedOut)) []) ex_tcp ex_client ex_dispatcher
    ex_tcp ex_tcp (Some "domain-suffix(example.org)") 3 (Outbound "via") ex_tcp (AnyIo TimedOut) "CONN_TIMEOUT"
    (record_failure 6 (breaker_new CircuitBreakerConfig_default))) as H.
  destruct (dispatch_tcp _ _ _ _) as [[[[r asked] c'] r'] d'].
  destruct H as (H1&H2&H3&_&_&_&H7&_).
  1-2: vm_compute; reflexivity.
  - exists "via". split; vm_compute; reflexivity.
  - vm_compute. reflexivity.
  - vm_compute. reflexivity.
  - refine (attempts_fail _ _ _ (AnyIo TimedOut) _ _); vm_compute; reflexivity.
  - vm_compute. reflexivity.
  - vm_compute. split; congruence.
  - vm_compute. split; congruence.
  - split_and!; [exact H1|exact H2|exact H3|rewrite H7; vm_compute; reflexivity].
Defined.

Lemma relay_failure_uncounted_witness :
  let '(r, asked, c', r', d') :=
    dispatch_tcp (ex_wire second_try [mkTurn 5 (ClientRead (Some 2%nat)) None; mkTurn 5 (RemoteRead (Some 1%nat)) (Some 0%nat)])
      ex_tcp ex_client ex_dispatcher in
  r = Done (Err (AnyIo BrokenPipe)) ∧ r' = Some (mkEnd [] [Byte.x61; Byte.x62] false)
  ∧ total_upload (d_tracker d') = 0.
Proof.
  pose proof (relay_failure_uncounted
    (ex_wire second_try [mkTurn 5 (ClientRead (Some 2%nat)) None; mkTurn 5 (RemoteRead (Some 1%nat)) (Some 0%nat)])
    ex_tcp ex_client ex_dispatcher ex_tcp ex_tcp (Some "domain-suffix(example.org)") 3 (Outbound "via") ex_tcp ex_remote) as H.
  destruct (dispatch_tcp _ _ _ _) as [[[[r asked] c'] r'] d'].
  destruct H as (H1&_&H3&H4&_).
  1-2: vm_compute; reflexivity.
  - exists "via". split; vm_compute; reflexivity.
  - vm_compute. reflexivity.
  - vm_compute. reflexivity.
  - vm_compute. reflexivity.
  - vm_compute. reflexivity.
  - vm_compute. reflexivity.
  - vm_compute. reflexivity.
  - vm_compute. reflexivity.
  - vm_compute. split; congruence.
  - vm_compute. split; congruence.
  - split_and!; [exact H1|rewrite H3; vm_compute; reflexivity|exact H4].
Defined.
