(* ===== verification/Http.v ===== *)
(** * HTTP proxying ([src/src/proxy/inbound/http.rs],
    [src/src/proxy/outbound/http.rs], [src/src/proxy/inbound/mixed.rs])

    The proxy server reads its request through a [BufReader], the client its
    response: both then take the inner stream back, and what the reader had
    buffered is gone.  A stream is therefore the list of pieces the reads of the
    connection return, and a reader a buffer before such a list.  White space is
    that of ASCII.  Base64 is the class [Base64]. *)

From Stdlib Require Import Ascii.
From S2P Require Import Prelude RustStr Addr IpText Rules HostPort Proc Socks5.

Local Open Scope string_scope.
Local Open Scope list_scope.
Local Open Scope Z_scope.

(** The [base64] crate's standard engine. *)
Class Base64 := {
  b64_encode : bytes → string;
  b64_decode : string → option bytes
}.
(** What it documents: decoding inverts encoding, nothing encodes as nothing, and
    the alphabet is letters, digits, [+], [/] and [=]. *)
Definition b64_char (a : ascii) : bool :=
  let n := ascii_code a in
  ((48 <=? n) && (n <=? 57)) || ((65 <=? n) && (n <=? 90)) || ((97 <=? n) && (n <=? 122))
  || (n =? 43) || (n =? 47) || (n =? 61).
Class Base64Laws `{Base64} := {
  b64_inverse : ∀ b, b64_decode (b64_encode b) = Some b;
  b64_empty : b64_encode [] = "";
  b64_alphabet : ∀ b, all_chars b64_char (b64_encode b) = true
}.

(** ** Buffered reading *)

Record BufReader := mkReader { buffered : bytes; chunks : list bytes }.
Definition reader_new (stream : list bytes) : BufReader := mkReader [] stream.
(** Everything still to be read. *)
Definition flat (r : BufReader) : bytes := buffered r ++ concat (chunks r).

(** Up to and with the first line feed. *)
Fixpoint take_line (b : bytes) : option (bytes * bytes) :=
  match b with
  | [] => None
  | x :: b =>
      if Byte.eqb x Byte.x0a then Some ([x], b)
      else match take_line b with Some (l, rest) => Some (x :: l, rest) | None => None end
  end.
Fixpoint read_until (acc buf : bytes) (stream : list bytes) : bytes * BufReader :=
  match take_line buf with
  | Some (l, rest) => (acc ++ l, mkReader rest stream)
  | None =>
      match stream with
      | [] => (acc ++ buf, mkReader [] [])
      | c :: cs => read_until (acc ++ buf) c cs
      end
  end.

Inductive http_error :=
| InvalidUtf8
| BadRequestLine
| BodyCutShort
| NotAuthenticated
| BadTarget (e : target_error)
| NoHost
| NotHttpUrl
| BadResponse
| ConnectRefused.

(** [read_line]: an error on bytes that are not UTF-8. *)
Definition read_line (r : BufReader) : result http_error (string * BufReader) :=
  let '(l, r') := read_until [] (buffered r) (chunks r) in
  match from_utf8 l with Some s => Ok (s, r') | None => Err InvalidUtf8 end.

(** [read_exact] through the buffer; [None]: the stream ends first. *)
Fixpoint take_exact (acc : bytes) (n : nat) (buf : bytes) (stream : list bytes) : option (bytes * BufReader) :=
  if (n <=? length buf)%nat then Some (acc ++ take n buf, mkReader (drop n buf) stream)
  else match stream with
       | [] => None
       | c :: cs => take_exact (acc ++ buf) (n - length buf) c cs
       end.

(** ** Addresses in requests *)

Definition parse_connect_target (s : string) : result http_error Address :=
  match parse_target s with Ok a => Ok a | Err e => Err (BadTarget e) end.
Definition parse_host_port (s : string) (default_port : Z) : Address :=
  let plain :=
    match parse_ip s with
    | Some ip => Ip (sock_new ip default_port)
    | None => Domain s default_port
    end in
  match rsplit_once ":"%char s with
  | Some (host, port_str) =>
      match parse_uint 16 port_str with
      | Some port =>
          match parse_ip host with
          | Some ip => Ip (sock_new ip port)
          | None => Domain host port
          end
      | None => plain
      end
  | None => plain
  end.
Definition parse_http_url (url : string) (host_header : option string) : result http_error (Address * string) :=
  if starts_with "/" url then
    match host_header with
    | None => Err NoHost
    | Some host => Ok (parse_host_port host 80, url)
    end
  else
    match match strip_prefix "http://" url with Some s => Some s | None => strip_prefix "HTTP://" url end with
    | None => Err NotHttpUrl
    | Some without_scheme =>
        let '(host_port, path) :=
          match split_once "/"%char without_scheme with
          | Some (h, p) => (h, String "/" p)
          | None => (without_scheme, "/")
          end in
        Ok (parse_host_port host_port 80, path)
    end.

(** ** The server *)

Record HttpInbound := mkHttpInbound { tag : string; auth_users : list (string * string) }.
Definition http_inbound_new (t : string) : HttpInbound := mkHttpInbound t [].
Definition http_with_auth (users : list (string * string)) (i : HttpInbound) : HttpInbound := mkHttpInbound (tag i) users.

Definition verify_basic_auth `{Base64} (i : HttpInbound) (auth_value : string) : bool :=
  match match strip_prefix "Basic " auth_value with Some e => Some e | None => strip_prefix "basic " auth_value end with
  | None => false
  | Some encoded =>
      match b64_decode (trim encoded) with
      | None => false
      | Some decoded =>
          match from_utf8 decoded with
          | None => false
          | Some credential =>
              match split_once ":"%char credential with
              | None => false
              | Some (username, password) => bool_decide ((username, password) ∈ auth_users i)
              end
          end
      end
  end.

Record Headers := mkHeaders {
  forwarded : list string;
  proxy_auth : option string;
  host_header : option string;
  content_length : Z
}.
(** [line[n..]] *)
Fixpoint drop_chars (n : nat) (s : string) : string :=
  match n, s with
  | S n, String _ s => drop_chars n s
  | _, _ => s
  end.
(** [line["name:".len()..].trim()] after the case-insensitive test. *)
Definition header_value (name line : string) : option string :=
  if starts_with name (to_lowercase line) then Some (trim (drop_chars (String.length name) line)) else None.
Definition add_header (line : string) (h : Headers) : Headers :=
  match header_value "proxy-authorization:" line with
  | Some v => mkHeaders (forwarded h) (Some v) (host_header h) (content_length h)
  | None =>
      if starts_with "proxy-connection:" (to_lowercase line) then h
      else
        mkHeaders (forwarded h ++ [line]) (proxy_auth h)
          (match header_value "host:" line with Some v => Some v | None => host_header h end)
          (match header_value "content-length:" line with
           | Some v => default (content_length h) (parse_uint 64 v)
           | None => content_length h
           end)
  end.
(** The header loop; [None] is fuel that ran out. *)
Fixpoint read_headers (fuel : nat) (h : Headers) (r : BufReader) : option (result http_error (Headers * BufReader)) :=
  match fuel with
  | O => None
  | S fuel =>
      match read_line r with
      | Err e => Some (Err e)
      | Ok (line, r) =>
          if String.eqb (trim line) "" then Some (Ok (h, r)) else read_headers fuel (add_header line h) r
      end
  end.

(** How the handler ends: with a session, what it wrote, the stream it passes
    on (bytes put before the rest of the connection) and the bytes the reader
    had buffered and dropped; or with an error, and what it wrote. *)
Inductive handled :=
| Accepted (s : Session) (written prefix : bytes) (rest : list bytes) (dropped : bytes)
| Refused (e : http_error) (written : bytes)
| HttpPanics.

Definition CRLF_str : string := String (ascii_of_nat 13) (String (ascii_of_nat 10) "").
Definition quote : string := String (ascii_of_nat 34) "".
Definition auth_required : string :=
  "HTTP/1.1 407 Proxy Authentication Required" +:+ CRLF_str +:+ "Proxy-Authenticate: Basic realm=" +:+ quote
  +:+ "proxy" +:+ quote +:+ CRLF_str +:+ "Content-Length: 0" +:+ CRLF_str +:+ CRLF_str.
Definition established : string := "HTTP/1.1 200 Connection Established" +:+ CRLF_str +:+ CRLF_str.

Definition authenticated `{Base64} (i : HttpInbound) (h : Headers) : bool :=
  match auth_users i with
  | [] => true
  | _ => match proxy_auth h with Some v => verify_basic_auth i v | None => false end
  end.

(** The rest of [handle] once the request head is read. *)
Definition answer (i : HttpInbound) (source : SocketAddr) (method url version : string) (h : Headers) (r : BufReader)
  : handled :=
  if eq_ignore_ascii_case method "CONNECT" then
    match parse_connect_target url with
    | Err e => Refused e []
    | Ok target =>
        Accepted (mkSession target (Some source) (tag i) Tcp false None) (as_bytes established) []
          (chunks r) (buffered r)
    end
  else
    match parse_http_url url (host_header h) with
    | Err e => Refused e []
    | Ok (target, path) =>
        let head := method +:+ " " +:+ path +:+ " " +:+ version +:+ CRLF_str
                    +:+ foldr String.append "" (forwarded h) +:+ CRLF_str in
        (** [resize] panics beyond the size of a vector *)
        if 2 ^ 63 <=? content_length h then HttpPanics else
        match (if 0 <? content_length h
               then take_exact [] (Z.to_nat (content_length h)) (buffered r) (chunks r)
               else Some ([], r)) with
        | None => Refused BodyCutShort []
        | Some (body, r) =>
            Accepted (mkSession target (Some source) (tag i) Tcp false (Some "http")) []
              (as_bytes head ++ body) (chunks r) (buffered r)
        end
    end.

Definition handle `{Base64} (i : HttpInbound) (source : SocketAddr) (stream : list bytes) : option handled :=
  let r := reader_new stream in
  match read_line r with
  | Err e => Some (Refused e [])
  | Ok (request_line, r) =>
      match split_whitespace (trim request_line) with
      | method :: url :: version :: _ =>
          match read_headers (S (length (flat r))) (mkHeaders [] None None 0) r with
          | None => None
          | Some (Err e) => Some (Refused e [])
          | Some (Ok (h, r)) =>
              if authenticated i h then Some (answer i source method url version h r)
              else Some (Refused NotAuthenticated (as_bytes auth_required))
          end
      | _ => Some (Refused BadRequestLine [])
      end
  end.

(** ** The client *)

Record HttpOutbound := mkHttpOutbound { username : option string; password : option string }.
Definition connect_request `{Base64} (o : HttpOutbound) (target : Address) : string :=
  let target_str := address_to_string target in
  "CONNECT " +:+ target_str +:+ " HTTP/1.1" +:+ CRLF_str +:+ "Host: " +:+ target_str +:+ CRLF_str
  +:+ match username o, password o with
      | Some user, Some pass =>
          "Proxy-Authorization: Basic " +:+ b64_encode (as_bytes (user +:+ ":" +:+ pass)) +:+ CRLF_str
      | _, _ => ""
      end
  +:+ CRLF_str.

Fixpoint skip_headers (fuel : nat) (r : BufReader) : option (result http_error BufReader) :=
  match fuel with
  | O => None
  | S fuel =>
      match read_line r with
      | Err e => Some (Err e)
      | Ok (line, r) => if String.eqb (trim line) "" then Some (Ok r) else skip_headers fuel r
      end
  end.
(** The response: the stream that is returned and the bytes that were dropped. *)
Definition connect_response (stream : list bytes) : option (result http_error (list bytes * bytes)) :=
  match read_line (reader_new stream) with
  | Err e => Some (Err e)
  | Ok (status_line, r) =>
      match (s ← split_whitespace status_line !! 1%nat; parse_uint 16 s) with
      | None => Some (Err BadResponse)
      | Some status_code =>
          if negb (status_code =? 200) then Some (Err ConnectRefused)
          else
            match skip_headers (S (length (flat r))) r with
            | None => None
            | Some (Err e) => Some (Err e)
            | Some (Ok r) => Some (Ok (chunks r, buffered r))
            end
      end
  end.

(** ** The mixed port *)

Record MixedInbound := mkMixed { m_tag : string; m_socks5 : Socks5Inbound; m_http : HttpInbound }.
Definition mixed_new (t listen : string) : MixedInbound :=
  mkMixed t (Socks5.inbound_new t listen) (http_inbound_new t).
Definition mixed_with_auth (users : list (string * string)) (m : MixedInbound) : MixedInbound :=
  mkMixed (m_tag m) (Socks5.with_auth users (m_socks5 m)) (http_with_auth users (m_http m)).

(** The first byte tells SOCKS5 from HTTP and is put back before the rest. *)
Inductive mixed :=
| MixedSocks (conversation : proc Socks5.InboundResult)
| MixedHttp (h : option handled)
| MixedEof.
Definition mixed_handle `{Base64} (m : MixedInbound) (bound : option SocketAddr) (source : SocketAddr) (stream : list bytes)
  : mixed :=
  match stream with
  | (b :: c) :: cs =>
      if Byte.eqb b Byte.x05 then MixedSocks (with_prefix [b] (Socks5.handle (m_socks5 m) bound source))
      else MixedHttp (handle (m_http m) source ([b] :: match c with [] => cs | _ => c :: cs end))
  | _ => MixedEof
  end.

(** ** Lemmas on reading *)

Lemma take_line_spec b l rest : take_line b = Some (l, rest) → b = l ++ rest ∧ l ≠ [].
Proof.
  revert l rest. induction b as [|x b IH]; intros l rest; cbn [take_line]; [done|].
  destruct (Byte.eqb x Byte.x0a); [by intros [= <- <-]|].
  destruct (take_line b) as [[l' r']|]; [|done]. intros [= <- <-]. by destruct (IH _ _ eq_refl) as [-> _].
Qed.
Definition no_lf (b : bytes) : Prop := Byte.x0a ∉ b.
Lemma take_line_first l rest : no_lf l → take_line (l ++ Byte.x0a :: rest) = Some (l ++ [Byte.x0a], rest).
Proof.
  unfold no_lf. induction l as [|x l IH]; intros Hl; cbn [app take_line]; [done|].
  apply not_elem_of_cons in Hl as [Hx Hl]. destruct (Byte.eqb x Byte.x0a) eqn:E.
  { apply Byte.byte_dec_bl in E. congruence. }
  by rewrite IH.
Qed.
Lemma take_line_none l : no_lf l → take_line l = None.
Proof.
  unfold no_lf. induction l as [|x l IH]; intros Hl; cbn [take_line]; [done|].
  apply not_elem_of_cons in Hl as [Hx Hl]. destruct (Byte.eqb x Byte.x0a) eqn:E.
  { apply Byte.byte_dec_bl in E. congruence. }
  by rewrite IH.
Qed.
Lemma take_line_None_inv l : take_line l = None → no_lf l.
Proof.
  unfold no_lf. induction l as [|x l IH]; cbn [take_line]; intros Ht; [set_solver|].
  destruct (Byte.eqb x Byte.x0a) eqn:E; [done|]. destruct (take_line l) as [[? ?]|]; [done|].
  apply not_elem_of_cons. split; [|auto]. intros <-. by rewrite Byte.byte_dec_lb in E.
Qed.

(** Where a reader can be in a stream [orig]: at its start, or behind a non-empty
    part of a piece. *)
Definition at_piece (orig : list bytes) (r : BufReader) : Prop :=
  (buffered r = [] ∧ chunks r = orig)
  ∨ ∃ pre c part, orig = pre ++ c :: chunks r ∧ c = part ++ buffered r ∧ part ≠ [].

Lemma take_line_app b c :
  take_line (b ++ c) =
  match take_line b with
  | Some (l, rest) => Some (l, rest ++ c)
  | None => match take_line c with Some (l, rest) => Some (b ++ l, rest) | None => None end
  end.
Proof.
  induction b as [|x b IH]; cbn [app take_line]; [by destruct (take_line c) as [[? ?]|]|].
  destruct (Byte.eqb x Byte.x0a); [done|]. rewrite IH.
  destruct (take_line b) as [[? ?]|]; [done|]. by destruct (take_line c) as [[? ?]|].
Qed.

(** How a stream is cut does not matter for what is read from it. *)
Lemma read_until_flat acc buf stream :
  let '(l, r) := read_until acc buf stream in
  match take_line (buf ++ concat stream) with
  | Some (l0, rest) => l = acc ++ l0 ∧ flat r = rest
  | None => l = acc ++ buf ++ concat stream ∧ flat r = []
  end.
Proof.
  revert acc buf. induction stream as [|c cs IH]; intros acc buf; cbn [read_until concat].
  - rewrite take_line_app. destruct (take_line buf) as [[l0 r0]|]; cbn; [by split|]. by rewrite app_nil_r.
  - rewrite take_line_app. destruct (take_line buf) as [[l0 r0]|]; [by split|].
    specialize (IH (acc ++ buf) c). destruct (read_until (acc ++ buf) c cs) as [l r].
    destruct (take_line (c ++ concat cs)) as [[l0 rest]|]; rewrite <- !app_assoc in IH; done.
Qed.
Lemma read_line_flat r l rest s :
  flat r = l ++ Byte.x0a :: rest → no_lf l → from_utf8 (l ++ [Byte.x0a]) = Some s →
  ∃ r', read_line r = Ok (s, r') ∧ flat r' = rest.
Proof.
  intros Hf Hl Hs. unfold read_line. pose proof (read_until_flat [] (buffered r) (chunks r)) as H.
  change (buffered r ++ concat (chunks r)) with (flat r) in H. rewrite Hf, take_line_first in H by done.
  destruct (read_until [] _ _) as [l' r']. destruct H as [-> <-]. rewrite app_nil_l, Hs. eauto.
Qed.
(** A line takes at least a byte, or the stream is over. *)
Lemma read_line_shrinks r s r' :
  read_line r = Ok (s, r') → (length (flat r') < length (flat r))%nat ∨ s = "" ∧ flat r = [].
Proof.
  unfold read_line. pose proof (read_until_flat [] (buffered r) (chunks r)) as H.
  change (buffered r ++ concat (chunks r)) with (flat r) in H.
  destruct (read_until [] _ _) as [l r1]. destruct (from_utf8 l) as [s0|] eqn:E; [|done]. intros [= -> ->].
  destruct (take_line (flat r)) as [[l0 rest]|] eqn:Et.
  - destruct H as [-> <-]. apply take_line_spec in Et as [-> Hne]. left. rewrite length_app.
    destruct l0; [done|cbn; lia].
  - destruct H as [-> Hr]. rewrite Hr. destruct (flat r) as [|b f]; [right|left; cbn; lia]. split; [|done].
    cbn in E. by injection E as <-.
Qed.

Lemma read_until_at orig acc buf stream pre c part :
  orig = pre ++ c :: stream → c = part ++ buf → part ≠ [] ∨ buf ≠ [] →
  Forall (fun c => c ≠ []) stream →
  at_piece orig (read_until acc buf stream).2 ∨ (read_until acc buf stream).2 = mkReader [] [].
Proof.
  revert acc buf pre c part. induction stream as [|c' cs IH]; intros acc buf pre c part Ho Hc Hne Hs; cbn [read_until];
    destruct (take_line buf) as [[l0 r0]|] eqn:E; cbn [snd]; auto.
  - left. right. apply take_line_spec in E as [-> Hl]. exists pre, c, (part ++ l0). cbn. split_and!; [done|by rewrite <- app_assoc|].
    destruct part, l0; done.
  - left. right. apply take_line_spec in E as [-> Hl]. exists pre, c, (part ++ l0). cbn. split_and!; [done|by rewrite <- app_assoc|].
    destruct part, l0; done.
  - apply Forall_cons in Hs as [Hc' Hs]. eapply (IH _ c' (pre ++ [c]) c' []); [by rewrite Ho, <- app_assoc|done|by right|done].
Qed.
Lemma read_line_at orig r s r' :
  Forall (fun c => c ≠ []) orig → at_piece orig r → read_line r = Ok (s, r') →
  at_piece orig r' ∨ r' = mkReader [] [].
Proof.
  intros Hne Hat Hr. unfold read_line in Hr. destruct (read_until [] (buffered r) (chunks r)) as [l r1] eqn:E.
  destruct (from_utf8 l); [|done]. simplify_eq. destruct Hat as [[Hb Hc]|(pre&c&part&Ho&Hc&Hp)].
  - rewrite Hb in E. destruct (chunks r) as [|c cs].
    { cbn in E. simplify_eq. auto. }
    cbn in E. pose proof (read_until_at orig [] c cs [] c []) as H. rewrite E in H. subst orig.
    inversion Hne; subst. apply H; auto.
  - pose proof (read_until_at orig [] (buffered r) (chunks r) pre c part Ho Hc (or_introl Hp)) as H. rewrite E in H.
    apply H. subst orig. apply Forall_app in Hne as [_ Hne]. by inversion Hne.
Qed.
(** A reader whose remaining bytes are the last pieces of the stream has nothing
    buffered. *)
Lemma at_boundary cs1 cs2 r :
  Forall (fun c => c ≠ []) (cs1 ++ cs2) → at_piece (cs1 ++ cs2) r ∨ r = mkReader [] [] → flat r = concat cs2 →
  chunks r = cs2 ∧ buffered r = [].
Proof.
  intros Hne Hat Hf. unfold flat in Hf.
  assert (Hnil : ∀ l : list bytes, Forall (fun c => c ≠ []) l → (length (concat l) = 0)%nat → l = []).
  { intros [|c l] Hl Hc; [done|]. inversion Hl; subst. cbn in Hc. rewrite length_app in Hc. destruct c; [done|cbn in *; lia]. }
  apply (f_equal length) in Hf. rewrite length_app in Hf.
  assert (Hne2 := proj2 (proj1 (Forall_app _ _ _) Hne)).
  destruct Hat as [[[Hb Hc]|(pre&c&part&Ho&Hc&Hp)]| ->].
  - rewrite Hb, Hc, concat_app, length_app in Hf. apply Forall_app in Hne as [Hne1 _].
    rewrite (Hnil cs1 Hne1) in Hc by (cbn in Hf; lia). by split.
  - assert (0 < length part)%nat by (destruct part; [done|cbn; lia]).
    destruct (app_eq_app _ _ _ _ Ho) as [l [[H1 H2]|[H1 H2]]].
    + destruct l as [|c' l]; cbn in H2.
      * rewrite <- H2 in Hf. cbn in Hf. rewrite length_app, Hc, length_app in Hf. lia.
      * injection H2 as <- H2. rewrite H2, concat_app, length_app in Hf.
        assert (Forall (fun c => c ≠ []) l) as Hl.
        { rewrite H1 in Hne. apply Forall_app in Hne as [Hne _]. apply Forall_app in Hne as [_ Hne]. by inversion Hne. }
        rewrite (Hnil l Hl) in H2 by lia. split; [done|]. apply nil_length_inv. lia.
    + rewrite H2, concat_app in Hf. cbn in Hf. rewrite !length_app, Hc, length_app in Hf. lia.
  - cbn in Hf. by rewrite (Hnil cs2 Hne2) by lia.
Qed.

(** ** Lemmas on lines *)

Definition graphic (a : ascii) : bool := (33 <=? ascii_code a) && (ascii_code a <=? 126).
Lemma graphic_not_ws a : graphic a = true → is_whitespace a = false.
Proof.
  unfold graphic, is_whitespace. intros H. apply andb_true_iff in H as [H1%Z.leb_le H2%Z.leb_le].
  apply orb_false_iff. split; [apply andb_false_iff; right; apply Z.leb_gt; lia|apply Z.eqb_neq; lia].
Qed.

Lemma as_bytes_app s t : as_bytes (s +:+ t) = as_bytes s ++ as_bytes t.
Proof.
  unfold as_bytes, String.list_byte_of_string. induction s as [|a s IH]; [done|]. rewrite app_cons_str. cbn. by rewrite <- IH.
Qed.
Lemma all_chars_app P s t : all_chars P (s +:+ t) = all_chars P s && all_chars P t.
Proof. induction s as [|a s IH]; [done|]. rewrite app_cons_str. cbn. by rewrite IH, andb_assoc. Qed.

(** Text of printable ASCII, possibly with a line end. *)
Definition textual (a : ascii) : bool := (ascii_code a <? 128) && negb (Ascii.eqb a LF).
Lemma ascii_byte a : byte_to_Z (Ascii.byte_of_ascii a) = ascii_code a.
Proof. by destruct a as [[] [] [] [] [] [] [] []]. Qed.
Lemma ascii_bytes s : all_chars (fun a => ascii_code a <? 128) s = true → Forall (fun b => byte_to_Z b < 128) (as_bytes s).
Proof.
  unfold as_bytes, String.list_byte_of_string. induction s as [|a s IH]; intros H; [constructor|].
  cbn in *. apply andb_true_iff in H as [Ha Hs]. constructor; [rewrite ascii_byte; lia|auto].
Qed.
Lemma textual_no_lf s : all_chars textual s = true → no_lf (as_bytes s).
Proof.
  unfold no_lf, as_bytes, String.list_byte_of_string. induction s as [|a s IH]; intros H; [set_solver|].
  cbn in *. apply andb_true_iff in H as [Ha Hs]. apply not_elem_of_cons. split; [|auto].
  intros Heq. unfold textual in Ha. apply andb_true_iff in Ha as [_ Ha]. apply (f_equal Ascii.ascii_of_byte) in Heq.
  rewrite Ascii.ascii_of_byte_of_ascii in Heq. subst a. done.
Qed.
(** A text line as it is on the wire and as [read_line] returns it. *)
Definition wire_line (s : string) : string := s +:+ CRLF_str.
Lemma wire_line_bytes s : as_bytes (wire_line s) = (as_bytes s ++ [Byte.x0d]) ++ [Byte.x0a].
Proof. unfold wire_line. by rewrite as_bytes_app, <- app_assoc. Qed.
Lemma textual_ascii s : all_chars textual s = true → all_chars (fun a => ascii_code a <? 128) s = true.
Proof. apply all_chars_impl. unfold textual. intros a [H _]%andb_true_iff. done. Qed.
Lemma read_wire_line r s rest :
  all_chars textual s = true → flat r = as_bytes (wire_line s) ++ rest →
  ∃ r', read_line r = Ok (wire_line s, r') ∧ flat r' = rest.
Proof.
  intros Hs Hf. rewrite wire_line_bytes, <- (app_assoc _ [Byte.x0a]) in Hf. cbn [app] in Hf.
  eapply (read_line_flat r (as_bytes s ++ [Byte.x0d])); [exact Hf| |].
  - unfold no_lf. rewrite not_elem_of_app. split; [by apply textual_no_lf|set_solver].
  - rewrite <- wire_line_bytes. apply from_utf8_as_bytes. unfold str_ok. apply utf8_valid_ascii, ascii_bytes.
    unfold wire_line. rewrite all_chars_app, textual_ascii by done. done.
Qed.

(** *** Trimming *)

Lemma trim_end_app s t : trim_end (s +:+ t) = if String.eqb (trim_end t) "" then trim_end s else s +:+ trim_end t.
Proof.
  induction s as [|a s IH].
  - change ("" +:+ t) with t. change ("" +:+ trim_end t) with (trim_end t). by destruct (String.eqb_spec (trim_end t) "").
  - rewrite app_cons_str. cbn [trim_end]. rewrite IH. destruct (String.eqb_spec (trim_end t) ""); [done|].
    destruct (s +:+ trim_end t) eqn:E; [|by rewrite app_cons_str, E]. destruct s; cbn in E; [|done]. done.
Qed.
Lemma trim_end_graphic s : all_chars graphic s = true → trim_end s = s.
Proof.
  induction s as [|a s IH]; intros H; [done|]. cbn in *. apply andb_true_iff in H as [Ha Hs]. rewrite IH by done.
  destruct s; [|done]. by rewrite graphic_not_ws.
Qed.
Lemma trim_start_graphic s t : all_chars graphic s = true → s ≠ "" → trim_start (s +:+ t) = s +:+ t.
Proof.
  destruct s as [|a s]; [done|]. intros H _. cbn in H. apply andb_true_iff in H as [Ha _].
  rewrite app_cons_str. cbn [trim_start]. by rewrite graphic_not_ws.
Qed.
Lemma trim_wire_line s : trim (wire_line s) = trim s.
Proof.
  unfold trim, wire_line. induction s as [|a s IH]; [done|]. rewrite app_cons_str. cbn [trim_start].
  destruct (is_whitespace a); [done|]. rewrite <- app_cons_str, trim_end_app. done.
Qed.

(** *** Words *)

Lemma split_ws_word w s :
  all_chars graphic w = true → split_ws_raw (w +:+ " " +:+ s) = w :: split_ws_raw s.
Proof.
  intros Hw. induction w as [|a w IH]; cbn in *.
  - done.
  - apply andb_true_iff in Hw as [Ha Hw]. rewrite app_cons_str. cbn [split_ws_raw]. rewrite graphic_not_ws by done.
    by rewrite IH.
Qed.
Lemma split_ws_last w : all_chars graphic w = true → split_ws_raw w = [w].
Proof.
  induction w as [|a w IH]; intros H; [done|]. cbn in *. apply andb_true_iff in H as [Ha Hw].
  rewrite graphic_not_ws by done. by rewrite IH.
Qed.
Definition word (s : string) : Prop := all_chars graphic s = true ∧ s ≠ "".
Lemma trim_end_word s w : word w → trim_end (s +:+ w) = s +:+ w.
Proof. intros [Hw Nw]. rewrite trim_end_app, trim_end_graphic by done. by destruct (String.eqb_spec w ""). Qed.
(** The three words of a request line. *)
Definition request_line (method url version : string) : string := method +:+ " " +:+ url +:+ " " +:+ version.
Lemma request_line_words m u v :
  word m → word u → word v → split_whitespace (trim (wire_line (request_line m u v))) = [m; u; v].
Proof.
  intros [Hm Nm] [Hu Nu] Hv. rewrite trim_wire_line. unfold trim, request_line.
  rewrite trim_start_graphic by done. rewrite (app_assoc_str u), (app_assoc_str " "), (app_assoc_str m).
  rewrite trim_end_word by done. rewrite <- !app_assoc_str. destruct Hv as [Hv Nv].
  unfold split_whitespace.
  rewrite split_ws_word by done. rewrite split_ws_word by done. rewrite split_ws_last by done.
  rewrite filter_cons_True by done. rewrite filter_cons_True by done. by rewrite filter_cons_True.
Qed.

(** ** Lemmas on the head of a request *)

(** A header line: text that is not blank. *)
Definition header_ok (s : string) : Prop := all_chars textual s = true ∧ trim s ≠ "".
Definition head_bytes (lines : list string) : bytes := concat ((fun s => as_bytes (wire_line s)) <$> lines).
Definition parse_headers (lines : list string) : Headers :=
  foldl (fun h s => add_header (wire_line s) h) (mkHeaders [] None None 0) lines.

Lemma read_headers_spec lines fuel h r rest :
  Forall header_ok lines → flat r = head_bytes lines ++ as_bytes CRLF_str ++ rest → (length lines < fuel)%nat →
  ∃ r', read_headers fuel h r = Some (Ok (foldl (fun h s => add_header (wire_line s) h) h lines, r')) ∧ flat r' = rest.
Proof.
  revert fuel h r. induction lines as [|s lines IH]; intros [|fuel] h r Hok Hf Hfuel; cbn [length] in Hfuel; try lia.
  - destruct (read_wire_line r "" rest) as (r'&Hr&Hr'); [done|exact Hf|]. exists r'. cbn [read_headers]. rewrite Hr. done.
  - inversion Hok as [|? ? [Ht Hn] Hok']; subst. unfold head_bytes in Hf. cbn [fmap list_fmap concat] in Hf.
    rewrite <- app_assoc in Hf. destruct (read_wire_line r s _ Ht Hf) as (r1&Hr&Hr1).
    destruct (IH fuel (add_header (wire_line s) h) r1 Hok' Hr1) as (r'&Hh&Hr'); [lia|].
    exists r'. cbn [read_headers foldl]. rewrite Hr, trim_wire_line.
    destruct (String.eqb_spec (trim s) ""); [done|]. by rewrite Hh.
Qed.
Lemma read_headers_at orig fuel h r h' r' :
  Forall (fun c => c ≠ []) orig → at_piece orig r ∨ r = mkReader [] [] →
  read_headers fuel h r = Some (Ok (h', r')) → at_piece orig r' ∨ r' = mkReader [] [].
Proof.
  intros Hne. revert h r. induction fuel as [|fuel IH]; intros h r Hat Hr; cbn [read_headers] in Hr; [done|].
  destruct (read_line r) as [[line r1]|] eqn:E; [|done].
  assert (at_piece orig r1 ∨ r1 = mkReader [] []) as Hat1.
  { destruct Hat as [Hat| ->]; [by eapply read_line_at|]. cbn in E. simplify_eq. by right. }
  destruct (String.eqb _ _); [by simplify_eq|by eapply IH].
Qed.
Lemma length_head_bytes lines : (length lines <= length (head_bytes lines))%nat.
Proof.
  unfold head_bytes. induction lines as [|s lines IH]; [done|]. cbn. rewrite length_app, wire_line_bytes, !length_app. cbn. lia.
Qed.

(** The loop always ends: a line takes a byte, or the stream is over. *)
Lemma read_headers_total fuel h r : (length (flat r) < fuel)%nat → is_Some (read_headers fuel h r).
Proof.
  revert h r. induction fuel as [|fuel IH]; intros h r Hf; [lia|]. cbn [read_headers].
  destruct (read_line r) as [[line r1]|e] eqn:E; [|by eexists].
  apply read_line_shrinks in E as [Hlt|[-> _]]; [|by eexists].
  destruct (String.eqb _ _); [by eexists|apply IH; lia].
Qed.

Definition request_bytes (m u v : string) (lines : list string) : bytes :=
  as_bytes (wire_line (request_line m u v)) ++ head_bytes lines ++ as_bytes CRLF_str.

Lemma graphic_textual s : all_chars graphic s = true → all_chars textual s = true.
Proof.
  apply all_chars_impl. intros a Ha. unfold graphic, textual in *.
  apply andb_true_iff in Ha as [H1%Z.leb_le H2%Z.leb_le]. apply andb_true_iff. split; [apply Z.ltb_lt; lia|].
  destruct (Ascii.eqb_spec a LF) as [->|]; [|done]. exfalso. vm_compute in H1. by apply H1.
Qed.
Lemma request_line_textual m u v : word m → word u → word v → all_chars textual (request_line m u v) = true.
Proof.
  intros [Hm _] [Hu _] [Hv _]. unfold request_line. rewrite !all_chars_app, (graphic_textual m), (graphic_textual u), (graphic_textual v) by done. done.
Qed.

Section server.
Context `{Base64}.

Lemma handle_request i src stream m u v lines rest :
  Forall (fun c => c ≠ []) stream → word m → word u → word v → Forall header_ok lines →
  concat stream = request_bytes m u v lines ++ rest →
  ∃ r, flat r = rest ∧ (at_piece stream r ∨ r = mkReader [] [])
    ∧ handle i src stream
      = Some (if authenticated i (parse_headers lines) then answer i src m u v (parse_headers lines) r
              else Refused NotAuthenticated (as_bytes auth_required)).
Proof.
  intros Hne Hm Hu Hv Hl Hs. unfold request_bytes in Hs. rewrite <- !app_assoc in Hs.
  destruct (read_wire_line (reader_new stream) (request_line m u v) (head_bytes lines ++ as_bytes CRLF_str ++ rest))
    as (r1&Hr1&Hf1); [by apply request_line_textual|exact Hs|].
  assert (at_piece stream r1 ∨ r1 = mkReader [] []) as Hat1.
  { eapply read_line_at; [done| |exact Hr1]. by left. }
  destruct (read_headers_spec lines (S (length (flat r1))) (mkHeaders [] None None 0) r1 rest Hl Hf1) as (r&Hh&Hf).
  { rewrite Hf1. rewrite length_app. pose proof (length_head_bytes lines) as HL. lia. }
  exists r. split; [done|]. split; [by eapply read_headers_at|].
  unfold handle. rewrite Hr1, request_line_words by done. rewrite Hh. fold (parse_headers lines). by destruct (authenticated _ _).
Qed.

(** Reading a request always ends, whatever a client sends and however it is
    cut: the handler accepts, refuses, or (only on a body length of 2^63 or more)
    panics. *)
Theorem http_handle_total i src stream : ∃ h, handle i src stream = Some h.
Proof.
  unfold handle. destruct (read_line _) as [[l r]|e]; [|by eexists].
  destruct (split_whitespace (trim l)) as [|m [|u [|v ws]]]; try by eexists.
  destruct (read_headers_total (S (length (flat r))) (mkHeaders [] None None 0) r) as [[[h' r']|e] ->]; [lia| |by eexists].
  destruct (authenticated i h'); by eexists.
Qed.
End server.


(** *** Tunnels *)

Definition host_line (target : Address) : string := "Host: " +:+ address_to_string target.
Definition auth_line `{Base64} (u p : string) : string :=
  "Proxy-Authorization: Basic " +:+ b64_encode (as_bytes (u +:+ ":" +:+ p)).
Definition request_lines `{Base64} (o : HttpOutbound) (target : Address) : list string :=
  host_line target :: match username o, password o with Some u, Some p => [auth_line u p] | _, _ => [] end.

Lemma connect_request_bytes `{Base64} o target :
  as_bytes (connect_request o target)
  = request_bytes "CONNECT" (address_to_string target) "HTTP/1.1" (request_lines o target).
Proof.
  unfold connect_request, request_bytes, request_lines, head_bytes, wire_line, request_line, host_line, auth_line.
  destruct (username o) as [u|], (password o) as [p|]; cbn [fmap list_fmap concat];
    rewrite !as_bytes_app, <- ?app_assoc; rewrite ?app_nil_r; try done; rewrite <- ?app_assoc; done.
Qed.

Lemma app_nil_r_str s : s +:+ "" = s.
Proof. induction s as [|a s IH]; [done|]. by rewrite app_cons_str, IH. Qed.

Lemma host_line_header target h :
  proxy_auth (add_header (wire_line (host_line target)) h) = proxy_auth h
  ∧ content_length (add_header (wire_line (host_line target)) h) = content_length h.
Proof. split; reflexivity. Qed.
Lemma b64_graphic s : all_chars b64_char s = true → all_chars graphic s = true.
Proof.
  apply all_chars_impl. intros a. unfold b64_char, graphic. rewrite !orb_true_iff, !andb_true_iff, !Z.leb_le, !Z.eqb_eq. lia.
Qed.
Lemma b64_word `{Base64Laws} b : b ≠ [] → word (b64_encode b).
Proof.
  intros Hb. split; [apply b64_graphic, b64_alphabet|]. intros E. apply Hb.
  pose proof (b64_inverse b) as H1. pose proof (b64_inverse []) as H2. rewrite b64_empty in H2. rewrite E in H1. congruence.
Qed.
Lemma auth_line_header `{Base64Laws} u p h :
  let h' := add_header (wire_line (auth_line u p)) h in
  proxy_auth h' = Some ("Basic " +:+ b64_encode (as_bytes (u +:+ ":" +:+ p))) ∧ content_length h' = content_length h.
Proof.
  assert (header_value "proxy-authorization:" (wire_line (auth_line u p))
          = Some (trim (wire_line (" Basic " +:+ b64_encode (as_bytes (u +:+ ":" +:+ p)))))) as Hv by reflexivity.
  unfold add_header. rewrite Hv. cbn [proxy_auth content_length]. split; [|done]. f_equal. rewrite trim_wire_line.
  unfold trim. change (trim_start (" Basic " +:+ ?s)) with ("Basic " +:+ s). apply trim_end_word, b64_word.
  rewrite as_bytes_app. intros H1. apply app_nil in H1 as [_ H1]. done.
Qed.
Lemma no_colon_split u p : no_char ":" u = true → split_once ":"%char (u +:+ ":" +:+ p) = Some (u, p).
Proof.
  induction u as [|a u IH]; intros Hu; [done|]. cbn in Hu. apply andb_true_iff in Hu as [Ha Hu].
  rewrite app_cons_str. cbn [split_once]. destruct (Ascii.eqb a ":"); [done|]. by rewrite IH.
Qed.

(** The credentials of a client that the server accepts. *)
Definition admits (i : HttpInbound) (o : HttpOutbound) : Prop :=
  auth_users i = []
  ∨ ∃ u p, username o = Some u ∧ password o = Some p ∧ (u, p) ∈ auth_users i ∧ no_char ":" u = true
           ∧ str_ok (u +:+ ":" +:+ p).
Lemma admits_authenticated `{Base64Laws} i o target :
  admits i o → authenticated i (parse_headers (request_lines o target)) = true.
Proof.
  unfold authenticated. intros [-> |(u&p&Hu&Hp&Hin&Hc&Hok)]; [done|]. destruct (auth_users i) as [|x l] eqn:E; [done|].
  unfold request_lines. rewrite Hu, Hp. unfold parse_headers. cbn [foldl].
  rewrite (proj1 (auth_line_header u p _)). unfold verify_basic_auth.
  change (strip_prefix "Basic " ("Basic " +:+ ?s)) with (Some s). cbn beta iota.
  destruct (b64_word (as_bytes (u +:+ ":" +:+ p))) as [Hg Hne].
  { rewrite as_bytes_app. intros H1. apply app_nil in H1 as [_ H1]. done. }
  assert (trim (b64_encode (as_bytes (u +:+ ":" +:+ p))) = b64_encode (as_bytes (u +:+ ":" +:+ p))) as ->.
  { unfold trim. rewrite <- (app_nil_r_str (b64_encode _)) at 1. rewrite trim_start_graphic by done.
    rewrite app_nil_r_str. by apply trim_end_graphic. }
  rewrite b64_inverse, from_utf8_as_bytes, no_colon_split by done. rewrite E. by apply bool_decide_eq_true.
Qed.
Lemma request_lines_ok `{Base64Laws} o target :
  all_chars graphic (address_to_string target) = true → Forall header_ok (request_lines o target).
Proof.
  intros Ht. unfold request_lines. constructor.
  - split.
    + unfold host_line. rewrite all_chars_app, (graphic_textual (address_to_string target)) by done. done.
    + unfold host_line, trim. change (trim_start ("Host: " +:+ ?s)) with ("Host: " +:+ s). rewrite trim_end_app.
      by destruct (String.eqb _ _).
  - destruct (username o) as [u|], (password o) as [p|]; constructor; [|constructor]. split.
    + unfold auth_line. rewrite all_chars_app. apply andb_true_iff. split; [done|]. apply graphic_textual, b64_graphic, b64_alphabet.
    + unfold auth_line, trim. change (trim_start ("Proxy-Authorization: Basic " +:+ ?s)) with ("Proxy-Authorization: Basic " +:+ s).
      rewrite trim_end_app. by destruct (String.eqb _ _).
Qed.

(** The client skips headers the way the server reads them. *)
Lemma skip_headers_read fuel h r :
  skip_headers fuel r
  = match read_headers fuel h r with Some (Ok (_, r')) => Some (Ok r') | Some (Err e) => Some (Err e) | None => None end.
Proof.
  revert h r. induction fuel as [|fuel IH]; intros h r; [done|]. cbn [skip_headers read_headers].
  destruct (read_line r) as [[line r1]|e]; [|done]. destruct (String.eqb _ _); [done|apply IH].
Qed.
(** The client's side of a tunnel that was granted. *)
Lemma connect_response_established rs1 rs2 :
  Forall (fun c => c ≠ []) (rs1 ++ rs2) → concat rs1 = as_bytes established →
  connect_response (rs1 ++ rs2) = Some (Ok (rs2, [])).
Proof.
  intros Hne Hc. unfold connect_response. set (orig := rs1 ++ rs2) in *.
  assert (at_piece orig (reader_new orig)) as Hat by (by left).
  destruct (read_wire_line (reader_new orig) "HTTP/1.1 200 Connection Established" (as_bytes CRLF_str ++ concat rs2))
    as (r1&Hr1&Hf1); [done| |].
  { unfold flat, orig. cbn [buffered chunks reader_new app]. rewrite concat_app, Hc.
    unfold established, wire_line. by rewrite !as_bytes_app, <- !app_assoc. }
  rewrite Hr1. pose proof (read_line_at _ _ _ _ Hne Hat Hr1) as Hat1.
  change (split_whitespace _ !! 1%nat) with (Some "200"). cbn [mbind option_bind].
  change (parse_uint 16 "200") with (Some 200). cbn [negb Z.eqb Pos.eqb].
  rewrite (skip_headers_read _ (mkHeaders [] None None 0)).
  destruct (read_headers_spec [] (S (length (flat r1))) (mkHeaders [] None None 0) r1 (concat rs2)) as (r2&Hr2&Hf2);
    [constructor|exact Hf1|cbn; lia|].
  pose proof (read_headers_at _ _ _ _ _ _ Hne Hat1 Hr2) as Hat2. rewrite Hr2.
  by destruct (at_boundary rs1 rs2 r2 Hne Hat2 Hf2) as [-> ->].
Qed.

Section tunnel.
Context `{Base64Laws} (i : HttpInbound) (o : HttpOutbound) (source : SocketAddr) (target : Address).
Context (Hadm : admits i o) (Hok : addr_ok target) (Hpr : addr_printable target).
Context (Hg : all_chars graphic (address_to_string target) = true).

Definition tunnel_session : Session := mkSession target (Some source) (tag i) Tcp false None.
Lemma address_word : word (address_to_string target).
Proof using Hg Hok Hpr.
  split; [exact Hg|]. intros E. pose proof (parse_target_display target Hok Hpr) as Hp.
  change (to_hysteria2_addr_string target) with (address_to_string target) in Hp. rewrite E in Hp. done.
Qed.
Lemma handle_connect stream rest :
  Forall (fun c => c ≠ []) stream → concat stream = as_bytes (connect_request o target) ++ rest →
  ∃ r, flat r = rest ∧ (at_piece stream r ∨ r = mkReader [] [])
    ∧ handle i source stream = Some (Accepted tunnel_session (as_bytes established) [] (chunks r) (buffered r)).
Proof using All.
  intros Hne Hc. rewrite connect_request_bytes in Hc.
  destruct (handle_request i source stream "CONNECT" (address_to_string target) "HTTP/1.1" (request_lines o target) rest)
    as (r&Hf&Hat&Hh); [done|done|apply address_word|done|by apply request_lines_ok|done|].
  exists r. split; [done|]. split; [done|]. rewrite Hh, admits_authenticated by done. unfold answer.
  change (eq_ignore_ascii_case "CONNECT" "CONNECT") with true. cbv iota. unfold parse_connect_target.
  change (address_to_string target) with (to_hysteria2_addr_string target). by rewrite parse_target_display.
Qed.
End tunnel.

(** A reader that stopped inside a piece holds the rest of that piece. *)
Lemma at_inside cs1 c early cs2 r :
  c ≠ [] → early ≠ [] → at_piece (cs1 ++ (c ++ early) :: cs2) r ∨ r = mkReader [] [] →
  flat r = early ++ concat cs2 → chunks r = cs2 ∧ buffered r = early.
Proof.
  intros Hc He Hat Hf. unfold flat in Hf. assert (Hl := f_equal length Hf). rewrite !length_app in Hl.
  assert (0 < length c)%nat by (destruct c; [done|cbn; lia]).
  assert (0 < length early)%nat by (destruct early; [done|cbn; lia]).
  destruct Hat as [[[Hb Hcs]|(pre&c'&part&Ho&Hc'&Hp)]| ->].
  - rewrite Hb, Hcs, concat_app in Hl. cbn in Hl. rewrite !length_app in Hl. lia.
  - destruct (app_eq_app _ _ _ _ Ho) as [l [[H1 H2]|[H1 H2]]].
    + destruct l as [|x l]; cbn in H2.
      * injection H2 as _ <-. split; [done|]. by apply app_inv_tail in Hf.
      * injection H2 as -> H2. rewrite H2, concat_app in Hl. cbn in Hl. rewrite !length_app in Hl. lia.
    + destruct l as [|x l]; cbn in H2.
      * injection H2 as _ ->. split; [done|]. by apply app_inv_tail in Hf.
      * injection H2 as _ ->. rewrite concat_app in Hl. cbn in Hl. rewrite Hc', !length_app in Hl. lia.
  - cbn in Hl. lia.
Qed.

(** C12: a tunnel request of the HTTP outbound is understood by the HTTP inbound
    however the network cuts it: the session has the target the client asked
    for, whatever follows the request in later reads reaches the tunnel
    untouched, and the client, reading the answer however that is cut, gets back
    exactly the pieces behind it. *)
Theorem http_connect_understood `{Base64Laws} i o source target cs1 cs2 rs1 rs2 :
  admits i o → addr_ok target → addr_printable target → all_chars graphic (address_to_string target) = true →
  Forall (fun c => c ≠ []) (cs1 ++ cs2) → concat cs1 = as_bytes (connect_request o target) →
  Forall (fun c => c ≠ []) (rs1 ++ rs2) → concat rs1 = as_bytes established →
  handle i source (cs1 ++ cs2)
    = Some (Accepted (mkSession target (Some source) (tag i) Tcp false None) (as_bytes established) [] cs2 [])
  ∧ connect_response (rs1 ++ rs2) = Some (Ok (rs2, [])).
Proof.
  intros Hadm Hok Hpr Hg Hne Hc Hrs Hr. split; [|by apply connect_response_established].
  destruct (handle_connect i o source target Hadm Hok Hpr Hg (cs1 ++ cs2) (concat cs2)) as (r&Hf&Hat&->);
    [done|by rewrite concat_app, Hc|].
  by destruct (at_boundary cs1 cs2 r Hne Hat Hf) as [-> ->].
Qed.

(** What arrives in the same read as the end of a tunnel request is read
    into the buffer and dropped with it: the tunnel starts behind it. *)
Theorem http_pipelined_bytes_lost `{Base64Laws} i o source target cs1 c early cs2 :
  admits i o → addr_ok target → addr_printable target → all_chars graphic (address_to_string target) = true →
  Forall (fun c => c ≠ []) (cs1 ++ (c ++ early) :: cs2) → c ≠ [] → early ≠ [] →
  concat cs1 ++ c = as_bytes (connect_request o target) →
  handle i source (cs1 ++ (c ++ early) :: cs2)
  = Some (Accepted (mkSession target (Some source) (tag i) Tcp false None) (as_bytes established) [] cs2 early).
Proof.
  intros Hadm Hok Hpr Hg Hne Hc He Hreq.
  destruct (handle_connect i o source target Hadm Hok Hpr Hg (cs1 ++ (c ++ early) :: cs2) (early ++ concat cs2))
    as (r&Hf&Hat&->); [done| |].
  { rewrite concat_app. cbn [concat]. by rewrite <- Hreq, <- !app_assoc. }
  by destruct (at_inside cs1 c early cs2 r Hc He Hat Hf) as [-> ->].
Qed.

(** *** Instances *)

(** An encoding that meets the laws: a letter for each half of a byte. *)
Definition half_letter (n : nat) : ascii := ascii_of_nat (65 + n).
Definition letters_of (b : Byte.byte) : string :=
  let n := Z.to_nat (byte_to_Z b) in String (half_letter (n / 16)) (String (half_letter (n mod 16)) "").
Fixpoint letters_encode (b : bytes) : string :=
  match b with [] => "" | x :: b => letters_of x +:+ letters_encode b end.
Fixpoint letters_decode (s : string) : option bytes :=
  match s with
  | "" => Some []
  | String a (String c s) =>
      rest ← letters_decode s; Some (byte_of_Z ((ascii_code a - 65) * 16 + (ascii_code c - 65)) :: rest)
  | _ => None
  end.
Local Instance letters : Base64 := {| b64_encode := letters_encode; b64_decode := letters_decode |}.
Lemma letters_inverse b : letters_decode (letters_encode b) = Some b.
Proof.
  induction b as [|x b IH]; [done|]. cbn [letters_encode].
  change (letters_of x +:+ letters_encode b)
    with (String (half_letter (Z.to_nat (byte_to_Z x) / 16)) (String (half_letter (Z.to_nat (byte_to_Z x) mod 16)) (letters_encode b))).
  cbn [letters_decode]. rewrite IH. cbn [mbind option_bind]. do 2 f_equal. by destruct x.
Qed.
Lemma letters_alphabet b : all_chars b64_char (letters_encode b) = true.
Proof. induction b as [|x b IH]; [done|]. cbn [letters_encode]. rewrite all_chars_app, IH. by destruct x. Qed.
Local Instance letters_laws : Base64Laws.
Proof. split; [apply letters_inverse|done|apply letters_alphabet]. Qed.
Definition sample_http : HttpInbound := mkHttpInbound "http-in" [("alice", "secret")].
Definition sample_http_client : HttpOutbound := mkHttpOutbound (Some "alice") (Some "secret").
Definition sample_http_target : Address := Domain "example.com" 443.
Definition sample_http_source : SocketAddr := SockV4 2130706433 50000.
Lemma sample_admits : admits sample_http sample_http_client.
Proof. right. exists "alice", "secret". split_and!; try done. apply list_elem_of_here. Qed.
Definition sample_connect : bytes := Eval vm_compute in as_bytes (connect_request sample_http_client sample_http_target).

Lemma http_connect_understood_witness :
  handle sample_http sample_http_source [take 20 sample_connect; drop 20 sample_connect; [Byte.x16]]
  = Some (Accepted (mkSession sample_http_target (Some sample_http_source) "http-in" Tcp false None)
            (as_bytes established) [] [[Byte.x16]] []).
Proof.
  refine (proj1 (http_connect_understood sample_http sample_http_client sample_http_source sample_http_target
            [take 20 sample_connect; drop 20 sample_connect] [[Byte.x16]] [as_bytes established] []
            sample_admits _ _ _ _ _ _ _));
    first [done | by repeat constructor | vm_compute; repeat constructor; done | by vm_compute].
Defined.
Lemma http_pipelined_bytes_lost_witness :
  handle sample_http sample_http_source [sample_connect ++ [Byte.x16; Byte.x03]; [Byte.x01]]
  = Some (Accepted (mkSession sample_http_target (Some sample_http_source) "http-in" Tcp false None)
            (as_bytes established) [] [[Byte.x01]] [Byte.x16; Byte.x03]).
Proof.
  refine (http_pipelined_bytes_lost sample_http sample_http_client sample_http_source sample_http_target
            [] sample_connect [Byte.x16; Byte.x03] [[Byte.x01]] sample_admits _ _ _ _ _ _ _);
    first [done | by repeat constructor | vm_compute; repeat constructor; done | by vm_compute].
Defined.
