(* ===== verification/Subscription.v ===== *)
(** * Subscriptions and share links ([src/src/config/subscription.rs])

    The links of the proxy protocols, read and written; the documents of Clash,
    sing-box and SIP008; the detection of the format.  Text of JSON and YAML is read
    by third-party parsers into a [Value]; Base64 is third-party too: both are fields
    of the class [Codecs].  Reading a document of the program's own format is an
    argument of [parse_subscription]. *)

From Stdlib Require Import Ascii.
From coqutil Require Import Datatypes.RecordSetters.
From S2P Require Import Prelude RustStr IpText HostPort Http Config.
Import DoubleBraceUpdate.

Local Open Scope string_scope.
Local Open Scope list_scope.
Local Open Scope Z_scope.

(** ** Documents

    [serde_json::Value] and [serde_yml::Value]; [VOther] is a number that is no
    [u64]. *)
Inductive Value :=
| VNull
| VBool (b : bool)
| VNum (n : Z)
| VOther
| VStr (s : string)
| VSeq (l : list Value)
| VMap (l : list (string * Value)).

Definition get (k : string) (v : Value) : option Value :=
  match v with VMap l => snd <$> List.find (fun p => String.eqb p.1 k) l | _ => None end.
(** [v[k]]: null where there is nothing. *)
Definition index (k : string) (v : Value) : Value := default VNull (get k v).
Definition as_str (v : Value) : option string := match v with VStr s => Some s | _ => None end.
Definition as_u64 (v : Value) : option Z := match v with VNum n => Some n | _ => None end.
Definition as_bool (v : Value) : option bool := match v with VBool b => Some b | _ => None end.
Definition as_seq (v : Value) : option (list Value) := match v with VSeq l => Some l | _ => None end.
Definition is_object (v : Value) : bool := match v with VMap _ => true | _ => false end.
Definition or {A} (a b : option A) : option A := match a with Some _ => a | None => b end.

Record Sip008Server := mkSip008 { sip_server : string; sip_port : Z; sip_password : string; sip_method : string; remarks : option string }.

(** The standard Base64 is that of [Http]. *)
Class Codecs := {
  b64_url_safe_no_pad : string → option bytes;
  b64_standard_no_pad : string → option bytes;
  json_to_string : Value → string;
  from_json : string → option Value;
  from_yaml : string → option Value;
  sip008_from_json : string → option (list Sip008Server)
}.

(** ** Percent encoding *)

Definition hex_value (b : byte) : option Z :=
  let n := byte_to_Z b in
  if (48 <=? n) && (n <=? 57) then Some (n - 48)
  else if (65 <=? n) && (n <=? 70) then Some (n - 55)
  else if (97 <=? n) && (n <=? 102) then Some (n - 87)
  else None.
(** [u8::from_str_radix] of two characters takes a plus sign first. *)
Definition from_hex (hi lo : byte) : option byte :=
  if byte_to_Z hi =? 43 then byte_of_Z <$> hex_value lo
  else h ← hex_value hi; l ← hex_value lo; Some (byte_of_Z (h * 16 + l)).
Fixpoint url_decode_loop (l : bytes) : option bytes :=
  match l with
  | [] => Some []
  | b :: l =>
      if byte_to_Z b =? 37 then
        match l with
        | hi :: lo :: l => c ← from_hex hi lo; r ← url_decode_loop l; Some (c :: r)
        | _ => None
        end
      else r ← url_decode_loop l; Some ((if byte_to_Z b =? 43 then Byte.x20 else b) :: r)
  end.
Definition url_decode (s : string) : option string :=
  if RustStr.contains "%" s then b ← url_decode_loop (as_bytes s); from_utf8 b else Some s.
Definition decoded (s : string) : string := default s (url_decode s).

(** [str::chars]: the code points. *)
Definition code_point (l : bytes) : Z :=
  match byte_to_Z <$> l with
  | [a] => a
  | [a; b] => Z.land a 31 * 64 + Z.land b 63
  | [a; b; c] => (Z.land a 15 * 64 + Z.land b 63) * 64 + Z.land c 63
  | [a; b; c; d] => ((Z.land a 7 * 64 + Z.land b 63) * 64 + Z.land c 63) * 64 + Z.land d 63
  | _ => 0
  end.
Fixpoint chars_fuel (fuel : nat) (l : bytes) : list Z :=
  match l, fuel with
  | b :: rest, S fuel => let n := fst (utf8_next b rest) in code_point (take n l) :: chars_fuel fuel (drop n l)
  | _, _ => []
  end.
Definition chars (s : string) : list Z := chars_fuel (String.length s) (as_bytes s).
Definition hex_digit (n : Z) : ascii := ascii_of_N (Z.to_N (if n <? 10 then 48 + n else 55 + n)).
Definition unreserved (c : Z) : bool :=
  ((65 <=? c) && (c <=? 90)) || ((97 <=? c) && (c <=? 122)) || ((48 <=? c) && (c <=? 57))
  || (c =? 45) || (c =? 95) || (c =? 46) || (c =? 126).
Definition encode_char (c : Z) : string :=
  if unreserved c then String (ascii_of_N (Z.to_N c)) ""
  else let b := wrap 8 c in String "%"%char (String (hex_digit (b / 16)) (String (hex_digit (b mod 16)) "")).
Definition urlencoding_encode (s : string) : string := foldr (fun c r => encode_char c +:+ r) "" (chars s).

(** ** Parts of links *)

Definition parse_host_port (s : string) : result string (string * string) :=
  match strip_prefix "[" s with
  | Some rest =>
      match split_once "]"%char rest with
      | None => Err "invalid IPv6 address"
      | Some (host, after) =>
          match strip_prefix ":" after with Some p => Ok (host, p) | None => Err "missing port after IPv6" end
      end
  | None => match rsplit_once ":"%char s with Some (h, p) => Ok (h, p) | None => Err ("missing port in: " +:+ s) end
  end.
Definition parse_u16 (s : string) : result string Z := match parse_uint 16 s with Some n => Ok n | None => Err "invalid port" end.
(** [parse_host_port(..)?] and the port. *)
Definition endpoint (s : string) : result string (string * Z) :=
  let? '(host, port_str) := parse_host_port s in
  let? port := parse_u16 port_str in
  Ok (host, port).
Definition add_param (m : gmap string string) (pair : string) : gmap string string :=
  match split_once "="%char pair with Some (k, v) => <[decoded k := decoded v]> m | None => m end.
Definition parse_query_params (s : string) : gmap string string :=
  if String.eqb s "" then ∅ else foldl add_param ∅ (split_on "&"%char s).
Definition with_tag (rest dflt : string) : string * string :=
  let '(main, tag) := default (rest, dflt) (rsplit_once "#"%char rest) in (main, decoded tag).
Definition with_query (s : string) : string * string := default (s, "") (split_once "?"%char s).
Definition missing {A} (why : string) (o : option A) : result string A := match o with Some a => Ok a | None => Err why end.
Definition split_comma (s : string) : list string := split_on ","%char s.

Definition extract_transport_from_params (params : gmap string string) : option TransportConfig :=
  let t := default "tcp" (params !! "type") in
  if String.eqb t "tcp" || String.eqb t "none" || String.eqb t "" then None
  else Some (transport_default {{ transport_type := t; tc_path := params !! "path"; tc_host := params !! "host";
                                  tc_service_name := if String.eqb t "grpc" then params !! "serviceName" else None }}).
Definition extract_tls_from_params (params : gmap string string) (sni : option string) : option TlsConfig :=
  let sec := default "" (params !! "security") in
  if String.eqb sec "" || String.eqb sec "none" then None
  else Some (tls_default {{ tls_enabled := true; tls_security := sec; tls_sni := sni; tls_fingerprint := params !! "fp";
                            tls_public_key := params !! "pbk"; tls_short_id := params !! "sid";
                            tls_server_name := params !! "serverName" }}).

(** ** Reading links *)

Section links.
Context `{Base64} `{Codecs}.

Definition decode_base64_content (content : string) : option string :=
  let clean := String.string_of_list_ascii (List.filter (fun a => negb (is_whitespace a)) (String.list_ascii_of_string content)) in
  b ← or (b64_decode clean) (or (b64_url_safe_no_pad clean) (b64_standard_no_pad clean));
  from_utf8 b.

(** A number, or its decimal digits in a string. *)
Definition u64_or_text (v : Value) : option Z := or (as_u64 v) (s ← as_str v; parse_uint 64 s).
Definition parse_vmess_uri (encoded : string) : result string OutboundConfig :=
  let? json_bytes := missing "base64" (or (b64_decode (trim encoded)) (b64_url_safe_no_pad (trim encoded))) in
  let? json_str := missing "utf8" (from_utf8 json_bytes) in
  let? v := missing "json" (from_json json_str) in
  let str k := as_str (index k v) in
  let sni' := or (str "sni") (str "host") in
  let security' := if bool_decide (str "tls" = Some "tls") then Some "tls" else None in
  let net := default "tcp" (str "net") in
  let transport' :=
    if String.eqb net "tcp" then None
    else Some (transport_default {{ transport_type := net; tc_path := str "path"; tc_host := str "host";
                                    tc_service_name := if String.eqb net "grpc" then str "path" else None }}) in
  let tls' := if bool_decide (security' = Some "tls")
              then Some (tls_default {{ tls_enabled := true; tls_security := "tls"; tls_sni := sni' }}) else None in
  Ok (mkOutbound (default "vmess" (str "ps")) "vmess"
        (settings_default {{ address := Some (default "" (str "add")); port := Some (wrap 16 (default 443 (u64_or_text (index "port" v))));
                             uuid := Some (default "" (str "id")); alter_id := Some (wrap 16 (default 0 (u64_or_text (index "aid" v))));
                             sni := sni'; security := security'; transport := transport'; tls := tls' }})).

Definition parse_vless_uri (rest : string) : result string OutboundConfig :=
  let '(main, tag) := with_tag rest "vless" in
  let? '(userinfo, host_params) := missing "vless: missing @" (split_once "@"%char main) in
  let '(host_port, params_str) := with_query host_params in
  let? '(host, port') := endpoint host_port in
  let params := parse_query_params params_str in
  let sni' := params !! "sni" in
  Ok (mkOutbound tag "vless"
        (settings_default {{ address := Some host; port := Some port'; uuid := Some userinfo; sni := sni'; security := params !! "security";
                             flow := params !! "flow"; fingerprint := params !! "fp"; public_key := params !! "pbk"; short_id := params !! "sid";
                             server_name := or (params !! "serverName") (params !! "sni");
                             transport := extract_transport_from_params params; tls := extract_tls_from_params params sni' }})).

Definition ss_outbound (tag host : string) (port' : Z) (method' password' : string) : OutboundConfig :=
  mkOutbound tag "shadowsocks"
    (settings_default {{ address := Some host; port := Some port'; method := Some method'; password := Some password' }}).
Definition parse_ss_uri (rest : string) : result string OutboundConfig :=
  let '(main, tag) := with_tag rest "ss" in
  match split_once "@"%char main with
  | Some (encoded_part, host_part) =>
      let plain := default encoded_part (decode_base64_content encoded_part) in
      let? '(method', password') := missing "ss: invalid method:password" (split_once ":"%char plain) in
      let? '(host, port') := endpoint host_part in
      Ok (ss_outbound tag host port' method' password')
  | None =>
      let? plain := missing "base64" (decode_base64_content main) in
      let? '(method_pass, host_port) := missing "ss: invalid format" (rsplit_once "@"%char plain) in
      let? '(method', password') := missing "ss: invalid method:password" (split_once ":"%char method_pass) in
      let? '(host, port') := endpoint host_port in
      Ok (ss_outbound tag host port' method' password')
  end.

Definition parse_trojan_uri (rest : string) : result string OutboundConfig :=
  let '(main, tag) := with_tag rest "trojan" in
  let? '(pw, host_params) := missing "trojan: missing @" (split_once "@"%char main) in
  let '(host_port, params_str) := with_query host_params in
  let? '(host, port') := endpoint host_port in
  let params := parse_query_params params_str in
  let sni' := or (params !! "sni") (Some host) in
  Ok (mkOutbound tag "trojan"
        (settings_default {{ address := Some host; port := Some port'; password := Some (decoded pw); sni := sni'; security := Some "tls";
                             transport := extract_transport_from_params params; tls := extract_tls_from_params params sni' }})).

Definition parse_hy2_uri (rest : string) : result string OutboundConfig :=
  let '(main, tag) := with_tag rest "hy2" in
  let? '(pw, host_params) := missing "hy2: missing @" (split_once "@"%char main) in
  let '(host_port, params_str) := with_query host_params in
  let? '(host, port') := endpoint host_port in
  let params := parse_query_params params_str in
  Ok (mkOutbound tag "hysteria2"
        (settings_default {{ address := Some host; port := Some port'; password := Some pw; sni := params !! "sni";
                             allow_insecure := bool_decide (params !! "insecure" = Some "1") }})).

Definition is_true (o : option string) : bool := bool_decide (o = Some "1") || bool_decide (o = Some "true").
Definition quic_tls (sni' alpn' : option string) (insecure : bool) : TlsConfig :=
  tls_default {{ tls_enabled := true; tls_security := "tls"; tls_sni := sni'; tls_alpn := split_comma <$> alpn'; tls_allow_insecure := insecure }}.
Definition parse_tuic_uri (rest : string) : result string OutboundConfig :=
  let '(main, tag) := with_tag rest "tuic" in
  let? '(userinfo, host_params) := missing "tuic: missing @" (split_once "@"%char main) in
  let? '(uuid', password') := missing "tuic: missing password after uuid" (split_once ":"%char userinfo) in
  let '(host_port, params_str) := with_query host_params in
  let? '(host, port') := endpoint host_port in
  let params := parse_query_params params_str in
  let sni' := params !! "sni" in
  Ok (mkOutbound tag "tuic"
        (settings_default {{ address := Some host; port := Some port'; uuid := Some uuid'; password := Some password';
                             congestion_control := or (params !! "congestion_control") (params !! "congestion-controller");
                             sni := sni'; security := Some "tls";
                             tls := Some (quic_tls sni' (params !! "alpn") (is_true (or (params !! "insecure") (params !! "allowInsecure")))) }})).

Definition parse_wg_uri (rest : string) : result string OutboundConfig :=
  let '(main, tag) := with_tag rest "wireguard" in
  let? '(key, host_params) := missing "wg: missing @" (split_once "@"%char main) in
  let '(host_port, params_str) := with_query host_params in
  let? '(host, port') := endpoint host_port in
  let params := parse_query_params params_str in
  Ok (mkOutbound tag "wireguard"
        (settings_default {{ address := Some host; port := Some port'; private_key := Some (decoded key);
                             peer_public_key := or (params !! "publickey") (params !! "public-key");
                             preshared_key := or (params !! "presharedkey") (params !! "pre-shared-key");
                             local_address := or (params !! "address") (params !! "ip");
                             mtu := v ← params !! "mtu"; parse_uint 16 v; keepalive := v ← params !! "keepalive"; parse_uint 16 v }})).

Definition parse_ssh_uri (rest : string) : result string OutboundConfig :=
  let '(main, tag) := with_tag rest "ssh" in
  let? '(userinfo, host_port) := missing "ssh: missing @" (split_once "@"%char main) in
  let '(user, pw) := default (userinfo, "") (split_once ":"%char userinfo) in
  let? '(host, port') := endpoint host_port in
  let pw := decoded pw in
  Ok (mkOutbound tag "ssh"
        (settings_default {{ address := Some host; port := Some port'; username := Some (decoded user);
                             password := if String.eqb pw "" then None else Some pw }})).

Definition parse_hy1_uri (rest : string) : result string OutboundConfig :=
  let '(main, tag) := with_tag rest "hysteria" in
  let '(host_port, params_str) := with_query main in
  let? '(host, port') := endpoint host_port in
  let params := parse_query_params params_str in
  let sni' := or (params !! "sni") (params !! "peer") in
  Ok (mkOutbound tag "hysteria"
        (settings_default {{ address := Some host; port := Some port'; password := or (params !! "auth") (params !! "auth_str");
                             sni := sni'; obfs := params !! "obfs"; obfs_password := or (params !! "obfsParam") (params !! "obfs-password");
                             up_mbps := v ← or (params !! "upmbps") (params !! "up"); parse_uint 64 v;
                             down_mbps := v ← or (params !! "downmbps") (params !! "down"); parse_uint 64 v;
                             tls := Some (quic_tls sni' (params !! "alpn") (is_true (params !! "insecure"))) }})).

(** [split(pat).next()] *)
Fixpoint before (pat s : string) : string :=
  if starts_with pat s then "" else match s with "" => "" | String a t => String a (before pat t) end.
Definition parse_proxy_uri (uri : string) : result string OutboundConfig :=
  let uri := trim uri in
  let strip p := strip_prefix p uri in
  match strip "vmess://", strip "vless://", strip "ss://", strip "trojan://", or (strip "hysteria2://") (strip "hy2://"), strip "tuic://",
        or (strip "wg://") (strip "wireguard://"), strip "ssh://", strip "hysteria://" with
  | Some rest, _, _, _, _, _, _, _, _ => parse_vmess_uri rest
  | _, Some rest, _, _, _, _, _, _, _ => parse_vless_uri rest
  | _, _, Some rest, _, _, _, _, _, _ => parse_ss_uri rest
  | _, _, _, Some rest, _, _, _, _, _ => parse_trojan_uri rest
  | _, _, _, _, Some rest, _, _, _, _ => parse_hy2_uri rest
  | _, _, _, _, _, Some rest, _, _, _ => parse_tuic_uri rest
  | _, _, _, _, _, _, Some rest, _, _ => parse_wg_uri rest
  | _, _, _, _, _, _, _, Some rest, _ => parse_ssh_uri rest
  | _, _, _, _, _, _, _, _, Some rest => parse_hy1_uri rest
  | _, _, _, _, _, _, _, _, _ => Err ("unsupported proxy URI scheme: " +:+ before "://" uri)
  end.
Definition ok {E A} (r : result E A) : option A := match r with Ok a => Some a | Err _ => None end.
Definition uri_line (line : string) : option OutboundConfig :=
  let line := trim line in
  if String.eqb line "" || starts_with "#" line then None else ok (parse_proxy_uri line).
Definition parse_uri_list (content : string) : result string (list OutboundConfig) :=
  match omap uri_line (lines content) with
  | [] => Err "no valid proxy URIs found"
  | configs => Ok configs
  end.

(** ** Documents *)

Definition clash_protocol (proto : string) : option string :=
  if String.eqb proto "vmess" then Some "vmess"
  else if String.eqb proto "vless" then Some "vless"
  else if String.eqb proto "ss" || String.eqb proto "shadowsocks" then Some "shadowsocks"
  else if String.eqb proto "trojan" then Some "trojan"
  else if String.eqb proto "hysteria2" || String.eqb proto "hy2" then Some "hysteria2"
  else if String.eqb proto "hysteria" then Some "hysteria"
  else if String.eqb proto "wireguard" || String.eqb proto "wg" then Some "wireguard"
  else if String.eqb proto "tuic" then Some "tuic"
  else if String.eqb proto "ssh" then Some "ssh"
  else None.
Definition strings (v : Value) : option (list string) := match as_seq v with Some l => Some (omap as_str l) | None => None end.
Definition first_str (v : Value) : option string := l ← as_seq v; x ← head l; as_str x.
Definition clash_transport (v : Value) : option TransportConfig :=
  let network := default "tcp" (as_str (index "network" v)) in
  if String.eqb network "tcp" then None
  else
    let '(path, host, service) :=
      if String.eqb network "ws" then
        match or (get "ws-opts" v) (get "ws-opt" v) with
        | Some opts => (as_str (index "path" opts), as_str (index "Host" (index "headers" opts)), None)
        | None => (None, None, None)
        end
      else if String.eqb network "grpc" then
        match or (get "grpc-opts" v) (get "grpc-opt" v) with
        | Some opts => (None, None, as_str (index "grpc-service-name" opts))
        | None => (None, None, None)
        end
      else if String.eqb network "h2" then
        match or (get "h2-opts" v) (get "h2-opt" v) with
        | Some opts => (as_str (index "path" opts), first_str (index "host" opts), None)
        | None => (None, None, None)
        end
      else if String.eqb network "http" then
        match get "http-opts" v with
        | Some opts => (first_str (index "path" opts), first_str (index "Host" (index "headers" opts)), None)
        | None => (None, None, None)
        end
      else (None, None, None) in
    Some (transport_default {{ transport_type := network; tc_path := path; tc_host := host; tc_service_name := service }}).
Definition parse_clash_proxy (v : Value) : option OutboundConfig :=
  let str k := as_str (index k v) in
  let num k := as_u64 (index k v) in
  name ← str "name";
  proto ← str "type";
  server ← str "server";
  port' ← num "port";
  protocol ← clash_protocol proto;
  let sni' := or (str "sni") (str "servername") in
  let insecure := default false (as_bool (index "skip-cert-verify" v)) in
  let enabled := default false (as_bool (index "tls" v)) || String.eqb protocol "trojan" || String.eqb protocol "vless" in
  Some (mkOutbound name protocol
    (settings_default {{ address := Some server; port := Some (wrap 16 port'); uuid := str "uuid"; password := str "password";
       method := or (str "cipher") (str "method"); sni := sni'; allow_insecure := insecure; flow := str "flow";
       alter_id := wrap 16 <$> num "alterId"; up_mbps := or (num "up") (num "up_mbps"); down_mbps := or (num "down") (num "down_mbps");
       transport := clash_transport v;
       tls := if enabled then Some (tls_default {{ tls_enabled := true; tls_security := "tls"; tls_sni := sni';
                 tls_allow_insecure := insecure; tls_fingerprint := str "client-fingerprint" }}) else None;
       private_key := str "private-key"; peer_public_key := str "public-key"; local_address := str "ip";
       mtu := wrap 16 <$> num "mtu"; congestion_control := str "congestion-controller"; username := str "username" }})).
Definition parse_clash_yaml (content : string) : result string (list OutboundConfig) :=
  let? yaml := missing "yaml" (from_yaml content) in
  let? proxies := missing "clash YAML: missing proxies array" (as_seq (index "proxies" yaml)) in
  Ok (omap parse_clash_proxy proxies).

Definition singbox_skipped (ob_type : string) : bool := bool_decide (ob_type ∈ ["direct"; "block"; "dns"; "selector"; "urltest"]).
Definition singbox_protocol (ob_type : string) : string :=
  if String.eqb ob_type "ss" then "shadowsocks"
  else if String.eqb ob_type "hy2" then "hysteria2"
  else if String.eqb ob_type "wg" then "wireguard"
  else ob_type.
Definition singbox_tls (t : Value) (sni' : option string) (insecure : bool) : TlsConfig :=
  let reality := index "reality" t in
  tls_default {{ tls_enabled := true;
    tls_security := if default false (as_bool (index "enabled" reality)) then "reality" else "tls";
    tls_sni := sni'; tls_allow_insecure := insecure; tls_fingerprint := as_str (index "fingerprint" (index "utls" t));
    tls_alpn := strings (index "alpn" t);
    tls_public_key := as_str (index "public_key" reality); tls_short_id := as_str (index "short_id" reality) }}.
Definition singbox_transport (t : Value) : option TransportConfig :=
  if is_object t then
    let ty := default "tcp" (as_str (index "type" t)) in
    if String.eqb ty "tcp" then None
    else Some (transport_default {{ transport_type := ty; tc_path := as_str (index "path" t);
                 tc_host := or (as_str (index "host" t)) (as_str (index "Host" (index "headers" t)));
                 tc_service_name := as_str (index "service_name" t) }})
  else None.
Definition singbox_outbound (ob : Value) : option OutboundConfig :=
  let str k := as_str (index k ob) in
  let ob_type := default "" (str "type") in
  if singbox_skipped ob_type then None
  else
    let t := index "tls" ob in
    let sni' := as_str (index "server_name" t) in
    let insecure := default false (as_bool (index "insecure" t)) in
    let enabled := default false (as_bool (index "enabled" t)) in
    Some (mkOutbound (default "" (str "tag")) (singbox_protocol ob_type)
      (settings_default {{ address := str "server"; port := wrap 16 <$> as_u64 (index "server_port" ob); uuid := str "uuid";
         password := str "password"; method := str "method"; sni := sni'; security := if enabled then Some "tls" else None;
         allow_insecure := insecure; flow := str "flow"; transport := singbox_transport (index "transport" ob);
         tls := if enabled then Some (singbox_tls t sni' insecure) else None }})).
Definition parse_singbox_json (content : string) : result string (list OutboundConfig) :=
  let? v := missing "json" (from_json content) in
  let? outbounds := missing "sing-box: missing outbounds" (as_seq (index "outbounds" v)) in
  Ok (omap singbox_outbound outbounds).

Definition sip008_outbound (i : nat) (s : Sip008Server) : OutboundConfig :=
  ss_outbound (default ("ss-" +:+ uint_to_string (Z.of_nat i)) (remarks s)) (sip_server s) (sip_port s) (sip_method s) (sip_password s).
Definition parse_sip008_json (content : string) : result string (list OutboundConfig) :=
  let? servers := missing "json" (sip008_from_json content) in
  Ok (imap sip008_outbound servers).

(** ** The format *)

(** [zenone::parser::is_zenone] *)
Definition is_zenone (content : string) : bool :=
  let trimmed := trim content in
  if starts_with "{" trimmed then RustStr.contains (String (ascii_of_nat 34) ("zen-version" +:+ String (ascii_of_nat 34) "")) trimmed
  else RustStr.contains "zen-version:" trimmed.
Definition nonempty {E A} (r : result E (list A)) : option (list A) := match r with Ok (_ :: _ as l) => Some l | _ => None end.
Definition when {A} (b : bool) (o : option A) : option A := if b then o else None.
Definition parse_subscription (parse_zenone_subscription : string → result string (list OutboundConfig)) (content : string)
  : result string (list OutboundConfig) :=
  let content := trim content in
  let json := starts_with "{" content || starts_with "[" content in
  missing "unable to detect subscription format"
    (or (when (is_zenone content) (nonempty (parse_zenone_subscription content)))
    (or (when json (or (nonempty (parse_sip008_json content)) (ok (parse_singbox_json content))))
    (or (when (RustStr.contains "proxies:" content || starts_with "---" content) (ok (parse_clash_yaml content)))
    (or (plain ← decode_base64_content content; nonempty (parse_uri_list plain))
        (when (RustStr.contains "://" content) (ok (parse_uri_list content))))))).

Inductive SubFormat := ClashYaml | SingBoxJson | Base64Format | UriList | Unknown.
Definition is_b64ish (a : ascii) : bool :=
  let n := ascii_code a in
  ((48 <=? n) && (n <=? 57)) || ((65 <=? n) && (n <=? 90)) || ((97 <=? n) && (n <=? 122)) || (n =? 43) || (n =? 47) || (n =? 61).
Definition detect_format (content : string) : SubFormat :=
  let content := trim content in
  if starts_with "{" content || starts_with "[" content then SingBoxJson
  else if RustStr.contains "proxies:" content || starts_with "---" content then ClashYaml
  else if RustStr.contains "://" content then UriList
  else
    let clean := List.filter (fun a => negb (is_whitespace a)) (String.list_ascii_of_string content) in
    if forallb is_b64ish clean && (20 <? Z.of_nat (length clean)) then Base64Format else Unknown.

(** ** Nodes *)

Record ProxyNode := mkNode { n_name : string; n_protocol : string; n_address : string; n_port : Z; n_settings : gmap string string }.
Definition to_outbound_tag (n : ProxyNode) : string := n_name n.
Definition put (ks : list string) (o : option string) (m : gmap string string) : gmap string string :=
  match o with Some v => foldl (fun m k => <[k := v]> m) m ks | None => m end.
Definition from_outbound_config (config : OutboundConfig) : ProxyNode :=
  let s := o_settings config in
  mkNode (o_tag config) (o_protocol config) (default "" (address s)) (default 0 (port s))
    (put ["plugin_opts"] (plugin_opts s) (put ["plugin"] (plugin s) (put ["alter_id"] (uint_to_string <$> alter_id s)
    (put ["flow"] (flow s) (put ["security"] (security s) (put ["sni"] (sni s) (put ["method"; "cipher"] (method s)
    (put ["password"] (password s) (put ["uuid"] (uuid s) ∅))))))))).
Definition nodes (r : result string (list OutboundConfig)) : result string (list ProxyNode) :=
  let? configs := r in Ok (from_outbound_config <$> configs).
Definition parse_clash_yaml_nodes (content : string) : result string (list ProxyNode) := nodes (parse_clash_yaml content).
Definition parse_singbox_json_nodes (content : string) : result string (list ProxyNode) := nodes (parse_singbox_json content).
Definition parse_base64 (content : string) : result string (list ProxyNode) :=
  let? plain := missing "base64" (decode_base64_content content) in nodes (parse_uri_list plain).
Definition parse_proxy_link (line : string) : option ProxyNode := from_outbound_config <$> ok (parse_proxy_uri line).

(** ** Writing links *)

(** [format!("k={}", v)] of a field that is there. *)
Definition param (k : string) (o : option string) : list (string * string) := match o with Some v => [(k, v)] | None => [] end.
Definition query_text (params : list (string * string)) : string := join_on "&"%char ((fun p => p.1 +:+ "=" +:+ p.2) <$> params).
Definition query_of (params : list (string * string)) : string :=
  match params with [] => "" | _ => "?" +:+ query_text params end.
Definition colon_port (addr : string) (port' : Z) : string := addr +:+ ":" +:+ uint_to_string port'.

Definition vmess_json (ob : OutboundConfig) : Value :=
  let s := o_settings ob in
  VMap ([("v", VStr "2"); ("ps", VStr (o_tag ob)); ("add", VStr (default "" (address s))); ("port", VNum (default 443 (port s)));
         ("id", VStr (default "" (uuid s))); ("aid", VNum (default 0 (alter_id s)));
         ("net", VStr (match transport s with Some t => transport_type t | None => "tcp" end)); ("type", VStr "");
         ("host", VStr (default "" (t ← transport s; tc_host t))); ("path", VStr (default "" (t ← transport s; tc_path t)));
         ("tls", VStr (if match tls s with Some t => tls_enabled t | None => false end then "tls" else ""))]
        ++ match (t ← tls s; tls_sni t) with Some sni' => [("sni", VStr sni')] | None => [] end).
Definition encode_vmess_uri (ob : OutboundConfig) : string := "vmess://" +:+ b64_encode (as_bytes (json_to_string (vmess_json ob))).

Definition vless_params (s : OutboundSettings) : list (string * string) :=
  match tls s with
  | Some t =>
      (if String.eqb (tls_security t) "" then [] else [("security", tls_security t)]) ++ param "sni" (tls_sni t)
      ++ param "fp" (tls_fingerprint t) ++ param "pbk" (tls_public_key t) ++ param "sid" (tls_short_id t)
  | None => []
  end ++ param "flow" (flow s)
  ++ match transport s with
     | Some t => [("type", transport_type t)] ++ param "path" (tc_path t) ++ param "host" (tc_host t)
     | None => []
     end.
Definition encode_vless_uri (ob : OutboundConfig) : string :=
  let s := o_settings ob in
  "vless://" +:+ default "" (uuid s) +:+ "@" +:+ colon_port (default "" (address s)) (default 443 (port s))
  +:+ query_of (vless_params s) +:+ "#" +:+ urlencoding_encode (o_tag ob).

Definition trojan_params (s : OutboundSettings) : list (string * string) :=
  match tls s with Some t => param "sni" (tls_sni t) ++ param "fp" (tls_fingerprint t) | None => [] end.
Definition encode_trojan_uri (ob : OutboundConfig) : string :=
  let s := o_settings ob in
  "trojan://" +:+ default "" (password s) +:+ "@" +:+ colon_port (default "" (address s)) (default 443 (port s))
  +:+ query_of (trojan_params s) +:+ "#" +:+ urlencoding_encode (o_tag ob).

Definition encode_ss_uri (ob : OutboundConfig) : string :=
  let s := o_settings ob in
  let userinfo := default "aes-256-gcm" (method s) +:+ ":" +:+ default "" (password s) in
  "ss://" +:+ b64_encode (as_bytes userinfo) +:+ "@" +:+ colon_port (default "" (address s)) (default 8388 (port s))
  +:+ "#" +:+ urlencoding_encode (o_tag ob).

Definition encode_hy2_uri (ob : OutboundConfig) : string :=
  let s := o_settings ob in
  "hysteria2://" +:+ colon_port (default "" (address s)) (default 443 (port s))
  +:+ query_of (param "password" (password s) ++ param "up" (uint_to_string <$> up_mbps s) ++ param "down" (uint_to_string <$> down_mbps s))
  +:+ "#" +:+ urlencoding_encode (o_tag ob).

Definition encode_tuic_uri (ob : OutboundConfig) : string :=
  let s := o_settings ob in
  let u := default "" (uuid s) in
  let pw := default "" (password s) in
  let params := [("uuid", u); ("password", pw)]
    ++ match tls s with Some t => param "sni" (tls_sni t) ++ param "congestion" (congestion_control s) | None => [] end in
  "tuic://" +:+ u +:+ ":" +:+ pw +:+ "@" +:+ colon_port (default "" (address s)) (default 443 (port s))
  +:+ "#" +:+ "?" +:+ query_text params.

Definition encode_wg_uri (ob : OutboundConfig) : string :=
  let s := o_settings ob in
  "wg://" +:+ query_of (param "private_key" (private_key s) ++ param "address" (address s) ++ param "public_key" (peer_public_key s)
                        ++ param "preshared_key" (preshared_key s))
  +:+ "#" +:+ urlencoding_encode (o_tag ob).

Definition encode_ssh_uri (ob : OutboundConfig) : string :=
  let s := o_settings ob in
  "ssh://" +:+ default "" (username s) +:+ ":" +:+ default "" (password s) +:+ "@" +:+ colon_port (default "" (address s)) (default 22 (port s)).

(** The link of an outbound ([openworld_export_node_as_uri] in [app/ffi.rs]). *)
Definition export_node_as_uri (ob : OutboundConfig) : result string string :=
  let p := o_protocol ob in
  if String.eqb p "vmess" then Ok (encode_vmess_uri ob)
  else if String.eqb p "vless" then Ok (encode_vless_uri ob)
  else if String.eqb p "trojan" then Ok (encode_trojan_uri ob)
  else if String.eqb p "shadowsocks" then Ok (encode_ss_uri ob)
  else if String.eqb p "hysteria2" then Ok (encode_hy2_uri ob)
  else if String.eqb p "tuic" then Ok (encode_tuic_uri ob)
  else if String.eqb p "wireguard" then Ok (encode_wg_uri ob)
  else if String.eqb p "ssh" then Ok (encode_ssh_uri ob)
  else Err ("unsupported protocol: " +:+ p).

(** ** What a link carries *)

Definition carried_vless (ob : OutboundConfig) : OutboundConfig :=
  let s := o_settings ob in
  let of_tls {A} (f : TlsConfig → option A) := t ← tls s; f t in
  let sec := of_tls (fun t => if String.eqb (tls_security t) "" then None else Some (tls_security t)) in
  mkOutbound (o_tag ob) "vless"
    (settings_default {{ address := Some (default "" (address s)); port := Some (default 443 (port s)); uuid := Some (default "" (uuid s));
       sni := of_tls tls_sni; security := sec; flow := flow s; fingerprint := of_tls tls_fingerprint;
       public_key := of_tls tls_public_key; short_id := of_tls tls_short_id; server_name := of_tls tls_sni;
       transport := t ← transport s;
         let ty := transport_type t in
         if String.eqb ty "tcp" || String.eqb ty "none" || String.eqb ty "" then None
         else Some (transport_default {{ transport_type := ty; tc_path := tc_path t; tc_host := tc_host t; tc_service_name := None }});
       tls := t ← tls s;
         if String.eqb (tls_security t) "" || String.eqb (tls_security t) "none" then None
         else Some (tls_default {{ tls_enabled := true; tls_security := tls_security t; tls_sni := tls_sni t;
                tls_fingerprint := tls_fingerprint t; tls_public_key := tls_public_key t; tls_short_id := tls_short_id t;
                tls_server_name := None }}) }}).
Definition carried_trojan (ob : OutboundConfig) : OutboundConfig :=
  let s := o_settings ob in
  let host := default "" (address s) in
  mkOutbound (o_tag ob) "trojan"
    (settings_default {{ address := Some host; port := Some (default 443 (port s)); password := Some (default "" (password s));
       sni := Some (default host (t ← tls s; tls_sni t)); security := Some "tls"; transport := None; tls := None }}).
Definition carried_ss (ob : OutboundConfig) : OutboundConfig :=
  let s := o_settings ob in
  ss_outbound (o_tag ob) (default "" (address s)) (default 8388 (port s)) (default "aes-256-gcm" (method s)) (default "" (password s)).
Definition carried_ssh (ob : OutboundConfig) : OutboundConfig :=
  let s := o_settings ob in
  let pw := default "" (password s) in
  mkOutbound "ssh" "ssh"
    (settings_default {{ address := Some (default "" (address s)); port := Some (default 22 (port s)); username := Some (default "" (username s));
       password := if String.eqb pw "" then None else Some pw }}).
Definition carried_vmess (ob : OutboundConfig) : OutboundConfig :=
  let s := o_settings ob in
  let host := default "" (t ← transport s; tc_host t) in
  let path := default "" (t ← transport s; tc_path t) in
  let net := match transport s with Some t => transport_type t | None => "tcp" end in
  let on := match tls s with Some t => tls_enabled t | None => false end in
  let sni' := Some (default host (t ← tls s; tls_sni t)) in
  mkOutbound (o_tag ob) "vmess"
    (settings_default {{ address := Some (default "" (address s)); port := Some (default 443 (port s)); uuid := Some (default "" (uuid s));
       alter_id := Some (default 0 (alter_id s)); sni := sni'; security := if on then Some "tls" else None;
       transport := if String.eqb net "tcp" then None
         else Some (transport_default {{ transport_type := net; tc_path := Some path; tc_host := Some host;
                tc_service_name := if String.eqb net "grpc" then Some path else None }});
       tls := if on then Some (tls_default {{ tls_enabled := true; tls_security := "tls"; tls_sni := sni' }}) else None }}).
Definition carried (ob : OutboundConfig) : OutboundConfig :=
  let p := o_protocol ob in
  if String.eqb p "vmess" then carried_vmess ob
  else if String.eqb p "vless" then carried_vless ob
  else if String.eqb p "trojan" then carried_trojan ob
  else if String.eqb p "shadowsocks" then carried_ss ob
  else carried_ssh ob.
End links.

(** ** Lemmas on text *)

Lemma no_char_app c s t : no_char c (s +:+ t) = no_char c s && no_char c t.
Proof. unfold no_char. apply all_chars_app. Qed.
Lemma split_once_app c h t : no_char c h = true → split_once c (h +:+ String c t) = Some (h, t).
Proof.
  unfold no_char. induction h as [|a h IH]; intros Hh.
  - change ("" +:+ String c t) with (String c t). cbn [split_once]. by rewrite (proj2 (Ascii.eqb_eq c c) eq_refl).
  - rewrite app_cons_str. cbn [split_once all_chars] in *. apply andb_true_iff in Hh as [Ha Hh]. apply negb_true_iff in Ha. by rewrite Ha, IH.
Qed.
Lemma split_once_none c s : no_char c s = true → split_once c s = None.
Proof.
  unfold no_char. induction s as [|a s IH]; [done|]. cbn [split_once all_chars]. intros [Ha Hs]%andb_true_iff.
  apply negb_true_iff in Ha. by rewrite Ha, IH.
Qed.
Lemma split_on_none c s : no_char c s = true → split_on c s = [s].
Proof.
  unfold no_char. induction s as [|a s IH]; [done|]. cbn [split_on all_chars]. intros [Ha Hs]%andb_true_iff.
  apply negb_true_iff in Ha. by rewrite Ha, IH.
Qed.
Lemma split_on_join c l : l ≠ [] → Forall (fun s => no_char c s = true) l → split_on c (join_on c l) = l.
Proof.
  intros Hl. induction l as [|s [|s' l] IH]; [done|..]; intros [Hs Hr]%Forall_cons.
  - by apply split_on_none.
  - rewrite join_on_cons by done. rewrite split_on_app, split_on_none by done. cbn [app]. f_equal. by apply IH.
Qed.
Lemma contains_char c s : RustStr.contains (String c "") s = negb (no_char c s).
Proof.
  unfold no_char. induction s as [|a s IH]; [done|]. cbn [RustStr.contains all_chars]. unfold starts_with. cbn [strip_prefix].
  rewrite IH. destruct (Ascii.eqb c a) eqn:E; [apply Ascii.eqb_eq in E as ->|]; rewrite ?(proj2 (Ascii.eqb_eq a a) eq_refl); [done|].
  destruct (Ascii.eqb a c) eqn:E'; [apply Ascii.eqb_eq in E' as ->; by rewrite (proj2 (Ascii.eqb_eq c c) eq_refl) in E|]. done.
Qed.
Lemma decoded_plain s : no_char "%"%char s = true → decoded s = s.
Proof. intros Hs. unfold decoded, url_decode. by rewrite contains_char, Hs. Qed.

(** *** Tags *)
Definition is_ascii (s : string) : bool := all_chars (fun a => ascii_code a <? 128) s.
Lemma encode_char_decodes a r :
  ascii_code a <? 128 = true → url_decode_loop (as_bytes (encode_char (ascii_code a)) ++ r) = (x ← url_decode_loop r; Some (byte_of_ascii a :: x)).
Proof. destruct a as [[] [] [] [] [] [] [] []]; try done; intros _; vm_compute (as_bytes _); cbn; by destruct (url_decode_loop r). Qed.
Lemma chars_ascii s : is_ascii s = true → chars s = ascii_code <$> String.list_ascii_of_string s.
Proof.
  unfold chars, is_ascii. induction s as [|a s IH]; [done|]. cbn [all_chars]. intros [Ha Hs]%andb_true_iff.
  change (as_bytes (String a s)) with (byte_of_ascii a :: as_bytes s). cbn [String.length chars_fuel].
  assert (Hn : utf8_next (byte_of_ascii a) (as_bytes s) = (1%nat, true)) by (unfold utf8_next; by rewrite ascii_byte, Ha).
  rewrite Hn. cbn [fst String.list_ascii_of_string fmap list_fmap]. f_equal; [cbn; apply ascii_byte|]. by apply IH.
Qed.
Lemma encode_decodes s :
  is_ascii s = true → url_decode_loop (as_bytes (urlencoding_encode s)) = Some (as_bytes s).
Proof.
  intros Hs. unfold urlencoding_encode. rewrite chars_ascii by done. revert Hs. unfold is_ascii.
  induction s as [|a s IH]; [done|]. cbn [all_chars]. intros [Ha Hs]%andb_true_iff.
  cbn [String.list_ascii_of_string fmap list_fmap foldr]. rewrite as_bytes_app, encode_char_decodes by done. by rewrite IH.
Qed.
(** What the encoding of a tag is made of. *)
Definition tag_char (a : ascii) : bool :=
  let c := ascii_code a in unreserved c || (c =? 37).
Lemma encode_char_tag a : ascii_code a <? 128 = true → all_chars tag_char (encode_char (ascii_code a)) = true.
Proof. by destruct a as [[] [] [] [] [] [] [] []]. Qed.
Lemma encode_tag_chars s : is_ascii s = true → all_chars tag_char (urlencoding_encode s) = true.
Proof.
  intros Hs. unfold urlencoding_encode. rewrite chars_ascii by done. revert Hs. unfold is_ascii.
  induction s as [|a s IH]; [done|]. cbn [all_chars]. intros [Ha Hs]%andb_true_iff.
  cbn [String.list_ascii_of_string fmap list_fmap foldr]. by rewrite all_chars_app, encode_char_tag, IH.
Qed.
Lemma decode_loop_id s : all_chars tag_char s = true → no_char "%"%char s = true → url_decode_loop (as_bytes s) = Some (as_bytes s).
Proof.
  unfold no_char. induction s as [|a s IH]; [done|]. cbn [all_chars]. intros [Ha Hs]%andb_true_iff [Hp Hn]%andb_true_iff.
  change (as_bytes (String a s)) with (byte_of_ascii a :: as_bytes s). cbn [url_decode_loop]. rewrite IH by done.
  clear -Ha Hp. destruct a as [[] [] [] [] [] [] [] []]; done.
Qed.
Lemma decoded_encoded s : is_ascii s = true → decoded (urlencoding_encode s) = s.
Proof.
  intros Hs. pose proof (encode_decodes s Hs) as Hd. unfold decoded, url_decode. rewrite contains_char.
  destruct (no_char "%"%char (urlencoding_encode s)) eqn:E; cbn [negb].
  - rewrite decode_loop_id in Hd; [|by apply encode_tag_chars|done]. injection Hd as Hd. cbn. by apply as_bytes_inj.
  - rewrite Hd. cbn [mbind option_bind]. rewrite from_utf8_as_bytes; [done|]. apply utf8_valid_ascii.
    clear -Hs. unfold is_ascii in Hs. unfold as_bytes, String.list_byte_of_string. induction s as [|a s IH]; [done|].
    cbn [all_chars] in Hs. apply andb_true_iff in Hs as [Ha Hs]. constructor; [|by apply IH]. rewrite ascii_byte. by apply Z.ltb_lt.
Qed.
Lemma with_tag_encoded main tag d : is_ascii tag = true → with_tag (main +:+ "#" +:+ urlencoding_encode tag) d = (main, tag).
Proof.
  intros Ht. unfold with_tag. change ("#" +:+ urlencoding_encode tag) with (String "#" (urlencoding_encode tag)). rewrite rsplit_once_app; [cbn; by rewrite decoded_encoded|].
  eapply all_chars_impl; [|by apply encode_tag_chars]. intros a. by destruct a as [[] [] [] [] [] [] [] []].
Qed.

(** *** Hosts, ports and queries *)
Definition host_ok (a : string) : bool := negb (starts_with "[" a).
Lemma endpoint_text a p : host_ok a = true → u16_ok p → endpoint (colon_port a p) = Ok (a, p).
Proof.
  intros Ha Hp. unfold endpoint, parse_host_port, colon_port. change (":" +:+ uint_to_string p) with (String ":" (uint_to_string p)).
  rewrite strip_bracket_app by (unfold host_ok, starts_with in Ha; by destruct (strip_prefix "[" a)).
  rewrite rsplit_once_app by (apply no_char_uint; [done|unfold u16_ok, in_width in Hp; lia]). cbn [bind_result].
  unfold parse_u16. rewrite parse_uint_to_string; [done|done|lia].
Qed.
Definition plain (s : string) : bool := no_char "&"%char s && no_char "%"%char s.
Definition plain_params (ps : list (string * string)) : bool := forallb (fun p => plain p.1 && no_char "="%char p.1 && plain p.2) ps.
Definition put_params (ps : list (string * string)) (m : gmap string string) : gmap string string := foldl (fun m p => <[p.1 := p.2]> m) m ps.
Lemma add_param_text m k v : plain k = true → no_char "="%char k = true → plain v = true → add_param m (k +:+ "=" +:+ v) = <[k := v]> m.
Proof.
  unfold plain. intros [_ Hk]%andb_true_iff He [_ Hv]%andb_true_iff. unfold add_param.
  change ("=" +:+ v) with (String "=" v). rewrite split_once_app by done. by rewrite !decoded_plain.
Qed.
Lemma parse_query_text ps : plain_params ps = true → parse_query_params (query_text ps) = put_params ps ∅.
Proof.
  intros Hp. destruct ps as [|p ps]; [done|]. unfold parse_query_params, query_text.
  assert (Hne : String.eqb (join_on "&"%char ((fun p => p.1 +:+ "=" +:+ p.2) <$> p :: ps)) "" = false).
  { apply String.eqb_neq. cbn [fmap list_fmap join_on]. destruct p as [[|a k] v], ((fun p => p.1 +:+ "=" +:+ p.2) <$> ps); done. }
  rewrite Hne, split_on_join; [|done|].
  - unfold put_params. generalize (∅ : gmap string string). clear Hne. revert Hp. generalize (p :: ps). clear p ps.
    induction l as [|[k v] l IH]; intros Hp m; [done|]. cbn [fmap list_fmap foldl fst snd]. unfold plain_params in *. cbn [forallb fst snd] in Hp.
    apply andb_true_iff in Hp as [[[Hk He]%andb_true_iff Hv]%andb_true_iff Hl]. rewrite add_param_text by done. by apply IH.
  - apply Forall_fmap, Forall_forall. intros [k v] Hin. unfold plain_params in Hp. rewrite forallb_forall in Hp.
    apply list_elem_of_In in Hin. apply Hp in Hin. cbn [fst snd] in *. apply andb_true_iff in Hin as [[Hk He]%andb_true_iff Hv].
    unfold plain in *. apply andb_true_iff in Hk as [Hk _]. apply andb_true_iff in Hv as [Hv _].
    change (no_char "&"%char (k +:+ "=" +:+ v) = true). by rewrite !no_char_app, Hk, Hv.
Qed.
Lemma with_query_text hp ps : no_char "?"%char hp = true → with_query (hp +:+ query_of ps) = (hp, query_text ps).
Proof.
  intros Hh. unfold with_query, query_of. destruct ps as [|p ps].
  - rewrite app_nil_r_str. by rewrite split_once_none.
  - change ("?" +:+ query_text (p :: ps)) with (String "?" (query_text (p :: ps))). by rewrite split_once_app.
Qed.
(** The last value of a key. *)
Fixpoint last_of (k : string) (ps : list (string * string)) : option string :=
  match ps with [] => None | (k', v) :: ps => or (last_of k ps) (if String.eqb k' k then Some v else None) end.
Lemma lookup_put_params ps m k : put_params ps m !! k = or (last_of k ps) (m !! k).
Proof.
  revert m. induction ps as [|[k' v] ps IH]; intros m; [done|]. cbn [put_params foldl fst snd last_of]. fold (put_params ps (<[k':=v]> m)).
  rewrite IH. destruct (last_of k ps); [done|]. cbn [or]. destruct (String.eqb_spec k' k) as [->|Hne]; [by rewrite lookup_insert_eq|by rewrite lookup_insert_ne].
Qed.
Lemma last_of_app k ps qs : last_of k (ps ++ qs) = or (last_of k qs) (last_of k ps).
Proof. induction ps as [|[k' v] ps IH]; cbn [app last_of]; [by destruct (last_of k qs)|]. rewrite IH. by destruct (last_of k qs). Qed.
Lemma last_of_param k k' o : last_of k (param k' o) = if String.eqb k' k then o else None.
Proof. destruct o; cbn; by destruct (String.eqb k' k). Qed.

(** ** Links read back *)

Section roundtrip.
Context `{Base64} {b64 : Base64Laws} `{Codecs}.

Lemma trim_link p m w : all_chars graphic p = true → p ≠ "" → word w → trim (p +:+ m +:+ w) = p +:+ m +:+ w.
Proof. intros Hp Np Hw. unfold trim. rewrite trim_start_graphic by done. rewrite app_assoc_str. by apply trim_end_word. Qed.
Lemma tag_word tag : is_ascii tag = true → word ("#" +:+ urlencoding_encode tag).
Proof.
  intros Ht. split; [|done]. change ("#" +:+ urlencoding_encode tag) with (String "#" (urlencoding_encode tag)). cbn [all_chars].
  apply andb_true_iff. split; [done|]. eapply all_chars_impl; [|by apply encode_tag_chars]. intros a. by destruct a as [[] [] [] [] [] [] [] []].
Qed.
Lemma uint_word z : 0 <= z → word (uint_to_string z).
Proof.
  intros Hz. split; [|apply uint_to_string_nonempty]. eapply all_chars_impl; [|by apply uint_to_string_digits]. intros a. by destruct a as [[] [] [] [] [] [] [] []].
Qed.
Lemma no_char_colon_port c a p : is_digit c = false → c ≠ ":"%char → 0 <= p → no_char c (colon_port a p) = no_char c a.
Proof.
  intros Hd Hc Hp. unfold colon_port. rewrite !no_char_app, no_char_uint by done. rewrite andb_true_r.
  assert (no_char c ":" = true) as ->; [|by rewrite andb_true_r]. unfold no_char. cbn [all_chars].
  destruct (Ascii.eqb_spec ":"%char c); [by subst c|done].
Qed.

Definition vless_ok (ob : OutboundConfig) : bool :=
  let s := o_settings ob in
  let a := default "" (address s) in
  is_ascii (o_tag ob) && no_char "@"%char (default "" (uuid s)) && host_ok a && no_char "?"%char a && plain_params (vless_params s).
Lemma lookup_params ps k : put_params ps ∅ !! k = last_of k ps.
Proof. rewrite lookup_put_params, lookup_empty. by destruct (last_of k ps). Qed.
Lemma or_None_r {A} (o : option A) : or o None = o.
Proof. by destruct o. Qed.
Lemma vless_values s :
  let last k := last_of k (vless_params s) in
  last "security" = (t ← tls s; if String.eqb (tls_security t) "" then None else Some (tls_security t))
  ∧ last "sni" = (t ← tls s; tls_sni t) ∧ last "fp" = (t ← tls s; tls_fingerprint t)
  ∧ last "pbk" = (t ← tls s; tls_public_key t) ∧ last "sid" = (t ← tls s; tls_short_id t) ∧ last "serverName" = None
  ∧ last "flow" = flow s ∧ last "type" = (transport_type <$> transport s) ∧ last "path" = (t ← transport s; tc_path t)
  ∧ last "host" = (t ← transport s; tc_host t) ∧ last "serviceName" = None.
Proof.
  unfold vless_params.
  destruct (tls s) as [t|], (transport s) as [tr|]; cbn [mbind option_bind fmap option_fmap option_map]; try destruct (String.eqb (tls_security t) "");
    rewrite ?last_of_app, ?last_of_param; simpl; rewrite ?or_None_r; done.
Qed.
(** The TLS part of what is read back. *)
Lemma vless_tls_back s :
  (if String.eqb (default "" (t ← tls s; if String.eqb (tls_security t) "" then None else Some (tls_security t))) ""
    || String.eqb (default "" (t ← tls s; if String.eqb (tls_security t) "" then None else Some (tls_security t))) "none" then None
    else Some (tls_default {{ tls_enabled := true;
      tls_security := default "" (t ← tls s; if String.eqb (tls_security t) "" then None else Some (tls_security t));
      tls_sni := t ← tls s; tls_sni t; tls_fingerprint := t ← tls s; tls_fingerprint t; tls_public_key := t ← tls s; tls_public_key t;
      tls_short_id := t ← tls s; tls_short_id t; tls_server_name := None }})) = (t ← tls s;
         if String.eqb (tls_security t) "" || String.eqb (tls_security t) "none" then None
         else Some (tls_default {{ tls_enabled := true; tls_security := tls_security t; tls_sni := tls_sni t;
                tls_fingerprint := tls_fingerprint t; tls_public_key := tls_public_key t; tls_short_id := tls_short_id t;
                tls_server_name := None }})).
Proof.
  destruct (tls s) as [t|]; [|done]. cbn [mbind option_bind]. by destruct (String.eqb (tls_security t) "") eqn:E; cbn; rewrite ?E.
Qed.
Lemma parse_vless_link ob :
  vless_ok ob = true → u16_ok (default 443 (port (o_settings ob))) → parse_proxy_uri (encode_vless_uri ob) = Ok (carried_vless ob).
Proof.
  unfold vless_ok. set (s := o_settings ob). intros [[[[Ht Hu]%andb_true_iff Ha]%andb_true_iff Hq]%andb_true_iff Hps]%andb_true_iff Hp.
  unfold encode_vless_uri. fold s. set (u := default "" (uuid s)) in *. set (a := default "" (address s)) in *. set (p := default 443 (port s)) in *.
  assert (E : ∀ x y, "vless://" +:+ u +:+ "@" +:+ x +:+ query_of (vless_params s) +:+ "#" +:+ y
    = "vless://" +:+ (u +:+ "@" +:+ x +:+ query_of (vless_params s)) +:+ ("#" +:+ y)) by (intros x y; by rewrite !app_assoc_str).
  rewrite E. unfold parse_proxy_uri. rewrite trim_link; [|done|done|by apply tag_word].
  set (r := (u +:+ _) +:+ _). change (parse_vless_uri r = Ok (carried_vless ob)). subst r.
  unfold parse_vless_uri. rewrite with_tag_encoded by done.
  change ("@" +:+ colon_port a p +:+ query_of (vless_params s)) with (String "@" (colon_port a p +:+ query_of (vless_params s))).
  rewrite split_once_app by done. cbn [missing bind_result].
  rewrite with_query_text by (rewrite no_char_colon_port; [done|done|done|unfold u16_ok, in_width in Hp; lia]).
  rewrite endpoint_text by done. cbn [bind_result]. rewrite parse_query_text by done.
  unfold extract_transport_from_params, extract_tls_from_params. rewrite !lookup_params.
  destruct (vless_values s) as (->&->&->&->&->&->&->&->&->&->&->).
  unfold carried_vless. fold s u a p. clearbody u a p. clear -s. do 2 f_equal.
  rewrite vless_tls_back. cbn [or]. destruct (transport s) as [tr|]; cbn [mbind option_bind fmap option_fmap option_map default]; [|done].
  unfold id. by destruct (String.eqb (transport_type tr) "grpc").
Qed.

Definition trojan_ok (ob : OutboundConfig) : bool :=
  let s := o_settings ob in
  let a := default "" (address s) in
  let pw := default "" (password s) in
  is_ascii (o_tag ob) && no_char "@"%char pw && no_char "%"%char pw && host_ok a && no_char "?"%char a && plain_params (trojan_params s).
Lemma trojan_values s :
  let last k := last_of k (trojan_params s) in
  last "sni" = (t ← tls s; tls_sni t) ∧ last "type" = None ∧ last "security" = None.
Proof. unfold trojan_params. destruct (tls s) as [t|]; cbn [mbind option_bind]; rewrite ?last_of_app, ?last_of_param; done. Qed.
Lemma parse_trojan_link ob :
  trojan_ok ob = true → u16_ok (default 443 (port (o_settings ob))) → parse_proxy_uri (encode_trojan_uri ob) = Ok (carried_trojan ob).
Proof.
  unfold trojan_ok. set (s := o_settings ob). intros [[[[[Ht Hu]%andb_true_iff Hc]%andb_true_iff Ha]%andb_true_iff Hq]%andb_true_iff Hps]%andb_true_iff Hp.
  unfold encode_trojan_uri. fold s. set (u := default "" (password s)) in *. set (a := default "" (address s)) in *. set (p := default 443 (port s)) in *.
  assert (E : ∀ x y, "trojan://" +:+ u +:+ "@" +:+ x +:+ query_of (trojan_params s) +:+ "#" +:+ y
    = "trojan://" +:+ (u +:+ "@" +:+ x +:+ query_of (trojan_params s)) +:+ ("#" +:+ y)) by (intros x y; by rewrite !app_assoc_str).
  rewrite E. unfold parse_proxy_uri. rewrite trim_link; [|done|done|by apply tag_word].
  set (r := (u +:+ _) +:+ _). change (parse_trojan_uri r = Ok (carried_trojan ob)). subst r.
  unfold parse_trojan_uri. rewrite with_tag_encoded by done.
  change ("@" +:+ colon_port a p +:+ query_of (trojan_params s)) with (String "@" (colon_port a p +:+ query_of (trojan_params s))).
  rewrite split_once_app by done. cbn [missing bind_result].
  rewrite with_query_text by (rewrite no_char_colon_port; [done|done|done|unfold u16_ok, in_width in Hp; lia]).
  rewrite endpoint_text by done. cbn [bind_result]. rewrite parse_query_text, decoded_plain by done.
  unfold extract_transport_from_params, extract_tls_from_params. rewrite !lookup_params.
  destruct (trojan_values s) as (->&->&->). unfold carried_trojan. fold s u a p. clear. do 2 f_equal.
  destruct (tls s) as [t|]; [|done]. cbn [mbind option_bind]. by destruct (tls_sni t).
Qed.

Definition ss_ok (ob : OutboundConfig) : Prop :=
  let s := o_settings ob in
  is_ascii (o_tag ob) = true ∧ no_char ":"%char (default "aes-256-gcm" (method s)) = true ∧ host_ok (default "" (address s)) = true
  ∧ str_ok (default "aes-256-gcm" (method s) +:+ ":" +:+ default "" (password s)).
Lemma b64_clean b :
  String.string_of_list_ascii (List.filter (fun a => negb (is_whitespace a)) (String.list_ascii_of_string (b64_encode b))) = b64_encode b.
Proof using b64.
  pose proof (b64_alphabet b) as Hb. induction (b64_encode b) as [|a s IH]; [done|]. cbn [all_chars] in Hb. apply andb_true_iff in Hb as [Ha Hs].
  cbn [String.list_ascii_of_string List.filter]. assert (is_whitespace a = false) as -> by (clear -Ha; by destruct a as [[] [] [] [] [] [] [] []]).
  cbn [negb String.string_of_list_ascii]. by rewrite IH.
Qed.
Lemma b64_no_char c b : b64_char c = false → no_char c (b64_encode b) = true.
Proof using b64.
  intros Hc. eapply all_chars_impl; [|apply b64_alphabet]. intros a Ha. apply negb_true_iff. destruct (Ascii.eqb_spec a c) as [->|]; [congruence|done].
Qed.
Lemma decode_encoded b : decode_base64_content (b64_encode b) = from_utf8 b.
Proof using b64. unfold decode_base64_content. rewrite b64_clean, b64_inverse. done. Qed.
Lemma parse_ss_link ob :
  ss_ok ob → u16_ok (default 8388 (port (o_settings ob))) → parse_proxy_uri (encode_ss_uri ob) = Ok (carried_ss ob).
Proof using b64.
  unfold ss_ok. set (s := o_settings ob). intros (Ht&Hm&Ha&Hs) Hp.
  unfold encode_ss_uri. fold s. set (m := default "aes-256-gcm" (method s)) in *. set (pw := default "" (password s)) in *.
  set (a := default "" (address s)) in *. set (p := default 8388 (port s)) in *. set (enc := b64_encode _).
  assert (E : ∀ x y, "ss://" +:+ enc +:+ "@" +:+ x +:+ "#" +:+ y = "ss://" +:+ (enc +:+ "@" +:+ x) +:+ ("#" +:+ y)) by (intros x y; by rewrite !app_assoc_str).
  rewrite E. unfold parse_proxy_uri. rewrite trim_link; [|done|done|by apply tag_word].
  set (r := (enc +:+ _) +:+ _). change (parse_ss_uri r = Ok (carried_ss ob)). subst r.
  unfold parse_ss_uri. rewrite with_tag_encoded by done.
  change ("@" +:+ colon_port a p) with (String "@" (colon_port a p)). rewrite split_once_app by (by apply b64_no_char).
  unfold enc. rewrite decode_encoded, from_utf8_as_bytes by done. cbn [default from_option id].
  change (":" +:+ pw) with (String ":" pw). unfold id. rewrite split_once_app by done. cbn [missing bind_result]. by rewrite endpoint_text.
Qed.

Definition ssh_ok (ob : OutboundConfig) : bool :=
  let s := o_settings ob in
  let a := default "" (address s) in
  let u := default "" (username s) in
  let pw := default "" (password s) in
  no_char "#"%char u && no_char "#"%char pw && no_char "#"%char a && no_char "@"%char u && no_char "@"%char pw && no_char ":"%char u
  && no_char "%"%char u && no_char "%"%char pw && host_ok a.
Lemma parse_ssh_link ob :
  ssh_ok ob = true → u16_ok (default 22 (port (o_settings ob))) → parse_proxy_uri (encode_ssh_uri ob) = Ok (carried_ssh ob).
Proof.
  unfold ssh_ok. set (s := o_settings ob).
  intros [[[[[[[[H1 H2]%andb_true_iff H3]%andb_true_iff H4]%andb_true_iff H5]%andb_true_iff H6]%andb_true_iff H7]%andb_true_iff H8]%andb_true_iff Ha]%andb_true_iff Hp.
  assert (Hp0 : 0 <= default 22 (port s)) by (unfold u16_ok, in_width in Hp; lia).
  unfold encode_ssh_uri. fold s. set (u := default "" (username s)) in *. set (pw := default "" (password s)) in *.
  set (a := default "" (address s)) in *. set (p := default 22 (port s)) in *.
  assert (E : "ssh://" +:+ u +:+ ":" +:+ pw +:+ "@" +:+ colon_port a p = "ssh://" +:+ (u +:+ ":" +:+ pw +:+ "@" +:+ a +:+ ":") +:+ uint_to_string p)
    by (unfold colon_port; by rewrite !app_assoc_str).
  unfold parse_proxy_uri. rewrite E, trim_link; [|done|done|by apply uint_word]. rewrite <- E.
  set (r := u +:+ _). change (parse_ssh_uri r = Ok (carried_ssh ob)). subst r.
  unfold parse_ssh_uri, with_tag. rewrite rsplit_once_none; [|by rewrite !no_char_app, no_char_colon_port, H1, H2, H3].
  cbn [default from_option id]. unfold id.
  assert (E2 : u +:+ ":" +:+ pw +:+ "@" +:+ colon_port a p = (u +:+ ":" +:+ pw) +:+ ("@" +:+ colon_port a p)) by (by rewrite !app_assoc_str).
  rewrite E2. change ("@" +:+ colon_port a p) with (String "@" (colon_port a p)). rewrite split_once_app by (by rewrite !no_char_app, H4, H5). cbn [missing bind_result].
  change (u +:+ ":" +:+ pw) with (u +:+ String ":" pw). rewrite split_once_app by done. cbn [default from_option]. unfold id.
  rewrite endpoint_text by done. cbn [bind_result]. by rewrite !decoded_plain.
Qed.

(** Serialising a document and reading the text gives the document back. *)
Definition json_faithful (v : Value) : Prop := from_json (json_to_string v) = Some v ∧ str_ok (json_to_string v).
Lemma trim_graphic s : all_chars graphic s = true → trim s = s.
Proof.
  intros Hs. destruct s as [|a s]; [done|]. unfold trim. rewrite <- (app_nil_r_str (String a s)) at 1.
  rewrite trim_start_graphic by done. rewrite app_nil_r_str. by apply trim_end_graphic.
Qed.
Definition net_of (s : OutboundSettings) : string := match transport s with Some t => transport_type t | None => "tcp" end.
Definition tls_on (s : OutboundSettings) : bool := match tls s with Some t => tls_enabled t | None => false end.
Lemma vmess_fields ob :
  let v := vmess_json ob in
  let s := o_settings ob in
  let str k := as_str (index k v) in
  str "ps" = Some (o_tag ob) ∧ str "add" = Some (default "" (address s)) ∧ index "port" v = VNum (default 443 (port s))
  ∧ str "id" = Some (default "" (uuid s)) ∧ index "aid" v = VNum (default 0 (alter_id s))
  ∧ str "net" = Some (net_of s) ∧ str "host" = Some (default "" (t ← transport s; tc_host t))
  ∧ str "path" = Some (default "" (t ← transport s; tc_path t)) ∧ str "tls" = Some (if tls_on s then "tls" else "")
  ∧ str "sni" = (t ← tls s; tls_sni t).
Proof. unfold vmess_json. destruct (t ← tls (o_settings ob); tls_sni t); done. Qed.
Lemma parse_vmess_link ob :
  json_faithful (vmess_json ob) → u16_ok (default 443 (port (o_settings ob))) → u16_ok (default 0 (alter_id (o_settings ob))) →
  parse_proxy_uri (encode_vmess_uri ob) = Ok (carried_vmess ob).
Proof using b64.
  intros [Hj Hs] Hp Ha. unfold encode_vmess_uri, parse_proxy_uri. set (enc := b64_encode _).
  assert (Hg : all_chars graphic enc = true) by (apply b64_graphic, b64_alphabet).
  rewrite trim_graphic by (by rewrite all_chars_app, Hg). change (parse_vmess_uri enc = Ok (carried_vmess ob)).
  unfold parse_vmess_uri. rewrite trim_graphic by done. unfold enc. rewrite b64_inverse. cbn [or missing bind_result].
  rewrite from_utf8_as_bytes by done. cbn [missing bind_result]. rewrite Hj. cbn [missing bind_result].
  destruct (vmess_fields ob) as (->&->&->&->&->&->&->&->&->&->). cbn [u64_or_text as_u64 or default from_option]. unfold id.
  rewrite !wrap_small by done. unfold carried_vmess. fold (net_of (o_settings ob)) (tls_on (o_settings ob)).
  destruct (tls_on (o_settings ob)), (t ← tls (o_settings ob); tls_sni t); done.
Qed.

(** *** A list of links *)
Definition linkable (ob : OutboundConfig) : Prop :=
  let s := o_settings ob in
  (o_protocol ob = "vmess" ∧ json_faithful (vmess_json ob) ∧ u16_ok (default 443 (port s)) ∧ u16_ok (default 0 (alter_id s)))
  ∨ (o_protocol ob = "vless" ∧ vless_ok ob = true ∧ u16_ok (default 443 (port s)))
  ∨ (o_protocol ob = "trojan" ∧ trojan_ok ob = true ∧ u16_ok (default 443 (port s)))
  ∨ (o_protocol ob = "shadowsocks" ∧ ss_ok ob ∧ u16_ok (default 8388 (port s)))
  ∨ (o_protocol ob = "ssh" ∧ ssh_ok ob = true ∧ u16_ok (default 22 (port s))).
Definition schemes : list string := ["vmess"; "vless"; "trojan"; "ss"; "ssh"].
Definition is_link (uri : string) : Prop := ∃ p r, p ∈ schemes ∧ uri = p +:+ "://" +:+ r.
Lemma in_schemes i p : schemes !! i = Some p → p ∈ schemes.
Proof. by apply list_elem_of_lookup_2. Qed.
Lemma link_reads ob uri :
  linkable ob → export_node_as_uri ob = Ok uri → parse_proxy_uri uri = Ok (carried ob) ∧ is_link uri.
Proof using b64.
  unfold export_node_as_uri, carried.
  intros [(E&Hj&Hp&Ha)|[(E&Ho&Hp)|[(E&Ho&Hp)|[(E&Ho&Hp)|(E&Ho&Hp)]]]]; rewrite E; intros [= <-].
  - split; [by apply parse_vmess_link|]. exists "vmess". eexists. split; [by apply (in_schemes 0)|reflexivity].
  - split; [by apply parse_vless_link|]. exists "vless". eexists. split; [by apply (in_schemes 1)|reflexivity].
  - split; [by apply parse_trojan_link|]. exists "trojan". eexists. split; [by apply (in_schemes 2)|reflexivity].
  - split; [by apply parse_ss_link|]. exists "ss". eexists. split; [by apply (in_schemes 3)|reflexivity].
  - split; [by apply parse_ssh_link|]. exists "ssh". eexists. split; [by apply (in_schemes 4)|reflexivity].
Qed.
(** Links are not padded with white space. *)
Lemma export_trimmed ob uri : linkable ob → export_node_as_uri ob = Ok uri → trim_end uri = uri.
Proof using b64.
  unfold export_node_as_uri.
  intros [(E&Hj&Hp&Ha)|[(E&Ho&Hp)|[(E&Ho&Hp)|[(E&Ho&Hp)|(E&Ho&Hp)]]]]; rewrite E; intros [= <-].
  - apply trim_end_graphic. unfold encode_vmess_uri. rewrite all_chars_app. apply andb_true_iff. split; [done|]. apply b64_graphic, b64_alphabet.
  - unfold vless_ok in Ho. repeat (apply andb_true_iff in Ho as [Ho _]).
    unfold encode_vless_uri. rewrite !app_assoc_str, <- (app_assoc_str _ "#"). by apply trim_end_word, tag_word.
  - unfold trojan_ok in Ho. repeat (apply andb_true_iff in Ho as [Ho _]).
    unfold encode_trojan_uri. rewrite !app_assoc_str, <- (app_assoc_str _ "#"). by apply trim_end_word, tag_word.
  - unfold encode_ss_uri. rewrite !app_assoc_str, <- (app_assoc_str _ "#"). apply trim_end_word, tag_word, Ho.
  - unfold encode_ssh_uri, colon_port. rewrite !app_assoc_str. apply trim_end_word, uint_word. unfold u16_ok, in_width in Hp. lia.
Qed.
Lemma contains_app pat x y : RustStr.contains pat (x +:+ pat +:+ y) = true.
Proof.
  induction x as [|a x IH].
  - change ("" +:+ (pat +:+ y)) with (pat +:+ y). assert (Hs : starts_with pat (pat +:+ y) = true) by (unfold starts_with; by rewrite (proj2 (strip_prefix_Some pat _ y) eq_refl)).
    destruct (pat +:+ y); cbn [RustStr.contains]; by rewrite Hs.
  - rewrite app_cons_str. cbn [RustStr.contains]. rewrite IH. apply orb_true_r.
Qed.
Lemma strip_cr_trimmed s : trim_end s = s → strip_suffix_cr s = s.
Proof.
  induction s as [|a s IH]; [done|]. intros Ht. cbn [strip_suffix_cr]. destruct (String.eqb_spec (String a s) CR) as [E|_].
  - rewrite E in Ht. done.
  - f_equal. cbn [trim_end] in Ht. destruct (trim_end s) as [|b t] eqn:E; [|injection Ht as Ht; by apply IH].
    destruct (is_whitespace a); [done|]. injection Ht as <-. done.
Qed.
Lemma clean_keeps c s : is_whitespace c = false → no_char c s = false →
  no_char c (String.string_of_list_ascii (List.filter (fun a => negb (is_whitespace a)) (String.list_ascii_of_string s))) = false.
Proof.
  intros Hc. unfold no_char. induction s as [|a s IH]; [done|]. cbn [String.list_ascii_of_string List.filter all_chars].
  destruct (Ascii.eqb_spec a c) as [->|Hne]; cbn [negb andb].
  - intros _. rewrite Hc. cbn. by rewrite Ascii.eqb_refl.
  - intros Hs. destruct (is_whitespace a); cbn [negb]; [by apply IH|]. cbn. rewrite IH by done. apply andb_false_r.
Qed.
Lemma join_head c s l : ∃ t, join_on c (s :: l) = s +:+ t.
Proof. destruct l as [|s' l]; [exists ""; by rewrite app_nil_r_str|]. rewrite join_on_cons by done. eauto. Qed.
Lemma trim_end_join l : l ≠ [] → Forall (fun s => trim_end s = s ∧ s ≠ "") l → trim_end (join_on LF l) = join_on LF l ∧ join_on LF l ≠ "".
Proof.
  intros Hl. induction l as [|s [|s' l] IH]; [done|..]; intros [Hs Hr]%Forall_cons; [done|].
  rewrite join_on_cons by done. destruct (IH ltac:(done) Hr) as [IH1 IH2]. change (String LF (join_on LF (s' :: l))) with ((String LF "") +:+ join_on LF (s' :: l)).
  rewrite app_assoc_str, trim_end_app, IH1. destruct (String.eqb_spec (join_on LF (s' :: l)) ""); [done|]. split; [done|]. by destruct s.
Qed.
Lemma lines_join l : l ≠ [] → Forall (fun s => trim_end s = s ∧ s ≠ "" ∧ no_char LF s = true) l → lines (join_on LF l) = l.
Proof.
  intros Hl Hall. unfold lines. rewrite split_on_join; [|done|eapply Forall_impl; [exact Hall|naive_solver]].
  rewrite bool_decide_false.
  - induction Hall as [|s l (H1&_&_) _ IH]; [done|]. cbn [fmap list_fmap]. rewrite strip_cr_trimmed by done. f_equal. by destruct l; [|apply IH].
  - intros E. apply last_Some in E as [l' ->]. apply Forall_app in Hall as [_ Hall]. inversion Hall as [|? ? (_&Hn&_)]. done.
Qed.
(** Base64 refuses what is not of its alphabet. *)
Definition b64_strict : Prop :=
  ∀ s, no_char ":"%char s = false → b64_decode s = None ∧ b64_url_safe_no_pad s = None ∧ b64_standard_no_pad s = None.
Lemma not_base64 content : b64_strict → no_char ":"%char content = false → decode_base64_content content = None.
Proof.
  intros Hb Hc. unfold decode_base64_content. destruct (Hb _ (clean_keeps ":"%char content eq_refl Hc)) as (->&->&->). done.
Qed.
Lemma link_facts uri t :
  is_link uri → let c := uri +:+ t in
  trim_start c = c ∧ starts_with "{" c = false ∧ starts_with "[" c = false ∧ starts_with "---" c = false ∧ starts_with "#" c = false
  ∧ RustStr.contains "://" c = true ∧ no_char ":"%char c = false ∧ uri ≠ "".
Proof.
  intros (p&r&Hp&->). rewrite <- !app_assoc_str. set (x := r +:+ t). clearbody x. cbn [schemes].
  assert (Hc : RustStr.contains "://" (p +:+ "://" +:+ x) = true) by apply contains_app.
  assert (Hn : no_char ":"%char (p +:+ "://" +:+ x) = false).
  { rewrite !no_char_app. assert (no_char ":"%char "://" = false) as -> by done. apply andb_false_r. }
  assert (p = "vmess" ∨ p = "vless" ∨ p = "trojan" ∨ p = "ss" ∨ p = "ssh") as Hs by (unfold schemes in Hp; set_solver).
  clear Hp. destruct Hs as [->|[->|[->|[->| ->]]]]; (split_and!; [reflexivity|reflexivity|reflexivity|reflexivity|reflexivity|done|done|done]).
Qed.

(** C33: the links of a non-empty list of VMess, VLESS, Trojan, Shadowsocks and SSH
    outbounds, one per line, are recognised as a subscription and read back as the
    outbounds, in their order, each reduced to the settings that a link of its
    protocol carries ([carried]: an SSH link has no tag, a Trojan link no transport).
    The values must be ones that links can hold ([linkable]: ports of 16 bits, text
    without the separators of a link and without characters it would escape, for
    VMess a JSON text that reads back), no link may contain a line break, and the
    text not the words zen-version: or proxies: that mark other formats.  Links of
    the other protocols are not covered. *)
Theorem subscription_roundtrip parse_zenone obs uris :
  b64_strict → obs ≠ [] → Forall linkable obs → Forall2 (fun ob uri => export_node_as_uri ob = Ok uri) obs uris →
  Forall (fun uri => no_char LF uri = true) uris →
  RustStr.contains "zen-version:" (join_on LF uris) = false → RustStr.contains "proxies:" (join_on LF uris) = false →
  parse_subscription parse_zenone (join_on LF uris) = Ok (carried <$> obs).
Proof using b64.
  intros Hb Hne Hl Hx Hlf Hz Hpr.
  assert (Hall : Forall2 (fun ob uri => parse_proxy_uri uri = Ok (carried ob) ∧ is_link uri ∧ trim_end uri = uri) obs uris).
  { clear -Hl Hx b64. induction Hx as [|ob uri obs uris Hx _ IH]; [constructor|]. apply Forall_cons in Hl as [Hl Hl'].
    constructor; [|by apply IH]. destruct (link_reads ob uri Hl Hx) as [H1 H2]. split_and!; [done|done|by eapply export_trimmed]. }
  assert (Hu : Forall (fun s => trim_end s = s ∧ s ≠ "" ∧ no_char LF s = true) uris).
  { clear -Hall Hlf b64. induction Hall as [|ob uri obs uris (_&H2&H3) _ IH]; [constructor|]. apply Forall_cons in Hlf as [Hf Hlf].
    constructor; [|by apply IH]. split_and!; [done|by apply (link_facts uri "")|done]. }
  destruct uris as [|uri uris]; [by inversion Hx; subst|]. destruct (join_head LF uri uris) as [t Ej].
  assert (Hk : is_link uri) by (inversion Hall; naive_solver).
  destruct (link_facts uri t Hk) as (F1&F2&F3&F4&F5&F6&F7&_). rewrite <- Ej in *.
  assert (Ht : trim (join_on LF (uri :: uris)) = join_on LF (uri :: uris)).
  { unfold trim. rewrite F1. apply trim_end_join; [done|]. eapply Forall_impl; [exact Hu|naive_solver]. }
  assert (Hp : parse_uri_list (join_on LF (uri :: uris)) = Ok (carried <$> obs)).
  { unfold parse_uri_list. rewrite lines_join by done. assert (omap uri_line (uri :: uris) = carried <$> obs) as ->.
    - clear -Hall b64. induction Hall as [|ob u obs us (H1&H2&H3) _ IH]; [done|].
      destruct (link_facts u "" H2) as (G1&_&_&_&G5&_&_&G8). rewrite app_nil_r_str in *.
      cbn [omap list_omap fmap list_fmap]. unfold uri_line, trim. rewrite G1, H3, G5.
      destruct (String.eqb_spec u ""); [done|]. cbn [orb]. rewrite H1. cbn [ok]. by rewrite <- IH.
    - by destruct obs. }
  unfold parse_subscription. rewrite Ht. unfold is_zenone. rewrite Ht, F2, F3, F4, F6, Hz, Hpr. cbn [orb when or].
  rewrite not_base64 by done. cbn [mbind option_bind or]. rewrite Hp. done.
Qed.
End roundtrip.

(** ** Instances and what is lost *)

Definition strict_decode (s : string) : option bytes := if all_chars b64_char s then letters_decode s else None.
#[local] Instance strict_letters : Base64 := {| Http.b64_encode := letters_encode; b64_decode := strict_decode |}.
#[local] Instance strict_laws : Base64Laws.
Proof.
  split; [|done|apply letters_alphabet]. intros b. cbn [Http.b64_encode b64_decode strict_letters]. unfold strict_decode.
  rewrite letters_alphabet. apply letters_inverse.
Qed.
(** A configuration that reads one JSON text. *)
Definition vmess_sample : OutboundConfig :=
  mkOutbound "node 2" "vmess" (settings_default {{ address := Some "vm.example"; port := Some 8443; uuid := Some "u-2"; alter_id := Some 0 }}).
#[local] Instance sample_codecs : Codecs := {|
  b64_url_safe_no_pad := strict_decode;
  b64_standard_no_pad := strict_decode;
  json_to_string _ := "json";
  from_json s := if String.eqb s "json" then Some (vmess_json vmess_sample) else None;
  from_yaml _ := None;
  sip008_from_json _ := None
|}.
Lemma strict_refuses : b64_strict.
Proof.
  intros s Hs. assert (Hd : strict_decode s = None); [|done]. unfold strict_decode. destruct (all_chars b64_char s) eqn:E; [|done].
  exfalso. revert Hs. apply not_false_iff_true. eapply all_chars_impl; [|exact E]. intros a. by destruct a as [[] [] [] [] [] [] [] []].
Qed.
Definition vless_sample : OutboundConfig :=
  mkOutbound "node 1" "vless"
    (settings_default {{ address := Some "example.com"; port := Some 443; uuid := Some "u-1"; flow := Some "xtls-rprx-vision";
       tls := Some (tls_default {{ tls_enabled := true; tls_security := "reality"; tls_sni := Some "www.example.org"; tls_public_key := Some "pk" }});
       transport := Some (transport_default {{ transport_type := "ws"; tc_path := Some "/p?ed=1" }}) }}).
Definition ssh_sample : OutboundConfig :=
  mkOutbound "box" "ssh" (settings_default {{ address := Some "::1"; port := Some 22; username := Some "root"; password := Some "pw" }}).
Definition sample_obs : list OutboundConfig := [vless_sample; vmess_sample; ssh_sample].
Definition sample_uris : list string := [encode_vless_uri vless_sample; encode_vmess_uri vmess_sample; encode_ssh_uri ssh_sample].
Lemma subscription_roundtrip_witness :
  parse_subscription (fun _ => Err "not this format") (join_on LF sample_uris) = Ok (carried <$> sample_obs).
Proof.
  apply (subscription_roundtrip (fun _ => Err "not this format") sample_obs sample_uris).
  - exact strict_refuses.
  - discriminate.
  - unfold sample_obs. apply Forall_cons. split; [|apply Forall_cons; split; [|apply Forall_cons; split; [|constructor]]].
    + right. left. split; [reflexivity|]. split; [vm_compute; reflexivity|]. split; vm_compute; [discriminate|reflexivity].
    + left. split; [reflexivity|]. split; [split; vm_compute; reflexivity|]. split; split; vm_compute; [discriminate|reflexivity|discriminate|reflexivity].
    + right. right. right. right. split; [reflexivity|]. split; [vm_compute; reflexivity|]. split; vm_compute; [discriminate|reflexivity].
  - repeat constructor.
  - repeat constructor; vm_compute; reflexivity.
  - vm_compute. reflexivity.
  - vm_compute. reflexivity.
Defined.

(** The links of hysteria2 and WireGuard have no user part, which their parsers ask
    for; that of TUIC has its query behind the number sign, where the tag is read;
    that of SSH has no tag. *)
Definition hy2_sample : OutboundConfig :=
  mkOutbound "hy" "hysteria2" (settings_default {{ address := Some "h.example"; port := Some 443; password := Some "pw" }}).
Example hy2_link_unreadable :
  encode_hy2_uri hy2_sample = "hysteria2://h.example:443?password=pw#hy" ∧ parse_proxy_uri (encode_hy2_uri hy2_sample) = Err "hy2: missing @".
Proof. vm_compute. split; reflexivity. Qed.
Example wg_link_unreadable :
  parse_proxy_uri (encode_wg_uri (mkOutbound "wg" "wireguard" (settings_default {{ address := Some "w.example"; private_key := Some "k" }})))
  = Err "wg: missing @".
Proof. vm_compute. reflexivity. Qed.
Example tuic_link_tag :
  o_tag <$> ok (parse_proxy_uri (encode_tuic_uri
    (mkOutbound "tu" "tuic" (settings_default {{ address := Some "t.example"; port := Some 443; uuid := Some "u"; password := Some "secret" }}))))
  = Some "?uuid=u&password=secret".
Proof. vm_compute. reflexivity. Qed.
(** Trojan loses its transport and TLS settings. *)
Example trojan_link_loses_transport :
  (fun o => transport (o_settings o)) <$> ok (parse_proxy_uri (encode_trojan_uri
    (mkOutbound "t" "trojan" (settings_default {{ address := Some "t.example"; port := Some 443; password := Some "p";
       transport := Some (transport_default {{ transport_type := "ws" }}) }}))))
  = Some None.
Proof. vm_compute. reflexivity. Qed.
(** A character above 127 is cut to its low byte: U+00E9 is written as a byte that is
    not UTF-8 and stays undecoded. *)
Definition e_acute : string := of_bytes [Byte.xc3; Byte.xa9].
Example tag_mangled : urlencoding_encode e_acute = "%E9" ∧ decoded (urlencoding_encode e_acute) = "%E9".
Proof. vm_compute. split; reflexivity. Qed.
