(* ===== verification/Chain.v ===== *)
(** * Proxy chains ([src/src/proxy/outbound/chain.rs])

    The first hop is an outbound that is asked for a connection to the server of
    the second; the further hops are conversations on the stream so far, each
    asking its server for the next server and the last for the target.  The hops
    are looked up in the configuration file, read again for every connection.
    The TLS library is not modelled: a hop names the layer it wants ([TlsLayer])
    and its conversation is what travels inside. *)

From Stdlib Require Import Ascii.
From S2P Require Import Prelude RustStr Addr Rules IpText HostPort Proc Config Vless Trojan Socks5 Http.

Local Open Scope string_scope.
Local Open Scope list_scope.
Local Open Scope Z_scope.

Section chain.
Context `{Base64} (parse_uuid : string → option bytes) (sha224 : bytes → bytes).

(** ** Hops *)

Record TlsLayer := mkLayer { l_sni : string; l_alpn : option (list string); l_insecure : bool }.
(** What wraps the stream after a hop: a TLS layer under its conversation, a
    vision stream over it.  The conversations of the hops behind it are what is
    written into and read from the wrapped stream; with a vision stream the bytes
    on the inner one are those of [Vision], padded. *)
Record Wrapped := mkWrapped { w_tls : option TlsLayer; w_vision : bool }.

Definition resolve_hop_server_target (outbound : OutboundConfig) : result string Address :=
  let protocol := to_lowercase (o_protocol outbound) in
  let settings := o_settings outbound in
  if String.eqb protocol "tor" then
    Ok (Domain (default "127.0.0.1" (address settings)) (default 9050 (socks_port settings)))
  else if String.eqb protocol "direct" then Err "chain hop uses direct and has no server endpoint"
  else
    match address settings, port settings with
    | None, _ => Err "chain hop missing address in outbound settings"
    | Some _, None => Err "chain hop missing port in outbound settings"
    | Some a, Some p => Ok (Domain a p)
    end.

Definition build_hop_session (base : Session) (t : Address) : Session :=
  mkSession t (Rules.source base) (inbound_tag base) (network base) (sniff_enabled base) None.

(** The TLS layer of a hop; [None] is the bare stream. *)
Definition maybe_wrap_tls (settings : OutboundSettings) (tls_config : TlsConfig) : result string (option TlsLayer) :=
  let transport := effective_transport settings in
  if negb (String.eqb (transport_type transport) "tcp") && negb (String.eqb (transport_type transport) "")
  then Err "chain intermediate hop only supports tcp transport"
  else
    let sni := match tls_sni tls_config with None => address settings | s => s end in
    if negb (tls_enabled tls_config) then Ok None
    else if String.eqb (tls_security tls_config) "reality" then Err "chain intermediate hop does not support reality transport"
    else
      match sni with
      | None => Err "TLS SNI is required"
      | Some sni => Ok (Some (mkLayer sni (tls_alpn tls_config) (tls_allow_insecure tls_config)))
      end.

(** *** HTTP *)

Definition http_request (target : Address) (settings : OutboundSettings) : string :=
  connect_request (mkHttpOutbound (uuid settings) (Config.password settings)) target.
Definition ends_head (header : bytes) : bool := bool_decide (suffix (as_bytes (CRLF_str +:+ CRLF_str)) header).
(** The loop, one byte at a time; the fuel is the room left of 16 KiB. *)
Fixpoint read_head (room : nat) (header : bytes) : proc bytes :=
  match room with
  | O => Ret header
  | S room =>
      let@ b := read_exact 1 in
      let header := header ++ b in
      if ends_head header then Ret header else read_head room header
  end.
Definition http_connect_over_stream (target : Address) (settings : OutboundSettings) : proc Wrapped :=
  let@ _ := write_all (as_bytes (http_request target settings)) in
  let@ header := read_head (16 * 1024) [] in
  if negb (ends_head header) then bail "http CONNECT failed: response header too large" else
  let status_line := default "" (head (lines (from_utf8_lossy header))) in
  let@ status_code := or_bail "http CONNECT failed: invalid response"
    (s ← split_whitespace status_line !! 1%nat; parse_uint 16 s) in
  if negb (status_code =? 200) then bail "http CONNECT failed" else Ret (mkWrapped None false).

(** *** SOCKS5 *)

Definition socks5_connect_over_stream (target : Address) : proc Wrapped :=
  let@ _ := write_all [Byte.x05; Byte.x01; Byte.x00] in
  let@ auth_resp := read_exact 2 in
  if negb (bool_decide (auth_resp = [Byte.x05; Byte.x00])) then bail "SOCKS5 auth failed" else
  let req := [Byte.x05; Byte.x01; Byte.x00]
    ++ match target with
       | Ip addr =>
           match sock_ip addr with
           | V4 v4 => [Byte.x01] ++ to_be_bytes 4 v4
           | V6 v6 => [Byte.x04] ++ to_be_bytes 16 v6
           end ++ to_be_bytes 2 (sock_port addr)
       | Domain domain port =>
           [Byte.x03] ++ [byte_of_Z (str_len domain)] ++ as_bytes domain ++ to_be_bytes 2 port
       end in
  let@ _ := write_all req in
  let@ resp := read_exact 4 in
  if negb (byte_to_Z (byte_at resp 1) =? 0) then bail "SOCKS5 CONNECT failed" else
  let atyp := byte_to_Z (byte_at resp 3) in
  let@ _ := if atyp =? 1 then read_exact 6
            else if atyp =? 3 then (let@ l := read_exact 1 in read_exact (byte_to_Z (byte_at l 0) + 2))
            else if atyp =? 4 then read_exact 18
            else Ret [] in
  Ret (mkWrapped None false).

(** *** VLESS and Trojan *)

Definition with_enabled (c : TlsConfig) : TlsConfig :=
  mkTls true (tls_security c) (tls_sni c) (tls_allow_insecure c) (tls_alpn c) (tls_public_key c) (tls_short_id c)
    (tls_server_name c) (tls_fingerprint c) (ech_config c) (ech_grease c) (ech_outer_sni c) (ech_auto c) (tls_fragment c).
Definition with_alpn (a : list string) (c : TlsConfig) : TlsConfig :=
  mkTls (tls_enabled c) (tls_security c) (tls_sni c) (tls_allow_insecure c) (Some a) (tls_public_key c) (tls_short_id c)
    (tls_server_name c) (tls_fingerprint c) (ech_config c) (ech_grease c) (ech_outer_sni c) (ech_auto c) (tls_fragment c).
Definition is_some {A} (o : option A) : bool := match o with Some _ => true | None => false end.

Definition vless_tls (settings : OutboundSettings) : TlsConfig :=
  let c := effective_tls settings in
  let c := if negb (tls_enabled c) && is_some (security settings) then with_enabled c else c in
  if bool_decide (flow settings = Some XRV) && negb (is_some (tls_alpn c)) then with_alpn ["h2"; "http/1.1"] c else c.
Definition vless_connect_over_stream (target : Address) (settings : OutboundSettings) : proc Wrapped :=
  let flow := flow settings in
  let@ layer := or_fail (maybe_wrap_tls settings (vless_tls settings)) in
  let@ uuid_str := or_bail "vless chain hop missing uuid" (uuid settings) in
  let@ id := or_bail "invalid uuid" (parse_uuid uuid_str) in
  let@ _ := Vless.write_request id target flow CMD_TCP in
  let@ _ := read_response in
  Ret (mkWrapped layer (bool_decide (flow = Some XRV))).
Definition trojan_tls (settings : OutboundSettings) : TlsConfig :=
  let c := effective_tls settings in
  let c := if negb (tls_enabled c) && negb (is_some (security settings)) then with_enabled c else c in
  if negb (tls_enabled c) && bool_decide (security settings = Some "tls") then with_enabled c else c.
Definition trojan_connect_over_stream (target : Address) (settings : OutboundSettings) : proc Wrapped :=
  let@ layer := or_fail (maybe_wrap_tls settings (trojan_tls settings)) in
  let@ pw := or_bail "trojan chain hop missing password" (Config.password settings) in
  let@ _ := Trojan.write_request (password_hash sha224 pw) target CMD_CONNECT in
  Ret (mkWrapped layer false).

Definition connect_intermediate_hop (outbound : OutboundConfig) (session : Session) : proc Wrapped :=
  let protocol := to_lowercase (o_protocol outbound) in
  let settings := o_settings outbound in
  if String.eqb protocol "http" || String.eqb protocol "https" then http_connect_over_stream (target session) settings
  else if String.eqb protocol "tor" then socks5_connect_over_stream (target session)
  else if String.eqb protocol "vless" then vless_connect_over_stream (target session) settings
  else if String.eqb protocol "trojan" then trojan_connect_over_stream (target session) settings
  else bail "chain intermediate hop protocol is not supported yet".

(** ** The chain *)

Record ProxyChain := mkChain { ch_tag : string; hops : list string }.
Definition chain_new (tag : string) (hops : list string) : result string ProxyChain :=
  match hops with [] => Err "proxy chain requires at least one outbound" | _ => Ok (mkChain tag hops) end.
Definition load_outbound_config_map (outbounds : list OutboundConfig) : gmap string OutboundConfig :=
  foldl (fun m o => <[o_tag o := o]> m) ∅ outbounds.

Definition hop_config (cm : gmap string OutboundConfig) (tag : string) : proc OutboundConfig :=
  or_bail "chain cannot resolve config for hop" (cm !! tag).
(** The hops behind the first, over the stream it opened. *)
Fixpoint hops_loop (cm : gmap string OutboundConfig) (session : Session) (tags : list string) : proc (list Wrapped) :=
  match tags with
  | [] => Ret []
  | tag :: tags =>
      let@ hop_outbound := hop_config cm tag in
      let@ hop_target :=
        match tags with
        | [] => Ret (target session)
        | next :: _ => let@ next_outbound := hop_config cm next in or_fail (resolve_hop_server_target next_outbound)
        end in
      let@ w := connect_intermediate_hop hop_outbound (build_hop_session session hop_target) in
      let@ ws := hops_loop cm session tags in
      Ret (w :: ws)
  end.
(** What the first hop is asked for, and what happens on the stream it gives. *)
Inductive chain_plan :=
| ChainFails (why : string)
| ChainIndexPanics
| Through (first : string) (session : Session) (rest : proc (list Wrapped)).
Definition chain_connect (file : result string (list OutboundConfig)) (c : ProxyChain) (session : Session) : chain_plan :=
  match hops c with
  | [] => ChainIndexPanics
  | [first] => Through first session (Ret [])
  | first :: (second :: _) as rest =>
      match file with
      | Err e => ChainFails e
      | Ok outbounds =>
          let cm := load_outbound_config_map outbounds in
          match cm !! second with
          | None => ChainFails "chain cannot resolve config for next hop"
          | Some next =>
              match resolve_hop_server_target next with
              | Err e => ChainFails e
              | Ok first_target => Through first (build_hop_session session first_target) (hops_loop cm session rest)
              end
          end
      end
  end.

(** ** Health *)

Record HopResult := mkHop { hr_name : string; hr_latency : option Z; hr_healthy : bool }.
Record ChainHealthResult := mkHealth { chr_tag : string; chr_healthy : bool; chr_hops : list HopResult; total_latency : option Z }.
Fixpoint health_loop (test : string → option Z) (tags : list string) (acc : list HopResult) : bool * list HopResult :=
  match tags with
  | [] => (true, acc)
  | t :: tags =>
      let latency := test t in
      let acc := acc ++ [mkHop t latency (is_some latency)] in
      if is_some latency then health_loop test tags acc else (false, acc)
  end.
Definition health_check (test : string → option Z) (c : ProxyChain) : ChainHealthResult :=
  let '(ok, hs) := health_loop test (hops c) [] in
  mkHealth (ch_tag c) ok hs (if ok then Some (wrap 64 (foldr Z.add 0 (omap hr_latency hs))) else None).

(** ** Servers of the hops *)

(** What a stream through the chain meets: the servers one behind the other. *)
Fixpoint serve_all (hs : list (proc Session)) : proc (list Session) :=
  match hs with
  | [] => Ret []
  | h :: hs => let@ s := h in let@ ss := serve_all hs in Ret (s :: ss)
  end.

(** A server of this program that knows the hop's credentials.  A VLESS hop does
    not use the vision flow, whose padding the VLESS server does not take off. *)
Inductive served (o : OutboundConfig) : proc Session → Prop :=
| served_vless i source u id layer :
    to_lowercase (o_protocol o) = "vless" → maybe_wrap_tls (o_settings o) (vless_tls (o_settings o)) = Ok layer →
    uuid (o_settings o) = Some u → parse_uuid u = Some id →
    known i id → length id = 16%nat → flow (o_settings o) ≠ Some XRV → len (encode_addons (flow (o_settings o))) < 256 →
    served o (Vless.handle i source)
| served_trojan i source pw layer :
    to_lowercase (o_protocol o) = "trojan" → maybe_wrap_tls (o_settings o) (trojan_tls (o_settings o)) = Ok layer →
    Config.password (o_settings o) = Some pw → password_hash sha224 pw ∈ password_hashes i →
    served o (Trojan.handle i source)
| served_tor i bound source :
    to_lowercase (o_protocol o) = "tor" → Socks5.auth_users i = [] →
    served o (let@ r := Socks5.handle i bound source in Ret (Socks5.session r)).

Definition addr_fits (a : Address) : Prop := addr_ok a ∧ addr_short a ∧ addr_plain a.
(** A conversation that gives the server a TCP session for [t] and leaves the
    stream without a vision wrapper. *)
Definition asks_server (p : proc Wrapped) (h : proc Session) (t : Address) : Prop :=
  ∃ w s, joined p h [] (Ret w) (Ret s) [] ∧ target s = t ∧ network s = Tcp ∧ w_vision w = false.

Lemma vless_hop_served i source u id layer t settings :
  maybe_wrap_tls settings (vless_tls settings) = Ok layer → uuid settings = Some u → parse_uuid u = Some id →
  known i id → length id = 16%nat → flow settings ≠ Some XRV → len (encode_addons (flow settings)) < 256 → addr_fits t →
  asks_server (vless_connect_over_stream t settings) (Vless.handle i source) t.
Proof.
  intros Hw Hu Hid Hk Hl Hx Hf (Hok&Hs&Hp). eexists _, _. split; [|split_and!].
  - unfold vless_connect_over_stream. rewrite Hw, Hu. cbn [or_fail or_bail bind_proc]. rewrite Hid. cbn [or_bail bind_proc].
    eapply joined_client; first exact (exec_put _ _).
    eapply (joined_server _ _ _ (Ret _) _ _ [] _ []).
    + by apply (exec_handle i source id t (flow settings) CMD_TCP).
    + by rewrite app_nil_r.
    + change [Byte.x00; Byte.x00] with ([Byte.x00] ++ [Byte.x00] ++ []). do 2 (constructor; first done). constructor.
    + constructor.
  - done.
  - done.
  - cbn. by apply bool_decide_eq_false.
Qed.
Context (sha224_28 : ∀ m, length (sha224 m) = 28%nat).
Lemma trojan_hop_served i source pw layer t settings :
  maybe_wrap_tls settings (trojan_tls settings) = Ok layer → Config.password settings = Some pw →
  password_hash sha224 pw ∈ password_hashes i → addr_fits t →
  asks_server (trojan_connect_over_stream t settings) (Trojan.handle i source) t.
Proof using sha224_28.
  intros Hw Hpw Hin (Hok&Hs&Hp). eexists _, _. split; [|split_and!].
  - unfold trojan_connect_over_stream. rewrite Hw, Hpw. cbn [or_fail or_bail bind_proc].
    eapply joined_client; first exact (exec_put _ _).
    eapply (joined_server _ _ _ (Ret _) _ _ [] _ []).
    + apply (exec_trojan_handle i source (password_hash sha224 pw) t CMD_CONNECT); try done.
      * apply hex_encode_ok.
      * by apply length_password_hash.
    + by rewrite app_nil_r.
    + constructor.
    + constructor.
  - done.
  - done.
  - done.
Qed.
Lemma socks5_request_encoded t :
  match t with
  | Ip addr =>
      match sock_ip addr with
      | V4 v4 => [Byte.x01] ++ to_be_bytes 4 v4
      | V6 v6 => [Byte.x04] ++ to_be_bytes 16 v6
      end ++ to_be_bytes 2 (sock_port addr)
  | Domain domain port =>
      [Byte.x03] ++ [byte_of_Z (str_len domain)] ++ as_bytes domain ++ to_be_bytes 2 port
  end = encode_socks5 t [].
Proof.
  destruct t as [[ip p|ip p fl sc]|d p]; try done.
Qed.
Lemma socks5_hop_served i bound source t :
  Socks5.auth_users i = [] → addr_fits t →
  asks_server (socks5_connect_over_stream t) (let@ r := Socks5.handle i bound source in Ret (Socks5.session r)) t.
Proof.
  intros Hu (Hok&Hs&Hp). eexists _, _. split; [|split_and!].
  - unfold socks5_connect_over_stream. rewrite handle_serve.
    eapply joined_client; first exact (exec_put _ _).
    pose proof (exec_bind _ _ (fun r => Ret (Socks5.session r)) _ _ (exec_bind _ _ (fun _ => serve i bound source) _ _ (exec_negotiate_hello i (mkOutbound "" 0 None None)))) as Hn.
    rewrite Hu in Hn. cbn [bind_proc] in Hn.
    eapply (joined_server _ _ _ _ _ [Byte.x05; Byte.x01; Byte.x00] [] _ _ _ _ _ Hn); first done.
    + eapply (exec_exact_bind 2 [Byte.x05; Byte.x00] _ []); first done.
      rewrite bool_decide_true by done. cbn [negb]. apply exec_put.
    + eapply (joined_server _ _ _ (Ret _) _ _ [] _ []).
      * apply exec_bind. apply (exec_serve_connect i bound source t); done.
      * rewrite socks5_request_encoded, !app_nil_r. done.
      * eapply (exec_exact_bind 4 [Byte.x05; Byte.x00; Byte.x00; Byte.x01] _ [Byte.x00; Byte.x00; Byte.x00; Byte.x00; Byte.x00; Byte.x00]); first done.
        change (negb (byte_to_Z (byte_at [Byte.x05; Byte.x00; Byte.x00; Byte.x01] 1) =? 0)) with false.
        change (byte_to_Z (byte_at [Byte.x05; Byte.x00; Byte.x00; Byte.x01] 3)) with 1. cbn [Z.eqb Pos.eqb].
        apply (exec_exact_bind 6 (replicate 6 Byte.x00) _ []); [done|constructor].
      * constructor.
  - done.
  - done.
  - done.
Qed.

Lemma hop_served o h session t : served o h → addr_fits t → asks_server (connect_intermediate_hop o (build_hop_session session t)) h t.
Proof using sha224_28.
  intros Hs Ht. unfold connect_intermediate_hop. destruct Hs as [i src u id layer Hpr|i src pw layer Hpr|i bound src Hpr]; rewrite Hpr; cbn [String.eqb Ascii.eqb Bool.eqb orb].
  - by eapply vless_hop_served.
  - by eapply trojan_hop_served.
  - by apply socks5_hop_served.
Qed.

(** ** Through all hops *)

(** The hops behind the first with their configurations and servers. *)
Record Hop := mkHopSpec { h_tag : string; h_config : OutboundConfig; h_server : proc Session; h_addr : Address }.
Definition hop_ok (cm : gmap string OutboundConfig) (h : Hop) : Prop :=
  cm !! h_tag h = Some (h_config h) ∧ served (h_config h) (h_server h)
  ∧ resolve_hop_server_target (h_config h) = Ok (h_addr h) ∧ addr_fits (h_addr h).

Lemma hops_loop_served cm session hs :
  hs ≠ [] → Forall (hop_ok cm) hs → addr_fits (target session) →
  ∃ ws ss, joined (hops_loop cm session (h_tag <$> hs)) (serve_all (h_server <$> hs)) [] (Ret ws) (Ret ss) []
    ∧ target <$> ss = tail (h_addr <$> hs) ++ [target session] ∧ length ws = length hs
    ∧ Forall (fun s => network s = Tcp) ss ∧ Forall (fun w => w_vision w = false) ws.
Proof using sha224_28.
  induction hs as [|h hs IH]; intros Hne Hall Ht; [done|]. apply Forall_cons in Hall as [(Hcm&Hsv&_&_) Hall].
  destruct hs as [|h2 hs].
  - destruct (hop_served _ _ session (target session) Hsv Ht) as (w&s&Hj&Hs&Hn&Hv). exists [w], [s].
    split; [|split_and!; [by rewrite fmap_cons, Hs|done|by repeat constructor|by repeat constructor]].
    cbn [fmap list_fmap hops_loop serve_all]. unfold hop_config. rewrite Hcm. cbn [or_bail bind_proc].
    eapply joined_bind; [exact Hj|]. cbn [bind_proc]. constructor.
  - destruct (IH ltac:(done) Hall Ht) as (ws&ss&Hj&Hts&Hlen&Hn&Hv). apply Forall_cons in Hall as [(Hcm2&_&Hr2&Ha2) _].
    destruct (hop_served _ _ session (h_addr h2) Hsv Ha2) as (w&s&Hj1&Hs&Hn1&Hv1). exists (w :: ws), (s :: ss).
    split; [|split_and!; [|by cbn; f_equal|by constructor|by constructor]].
    + cbn [fmap list_fmap] in Hj |- *. cbn [hops_loop serve_all] in Hj |- *. unfold hop_config in Hj |- *.
      rewrite Hcm. rewrite Hcm2 in Hj |- *. cbn [or_bail bind_proc] in Hj |- *. rewrite Hr2. cbn [or_fail bind_proc].
      eapply joined_bind; [exact Hj1|]. eapply joined_bind; [exact Hj|]. constructor.
    + cbn [fmap list_fmap tail app]. rewrite Hs. f_equal. exact Hts.
Qed.
End chain.

(** C20: a connection through a chain whose hops behind the first are VLESS
    (without the vision flow), Trojan or Tor proxies reaches its target hop by hop.
    The first outbound is asked for the server of the second hop, each further
    server gets a TCP session for the server behind it and the last one for the
    target of the connection, under every schedule of the two ends; no hop pads what follows, and
    what the client writes then is what the last server's stream yields first.
    HTTP hops are not covered. *)
Theorem chain_reaches_target `{Base64} parse_uuid sha224 c file session first hs early :
  (∀ m, length (sha224 m) = 28%nat) → hops c = first :: (h_tag <$> hs) → hs ≠ [] →
  Forall (hop_ok parse_uuid sha224 (load_outbound_config_map file)) hs → addr_fits (target session) →
  ∃ s0 rest ws ss,
    chain_connect parse_uuid sha224 (Ok file) c session = Through first s0 rest
    ∧ Some (target s0) = head (h_addr <$> hs)
    ∧ target <$> ss = tail (h_addr <$> hs) ++ [target session]
    ∧ Forall (fun s => network s = Tcp) ss ∧ Forall (fun w => w_vision w = false) ws
    ∧ settles (Net (let@ ws := rest in let@ _ := write_all early in Ret ws) (serve_all (h_server <$> hs)) [] [])
              (Net (Ret ws) (Ret ss) early []).
Proof.
  intros Hsha Hh Hne Hall Ht. destruct hs as [|h hs]; [done|]. unfold chain_connect. rewrite Hh. cbn [fmap list_fmap].
  pose proof Hall as ((Hcm&_&Hr&_)&_)%Forall_cons. rewrite Hcm, Hr.
  destruct (hops_loop_served parse_uuid sha224 Hsha _ session (h :: hs) Hne Hall Ht) as (ws&ss&Hj&Hts&_&Hn&Hv).
  eexists _, _, ws, ss. split; [reflexivity|]. split; [done|]. split; [exact Hts|]. do 2 (split; [done|]).
  apply joined_by_parts; [|done|done].
  eapply joined_then; [exact Hj|]. eapply joined_client; [exact (exec_put _ _)|]. constructor.
Qed.

(** ** HTTP hops *)

Lemma read_head_exec room acc h :
  h ≠ [] → (length h <= room)%nat → (∀ k, (0 < k < length h)%nat → ends_head (acc ++ take k h) = false) →
  ends_head (acc ++ h) = true → exec (read_head room acc) h (Ret (acc ++ h)) [].
Proof.
  revert acc h. induction room as [|room IH]; intros acc h Hne Hl Hno Hyes; [destruct h; [done|cbn in Hl; lia]|].
  destruct h as [|b h]; [done|]. cbn [read_head]. change (b :: h) with ([b] ++ h).
  apply exec_exact_bind; [done|]. destruct h as [|b2 h].
  - rewrite app_nil_r in *. rewrite Hyes. constructor.
  - assert (ends_head (acc ++ [b]) = false) as -> by (apply (Hno 1%nat); cbn; lia). cbn iota. rewrite app_assoc. apply IH; [done|cbn in *; lia| |by rewrite <- app_assoc].
    intros k Hk. rewrite <- app_assoc. apply (Hno (S k)). cbn in *. lia.
Qed.
Lemma established_head : exec (read_head (16 * 1024) []) (as_bytes established) (Ret (as_bytes established)) [].
Proof.
  apply (read_head_exec _ []); [done|apply Nat.leb_le; by vm_compute| |by vm_compute].
  assert (forallb (fun k => negb (ends_head (take k (as_bytes established)))) (seq 1 38) = true) as Hf by (by vm_compute).
  intros k Hk. rewrite forallb_forall in Hf. apply negb_true_iff. apply Hf. apply in_seq.
  change (length (as_bytes established)) with 39%nat in Hk. lia.
Qed.
(** A hop through an HTTP proxy reads the answer to its last byte and no
    further: what the server sends behind it is still in the stream, where the
    plain HTTP outbound drops what arrived with the answer. *)
Theorem chain_http_reads_exactly `{Base64} t settings rest :
  Proc.run (http_connect_over_stream t settings) (as_bytes established ++ rest)
  = (Ok (mkWrapped None false), rest, as_bytes (http_request t settings)).
Proof.
  apply exec_run_ret. rewrite <- (app_nil_r (as_bytes (http_request t settings))).
  unfold http_connect_over_stream. apply exec_write_bind. rewrite <- (app_nil_r (as_bytes established)) at 1.
  eapply exec_then_quiet; [exact established_head|]. vm_compute. constructor.
Qed.

(** ** Health *)

Lemma health_loop_spec test tags acc ok hs :
  health_loop test tags acc = (ok, hs) →
  ∃ k, hs = acc ++ ((fun t => mkHop t (test t) (is_some (test t))) <$> take k tags)
    ∧ if ok then k = length tags ∧ Forall (fun t => is_some (test t) = true) tags
      else ∃ t, tags !! pred k = Some t ∧ (0 < k <= length tags)%nat ∧ test t = None.
Proof.
  revert acc. induction tags as [|t tags IH]; intros acc Hh; cbn [health_loop] in Hh.
  { simplify_eq. exists 0%nat. rewrite app_nil_r. done. }
  destruct (is_some (test t)) eqn:E.
  - apply IH in Hh as (k&->&Hk). exists (S k). split; [rewrite firstn_cons, fmap_cons, <- app_assoc; cbn [app]; by rewrite E|]. destruct ok.
    + destruct Hk as [-> Hall]. split; [done|by constructor].
    + destruct Hk as (t'&Ht&Hk&Hn). exists t'. split_and!; [|cbn; lia|cbn; lia|done]. by destruct k; [lia|].
  - simplify_eq. exists 1%nat. split; [by rewrite firstn_cons, fmap_cons, E|]. exists t. split_and!; [done|cbn; lia|cbn; lia|by destruct (test t)].
Qed.
(** A chain is healthy exactly when every hop answered; otherwise the report ends
    with the first hop that did not. *)
Theorem chain_health_sound test c :
  (chr_healthy (health_check test c) = true ↔ Forall (fun t => is_some (test t) = true) (hops c))
  ∧ (is_some (total_latency (health_check test c)) = chr_healthy (health_check test c)).
Proof.
  unfold health_check. destruct (health_loop test (hops c) []) as [ok hs] eqn:E. apply health_loop_spec in E as (k&_&Hk).
  cbn [chr_healthy total_latency]. split; [|by destruct ok]. destruct ok.
  - split; [|done]. intros _. tauto.
  - destruct Hk as (t&Ht&_&Hn). split; [done|]. intros Hall. eapply Forall_lookup_1 in Hall; [|exact Ht]. by rewrite Hn in Hall.
Qed.

(** ** An example: a Tor proxy, then a Trojan server *)

Local Instance no_base64 : Base64 := {| b64_encode := fun _ => ""; b64_decode := fun _ => None |}.
Definition ex_settings (a : option string) (p : option Z) (pw : option string) : OutboundSettings :=
  let 'mkSettings _ _ c _ e g h i j k l m n o q r t u v w x y z aa a1 b1 c1 d1 e1 f1 g1 h1 i1 j1 k1 l1 m1 n1 := settings_default in
  mkSettings a p c pw e (Some "none") h i j k l m n o q r t u v w x y z aa a1 b1 c1 d1 e1 f1 g1 h1 i1 j1 k1 l1 m1 n1.
Definition ex_tor : OutboundConfig := Config.mkOutbound "tor" "tor" (ex_settings None None None).
Definition ex_trojan : OutboundConfig := Config.mkOutbound "exit" "Trojan" (ex_settings (Some "exit.example") (Some 443) (Some "pw")).
Definition ex_servers : list Hop :=
  [mkHopSpec "tor" ex_tor (let@ r := Socks5.handle (Socks5.inbound_new "s" "::") None (SockV4 1 2) in Ret (Socks5.session r)) (Domain "127.0.0.1" 9050);
   mkHopSpec "exit" ex_trojan (Trojan.handle (Trojan.mkInbound "t" [password_hash sample_sha "pw"]) (SockV4 3 4)) (Domain "exit.example" 443)].
Lemma ex_tor_ok :
  hop_ok (fun _ => None) sample_sha (load_outbound_config_map [ex_tor; ex_trojan])
    (mkHopSpec "tor" ex_tor (let@ r := Socks5.handle (Socks5.inbound_new "s" "::") None (SockV4 1 2) in Ret (Socks5.session r))
       (Domain "127.0.0.1" 9050)).
Proof.
  split; [vm_compute; reflexivity|]. split; [by apply (served_tor _ _ ex_tor (Socks5.inbound_new "s" "::") None (SockV4 1 2))|].
  split; [reflexivity|]. split_and!; vm_compute; done.
Qed.
Lemma ex_trojan_ok :
  hop_ok (fun _ => None) sample_sha (load_outbound_config_map [ex_tor; ex_trojan])
    (mkHopSpec "exit" ex_trojan (Trojan.handle (Trojan.mkInbound "t" [password_hash sample_sha "pw"]) (SockV4 3 4)) (Domain "exit.example" 443)).
Proof.
  split; [vm_compute; reflexivity|]. split.
  - apply (served_trojan _ _ ex_trojan (Trojan.mkInbound "t" [password_hash sample_sha "pw"]) (SockV4 3 4) "pw" None);
      [reflexivity..|by left].
  - split; [reflexivity|]. split_and!; vm_compute; done.
Qed.
Definition ex_chain_session : Session := mkSession (Domain "target.example" 80) None "in" Tcp false None.
Lemma chain_reaches_target_witness :
  ∃ s0 rest ws ss,
    chain_connect (fun _ => None) sample_sha (Ok [ex_tor; ex_trojan]) (mkChain "c" ["entry"; "tor"; "exit"]) ex_chain_session
      = Through "entry" s0 rest
    ∧ Some (target s0) = Some (Domain "127.0.0.1" 9050)
    ∧ target <$> ss = [Domain "exit.example" 443; Domain "target.example" 80]
    ∧ Forall (fun s => network s = Tcp) ss ∧ Forall (fun w => w_vision w = false) ws
    ∧ settles (Net (let@ ws := rest in let@ _ := write_all [Byte.x47] in Ret ws) (serve_all (h_server <$> ex_servers)) [] [])
              (Net (Ret ws) (Ret ss) [Byte.x47] []).
Proof.
  refine (chain_reaches_target (fun _ => None) sample_sha (mkChain "c" ["entry"; "tor"; "exit"]) [ex_tor; ex_trojan]
            ex_chain_session "entry" ex_servers [Byte.x47] _ _ _ _ _).
  - intros m. unfold sample_sha. rewrite length_take, length_app, length_replicate. lia.
  - reflexivity.
  - discriminate.
  - apply Forall_cons. split; [exact ex_tor_ok|]. apply Forall_cons. split; [exact ex_trojan_ok|constructor].
  - split_and!; vm_compute; done.
Defined.
