(* ===== verification/Polled.v ===== *)
(** * Streams that are polled

    The stream wrappers of the program implement [poll_read] and [poll_write] over
    a connection that may give or take any number of bytes, nothing yet, or fail.
    This file has the script of such a connection, the loops the wrappers share
    (filling a buffer, pushing a frame out) and, for any wrapper that reads frames
    in turns and writes chunk by chunk, the theory of complete transfers.
    [Shadowsocks] and [Vmess] instantiate it. *)

From S2P Require Import Prelude Outcome.

Local Open Scope list_scope.

(** ** The connection *)

(** What the reads of the connection return: bytes, nothing yet, an error; the
    end of the list is the end of the stream. *)
Inductive arrival := Piece (b : bytes) | Blocks | Breaks.
Definition piece_bytes (e : arrival) : bytes := match e with Piece b => b | _ => [] end.
Definition wire_of (evs : list arrival) : bytes := concat (piece_bytes <$> evs).
(** What its writes return. *)
Inductive wrote := Wrote (n : nat) | WBlocks | WBreaks.

Inductive poll := PReady (b : bytes) | PPending | PError (why : string).
Inductive wpoll := WDone (n : nat) | WPending | WError (why : string).

Inductive fill_result := Full (got : bytes) | Waits (got : bytes) | Ended (got : bytes) | Broken (got : bytes).
(** The [while] loops of [poll_read]: read until [need] bytes are there. *)
Fixpoint fill (need : nat) (got : bytes) (evs : list arrival) : fill_result * list arrival :=
  if (need <=? length got)%nat then (Full got, evs)
  else
    match evs with
    | [] => (Ended got, [])
    | Piece [] :: evs => (Ended got, evs)
    | Piece b :: evs =>
        let room := (need - length got)%nat in
        if (length b <=? room)%nat then fill need (got ++ b) evs
        else (Full (got ++ take room b), Piece (drop room b) :: evs)
    | Blocks :: evs => (Waits got, evs)
    | Breaks :: evs => (Broken got, evs)
    end.

Inductive push_result := Pushed | PushWaits (rest : bytes) | PushZero (rest : bytes) | PushBroken (rest : bytes).
(** The loop over a frame: how it ends, what is left of the script, what went
    out. *)
Fixpoint push (data : bytes) (ws : list wrote) : push_result * list wrote * bytes :=
  match data with
  | [] => (Pushed, ws, [])
  | _ =>
      match ws with
      | [] => (PushWaits data, [], [])
      | WBlocks :: ws => (PushWaits data, ws, [])
      | WBreaks :: ws => (PushBroken data, ws, [])
      | Wrote O :: ws => (PushZero data, ws, [])
      | Wrote n :: ws => let '(r, ws, out) := push (drop n data) ws in (r, ws, take n data ++ out)
      end
  end.

(** ** Reading in turns *)

(** One turn of the loop of a [poll_read] returns or, with [None], goes round
    again. *)
Fixpoint poll_loop {S} (turn : nat → S → list arrival → outcome (option poll * S * list arrival))
  (fuel cap : nat) (s : S) (evs : list arrival) : outcome (poll * S * list arrival) :=
  match fuel with
  | O => OutOfFuel
  | Datatypes.S fuel =>
      let! '(p, s, evs) := turn cap s evs in
      match p with
      | Some p => Found (p, s, evs)
      | None => poll_loop turn fuel cap s evs
      end
  end.
(** A reader that polls with buffers of the given sizes. *)
Fixpoint polls {S} (poll_read : nat → S → list arrival → outcome (poll * S * list arrival))
  (caps : list nat) (s : S) (evs : list arrival) : outcome (list poll * S * list arrival) :=
  match caps with
  | [] => Found ([], s, evs)
  | cap :: caps =>
      let! '(p, s, evs) := poll_read cap s evs in
      match p with
      | PError _ => Found ([p], s, evs)
      | _ => let! '(ps, s, evs) := polls poll_read caps s evs in Found (p :: ps, s, evs)
      end
  end.
Definition bytes_of (p : poll) : bytes := match p with PReady b => b | _ => [] end.

Definition pieces_ok (evs : list arrival) : Prop := Forall (fun e => e ≠ Piece [] ∧ e ≠ Breaks) evs.
Definition is_block (e : arrival) : bool := match e with Blocks => true | _ => false end.
Definition blocks (evs : list arrival) : nat := length (List.filter is_block evs).

Lemma fill_spec need got evs :
  pieces_ok evs → (length got <= need)%nat →
  match fill need got evs with
  | (Full g, evs') => length g = need ∧ g ++ wire_of evs' = got ++ wire_of evs ∧ pieces_ok evs' ∧ (blocks evs' <= blocks evs)%nat
  | (Waits g, evs') => (length g < need)%nat ∧ g ++ wire_of evs' = got ++ wire_of evs ∧ pieces_ok evs' ∧ (blocks evs' < blocks evs)%nat
  | (Ended g, evs') => (length g < need)%nat ∧ g = got ++ wire_of evs ∧ evs' = []
  | (Broken _, _) => False
  end.
Proof.
  intros Hp. revert got. induction Hp as [|e evs [He1 He2] Hp IH]; intros got Hg; cbn [fill];
    destruct (Nat.leb_spec need (length got)) as [Hl|Hl].
  - split_and!; [lia|done|constructor|done].
  - split_and!; [done|by rewrite app_nil_r|done].
  - split_and!; [lia|done|by constructor|done].
  - destruct e as [[|x b]| |]; [done| | |done].
    + destruct (Nat.leb_spec (length (x :: b)) (need - length got)) as [Hb|Hb].
      * specialize (IH (got ++ x :: b)). rewrite length_app in IH. specialize (IH ltac:(lia)).
        unfold blocks in *. cbn [List.filter is_block] in *. unfold wire_of in *. cbn [fmap list_fmap piece_bytes concat] in *.
        rewrite app_assoc. destruct (fill need (got ++ x :: b) evs) as [[g|g|g|] evs']; intuition congruence.
      * split_and!.
        -- rewrite length_app, length_take. lia.
        -- unfold wire_of. cbn [fmap list_fmap piece_bytes concat]. rewrite <- app_assoc, (app_assoc (take _ _)), take_drop. done.
        -- constructor; [|done]. split; [|done]. intros [= Hd]. apply (f_equal length) in Hd. rewrite length_drop in Hd. cbn in Hd, Hb. lia.
        -- done.
    + split_and!; [done|done|done|]. unfold blocks. cbn. lia.
Qed.

Section read.
Context {S : Type}.
(** [expects s wire P]: with [wire] on its way the reader is about to give out
    [P]; [size] is what it holds of a frame. *)
Context (expects : S → bytes → bytes → Prop) (size : S → nat).

(** A poll gives out a prefix of what is expected, something unless there is
    nothing more, or waits for a connection that waits; it fails only at the
    end. *)
Definition poll_ok (cap : nat) (P : bytes) (evs : list arrival) (r : poll * S * list arrival) : Prop :=
  let '(p, s', evs') := r in
  match p with
  | PReady b => ∃ P', P = b ++ P' ∧ expects s' (wire_of evs') P' ∧ pieces_ok evs' ∧ (blocks evs' <= blocks evs)%nat
                  ∧ ((0 < cap)%nat → b ≠ [] ∨ P = [])
  | PPending => expects s' (wire_of evs') P ∧ pieces_ok evs' ∧ (blocks evs' < blocks evs)%nat
  | PError _ => P = []
  end.
Definition turn_ok (cap : nat) (P : bytes) (s : S) (evs : list arrival) (r : option poll * S * list arrival) : Prop :=
  let '(p, s', evs') := r in
  match p with
  | None => expects s' (wire_of evs') P ∧ pieces_ok evs' ∧ (blocks evs' <= blocks evs)%nat
            ∧ (size s' + length (wire_of evs') < size s + length (wire_of evs))%nat
  | Some p => poll_ok cap P evs (p, s', evs')
  end.

Lemma poll_loop_ok turn :
  (∀ cap s evs P, pieces_ok evs → expects s (wire_of evs) P → ∃ r, turn cap s evs = Found r ∧ turn_ok cap P s evs r) →
  ∀ fuel cap s evs P,
    pieces_ok evs → expects s (wire_of evs) P → (size s + length (wire_of evs) < fuel)%nat →
    ∃ r, poll_loop turn fuel cap s evs = Found r ∧ poll_ok cap P evs r.
Proof.
  intros Hturn fuel cap. induction fuel as [|fuel IH]; intros s evs P Hp He Hf; [lia|]. cbn [poll_loop].
  destruct (Hturn cap s evs P Hp He) as ([[[p|] s'] evs']&->&Ht); cbn [bind_outcome]; [by eexists|].
  destruct Ht as (He'&Hp'&Hbl&Hlt). destruct (IH s' evs' P Hp' He' ltac:(lia)) as ([[p s2] evs2]&->&Hr). eexists. split; [done|].
  destruct p as [b| |e]; cbn [poll_ok] in *; [|intuition lia|done].
  destruct Hr as (P'&?&?&?&?&?). exists P'. split_and!; [done..|lia|done].
Qed.

Lemma polls_deliver poll_read :
  (∀ cap s evs P, pieces_ok evs → expects s (wire_of evs) P → ∃ r, poll_read cap s evs = Found r ∧ poll_ok cap P evs r) →
  ∀ caps s evs P, pieces_ok evs → expects s (wire_of evs) P → Forall (fun c => 0 < c)%nat caps →
  ∃ rs s' evs' P', polls poll_read caps s evs = Found (rs, s', evs') ∧ P = concat (bytes_of <$> rs) ++ P'
    ∧ ((length P + blocks evs <= length caps)%nat → P' = []).
Proof.
  intros Hpoll caps s evs P Hp He Hcaps. revert s evs P Hp He.
  induction Hcaps as [|cap caps Hc Hcaps IH]; intros s evs P Hp He; cbn [polls].
  { exists [], s, evs, P. split_and!; [done|done|]. intros Hl. cbn in Hl. destruct P; [done|cbn in Hl; lia]. }
  destruct (Hpoll cap s evs P Hp He) as ([[p s1] evs1]&->&Hr). cbn [bind_outcome]. destruct p as [b| |e]; cbn [poll_ok] in Hr.
  - destruct Hr as (P1&->&He1&Hp1&Hbl&Hb). destruct (IH s1 evs1 P1 Hp1 He1) as (rs&s'&evs'&P'&->&->&Hall).
    exists (PReady b :: rs), s', evs', P'. split_and!; [done|by cbn; rewrite app_assoc|].
    intros Hl. rewrite length_app in Hl. cbn [length] in Hl. destruct (Hb Hc) as [Hne|E].
    + apply Hall. destruct b; [done|cbn in Hl; lia].
    + apply app_nil in E as [_ E]. by apply app_nil in E as [_ ->].
  - destruct Hr as (He1&Hp1&Hbl). destruct (IH s1 evs1 P Hp1 He1) as (rs&s'&evs'&P'&->&->&Hall).
    exists (PPending :: rs), s', evs', P'. split_and!; [done|done|]. intros Hl. apply Hall. cbn [length] in Hl. lia.
  - subst P. by exists [PError e], s1, evs1, [].
Qed.
End read.

(** ** Writing chunk by chunk *)

Inductive WriteState :=
| Ready
| Writing (rest : bytes) (original_len : nat).
(** [write_all]: polls until everything was taken, with the same buffer after a
    pending poll. *)
Fixpoint write_loop {S} (poll_write : bytes → S → list wrote → outcome (wpoll * S * list wrote * bytes))
  (fuel : nat) (data : bytes) (s : S) (ws : list wrote) : outcome (result string S * bytes) :=
  match fuel with
  | O => OutOfFuel
  | Datatypes.S fuel =>
      match data with
      | [] => Found (Ok s, [])
      | _ =>
          let! '(p, s, ws, out) := poll_write data s ws in
          match p with
          | WDone n => let! '(r, more) := write_loop poll_write fuel (drop n data) s ws in Found (r, out ++ more)
          | WPending => let! '(r, more) := write_loop poll_write fuel data s ws in Found (r, out ++ more)
          | WError e => Found (Err e, out)
          end
      end
  end.

Definition wblocks (ws : list wrote) : nat := length (List.filter (fun w => match w with WBlocks => true | _ => false end) ws).
Definition writes (ws : list wrote) : nat := length (List.filter (fun w => match w with Wrote _ => true | _ => false end) ws).
Definition accepting (ws : list wrote) : Prop := Forall (fun w => w ≠ WBreaks ∧ w ≠ Wrote 0) ws.
Lemma push_ok data ws :
  accepting ws →
  match push data ws with
  | (Pushed, ws', out) => out = data ∧ accepting ws' ∧ (writes ws <= writes ws' + length data)%nat ∧ (wblocks ws' <= wblocks ws)%nat
  | (PushWaits rest, ws', out) =>
      data = out ++ rest ∧ rest ≠ [] ∧ accepting ws' ∧ (writes ws + length rest <= writes ws' + length data)%nat
      ∧ ((wblocks ws' < wblocks ws)%nat ∨ ws' = [])
  | _ => False
  end.
Proof.
  intros Ha. revert data. induction Ha as [|w ws [Hw1 Hw2] Ha IH]; intros [|x data]; cbn [push].
  - split_and!; [done|constructor|cbn; lia|done].
  - split_and!; [done|done|constructor|cbn; lia|by right].
  - split_and!; [done|by constructor|lia|done].
  - destruct w as [[|n]| |]; [done| | |done].
    + specialize (IH (drop (S n) (x :: data))). destruct (push (drop (S n) (x :: data)) ws) as [[[|rest|rest|rest] ws'] out]; try done.
      * destruct IH as (->&Ha'&Hw&Hb). split_and!; [by rewrite take_drop|done| |done].
        unfold writes in *. cbn [List.filter length]. rewrite length_drop in Hw. cbn [length] in *. lia.
      * destruct IH as (Hd&Hr&Ha'&Hw&Hb). split_and!; [by rewrite <- app_assoc, <- Hd, take_drop|done|done| |done].
        unfold writes in *. cbn [List.filter length]. rewrite length_drop in Hw. cbn [length] in *. lia.
    + split_and!; [done|done|done|unfold writes; cbn; lia|left; unfold wblocks; cbn; lia].
Qed.

(** The chunks of at most [n] bytes that data is cut into. *)
Fixpoint chunks_of (n fuel : nat) (data : bytes) : list bytes :=
  match fuel, data with
  | S fuel, _ :: _ => take n data :: chunks_of n fuel (drop n data)
  | _, _ => []
  end.
Definition chunks (n : nat) (data : bytes) : list bytes := chunks_of n (length data) data.
Definition chunk_ok (n : nat) (p : bytes) : Prop := (0 < length p <= n)%nat.

Lemma chunks_of_ok n fuel data : (0 < n)%nat → (length data <= fuel)%nat →
  concat (chunks_of n fuel data) = data ∧ Forall (chunk_ok n) (chunks_of n fuel data).
Proof.
  intros Hn. revert data. induction fuel as [|fuel IH]; intros [|x data] Hl; cbn [length] in Hl; try lia; try (split; [done|constructor]).
  cbn [chunks_of]. destruct (IH (drop n (x :: data))) as [Hc Hf].
  { rewrite length_drop. cbn [length]. lia. }
  cbn [concat]. rewrite Hc, take_drop. split; [done|]. constructor; [|done]. unfold chunk_ok. rewrite length_take. cbn [length]. lia.
Qed.
Lemma chunks_of_fuel n f g data : (0 < n)%nat → (length data <= f)%nat → (length data <= g)%nat → chunks_of n f data = chunks_of n g data.
Proof.
  intros Hn. revert g data. induction f as [|f IH]; intros [|g] [|x data] Hf Hg; cbn [length] in *; try lia; try done.
  cbn [chunks_of]. f_equal. apply IH; rewrite length_drop; cbn [length]; lia.
Qed.
Lemma chunks_cons n data : (0 < n)%nat → data ≠ [] → chunks n data = take n data :: chunks n (drop n data).
Proof.
  intros Hn Hne. unfold chunks. destruct data as [|x data]; [done|]. cbn [length chunks_of]. f_equal.
  apply chunks_of_fuel; rewrite ?length_drop; cbn [length]; lia.
Qed.
Lemma chunks_ok n data : (0 < n)%nat → concat (chunks n data) = data ∧ Forall (chunk_ok n) (chunks n data).
Proof. intros. by apply chunks_of_ok. Qed.
Lemma chunk_take n data : (0 < n)%nat → data ≠ [] → chunk_ok n (take n data).
Proof. intros Hn Hd. unfold chunk_ok. rewrite length_take. destruct data; [done|]. cbn [length]. lia. Qed.
Lemma drop_min {A} n (l : list A) : drop (Nat.min (length l) n) l = drop n l.
Proof. destruct (Nat.le_ge_cases (length l) n); [rewrite Nat.min_l by done; rewrite !drop_ge by lia; done|by rewrite Nat.min_r]. Qed.
Lemma take_min {A} n (l : list A) : take (Nat.min (length l) n) l = take n l.
Proof. destruct (Nat.le_ge_cases (length l) n); [rewrite Nat.min_l by done; rewrite !take_ge by lia; done|by rewrite Nat.min_r]. Qed.
Lemma app_same_length {A} (a b c d : list A) : a ++ b = c ++ d → length a = length c → a = c ∧ b = d.
Proof. intros E L. by apply app_inj_1. Qed.

(** A stream [S] with an encoder [E] and a write state; a chunk goes out as
    [frame e p], and the encoder is [next e] behind it. *)
Section write.
Context {S E : Type} (enc : S → E) (wstate : S → WriteState) (set_write : E → WriteState → S → S).

(** The arm that pushes the rest of a frame out. *)
Definition finish_write (rest : bytes) (n : nat) (s : S) (ws : list wrote) : wpoll * S * list wrote * bytes :=
  match push rest ws with
  | (Pushed, ws, out) => (WDone n, set_write (enc s) Ready s, ws, out)
  | (PushWaits rest, ws, out) => (WPending, set_write (enc s) (Writing rest n) s, ws, out)
  | (PushZero rest, ws, out) => (WError "write returned 0", set_write (enc s) (Writing rest n) s, ws, out)
  | (PushBroken rest, ws, out) => (WError "write", set_write (enc s) (Writing rest n) s, ws, out)
  end.

Context (frame : E → bytes → bytes) (next : E → E).
Fixpoint frames (e : E) (ps : list bytes) : bytes :=
  match ps with
  | [] => []
  | p :: ps => frame e p ++ frames (next e) ps
  end.

Context (enc_set : ∀ e w s, enc (set_write e w s) = e) (wstate_set : ∀ e w s, wstate (set_write e w s) = w).
Context (max : nat) (max_pos : (0 < max)%nat) (good : S → Prop).
Context (good_set : ∀ s w, good s → good (set_write (enc s) w s)).
Context (frame_nonempty : ∀ s p, good s → chunk_ok max p → frame (enc s) p ≠ []).
Context (poll_write : bytes → S → list wrote → outcome (wpoll * S * list wrote * bytes)).
(** A poll that is ready makes the frame of the next chunk, another goes on with
    its frame. *)
Context (write_ready : ∀ data s ws, data ≠ [] → wstate s = Ready → good s →
  let f := frame (enc s) (take max data) in
  let n := Nat.min (length data) max in
  let s1 := set_write (next (enc s)) (Writing f n) s in
  good s1 ∧ poll_write data s ws = Found (finish_write f n s1 ws)).
Context (write_goes_on : ∀ data s ws rest n, wstate s = Writing rest n → poll_write data s ws = Found (finish_write rest n s ws)).

(** What is still to go out for [data]. *)
Definition owed (s : S) (data : bytes) : bytes :=
  match wstate s with
  | Ready => frames (enc s) (chunks max data)
  | Writing rest n => rest ++ frames (enc s) (chunks max (drop n data))
  end.
Definition writer_ok (s : S) (data : bytes) : Prop :=
  good s ∧ match wstate s with Ready => True | Writing rest n => rest ≠ [] ∧ data ≠ [] ∧ n = Nat.min (length data) max end.

Lemma finish_write_ok rest n s ws :
  accepting ws → rest ≠ [] → (length rest <= writes ws)%nat → good s →
  let '(p, s', ws', out) := finish_write rest n s ws in
  accepting ws' ∧ enc s' = enc s ∧ good s'
  ∧ ((p = WDone n ∧ out = rest ∧ wstate s' = Ready ∧ (wblocks ws' <= wblocks ws)%nat ∧ (writes ws <= writes ws' + length rest)%nat)
     ∨ (∃ rest', p = WPending ∧ rest = out ++ rest' ∧ rest' ≠ [] ∧ wstate s' = Writing rest' n ∧ (wblocks ws' < wblocks ws)%nat
        ∧ (writes ws + length rest' <= writes ws' + length rest)%nat)).
Proof using enc_set wstate_set good_set max_pos.
  intros Ha Hr Hw Hg. unfold finish_write. pose proof (push_ok rest ws Ha) as Hp.
  destruct (push rest ws) as [[[|rest'|rest'|rest'] ws'] out]; try done.
  - destruct Hp as (->&Ha'&Hw'&Hb). split_and!; [done|done|auto|]. left. by rewrite wstate_set.
  - destruct Hp as (Hd&Hne&Ha'&Hw'&Hb). split_and!; [done|done|auto|]. right. exists rest'. rewrite wstate_set. split_and!; try done.
    destruct Hb as [Hb| ->]; [done|]. exfalso. assert (0 < length rest')%nat by (destruct rest'; [done|cbn; lia]). cbn in Hw'. lia.
Qed.

Lemma write_loop_ok fuel data s ws :
  accepting ws → writer_ok s data → (length (owed s data) <= writes ws)%nat → (length (chunks max data) + wblocks ws < fuel)%nat →
  ∃ s', write_loop poll_write fuel data s ws = Found (Ok s', owed s data) ∧ wstate s' = Ready.
Proof using All.
  revert data s ws. induction fuel as [|fuel IH]; intros data s ws Ha [Hg Hs] Hw Hf; [lia|]. cbn [write_loop].
  destruct data as [|x data0] eqn:Ed.
  { unfold owed in *. destruct (wstate s) eqn:Ews; [|by destruct Hs as (_&?&_)]. by exists s. }
  rewrite <- Ed in *. assert (Hne : data ≠ []) by (by rewrite Ed).
  assert (Hstep : ∃ s1 rest, poll_write data s ws = Found (finish_write rest (Nat.min (length data) max) s1 ws)
    ∧ good s1 ∧ rest ≠ [] ∧ owed s data = rest ++ frames (enc s1) (chunks max (drop max data))).
  { unfold owed. destruct (wstate s) as [|rest n] eqn:Ews.
    - destruct (write_ready data s ws Hne Ews Hg) as [Hg1 Hp]. eexists _, _. split; [exact Hp|]. split; [done|].
      split; [by apply frame_nonempty, chunk_take|]. rewrite (chunks_cons max data) by done. cbn [frames]. by rewrite enc_set.
    - destruct Hs as (Hr&_&->). exists s, rest. rewrite drop_min. auto. }
  destruct Hstep as (s1&rest&->&Hg1&Hr&Ho). rewrite Ho in *. rewrite length_app in Hw.
  pose proof (finish_write_ok rest (Nat.min (length data) max) s1 ws Ha Hr ltac:(lia) Hg1) as Hfin. cbn [bind_outcome].
  destruct (finish_write _ _ s1 ws) as [[[p s2] ws'] out].
  destruct Hfin as (Ha'&He&Hg2&[(->&->&Hst&Hb&Hw')|(rest'&->&->&Hr'&Hst&Hb&Hw')]).
  - rewrite drop_min. destruct (IH (drop max data) s2 ws') as (s'&->&Hs'); [done| | | |].
    + split; [done|by rewrite Hst].
    + unfold owed. rewrite Hst, He. lia.
    + rewrite (chunks_cons max data) in Hf by done. cbn [length] in Hf. lia.
    + cbn [bind_outcome]. exists s'. split; [|done]. unfold owed. by rewrite Hst, He.
  - assert (owed s2 data = rest' ++ frames (enc s1) (chunks max (drop max data))) as Ho2.
    { unfold owed. by rewrite Hst, He, drop_min. }
    rewrite length_app in Hw, Hw'. destruct (IH data s2 ws') as (s'&->&Hs'); [done| | | |].
    + split; [done|by rewrite Hst].
    + rewrite Ho2, length_app. lia.
    + lia.
    + cbn [bind_outcome]. exists s'. split; [|done]. by rewrite Ho2, app_assoc.
Qed.
End write.

(** ** Complete transfers *)

(** Any data has one image such that, however the connection takes it, exactly
    that goes out, and however the image arrives behind [ahead], the polls of the
    reader give out the data. *)
Definition carries {S R} (poll_write : bytes → S → list wrote → outcome (wpoll * S * list wrote * bytes))
  (poll_read : nat → R → list arrival → outcome (poll * R * list arrival)) (s : S) (r : R) (ahead : bytes) : Prop :=
  ∀ data, ∃ wire,
    (∀ ws, accepting ws → (length wire <= writes ws)%nat →
       ∃ s', write_loop poll_write (Datatypes.S (length data + wblocks ws)) data s ws = Found (Ok s', wire))
    ∧ ∀ evs caps, pieces_ok evs → wire_of evs = ahead ++ wire → Forall (fun c => 0 < c)%nat caps →
       (length data + blocks evs <= length caps)%nat →
       ∃ rs r' evs', polls poll_read caps r evs = Found (rs, r', evs') ∧ concat (bytes_of <$> rs) = data.

Lemma length_chunks n data : (0 < n)%nat → (length (chunks n data) <= length data)%nat.
Proof.
  intros _. unfold chunks. enough (∀ f data, length (chunks_of n f data) <= f)%nat by auto. clear data.
  intros f. induction f as [|f IH]; intros [|x data]; cbn [chunks_of length]; try lia. apply le_n_S, IH.
Qed.
Lemma carries_intro {S R} poll_write poll_read (expects : R → bytes → bytes → Prop) (s : S) (r : R) ahead (image : bytes → bytes) max :
  (0 < max)%nat →
  (∀ fuel data ws, accepting ws → (length (image data) <= writes ws)%nat → (length (chunks max data) + wblocks ws < fuel)%nat →
     ∃ s', write_loop poll_write fuel data s ws = Found (Ok s', image data)) →
  (∀ cap s evs P, pieces_ok evs → expects s (wire_of evs) P → ∃ x, poll_read cap s evs = Found x ∧ poll_ok expects cap P evs x) →
  (∀ data, expects r (ahead ++ image data) data) →
  carries poll_write poll_read s r ahead.
Proof.
  intros Hm Hw Hp He data. exists (image data). split.
  - intros ws Ha Hl. apply Hw; [done|done|]. pose proof (length_chunks max data Hm). lia.
  - intros evs caps Hev Hwire Hcaps Hl. specialize (He data). rewrite <- Hwire in He.
    destruct (polls_deliver expects poll_read Hp caps r evs data Hev He Hcaps) as (rs&r'&evs'&P'&Hpl&Hd&Hall).
    exists rs, r', evs'. split; [done|]. rewrite Hall in Hd by done. by rewrite app_nil_r in Hd.
Qed.
