(* ===== verification/Shadowsocks.v ===== *)
(** * Shadowsocks ([src/src/proxy/outbound/shadowsocks/],
    [src/src/proxy/inbound/shadowsocks.rs])

    Keys, the AEAD cipher with its counter, both ends of the handshake, the
    encrypted stream as a state machine over polls, the UDP transports and the
    server's table of users.  The primitives are the class [Primitives]; random
    salts and clock readings are arguments.  The stream of the server repeats the
    one of the client without the state that waits for a salt. *)

From Stdlib Require Import Ascii.
From S2P Require Import Prelude RustStr Addr Rules Config Proc Outcome Polled.

Local Open Scope string_scope.
Local Open Scope list_scope.
Local Open Scope Z_scope.

(** ** Ciphers *)

Inductive CipherKind :=
| Aes128Gcm | Aes256Gcm | ChaCha20Poly1305 | Aes128Gcm2022 | Aes256Gcm2022 | ChaCha20Poly1305_2022.
#[export] Instance cipher_kind_eq_dec : EqDecision CipherKind.
Proof. solve_decision. Defined.

Definition cipher_parse (s : string) : option CipherKind :=
  let s := to_lowercase s in
  if String.eqb s "aes-128-gcm" then Some Aes128Gcm
  else if String.eqb s "aes-256-gcm" then Some Aes256Gcm
  else if String.eqb s "chacha20-ietf-poly1305" || String.eqb s "chacha20-poly1305" then Some ChaCha20Poly1305
  else if String.eqb s "2022-blake3-aes-128-gcm" || String.eqb s "aes-128-gcm-2022" then Some Aes128Gcm2022
  else if String.eqb s "2022-blake3-aes-256-gcm" || String.eqb s "aes-256-gcm-2022" then Some Aes256Gcm2022
  else if String.eqb s "2022-blake3-chacha20-poly1305" || String.eqb s "chacha20-poly1305-2022" then Some ChaCha20Poly1305_2022
  else None.
Definition key_len (k : CipherKind) : nat := match k with Aes128Gcm | Aes128Gcm2022 => 16 | _ => 32 end.
Definition salt_len (k : CipherKind) : nat := key_len k.
Definition tag_len (k : CipherKind) : nat := 16.
Definition is_aead_2022 (k : CipherKind) : bool :=
  match k with Aes128Gcm2022 | Aes256Gcm2022 | ChaCha20Poly1305_2022 => true | _ => false end.

(** The three ciphers behind the six names, and the other primitives.  [seal]
    gives the ciphertext and the tag. *)
Inductive Primitive := PAes128 | PAes256 | PChaCha.
Definition primitive (k : CipherKind) : Primitive :=
  match k with
  | Aes128Gcm | Aes128Gcm2022 => PAes128
  | Aes256Gcm | Aes256Gcm2022 => PAes256
  | ChaCha20Poly1305 | ChaCha20Poly1305_2022 => PChaCha
  end.
Class Primitives := {
  seal : Primitive → bytes → bytes → bytes → option (bytes * bytes);
  unseal : Primitive → bytes → bytes → bytes → bytes → option bytes;
  hkdf_sha1 : bytes → bytes → string → nat → option bytes;
  blake3_derive_key : string → bytes → bytes;
  md5 : bytes → bytes;
  b64_standard : string → option bytes;
  b64_url_safe : string → option bytes;
  b64_no_pad : string → option bytes
}.
(** What they document: a message of a frame's size is sealed into as many bytes
    and a tag of 16, and opens again; digests have their sizes; HKDF-SHA1 gives up
    to 255 times 20 bytes. *)
Class PrimitivesLaws `{Primitives} := {
  seal_some : ∀ p k n m, len m < 2 ^ 17 → ∃ c t, seal p k n m = Some (c, t) ∧ length c = length m ∧ length t = 16%nat;
  unseal_seal : ∀ p k n m c t, seal p k n m = Some (c, t) → unseal p k n c t = Some m;
  unseal_length : ∀ p k n c t m, unseal p k n c t = Some m → length m = length c;
  hkdf_length : ∀ salt k i l, (l <= 5100)%nat → ∃ b, hkdf_sha1 salt k i l = Some b ∧ length b = l;
  blake3_length : ∀ c m, length (blake3_derive_key c m) = 32%nat;
  md5_length : ∀ m, length (md5 m) = 16%nat
}.

Section ss.
Context `{Primitives}.

(** ** Keys *)

(** The loop needs one unit for each 16 bytes. *)
Fixpoint evp_loop (fuel : nat) (password : bytes) (n : nat) (key : bytes) (prev : option bytes) : option bytes :=
  if (n <=? length key)%nat then Some (take n key)
  else
    match fuel with
    | O => None
    | S fuel =>
        let hash := md5 (default [] prev ++ password) in
        evp_loop fuel password n (key ++ hash) (Some hash)
    end.
Definition evp_bytes_to_key (password : bytes) (n : nat) : option bytes := evp_loop n password n [] None.

Definition derive_subkey (key salt : bytes) (n : nat) : result string bytes :=
  match hkdf_sha1 salt key "ss-subkey" n with Some b => Ok b | None => Err "HKDF expand failed" end.
Definition derive_subkey_2022 (key salt : bytes) (n : nat) : result string bytes :=
  Ok (take n (blake3_derive_key "shadowsocks 2022 session subkey" (key ++ salt))).
Definition derive_identity_subkey_2022 (identity_key salt : bytes) (n : nat) : bytes :=
  take n (blake3_derive_key "shadowsocks 2022 identity subkey" (identity_key ++ salt)).
Definition subkey (k : CipherKind) (key salt : bytes) : result string bytes :=
  if is_aead_2022 k then derive_subkey_2022 key salt (key_len k) else derive_subkey key salt (key_len k).

Definition of_length (n : nat) (o : option bytes) : option bytes :=
  match o with Some b => if (length b =? n)%nat then Some b else None | None => None end.
Definition ss2022_password_to_key (password : string) (n : nat) : result string bytes :=
  match of_length n (b64_standard (trim password)) with
  | Some k => Ok k
  | None =>
      match of_length n (b64_url_safe (trim password)) with
      | Some k => Ok k
      | None =>
          match of_length n (b64_no_pad (trim password)) with
          | Some k => Ok k
          | None =>
              if (length (as_bytes password) =? n)%nat then Ok (as_bytes password)
              else Err "invalid shadowsocks 2022 key"
          end
      end
  end.
Definition derive_master_key (k : CipherKind) (password : string) : result string bytes :=
  if is_aead_2022 k then ss2022_password_to_key password (key_len k)
  else match evp_bytes_to_key (as_bytes password) (key_len k) with Some b => Ok b | None => Err "unreachable" end.

(** ** The cipher *)

Record AeadCipher := mkCipher { c_kind : CipherKind; c_key : bytes; nonce : Z }.
Definition cipher_new (k : CipherKind) (subkey : bytes) : AeadCipher := mkCipher k subkey 0.
Definition nonce_bytes (n : Z) : bytes := rev (to_be_bytes 8 n) ++ replicate 4 Byte.x00.
Definition advance (c : AeadCipher) : AeadCipher := mkCipher (c_kind c) (c_key c) (wrap 64 (nonce c + 1)).

(** A key of another length makes [GenericArray::from_slice] panic. *)
Definition encrypt (plaintext : bytes) (c : AeadCipher) : outcome (result string bytes * AeadCipher) :=
  if negb (length (c_key c) =? key_len (c_kind c))%nat then Panic
  else
    Found (match seal (primitive (c_kind c)) (c_key c) (nonce_bytes (nonce c)) plaintext with
           | Some (ct, tag) => Ok (ct ++ tag)
           | None => Err "encrypt failed"
           end, advance c).
Definition decrypt (data : bytes) (c : AeadCipher) : outcome (result string bytes * AeadCipher) :=
  let t := tag_len (c_kind c) in
  if (length data <? t)%nat then Found (Err "ciphertext too short", c)
  else if negb (length (c_key c) =? key_len (c_kind c))%nat then Panic
  else
    let ct_len := (length data - t)%nat in
    Found (match unseal (primitive (c_kind c)) (c_key c) (nonce_bytes (nonce c)) (take ct_len data) (drop ct_len data) with
           | Some m => Ok m
           | None => Err "decrypt failed"
           end, advance c).

(** ** The encrypted stream *)

Definition MAX_PAYLOAD_SIZE : nat := Z.to_nat 16383.

Inductive ReadState :=
| Salt (got : bytes)
| Length (got : bytes)
| Payload (need : nat) (got : bytes).
(** [read_buf] is the part that was not handed out yet. *)
Record AeadStream := mkStream {
  encoder : AeadCipher;
  decoder : option AeadCipher;
  s_kind : CipherKind;
  s_key : bytes;
  read_buf : bytes;
  read_state : ReadState;
  write_state : WriteState
}.
Definition stream_new (enc : AeadCipher) (k : CipherKind) (key : bytes) : AeadStream :=
  mkStream enc None k key [] (Salt []) Ready.
(** [ShadowsocksAeadStream::new] *)
Definition server_stream_new (k : CipherKind) (enc dec : AeadCipher) : AeadStream :=
  mkStream enc (Some dec) k [] [] (Length []) Ready.
Definition set_read (b : bytes) (r : ReadState) (d : option AeadCipher) (s : AeadStream) : AeadStream :=
  mkStream (encoder s) d (s_kind s) (s_key s) b r (write_state s).
Definition set_write (e : AeadCipher) (w : WriteState) (s : AeadStream) : AeadStream :=
  mkStream e (decoder s) (s_kind s) (s_key s) (read_buf s) (read_state s) w.

Definition eof : poll := PError "connection closed".

(** A frame read to its end: decrypt it. *)
Definition open_frame (data : bytes) (s : AeadStream) : outcome (result string bytes * option AeadCipher) :=
  match decoder s with
  | None => Found (Err "decoder not initialized", None)
  | Some d => let! '(r, d) := decrypt data d in Found (r, Some d)
  end.
(** One turn of the loop of [poll_read]; [None] goes round again. *)
Definition read_turn (cap : nat) (s : AeadStream) (evs : list arrival)
  : outcome (option poll * AeadStream * list arrival) :=
  match read_buf s with
  | _ :: _ =>
      Found (Some (PReady (take cap (read_buf s))), set_read (drop cap (read_buf s)) (read_state s) (decoder s) s, evs)
  | [] =>
      match read_state s with
      | Salt got =>
          match fill (salt_len (s_kind s)) got evs with
          | (Full salt, evs) =>
              match subkey (s_kind s) (s_key s) salt with
              | Ok k => Found (None, set_read [] (Length []) (Some (cipher_new (s_kind s) k)) s, evs)
              | Err e => Found (Some (PError e), set_read [] (Salt salt) (decoder s) s, evs)
              end
          | (Waits got, evs) => Found (Some PPending, set_read [] (Salt got) (decoder s) s, evs)
          | (Ended got, evs) => Found (Some eof, set_read [] (Salt got) (decoder s) s, evs)
          | (Broken got, evs) => Found (Some (PError "read"), set_read [] (Salt got) (decoder s) s, evs)
          end
      | Length got =>
          match fill (2 + tag_len (s_kind s)) got evs with
          | (Full frame, evs) =>
              let! '(r, d) := open_frame frame s in
              match r with
              | Err e => Found (Some (PError e), set_read [] (Length frame) d s, evs)
              | Ok len_plain =>
                  match len_plain with
                  | b0 :: b1 :: _ =>
                      let payload_len := Z.to_nat (from_be_bytes [b0; b1]) in
                      if (MAX_PAYLOAD_SIZE <? payload_len)%nat
                      then Found (Some (PError "payload length exceeds maximum"), set_read [] (Length frame) d s, evs)
                      else Found (None, set_read [] (Payload (payload_len + tag_len (s_kind s)) []) d s, evs)
                  | _ => Panic
                  end
              end
          | (Waits got, evs) => Found (Some PPending, set_read [] (Length got) (decoder s) s, evs)
          | (Ended got, evs) => Found (Some eof, set_read [] (Length got) (decoder s) s, evs)
          | (Broken got, evs) => Found (Some (PError "read"), set_read [] (Length got) (decoder s) s, evs)
          end
      | Payload need got =>
          match fill need got evs with
          | (Full frame, evs) =>
              let! '(r, d) := open_frame frame s in
              match r with
              | Err e => Found (Some (PError e), set_read [] (Payload need frame) d s, evs)
              | Ok payload => Found (None, set_read payload (Length []) d s, evs)
              end
          | (Waits got, evs) => Found (Some PPending, set_read [] (Payload need got) (decoder s) s, evs)
          | (Ended got, evs) => Found (Some eof, set_read [] (Payload need got) (decoder s) s, evs)
          | (Broken got, evs) => Found (Some (PError "read"), set_read [] (Payload need got) (decoder s) s, evs)
          end
      end
  end.
Definition got_of (r : ReadState) : bytes := match r with Salt g => g | Length g => g | Payload _ g => g end.
(** A turn that goes round again uses up a frame: one unit per byte is enough. *)
Definition poll_read (cap : nat) (s : AeadStream) (evs : list arrival) : outcome (poll * AeadStream * list arrival) :=
  poll_loop read_turn (length (got_of (read_state s)) + length (wire_of evs) + 2) cap s evs.

(** *** Writing *)

Definition poll_write (buf : bytes) (s : AeadStream) (ws : list wrote)
  : outcome (wpoll * AeadStream * list wrote * bytes) :=
  match write_state s with
  | Writing rest n => Found (finish_write encoder set_write rest n s ws)
  | Ready =>
      match buf with
      | [] => Found (WDone 0, s, ws, [])
      | _ =>
          let chunk_len := Nat.min (length buf) MAX_PAYLOAD_SIZE in
          let chunk := take chunk_len buf in
          let! '(r1, e) := encrypt (to_be_bytes 2 (Z.of_nat chunk_len)) (encoder s) in
          match r1 with
          | Err w => Found (WError w, set_write e Ready s, ws, [])
          | Ok encrypted_len =>
              let! '(r2, e) := encrypt chunk e in
              match r2 with
              | Err w => Found (WError w, set_write e Ready s, ws, [])
              | Ok encrypted_payload =>
                  Found (finish_write encoder set_write (encrypted_len ++ encrypted_payload) chunk_len
                           (set_write e (Writing (encrypted_len ++ encrypted_payload) chunk_len) s) ws)
              end
          end
      end
  end.

(** ** The client *)

Record ShadowsocksOutbound := mkSs {
  o_tag : string;
  server_addr : string;
  server_port : Z;
  cipher_kind : CipherKind;
  key : bytes;
  identity_key : option bytes
}.
(** [new] without the plugin process. *)
Definition outbound_new (config : OutboundConfig) : result string ShadowsocksOutbound :=
  let settings := o_settings config in
  match address settings, port settings, password settings, method settings with
  | None, _, _, _ => Err "missing 'address'"
  | _, None, _, _ => Err "missing 'port'"
  | _, _, None, _ => Err "missing 'password'"
  | _, _, _, None => Err "missing 'method'"
  | Some a, Some p, Some pw, Some m =>
      match cipher_parse m with
      | None => Err "unsupported shadowsocks cipher"
      | Some k =>
          let? key := derive_master_key k pw in
          let? id :=
            match Config.identity_key settings with
            | Some ipsk =>
                if negb (is_aead_2022 k) then Err "identity_key requires a 2022 cipher method"
                else let? b := ss2022_password_to_key ipsk (key_len k) in Ok (Some b)
            | None => Ok None
            end in
          Ok (mkSs (Config.o_tag config) a p k key id)
      end
  end.
(** Fallible and panicking steps inside a conversation. *)
Definition lift_crypto {A} (o : outcome (result string bytes * A)) : proc (bytes * A) :=
  match o with
  | Found (Ok b, a) => Ret (b, a)
  | Found (Err e, _) => bail e
  | _ => Stop Panicked
  end.
Definition write_aead_frame (payload : bytes) (c : AeadCipher) : proc AeadCipher :=
  let@ '(encrypted_len, c) := lift_crypto (encrypt (to_be_bytes 2 (wrap 16 (len payload))) c) in
  let@ _ := write_all encrypted_len in
  let@ '(encrypted_payload, c) := lift_crypto (encrypt payload c) in
  let@ _ := write_all encrypted_payload in
  Ret c.
(** The identity header: the user's key under the key of the server. *)
Definition identity_header (o : ShadowsocksOutbound) (salt : bytes) : proc unit :=
  match identity_key o with
  | None => Ret tt
  | Some ik =>
      let n := key_len (cipher_kind o) in
      let@ '(b, _) := lift_crypto (encrypt (take n (key o)) (cipher_new (cipher_kind o) (derive_identity_subkey_2022 ik salt n))) in
      write_all b
  end.
Definition connect (o : ShadowsocksOutbound) (salt : bytes) (target : Address) : proc AeadStream :=
  let@ sk := or_fail (subkey (cipher_kind o) (key o) salt) in
  let@ _ := write_all salt in
  let@ _ := identity_header o salt in
  let@ enc := write_aead_frame (encode_socks5 target []) (cipher_new (cipher_kind o) sk) in
  Ret (stream_new enc (cipher_kind o) (key o)).

(** *** UDP *)

(** [send]: the datagram; [now] is the time in seconds. *)
Definition udp_send (o : ShadowsocksOutbound) (salt : bytes) (now : Z) (p : UdpPacket) : outcome (result string bytes) :=
  match subkey (cipher_kind o) (key o) salt with
  | Err e => Found (Err e)
  | Ok sk =>
      let header := if is_aead_2022 (cipher_kind o) then [Byte.x00] ++ to_be_bytes 8 now ++ to_be_bytes 2 0 else [] in
      let payload := encode_socks5 (p_addr p) header ++ p_data p in
      let! '(r, _) := encrypt payload (cipher_new (cipher_kind o) sk) in
      match r with
      | Err e => Found (Err e)
      | Ok encrypted =>
          match identity_key o with
          | None => Found (Ok (salt ++ encrypted))
          | Some ik =>
              let n := key_len (cipher_kind o) in
              let! '(r, _) := encrypt (take n (key o)) (cipher_new (cipher_kind o) (derive_identity_subkey_2022 ik salt n)) in
              match r with Err e => Found (Err e) | Ok id => Found (Ok (salt ++ id ++ encrypted)) end
          end
      end
  end.
(** [recv] of a datagram. *)
Definition udp_recv (o : ShadowsocksOutbound) (buf : bytes) : outcome (result string UdpPacket) :=
  let n := salt_len (cipher_kind o) in
  if (length buf <? n)%nat then Found (Err "UDP packet too short for salt")
  else
    match subkey (cipher_kind o) (key o) (take n buf) with
    | Err e => Found (Err e)
    | Ok sk =>
        let! '(r, _) := decrypt (drop n buf) (cipher_new (cipher_kind o) sk) in
        match r with
        | Err e => Found (Err e)
        | Ok decrypted =>
            let short := is_aead_2022 (cipher_kind o) && (length decrypted <? 19)%nat in
            if short then Found (Err "SIP022 UDP response too short")
            else
              let payload_start :=
                if is_aead_2022 (cipher_kind o)
                then (19 + Z.to_nat (from_be_bytes (slice decrypted 17 19)))%nat else 0%nat in
              if (length decrypted <? payload_start)%nat then Panic
              else
                match parse_socks5_udp_addr (drop payload_start decrypted) with
                | Err _ => Found (Err "address")
                | Ok (addr, consumed) => Found (Ok (mkPacket addr (drop (payload_start + consumed) decrypted)))
                end
        end
    end.

(** ** The server *)

Record ShadowsocksUser := mkUser { u_name : string; u_key : bytes; traffic_up : Z; traffic_down : Z }.
Definition user_new (name : string) (key : bytes) : ShadowsocksUser := mkUser name key 0 0.
Record ShadowsocksInbound := mkIn { i_tag : string; i_kind : CipherKind; users : list ShadowsocksUser }.

(** The first eight characters; names are of ASCII here. *)
Fixpoint take_chars (n : nat) (s : string) : string :=
  match n, s with
  | S n, String a s => String a (take_chars n s)
  | _, _ => ""
  end.
Fixpoint add_config_users (k : CipherKind) (method : string) (raw : list ShadowsocksUserConfig) : result string (list ShadowsocksUser) :=
  match raw with
  | [] => Ok []
  | u :: raw =>
      match cipher_parse (default method (ssu_method u)) with
      | None => Err "unsupported shadowsocks cipher"
      | Some k' =>
          if negb (bool_decide (k' = k)) then Err "invalid shadowsocks user: method mismatches inbound method"
          else
            let? key := derive_master_key k' (ssu_password u) in
            let? us := add_config_users k method raw in
            Ok (user_new ("user_" +:+ take_chars 8 (ssu_password u)) key :: us)
      end
  end.
Definition inbound_new (config : InboundConfig) : result string ShadowsocksInbound :=
  match is_method (Config.i_settings config) with
  | None => Err "missing 'settings.method'"
  | Some m =>
      match cipher_parse m with
      | None => Err "unsupported shadowsocks cipher"
      | Some k =>
          let? first :=
            match is_password (Config.i_settings config) with
            | Some pw => let? key := derive_master_key k pw in Ok [user_new "default" key]
            | None => Ok []
            end in
          let? more := match is_users (Config.i_settings config) with Some raw => add_config_users k m raw | None => Ok [] end in
          match first ++ more with
          | [] => Err "requires 'settings.password' or non-empty 'settings.users'"
          | us => Ok (mkIn (Config.i_tag config) k us)
          end
      end
  end.

(** *** Users *)

Definition with_users (us : list ShadowsocksUser) (i : ShadowsocksInbound) : ShadowsocksInbound := mkIn (i_tag i) (i_kind i) us.
Definition named (name : string) (u : ShadowsocksUser) : bool := String.eqb (u_name u) name.
Definition add_user (name password : string) (i : ShadowsocksInbound) : result string ShadowsocksInbound :=
  let? key := derive_master_key (i_kind i) password in
  if existsb (named name) (users i) then Err "user exists"
  else Ok (with_users (users i ++ [user_new name key]) i).
Definition remove_user (name : string) (i : ShadowsocksInbound) : bool * ShadowsocksInbound :=
  let us := List.filter (fun u => negb (named name u)) (users i) in
  ((length us <? length (users i))%nat, with_users us i).
Definition list_users (i : ShadowsocksInbound) : list (string * Z * Z) :=
  (fun u => (u_name u, traffic_up u, traffic_down u)) <$> users i.
Fixpoint reset_first (name : string) (us : list ShadowsocksUser) : bool * list ShadowsocksUser :=
  match us with
  | [] => (false, [])
  | u :: us =>
      if named name u then (true, mkUser (u_name u) (u_key u) 0 0 :: us)
      else let '(b, us) := reset_first name us in (b, u :: us)
  end.
Definition reset_user_traffic (name : string) (i : ShadowsocksInbound) : bool * ShadowsocksInbound :=
  let '(b, us) := reset_first name (users i) in (b, with_users us i).
Definition user_count (i : ShadowsocksInbound) : nat := length (users i).

(** *** The handshake *)

(** The loop over the users; [None] when none of them can read the frame, an
    error of the primitives counts as such. *)
Fixpoint select_user (k : CipherKind) (salt len_frame : bytes) (us : list ShadowsocksUser) : outcome (option (bytes * nat)) :=
  match us with
  | [] => Found None
  | u :: us =>
      match derive_subkey (u_key u) salt (key_len k) with
      | Err _ => select_user k salt len_frame us
      | Ok sk =>
          let! '(r, _) := decrypt len_frame (cipher_new k sk) in
          match r with
          | Ok (b0 :: b1 :: _) => Found (Some (u_key u, Z.to_nat (from_be_bytes [b0; b1])))
          | _ => select_user k salt len_frame us
          end
      end
  end.
Inductive ss_accepted :=
| SsTcp (s : Session) (stream : AeadStream)
| SsUot (s : Session) (stream : AeadStream) (first : UdpPacket).
Definition handle (i : ShadowsocksInbound) (server_salt : bytes) (source : SocketAddr) : proc ss_accepted :=
  let k := i_kind i in
  let@ salt := read_exact (Z.of_nat (salt_len k)) in
  let@ len_frame := read_exact (Z.of_nat (2 + tag_len k)) in
  let@ selected := match select_user k salt len_frame (users i) with Found s => Ret s | _ => Stop Panicked end in
  let@ '(master_key, payload_len) := or_bail "authentication failed" selected in
  let@ payload_frame := read_exact (Z.of_nat (payload_len + tag_len k)) in
  let@ sk := or_fail (derive_subkey master_key salt (key_len k)) in
  let@ '(_, dec) := lift_crypto (decrypt len_frame (cipher_new k sk)) in
  let@ '(payload, dec) := lift_crypto (decrypt payload_frame dec) in
  let@ _ := write_all server_salt in
  let@ ek := or_fail (derive_subkey master_key server_salt (key_len k)) in
  let@ '(target, consumed) :=
    match parse_socks5_udp_addr payload with Ok x => Ret x | Err _ => bail "address" end in
  let stream := server_stream_new k (cipher_new k ek) dec in
  match drop consumed payload with
  | [] => Ret (SsTcp (mkSession target (Some source) (i_tag i) Tcp false None) stream)
  | first => Ret (SsUot (mkSession target (Some source) (i_tag i) Udp false None) stream (mkPacket target first))
  end.

(** *** UDP over the stream

    The transport writes and reads plain bytes of the encrypted stream.  Dropping
    the control channel after a failed read or write is left out. *)
Record UotTransport := mkUot { first_packet : option UdpPacket }.
Definition uot_new (first : UdpPacket) : UotTransport := mkUot (Some first).
Definition uot_send (p : UdpPacket) (t : UotTransport) : proc UotTransport :=
  let payload := encode_socks5 (p_addr p) [] ++ p_data p in
  if 65535 <? len payload then bail "UoT packet too large"
  else
    let@ _ := write_all (to_be_bytes 2 (len payload)) in
    let@ _ := write_all payload in
    Ret t.
Definition uot_recv (t : UotTransport) : proc (UdpPacket * UotTransport) :=
  match first_packet t with
  | Some p => Ret (p, mkUot None)
  | None =>
      let@ l := read_exact 2 in
      let@ payload := read_exact (from_be_bytes l) in
      match parse_socks5_udp_addr payload with
      | Err _ => bail "address"
      | Ok (addr, consumed) => Ret (mkPacket addr (drop consumed payload), t)
      end
  end.

(** ** Lemmas on keys and ciphers *)

Context {laws : PrimitivesLaws}.

Lemma evp_loop_length fuel password n acc prev :
  (n - length acc <= fuel)%nat → ∃ b, evp_loop fuel password n acc prev = Some b ∧ length b = n.
Proof using laws.
  revert acc prev. induction fuel as [|fuel IH]; intros acc prev Hf; cbn [evp_loop];
    destruct (Nat.leb_spec n (length acc)) as [Hl|Hl]; try (eexists; split; [done|rewrite length_take; lia]); [lia|].
  apply IH. rewrite length_app, md5_length. lia.
Qed.
Lemma master_key_length k pw b : derive_master_key k pw = Ok b → length b = key_len k.
Proof using laws.
  unfold derive_master_key. destruct (is_aead_2022 k).
  - unfold ss2022_password_to_key. unfold of_length. intros Hr. repeat (case_match; simplify_eq); by apply Nat.eqb_eq.
  - unfold evp_bytes_to_key. destruct (evp_loop_length (key_len k) (as_bytes pw) (key_len k) [] None) as (x&->&Hx); [cbn; lia|].
    by intros [= <-].
Qed.
Lemma derive_subkey_ok key salt k : ∃ b, derive_subkey key salt (key_len k) = Ok b ∧ length b = key_len k.
Proof using laws.
  unfold derive_subkey. destruct (hkdf_length salt key "ss-subkey" (key_len k)) as (b&->&Hb); [|eauto].
  destruct k; cbn; lia.
Qed.
Lemma subkey_ok k key salt : ∃ b, subkey k key salt = Ok b ∧ length b = key_len k.
Proof using laws.
  unfold subkey. destruct (is_aead_2022 k); [|apply derive_subkey_ok]. eexists. split; [done|].
  rewrite length_take, blake3_length. destruct k; cbn; lia.
Qed.

Definition good (c : AeadCipher) : Prop := length (c_key c) = key_len (c_kind c).
Lemma good_advance c : good c → good (advance c).
Proof. done. Qed.
(** The bytes a message becomes. *)
Definition sealed (c : AeadCipher) (m : bytes) : bytes :=
  match seal (primitive (c_kind c)) (c_key c) (nonce_bytes (nonce c)) m with Some (ct, t) => ct ++ t | None => [] end.
Lemma encrypt_sealed c m :
  good c → len m < 2 ^ 17 →
  encrypt m c = Found (Ok (sealed c m), advance c) ∧ length (sealed c m) = (length m + 16)%nat
  ∧ decrypt (sealed c m) c = Found (Ok m, advance c).
Proof using laws.
  intros Hg Hm. unfold encrypt, decrypt, sealed. destruct (seal_some (primitive (c_kind c)) (c_key c) (nonce_bytes (nonce c)) m Hm) as (ct&t&Hs&Hc&Ht).
  rewrite Hs, Hg, Nat.eqb_refl. cbn [negb]. rewrite length_app, Hc, Ht. split; [done|]. split; [done|]. unfold tag_len.
  rewrite (proj2 (Nat.ltb_ge _ _)) by lia. replace (length m + 16 - 16)%nat with (length ct) by lia.
  rewrite take_app_length, drop_app_length. by rewrite (unseal_seal _ _ _ _ _ _ Hs).
Qed.

(** *** Frames *)

(** The bytes of one chunk, and of many. *)
Definition frame (c : AeadCipher) (p : bytes) : bytes := sealed c (to_be_bytes 2 (len p)) ++ sealed (advance c) p.
Definition skip_frame (c : AeadCipher) : AeadCipher := advance (advance c).
Definition stream_bytes (c : AeadCipher) (ps : list bytes) : bytes := frames frame skip_frame c ps.
Lemma stream_bytes_cons c p ps :
  stream_bytes c (p :: ps) = sealed c (to_be_bytes 2 (len p)) ++ sealed (advance c) p ++ stream_bytes (advance (advance c)) ps.
Proof. unfold stream_bytes. cbn [frames]. unfold frame. by rewrite <- app_assoc. Qed.
Definition frame_ok (p : bytes) : Prop := (length p <= MAX_PAYLOAD_SIZE)%nat.
Lemma frame_small p : frame_ok p → len p < 2 ^ 14.
Proof. unfold frame_ok, MAX_PAYLOAD_SIZE, len. lia. Qed.
Lemma frame_header c p : good c → frame_ok p →
  length (sealed c (to_be_bytes 2 (len p))) = 18%nat ∧ decrypt (sealed c (to_be_bytes 2 (len p))) c = Found (Ok (to_be_bytes 2 (len p)), advance c).
Proof using laws.
  intros Hg _. assert (Hl : len (to_be_bytes 2 (len p)) < 2 ^ 17) by (unfold len; rewrite length_to_be_bytes; lia).
  destruct (encrypt_sealed c (to_be_bytes 2 (len p)) Hg Hl) as (_&Hn&Hd). by rewrite length_to_be_bytes in Hn.
Qed.
Lemma frame_body c p : good c → frame_ok p → length (sealed c p) = (length p + 16)%nat ∧ decrypt (sealed c p) c = Found (Ok p, advance c).
Proof using laws.
  intros Hg Hp. pose proof (frame_small p Hp). destruct (encrypt_sealed c p Hg) as (_&Hn&Hd); [lia|done].
Qed.

(** *** What a reader is about to deliver *)

Inductive expects (s : AeadStream) (wire : bytes) : bytes → Prop :=
| expects_salt got salt k ps :
    read_buf s = [] → read_state s = Salt got → (length got <= salt_len (s_kind s))%nat →
    length salt = salt_len (s_kind s) → subkey (s_kind s) (s_key s) salt = Ok k → Forall frame_ok ps →
    got ++ wire = salt ++ stream_bytes (cipher_new (s_kind s) k) ps → expects s wire (concat ps)
| expects_length c got ps :
    decoder s = Some c → good c → read_state s = Length got → (length got <= 18)%nat → Forall frame_ok ps →
    got ++ wire = stream_bytes c ps → expects s wire (read_buf s ++ concat ps)
| expects_payload c got p ps :
    read_buf s = [] → decoder s = Some c → good c → read_state s = Payload (length p + 16) got →
    (length got <= length p + 16)%nat → frame_ok p → Forall frame_ok ps →
    got ++ wire = sealed c p ++ stream_bytes (advance c) ps → expects s wire (p ++ concat ps).

Lemma expects_at_length s wire c got ps P :
  P = read_buf s ++ concat ps → decoder s = Some c → good c → read_state s = Length got → (length got <= 18)%nat →
  Forall frame_ok ps → got ++ wire = stream_bytes c ps → expects s wire P.
Proof. intros ->. by apply expects_length. Qed.
Lemma payload_length p : frame_ok p →
  ∃ b0 b1, to_be_bytes 2 (len p) = [b0; b1] ∧ Z.to_nat (from_be_bytes [b0; b1]) = length p.
Proof.
  intros Hp%frame_small. destruct (to_be_bytes 2 (len p)) as [|b0 [|b1 [|]]] eqn:E; try discriminate.
  exists b0, b1. split; [done|]. rewrite <- E, from_to_be_2; [unfold len; lia|]. pose proof (len_nonneg p). unfold u16_ok, in_width. lia.
Qed.

(** What one turn does. *)
Notation turn_ok := (turn_ok expects (fun s => length (got_of (read_state s)))).
Lemma salt_turn cap s evs got salt k ps :
  pieces_ok evs → read_buf s = [] → read_state s = Salt got → (length got <= salt_len (s_kind s))%nat →
  length salt = salt_len (s_kind s) → subkey (s_kind s) (s_key s) salt = Ok k → Forall frame_ok ps →
  got ++ wire_of evs = salt ++ stream_bytes (cipher_new (s_kind s) k) ps →
  ∃ r, read_turn cap s evs = Found r ∧ turn_ok cap (concat ps) s evs r.
Proof using laws.
  intros Hp Hb Hs Hg Hsl Hk Hps Hw. unfold read_turn. rewrite Hb, Hs.
  pose proof (fill_spec (salt_len (s_kind s)) got evs Hp Hg) as Hf.
  assert (0 < salt_len (s_kind s))%nat as Hpos by (destruct (s_kind s); cbn; lia).
  destruct (fill _ got evs) as [[g|g|g|] evs'].
  - destruct Hf as (Hgl&Hgw&Hp'&Hbl). rewrite Hw in Hgw. apply app_same_length in Hgw as [-> Hw']; [|lia]. rewrite Hk.
    eexists. split; [done|]. split_and!; [|done|done|].
    + eapply (expects_at_length _ _ (cipher_new (s_kind s) k) [] ps); try done; [|cbn; lia].
      destruct (subkey_ok (s_kind s) (s_key s) salt) as (k'&Hk'&Hl). unfold good. cbn. congruence.
    + cbn [set_read read_state got_of length]. apply (f_equal length) in Hw. rewrite !length_app in Hw. rewrite Hw', Hs. cbn [got_of]. lia.
  - destruct Hf as (Hgl&Hgw&Hp'&Hbl). eexists. split; [done|]. split_and!; [|done|done].
    eapply (expects_salt _ _ g salt k ps); try done; [cbn; lia|by rewrite Hgw].
  - destruct Hf as (Hf&->&_). rewrite Hw, length_app in Hf. lia.
  - done.
Qed.
Lemma length_turn cap s evs c got ps :
  pieces_ok evs → read_buf s = [] → decoder s = Some c → good c → read_state s = Length got → (length got <= 18)%nat →
  Forall frame_ok ps → got ++ wire_of evs = stream_bytes c ps →
  ∃ r, read_turn cap s evs = Found r ∧ turn_ok cap (concat ps) s evs r.
Proof using laws.
  intros Hp Hb Hd Hc Hs Hg Hps Hw. unfold read_turn. rewrite Hb, Hs. unfold tag_len. change (2 + 16)%nat with 18%nat.
  pose proof (fill_spec 18 got evs Hp Hg) as Hf. destruct (fill 18 got evs) as [[g|g|g|] evs'].
  - destruct Hf as (Hgl&Hgw&Hp'&Hbl). rewrite Hw in Hgw. destruct Hps as [|p ps Hp1 Hps].
    { apply app_nil in Hgw as [-> _]. done. }
    rewrite stream_bytes_cons in Hgw. destruct (frame_header c p Hc Hp1) as [Hhl Hhd].
    apply app_same_length in Hgw as [-> Hw']; [|lia]. unfold open_frame. rewrite Hd, Hhd. cbn [bind_outcome].
    destruct (payload_length p Hp1) as (b0&b1&->&->).
    rewrite (proj2 (Nat.ltb_ge _ _)) by exact Hp1. eexists. split; [done|]. split_and!; [|done|done|].
    + cbn [concat]. eapply (expects_payload _ _ (advance c) [] p ps); try done; cbn; lia.
    + cbn [set_read read_state got_of length]. apply (f_equal length) in Hw. rewrite stream_bytes_cons, !length_app in Hw.
      rewrite Hw', Hs, length_app. cbn [got_of]. lia.
  - destruct Hf as (Hgl&Hgw&Hp'&Hbl). eexists. split; [done|]. split_and!; [|done|done].
    eapply (expects_at_length _ _ c g ps); try done; [cbn; lia|by rewrite Hgw].
  - destruct Hps as [|p ps Hp1 Hps]; [by eexists|]. destruct Hf as (Hf&->&_). rewrite Hw, stream_bytes_cons, !length_app in Hf.
    destruct (frame_header c p Hc Hp1) as [Hhl _]. lia.
  - done.
Qed.
Lemma payload_turn cap s evs c got p ps :
  pieces_ok evs → read_buf s = [] → decoder s = Some c → good c → read_state s = Payload (length p + 16) got →
  (length got <= length p + 16)%nat → frame_ok p → Forall frame_ok ps → got ++ wire_of evs = sealed c p ++ stream_bytes (advance c) ps →
  ∃ r, read_turn cap s evs = Found r ∧ turn_ok cap (p ++ concat ps) s evs r.
Proof using laws.
  intros Hp Hb Hd Hc Hs Hg Hp1 Hps Hw. unfold read_turn. rewrite Hb, Hs. destruct (frame_body c p Hc Hp1) as [Hbl Hbd].
  pose proof (fill_spec (length p + 16) got evs Hp Hg) as Hf. destruct (fill (length p + 16) got evs) as [[g|g|g|] evs'].
  - destruct Hf as (Hgl&Hgw&Hp'&Hbk). rewrite Hw in Hgw. apply app_same_length in Hgw as [-> Hw']; [|lia].
    unfold open_frame. rewrite Hd, Hbd. cbn [bind_outcome]. eexists. split; [done|]. split_and!; [|done|done|].
    + eapply (expects_at_length _ _ (advance c) [] ps); try done. cbn. lia.
    + cbn [set_read read_state got_of length]. apply (f_equal length) in Hw. rewrite !length_app in Hw. rewrite Hw', Hs. cbn [got_of]. lia.
  - destruct Hf as (Hgl&Hgw&Hp'&Hbk). eexists. split; [done|]. split_and!; [|done|done].
    eapply (expects_payload _ _ c g p ps); try done; [cbn; lia|by rewrite Hgw].
  - destruct Hf as (Hf&->&_). rewrite Hw, length_app in Hf. lia.
  - done.
Qed.
Lemma read_turn_ok cap s evs P :
  pieces_ok evs → expects s (wire_of evs) P → ∃ r, read_turn cap s evs = Found r ∧ turn_ok cap P s evs r.
Proof using laws.
  intros Hp He. destruct He as [got salt k ps|c got ps Hd Hc Hs Hg Hps Hw|c got p ps]; [by eapply salt_turn| |by eapply payload_turn].
  destruct (read_buf s) as [|x b] eqn:Eb; [by eapply length_turn|].
  unfold read_turn. rewrite Eb. eexists. split; [done|]. exists (drop cap (x :: b) ++ concat ps). split_and!.
  - by rewrite app_assoc, take_drop.
  - by eapply (expects_at_length _ _ c got ps).
  - done.
  - done.
  - intros Hcap. left. destruct cap; [lia|done].
Qed.

Lemma poll_read_ok cap s evs P :
  pieces_ok evs → expects s (wire_of evs) P → ∃ r, poll_read cap s evs = Found r ∧ poll_ok expects cap P evs r.
Proof using laws.
  intros Hp He. unfold poll_read. apply (poll_loop_ok expects (fun s => length (got_of (read_state s))) read_turn read_turn_ok); [done|done|lia].
Qed.

(** *** Writing *)

Lemma chunk_frame p : chunk_ok MAX_PAYLOAD_SIZE p → frame_ok p.
Proof. intros [_ H']. exact H'. Qed.
Lemma frame_nonempty s p : good (encoder s) → chunk_ok MAX_PAYLOAD_SIZE p → frame (encoder s) p ≠ [].
Proof using laws.
  intros Hc Hp%chunk_frame E. apply app_nil in E as [E _]. destruct (frame_header (encoder s) p Hc Hp) as [Hl _]. by rewrite E in Hl.
Qed.
Lemma poll_write_ready data s ws :
  data ≠ [] → write_state s = Ready → good (encoder s) →
  let f := frame (encoder s) (take MAX_PAYLOAD_SIZE data) in
  let n := Nat.min (length data) MAX_PAYLOAD_SIZE in
  let s1 := set_write (skip_frame (encoder s)) (Writing f n) s in
  good (encoder s1) ∧ poll_write data s ws = Found (finish_write encoder set_write f n s1 ws).
Proof using laws.
  intros Hne Hs Hg. destruct data as [|x d]; [done|]. set (p := take MAX_PAYLOAD_SIZE (x :: d)). intros f n s1. split; [done|].
  unfold poll_write. rewrite Hs. fold n. assert (take n (x :: d) = p) as Htk by (unfold n, p; apply take_min). rewrite Htk.
  assert (Hp : frame_ok p) by (unfold frame_ok, p; rewrite length_take; lia).
  replace (Z.of_nat n) with (len p) by (unfold len, p, n; rewrite length_take; lia).
  destruct (encrypt_sealed (encoder s) (to_be_bytes 2 (len p)) Hg) as [-> _].
  { unfold len at 1. rewrite length_to_be_bytes. lia. }
  cbn [bind_outcome]. destruct (encrypt_sealed (advance (encoder s)) p Hg) as [-> _]; [|done].
  pose proof (frame_small p Hp). lia.
Qed.
Lemma poll_write_on data s ws rest n :
  write_state s = Writing rest n → poll_write data s ws = Found (finish_write encoder set_write rest n s ws).
Proof. intros E. unfold poll_write. by rewrite E. Qed.
Lemma write_all_ok fuel data s ws :
  good (encoder s) → write_state s = Ready → accepting ws →
  (length (stream_bytes (encoder s) (chunks MAX_PAYLOAD_SIZE data)) <= writes ws)%nat →
  (length (chunks MAX_PAYLOAD_SIZE data) + wblocks ws < fuel)%nat →
  ∃ s', write_loop poll_write fuel data s ws = Found (Ok s', stream_bytes (encoder s) (chunks MAX_PAYLOAD_SIZE data)).
Proof using laws.
  intros Hg Hs Ha Hw Hf.
  destruct (write_loop_ok encoder write_state set_write frame skip_frame ltac:(done) ltac:(done) MAX_PAYLOAD_SIZE
              ltac:(unfold MAX_PAYLOAD_SIZE; lia) (fun s => good (encoder s)) ltac:(done) frame_nonempty poll_write
              poll_write_ready poll_write_on fuel data s ws Ha) as (s'&Hwl&_).
  - split; [done|by rewrite Hs].
  - unfold owed. by rewrite Hs.
  - done.
  - exists s'. rewrite Hwl. unfold owed. by rewrite Hs.
Qed.

(** ** The stream carries everything *)

(** A reader at the start of what [c] seals, behind a salt or not. *)
Definition reader_ready (r : AeadStream) (salt : bytes) (c : AeadCipher) : Prop :=
  read_buf r = []
  ∧ ((decoder r = Some c ∧ read_state r = Length [] ∧ salt = [])
     ∨ (read_state r = Salt [] ∧ length salt = salt_len (s_kind r)
        ∧ ∃ k, subkey (s_kind r) (s_key r) salt = Ok k ∧ c = cipher_new (s_kind r) k)).
Lemma reader_expects r salt c ps :
  reader_ready r salt c → good c → Forall frame_ok ps → expects r (salt ++ stream_bytes c ps) (concat ps).
Proof.
  intros [Hb [(Hd&Hs&->)|(Hs&Hl&k&Hk&->)]] Hg Hps.
  - eapply (expects_at_length _ _ c [] ps); try done; [by rewrite Hb|cbn; lia].
  - eapply (expects_salt _ _ [] salt k ps); try done. cbn. lia.
Qed.
Lemma ready_carries s r salt :
  good (encoder s) → write_state s = Ready → reader_ready r salt (encoder s) → carries poll_write poll_read s r salt.
Proof using laws.
  intros Hg Hs Hr.
  apply (carries_intro poll_write poll_read expects s r salt
           (fun data => stream_bytes (encoder s) (chunks MAX_PAYLOAD_SIZE data)) MAX_PAYLOAD_SIZE); [unfold MAX_PAYLOAD_SIZE; lia| | |].
  - intros. by apply write_all_ok.
  - exact poll_read_ok.
  - intros data. destruct (chunks_ok MAX_PAYLOAD_SIZE data) as [Hc Hf]; [unfold MAX_PAYLOAD_SIZE; lia|]. rewrite <- Hc at 2.
    apply reader_expects; [done|done|]. eapply Forall_impl; [exact Hf|exact chunk_frame].
Qed.

(** ** The handshake *)

Lemma exec_lift {A} b (a : A) (f : bytes * A → proc ss_accepted) i r o :
  exec (f (b, a)) i r o → exec (let@ x := lift_crypto (Found (Ok b, a)) in f x) i r o.
Proof. done. Qed.
Definition request_bytes (c : AeadCipher) (salt payload : bytes) : bytes :=
  salt ++ sealed c (to_be_bytes 2 (len payload)) ++ sealed (advance c) payload.

Lemma len_of (l : bytes) n : length l = n → len l = Z.of_nat n.
Proof. by intros <-. Qed.

Section accept.
Context (i : ShadowsocksInbound) (before after : list ShadowsocksUser) (u : ShadowsocksUser) (salt server_salt : bytes).
Context (sk ek : bytes) (source : SocketAddr).
Context (Husers : users i = before ++ u :: after) (Hsalt : length salt = salt_len (i_kind i)).
Context (Hsk : derive_subkey (u_key u) salt (key_len (i_kind i)) = Ok sk).
Context (Hek : derive_subkey (u_key u) server_salt (key_len (i_kind i)) = Ok ek).

Definition c0 : AeadCipher := cipher_new (i_kind i) sk.
Lemma c0_good : good c0.
Proof using laws Hsk. destruct (derive_subkey_ok (u_key u) salt (i_kind i)) as (b&Hb&Hl). unfold good. cbn. congruence. Qed.
Lemma select_user_found payload :
  frame_ok payload → select_user (i_kind i) salt (sealed c0 (to_be_bytes 2 (len payload))) before = Found None →
  select_user (i_kind i) salt (sealed c0 (to_be_bytes 2 (len payload))) (users i) = Found (Some (u_key u, length payload)).
Proof using laws Husers Hsk.
  intros Hp. rewrite Husers. destruct (frame_header c0 payload c0_good Hp) as [_ Hd]. revert Hd.
  generalize (sealed c0 (to_be_bytes 2 (len payload))). intros hdr Hd. clear Husers.
  induction before as [|v vs IH]; cbn [select_user app]; intros Hb.
  - rewrite Hsk. fold c0. rewrite Hd. cbn [bind_outcome]. by destruct (payload_length payload Hp) as (b0&b1&->&->).
  - destruct (derive_subkey (u_key v) salt (key_len (i_kind i))) as [k|]; [|auto].
    destruct (decrypt hdr (cipher_new (i_kind i) k)) as [[r c]| | |]; cbn [bind_outcome] in *; try done.
    destruct r as [[|b0 [|b1 m]]|]; auto; done.
Qed.
Lemma exec_ss_handle target payload consumed :
  frame_ok payload → select_user (i_kind i) salt (sealed c0 (to_be_bytes 2 (len payload))) before = Found None →
  parse_socks5_udp_addr payload = Ok (target, consumed) →
  let stream := server_stream_new (i_kind i) (cipher_new (i_kind i) ek) (advance (advance c0)) in
  exec (handle i server_salt source) (request_bytes c0 salt payload)
    (Ret match drop consumed payload with
         | [] => SsTcp (mkSession target (Some source) (i_tag i) Tcp false None) stream
         | first => SsUot (mkSession target (Some source) (i_tag i) Udp false None) stream (mkPacket target first)
         end) server_salt.
Proof using laws Husers Hsk Hek Hsalt.
  intros Hp Hsel Ha stream. unfold handle, request_bytes.
  destruct (frame_header c0 payload c0_good Hp) as [Hhl Hhd]. destruct (frame_body (advance c0) payload c0_good Hp) as [Hbl Hbd].
  apply exec_exact_bind; [by apply len_of|]. apply exec_exact_bind; [by apply len_of|].
  rewrite (select_user_found payload Hp Hsel). cbn [bind_proc or_bail].
  rewrite <- (app_nil_r (sealed (advance c0) payload)). apply exec_exact_bind; [by apply len_of|].
  rewrite Hsk. cbn [or_fail bind_proc]. fold c0. rewrite Hhd. apply exec_lift. rewrite Hbd. apply exec_lift.
  rewrite <- (app_nil_r server_salt) at 2. apply exec_write_bind. rewrite Hek. cbn [or_fail bind_proc]. rewrite Ha. cbn [bind_proc].
  destruct (drop consumed payload); constructor.
Qed.
End accept.

Lemma address_frame target : addr_short target → frame_ok (encode_socks5 target []).
Proof.
  intros Hs. unfold frame_ok. rewrite length_encode_socks5. unfold MAX_PAYLOAD_SIZE.
  destruct target as [[]|d p]; cbn in Hs |- *; unfold str_len in *; lia.
Qed.
Lemma exec_frame c payload : good c → frame_ok payload →
  exec (write_aead_frame payload c) [] (Ret (advance (advance c)))
    (sealed c (to_be_bytes 2 (len payload)) ++ sealed (advance c) payload).
Proof using laws.
  intros Hg Hp. pose proof (frame_small payload Hp). pose proof (len_nonneg payload). unfold write_aead_frame.
  rewrite wrap_small by (unfold in_width; lia).
  destruct (encrypt_sealed c (to_be_bytes 2 (len payload)) Hg) as [-> _]; [unfold len at 1; rewrite length_to_be_bytes; lia|].
  destruct (encrypt_sealed (advance c) payload Hg) as [He _]; [lia|]. cbn [lift_crypto bind_proc].
  apply exec_write_bind. rewrite He. cbn [lift_crypto bind_proc].
  rewrite <- (app_nil_r (sealed (advance c) payload)) at 2. apply exec_write_bind. constructor.
Qed.

(** C21: a Shadowsocks client and server with the same cipher of the first
    generation reach one state under every schedule: the server has found the
    user by its key among the others, has the client's target as the session's,
    and only its own salt is still on the way.  From there each direction of the
    tunnel carries any data unchanged. *)
Theorem ss_tunnel o i before u after salt server_salt target source :
  is_aead_2022 (cipher_kind o) = false → i_kind i = cipher_kind o → identity_key o = None →
  users i = before ++ u :: after → u_key u = key o →
  (∀ sk, derive_subkey (key o) salt (key_len (cipher_kind o)) = Ok sk →
         select_user (i_kind i) salt (sealed (cipher_new (cipher_kind o) sk) (to_be_bytes 2 (len (encode_socks5 target [])))) before
         = Found None) →
  length salt = salt_len (cipher_kind o) → length server_salt = salt_len (cipher_kind o) →
  addr_ok target → addr_short target → addr_plain target →
  ∃ cl srv,
    settles (Net (connect o salt target) (handle i server_salt source) [] [])
            (Net (Ret cl) (Ret (SsTcp (mkSession target (Some source) (i_tag i) Tcp false None) srv)) [] server_salt)
    ∧ carries poll_write poll_read cl srv [] ∧ carries poll_write poll_read srv cl server_salt.
Proof using laws.
  intros Hk Hik Hid Hus Hu Hsel Hsl Hssl Ha Hsh Hpl. rewrite <- Hu, <- Hik in *.
  destruct (derive_subkey_ok (u_key u) salt (i_kind i)) as (sk&Hsk&Hskl).
  destruct (derive_subkey_ok (u_key u) server_salt (i_kind i)) as (ek&Hek&Hekl).
  pose proof (address_frame target Hsh) as Hf. set (c := cipher_new (i_kind i) sk).
  assert (Hg : good c) by done. set (e := cipher_new (i_kind i) ek). assert (Hge : good e) by done.
  exists (stream_new (advance (advance c)) (i_kind i) (u_key u)), (server_stream_new (i_kind i) e (advance (advance c))).
  assert (Hc : exec (connect o salt target) [] (Ret (stream_new (advance (advance c)) (i_kind i) (u_key u)))
                 (request_bytes c salt (encode_socks5 target []))).
  { unfold connect, subkey, identity_header. rewrite <- Hu, <- Hik, Hk, Hsk, Hid. cbn [or_fail bind_proc]. apply exec_write_bind. fold c.
    eapply exec_then; [by apply exec_frame|constructor|done|by rewrite app_nil_r]. }
  assert (Hp : parse_socks5_udp_addr (encode_socks5 target []) = Ok (target, length (encode_socks5 target []))).
  { rewrite <- (app_nil_r (encode_socks5 target [])) at 1. by apply parse_encode_socks5. }
  specialize (Hsel sk Hsk).
  pose proof (exec_ss_handle i before after u salt server_salt sk ek source Hus Hsl Hsk Hek target _ _ Hf Hsel Hp) as Hs.
  rewrite drop_ge in Hs by done. split.
  - apply settles_intro; [|by apply ended_nf].
    etrans; [exact (exec_client _ _ _ _ _ [] [] Hc)|]. rewrite <- (app_nil_r (_ ++ request_bytes _ _ _)).
    exact (exec_server _ _ _ _ _ [] [] Hs).
  - split; apply ready_carries; try done.
    + split; [done|]. by left.
    + split; [done|]. right. split; [done|]. split; [done|]. exists ek. cbn. unfold subkey. by rewrite Hk.
Qed.

(** What the server does with a first frame that holds data after the address:
    it is taken for a packet of UDP over TCP. *)
Lemma ss_coalesced_request i before u after salt server_salt sk ek source target b data :
  users i = before ++ u :: after → length salt = salt_len (i_kind i) →
  derive_subkey (u_key u) salt (key_len (i_kind i)) = Ok sk → derive_subkey (u_key u) server_salt (key_len (i_kind i)) = Ok ek →
  addr_ok target → addr_short target → addr_plain target →
  frame_ok (encode_socks5 target [] ++ b :: data) →
  select_user (i_kind i) salt (sealed (c0 i sk) (to_be_bytes 2 (len (encode_socks5 target [] ++ b :: data)))) before = Found None →
  ∃ stream, exec (handle i server_salt source) (request_bytes (c0 i sk) salt (encode_socks5 target [] ++ b :: data))
    (Ret (SsUot (mkSession target (Some source) (i_tag i) Udp false None) stream (mkPacket target (b :: data)))) server_salt.
Proof using laws.
  intros Hus Hsl Hsk Hek Ha Hs Hp Hf Hsel. eexists.
  pose proof (exec_ss_handle i before after u salt server_salt sk ek source Hus Hsl Hsk Hek target _ _ Hf Hsel
                (parse_encode_socks5 target (b :: data) Ha Hs Hp)) as He.
  by rewrite drop_app_length in He.
Qed.
(** The end of the connection between two frames is an error to the reader. *)
Lemma ss_end_is_error s cap : read_buf s = [] → (∃ got, read_state s = Length got ∧ length got < 18)%nat →
  poll_read cap s [] = Found (eof, s, []).
Proof.
  intros Hb (got&Hs&Hl). unfold poll_read. rewrite Nat.add_comm. cbn [Nat.add poll_loop]. unfold read_turn. rewrite Hb, Hs.
  unfold fill. rewrite (proj2 (Nat.leb_gt _ _)) by exact Hl. cbn [bind_outcome].
  rewrite <- Hb at 1. rewrite <- Hs. by destruct s.
Qed.
End ss.

(** ** A concrete instance *)

#[local] Instance toy : Primitives := {|
  seal _ k n m := Some (m, padded 16 k);
  unseal _ k n c t := if bool_decide (t = padded 16 k) then Some c else None;
  hkdf_sha1 salt k _ n := Some (padded n k);
  blake3_derive_key _ m := padded 32 (rev m);
  md5 m := padded 16 m;
  b64_standard _ := None;
  b64_url_safe _ := None;
  b64_no_pad _ := None
|}.
#[local] Instance toy_laws : PrimitivesLaws.
Proof.
  split; cbn.
  - intros _ k n m _. exists m, (padded 16 k). by rewrite length_padded.
  - intros _ k n m c t [= -> <-]. by rewrite bool_decide_true.
  - intros _ k n c t m. case_bool_decide; congruence.
  - intros _ k _ l _. exists (padded l k). by rewrite length_padded.
  - intros _ m. apply length_padded.
  - intros m. apply length_padded.
Qed.
Definition demo_key (b : byte) : bytes := replicate 16 b.
Definition demo_out (k : CipherKind) : ShadowsocksOutbound := mkSs "ss" "example.net" 8388 k (demo_key Byte.x02) None.
Definition demo_in (k : CipherKind) : ShadowsocksInbound :=
  mkIn "ss-in" k [user_new "alice" (demo_key Byte.x01); user_new "bob" (demo_key Byte.x02)].
Definition demo_source : SocketAddr := SockV4 2130706433 50000.

Lemma ss_tunnel_witness :
  ∃ cl srv,
    settles (Net (connect (demo_out Aes128Gcm) (demo_key Byte.x07) (Domain "example.com" 443))
                 (handle (demo_in Aes128Gcm) (demo_key Byte.x09) demo_source) [] [])
            (Net (Ret cl) (Ret (SsTcp (mkSession (Domain "example.com" 443) (Some demo_source) "ss-in" Tcp false None) srv))
                 [] (demo_key Byte.x09))
    ∧ carries poll_write poll_read cl srv [] ∧ carries poll_write poll_read srv cl (demo_key Byte.x09).
Proof.
  apply (ss_tunnel (demo_out Aes128Gcm) (demo_in Aes128Gcm) [user_new "alice" (demo_key Byte.x01)]
           (user_new "bob" (demo_key Byte.x02)) []); try reflexivity.
  - intros sk [= <-]. vm_compute. reflexivity.
  - split; [reflexivity|]. unfold u16_ok, in_width. lia.
Defined.

(** Under a cipher of 2022 the server derives its keys with HKDF and the client
    with BLAKE3: the two do not understand each other. *)
Example ss_2022_refused :
  server (converse 50 (Net (connect (demo_out Aes128Gcm2022) (demo_key Byte.x07) (Domain "example.com" 443))
                   (handle (demo_in Aes128Gcm2022) (demo_key Byte.x09) demo_source) [] []))
  = bail "authentication failed".
Proof. vm_compute. reflexivity. Qed.
(** A datagram of 2022 whose padding length exceeds it makes the receiver
    panic. *)
Example ss_udp_padding_panics :
  udp_recv (demo_out Aes128Gcm2022) (demo_key Byte.x02 ++ replicate 17 Byte.x00 ++ [Byte.x01; Byte.x00] ++ demo_key Byte.x02) = Panic.
Proof. vm_compute. reflexivity. Qed.
