(* ===== verification/Vmess.v ===== *)
(** * VMess ([src/src/proxy/outbound/vmess/], [src/src/proxy/inbound/vmess.rs])

    The sealed request header of the client and the handler of the server that
    finds the user by the authentication identifier, the response, the chunk
    cipher with its masked lengths and the stream over polls of the connection.
    The primitives are the class [Crypto]; random bytes and clock readings are
    arguments. *)

From S2P Require Import Prelude RustStr Addr Rules Config Proc Outcome Polled.

Local Open Scope string_scope.
Local Open Scope list_scope.
Local Open Scope Z_scope.

Definition CMD_TCP : Z := 1.
Definition CMD_UDP : Z := 2.

Inductive SecurityType := Aes128Gcm | Chacha20Poly1305 | SecNone | SecZero.
#[export] Instance security_eq_dec : EqDecision SecurityType.
Proof. solve_decision. Defined.
Definition from_str (s : string) : SecurityType :=
  if String.eqb s "aes-128-gcm" then Aes128Gcm
  else if String.eqb s "chacha20-poly1305" then Chacha20Poly1305
  else if String.eqb s "none" then SecNone
  else if String.eqb s "zero" then SecZero
  else Aes128Gcm.
Definition to_byte (s : SecurityType) : Z :=
  match s with Aes128Gcm => 3 | Chacha20Poly1305 => 4 | SecNone => 5 | SecZero => 6 end.

(** ** Primitives *)

Inductive Aead := AesGcm128 | ChaChaPoly.
Class Crypto := {
  aead_encrypt : Aead → bytes → bytes → bytes → option bytes;
  aead_decrypt : Aead → bytes → bytes → bytes → option bytes;
  md5 : bytes → bytes;
  hmac_md5 : bytes → bytes → bytes;
  hmac_sha256 : bytes → bytes → bytes;
  sha256 : bytes → bytes;
  shake128 : bytes → nat → bytes
}.
(** What they document: a message of up to 64 KiB is sealed into one 16 bytes
    longer that opens again; the digests have their sizes. *)
Class CryptoLaws `{Crypto} := {
  encrypt_some : ∀ a k n m, len m < 2 ^ 16 → ∃ c, aead_encrypt a k n m = Some c ∧ length c = (length m + 16)%nat;
  decrypt_encrypt : ∀ a k n m c, aead_encrypt a k n m = Some c → aead_decrypt a k n c = Some m;
  md5_length : ∀ m, length (md5 m) = 16%nat;
  hmac_md5_length : ∀ k m, length (hmac_md5 k m) = 16%nat;
  hmac_sha256_length : ∀ k m, length (hmac_sha256 k m) = 32%nat;
  sha256_length : ∀ m, length (sha256 m) = 32%nat;
  shake128_length : ∀ m n, length (shake128 m n) = n
}.

(** [fnv1a_hash] *)
Definition fnv1a_hash (data : bytes) : Z :=
  fold_left (fun h b => wrap 32 (Z.lxor h (byte_to_Z b) * 0x01000193)) data 0x811c9dc5.

Section vmess.
Context `{Crypto}.

(** ** Keys and headers *)

Definition create_auth_id (cmd_key : bytes) (timestamp : Z) : bytes := hmac_md5 cmd_key (to_be_bytes 8 timestamp).
Definition uuid_to_cmd_key (uuid : bytes) : bytes := md5 uuid.
Definition kdf (key : bytes) (paths : list bytes) : bytes := fold_left (fun current path => hmac_sha256 current path) paths key.
Definition lit (s : string) : bytes := as_bytes s.

Definition encode_address (a : Address) : bytes :=
  match a with
  | Ip (SockV4 ip p) => to_be_bytes 2 p ++ [Byte.x01] ++ to_be_bytes 4 ip
  | Ip (SockV6 ip p _ _) => to_be_bytes 2 p ++ [Byte.x03] ++ to_be_bytes 16 ip
  | Domain d p => to_be_bytes 2 p ++ [Byte.x02] ++ [byte_of_Z (str_len d)] ++ as_bytes d
  end.
(** The header before it is sealed. *)
Definition plain_header (security : SecurityType) (cmd : Z) (target : Address) (iv key : bytes) (resp_auth : byte) : bytes :=
  let header := [Byte.x01] ++ iv ++ key ++ [resp_auth; Byte.x01; byte_of_Z (Z.land (to_byte security) 15); Byte.x00; byte_of_Z cmd]
                ++ encode_address target in
  header ++ to_be_bytes 4 (fnv1a_hash header).
(** The four keys of a request: the two paths, then identifier and nonce. *)
Definition header_key (cmd_key : bytes) (path : string) (auth_id nonce : bytes) (n : nat) : bytes :=
  take n (kdf cmd_key [lit path; auth_id; nonce]).
Definition seal_part (cmd_key auth_id nonce : bytes) (kpath npath : string) (m : bytes) : option bytes :=
  aead_encrypt AesGcm128 (header_key cmd_key kpath auth_id nonce 16) (header_key cmd_key npath auth_id nonce 12) m.
Definition open_part (cmd_key auth_id nonce : bytes) (kpath npath : string) (c : bytes) : option bytes :=
  aead_decrypt AesGcm128 (header_key cmd_key kpath auth_id nonce 16) (header_key cmd_key npath auth_id nonce 12) c.
Definition encode_request_header (now : Z) (nonce uuid : bytes) (security : SecurityType) (cmd : Z) (target : Address)
  (iv key : bytes) (resp_auth : byte) : result string bytes :=
  let header := plain_header security cmd target iv key resp_auth in
  let cmd_key := uuid_to_cmd_key uuid in
  let auth_id := create_auth_id cmd_key now in
  match seal_part cmd_key auth_id nonce "VMess Header AEAD Key" "VMess Header AEAD Nonce" header with
  | None => Err "header encrypt failed"
  | Some encrypted_header =>
      match seal_part cmd_key auth_id nonce "VMess Header AEAD Key Length" "VMess Header AEAD Nonce Length"
              (to_be_bytes 2 (wrap 16 (len encrypted_header))) with
      | None => Err "length encrypt failed"
      | Some encrypted_length => Ok (auth_id ++ encrypted_length ++ nonce ++ encrypted_header)
      end
  end.

(** The header of the protocol before AEAD, sent in the clear. *)
Definition create_legacy_auth_id (uuid : bytes) (timestamp : Z) : bytes :=
  md5 (uuid ++ to_be_bytes 8 timestamp
       ++ [Byte.xc4; Byte.x8e; Byte.x19; Byte.x87; Byte.x09; Byte.x60; Byte.x48; Byte.x81] ++ uuid).
Definition encode_legacy_request_header (now : Z) (uuid : bytes) (alter_id : Z) (security : SecurityType) (cmd : Z)
  (target : Address) (iv key : bytes) (resp_auth : byte) : bytes :=
  create_legacy_auth_id uuid now ++ plain_header security cmd target iv key resp_auth.

Definition derive_response_key_iv (key iv : bytes) : bytes * bytes := (take 16 (sha256 key), take 16 (sha256 iv)).
Definition response_key (resp_key : bytes) : bytes := take 16 (kdf resp_key [lit "AEAD Resp Header Key"]).
Definition response_nonce (resp_iv : bytes) : bytes := take 12 (kdf resp_iv [lit "AEAD Resp Header IV"]).
Definition parse_response_header (data resp_key resp_iv : bytes) (expected : byte) : result string unit :=
  match aead_decrypt AesGcm128 (response_key resp_key) (response_nonce resp_iv) data with
  | None => Err "response header decrypt"
  | Some [] => Err "empty VMess response header"
  | Some (b :: _) => if byte_to_Z b =? byte_to_Z expected then Ok tt else Err "VMess response auth mismatch"
  end.

(** ** Chunks *)

Record ShakeSizeParser := mkParser { p_buffer : bytes; p_pos : nat }.
Definition parser_new (nonce : bytes) : ShakeSizeParser := mkParser (shake128 nonce (Z.to_nat 32768)) 0.
(** The position after a possible return to the start; both indices are inside
    the buffer. *)
Definition mask_pos (p : ShakeSizeParser) : nat := if (length (p_buffer p) <? p_pos p + 2)%nat then 0%nat else p_pos p.
Definition next_mask (p : ShakeSizeParser) : Z * ShakeSizeParser :=
  let pos := mask_pos p in
  (from_be_bytes [byte_at (p_buffer p) pos; byte_at (p_buffer p) (pos + 1)], mkParser (p_buffer p) (pos + 2)).
Definition encode_size (size : Z) (p : ShakeSizeParser) : Z * ShakeSizeParser :=
  let '(mask, p) := next_mask p in (Z.lxor size mask, p).
Definition decode_size (masked : Z) (p : ShakeSizeParser) : Z * ShakeSizeParser :=
  let '(mask, p) := next_mask p in (Z.lxor masked mask, p).

Definition VMESS_AEAD_TAG_LEN : nat := 16.
Definition MAX_VMESS_CHUNK : nat := Z.to_nat 16384.

Record VmessChunkCipher := mkChunk {
  security : SecurityType;
  c_key : bytes;
  nonce_prefix : bytes;
  count : Z;
  size_parser : ShakeSizeParser
}.
Definition cipher_new (s : SecurityType) (key iv : bytes) : VmessChunkCipher :=
  mkChunk s key ([Byte.x00; Byte.x00] ++ slice iv 2 12) 0 (parser_new iv).
Definition make_nonce (c : VmessChunkCipher) : bytes := to_be_bytes 2 (count c) ++ drop 2 (nonce_prefix c).
Definition skip_count (c : VmessChunkCipher) : VmessChunkCipher :=
  mkChunk (security c) (c_key c) (nonce_prefix c) (wrap 16 (count c + 1)) (size_parser c).
Definition set_parser (p : ShakeSizeParser) (c : VmessChunkCipher) : VmessChunkCipher :=
  mkChunk (security c) (c_key c) (nonce_prefix c) (count c) p.
Definition chacha_key (key : bytes) : bytes := md5 key ++ md5 (md5 key).

(** An AES key of another length is refused by [new_from_slice]. *)
Definition encrypt_chunk (plaintext : bytes) (c : VmessChunkCipher) : result string bytes * VmessChunkCipher :=
  let nonce := make_nonce c in
  let encrypted :=
    match security c with
    | Aes128Gcm => if (length (c_key c) =? 16)%nat then aead_encrypt AesGcm128 (c_key c) nonce plaintext else None
    | Chacha20Poly1305 => aead_encrypt ChaChaPoly (chacha_key (c_key c)) nonce plaintext
    | SecNone | SecZero => Some plaintext
    end in
  match encrypted with
  | None => (Err "encrypt", skip_count c)
  | Some encrypted =>
      let '(masked_len, p) := encode_size (wrap 16 (len encrypted)) (size_parser c) in
      (Ok (to_be_bytes 2 masked_len ++ encrypted), set_parser p (skip_count c))
  end.
Definition decode_length (raw : bytes) (c : VmessChunkCipher) : Z * VmessChunkCipher :=
  let '(n, p) := decode_size (from_be_bytes raw) (size_parser c) in (n, set_parser p c).
Definition decrypt_chunk (ciphertext : bytes) (c : VmessChunkCipher) : result string bytes * VmessChunkCipher :=
  let nonce := make_nonce c in
  (match
     match security c with
     | Aes128Gcm => if (length (c_key c) =? 16)%nat then aead_decrypt AesGcm128 (c_key c) nonce ciphertext else None
     | Chacha20Poly1305 => aead_decrypt ChaChaPoly (chacha_key (c_key c)) nonce ciphertext
     | SecNone | SecZero => Some ciphertext
     end
   with
   | Some m => Ok m
   | None => Err "decrypt"
   end, skip_count c).

(** ** The stream *)

Inductive VmessReadState :=
| Length (got : bytes)
| Payload (need : nat) (got : bytes).
(** [read_buf] is the part that was not handed out yet. *)
Record VmessAeadStream := mkStream {
  encoder : VmessChunkCipher;
  decoder : VmessChunkCipher;
  s_security : SecurityType;
  read_buf : bytes;
  read_state : VmessReadState;
  write_state : WriteState;
  eof : bool
}.
Definition stream_new (enc dec : VmessChunkCipher) (s : SecurityType) : VmessAeadStream :=
  mkStream enc dec s [] (Length []) Ready false.
Definition tag_overhead (s : SecurityType) : nat :=
  match s with Aes128Gcm | Chacha20Poly1305 => VMESS_AEAD_TAG_LEN | _ => 0 end.
(** The largest chunk that is sealed at once. *)
Definition max_plain (s : SecurityType) : nat := (MAX_VMESS_CHUNK - tag_overhead s)%nat.
Definition set_read (b : bytes) (r : VmessReadState) (d : VmessChunkCipher) (s : VmessAeadStream) : VmessAeadStream :=
  mkStream (encoder s) d (s_security s) b r (write_state s) (eof s).
Definition set_eof (s : VmessAeadStream) : VmessAeadStream :=
  mkStream (encoder s) (decoder s) (s_security s) (read_buf s) (read_state s) (write_state s) true.
Definition set_write (e : VmessChunkCipher) (w : WriteState) (s : VmessAeadStream) : VmessAeadStream :=
  mkStream e (decoder s) (s_security s) (read_buf s) (read_state s) w (eof s).

Definition read_turn (cap : nat) (s : VmessAeadStream) (evs : list arrival)
  : outcome (option poll * VmessAeadStream * list arrival) :=
  match read_buf s with
  | _ :: _ =>
      Found (Some (PReady (take cap (read_buf s))), set_read (drop cap (read_buf s)) (read_state s) (decoder s) s, evs)
  | [] =>
      match read_state s with
      | Length got =>
          match fill 2 got evs with
          | (Full raw_len, evs) =>
              let '(chunk_len, d) := decode_length raw_len (decoder s) in
              if chunk_len =? 0 then Found (Some (PReady []), set_eof (set_read [] (Length raw_len) d s), evs)
              else Found (None, set_read [] (Payload (Z.to_nat chunk_len) []) d s, evs)
          | (Waits got, evs) => Found (Some PPending, set_read [] (Length got) (decoder s) s, evs)
          | (Ended got, evs) => Found (Some (PReady []), set_eof (set_read [] (Length got) (decoder s) s), evs)
          | (Broken got, evs) => Found (Some (PError "read"), set_read [] (Length got) (decoder s) s, evs)
          end
      | Payload need got =>
          match fill need got evs with
          | (Full frame, evs) =>
              match decrypt_chunk frame (decoder s) with
              | (Ok plaintext, d) => Found (None, set_read plaintext (Length []) d s, evs)
              | (Err e, d) => Found (Some (PError e), set_read [] (Payload need frame) d s, evs)
              end
          | (Waits got, evs) => Found (Some PPending, set_read [] (Payload need got) (decoder s) s, evs)
          | (Ended got, evs) => Found (Some (PError "VMess payload truncated"), set_read [] (Payload need got) (decoder s) s, evs)
          | (Broken got, evs) => Found (Some (PError "read"), set_read [] (Payload need got) (decoder s) s, evs)
          end
      end
  end.
Definition got_of (r : VmessReadState) : bytes := match r with Length g => g | Payload _ g => g end.
(** A turn that goes round again uses up bytes: one unit per byte is enough. *)
Definition poll_read (cap : nat) (s : VmessAeadStream) (evs : list arrival) : outcome (poll * VmessAeadStream * list arrival) :=
  if eof s then Found (PReady [], s, evs)
  else poll_loop read_turn (length (got_of (read_state s)) + length (wire_of evs) + 2) cap s evs.
Definition poll_write (buf : bytes) (s : VmessAeadStream) (ws : list wrote)
  : outcome (wpoll * VmessAeadStream * list wrote * bytes) :=
  match write_state s with
  | Writing rest n => Found (finish_write encoder set_write rest n s ws)
  | Ready =>
      match buf with
      | [] => Found (WDone 0, s, ws, [])
      | _ =>
          let chunk_len := Nat.min (length buf) (max_plain (s_security s)) in
          match encrypt_chunk (take chunk_len buf) (encoder s) with
          | (Err e, enc) => Found (WError e, set_write enc Ready s, ws, [])
          | (Ok data, enc) => Found (finish_write encoder set_write data chunk_len (set_write enc (Writing data chunk_len) s) ws)
          end
      end
  end.

(** ** The client *)

Record VmessOutbound := mkOut { o_tag : string; server_addr : Address; o_uuid : bytes; o_security : SecurityType }.
(** [new] without the transport and the multiplexer, which the settings give. *)
Definition outbound_new (parse_uuid : string → option bytes) (config : OutboundConfig) : result string VmessOutbound :=
  let settings := o_settings config in
  match address settings, port settings, uuid settings with
  | None, _, _ => Err "vmess: address is required"
  | _, None, _ => Err "vmess: port is required"
  | _, _, None => Err "vmess: uuid is required"
  | Some a, Some p, Some u =>
      match parse_uuid u with
      | None => Err "invalid uuid"
      | Some id =>
          Ok (mkOut (Config.o_tag config) (Domain a p) id
                match method settings with Some m => from_str m | None => Aes128Gcm end)
      end
  end.
(** What a connection draws: initialisation vector, key, byte and nonce. *)
Record draw := mkDraw { d_iv : bytes; d_key : bytes; d_auth : byte; d_nonce : bytes }.
Definition connect (o : VmessOutbound) (d : draw) (now : Z) (target : Address) : proc VmessAeadStream :=
  let@ header := or_fail (encode_request_header now (d_nonce d) (o_uuid o) (o_security o) CMD_TCP target (d_iv d) (d_key d) (d_auth d)) in
  let@ _ := write_all header in
  let@ resp := read_exact 20 in
  let '(resp_key, resp_iv) := derive_response_key_iv (d_key d) (d_iv d) in
  let@ _ := or_fail (parse_response_header resp resp_key resp_iv (d_auth d)) in
  Ret (stream_new (cipher_new (o_security o) (d_key d) (d_iv d)) (cipher_new (o_security o) resp_key resp_iv) (o_security o)).

(** ** The server *)

(** The users and their keys in the order the map is walked. *)
Record VmessInbound := mkIn { i_tag : string; valid_users : list (bytes * bytes) }.
Definition insert_user (uuid : bytes) (us : list (bytes * bytes)) : list (bytes * bytes) :=
  List.filter (fun u => negb (bool_decide (u.1 = uuid))) us ++ [(uuid, uuid_to_cmd_key uuid)].
Fixpoint add_clients (parse_uuid : string → option bytes) (cs : list VlessClientConfig) (us : list (bytes * bytes))
  : result string (list (bytes * bytes)) :=
  match cs with
  | [] => Ok us
  | c :: cs =>
      match parse_uuid (vc_uuid c) with
      | None => Err "invalid uuid"
      | Some u => add_clients parse_uuid cs (insert_user u us)
      end
  end.
Definition inbound_new (parse_uuid : string → option bytes) (config : InboundConfig) : result string VmessInbound :=
  let settings := i_settings config in
  let? us := match is_clients settings with Some cs => add_clients parse_uuid cs [] | None => Ok [] end in
  let? us :=
    match is_uuid settings with
    | Some u => match parse_uuid u with Some id => Ok (insert_user id us) | None => Err "invalid uuid" end
    | None => Ok us
    end in
  match us with
  | [] => Err "vmess inbound requires at least one uuid or client"
  | _ => Ok (mkIn (Config.i_tag config) us)
  end.
Definition user_count (i : VmessInbound) : nat := length (valid_users i).

(** The time window. *)
Definition deltas : list Z := (fun k => Z.of_nat k - 120) <$> seq 0 241.
Definition in_window (now : Z) (auth_id cmd_key : bytes) : bool :=
  existsb (fun delta => bool_decide (create_auth_id cmd_key (wrap 64 (now + delta)) = auth_id)) deltas.
Definition match_user (now : Z) (auth_id : bytes) (us : list (bytes * bytes)) : option bytes :=
  List.find (in_window now auth_id) us.*2.

(** Indexing or slicing past the end panics. *)
Definition slice_or_panic (data : bytes) (from to : nat) : proc bytes :=
  if (to <=? length data)%nat && (from <=? to)%nat then Ret (slice data from to) else Stop Panicked.
Definition parse_target (addr_data : bytes) : proc Address :=
  let@ head := slice_or_panic addr_data 0 3 in
  let p := from_be_bytes (take 2 head) in
  let addr_type := byte_to_Z (byte_at head 2) in
  if addr_type =? 1 then let@ b := slice_or_panic addr_data 3 7 in Ret (Ip (SockV4 (from_be_bytes b) p))
  else if addr_type =? 2 then
    let@ l := slice_or_panic addr_data 3 4 in
    let@ d := slice_or_panic addr_data 4 (4 + Z.to_nat (from_be_bytes l)) in
    Ret (Domain (from_utf8_lossy d) p)
  else if addr_type =? 3 then let@ b := slice_or_panic addr_data 3 19 in Ret (Ip (SockV6 (from_be_bytes b) p 0 0))
  else bail "unknown address type".
Definition security_of (b : Z) : SecurityType :=
  if b =? 3 then Aes128Gcm else if b =? 4 then Chacha20Poly1305 else if b =? 5 then SecNone else Aes128Gcm.
Definition handle (i : VmessInbound) (now : Z) (source : SocketAddr) : proc (Session * VmessAeadStream) :=
  let@ auth_id := read_exact 16 in
  let@ cmd_key := or_bail "no matching user for auth_id" (match_user now auth_id (valid_users i)) in
  let@ encrypted_length := read_exact 18 in
  let@ conn_nonce := read_exact 8 in
  let@ decrypted_length :=
    or_bail "length decrypt" (open_part cmd_key auth_id conn_nonce "VMess Header AEAD Key Length" "VMess Header AEAD Nonce Length" encrypted_length) in
  let@ l := slice_or_panic decrypted_length 0 2 in
  let@ encrypted_header := read_exact (from_be_bytes l) in
  let@ header :=
    or_bail "header decrypt" (open_part cmd_key auth_id conn_nonce "VMess Header AEAD Key" "VMess Header AEAD Nonce" encrypted_header) in
  if (length header <? 42)%nat then bail "header too short"
  else
    let checksum_offset := (length header - 4)%nat in
    if negb (from_be_bytes (slice header checksum_offset (length header)) =? fnv1a_hash (take checksum_offset header))
    then bail "FNV1a checksum mismatch"
    else
      let iv := slice header 1 17 in
      let key := slice header 17 33 in
      let resp_auth := byte_at header 33 in
      let sec := security_of (Z.land (byte_to_Z (byte_at header 35)) 15) in
      let cmd := byte_to_Z (byte_at header 37) in
      let@ target := parse_target (slice header 38 checksum_offset) in
      let '(resp_key, resp_iv) := derive_response_key_iv key iv in
      let@ resp := or_bail "resp header encrypt"
        (aead_encrypt AesGcm128 (response_key resp_key) (response_nonce resp_iv) [resp_auth; Byte.x00; Byte.x00; Byte.x00]) in
      let@ _ := write_all resp in
      Ret (mkSession target (Some source) (i_tag i) (if cmd =? 1 then Tcp else Udp) false None,
           stream_new (cipher_new sec resp_key resp_iv) (cipher_new sec key iv) sec).

(** ** Lemmas *)

Lemma lxor_u16 a b : u16_ok a → u16_ok b → u16_ok (Z.lxor a b).
Proof.
  unfold u16_ok, in_width. intros Ha Hb. assert (H0 : 0 <= Z.lxor a b) by (apply Z.lxor_nonneg; lia). split; [done|].
  destruct (Z.eq_dec (Z.lxor a b) 0) as [->|Hne]; [lia|]. apply Z.log2_lt_pow2; [lia|].
  eapply Z.le_lt_trans; [apply Z.log2_lxor; lia|].
  destruct (Z.eq_dec a 0) as [->|]; destruct (Z.eq_dec b 0) as [->|]; cbn [Z.log2]; apply Z.max_lub_lt; try lia; apply Z.log2_lt_pow2; lia.
Qed.
Lemma lxor_cancel a b : Z.lxor (Z.lxor a b) b = a.
Proof. by rewrite Z.lxor_assoc, Z.lxor_nilpotent, Z.lxor_0_r. Qed.

Context {laws : CryptoLaws}.

(** *** Chunks *)

Definition good (c : VmessChunkCipher) : Prop := length (c_key c) = 16%nat.
Definition mask (c : VmessChunkCipher) : Z := (next_mask (size_parser c)).1.
Definition skip_size (c : VmessChunkCipher) : VmessChunkCipher := set_parser (next_mask (size_parser c)).2 c.
Definition sealed (c : VmessChunkCipher) (p : bytes) : bytes :=
  default [] match security c with
             | Aes128Gcm => aead_encrypt AesGcm128 (c_key c) (make_nonce c) p
             | Chacha20Poly1305 => aead_encrypt ChaChaPoly (chacha_key (c_key c)) (make_nonce c) p
             | SecNone | SecZero => Some p
             end.
Definition frame (c : VmessChunkCipher) (p : bytes) : bytes := to_be_bytes 2 (Z.lxor (len (sealed c p)) (mask c)) ++ sealed c p.
Definition skip_chunk (c : VmessChunkCipher) : VmessChunkCipher := skip_count (skip_size c).

Lemma mask_ok c : u16_ok (mask c).
Proof. unfold mask, next_mask. cbn [fst]. apply (from_be_bytes_range [_; _]). Qed.
Lemma max_plain_small s : 0 < Z.of_nat (max_plain s) <= 16384.
Proof. unfold max_plain, MAX_VMESS_CHUNK. destruct s; cbn [tag_overhead]; unfold VMESS_AEAD_TAG_LEN; lia. Qed.
Lemma sealed_ok c p : good c → chunk_ok (max_plain (security c)) p →
  encrypt_chunk p c = (Ok (frame c p), skip_chunk c)
  ∧ (0 < length (sealed c p))%nat ∧ u16_ok (len (sealed c p))
  ∧ decrypt_chunk (sealed c p) (skip_size c) = (Ok p, skip_chunk c).
Proof using laws.
  intros Hg [Hp1 Hp2]. pose proof (max_plain_small (security c)) as Hm.
  assert (Hl : Z.of_nat (length p) <= 16384) by lia. clear Hp2 Hm. assert (Hl' : len p < 2 ^ 16) by (unfold len; lia).
  unfold encrypt_chunk, decrypt_chunk, frame, sealed, mask, encode_size, skip_chunk, skip_size, good in *.
  cbn [security c_key set_parser]. change (make_nonce (set_parser _ c)) with (make_nonce c). rewrite Hg. cbn [Nat.eqb].
  destruct (encrypt_some AesGcm128 (c_key c) (make_nonce c) p Hl') as (ca&Ha&Hal).
  destruct (encrypt_some ChaChaPoly (chacha_key (c_key c)) (make_nonce c) p Hl') as (cc&Hc&Hcl).
  destruct (next_mask (size_parser c)) as [m q]; cbn [fst snd].
  destruct (security c) eqn:Es; rewrite ?Ha, ?Hc; cbn [default from_option id]; rewrite ?(decrypt_encrypt _ _ _ _ _ Ha), ?(decrypt_encrypt _ _ _ _ _ Hc);
    (rewrite wrap_small by (unfold in_width, len in *; lia)); unfold u16_ok, in_width, len; split_and!; try done; try lia.
Qed.
Lemma decode_masked c n : u16_ok n → decode_length (to_be_bytes 2 (Z.lxor n (mask c))) c = (n, skip_size c).
Proof.
  intros Hn. unfold decode_length, decode_size, skip_size, mask. destruct (next_mask (size_parser c)) as [m p] eqn:E. cbn [fst snd].
  rewrite from_to_be_2; [by rewrite lxor_cancel|]. apply lxor_u16; [done|]. pose proof (mask_ok c) as Hm. unfold mask in Hm. by rewrite E in Hm.
Qed.

(** *** Reading *)

Definition stream_bytes (c : VmessChunkCipher) (ps : list bytes) : bytes := frames frame skip_chunk c ps.
Lemma vmess_stream_bytes_cons c p ps :
  stream_bytes c (p :: ps) = to_be_bytes 2 (Z.lxor (len (sealed c p)) (mask c)) ++ sealed c p ++ stream_bytes (skip_chunk c) ps.
Proof. unfold stream_bytes. cbn [frames]. unfold frame. by rewrite <- app_assoc. Qed.

Inductive reading (s : VmessAeadStream) (wire : bytes) : bytes → Prop :=
| reading_length got ps :
    good (decoder s) → read_state s = Length got → (length got <= 2)%nat → Forall (chunk_ok (max_plain (security (decoder s)))) ps →
    got ++ wire = stream_bytes (decoder s) ps → reading s wire (read_buf s ++ concat ps)
| reading_payload c got p ps :
    read_buf s = [] → good c → decoder s = skip_size c → read_state s = Payload (length (sealed c p)) got →
    (length got <= length (sealed c p))%nat → chunk_ok (max_plain (security c)) p → Forall (chunk_ok (max_plain (security c))) ps →
    got ++ wire = sealed c p ++ stream_bytes (skip_chunk c) ps → reading s wire (p ++ concat ps).
Definition expects (s : VmessAeadStream) (wire P : bytes) : Prop := reading s wire P ∧ (eof s = true → P = []).
Lemma reading_at s wire got ps P :
  P = read_buf s ++ concat ps → good (decoder s) → read_state s = Length got → (length got <= 2)%nat →
  Forall (chunk_ok (max_plain (security (decoder s)))) ps → got ++ wire = stream_bytes (decoder s) ps → reading s wire P.
Proof. intros ->. by apply reading_length. Qed.

Notation turn_ok := (turn_ok expects (fun s => length (got_of (read_state s)))).
Lemma vmess_length_turn cap s evs got ps :
  pieces_ok evs → read_buf s = [] → (eof s = true → concat ps = []) → good (decoder s) → read_state s = Length got → (length got <= 2)%nat →
  Forall (chunk_ok (max_plain (security (decoder s)))) ps → got ++ wire_of evs = stream_bytes (decoder s) ps →
  ∃ r, read_turn cap s evs = Found r ∧ turn_ok cap (concat ps) s evs r.
Proof using laws.
  intros Hp Hb Heof Hc Hs Hg Hps Hw. unfold read_turn. rewrite Hb, Hs.
  pose proof (fill_spec 2 got evs Hp Hg) as Hf. destruct (fill 2 got evs) as [[g|g|g|] evs'].
  - destruct Hf as (Hgl&Hgw&Hp'&Hbl). rewrite Hw in Hgw. destruct Hps as [|p ps Hp1 Hps].
    { apply app_nil in Hgw as [-> _]. done. }
    rewrite vmess_stream_bytes_cons in Hgw. destruct (sealed_ok (decoder s) p Hc Hp1) as (_&Hpos&Hu&_).
    apply app_same_length in Hgw as [-> Hw']; [|by rewrite length_to_be_bytes]. rewrite decode_masked by done.
    rewrite (proj2 (Z.eqb_neq _ _)) by (unfold len; lia). unfold len. rewrite Nat2Z.id.
    eexists. split; [done|]. split_and!; [|done|done|].
    + split; [|exact Heof]. cbn [concat]. eapply (reading_payload _ _ (decoder s) [] p ps); try done. cbn. lia.
    + cbn [set_read read_state got_of length]. apply (f_equal length) in Hw. rewrite vmess_stream_bytes_cons, !length_app, length_to_be_bytes in Hw.
      rewrite Hw', Hs, length_app. cbn [got_of]. lia.
  - destruct Hf as (Hgl&Hgw&Hp'&Hbl). eexists. split; [done|]. split_and!; [|done|done].
    split; [|exact Heof]. eapply (reading_at _ _ g ps); try done; [cbn; lia|by rewrite Hgw].
  - destruct Hf as (Hgl&->&->). destruct Hps as [|p ps Hp1 Hps].
    + eexists. split; [done|]. exists []. split_and!; [done| |constructor|cbn; lia|by right].
      split; [|done]. eapply (reading_at _ _ (got ++ wire_of evs) []); try done; [cbn; lia|]. by rewrite app_nil_r.
    + rewrite Hw, vmess_stream_bytes_cons, !length_app, length_to_be_bytes in Hgl. lia.
  - done.
Qed.
Lemma vmess_payload_turn cap s evs c got p ps :
  pieces_ok evs → read_buf s = [] → (eof s = true → p ++ concat ps = []) → good c → decoder s = skip_size c →
  read_state s = Payload (length (sealed c p)) got → (length got <= length (sealed c p))%nat →
  chunk_ok (max_plain (security c)) p → Forall (chunk_ok (max_plain (security c))) ps →
  got ++ wire_of evs = sealed c p ++ stream_bytes (skip_chunk c) ps →
  ∃ r, read_turn cap s evs = Found r ∧ turn_ok cap (p ++ concat ps) s evs r.
Proof using laws.
  intros Hp Hb Heof Hc Hd Hs Hg Hp1 Hps Hw. unfold read_turn. rewrite Hb, Hs. destruct (sealed_ok c p Hc Hp1) as (_&Hpos&_&Hdec).
  pose proof (fill_spec (length (sealed c p)) got evs Hp Hg) as Hf. destruct (fill (length (sealed c p)) got evs) as [[g|g|g|] evs'].
  - destruct Hf as (Hgl&Hgw&Hp'&Hbk). rewrite Hw in Hgw. apply app_same_length in Hgw as [-> Hw']; [|lia].
    rewrite Hd, Hdec. eexists. split; [done|]. split_and!; [|done|done|].
    + split; [|exact Heof]. eapply (reading_at _ _ [] ps); try done. cbn. lia.
    + cbn [set_read read_state got_of length]. apply (f_equal length) in Hw. rewrite !length_app in Hw. rewrite Hw', Hs. cbn [got_of]. lia.
  - destruct Hf as (Hgl&Hgw&Hp'&Hbk). eexists. split; [done|]. split_and!; [|done|done].
    split; [|exact Heof]. eapply (reading_payload _ _ c g p ps); try done; [cbn; lia|by rewrite Hgw].
  - destruct Hf as (Hgl&->&_). rewrite Hw, length_app in Hgl. lia.
  - done.
Qed.
Lemma vmess_read_turn_ok cap s evs P :
  pieces_ok evs → expects s (wire_of evs) P → ∃ r, read_turn cap s evs = Found r ∧ turn_ok cap P s evs r.
Proof using laws.
  intros Hp [He Heof]. destruct He as [got ps Hc Hs Hg Hps Hw|c got p ps]; [|by eapply vmess_payload_turn].
  destruct (read_buf s) as [|x b] eqn:Eb; [by eapply vmess_length_turn|].
  unfold read_turn. rewrite Eb. eexists. split; [done|]. exists (drop cap (x :: b) ++ concat ps). split_and!.
  - by rewrite app_assoc, take_drop.
  - split; [by eapply (reading_at _ _ got ps)|]. intros E. by specialize (Heof E).
  - done.
  - done.
  - intros Hcap. left. destruct cap; [lia|done].
Qed.
Lemma vmess_poll_read_ok cap s evs P :
  pieces_ok evs → expects s (wire_of evs) P → ∃ r, poll_read cap s evs = Found r ∧ poll_ok expects cap P evs r.
Proof using laws.
  intros Hp He. unfold poll_read. destruct (eof s) eqn:Eeof.
  - eexists. split; [done|]. exists P. destruct He as [He HP]. split_and!; try done. intros _. right. auto.
  - apply (poll_loop_ok expects (fun s => length (got_of (read_state s))) read_turn vmess_read_turn_ok); [done|done|lia].
Qed.

(** *** Writing *)

Definition wgood (sec : SecurityType) (s : VmessAeadStream) : Prop := good (encoder s) ∧ security (encoder s) = sec ∧ s_security s = sec.
Lemma vmess_frame_nonempty sec s p : wgood sec s → chunk_ok (max_plain sec) p → frame (encoder s) p ≠ [].
Proof. intros _ _ E. apply app_nil in E as [E _]. by apply (f_equal length) in E; rewrite length_to_be_bytes in E. Qed.
Lemma vmess_poll_write_ready sec data s ws :
  data ≠ [] → write_state s = Ready → wgood sec s →
  let f := frame (encoder s) (take (max_plain sec) data) in
  let n := Nat.min (length data) (max_plain sec) in
  let s1 := set_write (skip_chunk (encoder s)) (Writing f n) s in
  wgood sec s1 ∧ poll_write data s ws = Found (finish_write encoder set_write f n s1 ws).
Proof using laws.
  intros Hne Hs (Hg&Hse&Hss). pose proof (max_plain_small sec). destruct data as [|x d]; [done|].
  intros f n s1. split; [done|]. unfold poll_write. rewrite Hs, Hss. fold n. assert (take n (x :: d) = take (max_plain sec) (x :: d)) as -> by apply take_min.
  destruct (sealed_ok (encoder s) (take (max_plain sec) (x :: d)) Hg) as (->&_); [|done].
  rewrite Hse. apply chunk_take; [lia|done].
Qed.
Lemma vmess_poll_write_on data s ws rest n :
  write_state s = Writing rest n → poll_write data s ws = Found (finish_write encoder set_write rest n s ws).
Proof. intros E. unfold poll_write. by rewrite E. Qed.
Lemma vmess_write_all_ok sec fuel data s ws :
  wgood sec s → write_state s = Ready → accepting ws →
  (length (stream_bytes (encoder s) (chunks (max_plain sec) data)) <= writes ws)%nat →
  (length (chunks (max_plain sec) data) + wblocks ws < fuel)%nat →
  ∃ s', write_loop poll_write fuel data s ws = Found (Ok s', stream_bytes (encoder s) (chunks (max_plain sec) data)).
Proof using laws.
  intros Hg Hs Ha Hw Hf. pose proof (max_plain_small sec).
  destruct (write_loop_ok encoder write_state set_write frame skip_chunk ltac:(done) ltac:(done) (max_plain sec)
              ltac:(lia) (wgood sec) ltac:(done) (vmess_frame_nonempty sec) poll_write
              (vmess_poll_write_ready sec) vmess_poll_write_on fuel data s ws Ha) as (s'&Hwl&_).
  - split; [done|by rewrite Hs].
  - unfold owed. by rewrite Hs.
  - done.
  - exists s'. rewrite Hwl. unfold owed. by rewrite Hs.
Qed.
Lemma new_carries enc dec enc' sec :
  length (c_key enc) = 16%nat → security enc = sec → dec = enc →
  carries poll_write poll_read (stream_new enc enc' sec) (stream_new enc' dec sec) [].
Proof using laws.
  intros Hg Hs ->. pose proof (max_plain_small sec).
  apply (carries_intro poll_write poll_read expects _ _ [] (fun data => stream_bytes enc (chunks (max_plain sec) data)) (max_plain sec)); [lia| | |].
  - intros. by apply vmess_write_all_ok.
  - exact vmess_poll_read_ok.
  - intros data. destruct (chunks_ok (max_plain sec) data) as [Hc Hf]; [lia|]. split; [|done].
    eapply (reading_at _ _ [] (chunks (max_plain sec) data)); try done; [cbn; lia|]. cbn [decoder stream_new]. by rewrite Hs.
Qed.

(** *** The request *)

Lemma kdf_length key paths : paths ≠ [] → length (kdf key paths) = 32%nat.
Proof using laws.
  intros Hne. unfold kdf. destruct (exists_last Hne) as (l&p&->). rewrite fold_left_app. apply hmac_sha256_length.
Qed.
Lemma seal_part_ok k a n kp np m : len m < 2 ^ 16 →
  ∃ c, seal_part k a n kp np m = Some c ∧ length c = (length m + 16)%nat ∧ open_part k a n kp np c = Some m.
Proof using laws.
  intros Hm. destruct (encrypt_some AesGcm128 (header_key k kp a n 16) (header_key k np a n 12) m Hm) as (c&Hc&Hl).
  exists c. split_and!; [done|done|]. exact (decrypt_encrypt _ _ _ _ _ Hc).
Qed.
Lemma slice_ok data from to : (from <= to <= length data)%nat → slice_or_panic data from to = Ret (slice data from to).
Proof. intros []. unfold slice_or_panic. by rewrite !(proj2 (Nat.leb_le _ _)). Qed.
Lemma fnv_ok data : u32_ok (fnv1a_hash data).
Proof.
  unfold fnv1a_hash. destruct (decide (data = [])) as [->|Hne]; [done|]. destruct (exists_last Hne) as (l&b&->).
  rewrite fold_left_app. cbn [fold_left]. apply wrap_range. lia.
Qed.

Lemma length_target_bytes a : addr_short a → (3 <= length (encode_address a) <= 263)%nat.
Proof.
  destruct a as [[]|d p]; cbn [addr_short encode_address]; intros Hs; rewrite !length_app, ?length_to_be_bytes; cbn [length]; try lia.
  unfold str_len in Hs. autorewrite with rust_rw. lia.
Qed.
Lemma two_bytes p : u16_ok p → ∃ b0 b1, to_be_bytes 2 p = [b0; b1] ∧ from_be_bytes [b0; b1] = p.
Proof.
  intros Hp. destruct (to_be_bytes 2 p) as [|b0 [|b1 [|]]] eqn:E; try discriminate. exists b0, b1. split; [done|].
  rewrite <- E. by apply from_to_be_2.
Qed.
Lemma slice_or_panic_app b0 b1 t body n :
  (n <= length body)%nat → slice_or_panic (b0 :: b1 :: t :: body) 3 (3 + n) = Ret (take n body).
Proof. intros Hn. rewrite slice_ok by (cbn [length]; lia). unfold slice. cbn [drop]. f_equal. f_equal. lia. Qed.
Lemma parse_encoded_target a : addr_ok a → addr_short a → addr_plain a → parse_target (encode_address a) = Ret a.
Proof.
  intros Ha Hs Hpl. unfold parse_target, encode_address. destruct a as [[ip p|ip p fl sc]|d p].
  - destruct Ha as [Hip Hp]. destruct (two_bytes p Hp) as (b0&b1&->&Hb). cbn [app]. rewrite slice_ok by (cbn [length]; lia).
    unfold slice at 1. cbn [drop take Nat.sub bind_proc byte_at]. rewrite Hb. change (byte_to_Z (byte_at _ 2) =? 1) with true.
    rewrite (slice_or_panic_app b0 b1 _ _ 4) by (by rewrite length_to_be_bytes). cbn [bind_proc]. rewrite take_ge by (by rewrite length_to_be_bytes).
    by rewrite from_to_be_4.
  - destruct Ha as (Hip&Hp&_), Hpl as [-> ->]. destruct (two_bytes p Hp) as (b0&b1&->&Hb). cbn [app]. rewrite slice_ok by (cbn [length]; lia).
    unfold slice at 1. cbn [drop take Nat.sub bind_proc byte_at]. rewrite Hb.
    change (byte_to_Z (byte_at _ 2) =? 1) with false. change (byte_to_Z (byte_at _ 2) =? 2) with false. change (byte_to_Z (byte_at _ 2) =? 3) with true.
    rewrite (slice_or_panic_app b0 b1 _ _ 16) by (by rewrite length_to_be_bytes). cbn [bind_proc]. rewrite take_ge by (by rewrite length_to_be_bytes).
    by rewrite from_to_be_bytes by exact Hip.
  - destruct Ha as [Hd Hp]. destruct (two_bytes p Hp) as (b0&b1&->&Hb). cbn [app]. rewrite slice_ok by (cbn [length]; lia).
    unfold slice at 1. cbn [drop take Nat.sub bind_proc byte_at]. rewrite Hb.
    change (byte_to_Z (byte_at _ 2) =? 1) with false. change (byte_to_Z (byte_at _ 2) =? 2) with true.
    rewrite (slice_or_panic_app b0 b1 _ _ 1) by (cbn [length]; lia). cbn [bind_proc take].
    change (from_be_bytes (?b :: take 0 _)) with (byte_to_Z b). rewrite (domain_len_byte d) by exact Hs.
    assert (Hdl : length (as_bytes d) = String.length d) by (by autorewrite with rust_rw).
    rewrite slice_ok by (cbn [length]; lia). unfold slice. cbn [drop bind_proc].
    rewrite drop_0, take_ge by lia. by rewrite from_utf8_lossy_valid.
Qed.

Lemma header_fields (iv key a c : bytes) b33 b34 b35 b36 b37 :
  length iv = 16%nat → length key = 16%nat → length c = 4%nat →
  let h := ([Byte.x01] ++ iv ++ key ++ [b33; b34; b35; b36; b37] ++ a) ++ c in
  length h = (42 + length a)%nat ∧ slice h 1 17 = iv ∧ slice h 17 33 = key ∧ byte_at h 33 = b33 ∧ byte_at h 35 = b35 ∧ byte_at h 37 = b37
  ∧ slice h 38 (length h - 4) = a ∧ slice h (length h - 4) (length h) = c
  ∧ take (length h - 4) h = [Byte.x01] ++ iv ++ key ++ [b33; b34; b35; b36; b37] ++ a.
Proof.
  intros Hi Hk Hc h. assert (Hl : length h = (42 + length a)%nat) by (unfold h; rewrite !length_app, Hi, Hk, Hc; cbn; lia).
  assert (E : h = [Byte.x01] ++ iv ++ key ++ [b33; b34; b35; b36; b37] ++ a ++ c) by (unfold h; by rewrite <- !app_assoc).
  split; [done|]. rewrite Hl. set (pre := [Byte.x01] ++ iv ++ key).
  assert (Hpre : length pre = 33%nat) by (unfold pre; rewrite !length_app, Hi, Hk; done).
  assert (E2 : h = pre ++ [b33; b34; b35; b36; b37] ++ a ++ c) by (rewrite E; unfold pre; by rewrite <- !app_assoc).
  split_and!.
  - rewrite E. apply slice_mid; [done|by rewrite Hi].
  - rewrite E, app_assoc. apply slice_mid; rewrite length_app, Hi; [done|by rewrite Hk].
  - rewrite E2. apply byte_at_mid. by rewrite Hpre.
  - rewrite E2. change ([b33; b34; b35; b36; b37] ++ ?l) with ([b33; b34] ++ b35 :: [b36; b37] ++ l). rewrite app_assoc. apply byte_at_mid. by rewrite length_app, Hpre.
  - rewrite E2. change ([b33; b34; b35; b36; b37] ++ ?l) with ([b33; b34; b35; b36] ++ b37 :: l). rewrite app_assoc. apply byte_at_mid. by rewrite length_app, Hpre.
  - rewrite E2, app_assoc. apply slice_mid; rewrite length_app, Hpre; cbn [length]; lia.
  - unfold h. rewrite <- (app_nil_r c) at 1. apply slice_mid; rewrite !length_app, Hi, Hk, ?Hc; cbn [length]; lia.
  - unfold h. apply take_app_length'. rewrite !length_app, Hi, Hk. cbn [length]. lia.
Qed.

Definition draw_ok (d : draw) : Prop := length (d_iv d) = 16%nat ∧ length (d_key d) = 16%nat ∧ length (d_nonce d) = 8%nat.
Lemma match_user_found now auth_id us k :
  k ∈ us.*2 → in_window now auth_id k = true → (∀ k', k' ∈ us.*2 → in_window now auth_id k' = true → k' = k) →
  match_user now auth_id us = Some k.
Proof.
  intros Hin Hk Hun. unfold match_user. destruct (List.find (in_window now auth_id) us.*2) as [k'|] eqn:E.
  - apply List.find_some in E as [Hin' Hk']. f_equal. apply Hun; [by apply list_elem_of_In|done].
  - eapply List.find_none in E; [|by apply list_elem_of_In]. congruence.
Qed.
Lemma window_ok now t k : 0 <= t < 2 ^ 64 → -120 <= t - now <= 120 → in_window now (create_auth_id k t) k = true.
Proof.
  intros Ht Hd. unfold in_window. apply existsb_exists. exists (t - now). split.
  - apply list_elem_of_In, list_elem_of_fmap. exists (Z.to_nat (t - now + 120)). split; [lia|]. apply elem_of_seq. lia.
  - replace (now + (t - now)) with t by lia. rewrite wrap_small by (unfold in_width; lia). by apply bool_decide_eq_true.
Qed.

(** The server on a sealed request. *)
Lemma exec_vmess_handle i now source t uuid sec cmd target d header :
  draw_ok d → addr_ok target → addr_short target → addr_plain target → sec ≠ SecZero →
  match_user now (create_auth_id (uuid_to_cmd_key uuid) t) (valid_users i) = Some (uuid_to_cmd_key uuid) →
  encode_request_header t (d_nonce d) uuid sec cmd target (d_iv d) (d_key d) (d_auth d) = Ok header →
  let '(rk, ri) := derive_response_key_iv (d_key d) (d_iv d) in
  ∃ resp, length resp = 20%nat ∧ parse_response_header resp rk ri (d_auth d) = Ok tt
    ∧ exec (handle i now source) header
        (Ret (mkSession target (Some source) (i_tag i) (if byte_to_Z (byte_of_Z cmd) =? 1 then Tcp else Udp) false None,
              stream_new (cipher_new sec rk ri) (cipher_new sec (d_key d) (d_iv d)) sec)) resp.
Proof using laws.
  intros (Hiv&Hkey&Hn) Ha Hs Hp Hz Hm. unfold encode_request_header. set (ck := uuid_to_cmd_key uuid). fold ck in Hm.
  set (aid := create_auth_id ck t). fold aid in Hm.
  pose proof (length_target_bytes target Hs) as Hal.
  destruct (header_fields (d_iv d) (d_key d) (encode_address target)
    (to_be_bytes 4 (fnv1a_hash ([Byte.x01] ++ d_iv d ++ d_key d ++ [d_auth d; Byte.x01; byte_of_Z (Z.land (to_byte sec) 15); Byte.x00; byte_of_Z cmd] ++ encode_address target)))
    (d_auth d) Byte.x01 (byte_of_Z (Z.land (to_byte sec) 15)) Byte.x00 (byte_of_Z cmd) Hiv Hkey ltac:(apply length_to_be_bytes))
    as (Hl&H1&H17&H33&H35&H37&H38&Hck&Htk).
  fold (plain_header sec cmd target (d_iv d) (d_key d) (d_auth d)) in Hl, H1, H17, H33, H35, H37, H38, Hck, Htk.
  set (h := plain_header sec cmd target (d_iv d) (d_key d) (d_auth d)) in *.
  destruct (seal_part_ok ck aid (d_nonce d) "VMess Header AEAD Key" "VMess Header AEAD Nonce" h) as (eh&->&Hehl&Heh).
  { unfold len. lia. }
  rewrite (wrap_small 16) by (unfold in_width, len; lia).
  destruct (seal_part_ok ck aid (d_nonce d) "VMess Header AEAD Key Length" "VMess Header AEAD Nonce Length" (to_be_bytes 2 (len eh)))
    as (el&->&Hell&Hel).
  { unfold len at 1. rewrite length_to_be_bytes. lia. }
  intros [= <-]. unfold derive_response_key_iv. set (rk := take 16 (sha256 (d_key d))). set (ri := take 16 (sha256 (d_iv d))).
  destruct (encrypt_some AesGcm128 (response_key rk) (response_nonce ri) [d_auth d; Byte.x00; Byte.x00; Byte.x00]) as (resp&Hr&Hrl); [done|].
  exists resp. split; [done|]. split.
  { unfold parse_response_header. rewrite (decrypt_encrypt _ _ _ _ _ Hr). by rewrite Z.eqb_refl. }
  unfold handle. apply exec_exact_bind; [unfold len, aid, create_auth_id; by rewrite hmac_md5_length|].
  rewrite Hm. cbn [or_bail bind_proc]. apply exec_exact_bind; [unfold len; rewrite Hell, length_to_be_bytes; done|].
  apply exec_exact_bind; [unfold len; by rewrite Hn|]. rewrite Hel. cbn [or_bail bind_proc].
  rewrite slice_ok by (rewrite length_to_be_bytes; lia). cbn [bind_proc].
  assert (slice (to_be_bytes 2 (len eh)) 0 2 = to_be_bytes 2 (len eh)) as -> by done.
  rewrite from_to_be_2 by (unfold u16_ok, in_width, len; lia).
  rewrite <- (app_nil_r eh) at 2. apply exec_exact_bind; [done|]. rewrite Heh. cbn [or_bail bind_proc].
  rewrite (proj2 (Nat.ltb_ge _ _)) by lia. rewrite Hck, Htk, from_to_be_4 by apply fnv_ok. rewrite Z.eqb_refl. cbn [negb].
  rewrite H38, parse_encoded_target by done. cbn [bind_proc]. rewrite H1, H17, H33, H35, H37. unfold derive_response_key_iv. fold rk ri.
  rewrite Hr. cbn [or_bail bind_proc]. rewrite <- (app_nil_r resp) at 2. apply exec_write_bind.
  assert (security_of (Z.land (byte_to_Z (byte_of_Z (Z.land (to_byte sec) 15))) 15) = sec) as -> by (by destruct sec).
  constructor.
Qed.

Lemma encode_request_some now nonce uuid sec cmd target iv key auth :
  addr_short target → length iv = 16%nat → length key = 16%nat →
  ∃ h, encode_request_header now nonce uuid sec cmd target iv key auth = Ok h.
Proof using laws.
  intros Hs Hi Hk. pose proof (length_target_bytes target Hs). unfold encode_request_header.
  assert (Hl : len (plain_header sec cmd target iv key auth) < 2 ^ 16).
  { unfold len, plain_header. rewrite !length_app, length_to_be_bytes, Hi, Hk. cbn [length]. lia. }
  edestruct seal_part_ok as (eh&->&_); [exact Hl|]. edestruct seal_part_ok as (el&->&_); [|eauto].
  unfold len at 1. rewrite length_to_be_bytes. lia.
Qed.

(** C22: a VMess client with a security method other than zero (which the server
    does not read), whose user the server knows and whose clock differs from the
    server's by at most two minutes, always completes the handshake, provided that
    no other user of the server accepts its authentication block: under every
    schedule both ends stop with nothing left on the wire, the server with the
    client's target, and then each direction of the tunnel carries any data
    unchanged. *)
Theorem vmess_tunnel o i d tc ts target source :
  o_security o ≠ SecZero → draw_ok d → 0 <= tc < 2 ^ 64 → -120 <= tc - ts <= 120 →
  uuid_to_cmd_key (o_uuid o) ∈ (valid_users i).*2 →
  (∀ k, k ∈ (valid_users i).*2 → in_window ts (create_auth_id (uuid_to_cmd_key (o_uuid o)) tc) k = true → k = uuid_to_cmd_key (o_uuid o)) →
  addr_ok target → addr_short target → addr_plain target →
  ∃ cl srv,
    settles (Net (connect o d tc target) (handle i ts source) [] [])
            (Net (Ret cl) (Ret (mkSession target (Some source) (i_tag i) Tcp false None, srv)) [] [])
    ∧ carries poll_write poll_read cl srv [] ∧ carries poll_write poll_read srv cl [].
Proof using laws.
  intros Hz Hd Ht Hw Hin Hun Ha Hs Hp. pose proof Hd as (Hiv&Hkey&_).
  destruct (encode_request_some tc (d_nonce d) (o_uuid o) (o_security o) CMD_TCP target (d_iv d) (d_key d) (d_auth d) Hs Hiv Hkey) as (h&Hh).
  pose proof (exec_vmess_handle i ts source tc (o_uuid o) (o_security o) CMD_TCP target d h Hd Ha Hs Hp Hz
                ltac:(apply match_user_found; [done|by apply window_ok|done]) Hh) as He.
  destruct (derive_response_key_iv (d_key d) (d_iv d)) as [rk ri] eqn:Er. destruct He as (resp&Hrl&Hrp&He).
  assert (Hrk : length rk = 16%nat).
  { unfold derive_response_key_iv in Er. injection Er as <- _. rewrite length_take, sha256_length. done. }
  exists (stream_new (cipher_new (o_security o) (d_key d) (d_iv d)) (cipher_new (o_security o) rk ri) (o_security o)),
    (stream_new (cipher_new (o_security o) rk ri) (cipher_new (o_security o) (d_key d) (d_iv d)) (o_security o)).
  split; [|split; apply new_carries; done].
  apply joined_by_parts; [|done|done]. unfold connect. rewrite Hh, Er. cbn [or_fail bind_proc].
  eapply joined_client; [apply exec_put|]. cbn [app].
  eapply (joined_server _ _ _ _ _ h []); [exact He|by rewrite app_nil_r| |constructor].
  rewrite <- (app_nil_r resp). apply exec_exact_bind; [unfold len; by rewrite Hrl|]. rewrite Hrp. constructor.
Qed.
End vmess.

(** ** A concrete instance *)

#[local] Instance toy : Crypto := {|
  aead_encrypt _ k n m := Some (m ++ padded 16 k);
  aead_decrypt _ k n c :=
    let l := (length c - 16)%nat in if bool_decide (drop l c = padded 16 k) then Some (take l c) else None;
  md5 m := padded 16 m;
  hmac_md5 k m := padded 16 (drop 4 m ++ k);
  hmac_sha256 k m := padded 32 (m ++ k);
  sha256 m := padded 32 m;
  shake128 m n := replicate n Byte.x5a
|}.
#[local] Instance toy_laws : CryptoLaws.
Proof.
  split; cbn.
  - intros _ k n m _. exists (m ++ padded 16 k). by rewrite length_app, length_padded.
  - intros _ k n m c [= <-]. rewrite length_app, length_padded, Nat.add_sub, drop_app_length, take_app_length.
    by rewrite bool_decide_true.
  - intros m. apply length_padded.
  - intros k m. apply length_padded.
  - intros k m. apply length_padded.
  - intros m. apply length_padded.
  - intros m n. apply length_replicate.
Qed.
Definition demo_uuid (b : byte) : bytes := replicate 16 b.
Definition demo_out (s : SecurityType) : VmessOutbound := mkOut "vmess" (Domain "example.net" 443) (demo_uuid Byte.x02) s.
Definition demo_in : VmessInbound :=
  mkIn "vmess-in" [(demo_uuid Byte.x01, uuid_to_cmd_key (demo_uuid Byte.x01)); (demo_uuid Byte.x02, uuid_to_cmd_key (demo_uuid Byte.x02))].
Definition demo_draw : draw := mkDraw (replicate 16 Byte.x0a) (replicate 16 Byte.x0b) Byte.x0c (replicate 8 Byte.x0d).
Definition demo_source : SocketAddr := SockV4 2130706433 50000.

Lemma vmess_tunnel_witness :
  ∃ cl srv,
    settles (Net (connect (demo_out Chacha20Poly1305) demo_draw 1700000090 (Domain "example.com" 443)) (handle demo_in 1700000000 demo_source) [] [])
            (Net (Ret cl) (Ret (mkSession (Domain "example.com" 443) (Some demo_source) "vmess-in" Tcp false None, srv)) [] [])
    ∧ carries poll_write poll_read cl srv [] ∧ carries poll_write poll_read srv cl [].
Proof.
  apply (vmess_tunnel (demo_out Chacha20Poly1305) demo_in demo_draw 1700000090 1700000000).
  - discriminate.
  - repeat split.
  - lia.
  - lia.
  - apply (list_elem_of_lookup_2 _ 1%nat). vm_compute. reflexivity.
  - intros k Hk. apply elem_of_cons in Hk as [->|Hk]; [intros E; vm_compute in E; discriminate|].
    by apply list_elem_of_singleton in Hk as ->.
  - split; [reflexivity|]. unfold u16_ok, in_width. lia.
  - reflexivity.
  - exact I.
Defined.

(** The server takes the method [zero] of the client for AES: what the client
    sends after the handshake cannot be read. *)
Example vmess_zero_unreadable :
  match converse 20 (Net (connect (demo_out SecZero) demo_draw 1700000000 (Domain "example.com" 443)) (handle demo_in 1700000000 demo_source) [] []) with
  | Net (Ret cl) (Ret (_, srv)) _ _ =>
      match write_loop poll_write 3 [Byte.x68; Byte.x69] cl (replicate 9 (Wrote 1)) with
      | Found (Ok _, wire) => match poll_read 100 srv [Piece wire] with Found (r, _, _) => Some r | _ => None end
      | _ => None
      end
  | _ => None
  end = Some (PError "decrypt").
Proof. vm_compute. reflexivity. Qed.
(** A header without an address passes the length and checksum tests of the server,
    which then indexes past its end. *)
Definition short_header : bytes :=
  let h := replicate 38 Byte.x00 in h ++ to_be_bytes 4 (fnv1a_hash h).
Example vmess_short_header_panics :
  let ck := uuid_to_cmd_key (demo_uuid Byte.x02) in
  let aid := create_auth_id ck 1700000000 in
  match seal_part ck aid (replicate 8 Byte.x00) "VMess Header AEAD Key" "VMess Header AEAD Nonce" short_header with
  | Some eh =>
      match seal_part ck aid (replicate 8 Byte.x00) "VMess Header AEAD Key Length" "VMess Header AEAD Nonce Length" (to_be_bytes 2 (len eh)) with
      | Some el => (run (handle demo_in 1700000000 demo_source) (aid ++ el ++ replicate 8 Byte.x00 ++ eh)).1.1 = Err Panicked
      | None => False
      end
  | None => False
  end.
Proof. vm_compute. reflexivity. Qed.
