(* ===== verification/Hysteria2.v ===== *)
(** * Hysteria2 ([src/src/proxy/outbound/hysteria2/], [src/src/proxy/inbound/hysteria2.rs])

    QUIC variable-length integers, the TCP request and its response on a QUIC
    stream, from both ends, and the UDP messages carried in QUIC datagrams.  The
    random padding of a request is a parameter; the datagrams of a connection
    are one queue shared by its UDP sessions. *)

From S2P Require Import Prelude RustStr Addr IpText HostPort Proc.

(** ** Variable-length integers *)

Definition encode_varint (value : Z) : bytes :=
  if value <=? 63 then [byte_of_Z value]
  else if value <=? 16383 then to_be_bytes 2 (Z.lor (wrap 16 value) 0x4000)
  else if value <=? 1073741823 then to_be_bytes 4 (Z.lor (wrap 32 value) 0x80000000)
  else to_be_bytes 8 (Z.lor value 0xC000000000000000).

Definition shift_in (value : Z) (b : byte) : Z :=
  Z.lor (wrap 64 (Z.shiftl value 8)) (byte_to_Z b).
Inductive varint_error := EmptyVarint | ShortVarint.
Definition decode_varint_from_buf (buf : bytes) : result varint_error (Z * nat) :=
  match buf with
  | [] => Err EmptyVarint
  | first :: _ =>
      let prefix := Z.shiftr (byte_to_Z first) 6 in
      let value := Z.land (byte_to_Z first) 0x3F in
      if prefix =? 0 then Ok (value, 1%nat)
      else if prefix =? 1 then
        if (length buf <? 2)%nat then Err ShortVarint
        else Ok (shift_in value (byte_at buf 1), 2%nat)
      else if prefix =? 2 then
        if (length buf <? 4)%nat then Err ShortVarint
        else Ok (shift_in (shift_in (shift_in value (byte_at buf 1)) (byte_at buf 2)) (byte_at buf 3), 4%nat)
      else
        if (length buf <? 8)%nat then Err ShortVarint
        else Ok (fold_left shift_in (slice buf 1 8) value, 8%nat)
  end.

(** The length of an integer, from its first byte; and the integer read from a
    stream (the same lines three times in the server and twice in the client). *)
Definition varint_len (first : Z) : Z :=
  let p := Z.shiftr first 6 in
  if p =? 0 then 1 else if p =? 1 then 2 else if p =? 2 then 4 else 8.
Definition read_varint : proc Z :=
  let@ first := read_exact 1 in
  let first_byte := byte_to_Z (byte_at first 0) in
  if varint_len first_byte =? 1 then Ret (Z.land first_byte 0x3F)
  else
    let@ remaining := read_exact (varint_len first_byte - 1) in
    match decode_varint_from_buf (first ++ remaining) with
    | Ok (val, _) => Ret val
    | Err _ => bail "insufficient bytes for varint"
    end.

(** ** The client *)

(** [padding] is what the random generator produced, fewer than 64 bytes. *)
Definition tcp_request (addr : string) (padding : bytes) : bytes :=
  encode_varint 0x401 ++ encode_varint (str_len addr) ++ as_bytes addr
  ++ encode_varint (len padding) ++ padding.
Definition write_tcp_request (addr : string) (padding : bytes) : proc unit :=
  write_all (tcp_request addr padding).

Definition failure_message (msg_buf : bytes) : string :=
  "hysteria2 TCP request failed: " +:+ from_utf8_lossy msg_buf.
Definition read_tcp_response : proc unit :=
  let@ status := read_u8 in
  let@ msg_len := read_varint in
  let@ msg_buf := if 0 <? msg_len then read_exact msg_len else Ret [] in
  let@ padding_len := read_varint in
  let@ _ := if 0 <? padding_len then read_exact padding_len else Ret [] in
  if negb (status =? 0) then bail (failure_message msg_buf) else Ret tt.

Definition connect (target : Address) (padding : bytes) : proc unit :=
  let@ _ := write_tcp_request (to_hysteria2_addr_string target) padding in
  read_tcp_response.

(** ** The server *)

Inductive Hy2RequestType := Tcp | Udp.
Record Hy2InboundRequest := mkRequest { request_type : Hy2RequestType; target : Address }.
Definition verify_password (passwords : list string) (p : string) : bool := bool_decide (p ∈ passwords).

Definition parse_tcp_request : proc Hy2InboundRequest :=
  let@ request_id := read_varint in
  let@ req_type :=
    if request_id =? 0x401 then Ret Tcp
    else if request_id =? 0x402 then Ret Udp
    else bail "unknown hysteria2 request type" in
  let@ addr_len := read_varint in
  let@ addr_buf := if 0 <? addr_len then read_exact addr_len else Ret [] in
  let@ addr_str := or_bail "invalid utf-8" (from_utf8 addr_buf) in
  let@ pad_len := read_varint in
  let@ _ := if 0 <? pad_len then read_exact pad_len else Ret [] in
  match parse_target addr_str with
  | Ok t => Ret (mkRequest req_type t)
  | Err _ => bail "invalid hysteria2 address"
  end.
Definition write_tcp_response_ok : proc unit := write_all [Byte.x00; Byte.x00; Byte.x00].
Definition write_tcp_response_err (msg : string) : proc unit :=
  write_all ([Byte.x01] ++ encode_varint (str_len msg) ++ as_bytes msg ++ [Byte.x00]).

(** ** UDP messages *)

Definition encode_udp_message (session_id packet_id : Z) (addr : string) (data : bytes) : bytes :=
  to_be_bytes 4 session_id ++ to_be_bytes 2 packet_id ++ [Byte.x00] ++ [Byte.x01]
  ++ encode_varint (str_len addr) ++ as_bytes addr ++ data.

Definition decode_udp_message (data : bytes) : result string (Z * Z * string * bytes) :=
  if (length data <? 9)%nat then Err "Hysteria2 UDPMessage too short"%string else
  let session_id := from_be_bytes [byte_at data 0; byte_at data 1; byte_at data 2; byte_at data 3] in
  let packet_id := from_be_bytes [byte_at data 4; byte_at data 5] in
  match decode_varint_from_buf (drop 8 data) with
  | Err _ => Err "varint"%string
  | Ok (addr_len, varint_size) =>
      let addr_start := (8 + varint_size)%nat in
      let addr_end := Z.of_nat addr_start + addr_len in
      if len data <? addr_end then Err "Hysteria2 UDPMessage truncated at address"%string else
      match from_utf8 (slice data addr_start (Z.to_nat addr_end)) with
      | None => Err "invalid utf-8"%string
      | Some addr => Ok (session_id, packet_id, addr, drop (Z.to_nat addr_end) data)
      end
  end.

Record Hysteria2UdpTransport := mkUdp { session_id : Z; packet_id : Z }.
Definition udp_send (t : Hysteria2UdpTransport) (p : UdpPacket) : bytes * Hysteria2UdpTransport :=
  (encode_udp_message (session_id t) (packet_id t) (to_hysteria2_addr_string (p_addr p)) (p_data p),
   mkUdp (session_id t) (wrap 16 (packet_id t + 1))).
(** [recv] takes datagrams from the connection's queue; the rest of the queue
    is returned. *)
Fixpoint udp_recv (t : Hysteria2UdpTransport) (dgrams : list bytes)
  : option (result string UdpPacket) * list bytes :=
  match dgrams with
  | [] => (None, [])
  | d :: rest =>
      match decode_udp_message d with
      | Err e => (Some (Err e), rest)
      | Ok (sid, _pid, addr_str, payload) =>
          if negb (sid =? session_id t) then udp_recv t rest
          else match parse_target addr_str with
               | Ok addr => (Some (Ok (mkPacket addr payload)), rest)
               | Err _ => (Some (Err "invalid hysteria2 address"%string), rest)
               end
      end
  end.

(** ** Integers read back *)

Lemma shift_in_eq v b : 0 <= v < 2 ^ 56 → shift_in v b = v * 256 + byte_to_Z b.
Proof.
  intros Hv. pose proof (byte_to_Z_range b). unfold shift_in. rewrite Z.shiftl_mul_pow2 by lia.
  rewrite wrap_small by (unfold in_width; lia). rewrite Z.lor_comm, lor_add by lia. lia.
Qed.
(** The bytes of an integer of at most 62 bits, shifted in one by one. *)
Lemma fold_shift_in l : ∀ v, 0 <= v → (v + 1) * 256 ^ len l <= 2 ^ 62 →
  fold_left shift_in l v = v * 256 ^ len l + from_be_bytes l.
Proof.
  intros v Hv Hl. unfold len in *. rewrite <- fold_be_acc. revert v Hv Hl.
  induction l as [|b l IH]; intros v Hv Hl; first done. cbn [fold_left length] in *.
  rewrite Nat2Z.inj_succ, Z.pow_succ_r in Hl by lia.
  pose proof (Z.pow_pos_nonneg 256 (Z.of_nat (length l)) ltac:(lia) ltac:(lia)) as Hk.
  pose proof (byte_to_Z_range b). rewrite shift_in_eq by (split; [lia|]; change (2 ^ 56) with 72057594037927936; change (2 ^ 62) with 4611686018427387904 in Hl; nia).
  apply IH; [lia|]. nia.
Qed.

Lemma varint_first m p x :
  0 <= p < 4 → 0 <= x < 64 * 256 ^ Z.of_nat m →
  let b := byte_of_Z ((p * (64 * 256 ^ Z.of_nat m) + x) / 256 ^ Z.of_nat m) in
  Z.shiftr (byte_to_Z b) 6 = p ∧ Z.land (byte_to_Z b) 0x3F = x / 256 ^ Z.of_nat m.
Proof.
  intros Hp Hx b. set (k := 256 ^ Z.of_nat m) in *.
  assert (0 < k) as Hk by (apply Z.pow_pos_nonneg; lia).
  assert (0 <= x / k < 64) as Hq by (split; [apply Z.div_pos; lia|apply Z.div_lt_upper_bound; lia]).
  assert (byte_to_Z b = x / k + p * 64) as ->.
  { unfold b. replace (p * (64 * k) + x) with ((p * 64) * k + x) by lia.
    rewrite Z.div_add_l, byte_to_of_small by (unfold in_width; lia). lia. }
  split.
  - rewrite Z.shiftr_div_pow2 by lia. change (2 ^ 6) with 64. rewrite Z.div_add, Z.div_small by lia. lia.
  - change 0x3F with (Z.ones 6). rewrite Z.land_ones by lia. change (2 ^ 6) with 64.
    rewrite Z.mod_add, Z.mod_small by lia. lia.
Qed.

Lemma varint_rest m p x :
  (m <= 7)%nat → 0 <= x < 64 * 256 ^ Z.of_nat m →
  fold_left shift_in (to_be_bytes m (p * (64 * 256 ^ Z.of_nat m) + x)) (x / 256 ^ Z.of_nat m) = x.
Proof.
  intros Hm Hx. set (k := 256 ^ Z.of_nat m) in *. assert (0 < k) as Hk by (apply Z.pow_pos_nonneg; lia).
  assert (0 <= x / k < 64) as Hq by (split; [apply Z.div_pos; lia|apply Z.div_lt_upper_bound; lia]).
  assert (k <= 256 ^ 7) as Hk7 by (apply Z.pow_le_mono_r; lia).
  rewrite fold_shift_in; unfold len; rewrite ?length_to_be_bytes, ?from_to_be_bytes_mod; fold k; [|lia|].
  - replace (p * (64 * k) + x) with (x + (p * 64) * k) by lia. rewrite Z.mod_add by lia.
    pose proof (Z.div_mod x k ltac:(lia)). lia.
  - change (2 ^ 62) with (64 * 256 ^ 7). nia.
Qed.

Lemma lor_top2 v : 0 <= v < 2 ^ 64 → Z.lor v 0xC000000000000000 = 3 * (64 * 256 ^ 7) + v mod 2 ^ 62.
Proof.
  intros Hv. pose proof (Z.div_mod v (2 ^ 62) ltac:(lia)) as Hd.
  pose proof (Z.mod_pos_bound v (2 ^ 62) ltac:(lia)) as Hm.
  assert (0 <= v / 2 ^ 62 < 4) as Hh by (split; [apply Z.div_pos; lia|apply Z.div_lt_upper_bound; lia]).
  set (h := v / 2 ^ 62) in *. set (l := v mod 2 ^ 62) in *.
  replace v with (l + h * 2 ^ 62) by lia. rewrite <- (lor_add l h 62) by lia.
  rewrite <- Z.lor_assoc. change 0xC000000000000000 with (3 * 2 ^ 62).
  rewrite <- !(Z.shiftl_mul_pow2 _ 62), <- Z.shiftl_lor by lia.
  assert (Z.lor h 3 = 3) as -> by (assert (h = 0 ∨ h = 1 ∨ h = 2 ∨ h = 3) as [-> | [-> | [-> | ->]]] by lia; done).
  rewrite Z.shiftl_mul_pow2, lor_add by lia. change (64 * 256 ^ 7) with (2 ^ 62). lia.
Qed.

(** The three long forms: [m] bytes after the first one, the prefix [p], and
    the 62 bits that fit. *)
Lemma encode_varint_long v : 63 < v < 2 ^ 64 → ∃ m p,
  ((m, p) = (1%nat, 1) ∨ (m, p) = (3%nat, 2) ∨ (m, p) = (7%nat, 3))
  ∧ 0 <= v mod 2 ^ 62 < 64 * 256 ^ Z.of_nat m
  ∧ encode_varint v = to_be_bytes (S m) (p * (64 * 256 ^ Z.of_nat m) + v mod 2 ^ 62).
Proof.
  intros Hv. unfold encode_varint. rewrite (proj2 (Z.leb_gt _ _)) by lia.
  destruct (Z.leb_spec v 16383); [|destruct (Z.leb_spec v 1073741823)].
  - exists 1%nat, 1. rewrite (Z.mod_small v) by lia. split; [by left|]. split; [simpl; lia|]. f_equal.
    rewrite wrap_small by (unfold in_width; lia). change 0x4000 with (1 * 2 ^ 14). rewrite lor_add by lia. simpl. lia.
  - exists 3%nat, 2. rewrite (Z.mod_small v) by lia. split; [by right; left|]. split; [simpl; lia|]. f_equal.
    rewrite wrap_small by (unfold in_width; lia). change 0x80000000 with (2 * 2 ^ 30). rewrite lor_add by lia. simpl. lia.
  - exists 7%nat, 3. split; [by right; right|]. split; [apply Z.mod_pos_bound; lia|].
    by rewrite lor_top2 by lia.
Qed.

Lemma decode_encode_varint v rest : u64_ok v →
  decode_varint_from_buf (encode_varint v ++ rest) = Ok (v mod 2 ^ 62, length (encode_varint v)).
Proof.
  intros Hv. unfold in_width in Hv. destruct (Z.le_gt_cases v 63) as [Hs|Hs].
  - unfold encode_varint. rewrite (proj2 (Z.leb_le _ _)), (Z.mod_small v) by lia. cbn [app decode_varint_from_buf].
    rewrite byte_to_of_small by (unfold in_width; lia).
    rewrite Z.shiftr_div_pow2, Z.div_small by lia. change 0x3F with (Z.ones 6).
    by rewrite Z.land_ones, Z.mod_small by lia.
  - destruct (encode_varint_long v ltac:(lia)) as (m&p&Hmp&Hx&->). rewrite length_to_be_bytes.
    set (x := v mod 2 ^ 62) in *.
    assert (0 <= p < 4 ∧ (m <= 7)%nat) as [Hp Hm] by (destruct Hmp as [[= -> ->]|[[= -> ->]|[= -> ->]]]; lia).
    destruct (varint_first m p x Hp Hx) as [Hf Hl]. pose proof (varint_rest m p x Hm Hx) as Hr.
    set (z := p * (64 * 256 ^ Z.of_nat m) + x) in *. cbn [to_be_bytes app decode_varint_from_buf].
    rewrite Hf, Hl. cbn [length]. rewrite length_app, length_to_be_bytes.
    destruct Hmp as [[= -> ->]|[[= -> ->]|[= -> ->]]]; cbn [Z.eqb Pos.eqb Nat.ltb Nat.leb Nat.add]; by rewrite <- Hr at 2.
Qed.

Lemma encode_varint_first v : u64_ok v → ∃ b t, encode_varint v = b :: t
  ∧ varint_len (byte_to_Z b) = Z.succ (len t) ∧ (t = [] → byte_to_Z b = v ∧ v <= 63).
Proof.
  intros Hv. unfold in_width in Hv. destruct (Z.le_gt_cases v 63) as [Hs|Hs].
  - exists (byte_of_Z v), []. unfold encode_varint. rewrite (proj2 (Z.leb_le _ _)) by lia.
    rewrite byte_to_of_small by (unfold in_width; lia). split; [done|]. split; [|done]. unfold varint_len.
    by rewrite Z.shiftr_div_pow2, Z.div_small by lia.
  - destruct (encode_varint_long v ltac:(lia)) as (m&p&Hmp&Hx&->).
    assert (0 <= p < 4) as Hp by (destruct Hmp as [[= -> ->]|[[= -> ->]|[= -> ->]]]; lia).
    destruct (varint_first m p _ Hp Hx) as [Hf _]. cbn [to_be_bytes].
    eexists _, _. split; [done|]. unfold varint_len. rewrite Hf. unfold len. rewrite length_to_be_bytes.
    by destruct Hmp as [[= -> ->]|[[= -> ->]|[= -> ->]]].
Qed.

Lemma exec_read_varint {A} v (f : Z → proc A) i r o : u64_ok v →
  exec (f (v mod 2 ^ 62)) i r o → exec (let@ x := read_varint in f x) (encode_varint v ++ i) r o.
Proof.
  intros Hv Hf. apply (exec_then_quiet _ (v mod 2 ^ 62)); last done.
  pose proof (decode_encode_varint v [] Hv) as Hd. rewrite app_nil_r in Hd.
  destruct (encode_varint_first v Hv) as (b&t&E&Hl&Ht). rewrite E in *. unfold read_varint.
  apply (exec_exact_bind 1 [b] _ t); first done. change (byte_at [b] 0) with b. rewrite Hl.
  destruct t as [|c t].
  - destruct (Ht eq_refl) as [Hb Hv63]. rewrite Hb. change (Z.succ (len []) =? 1) with true. cbn iota.
    unfold in_width in Hv. rewrite (Z.mod_small v (2 ^ 62)) by lia. change 0x3F with (Z.ones 6).
    rewrite Z.land_ones, Z.mod_small by lia. constructor.
  - rewrite (proj2 (Z.eqb_neq _ _)) by (unfold len; cbn [length]; lia).
    rewrite <- (app_nil_r (c :: t)) at 2. apply exec_exact_bind; first lia.
    change ([b] ++ c :: t) with (b :: c :: t). rewrite Hd. constructor.
Qed.

(** QUIC integers are read back as written, from a buffer and from a stream alike: every value below 2^62 comes back exactly, with the number of bytes it took and nothing beyond them consumed; of a larger one, which the format cannot hold, the low 62 bits come back. *)
Theorem varint_roundtrip v rest :
  u64_ok v →
  decode_varint_from_buf (encode_varint v ++ rest) = Ok (v mod 2 ^ 62, length (encode_varint v))
  ∧ run read_varint (encode_varint v ++ rest) = (Ok (v mod 2 ^ 62), rest, []).
Proof.
  intros Hv. split; first by apply decode_encode_varint.
  pose proof (exec_read_varint v Ret [] (Ret (v mod 2 ^ 62)) [] Hv (exec_refl _)) as H.
  rewrite app_nil_r in H. pose proof (exec_run_ret _ _ _ _ rest H) as Hr.
  rewrite run_bind in Hr. destruct (run read_varint _) as [[[a|e] l] o]; last done.
  simpl in Hr. by rewrite app_nil_r in Hr.
Qed.
Lemma varint_roundtrip_witness :
  decode_varint_from_buf (encode_varint 16384 ++ [Byte.x01]) = Ok (16384, 4%nat)
  ∧ run read_varint (encode_varint 16384 ++ [Byte.x01]) = (Ok 16384, [Byte.x01], []).
Proof. apply (varint_roundtrip 16384 [Byte.x01]). done. Defined.

(** ** The request *)

Lemma exec_counted {A} (d : bytes) (f : bytes → proc A) i r o :
  len d < 2 ^ 62 → exec (f d) i r o →
  exec (let@ n := read_varint in let@ b := (if 0 <? n then read_exact n else Ret []) in f b)
    (encode_varint (len d) ++ d ++ i) r o.
Proof.
  intros Hd Hf. pose proof (len_nonneg d). apply exec_read_varint; first (unfold in_width; lia).
  rewrite Z.mod_small by lia. destruct (Z.ltb_spec 0 (len d)) as [|Hz]; first by apply exec_exact_bind.
  destruct d; [by apply exec_ret_bind|unfold len in Hz; cbn [length] in Hz; lia].
Qed.

Lemma exec_parse_request target padding :
  addr_ok target → addr_printable target → str_ok (to_hysteria2_addr_string target) →
  str_len (to_hysteria2_addr_string target) < 2 ^ 62 → len padding < 64 →
  exec parse_tcp_request (tcp_request (to_hysteria2_addr_string target) padding)
    (Ret (mkRequest Tcp target)) [].
Proof.
  intros Hok Hpr Hs Hl Hp. unfold tcp_request, parse_tcp_request.
  apply exec_read_varint; first done. change (0x401 mod 2 ^ 62 =? 0x401) with true. cbn iota.
  apply exec_ret_bind. rewrite <- len_as_bytes in *. apply exec_counted; first done.
  rewrite from_utf8_as_bytes by done. apply exec_ret_bind.
  rewrite <- (app_nil_r padding) at 2. apply exec_counted; first lia.
  rewrite parse_target_display by done. constructor.
Qed.

Definition answer (refusal : option string) : proc unit :=
  match refusal with None => write_tcp_response_ok | Some msg => write_tcp_response_err msg end.

Lemma exec_hy2_response refusal :
  match refusal with Some msg => str_len msg < 2 ^ 62 | None => True end →
  ∃ out, exec (answer refusal) [] (Ret tt) out
    ∧ exec read_tcp_response out
        (match refusal with None => Ret tt | Some msg => bail (failure_message (as_bytes msg)) end) [].
Proof.
  intros H. destruct refusal as [msg|]; eexists; (split; [exact (exec_put _ _)|]); unfold read_tcp_response; cbn [app].
  - apply exec_u8_bind. rewrite <- len_as_bytes in *. apply exec_counted; first done.
    exact (exec_counted [] _ [] _ _ eq_refl (exec_refl _)).
  - apply exec_u8_bind. apply (exec_counted [] _ [Byte.x00]); first done.
    exact (exec_counted [] _ [] _ _ eq_refl (exec_refl _)).
Qed.

(** A Hysteria2 TCP request is understood and answered: the client's request (with whatever random padding of fewer than 64 bytes) and the server's parser, run against each other under any schedule, end with the server holding a TCP request for exactly the client's target; when the server accepts, the client's stream is ready, what it writes next is what the server reads first, and when it refuses with a message, the client fails with that message and writes nothing more. *)
Theorem hy2_request_understood target padding refusal early :
  addr_ok target → addr_printable target → str_ok (to_hysteria2_addr_string target) →
  str_len (to_hysteria2_addr_string target) < 2 ^ 62 → len padding < 64 →
  match refusal with Some msg => str_len msg < 2 ^ 62 | None => True end →
  settles
    (Net (let@ _ := connect target padding in write_all early)
         (let@ r := parse_tcp_request in let@ _ := answer refusal in Ret r) [] [])
    (match refusal with
     | None => Net (Ret tt) (Ret (mkRequest Tcp target)) early []
     | Some msg => Net (bail (failure_message (as_bytes msg))) (Ret (mkRequest Tcp target)) [] []
     end).
Proof.
  intros Hok Hpr Hs Hl Hp Hm. destruct (exec_hy2_response refusal Hm) as (out&Ho&Hr).
  assert (joined (let@ _ := connect target padding in write_all early)
    (let@ r := parse_tcp_request in let@ _ := answer refusal in Ret r) []
    (match refusal with None => Ret tt | Some msg => bail (failure_message (as_bytes msg)) end)
    (Ret (mkRequest Tcp target)) (match refusal with None => early | Some _ => [] end)) as H.
  2: { destruct refusal; by apply joined_by_parts. }
  eapply (joined_client _ (let@ _ := read_tcp_response in write_all early)); first exact (exec_put _ _).
  eapply (joined_server _ _ (Ret (mkRequest Tcp target)) _ _ _ [] out);
    [|by rewrite app_nil_r| |].
  - eapply exec_then; [by apply exec_parse_request| |by rewrite app_nil_r|done].
    eapply exec_then; [exact Ho|constructor|done|by rewrite app_nil_r].
  - pose proof (exec_bind _ _ (fun _ => write_all early) _ _ Hr) as Hc.
    pose proof (exec_trans _ _ (match refusal with None => Ret tt | Some msg => bail (failure_message (as_bytes msg)) end)
      _ _ [] (match refusal with None => early | Some _ => [] end) Hc) as Ht.
    rewrite app_nil_r in Ht. apply Ht. destruct refusal; [constructor|exact (exec_put _ _)].
  - simpl. destruct refusal; constructor.
Qed.
Lemma hy2_request_understood_witness :
  settles
    (Net (let@ _ := connect (Domain "a.b" 443) [Byte.x01] in write_all [Byte.x16])
         (let@ r := parse_tcp_request in let@ _ := answer None in Ret r) [] [])
    (Net (Ret tt) (Ret (mkRequest Tcp (Domain "a.b" 443))) [Byte.x16] []).
Proof. by apply (hy2_request_understood (Domain "a.b" 443) [Byte.x01] None [Byte.x16]). Defined.

(** ** UDP *)

Lemma decode_encode_udp sid pid addr data :
  u32_ok sid → u16_ok pid → str_ok addr → str_len addr < 2 ^ 62 →
  decode_udp_message (encode_udp_message sid pid addr data) = Ok (sid, pid, addr, data).
Proof.
  intros Hs Hp Ha Hl. unfold encode_udp_message, decode_udp_message.
  assert (0 <= str_len addr) by (unfold str_len; lia).
  destruct (encode_varint_first (str_len addr)) as (b&t&Ev&_); first (unfold in_width; lia).
  set (hd := to_be_bytes 4 sid ++ to_be_bytes 2 pid ++ [Byte.x00; Byte.x01]).
  assert (length hd = 8%nat) as Hh by done.
  assert (to_be_bytes 4 sid ++ to_be_bytes 2 pid ++ [Byte.x00] ++ [Byte.x01]
    ++ encode_varint (str_len addr) ++ as_bytes addr ++ data
    = hd ++ encode_varint (str_len addr) ++ as_bytes addr ++ data) as -> by done.
  rewrite (proj2 (Nat.ltb_ge _ _)) by (rewrite length_app, Hh, Ev; cbn [app length]; lia).
  rewrite <- Hh at 1. rewrite drop_app_length, decode_encode_varint by (unfold in_width; lia).
  rewrite Z.mod_small by lia. cbv zeta.
  set (ev := encode_varint (str_len addr)) in *.
  replace (Z.of_nat (8 + length ev) + str_len addr) with (Z.of_nat (length hd + length ev + length (as_bytes addr)))
    by (unfold str_len; rewrite length_as_bytes; lia).
  unfold len. rewrite (proj2 (Z.ltb_ge _ _)) by (rewrite !length_app; lia). rewrite Nat2Z.id.
  rewrite (app_assoc hd), slice_mid by (rewrite length_app; lia).
  rewrite from_utf8_as_bytes by done. apply (f_equal Ok).
  refine (f_equal2 pair (f_equal2 pair (f_equal2 pair _ _) eq_refl) _).
  - etrans; [|by apply from_to_be_4]. done.
  - etrans; [|by apply from_to_be_2]. done.
  - by rewrite app_assoc, drop_app_length' by (rewrite !length_app; lia).
Qed.

Definition udp_fits (p : UdpPacket) : Prop :=
  addr_ok (p_addr p) ∧ addr_printable (p_addr p) ∧ str_ok (to_hysteria2_addr_string (p_addr p))
  ∧ str_len (to_hysteria2_addr_string (p_addr p)) < 2 ^ 62.
Definition transport_ok (t : Hysteria2UdpTransport) : Prop := u32_ok (session_id t) ∧ u16_ok (packet_id t).

Lemma udp_send_ok t p : transport_ok t → transport_ok (udp_send t p).2.
Proof. intros [Hs _]. split; [done|]. by apply wrap_range. Qed.
Lemma udp_recv_one t s p rest :
  transport_ok s → udp_fits p →
  udp_recv t ((udp_send s p).1 :: rest) =
    if session_id s =? session_id t then (Some (Ok p), rest) else udp_recv t rest.
Proof.
  intros [Hs Hp] (Ha&Hpr&Hok&Hl). cbn [udp_recv udp_send fst]. rewrite decode_encode_udp by done.
  destruct (session_id s =? session_id t); [|done]. cbn [negb]. rewrite parse_target_display by done. by destruct p.
Qed.

(** The UDP messages of a Hysteria2 session come out with their address and payload, in order, past the messages of other sessions; but the queue of datagrams is the connection's, so a session that receives first throws away the messages of the others: when two sessions share a connection, a message sent to the second and received while the first is waiting is lost to both. *)
Theorem hy2_udp_sessions t other others p q rest :
  transport_ok t → Forall (fun '(s, p) => transport_ok s ∧ udp_fits p ∧ session_id s ≠ session_id t) others →
  transport_ok other → session_id other ≠ session_id t → udp_fits p → udp_fits q →
  udp_recv t (((fun '(s, p) => (udp_send s p).1) <$> others) ++ (udp_send t p).1 :: rest) = (Some (Ok p), rest)
  ∧ udp_recv t [(udp_send other q).1] = (None, [])
  ∧ udp_recv other [(udp_send other q).1] = (Some (Ok q), []).
Proof.
  intros Ht Ho Hoth Hne Hp Hq. split; [|split].
  - induction Ho as [|[s p'] l (Hs&Hp'&Hn) _ IH].
    + cbn [fmap list_fmap app]. by rewrite udp_recv_one, Z.eqb_refl.
    + cbn [fmap list_fmap app]. rewrite udp_recv_one by done. by rewrite (proj2 (Z.eqb_neq _ _)).
  - rewrite udp_recv_one by done. by rewrite (proj2 (Z.eqb_neq _ _)).
  - by rewrite udp_recv_one, Z.eqb_refl.
Qed.
Lemma hy2_udp_sessions_witness :
  udp_recv (mkUdp 1 0) [(udp_send (mkUdp 2 0) (mkPacket (Domain "c.d" 53) [])).1;
                        (udp_send (mkUdp 1 0) (mkPacket (Ip (SockV4 1 53)) [Byte.x41])).1]
  = (Some (Ok (mkPacket (Ip (SockV4 1 53)) [Byte.x41])), [])
  ∧ udp_recv (mkUdp 1 0) [(udp_send (mkUdp 2 0) (mkPacket (Domain "c.d" 53) [])).1] = (None, [])
  ∧ udp_recv (mkUdp 2 0) [(udp_send (mkUdp 2 0) (mkPacket (Domain "c.d" 53) [])).1]
    = (Some (Ok (mkPacket (Domain "c.d" 53) [])), []).
Proof.
  apply (hy2_udp_sessions (mkUdp 1 0) (mkUdp 2 0) [(mkUdp 2 0, mkPacket (Domain "c.d" 53) [])]
    (mkPacket (Ip (SockV4 1 53)) [Byte.x41]) (mkPacket (Domain "c.d" 53) []) []); try done.
  repeat constructor; done.
Defined.
