(* ===== verification/SingMux.v ===== *)
(** * sing-mux multiplexing ([src/src/proxy/mux/singmux.rs])

    Frames and the negotiation payload, per-stream flow control, and both ends
    of a session.  The channels, the streams' read side and the heap of
    channels are those of [Smux], whose stream code this file repeats; the
    session is related to an smux session frame by frame, so that what a stream
    delivers is proved there once. *)

From S2P Require Import Prelude RustStr Framing Smux.

Definition FRAME_NEW : Z := 1.
Definition FRAME_DATA : Z := 2.
Definition FRAME_CLOSE : Z := 3.
Definition FRAME_KEEPALIVE : Z := 4.
Definition FRAME_PADDING : Z := 5.
Definition FRAME_NEGOTIATE : Z := 6.
Definition FRAME_HEADER_LEN : nat := 7.
Definition MAX_PAYLOAD_LEN : nat := Z.to_nat 16384.
Definition DEFAULT_RECEIVE_WINDOW : Z := 262144.

(** ** Flow control *)

Record MuxBackpressure := mkBackpressure { window_size : Z; buffered : Z; paused : bool }.
Definition backpressure_new (w : Z) : MuxBackpressure := mkBackpressure w 0 false.
Definition with_default_window : MuxBackpressure := backpressure_new DEFAULT_RECEIVE_WINDOW.

(** [prev + bytes] is a checked addition; the stored counter wraps. *)
Definition on_data_received (n : Z) (b : MuxBackpressure) : option (bool * MuxBackpressure) :=
  let total := buffered b + n in
  if 2 ^ 64 <=? total then None
  else if window_size b <=? total then Some (true, mkBackpressure (window_size b) total true)
  else Some (false, mkBackpressure (window_size b) total (paused b)).
Definition on_data_consumed (n : Z) (b : MuxBackpressure) : bool * MuxBackpressure :=
  let prev := buffered b in
  let stored := prev - Z.min n prev in
  let remaining := saturating_sub prev n in
  if (remaining <? window_size b / 2) && paused b
  then (true, mkBackpressure (window_size b) stored false)
  else (false, mkBackpressure (window_size b) stored (paused b)).

(** ** Frames *)

Record MuxConfig := mkConfig { max_streams : Z; max_connections : Z; padding : bool }.
Definition config_default : MuxConfig := mkConfig 128 4 false.

Record MuxFrame := mkFrame { frame_type : Z; f_stream : Z; f_payload : bytes }.

Definition encode (f : MuxFrame) : bytes :=
  [byte_of_Z (frame_type f)] ++ to_be_bytes 4 (f_stream f)
  ++ to_be_bytes 2 (wrap 16 (len (f_payload f))) ++ f_payload f.
Definition decode (data : bytes) : result decode_error (MuxFrame * nat) :=
  if (length data <? FRAME_HEADER_LEN)%nat then Err ShortHeader else
  let frame_type := byte_to_Z (byte_at data 0) in
  let stream_id :=
    from_be_bytes [byte_at data 1; byte_at data 2; byte_at data 3; byte_at data 4] in
  let length_ := Z.to_nat (from_be_bytes [byte_at data 5; byte_at data 6]) in
  let total := (FRAME_HEADER_LEN + length_)%nat in
  if (length data <? total)%nat then Err ShortPayload else
  Ok (mkFrame frame_type stream_id (slice data FRAME_HEADER_LEN total), total).

Definition encode_frames (frames : list MuxFrame) : bytes :=
  fold_left (fun buf f => buf ++ encode f) frames [].
Definition decode_frames (data : bytes) : option (list MuxFrame * nat) := cut decode FRAME_HEADER_LEN data.

(** ** Negotiation *)

Record MuxNegotiation := mkNegotiation { padding_supported : bool; n_max_streams : Z; version : Z }.
Definition negotiation_default : MuxNegotiation := mkNegotiation false 128 1.
Definition with_padding (n : MuxNegotiation) : MuxNegotiation := mkNegotiation true (n_max_streams n) (version n).
Definition with_max_streams (m : Z) (n : MuxNegotiation) : MuxNegotiation :=
  mkNegotiation (padding_supported n) m (version n).
Definition negotiation_encode (n : MuxNegotiation) : bytes :=
  [byte_of_Z (version n)] ++ [if padding_supported n then Byte.x01 else Byte.x00]
  ++ to_be_bytes 4 (n_max_streams n).
Definition negotiation_decode (data : bytes) : option MuxNegotiation :=
  if (length data <? 6)%nat then None
  else Some (mkNegotiation (negb (Z.land (byte_to_Z (byte_at data 1)) 1 =? 0))
               (from_be_bytes [byte_at data 2; byte_at data 3; byte_at data 4; byte_at data 5])
               (byte_to_Z (byte_at data 0))).
Definition merge (a b : MuxNegotiation) : MuxNegotiation :=
  mkNegotiation (padding_supported a && padding_supported b)
    (Z.min (n_max_streams a) (n_max_streams b)) (Z.min (version a) (version b)).

Definition new_stream (id : Z) : MuxFrame := mkFrame FRAME_NEW id [].
Definition data (id : Z) (p : bytes) : MuxFrame := mkFrame FRAME_DATA id p.
Definition close (id : Z) : MuxFrame := mkFrame FRAME_CLOSE id [].
Definition keepalive : MuxFrame := mkFrame FRAME_KEEPALIVE 0 [].
(** The random bytes of a padding frame are an argument. *)
Definition padding_frame (random : bytes) : MuxFrame := mkFrame FRAME_PADDING 0 random.
Definition negotiate (n : MuxNegotiation) : MuxFrame := mkFrame FRAME_NEGOTIATE 0 (negotiation_encode n).
Definition is_padding (f : MuxFrame) : bool := frame_type f =? FRAME_PADDING.
Definition is_negotiate (f : MuxFrame) : bool := frame_type f =? FRAME_NEGOTIATE.

(** Whether a padding frame is sent is drawn against [frequency]; [below] is
    the outcome of the draw, [random] the bytes, of a length drawn between
    [min_size] and [max_size]. *)
Record MuxPaddingPolicy := mkPolicy { enabled : bool; min_size : nat; max_size : nat }.
Definition policy_default : MuxPaddingPolicy := mkPolicy false 16 256.
Definition should_pad (p : MuxPaddingPolicy) (below : bool) : bool := if negb (enabled p) then false else below.
Definition generate_padding_frame (p : MuxPaddingPolicy) (below : bool) (random : bytes) : option MuxFrame :=
  if should_pad p below then Some (padding_frame random) else None.

(** ** Choice of a protocol *)

Inductive MuxProtocol := SingMux_ | Smux_ | Yamux_ | H2Mux_.
Definition protocol_from_str (s : string) : option MuxProtocol :=
  let s := to_lowercase s in
  if String.eqb s "sing-mux" || String.eqb s "singmux" then Some SingMux_
  else if String.eqb s "smux" then Some Smux_
  else if String.eqb s "yamux" then Some Yamux_
  else if String.eqb s "h2mux" || String.eqb s "h2" then Some H2Mux_
  else None.
Definition protocol_as_str (p : MuxProtocol) : string :=
  match p with SingMux_ => "sing-mux" | Smux_ => "smux" | Yamux_ => "yamux" | H2Mux_ => "h2mux" end.
Definition auto_select_mux (outbound : string) (preferred : option string) : MuxProtocol :=
  match p ← preferred; protocol_from_str p with
  | Some proto => proto
  | None => if String.eqb outbound "trojan" then Smux_ else SingMux_
  end.

(** ** Streams

    A stream reads like an smux stream; it writes DATA frames of at most 16384
    bytes. *)

Definition poll_write (buf : bytes) (s : SmuxStream) (write_tx : Channel MuxFrame)
  : Poll (result io_error nat) * Channel MuxFrame :=
  let l := (length buf `min` MAX_PAYLOAD_LEN)%nat in
  match try_send (data (s_id s) (take l buf)) write_tx with
  | Ok c => (Ready (Ok l), c)
  | Err Full => (Pending, write_tx)
  | Err ChannelClosed => (Ready (Err BrokenPipe), write_tx)
  end.
Definition poll_shutdown (s : SmuxStream) (write_tx : Channel MuxFrame) : Poll unit * Channel MuxFrame :=
  match try_send (close (s_id s)) write_tx with
  | Ok c => (Ready tt, c)
  | Err _ => (Ready tt, write_tx)
  end.

(** ** The client *)

Record MuxClient := mkClient {
  next_id : Z;
  config : MuxConfig;
  frame_tx : Channel MuxFrame;
  streams : gmap Z nat;
  chans : list (Channel bytes);
}.
Definition client_new (c : MuxConfig) (tx : Channel MuxFrame) : MuxClient := mkClient 1 c tx ∅ [].
Definition with_table (m : gmap Z nat) (cs : list (Channel bytes)) (c : MuxClient) : MuxClient :=
  mkClient (next_id c) (config c) (frame_tx c) m cs.

(** [open_stream] up to its awaited send.  The identifier is taken even when
    the limit refuses it. *)
Definition open_register (c : MuxClient) : result unit SmuxStream * MuxClient :=
  let id := next_id c in
  let next := wrap 32 (id + 2) in
  if max_streams (config c) <=? id / 2
  then (Err tt, mkClient next (config c) (frame_tx c) (streams c) (chans c))
  else
    let k := length (chans c) in
    let cs := match streams c !! id with
              | Some old => alter drop_tx old (chans c)
              | None => chans c
              end in
    (Ok {| s_id := id; read_rx := k; read_buf := []; closed := false |},
     mkClient next (config c) (frame_tx c) (<[id := k]> (streams c))
       (cs ++ [{| queue := []; capacity := 64; tx_alive := true; rx_alive := true |}])).
(** The awaited send of the NEW frame. *)
Definition open_send (st : SmuxStream) (c : MuxClient) : Poll (result unit SmuxStream) * MuxClient :=
  match try_send (new_stream (s_id st)) (frame_tx c) with
  | Ok tx => (Ready (Ok st), mkClient (next_id c) (config c) tx (streams c) (chans c))
  | Err Full => (Pending, c)
  | Err ChannelClosed =>
      (Ready (Err tt),
       with_table (streams c)
         (alter (fun ch => {| queue := []; capacity := capacity ch; tx_alive := tx_alive ch;
                              rx_alive := false |}) (read_rx st) (chans c)) c)
  end.
Definition open_stream (c : MuxClient) : Poll (result unit SmuxStream) * MuxClient :=
  match open_register c with
  | (Ok st, c') => open_send st c'
  | (Err e, c') => (Ready (Err e), c')
  end.

(** [tx.send(v).await] on a channel of the heap; [None] while it is full. *)
Definition send_on (k : nat) (v : bytes) (c : MuxClient) : option MuxClient :=
  match chans c !! k with
  | None => Some c
  | Some ch =>
      match try_send v ch with
      | Ok ch' => Some (with_table (streams c) (<[k := ch']> (chans c)) c)
      | Err Full => None
      | Err ChannelClosed => Some c
      end
  end.
(** The DATA and CLOSE cases of [dispatch_frame], the same on both sides; the
    table stays locked while the send waits. *)
Definition dispatch_frame (f : MuxFrame) (c : MuxClient) : option MuxClient :=
  if frame_type f =? FRAME_DATA then
    match streams c !! f_stream f with
    | Some k => send_on k (f_payload f) c
    | None => Some c
    end
  else if frame_type f =? FRAME_CLOSE then
    match streams c !! f_stream f with
    | Some k =>
        c' ← send_on k [] (with_table (delete (f_stream f) (streams c)) (chans c) c);
        Some (with_table (streams c') (alter drop_tx k (chans c')) c')
    | None => Some c
    end
  else Some c.

(** ** The server

    Its table and heap are kept in the same record; [accepted] is the channel
    of streams waiting for [accept]. *)

Record MuxServer := mkServer { core : MuxClient; accepted : Channel SmuxStream }.
Definition server_new (c : MuxConfig) (tx : Channel MuxFrame) : MuxServer :=
  mkServer (client_new c tx) {| queue := []; capacity := 32; tx_alive := true; rx_alive := true |}.
Definition accept (s : MuxServer) : Poll (option SmuxStream) * MuxServer :=
  let '(r, ch) := poll_recv (accepted s) in (r, mkServer (core s) ch).

(** [None] while one of the awaited sends has no room.  The insertion replaces
    an entry with the same identifier, whose sender is dropped. *)
Definition server_dispatch (f : MuxFrame) (s : MuxServer) : option MuxServer :=
  let c := core s in
  if frame_type f =? FRAME_NEW then
    if max_streams (config c) <=? wrap 32 (Z.of_nat (size (streams c))) then
      match try_send (close (f_stream f)) (frame_tx c) with
      | Ok tx => Some (mkServer (mkClient (next_id c) (config c) tx (streams c) (chans c)) (accepted s))
      | Err Full => None
      | Err ChannelClosed => Some s
      end
    else
      let k := length (chans c) in
      let cs := match streams c !! f_stream f with
                | Some old => alter drop_tx old (chans c)
                | None => chans c
                end in
      let c' := with_table (<[f_stream f := k]> (streams c))
                  (cs ++ [{| queue := []; capacity := 64; tx_alive := true; rx_alive := true |}]) c in
      match try_send {| s_id := f_stream f; read_rx := k; read_buf := []; closed := false |} (accepted s) with
      | Ok acc => Some (mkServer c' acc)
      | Err Full => None
      | Err ChannelClosed => Some (mkServer c' (accepted s))
      end
  else c' ← dispatch_frame f c; Some (mkServer c' (accepted s)).

(** ** The codec *)

Definition frame_ok (f : MuxFrame) : Prop :=
  u8_ok (frame_type f) ∧ u32_ok (f_stream f) ∧ u16_ok (len (f_payload f)).

Lemma mux_decode_encode f rest : frame_ok f → decode (encode f ++ rest) = Ok (f, length (encode f)).
Proof.
  destruct f as [t i p]; intros (Ht & Hi & Hp); cbn [frame_type f_stream f_payload] in *.
  unfold encode. cbn [frame_type f_stream f_payload]. rewrite (wrap_small 16) by done.
  pose proof (from_to_be_2 _ Hp) as H2. pose proof (from_to_be_4 _ Hi) as H4.
  remember (to_be_bytes 2 (len p)) as l2 eqn:E2. remember (to_be_bytes 4 i) as l4 eqn:E4.
  pose proof (length_to_be_bytes 2 (len p)) as L2. pose proof (length_to_be_bytes 4 i) as L4.
  rewrite <- E2 in L2. rewrite <- E4 in L4. clear E2 E4.
  destruct l2 as [|a1 [|a2 [|]]]; try discriminate L2.
  destruct l4 as [|b1 [|b2 [|b3 [|b4 [|]]]]]; try discriminate L4.
  unfold decode, byte_at, FRAME_HEADER_LEN. simpl. rewrite H2, H4, byte_to_of_small by done.
  unfold len. rewrite Nat2Z.id, length_app.
  rewrite (proj2 (Nat.ltb_ge _ _)) by (simpl; lia). unfold slice. simpl.
  by rewrite Nat.sub_0_r, drop_0, take_app_length.
Qed.

Lemma mux_decode_bounds d f n : decode d = Ok (f, n) → (FRAME_HEADER_LEN <= n <= length d)%nat ∧ n = length (encode f).
Proof.
  unfold decode. destruct (length d <? FRAME_HEADER_LEN)%nat eqn:E1; [discriminate|].
  apply Nat.ltb_ge in E1. cbv zeta. set (total := (FRAME_HEADER_LEN + _)%nat).
  destruct (length d <? total)%nat eqn:E2; [discriminate|]. apply Nat.ltb_ge in E2. intros [= <- <-]. split; [unfold total; lia|].
  unfold encode. cbn [frame_type f_stream f_payload]. rewrite !length_app, !length_to_be_bytes, length_slice by lia.
  unfold total, FRAME_HEADER_LEN. cbn [length]. lia.
Qed.
#[export] Instance mux_codec : FrameCodec decode FRAME_HEADER_LEN.
Proof.
  split.
  - intros d f n [H _]%mux_decode_bounds. unfold FRAME_HEADER_LEN in H. lia.
  - intros d H. unfold decode. by rewrite (proj2 (Nat.ltb_lt _ _) H).
Qed.
Lemma mux_encode_frames_concat fs : encode_frames fs = concat (encode <$> fs).
Proof.
  unfold encode_frames. enough (H : ∀ acc, fold_left (fun buf f => buf ++ encode f) fs acc = acc ++ concat (encode <$> fs))
    by apply H.
  induction fs as [|f fs IH]; intros acc; simpl; [by rewrite app_nil_r|]. by rewrite IH, <- app_assoc.
Qed.

(** A receive buffer is cut into exactly the frames that were sent: frames whose payload fits the length field, encoded one after the other and followed by an incomplete frame, come back in order with the incomplete bytes left for the next read; on any other buffer the loop stops as well, never past its end. *)
Theorem mux_frames_roundtrip fs tail d :
  Forall frame_ok fs → is_ok (decode tail) = false →
  decode_frames (encode_frames fs ++ tail) = Some (fs, length (encode_frames fs))
  ∧ ∃ out n, decode_frames d = Some (out, n) ∧ (n <= length d)%nat ∧ is_ok (decode (drop n d)) = false.
Proof.
  intros Hok Ht. split.
  - rewrite mux_encode_frames_concat. by apply (cut_encoded _ _ encode frame_ok); [apply mux_decode_encode| |].
  - destruct (cut_spec decode FRAME_HEADER_LEN d) as (out & n & Hr & Hn & _ & He). exists out, n. auto.
Qed.
Lemma mux_frames_roundtrip_witness :
  decode_frames (encode_frames [new_stream 1; data 1 [Byte.x41]; close 1] ++ [Byte.x02])
  = Some ([new_stream 1; data 1 [Byte.x41]; close 1], 22%nat)
  ∧ ∃ out n, decode_frames [Byte.x01] = Some (out, n) ∧ (n <= length [Byte.x01])%nat
      ∧ is_ok (decode (drop n [Byte.x01])) = false.
Proof.
  apply (mux_frames_roundtrip [new_stream 1; data 1 [Byte.x41]; close 1] [Byte.x02] [Byte.x01]);
    [repeat constructor; vm_compute; congruence|reflexivity].
Defined.

Lemma negotiation_decode_encode n rest :
  u8_ok (version n) → u32_ok (n_max_streams n) → negotiation_decode (negotiation_encode n ++ rest) = Some n.
Proof.
  intros Hv Hm. unfold negotiation_decode. rewrite (proj2 (Nat.ltb_ge _ _)) by (rewrite length_app; cbn; lia).
  destruct n as [p m v]. cbn [version n_max_streams padding_supported] in *. f_equal.
  unfold negotiation_encode. cbn [version n_max_streams padding_supported app].
  refine (f_equal3 mkNegotiation _ _ _).
  - by destruct p.
  - etrans; [|by apply from_to_be_4]. done.
  - by apply byte_to_of_small.
Qed.

(** ** Flow control *)

Inductive flow_op := Received (n : Z) | Consumed (n : Z).
Definition flow_step (o : flow_op) (b : MuxBackpressure) : option MuxBackpressure :=
  match o with
  | Received n => snd <$> on_data_received n b
  | Consumed n => Some (on_data_consumed n b).2
  end.
Fixpoint flow_run (ops : list flow_op) (b : MuxBackpressure) : option MuxBackpressure :=
  match ops with
  | [] => Some b
  | o :: ops => b' ← flow_step o b; flow_run ops b'
  end.
Definition flow_ok (o : flow_op) : Prop := match o with Received n | Consumed n => 0 <= n end.
(** Reading is paused when the window is full and resumes below half of it. *)
Definition flow_inv (b : MuxBackpressure) : Prop :=
  0 <= buffered b ∧ (paused b = false → buffered b < window_size b) ∧ (paused b = true → window_size b / 2 <= buffered b).

Lemma flow_step_inv o b b' : flow_ok o → 1 <= window_size b → flow_inv b → flow_step o b = Some b' →
  flow_inv b' ∧ window_size b' = window_size b.
Proof.
  intros Ho Hw (H0 & Hr & Hp) H. pose proof (Z.div_lt (window_size b) 2) as Hd.
  assert (window_size b / 2 <= window_size b) by (apply Z.div_le_upper_bound; lia).
  destruct o as [n|n]; cbn [flow_step flow_ok] in *.
  - unfold on_data_received in H. destruct (2 ^ 64 <=? _); first done.
    destruct (Z.leb_spec (window_size b) (buffered b + n)); injection H as <-; (split; [|done]);
      unfold flow_inv; cbn [buffered paused window_size]; (split; [lia|split; intros; try done; try lia]).
    assert (window_size b / 2 <= buffered b) by auto. lia.
  - simplify_eq. unfold on_data_consumed, saturating_sub.
    destruct (Z.ltb_spec (Z.max (buffered b - n) 0) (window_size b / 2)); destruct (paused b) eqn:Ep; cbn; (split; [|done]);
      unfold flow_inv; cbn [buffered paused window_size]; (split; [lia|split; intros; try done; try lia]).
    all: try (assert (buffered b < window_size b) by auto; lia).
Qed.

(** Flow control keeps its window: after any sequence of receptions and consumptions a stream that is not paused buffers less than its window and a paused one at least half of it, the counter is never negative, and draining a paused stream resumes it provided the window is at least two bytes (below that nothing ever resumes it). *)
Theorem backpressure_window w ops b :
  1 <= w → Forall flow_ok ops → flow_run ops (backpressure_new w) = Some b →
  flow_inv b ∧ window_size b = w
  ∧ (paused b = true →
     (2 <= w → ∀ n, buffered b <= n → on_data_consumed n b = (true, mkBackpressure w 0 false))
     ∧ (w < 2 → ∀ n, 0 <= n → paused (on_data_consumed n b).2 = true)).
Proof.
  intros Hw Hops Hrun.
  assert (flow_inv b ∧ window_size b = w) as [Hinv Hwin].
  { assert (flow_inv (backpressure_new w)) as Hi by (unfold flow_inv; cbn; split; [lia|split; [lia|discriminate]]).
    assert (window_size (backpressure_new w) = w) as Hs by done. revert Hi Hs Hrun.
    generalize (backpressure_new w). induction Hops as [|o ops Ho Hops IH]; intros b0 Hi Hs H; cbn [flow_run] in H.
    { by simplify_eq. }
    apply bind_Some in H as (b1 & H1 & H2). destruct (flow_step_inv o b0 b1 Ho ltac:(lia) Hi H1) as [Hi1 Hs1].
    apply (IH b1); [done|congruence|done]. }
  split; [done|split; [done|]]. intros Hp. destruct Hinv as (H0 & _ & _).
  unfold on_data_consumed, saturating_sub. rewrite Hwin, Hp. split.
  - intros H2 n Hn. assert (1 <= w / 2) by (apply Z.div_le_lower_bound; lia).
    rewrite (proj2 (Z.ltb_lt _ _)) by lia. cbn [andb]. do 2 f_equal. lia.
  - intros H2 n Hn. assert (w / 2 = 0) as -> by (apply Z.div_small; lia).
    by rewrite (proj2 (Z.ltb_ge _ _)) by lia.
Qed.
Lemma backpressure_window_witness :
  ∃ b, flow_run [Received 10; Consumed 3] (backpressure_new 8) = Some b
  ∧ flow_inv b ∧ window_size b = 8
  ∧ (paused b = true →
     (2 <= 8 → ∀ n, buffered b <= n → on_data_consumed n b = (true, mkBackpressure 8 0 false))
     ∧ (8 < 2 → ∀ n, 0 <= n → paused (on_data_consumed n b).2 = true)).
Proof.
  eexists. split; [reflexivity|]. apply (backpressure_window 8 [Received 10; Consumed 3]); [lia| |reflexivity].
  repeat constructor; cbn; lia.
Defined.

(** ** Relation to smux

    The same table and heap; DATA is PSH, CLOSE is FIN, anything else is a
    frame the dispatcher ignores. *)

Definition idle_tx : Channel SmuxFrame := {| queue := []; capacity := 0; tx_alive := true; rx_alive := true |}.
Definition to_smux (c : MuxClient) : SmuxSession :=
  {| Smux.next_id := next_id c; Smux.frame_tx := idle_tx; Smux.streams := streams c; Smux.chans := chans c |}.
Definition to_smux_frame (f : MuxFrame) : SmuxFrame :=
  {| Smux.version := SMUX_VERSION;
     cmd := if frame_type f =? FRAME_DATA then CMD_PSH
            else if frame_type f =? FRAME_CLOSE then CMD_FIN else CMD_NOP;
     stream_id := f_stream f; payload := f_payload f |}.

Lemma send_on_sim k v c c' :
  send_on k v c = Some c' → Smux.send_on k v (to_smux c) = Some (to_smux c').
Proof.
  unfold send_on, Smux.send_on. cbn [to_smux Smux.chans]. destruct (chans c !! k) as [ch|]; [|by intros [= <-]].
  destruct (try_send v ch) as [ch'|[]]; by intros [= <-].
Qed.
Lemma dispatch_sim f c c' :
  dispatch_frame f c = Some c' → Smux.dispatch_frame (to_smux_frame f) (to_smux c) = Some (to_smux c').
Proof.
  unfold dispatch_frame, Smux.dispatch_frame, to_smux_frame. cbn [cmd stream_id payload to_smux Smux.streams].
  destruct (frame_type f =? FRAME_DATA); [|destruct (frame_type f =? FRAME_CLOSE)]; cbn [Z.eqb Pos.eqb CMD_PSH CMD_FIN CMD_NOP].
  - destruct (streams c !! f_stream f); [apply send_on_sim|by intros [= <-]].
  - destruct (streams c !! f_stream f) as [k|]; [|by intros [= <-]].
    intros (c1 & H1 & [= <-])%bind_Some. apply send_on_sim in H1.
    change (Smux.with_table (delete (f_stream f) (streams c)) (Smux.chans (to_smux c)) (to_smux c))
      with (to_smux (with_table (delete (f_stream f) (streams c)) (chans c) c)).
    by rewrite H1.
  - by intros [= <-].
Qed.
Lemma dispatch_keeps f c c' : dispatch_frame f c = Some c' →
  next_id c' = next_id c ∧ config c' = config c ∧ frame_tx c' = frame_tx c.
Proof.
  assert (∀ k v c c', send_on k v c = Some c' → next_id c' = next_id c ∧ config c' = config c ∧ frame_tx c' = frame_tx c) as Hs.
  { unfold send_on. intros k v c0 c1. repeat case_match; by intros [= <-]. }
  unfold dispatch_frame. destruct (frame_type f =? FRAME_DATA); [|destruct (frame_type f =? FRAME_CLOSE)].
  - destruct (streams c !! f_stream f); [apply Hs|by intros [= <-]].
  - destruct (streams c !! f_stream f); [|by intros [= <-]].
    intros (c1 & Hc1 & [= <-])%bind_Some. by apply Hs in Hc1.
  - by intros [= <-].
Qed.

(** A client and the reader of one of its streams. *)
Inductive mux_op := Dispatch (f : MuxFrame) | Poll_read (n : nat).
Definition mux_step (o : mux_op) (x : bytes * MuxClient * SmuxStream) : option (bytes * MuxClient * SmuxStream) :=
  let '(out, c, st) := x in
  match o with
  | Dispatch f => c' ← dispatch_frame f c; Some (out, c', st)
  | Poll_read n =>
      ch ← chans c !! read_rx st;
      let '(p, st', ch') := poll_read n st ch in
      Some (out ++ match p with Ready d => d | Pending => [] end,
            with_table (streams c) (<[read_rx st := ch']> (chans c)) c, st')
  end.
Fixpoint mux_run (ops : list mux_op) (x : bytes * MuxClient * SmuxStream) : option (bytes * MuxClient * SmuxStream) :=
  match ops with
  | [] => Some x
  | o :: ops => x' ← mux_step o x; mux_run ops x'
  end.
Definition to_link (o : mux_op) : link_op :=
  match o with Dispatch f => Smux.Dispatch (to_smux_frame f) | Poll_read n => Smux.Poll_read n end.
Lemma mux_run_sim ops out c st out' c' st' :
  mux_run ops (out, c, st) = Some (out', c', st') →
  link_run (to_link <$> ops) (out, to_smux c, st) = Some (out', to_smux c', st').
Proof.
  revert out c st. induction ops as [|o ops IH]; intros out c st H; cbn [mux_run] in H; first by simplify_eq.
  apply bind_Some in H as ([[out1 c1] st1] & H1 & H2). cbn [fmap list_fmap link_run].
  destruct o as [f|n]; cbn [to_link link_step mux_step] in *.
  - apply bind_Some in H1 as (c2 & Hd & [= <- <- <-]). rewrite (dispatch_sim _ _ _ Hd). by apply IH.
  - cbn [to_smux Smux.chans]. apply bind_Some in H1 as (ch & Hc & H1). rewrite Hc. cbn [mbind option_bind].
    destruct (poll_read n st ch) as [[p st2] ch']. simplify_eq. exact (IH _ _ _ H2).
Qed.

(** The bytes sent on stream [id], until it is closed or sent an empty DATA
    frame. *)
Definition stream_content (id : Z) (ops : list mux_op) : bytes * bool :=
  fold_left (content_step id)
    (omap (fun o => match o with Dispatch f => Some (to_smux_frame f) | Poll_read _ => None end) ops) ([], false).
Lemma dispatched_link ops :
  dispatched (to_link <$> ops)
  = omap (fun o => match o with Dispatch f => Some (to_smux_frame f) | Poll_read _ => None end) ops.
Proof.
  unfold dispatched. induction ops as [|[f|n] ops IH]; [done| |]; cbn [fmap list_fmap to_link omap list_omap].
  - f_equal. exact IH.
  - exact IH.
Qed.
Definition client_wf (c : MuxClient) : Prop := session_wf (to_smux c).

Lemma open_stream_inv c c0 st :
  client_wf c → open_stream c = (Ready (Ok st), c0) →
  ∃ ch, link_inv (next_id c) ([], false) ([], to_smux c0, st) ch.
Proof.
  intros Hwf. unfold open_stream, open_register. destruct (max_streams (config c) <=? next_id c / 2); first done.
  destruct (open_register_inv (to_smux c) Hwf) as [ch Hi]. unfold open_send.
  destruct (try_send _ _) as [tx|[]]; [|done|done]. intros [= <- <-]. exists ch.
  apply (link_inv_frame _ _ _ (Smux.open_register (to_smux c)).2); [exact Hi|done|done|done].
Qed.

(** C27: a sing-mux stream delivers its own bytes in order: from the moment it is
    opened, whatever frames of any stream and of any type are dispatched (padding,
    negotiation, keep-alive included) and however the reader polls, the bytes
    delivered and those still unread are exactly the DATA payloads sent on that
    stream before its CLOSE or its first empty DATA frame, which ends it as well;
    the next poll with room delivers an unread byte if there is one, and otherwise
    reports the end exactly when the stream was ended by one of the two. *)
Theorem mux_stream_delivers_in_order c c0 st ops out c' st' :
  client_wf c → open_stream c = (Ready (Ok st), c0) →
  mux_run ops ([], c0, st) = Some (out, c', st') →
  let '(content, ended) := stream_content (next_id c) ops in
  ∃ ch, chans c' !! read_rx st' = Some ch
    ∧ out ++ unread st' ch = content
    ∧ ∀ n, (0 < n)%nat →
        match unread st' ch with
        | [] => (poll_read n st' ch).1.1 = if ended then Ready [] else Pending
        | u => ∃ k, (0 < k)%nat ∧ (poll_read n st' ch).1.1 = Ready (take k u)
        end.
Proof.
  intros Hwf Hopen Hrun. destruct (open_stream_inv _ _ _ Hwf Hopen) as [ch0 Hi].
  apply mux_run_sim in Hrun. destruct (link_run_inv _ _ _ _ _ _ Hrun Hi) as [ch Hinv].
  rewrite dispatched_link in Hinv. fold (stream_content (next_id c) ops) in Hinv.
  destruct (stream_content (next_id c) ops) as [content ended].
  exists ch. split; [apply (li_chan _ _ _ _ Hinv)|split; [apply (li_content _ _ _ _ Hinv)|]].
  intros n Hn. exact (next_poll _ _ _ _ _ _ n Hinv Hn).
Qed.

Definition sample_client : MuxClient :=
  client_new config_default {| queue := []; capacity := 4; tx_alive := true; rx_alive := true |}.
Definition sample_ops : list mux_op :=
  [Dispatch (data 1 [Byte.x41; Byte.x42]); Dispatch (padding_frame [Byte.x00]); Poll_read 1;
   Dispatch (close 1); Dispatch (data 1 [Byte.x44])].
Lemma mux_stream_delivers_in_order_witness :
  ∃ out c' st', mux_run sample_ops ([], (open_stream sample_client).2,
                   {| s_id := 1; read_rx := 0; read_buf := []; closed := false |}) = Some (out, c', st')
  ∧ ∃ ch, chans c' !! read_rx st' = Some ch ∧ out ++ unread st' ch = [Byte.x41; Byte.x42].
Proof.
  eexists _, _, _. split; [vm_compute; reflexivity|].
  destruct (mux_stream_delivers_in_order sample_client _ _ sample_ops _ _ _
              (session_new_wf idle_tx) eq_refl eq_refl) as (ch & Hc & Hu & _).
  exists ch. split; [exact Hc | exact Hu].
Defined.

(** ** Limits *)

Inductive client_op := Open | Deliver (f : MuxFrame).
Definition client_step (o : client_op) (c : MuxClient) : option MuxClient :=
  match o with Open => Some (open_stream c).2 | Deliver f => dispatch_frame f c end.
Fixpoint client_run (ops : list client_op) (c : MuxClient) : option MuxClient :=
  match ops with
  | [] => Some c
  | o :: ops => c' ← client_step o c; client_run ops c'
  end.
Fixpoint opens (ops : list client_op) : Z :=
  match ops with [] => 0 | Open :: ops => 1 + opens ops | Deliver _ :: ops => opens ops end.
Lemma mux_opens_nonneg ops : 0 <= opens ops.
Proof. induction ops as [|[|] ops IH]; cbn [opens]; lia. Qed.

Lemma open_stream_next c : next_id (open_stream c).2 = wrap 32 (next_id c + 2) ∧ config (open_stream c).2 = config c.
Proof.
  unfold open_stream, open_register. destruct (_ <=? _); first done. unfold open_send.
  by destruct (try_send _ _) as [|[]].
Qed.
Lemma client_run_next ops : ∀ c c' k, client_run ops c = Some c' → next_id c = 2 * k + 1 → 0 <= k →
  k + opens ops < 2 ^ 31 → next_id c' = 2 * (k + opens ops) + 1 ∧ config c' = config c.
Proof.
  induction ops as [|o ops IH]; intros c c' k H Hk Hk0 Hb; cbn [client_run opens] in *.
  { simplify_eq. split; [lia|done]. }
  apply bind_Some in H as (c1 & H1 & H2). pose proof (mux_opens_nonneg ops). destruct o as [|f]; cbn [client_step] in H1.
  - injection H1 as H1. destruct (open_stream_next c) as [Hn Hc]. rewrite H1, Hk in Hn. rewrite H1 in Hc.
    rewrite wrap_small in Hn by (unfold in_width; lia).
    destruct (IH c1 c' (k + 1) H2 ltac:(lia) ltac:(lia) ltac:(lia)) as [-> ->]. split; [lia|done].
  - destruct (dispatch_keeps _ _ _ H1) as (Hn & Hc & _).
    destruct (IH c1 c' k H2 ltac:(lia) Hk0 Hb) as [-> ->]. done.
Qed.

(** The client's stream limit counts the streams ever opened, not those open: after [max_streams] attempts to open, whatever was closed in between, every further attempt is refused and the table is left as it was. *)
Theorem mux_client_budget_spent cfg tx ops c :
  client_run ops (client_new cfg tx) = Some c →
  max_streams cfg <= opens ops < 2 ^ 31 →
  ∃ c', open_stream c = (Ready (Err tt), c') ∧ streams c' = streams c ∧ frame_tx c' = frame_tx c.
Proof.
  intros Hrun Hb. destruct (client_run_next ops _ c 0 Hrun ltac:(done) ltac:(lia) ltac:(lia)) as [Hn Hc].
  unfold open_stream, open_register. rewrite Hc, Hn.
  replace ((2 * (0 + opens ops) + 1) / 2) with (opens ops)
    by (rewrite Z.mul_comm, Z.div_add_l by lia; change (1 / 2) with 0; lia).
  rewrite (proj2 (Z.leb_le _ _)) by (cbn [client_new config]; lia). eauto.
Qed.
Lemma mux_client_budget_spent_witness :
  ∃ c, client_run [Open; Deliver (close 1)]
         (client_new (mkConfig 1 4 false) {| queue := []; capacity := 9; tx_alive := true; rx_alive := true |}) = Some c
  ∧ streams c = ∅
  ∧ ∃ c', open_stream c = (Ready (Err tt), c') ∧ streams c' = streams c ∧ frame_tx c' = frame_tx c.
Proof.
  eexists. split; [vm_compute; reflexivity|]. split; [reflexivity|].
  apply (mux_client_budget_spent (mkConfig 1 4 false) {| queue := []; capacity := 9; tx_alive := true; rx_alive := true |}
    [Open; Deliver (close 1)]); [vm_compute; reflexivity|vm_compute; intuition discriminate].
Defined.

Fixpoint server_run (fs : list MuxFrame) (s : MuxServer) : option MuxServer :=
  match fs with
  | [] => Some s
  | f :: fs => s' ← server_dispatch f s; server_run fs s'
  end.
Definition server_ok (s : MuxServer) : Prop :=
  Z.of_nat (size (streams (core s))) <= max_streams (config (core s)).

Lemma dispatch_size f c c' : dispatch_frame f c = Some c' → (size (streams c') <= size (streams c))%nat.
Proof.
  assert (∀ k v c c', send_on k v c = Some c' → streams c' = streams c) as Hs.
  { unfold send_on. intros k v c0 c1. repeat case_match; by intros [= <-]. }
  unfold dispatch_frame. destruct (frame_type f =? FRAME_DATA); [|destruct (frame_type f =? FRAME_CLOSE)].
  - destruct (streams c !! f_stream f); [|by intros [= <-]]. by intros ->%Hs.
  - destruct (streams c !! f_stream f) as [k|] eqn:E; [|by intros [= <-]].
    intros (c1 & Hc1 & [= <-])%bind_Some. apply Hs in Hc1. cbn [with_table streams] in *. rewrite Hc1.
    rewrite map_size_delete, E. cbn. lia.
  - by intros [= <-].
Qed.
Lemma server_dispatch_ok f s s' :
  u32_ok (max_streams (config (core s))) → server_ok s → server_dispatch f s = Some s' →
  server_ok s' ∧ config (core s') = config (core s).
Proof.
  unfold server_ok, server_dispatch. intros Hm Hok.
  destruct (frame_type f =? FRAME_NEW).
  - rewrite wrap_small by (unfold in_width in *; lia).
    destruct (Z.leb_spec (max_streams (config (core s))) (Z.of_nat (size (streams (core s))))).
    + destruct (try_send _ _) as [|[]]; [by intros [= <-]|done|by intros [= <-]].
    + assert (Z.of_nat (size (<[f_stream f := length (chans (core s))]> (streams (core s))))
        <= max_streams (config (core s))) by (rewrite map_size_insert; destruct (streams (core s) !! f_stream f); cbn; lia).
      destruct (try_send _ _) as [|[]]; [by intros [= <-]|done|by intros [= <-]].
  - intros (c' & Hc & [= <-])%bind_Some. cbn [core]. pose proof (dispatch_size _ _ _ Hc).
    destruct (dispatch_keeps _ _ _ Hc) as (_ & -> & _). split; [lia|done].
Qed.

(** C28: the server never holds more streams than its limit: whatever frames a peer sends, in any order and with any identifiers, the table stays within [max_streams]. *)
Theorem mux_server_bounded cfg tx fs s :
  u32_ok (max_streams cfg) → server_run fs (server_new cfg tx) = Some s →
  Z.of_nat (size (streams (core s))) <= max_streams cfg.
Proof.
  intros Hm Hrun.
  assert (server_ok (server_new cfg tx)) as Hok by (unfold server_ok; cbn; rewrite map_size_empty; apply Hm).
  assert (config (core (server_new cfg tx)) = cfg) as Hc by done. revert Hok Hc Hrun.
  generalize (server_new cfg tx). induction fs as [|f fs IH]; intros s0 Hok Hc H; cbn [server_run] in H.
  { simplify_eq. exact Hok. }
  apply bind_Some in H as (s1 & H1 & H2).
  destruct (server_dispatch_ok f s0 s1 ltac:(by rewrite Hc) Hok H1) as [Hok1 Hc1].
  apply (IH s1); [done|congruence|done].
Qed.
Lemma mux_server_bounded_witness :
  ∃ s, server_run [new_stream 1; new_stream 3; new_stream 5; close 1; new_stream 7]
         (server_new (mkConfig 2 4 false) {| queue := []; capacity := 9; tx_alive := true; rx_alive := true |}) = Some s
  ∧ Z.of_nat (size (streams (core s))) <= 2.
Proof.
  eexists. split; [vm_compute; reflexivity|].
  apply (mux_server_bounded (mkConfig 2 4 false) {| queue := []; capacity := 9; tx_alive := true; rx_alive := true |}
    [new_stream 1; new_stream 3; new_stream 5; close 1; new_stream 7]); [done|vm_compute; reflexivity].
Defined.

(** Negotiation is symmetric and safe: what one side offers is what the other decodes, both sides compute the same agreement, and it asks neither for padding it does not support nor for more streams or a newer version than it offered. *)
Theorem mux_negotiation_agrees a b rest :
  u8_ok (version a) → u32_ok (n_max_streams a) →
  negotiation_decode (f_payload (negotiate a) ++ rest) = Some a
  ∧ merge a b = merge b a
  ∧ (padding_supported (merge a b) = true → padding_supported a = true)
  ∧ n_max_streams (merge a b) <= n_max_streams a ∧ version (merge a b) <= version a
  ∧ merge a a = a.
Proof.
  intros Hv Hm. split; [by apply negotiation_decode_encode|]. destruct a as [p m v], b as [p' m' v']. unfold merge.
  cbn [padding_supported n_max_streams version]. split; [by rewrite andb_comm, Z.min_comm, (Z.min_comm v)|].
  split; [by intros [? _]%andb_true_iff|]. split; [lia|]. split; [lia|]. by rewrite andb_diag, !Z.min_id.
Qed.
Lemma mux_negotiation_agrees_witness :
  negotiation_decode (f_payload (negotiate (with_padding negotiation_default)) ++ [Byte.x07])
  = Some (with_padding negotiation_default).
Proof. by apply (mux_negotiation_agrees (with_padding negotiation_default) negotiation_default [Byte.x07]). Defined.

Lemma protocol_from_as p : protocol_from_str (protocol_as_str p) = Some p.
Proof. by destruct p. Qed.
(** A name the program prints is one it selects. *)
Lemma auto_select_preferred o p : auto_select_mux o (Some (protocol_as_str p)) = p.
Proof. unfold auto_select_mux. cbn [mbind option_bind]. by rewrite protocol_from_as. Qed.
