(* ===== verification/MuxRuntime.v ===== *)
(** * The multiplexer runtime ([src/src/proxy/mux/mod.rs], [mux/h2mux.rs])

    The frames of h2mux and its pool; the tasks that write the commands of the
    logical streams to the connection and hand arriving frames to the streams'
    channels, once for both protocols over the interface [MuxCodec]; the manager
    that spreads streams over connections.  Channels are bounded queues; an
    awaited [send] is a step of its own. *)

From S2P Require Import Prelude RustStr Outcome Framing Smux SingMux Polled Config Yamux.

Local Open Scope string_scope.
Local Open Scope list_scope.
Local Open Scope Z_scope.

(** ** h2mux frames *)

Module H2.
Inductive FrameType := Data | Headers | RstStream | Settings | Ping | GoAway | WindowUpdate.
Definition FrameType_as_u8 (t : FrameType) : Z :=
  match t with Data => 0 | Headers => 1 | RstStream => 3 | Settings => 4 | Ping => 6 | GoAway => 7 | WindowUpdate => 8 end.
Definition FrameType_from_u8 (v : Z) : option FrameType :=
  match v with
  | 0 => Some Data | 1 => Some Headers | 3 => Some RstStream | 4 => Some Settings
  | 6 => Some Ping | 7 => Some GoAway | 8 => Some WindowUpdate | _ => None
  end.
Definition END_STREAM : Z := 1.
Definition END_HEADERS : Z := 4.
Record H2FrameHeader := mkHeader { h_length : Z; frame_type : FrameType; h_flags : Z; h_id : Z }.
Definition header_encode (h : H2FrameHeader) : bytes :=
  to_be_bytes 3 (h_length h) ++ [byte_of_Z (FrameType_as_u8 (frame_type h)); byte_of_Z (h_flags h)]
  ++ to_be_bytes 4 (Z.land (h_id h) 0x7FFFFFFF).
(** The argument is a [&[u8; 9]]. *)
Definition header_decode (buf : bytes) : H2FrameHeader :=
  mkHeader (from_be_bytes [byte_at buf 0; byte_at buf 1; byte_at buf 2])
    (default Data (FrameType_from_u8 (byte_to_Z (byte_at buf 3))))
    (byte_to_Z (byte_at buf 4))
    (Z.land (from_be_bytes [byte_at buf 5; byte_at buf 6; byte_at buf 7; byte_at buf 8]) 0x7FFFFFFF).
Definition encode_data_frame (id : Z) (data : bytes) (end_stream : bool) : bytes :=
  header_encode (mkHeader (wrap 32 (len data)) Data (if end_stream then 1 else 0) id) ++ data.
Definition encode_rst_stream (id error_code : Z) : bytes :=
  header_encode (mkHeader 4 RstStream 0 id) ++ to_be_bytes 4 error_code.
Definition encode_ping (ack : bool) (opaque_data : bytes) : bytes :=
  header_encode (mkHeader 8 Ping (if ack then 1 else 0) 0) ++ opaque_data.
Definition encode_goaway (last_stream_id error_code : Z) : bytes :=
  header_encode (mkHeader 8 GoAway 0 0) ++ to_be_bytes 4 last_stream_id ++ to_be_bytes 4 error_code.

(** *** The pool that numbers the streams; times in nanoseconds. *)
Record PooledConnection := mkPooled { created_at : Z; active_streams : Z; max_streams : Z }.
Record H2MuxPool := mkPool { max_streams_per_conn : Z; max_idle_time : Z; next_id : Z; connections : list PooledConnection }.
Definition pool_new (max_streams_per_conn max_idle_secs : Z) : H2MuxPool :=
  mkPool (Z.max max_streams_per_conn 1) (max_idle_secs * 1000000000) 1 [].
Definition with_defaults : H2MuxPool := pool_new 100 300.
Definition available_capacity (c : PooledConnection) : Z :=
  if max_streams c <=? active_streams c then 0 else max_streams c - active_streams c.
Definition is_expired (now max_age : Z) (c : PooledConnection) : bool := max_age <? now - created_at c.
Definition next_stream_id (p : H2MuxPool) : Z * H2MuxPool :=
  (Z.lor (Z.land (next_id p) 0x7FFFFFFF) 1, mkPool (max_streams_per_conn p) (max_idle_time p) (wrap 64 (next_id p + 2)) (connections p)).
Definition set_connections (cs : list PooledConnection) (p : H2MuxPool) : H2MuxPool :=
  mkPool (max_streams_per_conn p) (max_idle_time p) (next_id p) cs.
Definition pool_size (p : H2MuxPool) : nat := length (connections p).
Definition usable (now : Z) (p : H2MuxPool) (c : PooledConnection) : bool :=
  negb (is_expired now (max_idle_time p) c) && (0 <? available_capacity c).
Definition cleanup_expired (now : Z) (p : H2MuxPool) : nat * H2MuxPool :=
  let cs := List.filter (usable now p) (connections p) in
  ((length (connections p) - length cs)%nat, set_connections cs p).
Definition add_connection (now : Z) (p : H2MuxPool) : Z * H2MuxPool :=
  next_stream_id (set_connections (connections p ++ [mkPooled now 0 (max_streams_per_conn p)]) p).
Fixpoint acquire_loop (now : Z) (p : H2MuxPool) (idx : nat) (cs : list PooledConnection) : option (nat * list PooledConnection) :=
  match cs with
  | [] => None
  | c :: cs =>
      if usable now p c then Some (idx, mkPooled (created_at c) (wrap 32 (active_streams c + 1)) (max_streams c) :: cs)
      else match acquire_loop now p (S idx) cs with Some (i, cs) => Some (i, c :: cs) | None => None end
  end.
Definition try_acquire_stream (now : Z) (p : H2MuxPool) : option (nat * Z) * H2MuxPool :=
  match acquire_loop now p 0 (connections p) with
  | None => (None, p)
  | Some (idx, cs) => let '(id, p) := next_stream_id (set_connections cs p) in (Some (idx, id), p)
  end.
(** [H2Runtime::open_stream]: the number of the new stream. *)
Definition open_id (now : Z) (p : H2MuxPool) : Z * H2MuxPool :=
  match try_acquire_stream now p with
  | (Some (_, id), p) => (id, p)
  | (None, p) => add_connection now p
  end.

(** *** [H2MuxStream] *)
Record H2MuxStream := mkStream { s_id : Z; read_buf : bytes; read_pos : Z; s_closed : bool }.
Definition stream_new (id : Z) : H2MuxStream := mkStream id [] 0 false.
Definition feed_data (data : bytes) (s : H2MuxStream) : H2MuxStream := mkStream (s_id s) (read_buf s ++ data) (read_pos s) (s_closed s).
Definition close (s : H2MuxStream) : H2MuxStream := mkStream (s_id s) (read_buf s) (read_pos s) true.
Definition readable_bytes (s : H2MuxStream) : Z := len (read_buf s) - read_pos s.

Definition header_ok (h : H2FrameHeader) : Prop := in_width 24 (h_length h) ∧ u8_ok (h_flags h) ∧ in_width 31 (h_id h).
Lemma header_decode_encode h rest : header_ok h → header_decode (header_encode h ++ rest) = h.
Proof.
  destruct h as [l t f i]. intros (Hl&Hf&Hi). cbn [h_length h_flags h_id] in *.
  assert (Z.land i 0x7FFFFFFF = i) as Ei.
  { change 0x7FFFFFFF with (Z.ones 31). rewrite Z.land_ones by lia. apply Z.mod_small. exact Hi. }
  unfold header_decode, header_encode. cbn [h_length frame_type h_flags h_id]. rewrite Ei. unfold byte_at. simpl lookup. simpl default.
  rewrite !byte_to_of_small by (done || by destruct t).
  pose proof (from_to_be_bytes 3 l Hl) as E1. assert (Hi' : u32_ok i) by (unfold u32_ok, in_width in *; lia).
  pose proof (from_to_be_4 i Hi') as E2. simpl in E1, E2. rewrite E1, E2, Ei. by destruct t.
Qed.
End H2.

(** ** Streams over one connection *)

Module Runtime.
(** [YamuxWriteCmd] and [H2WriteCmd]. *)
Inductive WriteCmd := COpen (id : Z) | CData (id : Z) (data : bytes) | CClose (id : Z).
(** What the reader task makes of a frame: bytes for a stream, its end. *)
Record view := mkView { v_id : Z; v_data : bytes; v_end : bool }.
Inductive frame_read := NeedMore | Undecodable | Frame (v : view) (rest : bytes).
(** The two protocols: what the writer task puts out for a command, what the
    reader task takes from the front of the bytes. *)
Class MuxCodec := { encode_cmd : WriteCmd → bytes; next_frame : bytes → frame_read }.

Definition yamux_encode (c : WriteCmd) : bytes :=
  match c with
  | COpen id => Yamux.encode_data id 1 []
  | CData id d => Yamux.encode_data id 0 d
  | CClose id => Yamux.encode_data id 4 []
  end.
Definition is_yamux_data (t : YamuxType) : bool := match t with Yamux.Data => true | _ => false end.
Definition yamux_next (data : bytes) : frame_read :=
  if (length data <? 12)%nat then NeedMore
  else
    match Yamux.header_decode (take 12 data) with
    | None => Undecodable
    | Some h =>
        let n := Z.to_nat (length_field h) in
        if (length (drop 12 data) <? n)%nat then NeedMore
        else
          let payload := take n (drop 12 data) in
          let d := is_yamux_data (msg_type h) in
          Frame (mkView (h_stream_id h) (if d then payload else []) (d && negb (Z.land (flags h) 12 =? 0))) (drop n (drop 12 data))
    end.
#[export] Instance yamux_codec : MuxCodec := {| encode_cmd := yamux_encode; next_frame := yamux_next |}.

Definition h2_encode (c : WriteCmd) : bytes :=
  match c with
  | COpen id => H2.header_encode (H2.mkHeader 0 H2.Headers H2.END_HEADERS id)
  | CData id d => H2.encode_data_frame id d false
  | CClose id => H2.encode_rst_stream id 0
  end.
Definition h2_next (data : bytes) : frame_read :=
  if (length data <? 9)%nat then NeedMore
  else
    let h := H2.header_decode (take 9 data) in
    let n := Z.to_nat (H2.h_length h) in
    if (length (drop 9 data) <? n)%nat then NeedMore
    else
      let payload := take n (drop 9 data) in
      Frame match H2.frame_type h with
            | H2.Data => mkView (H2.h_id h) payload (negb (Z.land (H2.h_flags h) H2.END_STREAM =? 0))
            | H2.RstStream => mkView (H2.h_id h) [] true
            | _ => mkView (H2.h_id h) [] false
            end (drop n (drop 9 data)).
Definition h2_codec : MuxCodec := {| encode_cmd := h2_encode; next_frame := h2_next |}.

(** *** A logical stream

    [chan] is the queue of the channel, [sender] whether the table still has its
    sending end, [out] what the reads have given out so far. *)
Record IoStream := mkIo { chan : list bytes; sender : bool; io_buf : bytes; closed : bool; out : bytes }.
Definition CHAN : nat := 64.
Definition io_new : IoStream := mkIo [] true [] false [].
(** [poll_read]; [more]: the reader task still holds a message for the stream. *)
Definition io_poll_read (more : bool) (cap : nat) (s : IoStream) : poll * IoStream :=
  let give b ch := (PReady (take cap b), mkIo ch (sender s) (drop cap b) (closed s) (out s ++ take cap b)) in
  match io_buf s with
  | _ :: _ => give (io_buf s) (chan s)
  | [] =>
      if closed s then (PReady [], s)
      else
        match chan s with
        | [] :: ms => (PReady [], mkIo ms (sender s) [] true (out s))
        | m :: ms => give m ms
        | [] => if sender s || more then (PPending, s) else (PReady [], mkIo [] false [] true (out s))
        end
  end.
(** [poll_write] and [poll_shutdown] against the queue of commands of 256. *)
Definition CMDS : nat := Z.to_nat 256.
Definition io_poll_write (id : Z) (buf : bytes) (alive : bool) (q : list WriteCmd) : wpoll * list WriteCmd :=
  let n := Nat.min (length buf) (Z.to_nat 16384) in
  if negb alive then (WError "session closed", q)
  else if (CMDS <=? length q)%nat then (WPending, q)
  else (WDone n, q ++ [CData id (take n buf)]).
Definition io_shutdown (id : Z) (alive : bool) (q : list WriteCmd) : list WriteCmd :=
  if alive && (length q <? CMDS)%nat then q ++ [CClose id] else q.

(** *** The reader task

    [net] has not arrived yet, [wire] has arrived, [todo] are the messages of the
    frame at hand that the task is sending. *)
Record Reader := mkReader { net : bytes; wire : bytes; todo : list (Z * bytes); streams : gmap Z IoStream }.
Definition set_stream (id : Z) (s : IoStream) (r : Reader) : Reader := mkReader (net r) (wire r) (todo r) (<[id := s]> (streams r)).
Definition drop_sender (s : IoStream) : IoStream := mkIo (chan s) false (io_buf s) (closed s) (out s).
Definition push_chan (m : bytes) (s : IoStream) : IoStream := mkIo (chan s ++ [m]) (sender s) (io_buf s) (closed s) (out s).
(** The messages of a frame, and the table after it. *)
Definition handle_frame (v : view) (ss : gmap Z IoStream) : list (Z * bytes) * gmap Z IoStream :=
  match ss !! v_id v with
  | Some s =>
      if sender s then
        ((match v_data v with [] => [] | d => [(v_id v, d)] end) ++ (if v_end v then [(v_id v, [])] else []),
         if v_end v then <[v_id v := drop_sender s]> ss else ss)
      else ([], ss)
  | None => ([], ss)
  end.
Definition msgs_for (id : Z) (l : list (Z * bytes)) : list bytes := snd <$> List.filter (fun p => p.1 =? id) l.

Inductive rstep `{MuxCodec} : Reader → Reader → Prop :=
| rstep_arrive r a b :
    net r = a ++ b → a ≠ [] → rstep r (mkReader b (wire r ++ a) (todo r) (streams r))
| rstep_frame r v rest t ss :
    todo r = [] → next_frame (wire r) = Frame v rest → handle_frame v (streams r) = (t, ss) →
    rstep r (mkReader (net r) rest t ss)
| rstep_send r id m t s :
    todo r = (id, m) :: t → streams r !! id = Some s → (length (chan s) < CHAN)%nat →
    rstep r (mkReader (net r) (wire r) t (<[id := push_chan m s]> (streams r)))
| rstep_poll r id s cap p s' :
    streams r !! id = Some s → (0 < cap)%nat →
    io_poll_read (existsb (fun p => p.1 =? id) (todo r)) cap s = (p, s') →
    rstep r (set_stream id s' r).

(** *** What the protocols promise *)

Definition view_of (c : WriteCmd) : view :=
  match c with
  | COpen id => mkView id [] false
  | CData id d => mkView id d false
  | CClose id => mkView id [] true
  end.
Class MuxCodecLaws `{MuxCodec} := {
  cmd_ok : WriteCmd → Prop;
  next_nil : next_frame [] = NeedMore;
  next_encoded : ∀ c rest, cmd_ok c → next_frame (encode_cmd c ++ rest) = Frame (view_of c) rest;
  next_more : ∀ w v rest x, next_frame w = Frame v rest → next_frame (w ++ x) = Frame v (rest ++ x)
}.
Definition yamux_cmd_ok (c : WriteCmd) : Prop :=
  match c with COpen id | CClose id => u32_ok id | CData id d => u32_ok id ∧ len d < 2 ^ 32 end.
Definition h2_cmd_ok (c : WriteCmd) : Prop :=
  match c with COpen id | CClose id => in_width 31 id | CData id d => in_width 31 id ∧ len d < 2 ^ 24 end.

Lemma yamux_next_data id fl d rest :
  u32_ok id → u16_ok fl → len d < 2 ^ 32 →
  yamux_next (Yamux.encode_data id fl d ++ rest) = Frame (mkView id d (negb (Z.land fl 12 =? 0))) rest.
Proof.
  intros Hid Hfl Hd. pose proof (len_nonneg d). unfold Yamux.encode_data. rewrite wrap_small by (unfold in_width; lia).
  set (h := Build_YamuxHeader _ _ _ _ _). unfold yamux_next. rewrite <- app_assoc, length_app. change (length (header_encode h)) with 12%nat.
  rewrite (proj2 (Nat.ltb_ge _ _)) by lia.
  rewrite (take_app_length' (header_encode h)), (drop_app_length' (header_encode h)) by done.
  rewrite <- (app_nil_r (header_encode h)), header_decode_encode_app by (unfold header_ok, u8_ok, u16_ok, u32_ok, in_width in *; subst h; cbn [version flags h_stream_id length_field]; unfold YAMUX_VERSION; lia).
  subst h. cbn [length_field msg_type h_stream_id flags is_yamux_data andb]. unfold len. rewrite Nat2Z.id, length_app, (proj2 (Nat.ltb_ge _ _)) by lia.
  by rewrite take_app_length, drop_app_length.
Qed.
Lemma yamux_next_more w v rest x : yamux_next w = Frame v rest → yamux_next (w ++ x) = Frame v (rest ++ x).
Proof.
  unfold yamux_next. destruct (Nat.ltb_spec (length w) 12) as [|Hw]; [done|]. rewrite length_app, (proj2 (Nat.ltb_ge _ _)) by lia.
  rewrite take_app_le, drop_app_le by lia. destruct (header_decode (take 12 w)) as [h|]; [|done].
  destruct (Nat.ltb_spec (length (drop 12 w)) (Z.to_nat (length_field h))) as [|Hn]; [done|].
  rewrite length_app, (proj2 (Nat.ltb_ge _ _)) by lia. rewrite take_app_le, drop_app_le by lia. by intros [= <- <-].
Qed.
Lemma yamux_next_encoded c rest : yamux_cmd_ok c → yamux_next (yamux_encode c ++ rest) = Frame (view_of c) rest.
Proof.
  destruct c as [id|id d|id]; intros Hc; cbn [yamux_encode view_of yamux_cmd_ok] in *.
  - by rewrite yamux_next_data by done.
  - destruct Hc. by rewrite yamux_next_data by done.
  - by rewrite yamux_next_data by done.
Qed.
#[export] Instance yamux_laws : MuxCodecLaws := {|
  cmd_ok := yamux_cmd_ok;
  next_nil := eq_refl;
  next_encoded := yamux_next_encoded;
  next_more := yamux_next_more
|}.

Lemma h2_next_frame h payload rest :
  H2.header_ok h → H2.h_length h = len payload →
  h2_next ((H2.header_encode h ++ payload) ++ rest)
  = Frame match H2.frame_type h with
          | H2.Data => mkView (H2.h_id h) payload (negb (Z.land (H2.h_flags h) H2.END_STREAM =? 0))
          | H2.RstStream => mkView (H2.h_id h) [] true
          | _ => mkView (H2.h_id h) [] false
          end rest.
Proof.
  intros Hok Hl. unfold h2_next. rewrite <- app_assoc, length_app. change (length (H2.header_encode h)) with 9%nat.
  rewrite (proj2 (Nat.ltb_ge _ _)) by lia.
  rewrite (take_app_length' (H2.header_encode h)), (drop_app_length' (H2.header_encode h)) by done.
  rewrite <- (app_nil_r (H2.header_encode h)), H2.header_decode_encode by done.
  rewrite Hl. unfold len. rewrite Nat2Z.id, length_app, (proj2 (Nat.ltb_ge _ _)) by lia.
  by rewrite take_app_length, drop_app_length.
Qed.
Lemma h2_next_more w v rest x : h2_next w = Frame v rest → h2_next (w ++ x) = Frame v (rest ++ x).
Proof.
  unfold h2_next. destruct (Nat.ltb_spec (length w) 9) as [|Hw]; [done|]. rewrite length_app, (proj2 (Nat.ltb_ge (length w + length x) 9)) by lia.
  rewrite take_app_le, drop_app_le by lia. set (h := H2.header_decode (take 9 w)).
  destruct (Nat.ltb_spec (length (drop 9 w)) (Z.to_nat (H2.h_length h))) as [|Hn]; [done|].
  rewrite length_app, (proj2 (Nat.ltb_ge _ _)) by lia. rewrite take_app_le, drop_app_le by lia. by intros [= <- <-].
Qed.
Lemma h2_next_encoded c rest : h2_cmd_ok c → h2_next (h2_encode c ++ rest) = Frame (view_of c) rest.
Proof.
  destruct c as [id|id d|id]; intros Hc; cbn [h2_encode view_of h2_cmd_ok] in *.
  - rewrite <- (app_nil_r (H2.header_encode _)). rewrite h2_next_frame; [done| |done]. repeat split; try done; apply Hc.
  - destruct Hc as [Hid Hd]. pose proof (len_nonneg d). unfold H2.encode_data_frame. rewrite wrap_small by (unfold in_width; lia).
    rewrite h2_next_frame; [done| |done]. unfold H2.header_ok, u8_ok, in_width in *. cbn [H2.h_length H2.h_flags H2.h_id]. lia.
  - unfold H2.encode_rst_stream. rewrite h2_next_frame; [done| |done]. repeat split; try done; apply Hc.
Qed.
Definition h2_laws : @MuxCodecLaws h2_codec := @Build_MuxCodecLaws h2_codec h2_cmd_ok eq_refl h2_next_encoded h2_next_more.

(** *** Delivery *)

Section delivery.
Context `{MuxCodec} {laws : MuxCodecLaws}.

(** The messages that commands hold for a stream, up to its end. *)
Fixpoint fut (id : Z) (cs : list WriteCmd) : list bytes :=
  match cs with
  | [] => []
  | COpen _ :: cs => fut id cs
  | CData i d :: cs => if i =? id then match d with [] => fut id cs | _ => d :: fut id cs end else fut id cs
  | CClose i :: cs => if i =? id then [[]] else fut id cs
  end.
Definition expected (id : Z) (cs : list WriteCmd) : bytes := concat (fut id cs).
Definition wire_bytes (cs : list WriteCmd) : bytes := concat (encode_cmd <$> cs).

Record stream_inv (cs0 cs : list WriteCmd) (t : list (Z * bytes)) (id : Z) (s : IoStream) : Prop := {
  inv_bytes : out s ++ io_buf s ++ concat (chan s ++ msgs_for id t ++ (if sender s then fut id cs else [])) = expected id cs0;
  inv_closed : closed s = true → chan s ++ msgs_for id t = [] ∧ sender s = false;
  inv_open : sender s = true → Forall (fun m => m ≠ []) (chan s ++ msgs_for id t);
  inv_ended : sender s = false → closed s = true ∨ ∃ l, chan s ++ msgs_for id t = l ++ [[]] ∧ Forall (fun m => m ≠ []) l
}.
Record reader_inv (cs0 : list WriteCmd) (r : Reader) (cs : list WriteCmd) : Prop := {
  inv_wire : wire r ++ net r = wire_bytes cs;
  inv_cmds : Forall cmd_ok cs;
  inv_streams : ∀ id s, streams r !! id = Some s → stream_inv cs0 cs (todo r) id s;
  inv_todo : Forall (fun p => is_Some (streams r !! p.1)) (todo r)
}.

Lemma msgs_for_cons_eq id m t : msgs_for id ((id, m) :: t) = m :: msgs_for id t.
Proof. unfold msgs_for. cbn [List.filter fst]. by rewrite Z.eqb_refl. Qed.
Lemma msgs_for_cons_ne id j m t : j ≠ id → msgs_for id ((j, m) :: t) = msgs_for id t.
Proof. intros Hne. unfold msgs_for. cbn [List.filter fst]. by rewrite (proj2 (Z.eqb_neq _ _)). Qed.
Lemma next_is_first r cs v rest :
  wire r ++ net r = wire_bytes cs → Forall cmd_ok cs → next_frame (wire r) = Frame v rest →
  ∃ c cs', cs = c :: cs' ∧ v = view_of c ∧ rest ++ net r = wire_bytes cs'.
Proof using laws.
  intros Hw Hok Hn. apply (next_more _ _ _ (net r)) in Hn. rewrite Hw in Hn. destruct Hok as [|c cs Hc Hok].
  - by rewrite next_nil in Hn.
  - unfold wire_bytes in Hn. cbn [fmap list_fmap concat] in Hn. rewrite next_encoded in Hn by done. injection Hn as <- <-.
    by exists c, cs.
Qed.

(** A frame for another stream changes nothing for this one. *)
Lemma stream_inv_skip cs0 c cs t id s :
  v_id (view_of c) ≠ id → msgs_for id t = [] → stream_inv cs0 (c :: cs) [] id s → stream_inv cs0 cs t id s.
Proof.
  intros Hne Ht [H1 H2 H3 H4]. unfold msgs_for in H1, H2, H3, H4 at 1. cbn [List.filter fmap list_fmap] in *.
  assert (Hf : fut id (c :: cs) = fut id cs).
  { destruct c as [i|i d|i]; cbn [fut view_of v_id] in *; [done|by rewrite (proj2 (Z.eqb_neq _ _))..]. }
  split; rewrite Ht; [|done..]. by rewrite <- Hf.
Qed.
Lemma handle_frame_inv cs0 c cs ss t ss' :
  (∀ id s, ss !! id = Some s → stream_inv cs0 (c :: cs) [] id s) → handle_frame (view_of c) ss = (t, ss') →
  (∀ id s, ss' !! id = Some s → stream_inv cs0 cs t id s) ∧ Forall (fun p => is_Some (ss' !! p.1)) t.
Proof.
  intros Hall. unfold handle_frame. destruct (ss !! v_id (view_of c)) as [s0|] eqn:E0.
  2: { intros [= <- <-]. split; [|constructor]. intros id s Hs. eapply stream_inv_skip; [|done|by apply Hall]. congruence. }
  pose proof (Hall _ _ E0) as [H1 H2 H3 H4]. unfold msgs_for in H1, H2, H3, H4 at 1. cbn [List.filter fmap list_fmap] in *.
  destruct (sender s0) eqn:Es.
  2: { intros [= <- <-]. split; [|constructor]. intros id s Hs. destruct (decide (v_id (view_of c) = id)) as [<-|Hne].
       - rewrite E0 in Hs. injection Hs as <-. split; rewrite ?Es; done.
       - eapply stream_inv_skip; [done|done|by apply Hall]. }
  destruct c as [i|i [|x d]|i]; cbn [view_of v_id v_data v_end app] in *; intros [= <- <-].
  - split; [|constructor]. intros id s Hs. destruct (decide (i = id)) as [<-|Hne]; [|by eapply stream_inv_skip; [..|apply Hall]].
    rewrite E0 in Hs. injection Hs as <-. split; rewrite ?Es; done.
  - split; [|constructor]. intros id s Hs. destruct (decide (i = id)) as [<-|Hne]; [|by eapply stream_inv_skip; [..|apply Hall]].
    rewrite E0 in Hs. injection Hs as <-. cbn [fut] in H1. rewrite Z.eqb_refl in H1. split; rewrite ?Es; done.
  - split; [|apply Forall_singleton; cbn; rewrite E0; eauto]. intros id s Hs. destruct (decide (i = id)) as [<-|Hne].
    + rewrite E0 in Hs. injection Hs as <-. cbn [fut] in H1. rewrite Z.eqb_refl in H1. split; rewrite ?Es, ?msgs_for_cons_eq; try done.
      * intros Hc. by destruct (H2 Hc).
      * intros _. apply Forall_app. split; [|by repeat constructor]. specialize (H3 eq_refl). by rewrite app_nil_r in H3.
    + eapply stream_inv_skip; [|by rewrite msgs_for_cons_ne|by apply Hall]. done.
  - split; [|apply Forall_singleton; cbn; rewrite lookup_insert_eq; eauto]. intros id s Hs. destruct (decide (i = id)) as [<-|Hne].
    + rewrite lookup_insert_eq in Hs. injection Hs as <-. cbn [fut] in H1. rewrite Z.eqb_refl in H1.
      split; cbn [drop_sender out io_buf chan sender closed]; rewrite ?msgs_for_cons_eq; try done.
      * intros Hc. by destruct (H2 Hc).
      * intros _. right. exists (chan s0). split; [done|]. specialize (H3 eq_refl). by rewrite app_nil_r in H3.
    + rewrite lookup_insert_ne in Hs by done. eapply stream_inv_skip; [|by rewrite msgs_for_cons_ne|by apply Hall]. done.
Qed.

Lemma existsb_msgs id t : existsb (fun p : Z * bytes => p.1 =? id) t = false → msgs_for id t = [].
Proof.
  intros He. induction t as [|[j m] t IH]; [done|]. cbn [existsb fst] in He. apply orb_false_iff in He as [Hj He].
  rewrite msgs_for_cons_ne by (by apply Z.eqb_neq). by apply IH.
Qed.
(** A poll gives out the next bytes; an empty result means that everything was
    given out. *)
Lemma poll_inv cs0 cs t id s cap p s' :
  stream_inv cs0 cs t id s → (0 < cap)%nat → io_poll_read (existsb (fun p => p.1 =? id) t) cap s = (p, s') →
  stream_inv cs0 cs t id s' ∧ (p = PReady [] → out s = expected id cs0).
Proof.
  intros [H1 H2 H3 H4] Hcap. unfold io_poll_read. destruct (io_buf s) as [|x b] eqn:Eb.
  2: { intros [= <- <-]. split; [|by destruct cap; [lia|]]. split; cbn [out io_buf chan sender closed]; try done.
       rewrite <- H1, <- app_assoc, (app_assoc (take _ _)), take_drop. done. }
  destruct (closed s) eqn:Ec.
  { intros [= <- <-]. split; [by split; rewrite ?Eb, ?Ec|]. intros _. destruct (H2 eq_refl) as [Hm Hs].
    rewrite Hs, app_nil_r, Hm in H1. by rewrite !app_nil_r in H1. }
  destruct (chan s) as [|[|x m] ms] eqn:Ech.
  - destruct (sender s || existsb (fun p => p.1 =? id) t) eqn:E.
    + intros [= <- <-]. split; [|done]. by split; rewrite ?Eb, ?Ec, ?Ech.
    + apply orb_false_iff in E as [Es Et]. apply existsb_msgs in Et. rewrite Et in *. specialize (H4 Es).
      destruct H4 as [|(l&Hl&_)]; [done|]. by destruct l.
  - intros [= <- <-]. destruct (sender s) eqn:Es.
    { specialize (H3 eq_refl). by inversion H3. }
    destruct (H4 eq_refl) as [|(l&Hl&Hne)]; [done|]. destruct l as [|m l]; [|cbn [app] in Hl; injection Hl as <- _; by inversion Hne].
    cbn [app] in Hl. injection Hl as Hl. apply app_nil in Hl as [-> Hmt]. rewrite Hmt in *. cbn [app concat] in H1.
    split; [|intros _; by rewrite !app_nil_r in H1]. split; cbn [out io_buf chan sender closed]; rewrite ?Hmt, ?Es; try done. by left.
  - intros [= <- <-]. split; [|by destruct cap; [lia|]]. split; cbn [out io_buf chan sender closed].
    + rewrite <- H1, <- app_assoc, (app_assoc (take _ _)), take_drop. done.
    + done.
    + intros Hs. specialize (H3 Hs). by inversion H3.
    + intros Hs. destruct (H4 Hs) as [|(l&Hl&Hne)]; [done|]. right. destruct l as [|m' l]; [done|]. cbn [app] in Hl. injection Hl as _ Hl.
      exists l. split; [done|]. by inversion Hne.
Qed.
Lemma rstep_inv cs0 r r' cs : reader_inv cs0 r cs → rstep r r' → ∃ cs', reader_inv cs0 r' cs'.
Proof using laws.
  intros [Hw Hok Hs Ht] Hst. destruct Hst as [r a b Hn _|r v rest t ss Hn Hf Hh|r id m t s Hn Hl _|r id s cap p s' Hl Hcap Hp].
  - exists cs. split; cbn; try done. by rewrite <- app_assoc, <- Hn.
  - destruct (next_is_first r cs v rest Hw Hok Hf) as (c&cs'&->&->&Hw'). rewrite Hn in Hs.
    destruct (handle_frame_inv cs0 c cs' (streams r) t ss Hs Hh) as [Hs' Ht'].
    exists cs'. split; cbn; try done. by inversion Hok.
  - exists cs. split; cbn; try done.
    + intros j sj Hj. destruct (decide (id = j)) as [<-|Hne].
      * rewrite lookup_insert_eq in Hj. injection Hj as <-. destruct (Hs id s Hl) as [H1 H2 H3 H4]. rewrite Hn in *. rewrite !msgs_for_cons_eq in *.
        split; cbn [push_chan out io_buf chan sender closed]; rewrite <- ?app_assoc; try done; by rewrite <- app_assoc in *.
      * rewrite lookup_insert_ne in Hj by done. destruct (Hs j sj Hj) as [H1 H2 H3 H4]. rewrite Hn in *. rewrite !msgs_for_cons_ne in * by done. by split.
    + rewrite Hn in Ht. apply Forall_cons in Ht as [_ Ht]. eapply Forall_impl; [exact Ht|]. intros [j mj] [sj Hj]. cbn in *.
      destruct (decide (id = j)) as [<-|Hne]; [rewrite lookup_insert_eq|rewrite lookup_insert_ne by done]; eauto.
  - exists cs. split; cbn; try done.
    + intros j sj Hj. destruct (decide (id = j)) as [<-|Hne].
      * rewrite lookup_insert_eq in Hj. injection Hj as <-. eapply poll_inv; [by apply Hs|done|done].
      * rewrite lookup_insert_ne in Hj by done. by apply Hs.
    + eapply Forall_impl; [exact Ht|]. intros [j mj] [sj Hj]. cbn in *.
      destruct (decide (id = j)) as [<-|Hne]; [rewrite lookup_insert_eq|rewrite lookup_insert_ne by done]; eauto.
Qed.

Definition start (ids : gset Z) (cs : list WriteCmd) : Reader := mkReader (wire_bytes cs) [] [] (gset_to_gmap io_new ids).
Lemma reader_start_inv ids cs : Forall cmd_ok cs → reader_inv cs (start ids cs) cs.
Proof.
  intros Hok. split; cbn; [done|done| |constructor]. intros id s [_ <-]%lookup_gset_to_gmap_Some. split; by cbn.
Qed.
Lemma poll_moves b s : io_buf s ≠ [] ∨ (chan s ≠ [] ∧ closed s = false) → ∃ p s', io_poll_read b 1 s = (p, s') ∧ s' ≠ s.
Proof.
  unfold io_poll_read. intros Hs. destruct (io_buf s) as [|x l] eqn:Eb.
  - destruct Hs as [?|[Hc ->]]; [done|]. destruct (chan s) as [|[|y m] ms] eqn:Ec; [done|..].
    + eexists _, _. split; [done|]. intros E. apply (f_equal chan) in E. cbn in E. rewrite Ec in E. apply (f_equal length) in E. cbn in E. lia.
    + eexists _, _. split; [done|]. intros E. apply (f_equal chan) in E. cbn in E. rewrite Ec in E. apply (f_equal length) in E. cbn in E. lia.
  - eexists _, _. split; [done|]. intros E. apply (f_equal (fun s => length (io_buf s))) in E. cbn in E. rewrite Eb in E. cbn in E. rewrite ?length_drop, ?drop_0 in E. lia.
Qed.
Lemma poll_step r id s : streams r !! id = Some s → io_buf s ≠ [] ∨ (chan s ≠ [] ∧ closed s = false) → ∃ r', rstep r r' ∧ r' ≠ r.
Proof.
  intros Hl Hs. destruct (poll_moves (existsb (fun p => p.1 =? id) (todo r)) s Hs) as (p&s'&Hp&Hne).
  exists (set_stream id s' r). split; [by eapply (rstep_poll r id s 1 p s'); [done|lia|]|].
  intros E. apply (f_equal (fun r => streams r !! id)) in E. cbn in E. rewrite lookup_insert_eq, Hl in E. congruence.
Qed.
Lemma encode_nonempty c : cmd_ok c → encode_cmd c ≠ [].
Proof using laws. intros Hc E. pose proof (next_encoded c [] Hc) as Hn. by rewrite E, app_nil_r, next_nil in Hn. Qed.
Lemma inv_progress cs0 r cs :
  reader_inv cs0 r cs → (∃ id s, streams r !! id = Some s ∧ out s ≠ expected id cs0) → ∃ r', rstep r r' ∧ r' ≠ r.
Proof using laws.
  intros [Hw Hok Hs Ht] (id&s&Hl&Hne). destruct (todo r) as [|[j m] t] eqn:Et.
  - destruct (net r) as [|x nt] eqn:En.
    + rewrite app_nil_r in Hw. destruct cs as [|c cs].
      * apply (poll_step r id s Hl). destruct (Hs id s Hl) as [H1 H2 _ _]. cbn in H1, H2.
        destruct (io_buf s) as [|y l]; [right|by left]. split.
        -- intros E. rewrite E in H1. cbn in H1. apply Hne. rewrite <- H1. by destruct (sender s); rewrite app_nil_r.
        -- destruct (closed s) eqn:Ec; [|done]. destruct (H2 eq_refl) as [E Es]. rewrite Es in H1. rewrite app_nil_r in E. rewrite E in H1. cbn in H1.
           by rewrite app_nil_r in H1.
      * apply Forall_cons in Hok as [Hc _]. unfold wire_bytes in Hw. cbn [fmap list_fmap concat] in Hw.
        pose proof (next_encoded c (concat (encode_cmd <$> cs)) Hc) as Hn. rewrite <- Hw in Hn.
        destruct (handle_frame (view_of c) (streams r)) as [t ss] eqn:Eh. eexists. split; [by eapply rstep_frame|].
        intros E. apply (f_equal wire) in E. cbn in E. rewrite Hw in E. apply (f_equal length) in E. rewrite length_app in E.
        pose proof (encode_nonempty c Hc). destruct (encode_cmd c); [done|cbn in E; lia].
    + exists (mkReader [] (wire r ++ x :: nt) (todo r) (streams r)). split; [apply rstep_arrive; [by rewrite app_nil_r|done]|].
      intros E. apply (f_equal net) in E. cbn in E. by rewrite En in E.
  - apply Forall_cons in Ht as [[sj Hj] _]. cbn in Hj. destruct (Nat.ltb_spec (length (chan sj)) CHAN) as [Hlt|Hge].
    + eexists. split; [by eapply rstep_send|]. intros E. apply (f_equal (fun r => length (todo r))) in E. cbn in E. rewrite Et in E. cbn in E. lia.
    + apply (poll_step r j sj Hj). right. destruct (Hs j sj Hj) as [_ H2 _ _]. split.
      * intros E. rewrite E in Hge. cbn in Hge. unfold CHAN in Hge. lia.
      * destruct (closed sj); [|done]. destruct (H2 eq_refl) as [E _]. apply app_nil in E as [E _]. rewrite E in Hge. cbn in Hge. unfold CHAN in Hge. lia.
Qed.
Lemma reach_inv ids cs r : Forall cmd_ok cs → rtc rstep (start ids cs) r → ∃ cs', reader_inv cs r cs'.
Proof using laws.
  intros Hok Hr. assert (Hi : ∃ cs', reader_inv cs (start ids cs) cs') by (exists cs; by apply reader_start_inv). revert Hi.
  induction Hr as [|r1 r2 r3 Hst _ IH]; [done|]. intros [cs1 Hi]. apply IH. by eapply rstep_inv.
Qed.

(** C9: over one connection of the yamux or HTTP/2 runtime that carries the frames
    of a peer running the program's own writer (opens, data and closes of streams,
    no window updates or other frames), however its bytes arrive and the reader
    task and the reads of the streams interleave, every stream the reader knows is
    given only the data sent for it, in order and no other stream's, and an end of
    stream is read only after all the data sent before the close.  As long as some
    stream has not been given all of it the connection is not stuck: bytes can
    arrive, the reader task can handle a frame or pass on its data, or a stream has
    data that its own reader can take (if the task waits on a full channel, the
    stream of that channel does). *)
Theorem mux_reader_delivers ids cs r :
  Forall cmd_ok cs → rtc rstep (start ids cs) r →
  (∀ id s, streams r !! id = Some s → out s `prefix_of` expected id cs)
  ∧ (∀ id s cap p s', streams r !! id = Some s → (0 < cap)%nat →
       io_poll_read (existsb (fun p => p.1 =? id) (todo r)) cap s = (p, s') → p = PReady [] → out s = expected id cs)
  ∧ ((∃ id s, streams r !! id = Some s ∧ out s ≠ expected id cs) → ∃ r', rstep r r' ∧ r' ≠ r).
Proof using laws.
  intros Hok [cs' Hi]%reach_inv; [|done]. split_and!.
  - intros id s Hl. destruct (inv_streams _ _ _ Hi id s Hl) as [H1 _ _ _]. rewrite <- H1. by eexists.
  - intros id s cap p s' Hl Hcap Hp. by eapply poll_inv; [apply (inv_streams _ _ _ Hi)|..].
  - by eapply inv_progress.
Qed.
End delivery.

(** What [poll_write] queues is within what both protocols carry. *)
Lemma poll_write_ok id buf alive q n q' :
  in_width 31 id → io_poll_write id buf alive q = (WDone n, q') →
  ∃ c, q' = q ++ [c] ∧ yamux_cmd_ok c ∧ h2_cmd_ok c ∧ v_data (view_of c) = take n buf ∧ v_id (view_of c) = id.
Proof.
  intros Hid. unfold io_poll_write. destruct alive; [|done]. destruct (CMDS <=? length q)%nat; [done|]. cbn [negb].
  set (k := Nat.min (length buf) (Z.to_nat 16384)). intros Hq. injection Hq as <- <-. exists (CData id (take k buf)).
  assert (Hl : len (take k buf) <= 16384) by (unfold len; rewrite length_take; subst k; lia).
  assert (Hu : u32_ok id) by (unfold u32_ok, in_width in *; lia).
  split; [done|]. split; [split; [done|lia]|]. split; [split; [done|lia]|done].
Qed.

Definition hello : list WriteCmd := [COpen 1; CData 1 [Byte.x01; Byte.x02]; COpen 3; CData 3 [Byte.x03]; CClose 1].
Lemma mux_reader_delivers_witness :
  expected 1 hello = [Byte.x01; Byte.x02]
  ∧ (∃ r', rstep (start ({[1; 3]} : gset Z) hello) r' ∧ r' ≠ start {[1; 3]} hello)
  ∧ (∃ r', @rstep h2_codec (@start h2_codec ({[1; 3]} : gset Z) hello) r' ∧ r' ≠ @start h2_codec {[1; 3]} hello).
Proof.
  split; [reflexivity|]. split.
  - refine (proj2 (proj2 (mux_reader_delivers {[1; 3]} hello (start {[1; 3]} hello) _ (rtc_refl _ _))) _).
    + unfold hello. repeat constructor; vm_compute; discriminate.
    + exists 3, io_new. split; [reflexivity|discriminate].
  - refine (proj2 (proj2 (@mux_reader_delivers h2_codec h2_laws {[1; 3]} hello (@start h2_codec {[1; 3]} hello) _ (rtc_refl _ _))) _).
    + unfold hello. repeat constructor; vm_compute; discriminate.
    + exists 3, io_new. split; [reflexivity|discriminate].
Defined.

(** A window update says by how much the window grows in the length field; the
    reader takes that many bytes of what follows for its payload. *)
Example window_update_swallows_data :
  yamux_next (Yamux.encode_window_update 1 0 14 ++ Yamux.encode_data 1 0 [Byte.x01; Byte.x02]) = Frame (mkView 1 [] false) [].
Proof. vm_compute. reflexivity. Qed.
End Runtime.

(** ** The manager

    Any number of calls of [MuxManager::open_stream] run at once.  A call is a task;
    each of its steps is what happens between two awaits or two accesses of a
    counter. *)

Module Manager.
Inductive RuntimeKind := KSing | KSmux | KYamux | KH2.
Definition build_runtime (protocol : string) : result string RuntimeKind :=
  let proto := to_lowercase protocol in
  if (String.eqb proto "sing-mux") || (String.eqb proto "singmux") then Ok KSing
  else if String.eqb proto "smux" then Ok KSmux
  else if String.eqb proto "yamux" then Ok KYamux
  else if (String.eqb proto "h2mux") || (String.eqb proto "h2") then Ok KH2
  else Err ("unsupported mux protocol: " ++ proto)%string.
Record MuxConnection := mkConn { kind : RuntimeKind; active_streams : Z; max_streams : Z }.
Definition has_capacity (c : MuxConnection) : bool := active_streams c <? max_streams c.
Definition pick (cs : list MuxConnection) : option nat := fst <$> list_find (fun c => has_capacity c = true) cs.
(** Where a call stands: about to pick, to compare the pool with its bound, to
    connect; with connection [k], about to load its counter, to add to it, to open
    the stream; the stream in use; the ways it ends. *)
Inductive Task :=
| TPick | TCheck | TConnect | TLoad (k : nat) | TAdd (k : nat) | TOpen (k : nat)
| TLive (k : nat) | TFailed (reason : string) | TLost (k : nat) | TClosed.
Record Manager := mkManager { config : MuxConfig; connections : list MuxConnection; tasks : list Task }.
Definition manager_new (cfg : MuxConfig) : Manager := mkManager cfg [] [].
Definition set_task (i : nat) (t : Task) (m : Manager) : Manager := mkManager (config m) (connections m) (<[i := t]> (tasks m)).
Definition add_active (d : Z) (c : MuxConnection) : MuxConnection := mkConn (kind c) (wrap 64 (active_streams c + d)) (max_streams c).
Definition count_on (d : Z) (k : nat) (m : Manager) : Manager :=
  mkManager (config m) (alter (add_active d) k (connections m)) (tasks m).
(** What the connector and the protocol's own [open_stream] give. *)
Inductive event := EStep | EConnected (r : result string ()) | EOpened (r : result string ()) | EDropped.
Definition max_conns (m : Manager) : Z := Z.max (mux_max_connections (config m)) 1.
Definition task_step (i : nat) (e : event) (m : Manager) : option Manager :=
  match tasks m !! i, e with
  | Some TPick, EStep => Some (set_task i match pick (connections m) with Some k => TLoad k | None => TCheck end m)
  | Some TCheck, EStep =>
      Some (set_task i (if Z.of_nat (length (connections m)) <? max_conns m then TConnect
                        else TFailed "mux connection pool exhausted") m)
  | Some TConnect, EConnected (Ok _) =>
      Some match build_runtime (mux_protocol (config m)) with
           | Ok kd =>
               let c := mkConn kd 0 (Z.max (max_streams_per_connection (config m)) 1) in
               set_task i (TLoad (length (connections m))) (mkManager (config m) (connections m ++ [c]) (tasks m))
           | Err e => set_task i (TFailed e) m
           end
  | Some TConnect, EConnected (Err e) => Some (set_task i (TFailed e) m)
  | Some (TLoad k), EStep =>
      c ← connections m !! k;
      Some (set_task i (if max_streams c <=? active_streams c then TFailed "mux stream capacity reached" else TAdd k) m)
  | Some (TAdd k), EStep => Some (set_task i (TOpen k) (count_on 1 k m))
  | Some (TOpen k), EOpened (Ok _) => Some (set_task i (TLive k) m)
  | Some (TOpen k), EOpened (Err _) => Some (set_task i (TLost k) m)
  | Some (TLive k), EDropped => Some (set_task i TClosed (count_on (-1) k m))
  | _, _ => None
  end.
Definition spawn (m : Manager) : Manager := mkManager (config m) (connections m) (tasks m ++ [TPick]).
Inductive mstep : Manager → Manager → Prop :=
| mstep_spawn m : mstep m (spawn m)
| mstep_task m i e m' : task_step i e m = Some m' → mstep m m'.

(** A call that counts on connection [k]: its stream is being opened, is in use, or
    was lost to a failed [open_stream]. *)
Definition counted (k : nat) (t : Task) : bool :=
  match t with TOpen j | TLive j | TLost j => (j =? k)%nat | _ => false end.
Definition uses (k : nat) (t : Task) : bool :=
  match t with TLoad j | TAdd j | TOpen j | TLive j | TLost j => (j =? k)%nat | _ => false end.
Definition count (f : Task → bool) (ts : list Task) : nat := length (List.filter f ts).

Lemma tasks_count_app f ts ts' : count f (ts ++ ts') = (count f ts + count f ts')%nat.
Proof. unfold count. by rewrite List.filter_app, length_app. Qed.
Lemma tasks_count_insert f ts i t t' :
  ts !! i = Some t → (count f (<[i := t']> ts) + (if f t then 1 else 0) = count f ts + (if f t' then 1 else 0))%nat.
Proof.
  intros Hi. rewrite (insert_take_drop _ _ _ (lookup_lt_Some _ _ _ Hi)). replace (count f ts) with (count f (take i ts ++ t :: drop (S i) ts)) by (by rewrite take_drop_middle).
  rewrite !tasks_count_app. unfold count. cbn [List.filter]. destruct (f t), (f t'); cbn [length]; lia.
Qed.
Lemma count_pos f ts i t : ts !! i = Some t → f t = true → (0 < count f ts)%nat.
Proof.
  intros Hi Hf. rewrite <- (take_drop_middle _ _ _ Hi), tasks_count_app. unfold count. cbn [List.filter]. rewrite Hf. cbn [length]. lia.
Qed.
Lemma count_bound f ts : (count f ts <= length ts)%nat.
Proof. unfold count. induction ts as [|t ts IH]; [done|]. cbn [List.filter]. destruct (f t); cbn [length]; lia. Qed.

(** Calls one at a time: only one is under way. *)
Definition in_flight (t : Task) : bool :=
  match t with TPick | TCheck | TConnect | TLoad _ | TAdd _ | TOpen _ => true | _ => false end.
Definition sstep (m m' : Manager) : Prop := mstep m m' ∧ (count in_flight (tasks m') <= 1)%nat.

(** *** The counters *)
Record counters_inv (m : Manager) : Prop := {
  inv_count : ∀ k c, connections m !! k = Some c → active_streams c = Z.of_nat (count (counted k) (tasks m));
  inv_uses : ∀ i t k, tasks m !! i = Some t → uses k t = true → is_Some (connections m !! k)
}.
Lemma counted_uses k t : counted k t = true → uses k t = true.
Proof. by destruct t. Qed.
(** The moves of a call, and the pool after each. *)
Inductive moves (m : Manager) : Task → Task → list MuxConnection → Prop :=
| mv_pick k : pick (connections m) = Some k → moves m TPick (TLoad k) (connections m)
| mv_none : moves m TPick TCheck (connections m)
| mv_room : Z.of_nat (length (connections m)) < max_conns m → moves m TCheck TConnect (connections m)
| mv_fail t e : in_flight t = true → (∀ k, counted k t = false) → moves m t (TFailed e) (connections m)
| mv_connect kd :
    moves m TConnect (TLoad (length (connections m)))
      (connections m ++ [mkConn kd 0 (Z.max (max_streams_per_connection (config m)) 1)])
| mv_load k c :
    connections m !! k = Some c → active_streams c < max_streams c → moves m (TLoad k) (TAdd k) (connections m)
| mv_add k : moves m (TAdd k) (TOpen k) (alter (add_active 1) k (connections m))
| mv_live k : moves m (TOpen k) (TLive k) (connections m)
| mv_lost k : moves m (TOpen k) (TLost k) (connections m)
| mv_drop k : moves m (TLive k) TClosed (alter (add_active (-1)) k (connections m)).
Lemma task_step_moves i e m m' :
  task_step i e m = Some m' →
  ∃ t t' cs, tasks m !! i = Some t ∧ moves m t t' cs ∧ m' = mkManager (config m) cs (<[i := t']> (tasks m)).
Proof.
  unfold task_step. destruct (tasks m !! i) as [t|]; [|done]. intros Hs. exists t.
  destruct t as [| | |k|k|k|k|r|k|], e as [|[u|err]|[u|err]|]; try done.
  - injection Hs as <-. destruct (pick (connections m)) eqn:Ep; eexists _, _; repeat split; by constructor.
  - injection Hs as <-. destruct (Z.ltb_spec (Z.of_nat (length (connections m))) (max_conns m)); eexists _, _; repeat split; by constructor.
  - injection Hs as <-. destruct (build_runtime (mux_protocol (config m))); eexists _, _; repeat split; by constructor.
  - injection Hs as <-. eexists _, _; repeat split; by constructor.
  - destruct (connections m !! k) as [c|] eqn:Ek; [|done]. cbn in Hs. injection Hs as <-.
    destruct (Z.leb_spec (max_streams c) (active_streams c)); eexists _, _; repeat split; [by constructor|by econstructor].
  - injection Hs as <-. eexists _, _; repeat split; by constructor.
  - injection Hs as <-. eexists _, _; repeat split; by constructor.
  - injection Hs as <-. eexists _, _; repeat split; by constructor.
  - injection Hs as <-. eexists _, _; repeat split; by constructor.
Qed.

Lemma mstep_mono m m' : mstep m m' → (length (tasks m) <= length (tasks m'))%nat ∧ config m' = config m.
Proof.
  intros [m0|m0 i e m1 Hs]; [cbn; rewrite length_app; split; [lia|done]|].
  apply task_step_moves in Hs as (t&t'&cs&_&_&->). cbn. by rewrite length_insert.
Qed.
Lemma pick_Some cs k : pick cs = Some k → is_Some (cs !! k).
Proof.
  unfold pick. destruct (list_find _ cs) as [[j c]|] eqn:E; [|done]. intros [= <-]. apply list_find_Some in E as (E&_). eauto.
Qed.
Lemma moves_uses m t t' cs k :
  moves m t t' cs → (∀ k, uses k t = true → is_Some (connections m !! k)) → uses k t' = true → is_Some (cs !! k).
Proof.
  intros Hm Hu Hk. destruct Hm; cbn [uses] in *; try done; try (apply Nat.eqb_eq in Hk; subst k).
  - by apply pick_Some.
  - rewrite lookup_app_r, Nat.sub_diag by lia. by eexists.
  - apply Hu. by rewrite Nat.eqb_refl.
  - rewrite list_lookup_alter_eq. apply fmap_is_Some, Hu. by rewrite Nat.eqb_refl.
  - apply Hu. by rewrite Nat.eqb_refl.
  - apply Hu. by rewrite Nat.eqb_refl.
Qed.
Lemma moves_grow m t t' cs k : moves m t t' cs → is_Some (connections m !! k) → is_Some (cs !! k).
Proof.
  intros Hm [c Hk]. destruct Hm; eauto; [|rewrite list_lookup_alter; case_decide; [subst|]; rewrite Hk; by eexists..].
  rewrite lookup_app_l by (by eapply lookup_lt_Some). eauto.
Qed.

(** One more on the counter for one more call that counts. *)
Lemma moves_counted m t t' cs k c' :
  moves m t t' cs → cs !! k = Some c' →
  ((∃ c, connections m !! k = Some c
     ∧ active_streams c' = wrap 64 (active_streams c + ((if counted k t' then 1 else 0) - (if counted k t then 1 else 0))))
   ∨ (connections m !! k = Some c' ∧ counted k t' = counted k t))
  ∨ (k = length (connections m) ∧ active_streams c' = 0 ∧ counted k t' = counted k t).
Proof.
  intros Hm Hk. destruct Hm; cbn [counted]; try (left; right; split; [done|done]).
  - destruct (decide (k < length (connections m))%nat) as [Hlt|Hge].
    + left; right. by rewrite lookup_app_l in Hk.
    + right. rewrite lookup_app_r in Hk by lia. destruct (k - length (connections m))%nat eqn:E; [|done]. injection Hk as <-. split; [lia|done].
  - rewrite list_lookup_alter in Hk. case_decide as E.
    + subst k. rewrite Nat.eqb_refl. left; left. destruct (connections m !! k0) as [c|]; [|done]. injection Hk as <-. by exists c.
    + left; right. split; [done|]. by apply Nat.eqb_neq.
  - rewrite list_lookup_alter in Hk. case_decide as E.
    + subst k. rewrite Nat.eqb_refl. left; left. destruct (connections m !! k0) as [c|]; [|done]. injection Hk as <-. by exists c.
    + left; right. split; [done|]. symmetry. by apply Nat.eqb_neq.
Qed.
Lemma count_zero f ts : (∀ i t, ts !! i = Some t → f t = false) → count f ts = 0%nat.
Proof.
  induction ts as [|t ts IH]; [done|]. intros Hf. unfold count. cbn [List.filter]. rewrite (Hf 0%nat t eq_refl).
  apply IH. intros i t'. apply (Hf (S i)).
Qed.
Lemma unused_uncounted m k : counters_inv m → connections m !! k = None → count (counted k) (tasks m) = 0%nat.
Proof.
  intros [_ Hu] Hk. apply count_zero. intros i t Hi. destruct (counted k t) eqn:E; [|done].
  destruct (Hu i t k Hi (counted_uses k t E)) as [c Hc]. congruence.
Qed.
Lemma task_step_counters i e m m' :
  counters_inv m → Z.of_nat (length (tasks m)) < 2 ^ 64 → task_step i e m = Some m' → counters_inv m'.
Proof.
  intros Hi Hlen Hs. apply task_step_moves in Hs as (t&t'&cs&Ht&Hm&->). split; cbn [connections tasks].
  - intros k c' Hk. pose proof (tasks_count_insert (counted k) (tasks m) i t t' Ht) as Hc. pose proof (count_bound (counted k) (tasks m)) as Hb.
    pose proof (count_bound (counted k) (<[i:=t']> (tasks m))) as Hb'. rewrite length_insert in Hb'.
    destruct (moves_counted _ _ _ _ _ _ Hm Hk) as [[(c&Hck&->)|[Hck E]]|(->&->&E)].
    + rewrite (inv_count _ Hi k c Hck). rewrite wrap_small; [|split]; destruct (counted k t), (counted k t'); lia.
    + rewrite (inv_count _ Hi k c' Hck). rewrite E in Hc. lia.
    + rewrite (unused_uncounted m _ Hi) in Hc by (apply lookup_ge_None; lia). rewrite E in Hc. lia.
  - intros j tj k Hj Hk. destruct (decide (i = j)) as [<-|Hne].
    + rewrite list_lookup_insert_eq in Hj by (by eapply lookup_lt_Some). injection Hj as <-.
      eapply moves_uses; [done| |done]. intros k'. by apply (inv_uses _ Hi i).
    + rewrite list_lookup_insert_ne in Hj by done. eapply moves_grow; [done|]. by eapply (inv_uses _ Hi j).
Qed.
Lemma spawn_counters m : counters_inv m → counters_inv (spawn m).
Proof.
  intros [Hc Hu]. split; cbn [spawn connections tasks].
  - intros k c Hk. rewrite tasks_count_app, (Hc k c Hk). unfold count at 3. cbn. lia.
  - intros i t k Hi Hk. apply lookup_app_Some in Hi as [Hi|[_ Hi]]; [by eapply Hu|].
    destruct (i - length (tasks m))%nat; [by injection Hi as <-|done].
Qed.
Lemma run_counters cfg m :
  rtc mstep (manager_new cfg) m → Z.of_nat (length (tasks m)) < 2 ^ 64 → counters_inv m ∧ config m = cfg.
Proof.
  intros Hr. apply rtc_ind_r with (P := fun m => Z.of_nat (length (tasks m)) < 2 ^ 64 → counters_inv m ∧ config m = cfg) in Hr; [done|..].
  - intros _. split; [|done]. split; cbn; [by intros k c Hk; rewrite lookup_nil in Hk|by intros i t k Hi; rewrite lookup_nil in Hi].
  - intros m1 m2 _ Hst IH Hlen. pose proof (mstep_mono _ _ Hst) as [Hle Hcf]. destruct IH as [Hi Hc]; [lia|].
    split; [|congruence]. destruct Hst as [m1|m1 i e m2 Hst]; [by apply spawn_counters|].
    eapply task_step_counters; [done| |done]. lia.
Qed.

(** *** One call at a time *)
Lemma alone_other ts i j t t' :
  (count in_flight ts <= 1)%nat → ts !! i = Some t → in_flight t = true → ts !! j = Some t' → i ≠ j → in_flight t' = false.
Proof.
  intros Ha Hi Ht Hj Hne. destruct (in_flight t') eqn:E; [|done]. exfalso.
  pose proof (tasks_count_insert in_flight ts i t TClosed Hi) as Hc. rewrite Ht in Hc. cbn in Hc.
  assert (Hj' : <[i := TClosed]> ts !! j = Some t') by (by rewrite list_lookup_insert_ne).
  pose proof (count_pos in_flight _ _ _ Hj' E). lia.
Qed.
Definition ready (m : Manager) (cs : list MuxConnection) (t : Task) : Prop :=
  match t with
  | TConnect => Z.of_nat (length cs) < max_conns m
  | TAdd k => ∀ c, cs !! k = Some c → active_streams c < max_streams c
  | _ => True
  end.
Record bounds_inv (m : Manager) : Prop := {
  inv_pool : Z.of_nat (length (connections m)) <= max_conns m;
  inv_cap : ∀ k c, connections m !! k = Some c → active_streams c <= max_streams c;
  inv_ready : ∀ i t, tasks m !! i = Some t → ready m (connections m) t
}.
Lemma ready_idle m cs t : in_flight t = false → ready m cs t.
Proof. by destruct t. Qed.
Lemma alter_lookup_le d k (cs : list MuxConnection) (j : nat) c :
  alter (add_active d) k cs !! j = Some c →
  ∃ c0, cs !! j = Some c0 ∧ max_streams c = max_streams c0
    ∧ (j = k ∧ active_streams c = wrap 64 (active_streams c0 + d) ∨ active_streams c = active_streams c0).
Proof.
  rewrite list_lookup_alter. case_decide as E; [subst j|intros Hc; exists c; eauto].
  destruct (cs !! k) as [c0|]; [|done]. intros [= <-]. exists c0. eauto.
Qed.
(** What a move leaves of the bounds; the counter is positive when a stream closes. *)
Lemma moves_bounds m i t t' cs :
  bounds_inv m → counters_inv m → Z.of_nat (length (tasks m)) < 2 ^ 64 → tasks m !! i = Some t → moves m t t' cs →
  Z.of_nat (length cs) <= max_conns m ∧ (∀ k c, cs !! k = Some c → active_streams c <= max_streams c) ∧ ready m cs t'
  ∧ (∀ t, ready m (connections m) t → ready m cs t ∨ in_flight t = true ∧ t' ≠ TClosed).
Proof.
  intros [Hp Hc Hr] Hi Hlen Ht Hm. pose proof (Hr i t Ht) as Hrt.
  assert (Hcnt : ∀ k c, connections m !! k = Some c → 0 <= active_streams c < 2 ^ 64).
  { intros k c Hk. rewrite (inv_count _ Hi k c Hk). pose proof (count_bound (counted k) (tasks m)). lia. }
  destruct Hm as [k Hk| |Hlt|t e _ _|kd|k c Hk Hlt|k|k|k|k]; try (split_and!; [done..|by intros; left]).
  - cbn [ready] in Hrt. rewrite length_app. cbn [length]. split_and!; [lia| |done|].
    + intros k c Hk. apply lookup_app_Some in Hk as [Hk|[_ Hk]]; [by eapply Hc|].
      destruct (k - length (connections m))%nat; [injection Hk as <-; cbn; lia|done].
    + intros [] Hready; try (by left); by right.
  - split_and!; [done..| |by intros; left]. cbn [ready]. intros c' Hc'. congruence.
  - cbn [ready] in Hrt. rewrite length_alter. split_and!; [done| |done|].
    + intros j c (c0&Hj&->&[[-> ->]| ->])%alter_lookup_le; [|by eapply Hc].
      specialize (Hrt c0 Hj). specialize (Hcnt k c0 Hj). etransitivity; [apply Z.mod_le; lia|lia].
    + intros [] Hready; try (by left); by right.
  - assert (Hpos : ∀ c, connections m !! k = Some c → 0 < active_streams c).
    { intros c Hk. rewrite (inv_count _ Hi k c Hk). pose proof (count_pos (counted k) (tasks m) i _ Ht (Nat.eqb_refl k)). lia. }
    rewrite length_alter. split_and!; [done| |done|].
    + intros j c (c0&Hj&->&[[-> ->]| ->])%alter_lookup_le; [|by eapply Hc].
      specialize (Hpos c0 Hj). specialize (Hcnt k c0 Hj). specialize (Hc k c0 Hj). rewrite wrap_small; [lia|split; lia].
    + intros t Hready. left. destruct t; try done. cbn [ready] in *. { by rewrite length_alter. }
      intros c (c0&Hj&->&[[-> ->]| ->])%alter_lookup_le; [|by apply Hready].
      specialize (Hready c0 Hj). specialize (Hpos c0 Hj). specialize (Hcnt _ c0 Hj). rewrite wrap_small; [lia|split; lia].
Qed.
Lemma moves_in_flight m t t' cs : moves m t t' cs → t' ≠ TClosed → in_flight t = true.
Proof. by intros []. Qed.
Lemma task_step_bounds i e m m' :
  bounds_inv m → counters_inv m → Z.of_nat (length (tasks m)) < 2 ^ 64 → (count in_flight (tasks m) <= 1)%nat →
  task_step i e m = Some m' → bounds_inv m'.
Proof.
  intros Hb Hi Hlen Ha Hs. apply task_step_moves in Hs as (t&t'&cs&Ht&Hm&->).
  destruct (moves_bounds m i t t' cs Hb Hi Hlen Ht Hm) as (Hp&Hc&Hr&Ho). split; cbn [connections tasks config]; [done..|].
  intros j tj Hj. destruct (decide (i = j)) as [<-|Hne].
  - rewrite list_lookup_insert_eq in Hj by (by eapply lookup_lt_Some). by injection Hj as <-.
  - rewrite list_lookup_insert_ne in Hj by done. destruct (Ho tj (inv_ready _ Hb j tj Hj)) as [|[Hf Hne']]; [done|].
    apply ready_idle. eapply alone_other; [done|exact Ht|by eapply moves_in_flight|done|done].
Qed.
Lemma spawn_bounds m : bounds_inv m → bounds_inv (spawn m).
Proof.
  intros [Hp Hc Hr]. split; cbn [spawn connections tasks]; [done..|]. intros i t Hi.
  apply lookup_app_Some in Hi as [Hi|[_ Hi]]; [by eapply Hr|]. destruct (i - length (tasks m))%nat; [by injection Hi as <-|done].
Qed.
Lemma sstep_run m m' : rtc sstep m m' → rtc mstep m m'.
Proof. induction 1 as [|m1 m2 m3 [Hs _] _ IH]; [done|by eapply rtc_l]. Qed.
Lemma run_bounds cfg m :
  rtc sstep (manager_new cfg) m → Z.of_nat (length (tasks m)) < 2 ^ 64 → bounds_inv m ∧ (count in_flight (tasks m) <= 1)%nat.
Proof.
  intros Hr. apply rtc_ind_r with
    (P := fun m => rtc sstep (manager_new cfg) m ∧ (Z.of_nat (length (tasks m)) < 2 ^ 64 → bounds_inv m ∧ (count in_flight (tasks m) <= 1)%nat)) in Hr;
    [by apply Hr|..].
  - split; [done|]. intros _. split; [|cbn; lia]. split; cbn; [unfold max_conns; lia|by intros k c Hk; rewrite lookup_nil in Hk|by intros i t Hi; rewrite lookup_nil in Hi].
  - intros m1 m2 _ Hst [Hr1 IH]. split; [by eapply rtc_r|]. intros Hlen. destruct Hst as [Hst Ha]. split; [|done].
    pose proof (mstep_mono _ _ Hst) as [Hle _]. destruct IH as [Hb Ha1]; [lia|].
    destruct (run_counters cfg m1 (sstep_run _ _ Hr1)) as [Hi _]; [lia|].
    destruct Hst as [m1|m1 i e m2 Hst]; [by apply spawn_bounds|]. eapply task_step_bounds; [done|done| |done|done]. lia.
Qed.

(** C31: however the calls of [open_stream] and the closing of streams interleave, a
    connection's counter is the number of its streams that are being opened, in use
    or lost to a failed open, so that closing a stream never takes it below zero;
    and when calls come one at a time, the pool keeps its bound on connections and
    every connection its bound on streams. *)
Theorem mux_pool_accounts cfg m :
  rtc mstep (manager_new cfg) m → Z.of_nat (length (tasks m)) < 2 ^ 64 →
  (∀ k c, connections m !! k = Some c → active_streams c = Z.of_nat (count (counted k) (tasks m)))
  ∧ (∀ i k, tasks m !! i = Some (TLive k) → ∃ c, connections m !! k = Some c ∧ 0 < active_streams c)
  ∧ (rtc sstep (manager_new cfg) m →
     Z.of_nat (length (connections m)) <= Z.max (mux_max_connections cfg) 1
     ∧ ∀ k c, connections m !! k = Some c → active_streams c <= max_streams c).
Proof.
  intros Hr Hlen. destruct (run_counters cfg m Hr Hlen) as [Hi Hcfg]. split_and!; [apply Hi| |].
  - intros i k Hk. destruct (inv_uses _ Hi i _ k Hk (Nat.eqb_refl k)) as [c Hc]. exists c. split; [done|].
    rewrite (inv_count _ Hi k c Hc). pose proof (count_pos (counted k) (tasks m) i _ Hk (Nat.eqb_refl k)). lia.
  - intros [[Hp Hc _] _]%run_bounds; [|done]. unfold max_conns in Hp. rewrite Hcfg in Hp. done.
Qed.

(** A schedule: [None] starts a call. *)
Definition act (a : option (nat * event)) (m : Manager) : option Manager :=
  match a with None => Some (spawn m) | Some (i, e) => task_step i e m end.
Fixpoint play (l : list (option (nat * event))) (m : Manager) : option Manager :=
  match l with [] => Some m | a :: l => m' ← act a m; play l m' end.
(** One at a time. *)
Fixpoint play1 (l : list (option (nat * event))) (m : Manager) : option Manager :=
  match l with [] => Some m | a :: l => m' ← act a m; if (count in_flight (tasks m') <=? 1)%nat then play1 l m' else None end.
Lemma act_step a m m' : act a m = Some m' → mstep m m'.
Proof. destruct a as [[i e]|]; cbn; [by apply mstep_task|intros [= <-]; apply mstep_spawn]. Qed.
Lemma play1_run l m m' : play1 l m = Some m' → rtc sstep m m'.
Proof.
  revert m. induction l as [|a l IH]; intros m Hp; cbn in Hp; [by injection Hp as <-|].
  destruct (act a m) as [m1|] eqn:E; [cbn in Hp|done]. destruct (Nat.leb_spec (count in_flight (tasks m1)) 1); [|done].
  eapply rtc_l; [by split; [eapply act_step|]|by apply IH].
Qed.
Definition one_then_another : list (option (nat * event)) :=
  [None; Some (0%nat, EStep); Some (0%nat, EStep); Some (0%nat, EConnected (Ok ())); Some (0%nat, EStep); Some (0%nat, EStep);
   Some (0%nat, EOpened (Ok ())); None; Some (1%nat, EStep); Some (1%nat, EStep); Some (1%nat, EStep); Some (1%nat, EOpened (Ok ()))].
Definition two_live : Manager := mkManager mux_default [mkConn KSing 2 128] [TLive 0; TLive 0].
Lemma mux_pool_accounts_witness :
  (∃ c, connections two_live !! 0%nat = Some c ∧ 0 < active_streams c) ∧ Z.of_nat (length (connections two_live)) <= 4.
Proof.
  pose proof (play1_run one_then_another (manager_new mux_default) two_live eq_refl) as Hs.
  destruct (mux_pool_accounts mux_default two_live (sstep_run _ _ Hs) eq_refl) as (_&H1&H2).
  split; [exact (H1 0%nat 0%nat eq_refl)|exact (proj1 (H2 Hs))].
Defined.

(** Calls at once: both see room in the pool before either has connected, and the
    pool gets more connections than it may have; a failed open keeps its place. *)
Definition one : MuxConfig := mkMux "yamux" 1 1 false.
Example pool_overrun :
  (fun m => length (connections m)) <$> play
    [None; None; Some (0%nat, EStep); Some (1%nat, EStep); Some (0%nat, EStep); Some (1%nat, EStep);
     Some (0%nat, EConnected (Ok ())); Some (1%nat, EConnected (Ok ()))] (manager_new one) = Some 2%nat.
Proof. reflexivity. Qed.
Example lost_place :
  (fun m => tasks m !! 1%nat) <$> play
    [None; Some (0%nat, EStep); Some (0%nat, EStep); Some (0%nat, EConnected (Ok ())); Some (0%nat, EStep); Some (0%nat, EStep);
     Some (0%nat, EOpened (Err "yamux session closed")); None; Some (1%nat, EStep); Some (1%nat, EStep)] (manager_new one)
  = Some (Some (TFailed "mux connection pool exhausted")).
Proof. reflexivity. Qed.
End Manager.

(** ** The readers of sing-mux and smux

    Their tasks append what a read gives to a buffer, cut the frames at its front
    off and dispatch them. *)

Module Readers.
Section feed.
Context {F E : Type} (decode : bytes → result E (F * nat)) (header : nat) `{!FrameCodec decode header}.
(** One turn: the frames to dispatch and the buffer left. *)
Definition on_read (buf chunk : bytes) : option (list F * bytes) :=
  '(fs, n) ← cut decode header (buf ++ chunk); Some (fs, drop n (buf ++ chunk)).
Fixpoint read_frames (buf : bytes) (reads : list bytes) : option (list F * bytes) :=
  match reads with
  | [] => Some ([], buf)
  | chunk :: reads =>
      '(fs, buf) ← on_read buf chunk;
      '(gs, buf) ← read_frames buf reads;
      Some (fs ++ gs, buf)
  end.

Context (decode_more : ∀ d f n x, decode d = Ok (f, n) → decode (d ++ x) = Ok (f, n)).
Lemma frames_of_more d fs n x : frames_of decode d fs n → frames_of decode (d ++ x) fs n ∧ (n <= length d)%nat.
Proof using FrameCodec0 decode_more.
  induction 1 as [d|d f k fs n Hd _ [IH Hn]]; [split; [constructor|lia]|]. pose proof (codec_progress _ _ _ Hd) as Hk.
  rewrite length_drop in Hn.
  split; [|lia]. econstructor; [by apply decode_more|]. by rewrite drop_app_le by lia.
Qed.
Lemma frames_of_app d fs n gs k :
  frames_of decode d fs n → frames_of decode (drop n d) gs k → frames_of decode d (fs ++ gs) (n + k).
Proof.
  induction 1 as [d|d f j fs n Hd _ IH]; intros Hg; [by rewrite drop_0 in Hg|].
  rewrite <- Nat.add_assoc. econstructor; [done|]. apply IH. by rewrite drop_drop.
Qed.
Lemma read_frames_spec reads buf :
  is_ok (decode buf) = false →
  ∃ fs n, read_frames buf reads = Some (fs, drop n (buf ++ concat reads))
    ∧ frames_of decode (buf ++ concat reads) fs n ∧ is_ok (decode (drop n (buf ++ concat reads))) = false.
Proof using FrameCodec0 decode_more.
  revert buf. induction reads as [|c reads IH]; intros buf Hb; cbn [read_frames concat].
  { exists [], 0%nat. rewrite app_nil_r, drop_0. split_and!; [done|constructor|done]. }
  destruct (cut_spec decode header (buf ++ c)) as (fs&n&Hc&Hn&Hf&He). unfold on_read. rewrite Hc. cbn [mbind option_bind].
  destruct (IH _ He) as (gs&k&Hr&Hg&Hend). rewrite Hr. cbn [mbind option_bind].
  rewrite app_assoc. destruct (frames_of_more _ _ _ (concat reads) Hf) as [Hf' _].
  rewrite <- drop_app_le in Hr, Hg, Hend by done. rewrite <- drop_app_le by done. rewrite drop_drop in *.
  exists (fs ++ gs), (n + k)%nat. split_and!; [done|by eapply frames_of_app|done].
Qed.
(** However the bytes arrive, the same frames are dispatched in the same order. *)
Lemma read_frames_cut reads :
  ∃ fs n, cut decode header (concat reads) = Some (fs, n) ∧ read_frames [] reads = Some (fs, drop n (concat reads)).
Proof using FrameCodec0 decode_more.
  destruct (decode []) as [[f n]|] eqn:E0.
  { pose proof (codec_progress _ _ _ E0). cbn in *. lia. }
  destruct (read_frames_spec reads []) as (fs&n&Hr&Hf&He); [by rewrite E0|]. cbn [app] in *.
  exists fs, n. split; [by apply cut_complete|done].
Qed.
End feed.

Lemma byte_at_more (d x : bytes) i : (i < length d)%nat → byte_at (d ++ x) i = byte_at d i.
Proof. intros Hi. unfold byte_at. by rewrite lookup_app_l. Qed.
Lemma slice_more (d x : bytes) a b : (a <= b)%nat → (b <= length d)%nat → slice (d ++ x) a b = slice d a b.
Proof. intros Ha Hb. unfold slice. rewrite drop_app_le by lia. rewrite take_app_le; [done|]. rewrite length_drop. lia. Qed.
Lemma smux_decode_more d f n x : Smux.frame_decode d = Ok (f, n) → Smux.frame_decode (d ++ x) = Ok (f, n).
Proof.
  unfold Smux.frame_decode. destruct (Nat.ltb_spec (length d) SMUX_HEADER_LEN) as [|Hl]; [done|]. unfold SMUX_HEADER_LEN in *.
  rewrite length_app, (proj2 (Nat.ltb_ge (length d + length x) 8)) by lia. rewrite !byte_at_more by lia.
  set (k := Z.to_nat _). destruct (Nat.ltb_spec (length d) (8 + k)) as [|Hk]; [done|].
  rewrite (proj2 (Nat.ltb_ge (length d + length x) (8 + k))) by lia. by rewrite slice_more by lia.
Qed.
Lemma sing_decode_more d f n x : SingMux.decode d = Ok (f, n) → SingMux.decode (d ++ x) = Ok (f, n).
Proof.
  unfold SingMux.decode. destruct (Nat.ltb_spec (length d) FRAME_HEADER_LEN) as [|Hl]; [done|]. unfold FRAME_HEADER_LEN in *.
  rewrite length_app, (proj2 (Nat.ltb_ge (length d + length x) 7)) by lia. rewrite !byte_at_more by lia.
  set (k := Z.to_nat _). destruct (Nat.ltb_spec (length d) (7 + k)) as [|Hk]; [done|].
  rewrite (proj2 (Nat.ltb_ge (length d + length x) (7 + k))) by lia. by rewrite slice_more by lia.
Qed.
Definition smux_read : bytes → bytes → option (list SmuxFrame * bytes) := on_read Smux.frame_decode SMUX_HEADER_LEN.
Definition sing_read : bytes → bytes → option (list MuxFrame * bytes) := on_read SingMux.decode FRAME_HEADER_LEN.

(** However the frames of a session are cut into reads, the reader tasks dispatch
    exactly these frames, in their order. *)
Theorem mux_reads_any_cut fs gs reads reads' :
  Forall Smux.frame_ok fs → Forall SingMux.frame_ok gs →
  concat reads = concat (Smux.frame_encode <$> fs) → concat reads' = concat (SingMux.encode <$> gs) →
  read_frames Smux.frame_decode SMUX_HEADER_LEN [] reads = Some (fs, [])
  ∧ read_frames SingMux.decode FRAME_HEADER_LEN [] reads' = Some (gs, []).
Proof.
  intros Hf Hg Er Er'. split.
  - destruct (read_frames_cut _ SMUX_HEADER_LEN smux_decode_more reads) as (hs&n&Hc&->). rewrite Er in *.
    pose proof (cut_encoded _ SMUX_HEADER_LEN Smux.frame_encode Smux.frame_ok fs [] Smux.smux_decode_encode Hf eq_refl) as Hc'.
    rewrite app_nil_r in Hc'. rewrite Hc' in Hc. injection Hc as <- <-. by rewrite drop_all.
  - destruct (read_frames_cut _ FRAME_HEADER_LEN sing_decode_more reads') as (hs&n&Hc&->). rewrite Er' in *.
    pose proof (cut_encoded _ FRAME_HEADER_LEN SingMux.encode SingMux.frame_ok gs [] SingMux.mux_decode_encode Hg eq_refl) as Hc'.
    rewrite app_nil_r in Hc'. rewrite Hc' in Hc. injection Hc as <- <-. by rewrite drop_all.
Qed.
End Readers.
