(* ===== verification/Vision.v ===== *)
(** * The vision flow of VLESS ([src/src/proxy/outbound/vless/vision.rs])

    A stream wrapped in [VisionStream] pads what it writes until the inner TLS
    session is seen to carry application data, and removes the padding of what
    it reads.  The inner stream is modelled by what each poll of it returns.
    The random draws of a write are arguments.  The model shows the padding and
    unpadding machines inverse to each other for every way the network cuts the
    bytes, and the situations where the reader loses or corrupts data. *)

From S2P Require Import Prelude Outcome.

Definition COMMAND_PADDING_CONTINUE : Z := 0.
Definition COMMAND_PADDING_END : Z := 1.
Definition COMMAND_PADDING_DIRECT : Z := 2.
Definition BUF_SIZE : Z := 2048.
Definition PADDING_HEADER_SIZE : Z := 5.
Definition UUID_SIZE : nat := 16.
Definition PACKETS_TO_FILTER : Z := 8.

Record ReadState := mkRead {
  within_padding : bool;
  remaining_command : Z;
  remaining_content : Z;
  remaining_padding : Z;
  current_command : Z;
  first_packet : bool;
  direct_copy : bool;
}.
Definition read_state_new : ReadState := mkRead true (-1) (-1) (-1) 0 true false.

Record VisionStream := mkVision {
  user_uuid : bytes;
  write_padding_active : bool;
  write_first_packet : bool;
  read_state : ReadState;
  read_buf : bytes;
  packets_filtered : Z;
  enable_xtls : bool;
  remaining_server_hello : Z;
  cipher : Z;
}.
Definition vision_new (uuid : bytes) : VisionStream :=
  mkVision uuid true true read_state_new [] PACKETS_TO_FILTER false (-1) 0.

Definition set_write (active first : bool) (v : VisionStream) : VisionStream :=
  mkVision (user_uuid v) active first (read_state v) (read_buf v) (packets_filtered v)
    (enable_xtls v) (remaining_server_hello v) (cipher v).
Definition set_read (st : ReadState) (buf : bytes) (v : VisionStream) : VisionStream :=
  mkVision (user_uuid v) (write_padding_active v) (write_first_packet v) st buf (packets_filtered v)
    (enable_xtls v) (remaining_server_hello v) (cipher v).
Definition set_filter (n : Z) (xtls : bool) (hello c : Z) (v : VisionStream) : VisionStream :=
  mkVision (user_uuid v) (write_padding_active v) (write_first_packet v) (read_state v) (read_buf v)
    n xtls hello c.

(** ** The TLS filter *)

Definition is_tls_application_data (data : bytes) : bool :=
  (5 <=? len data) && (byte_to_Z (byte_at data 0) =? 0x17) && (byte_to_Z (byte_at data 1) =? 3)
  && (byte_to_Z (byte_at data 2) =? 3).
Fixpoint contains_bytes (haystack needle : bytes) : bool :=
  bool_decide (take (length needle) haystack = needle)
  || match haystack with [] => false | _ :: h => contains_bytes h needle end.

(** The indices are behind the length tests of the source. *)
Definition filter_tls (data : bytes) (v : VisionStream) : VisionStream :=
  if (packets_filtered v <=? 0) || (len data <? 6) then v else
  let n := packets_filtered v - 1 in
  let at_ i := byte_to_Z (byte_at data i) in
  let '(hello, c) :=
    if (at_ 0%nat =? 0x16) && (at_ 1%nat =? 3) && (at_ 2%nat =? 3) && (at_ 5%nat =? 2) then
      let hello := Z.lor (Z.shiftl (at_ 3%nat) 8) (at_ 4%nat) + 5 in
      if (79 <=? len data) && (79 <=? hello) then
        let session_id_len := at_ 43%nat in
        let cipher_offset := 43 + session_id_len + 1 in
        if cipher_offset + 2 <=? len data
        then (hello, Z.lor (Z.shiftl (at_ (Z.to_nat cipher_offset)) 8) (at_ (Z.to_nat cipher_offset + 1)%nat))
        else (hello, cipher v)
      else (hello, cipher v)
    else (remaining_server_hello v, cipher v) in
  if 0 <? hello then
    let hello := hello - len data in
    if hello <=? 0 then
      let xtls := contains_bytes data [Byte.x00; Byte.x2b; Byte.x00; Byte.x02; Byte.x03; Byte.x04]
                  && negb (c =? 0) && negb (c =? 0x1305) in
      set_filter n (enable_xtls v || xtls) hello c v
    else set_filter n (enable_xtls v) hello c v
  else set_filter n (enable_xtls v) hello c v.

(** ** Writing *)

(** [random] is the draw of the branch taken. *)
Definition calculate_padding (content_len : Z) (long_padding : bool) (random : Z) : Z :=
  let padding_len :=
    if (content_len <? 900) && long_padding then Z.max (random + 900 - content_len) 0 else random in
  let max_padding := BUF_SIZE - PADDING_HEADER_SIZE - Z.of_nat UUID_SIZE - content_len in
  Z.max (Z.min padding_len max_padding) 0.

(** [noise] yields as many random bytes as asked. *)
Definition build_padded_frame (data : bytes) (random : Z) (noise : nat → bytes) (v : VisionStream)
  : bytes * VisionStream :=
  let direct := is_tls_application_data data && enable_xtls v in
  let command := if direct then COMMAND_PADDING_DIRECT else COMMAND_PADDING_CONTINUE in
  let active := if direct then false else write_padding_active v in
  let padding_len := calculate_padding (len data) active random in
  let buf := (if write_first_packet v then user_uuid v else [])
    ++ [byte_of_Z command] ++ to_be_bytes 2 (wrap 16 (len data)) ++ to_be_bytes 2 (wrap 16 padding_len)
    ++ data ++ noise (Z.to_nat padding_len) in
  (buf, set_write active false v).

(** What a poll of the inner stream's write side returns. *)
Inductive accepted := Accepts (n : nat) | Blocks.
Inductive poll_result := Wrote (n : nat) | WritePending.
(** [inner] answers the one write this poll makes; [scaled] is the
    floating-point estimate of a partial write. *)
Definition poll_write (buf : bytes) (random : Z) (noise : nat → bytes) (inner : bytes → accepted)
    (scaled : nat) (v : VisionStream) : poll_result * bytes * VisionStream :=
  if negb (write_padding_active v) then
    match inner buf with
    | Accepts n => (Wrote n, take n buf, v)
    | Blocks => (WritePending, [], v)
    end
  else
    let v := if 0 <? packets_filtered v then filter_tls buf v else v in
    let max_content := Z.to_nat (BUF_SIZE - PADDING_HEADER_SIZE - Z.of_nat UUID_SIZE) in
    let data := take (length buf `min` max_content)%nat buf in
    let '(padded, v') := build_padded_frame data random noise v in
    match inner padded with
    | Accepts n =>
        if (length padded <=? n)%nat then (Wrote (length data), padded, v')
        else (Wrote ((scaled `max` 1) `min` length data)%nat, take n padded, v')
    | Blocks => (WritePending, [], v')
    end.

(** ** Reading *)

Definition live (st : ReadState) : bool :=
  (0 <? remaining_command st) || (0 <? remaining_content st) || (0 <? remaining_padding st).
Definition header_byte (byte : Z) (st : ReadState) : ReadState :=
  let r := remaining_command st in
  mkRead (within_padding st) (r - 1)
    (if r =? 4 then Z.shiftl byte 8 else if r =? 3 then Z.lor (remaining_content st) byte else remaining_content st)
    (if r =? 2 then Z.shiftl byte 8 else if r =? 1 then Z.lor (remaining_padding st) byte else remaining_padding st)
    (if r =? 5 then byte else current_command st)
    (first_packet st) (direct_copy st).
Definition set_counts (c p : Z) (st : ReadState) : ReadState :=
  mkRead (within_padding st) (remaining_command st) c p (current_command st) (first_packet st) (direct_copy st).
Definition set_command (r : Z) (st : ReadState) : ReadState :=
  mkRead (within_padding st) r (remaining_content st) (remaining_padding st) (current_command st)
    (first_packet st) (direct_copy st).
(** The end of a block with the END or the DIRECT command. *)
Definition finish (st : ReadState) : ReadState :=
  let direct := current_command st =? COMMAND_PADDING_DIRECT in
  mkRead (if direct then false else within_padding st) (-1) (-1) (-1) (current_command st)
    (first_packet st) (if direct then true else direct_copy st).

(** The body of the loop: the bytes it outputs and what it leaves. *)
Definition unpad_turn (st : ReadState) (buf : bytes) : ReadState * bytes * bytes :=
  if 0 <? remaining_command st then
    (header_byte (byte_to_Z (byte_at buf 0)) st, drop 1 buf, [])
  else if 0 <? remaining_content st then
    let to_read := (Z.to_nat (remaining_content st) `min` length buf)%nat in
    (set_counts (remaining_content st - Z.of_nat to_read) (remaining_padding st) st, drop to_read buf, take to_read buf)
  else if 0 <? remaining_padding st then
    let to_skip := (Z.to_nat (remaining_padding st) `min` length buf)%nat in
    (set_counts (remaining_content st) (remaining_padding st - Z.of_nat to_skip) st, drop to_skip buf, [])
  else (st, buf, []).
Fixpoint unpad_loop (fuel : nat) (st : ReadState) (buf output : bytes) : ReadState * bytes * bytes :=
  match fuel with
  | O => (st, buf, output)
  | S fuel =>
      match buf with
      | [] => (st, [], output)
      | _ =>
          let '(st, buf, o) := unpad_turn st buf in
          let output := output ++ o in
          if negb (live st) then
            if current_command st =? COMMAND_PADDING_CONTINUE
            then unpad_loop fuel (set_command PADDING_HEADER_SIZE st) buf output
            else (finish st, [], output ++ buf)
          else unpad_loop fuel st buf output
      end
  end.

(** A turn leaves the machine live, and a live machine consumes a byte, so the
    bytes and one more turn are enough. *)
Definition unpad_data (v : VisionStream) : bytes * VisionStream :=
  let st := read_state v in
  let buf := read_buf v in
  let initial := (remaining_command st =? -1) && (remaining_content st =? -1) && (remaining_padding st =? -1) in
  let run st buf :=
    let '(st', buf', out) := unpad_loop (2 * length buf + 1) st buf [] in (out, set_read st' buf' v) in
  if initial then
    if first_packet st then
      if (UUID_SIZE + 5 <=? length buf)%nat && bool_decide (take UUID_SIZE buf = user_uuid v) then
        run (mkRead (within_padding st) PADDING_HEADER_SIZE (-1) (-1) (current_command st) false (direct_copy st))
          (drop UUID_SIZE buf)
      else
        (buf, set_read (mkRead false (-1) (-1) (-1) (current_command st) true (direct_copy st)) [] v)
    else run (set_command PADDING_HEADER_SIZE st) buf
  else run st buf.

(** What the inner stream returns to the one read a poll makes. *)
Inductive arrival := Arrives (chunk : bytes) | NothingYet.
Inductive read_result := Data (d : bytes) | ReadPending.

(** [room] is what the caller's buffer has left; [inner n] answers a read of at
    most [n] bytes. *)
Definition poll_read (room : nat) (inner : nat → arrival) (v : VisionStream) : read_result * VisionStream :=
  if direct_copy (read_state v) && negb (within_padding (read_state v)) then
    match inner room with
    | Arrives d => (Data d, v)
    | NothingYet => (ReadPending, v)
    end
  else
    let '(early, v) :=
      if negb (bool_decide (read_buf v = [])) && within_padding (read_state v)
      then let '(unpadded, v) := unpad_data v in
           match unpadded with
           | [] => (None, v)
           | _ =>
               let to_copy := (length unpadded `min` room)%nat in
               (Some (take to_copy unpadded),
                if (to_copy <? length unpadded)%nat then set_read (read_state v) (drop to_copy unpadded) v else v)
           end
      else (None, v) in
    match early with
    | Some d => (Data d, v)
    | None =>
        match inner (Z.to_nat (BUF_SIZE * 2)) with
        | NothingYet => (ReadPending, v)
        | Arrives [] => (Data [], v)
        | Arrives filled =>
            let v := if 0 <? packets_filtered v then filter_tls filled v else v in
            if negb (within_padding (read_state v)) then (Data (take (length filled `min` room)%nat filled), v)
            else
              let '(unpadded, v) := unpad_data (set_read (read_state v) (read_buf v ++ filled) v) in
              let to_copy := (length unpadded `min` room)%nat in
              (Data (take to_copy unpadded),
               if (to_copy <? length unpadded)%nat
               then set_read (read_state v) (drop to_copy unpadded ++ read_buf v) v else v)
        end
    end.

(** ** The machine byte by byte *)

Definition byte_turn (st : ReadState) (b : byte) : ReadState * bytes :=
  if 0 <? remaining_command st then (header_byte (byte_to_Z b) st, [])
  else if 0 <? remaining_content st
  then (set_counts (remaining_content st - 1) (remaining_padding st) st, [b])
  else (set_counts (remaining_content st) (remaining_padding st - 1) st, []).
Fixpoint feed (st : ReadState) (buf : bytes) : ReadState * bytes :=
  match buf with
  | [] => (st, [])
  | b :: rest =>
      let '(st1, o) := byte_turn st b in
      if live st1 then let '(st2, o2) := feed st1 rest in (st2, o ++ o2)
      else if current_command st1 =? COMMAND_PADDING_CONTINUE
      then let '(st2, o2) := feed (set_command PADDING_HEADER_SIZE st1) rest in (st2, o ++ o2)
      else (finish st1, o ++ rest)
  end.
(** What follows a state reached with output [o]. *)
Definition resume (st1 : ReadState) (o rest : bytes) : ReadState * bytes :=
  if live st1 then let '(st2, o2) := feed st1 rest in (st2, o ++ o2)
  else if current_command st1 =? COMMAND_PADDING_CONTINUE
  then let '(st2, o2) := feed (set_command PADDING_HEADER_SIZE st1) rest in (st2, o ++ o2)
  else (finish st1, o ++ rest).
Lemma feed_cons st b rest : feed st (b :: rest) = resume (byte_turn st b).1 (byte_turn st b).2 rest.
Proof. cbn [feed]. by destruct (byte_turn st b). Qed.
Lemma resume_app st o o' rest :
  resume st (o ++ o') rest = let '(s, r) := resume st o' rest in (s, o ++ r).
Proof.
  unfold resume. repeat case_match; simplify_eq; by rewrite ?app_assoc.
Qed.
Lemma resume_live st o rest : live st = true → resume st o rest = let '(s, r) := feed st rest in (s, o ++ r).
Proof. unfold resume. by intros ->. Qed.
Lemma set_command_live st : live (set_command PADDING_HEADER_SIZE st) = true.
Proof. done. Qed.

(** Many bytes of content, or of padding, at once. *)
Lemma feed_content st x rest :
  remaining_command st <= 0 → x ≠ [] → len x <= remaining_content st →
  feed st (x ++ rest) = resume (set_counts (remaining_content st - len x) (remaining_padding st) st) x rest.
Proof.
  revert st. induction x as [|b x IH]; intros st Hr Hx Hl; first done. cbn [app]. rewrite feed_cons.
  unfold byte_turn. rewrite (proj2 (Z.ltb_ge _ _)) by lia.
  assert (len (b :: x) = 1 + len x) as E by (unfold len; cbn [length]; lia). rewrite E in *.
  pose proof (len_nonneg x). rewrite (proj2 (Z.ltb_lt _ _)) by lia. cbn [fst snd].
  set (st1 := set_counts (remaining_content st - 1) (remaining_padding st) st).
  destruct x as [|c x]; first by rewrite Z.add_0_r.
  assert (live st1 = true) as Hlive.
  { unfold live, st1. cbn. unfold len in *. cbn [length] in *. rewrite (proj2 (Z.ltb_lt 0 (remaining_content st - 1))) by lia.
    by rewrite orb_true_r. }
  rewrite resume_live by done. rewrite IH; [|done|done|cbn; lia].
  change (b :: c :: x) with ([b] ++ (c :: x)). rewrite resume_app. cbn [app].
  replace (set_counts (remaining_content st1 - len (c :: x)) (remaining_padding st1) st1)
    with (set_counts (remaining_content st - (1 + len (c :: x))) (remaining_padding st) st); first done.
  unfold st1, set_counts. cbn. f_equal. lia.
Qed.
Lemma feed_padding st x rest :
  remaining_command st <= 0 → remaining_content st <= 0 → x ≠ [] → len x <= remaining_padding st →
  feed st (x ++ rest) = resume (set_counts (remaining_content st) (remaining_padding st - len x) st) [] rest.
Proof.
  revert st. induction x as [|b x IH]; intros st Hr Hc Hx Hl; first done. cbn [app]. rewrite feed_cons.
  unfold byte_turn. rewrite !(proj2 (Z.ltb_ge _ _)) by lia. cbn [fst snd].
  assert (len (b :: x) = 1 + len x) as E by (unfold len; cbn [length]; lia). rewrite E in *.
  set (st1 := set_counts (remaining_content st) (remaining_padding st - 1) st).
  destruct x as [|c x]; first by rewrite Z.add_0_r.
  assert (live st1 = true) as Hlive.
  { unfold live, st1. cbn. unfold len in *. cbn [length] in *. rewrite (proj2 (Z.ltb_lt 0 (remaining_padding st - 1))) by lia.
    by rewrite orb_true_r. }
  rewrite resume_live by done. rewrite IH; [|done|done|done|cbn; lia].
  replace (set_counts (remaining_content st1) (remaining_padding st1 - len (c :: x)) st1)
    with (set_counts (remaining_content st) (remaining_padding st - (1 + len (c :: x))) st).
  - by destruct (resume _ _ _).
  - unfold st1, set_counts. cbn. f_equal. lia.
Qed.

(** The loop of the source is the byte machine. *)
Lemma unpad_turn_feed st b buf :
  live st = true →
  let '(st1, rest, o) := unpad_turn st (b :: buf) in
  feed st (b :: buf) = resume st1 o rest ∧ (length rest < length (b :: buf))%nat.
Proof.
  intros Hl. unfold unpad_turn. destruct (Z.ltb_spec 0 (remaining_command st)) as [Hr|Hr].
  { split; [|rewrite length_drop; cbn [length]; lia]. rewrite feed_cons. unfold byte_turn. by rewrite (proj2 (Z.ltb_lt _ _)). }
  destruct (Z.ltb_spec 0 (remaining_content st)) as [Hc|Hc].
  - set (k := (Z.to_nat (remaining_content st) `min` length (b :: buf))%nat).
    assert ((0 < k <= length (b :: buf))%nat ∧ Z.of_nat k <= remaining_content st) as [Hk Hkr]
      by (unfold k; cbn [length]; lia). clearbody k.
    split; [|rewrite length_drop; cbn [length] in *; lia].
    rewrite <- (take_drop k (b :: buf)) at 1. rewrite feed_content.
    + unfold len. rewrite length_take. by replace (Nat.min k (length (b :: buf))) with k by lia.
    + lia.
    + destruct k; [lia|done].
    + unfold len. rewrite length_take. lia.
  - assert (0 < remaining_padding st) as Hp.
    { unfold live in Hl. rewrite !(proj2 (Z.ltb_ge _ _)) in Hl by lia. by apply Z.ltb_lt in Hl. }
    rewrite (proj2 (Z.ltb_lt _ _)) by done.
    set (k := (Z.to_nat (remaining_padding st) `min` length (b :: buf))%nat).
    assert ((0 < k <= length (b :: buf))%nat ∧ Z.of_nat k <= remaining_padding st) as [Hk Hkr]
      by (unfold k; cbn [length]; lia). clearbody k.
    split; [|rewrite length_drop; cbn [length] in *; lia].
    rewrite <- (take_drop k (b :: buf)) at 1. rewrite feed_padding.
    + unfold len. rewrite length_take. by replace (Nat.min k (length (b :: buf))) with k by lia.
    + lia.
    + lia.
    + destruct k; [lia|done].
    + unfold len. rewrite length_take. lia.
Qed.

Lemma unpad_loop_feed fuel : ∀ st buf out, live st = true → (length buf < fuel)%nat →
  unpad_loop fuel st buf out = let '(st', o) := feed st buf in (st', [], out ++ o).
Proof.
  induction fuel as [|fuel IH]; intros st buf out Hl Hf; first lia. cbn [unpad_loop].
  destruct buf as [|b buf]; first by cbn [feed]; rewrite app_nil_r.
  pose proof (unpad_turn_feed st b buf Hl) as H. destruct (unpad_turn st (b :: buf)) as [[st1 rest] o].
  destruct H as [-> Hlen]. unfold resume. destruct (live st1) eqn:E1; cbn [negb].
  - rewrite IH by (done || lia). destruct (feed st1 rest). by rewrite app_assoc.
  - destruct (current_command st1 =? COMMAND_PADDING_CONTINUE).
    + rewrite IH by (done || lia). destruct (feed _ rest). by rewrite app_assoc.
    + by rewrite app_assoc.
Qed.

Lemma feed_app st a b : live st = true →
  feed st (a ++ b) = let '(st1, o1) := feed st a in
    if live st1 then let '(s, o2) := feed st1 b in (s, o1 ++ o2) else (st1, o1 ++ b).
Proof.
  revert st. induction a as [|x a IH]; intros st Hl.
  { cbn [feed app]. rewrite Hl. by destruct (feed st b). }
  cbn [app]. rewrite !feed_cons. destruct (byte_turn st x) as [st1 o]. cbn [fst snd]. unfold resume.
  destruct (live st1) eqn:E1; [|destruct (current_command st1 =? COMMAND_PADDING_CONTINUE)].
  - rewrite (IH st1 E1). destruct (feed st1 a) as [s1 o1]. destruct (live s1); [|by rewrite app_assoc].
    destruct (feed s1 b). by rewrite app_assoc.
  - rewrite (IH _ (set_command_live st1)). destruct (feed _ a) as [s1 o1]. destruct (live s1); [|by rewrite app_assoc].
    destruct (feed s1 b). by rewrite app_assoc.
  - by rewrite app_assoc.
Qed.

(** ** Frames *)

Definition frame_bytes (cmd : Z) (data pad : bytes) : bytes :=
  [byte_of_Z cmd] ++ to_be_bytes 2 (len data) ++ to_be_bytes 2 (len pad) ++ data ++ pad.
Definition at_header (st : ReadState) : Prop :=
  remaining_command st = 5 ∧ remaining_content st <= 0 ∧ remaining_padding st <= 0.

Lemma lor_be2 a b : Z.lor (Z.shiftl (byte_to_Z a) 8) (byte_to_Z b) = from_be_bytes [a; b].
Proof.
  pose proof (byte_to_Z_range b). rewrite Z.shiftl_mul_pow2, Z.lor_comm, lor_add by lia.
  unfold from_be_bytes. cbn [fold_left]. lia.
Qed.

Lemma resume_quiet st rest : live st = true → resume st [] rest = feed st rest.
Proof. intros Hl. rewrite resume_live by done. by destruct (feed st rest). Qed.
Lemma feed_header_bytes st k n1 n0 m1 m0 rest :
  at_header st →
  feed st (k :: n1 :: n0 :: m1 :: m0 :: rest)
  = resume (mkRead (within_padding st) 0 (from_be_bytes [n1; n0]) (from_be_bytes [m1; m0]) (byte_to_Z k)
              (first_packet st) (direct_copy st)) [] rest.
Proof.
  intros (H5&_&_). destruct st as [w r c p cur f d]. cbn [remaining_command] in H5. subst r.
  rewrite <- !lor_be2.
  do 4 (rewrite feed_cons; rewrite resume_quiet by done).
  by rewrite feed_cons.
Qed.
Lemma feed_header st cmd n m rest :
  at_header st → u8_ok cmd → u16_ok n → u16_ok m →
  feed st ([byte_of_Z cmd] ++ to_be_bytes 2 n ++ to_be_bytes 2 m ++ rest)
  = resume (mkRead (within_padding st) 0 n m cmd (first_packet st) (direct_copy st)) [] rest.
Proof.
  intros Hh Hc Hn Hm. etrans; first exact (feed_header_bytes st _ _ _ _ _ rest Hh).
  pose proof (from_to_be_2 n Hn) as En. pose proof (from_to_be_2 m Hm) as Em. cbn [to_be_bytes] in En, Em.
  by rewrite En, Em, byte_to_of_small.
Qed.

(** The content and padding that a header announced. *)
Lemma resume_block st data pad rest :
  remaining_command st = 0 → remaining_content st = len data → remaining_padding st = len pad →
  resume st [] (data ++ pad ++ rest) = resume (set_counts 0 0 st) data rest.
Proof.
  intros Hr Hc Hp.
  assert (∀ s, remaining_command s = 0 → remaining_content s = 0 → remaining_padding s = len pad →
    ∀ o, resume s o (pad ++ rest) = resume (set_counts 0 0 s) o rest) as Hpad.
  { intros s Hsr Hsc Hsp o. destruct pad as [|b pad].
    { destruct s. cbn in *. by subst. }
    assert (live s = true) as Hl
      by (unfold live; rewrite Hsr, Hsc, Hsp; unfold len; cbn [length]; rewrite (proj2 (Z.ltb_lt 0 (Z.of_nat (S (length pad))))) by lia; done).
    rewrite resume_live, feed_padding by (done || lia). 
    transitivity (resume (set_counts 0 0 s) (o ++ []) rest); [|by rewrite app_nil_r]. rewrite resume_app.
    replace (set_counts (remaining_content s) (remaining_padding s - len (b :: pad)) s) with (set_counts 0 0 s); first done.
    rewrite Hsc, Hsp, Z.sub_diag. done. }
  destruct data as [|b data].
  { cbn [app]. by rewrite Hpad. }
  assert (live st = true) as Hl
    by (unfold live; rewrite Hr, Hc; unfold len; cbn [length]; rewrite (proj2 (Z.ltb_lt 0 (Z.of_nat (S (length data))))) by lia; done).
  rewrite resume_live, feed_content by (done || lia). rewrite Hpad; cbn; [|done|lia|done].
  by destruct (resume _ _ _).
Qed.

Lemma feed_frame st cmd data pad rest :
  at_header st → u8_ok cmd → u16_ok (len data) → u16_ok (len pad) →
  feed st (frame_bytes cmd data pad ++ rest) =
    resume (mkRead (within_padding st) 0 0 0 cmd (first_packet st) (direct_copy st)) data rest.
Proof.
  intros Hh Hc Hd Hp. unfold frame_bytes. rewrite <- !app_assoc.
  rewrite feed_header by done. by rewrite resume_block.
Qed.

(** ** The writer *)

Lemma calculate_padding_range n long r : 0 <= n → 0 <= calculate_padding n long r <= 2027.
Proof. intros Hn. unfold calculate_padding, BUF_SIZE, PADDING_HEADER_SIZE, UUID_SIZE. destruct (_ && _); lia. Qed.

Record write := mkWrite { w_data : bytes; w_random : Z; w_noise : nat → bytes }.
Definition write_ok (w : write) : Prop := len (w_data w) <= 2027 ∧ ∀ n, length (w_noise w n) = n.

(** The wire after a run of writes that the inner stream accepts in full. *)
Fixpoint write_stream (ws : list write) (v : VisionStream) : bytes * VisionStream :=
  match ws with
  | [] => ([], v)
  | w :: ws =>
      let '(_, out, v1) := poll_write (w_data w) (w_random w) (w_noise w) (fun b => Accepts (length b)) 0 v in
      let '(rest, v2) := write_stream ws v1 in (out ++ rest, v2)
  end.
Definition plain (ws : list write) : bytes := concat (w_data <$> ws).

Lemma filter_keeps d v :
  user_uuid (filter_tls d v) = user_uuid v ∧ write_padding_active (filter_tls d v) = write_padding_active v
  ∧ write_first_packet (filter_tls d v) = write_first_packet v
  ∧ read_state (filter_tls d v) = read_state v ∧ read_buf (filter_tls d v) = read_buf v.
Proof. unfold filter_tls. by repeat case_match. Qed.

(** One padded write: a frame, behind the UUID when it is the first, and the
    writer goes on padding unless the frame was the last padded one. *)
Lemma poll_write_frame w v :
  write_ok w → write_padding_active v = true →
  ∃ cmd pad v', poll_write (w_data w) (w_random w) (w_noise w) (fun b => Accepts (length b)) 0 v
    = (Wrote (length (w_data w)), (if write_first_packet v then user_uuid v else []) ++ frame_bytes cmd (w_data w) pad, v')
  ∧ user_uuid v' = user_uuid v ∧ write_first_packet v' = false ∧ u16_ok (len pad)
  ∧ ((cmd = 0 ∧ write_padding_active v' = true) ∨ (cmd = 2 ∧ write_padding_active v' = false)).
Proof.
  intros [Hd Hn] Ha. unfold poll_write. rewrite Ha. cbn [negb].
  set (v1 := if 0 <? packets_filtered v then filter_tls (w_data w) v else v).
  assert (user_uuid v1 = user_uuid v ∧ write_padding_active v1 = true ∧ write_first_packet v1 = write_first_packet v) as (Hu&Hact&Hf).
  { unfold v1. destruct (0 <? packets_filtered v); [|done].
    destruct (filter_keeps (w_data w) v) as (->&->&->&_). done. }
  rewrite take_ge by (unfold len, BUF_SIZE, PADDING_HEADER_SIZE, UUID_SIZE in *; lia).
  unfold build_padded_frame. rewrite Hact, Hf, Hu.
  set (direct := is_tls_application_data (w_data w) && enable_xtls v1).
  set (p := calculate_padding (len (w_data w)) (if direct then false else true) (w_random w)).
  pose proof (calculate_padding_range (len (w_data w)) (if direct then false else true) (w_random w) (len_nonneg _)) as Hp. fold p in Hp.
  rewrite Nat.leb_refl. pose proof (len_nonneg (w_data w)).
  exists (if direct then 2 else 0), (w_noise w (Z.to_nat p)), (set_write (if direct then false else true) false v1).
  assert (len (w_noise w (Z.to_nat p)) = p) as Hnp by (unfold len; rewrite Hn; lia).
  rewrite Hnp. split; [|split; [done|split; [done|split; [unfold in_width; lia|]]]].
  - unfold frame_bytes. rewrite Hnp, !wrap_small by (unfold in_width; lia). by destruct direct.
  - destruct direct; [by right|by left].
Qed.

Definition settled (s : ReadState) : Prop := live s = true ∨ (direct_copy s = true ∧ within_padding s = false).

Lemma write_stream_raw ws v : write_padding_active v = false → write_stream ws v = (plain ws, v).
Proof.
  intros Ha. induction ws as [|w ws IH]; first done. cbn [write_stream]. unfold poll_write. rewrite Ha. cbn [negb].
  rewrite IH. by rewrite take_ge.
Qed.
(** The wire is the UUID, once there is anything to write, and then bytes that
    the machine turns back into what was written. *)
Lemma write_stream_feed ws : ∀ v st, Forall write_ok ws →
  write_padding_active v = true → at_header st → within_padding st = true →
  ∃ s wire, (write_stream ws v).1
      = match ws with [] => [] | _ => if write_first_packet v then user_uuid v else [] end ++ wire
    ∧ feed st wire = (s, plain ws) ∧ settled s.
Proof.
  induction ws as [|w ws IH]; intros v st Hws Ha Hh Hw.
  { exists st, []. split; [done|split; [done|]]. left. unfold live. by rewrite (proj1 Hh). }
  apply Forall_cons in Hws as [Hw1 Hws]. destruct (poll_write_frame w v Hw1 Ha) as (cmd&pad&v'&E&_&Hf'&Hpad&Hcmd).
  cbn [write_stream]. rewrite E.
  assert (u16_ok (len (w_data w))) as Hd by (destruct Hw1; pose proof (len_nonneg (w_data w)); unfold in_width; lia).
  destruct (write_stream ws v') as [rest v2] eqn:Er. cbn [fst].
  enough (∃ s, feed st (frame_bytes cmd (w_data w) pad ++ rest) = (s, plain (w :: ws)) ∧ settled s) as (s&Hs&Hset).
  { exists s, (frame_bytes cmd (w_data w) pad ++ rest). by rewrite app_assoc. }
  rewrite feed_frame by (done || (destruct Hcmd as [[-> _]|[-> _]]; done)).
  destruct Hcmd as [[-> Ha']|[-> Ha']]; unfold resume;
    cbn [live remaining_command remaining_content remaining_padding Z.ltb Z.compare orb current_command Z.eqb COMMAND_PADDING_CONTINUE].
  - destruct (IH v' (set_command PADDING_HEADER_SIZE (mkRead (within_padding st) 0 0 0 0 (first_packet st) (direct_copy st))))
      as (s&wire&Hwire&Hs&Hset); [done|done|split; [done|cbn; lia]|done|].
    rewrite Er, Hf' in Hwire. cbn [fst] in Hwire.
    assert (rest = wire) as -> by (rewrite Hwire; by destruct ws). rewrite Hs. by exists s.
  - rewrite (write_stream_raw ws v' Ha') in Er. injection Er as <- <-. eexists. split; [done|]. by right.
Qed.

(** ** The reader *)

Lemma feed_length st buf : (length (feed st buf).2 <= length buf)%nat.
Proof.
  revert st. induction buf as [|b buf IH]; intros st; first done. rewrite feed_cons.
  assert (length (byte_turn st b).2 <= 1)%nat as H1 by (unfold byte_turn; by repeat case_match; cbn; lia).
  destruct (byte_turn st b) as [st1 o]. cbn [fst snd] in *. unfold resume.
  destruct (live st1); [|destruct (current_command st1 =? COMMAND_PADDING_CONTINUE)].
  - specialize (IH st1). destruct (feed st1 buf). cbn [snd length] in *. rewrite length_app. lia.
  - specialize (IH (set_command PADDING_HEADER_SIZE st1)). destruct (feed _ buf). cbn [snd length] in *. rewrite length_app. lia.
  - cbn [snd length]. rewrite length_app. lia.
Qed.
(** Until it finishes, the machine does not change mode. *)
Lemma feed_mode st buf : live st = true → within_padding st = true → direct_copy st = false →
  live (feed st buf).1 = true → within_padding (feed st buf).1 = true ∧ direct_copy (feed st buf).1 = false.
Proof.
  revert st. induction buf as [|b buf IH]; intros st Hl Hw Hd; first done. rewrite feed_cons.
  assert (within_padding (byte_turn st b).1 = true ∧ direct_copy (byte_turn st b).1 = false) as [Hw1 Hd1]
    by (unfold byte_turn; by repeat case_match).
  destruct (byte_turn st b) as [st1 o]. cbn [fst snd] in *. unfold resume.
  destruct (live st1) eqn:E; [|destruct (current_command st1 =? COMMAND_PADDING_CONTINUE)].
  - specialize (IH st1 E Hw1 Hd1). by destruct (feed st1 buf).
  - specialize (IH (set_command PADDING_HEADER_SIZE st1) eq_refl Hw1 Hd1). by destruct (feed _ buf).
  - done.
Qed.

Lemma live_not_initial st : live st = true →
  ((remaining_command st =? -1) && (remaining_content st =? -1) && (remaining_padding st =? -1)) = false.
Proof.
  unfold live. intros H. destruct (Z.eqb_spec (remaining_command st) (-1)) as [E1|]; [|done].
  destruct (Z.eqb_spec (remaining_content st) (-1)) as [E2|]; [|done].
  destruct (Z.eqb_spec (remaining_padding st) (-1)) as [E3|]; [|done]. by rewrite E1, E2, E3 in H.
Qed.
Lemma unpad_data_live v : live (read_state v) = true →
  unpad_data v = let '(st, o) := feed (read_state v) (read_buf v) in (o, set_read st [] v).
Proof.
  intros Hl. unfold unpad_data. rewrite live_not_initial by done.
  rewrite unpad_loop_feed by (done || lia). by destruct (feed _ _).
Qed.

(** A reader in the middle of the padded part, nothing buffered. *)
Definition padding_reader (v : VisionStream) : Prop :=
  live (read_state v) = true ∧ within_padding (read_state v) = true
  ∧ direct_copy (read_state v) = false ∧ read_buf v = [].

Lemma poll_read_padded room chunk v :
  padding_reader v → chunk ≠ [] → (length chunk <= room)%nat → len chunk <= 4096 →
  ∃ v', poll_read room (fun n => Arrives (take n chunk)) v = (Data (feed (read_state v) chunk).2, v')
    ∧ read_state v' = (feed (read_state v) chunk).1 ∧ read_buf v' = [].
Proof.
  intros (Hl&Hw&Hd&Hb) Hc Hroom Hlen. unfold poll_read. rewrite Hd, Hb. cbn [andb].
  rewrite bool_decide_true by done. cbn [negb andb].
  rewrite take_ge by (unfold len, BUF_SIZE in *; lia). destruct chunk as [|b chunk]; first done.
  set (v1 := if 0 <? packets_filtered v then _ else v).
  assert (read_state v1 = read_state v ∧ read_buf v1 = []) as [Hs1 Hb1].
  { unfold v1. destruct (0 <? _); [|done]. destruct (filter_keeps (b :: chunk) v) as (_&_&_&->&->). done. }
  rewrite Hs1, Hw, Hb1. cbn [negb app]. rewrite unpad_data_live by done. cbn [read_state set_read read_buf].
  pose proof (feed_length (read_state v) (b :: chunk)) as Hfl.
  destruct (feed (read_state v) (b :: chunk)) as [st o]. cbn [fst snd] in *.
  rewrite Nat.min_l by lia. rewrite Nat.ltb_irrefl, take_ge by done. by eexists.
Qed.
Lemma poll_read_direct room chunk v :
  direct_copy (read_state v) = true → within_padding (read_state v) = false → (length chunk <= room)%nat →
  poll_read room (fun n => Arrives (take n chunk)) v = (Data chunk, v).
Proof. intros Hd Hw Hr. unfold poll_read. rewrite Hd, Hw. cbn [negb andb]. by rewrite take_ge. Qed.

(** A run of polls, each with a chunk that has arrived, by a caller that polls on
    when a poll is ready without bytes. *)
Fixpoint read_stream (polls : list (nat * bytes)) (v : VisionStream) : bytes * VisionStream :=
  match polls with
  | [] => ([], v)
  | (room, chunk) :: polls =>
      let '(r, v1) := poll_read room (fun n => Arrives (take n chunk)) v in
      let '(out, v2) := read_stream polls v1 in
      (match r with Data d => d | ReadPending => [] end ++ out, v2)
  end.
(** The same by a caller that takes a poll without bytes for the end of the
    stream, as readers of an [AsyncRead] do; [false] when it stopped there. *)
Fixpoint read_to_end (polls : list (nat * bytes)) (v : VisionStream) : bytes * bool :=
  match polls with
  | [] => ([], true)
  | (room, chunk) :: polls =>
      match poll_read room (fun n => Arrives (take n chunk)) v with
      | (Data [], _) => ([], false)
      | (Data d, v1) => let '(out, all) := read_to_end polls v1 in (d ++ out, all)
      | (ReadPending, v1) => read_to_end polls v1
      end
  end.
Lemma read_to_end_prefix polls v :
  (read_to_end polls v).1 `prefix_of` (read_stream polls v).1
  ∧ ((read_to_end polls v).2 = true → (read_to_end polls v).1 = (read_stream polls v).1).
Proof.
  revert v. induction polls as [|[room chunk] polls IH]; intros v; cbn [read_to_end read_stream]; [by split|].
  destruct (poll_read room _ v) as [[[|b d]|] v1].
  - split; [apply prefix_nil|done].
  - destruct (IH v1) as [H1 H2]. destruct (read_to_end polls v1) as [out all], (read_stream polls v1) as [out' v2].
    cbn [fst snd] in *. split; [by apply prefix_app|]. intros Ha. by rewrite H2.
  - destruct (IH v1) as [H1 H2]. destruct (read_stream polls v1) as [out' v2]. by split.
Qed.
Definition poll_ok (p : nat * bytes) : Prop := p.2 ≠ [] ∧ (length p.2 <= p.1)%nat ∧ len p.2 <= 4096.
Definition arrived (polls : list (nat * bytes)) : bytes := concat (snd <$> polls).

Lemma read_stream_direct polls v : Forall poll_ok polls →
  direct_copy (read_state v) = true → within_padding (read_state v) = false →
  read_stream polls v = (arrived polls, v).
Proof.
  intros Hp Hd Hw. induction Hp as [|[room chunk] polls (Hc&Hr&Hl) _ IH]; first done. cbn [read_stream].
  rewrite poll_read_direct by done. by rewrite IH.
Qed.
Lemma read_stream_padded polls : ∀ v, Forall poll_ok polls → padding_reader v →
  settled (feed (read_state v) (arrived polls)).1 →
  (read_stream polls v).1 = (feed (read_state v) (arrived polls)).2.
Proof.
  induction polls as [|[room chunk] polls IH]; intros v Hp Hv Hset; first done.
  apply Forall_cons in Hp as [(Hc&Hr&Hl) Hp]. cbn [read_stream].
  destruct (poll_read_padded room chunk v Hv Hc Hr Hl) as (v1&E&Hs1&Hb1). rewrite E. clear E.
  change (arrived ((room, chunk) :: polls)) with (chunk ++ arrived polls) in *.
  destruct Hv as (Hlive&Hw&Hd&_). rewrite (feed_app _ chunk) in * by done.
  pose proof (feed_mode (read_state v) chunk Hlive Hw Hd) as Hmode.
  destruct (feed (read_state v) chunk) as [st1 o1]. cbn [fst snd] in *.
  destruct (live st1) eqn:El.
  - destruct (Hmode eq_refl) as [Hw1 Hd1]. specialize (IH v1). rewrite Hs1 in IH.
    destruct (feed st1 (arrived polls)) as [s o2]. cbn [fst snd] in *.
    destruct (read_stream polls v1) as [out v2]. cbn [fst] in *. rewrite IH; [done|done| |done].
    by repeat split; rewrite ?Hs1.
  - cbn [fst snd] in *. destruct Hset as [Hx|[Hd1 Hw1]]; [by rewrite El in Hx|].
    by rewrite read_stream_direct by (done || by rewrite Hs1).
Qed.

(** The first poll finds the UUID. *)
Definition header_state : ReadState := mkRead true 5 (-1) (-1) 0 false false.
Lemma poll_read_first room chunk u :
  (21 <= length chunk)%nat → take 16 chunk = u → (length chunk <= room)%nat → len chunk <= 4096 →
  ∃ v', poll_read room (fun n => Arrives (take n chunk)) (vision_new u) = (Data (feed header_state (drop 16 chunk)).2, v')
    ∧ read_state v' = (feed header_state (drop 16 chunk)).1 ∧ read_buf v' = [].
Proof.
  intros Hc Hu Hroom Hlen. unfold poll_read, vision_new. cbn [read_state read_state_new direct_copy within_padding read_buf andb negb].
  rewrite bool_decide_true by done. cbn [negb andb].
  rewrite take_ge by (unfold len, BUF_SIZE in *; lia). destruct chunk as [|b chunk]; first (cbn [length] in Hc; lia).
  set (v0 := mkVision u true true read_state_new [] PACKETS_TO_FILTER false (-1) 0).
  set (v1 := if 0 <? packets_filtered v0 then _ else v0).
  assert (read_state v1 = read_state_new ∧ read_buf v1 = [] ∧ user_uuid v1 = u) as (Hs1&Hb1&Hu1).
  { unfold v1. destruct (filter_keeps (b :: chunk) v0) as (?&?&?&?&?). by case_match. }
  rewrite Hs1, Hb1. cbn [read_state_new within_padding negb app]. unfold unpad_data.
  cbn [set_read read_state read_buf remaining_command remaining_content remaining_padding Z.eqb Pos.eqb andb first_packet user_uuid].
  rewrite Hu1, (proj2 (Nat.leb_le _ _)), bool_decide_true by (done || (unfold UUID_SIZE; lia)). cbn [andb].
  rewrite unpad_loop_feed by (done || lia). change (mkRead _ PADDING_HEADER_SIZE (-1) (-1) _ false _) with header_state.
  change (drop UUID_SIZE (b :: chunk)) with (drop 16 (b :: chunk)).
  pose proof (feed_length header_state (drop 16 (b :: chunk))) as Hfl. rewrite length_drop in Hfl.
  destruct (feed header_state (drop 16 (b :: chunk))) as [st o].
  cbn [fst snd app read_state_new remaining_command remaining_content remaining_padding Z.eqb Pos.eqb andb first_packet] in *.
  rewrite Nat.min_l by lia. rewrite Nat.ltb_irrefl, take_ge by done. by eexists.
Qed.

(** ** Properties *)

(** C19: padding is transparent over an inner stream that takes every frame whole.
    Whatever is written in pieces of at most the 2027 bytes that one poll takes (TLS
    handshake records padded, everything after the first application-data record of
    a supported session raw) is what the peer's vision stream gives out, however the
    network cuts the wire into chunks, provided that the first chunk holds the
    identifier and the first header (21 bytes), that no chunk exceeds the reader's
    4096-byte buffer, that each read has room for the chunk it gets, and that the
    reader polls on after a poll that is ready without bytes.  A reader that takes
    such a poll for the end of the stream gets a prefix of what was written, and all
    of it if no poll was without bytes. *)
Theorem vision_transparent u ws polls :
  length u = 16%nat → Forall write_ok ws → Forall poll_ok polls →
  arrived polls = (write_stream ws (vision_new u)).1 →
  match polls with [] => True | (_, c) :: _ => (21 <= length c)%nat end →
  (read_stream polls (vision_new u)).1 = plain ws
  ∧ (read_to_end polls (vision_new u)).1 `prefix_of` plain ws
  ∧ ((read_to_end polls (vision_new u)).2 = true → (read_to_end polls (vision_new u)).1 = plain ws).
Proof.
  intros Hu Hws Hp Hwire Hfirst. destruct (read_to_end_prefix polls (vision_new u)) as [Hpre Hall].
  cut ((read_stream polls (vision_new u)).1 = plain ws); [intros E; rewrite E in *; by split_and!|]. clear Hpre Hall.
  destruct (write_stream_feed ws (vision_new u) header_state) as (s&wire&Ew&Hs&Hset);
    [done|done|split; [done|cbn; lia]|done|].
  rewrite Ew in Hwire. cbn [vision_new write_first_packet user_uuid] in Hwire.
  destruct polls as [|[room c] polls].
  { destruct ws as [|w ws]; first done. cbn in Hwire. destruct u; [done|discriminate Hwire]. }
  apply Forall_cons in Hp as [(_&Hr&Hl) Hp]. cbn [fst snd] in *.
  change (arrived ((room, c) :: polls)) with (c ++ arrived polls) in Hwire.
  destruct ws as [|w ws].
  { cbn [app feed] in *. assert (wire = []) as ->.
    { assert ((write_stream [] (vision_new u)).1 = []) as E0 by done. rewrite Ew in E0. done. }
    by destruct c; [cbn [length] in Hfirst; lia|discriminate Hwire]. }
  assert (take 16 c = u ∧ drop 16 c ++ arrived polls = wire) as [Ht Hd].
  { rewrite <- (take_drop 16 c), <- app_assoc in Hwire. apply app_inj_1 in Hwire; first done.
    rewrite length_take. lia. }
  cbn [read_stream]. destruct (poll_read_first room c u Hfirst Ht Hr Hl) as (v1&E&Hs1&Hb1). rewrite E. clear E.
  rewrite <- Hd, feed_app in Hs by done. pose proof (feed_mode header_state (drop 16 c) eq_refl eq_refl eq_refl) as Hm.
  destruct (feed header_state (drop 16 c)) as [st1 o1]. cbn [fst snd] in *. destruct (live st1) eqn:El.
  - destruct (Hm eq_refl) as [Hw1 Hd1]. pose proof (read_stream_padded polls v1 Hp) as Hrs. rewrite Hs1 in Hrs.
    destruct (feed st1 (arrived polls)) as [s2 o2]. injection Hs as -> <-.
    destruct (read_stream polls v1) as [out v2]. cbn [fst snd] in *. rewrite Hrs; [done| |done].
    by repeat split; rewrite ?Hs1.
  - injection Hs as -> <-. destruct Hset as [Hx|[Hd1 Hw1]]; [by rewrite El in Hx|].
    by rewrite read_stream_direct by (done || by rewrite Hs1).
Qed.

Definition sample_writes : list write :=
  [mkWrite [Byte.x41; Byte.x42] 1 (fun n => replicate n Byte.x00); mkWrite [Byte.x43] 2 (fun n => replicate n Byte.x01)].
Definition sample_uuid : bytes := replicate 16 Byte.x07.
(** The wire in chunks of 100 bytes. *)
Fixpoint chop (fuel : nat) (l : bytes) : list (nat * bytes) :=
  match fuel, l with
  | S fuel, _ :: _ => (100%nat, take 100 l) :: chop fuel (drop 100 l)
  | _, _ => []
  end.
Lemma vision_transparent_witness :
  (read_stream (chop 100 (write_stream sample_writes (vision_new sample_uuid)).1) (vision_new sample_uuid)).1
  = [Byte.x41; Byte.x42; Byte.x43].
Proof.
  refine (proj1 (vision_transparent sample_uuid sample_writes _ _ _ _ _ _)).
  - reflexivity.
  - repeat constructor; try (intros n; apply length_replicate); vm_compute; discriminate.
  - vm_compute. repeat constructor; discriminate.
  - vm_compute. reflexivity.
  - vm_compute. repeat constructor.
Defined.

(** ** Where it is not *)

(** Cut into chunks of 100 bytes, the same wire has a chunk of padding only: a
    reader that takes the poll without bytes for the end misses the second write. *)
Example vision_empty_poll_ends :
  read_to_end (chop 100 (write_stream sample_writes (vision_new sample_uuid)).1) (vision_new sample_uuid)
  = ([Byte.x41; Byte.x42], false).
Proof. vm_compute. reflexivity. Qed.

(** A read with less room than the content of a frame corrupts the stream: the bytes that did not fit go back into the buffer of still padded bytes with the machine waiting for a header, so that the next poll takes them for one. *)
Theorem vision_short_read_corrupts room data pad v :
  padding_reader v → at_header (read_state v) → (0 < room < length data)%nat →
  u16_ok (len pad) → len (frame_bytes 0 data pad) <= 4096 →
  ∃ v', poll_read room (fun n => Arrives (take n (frame_bytes 0 data pad))) v = (Data (take room data), v')
    ∧ read_buf v' = drop room data ∧ at_header (read_state v').
Proof.
  intros (Hl&Hw&Hd&Hb) Hh Hroom Hpad Hlen. unfold poll_read. rewrite Hd, Hb. cbn [andb].
  rewrite bool_decide_true by done. cbn [negb andb].
  assert (length data <= length (frame_bytes 0 data pad))%nat as Hdl
    by (unfold frame_bytes; rewrite !length_app; lia).
  assert (u16_ok (len data)) as Hud by (unfold in_width, len in *; lia).
  rewrite take_ge by (unfold len, BUF_SIZE in *; lia).
  destruct (frame_bytes 0 data pad) as [|b chunk] eqn:Ef; first (cbn [length] in Hdl; lia).
  set (v1 := if 0 <? packets_filtered v then _ else v).
  assert (read_state v1 = read_state v ∧ read_buf v1 = []) as [Hs1 Hb1].
  { unfold v1. destruct (0 <? _); [|done]. destruct (filter_keeps (b :: chunk) v) as (_&_&_&->&->). done. }
  rewrite Hs1, Hw, Hb1. cbn [negb app]. rewrite unpad_data_live by done. cbn [read_state set_read read_buf].
  rewrite <- Ef, <- (app_nil_r (frame_bytes 0 data pad)).
  rewrite feed_frame by done.
  cbn [resume live remaining_command remaining_content remaining_padding Z.ltb Z.compare orb current_command Z.eqb COMMAND_PADDING_CONTINUE feed].
  rewrite app_nil_r, Nat.min_r by lia. rewrite (proj2 (Nat.ltb_lt _ _)) by lia. eexists. split; [done|].
  cbn. rewrite app_nil_r. split; [done|]. split; [done|cbn; lia].
Qed.

(** Bytes of a peer that does not pad are lost when the caller's buffer is smaller than what arrived: the rest of the chunk is dropped, nothing is kept for the next poll. *)
Theorem vision_raw_read_truncates room chunk v :
  direct_copy (read_state v) = false → within_padding (read_state v) = false → read_buf v = [] →
  chunk ≠ [] → len chunk <= 4096 → (room < length chunk)%nat →
  ∃ v', poll_read room (fun n => Arrives (take n chunk)) v = (Data (take room chunk), v')
    ∧ read_buf v' = [] ∧ read_state v' = read_state v.
Proof.
  intros Hd Hw Hb Hc Hlen Hroom. unfold poll_read. rewrite Hd, Hb. cbn [andb].
  rewrite bool_decide_true by done. cbn [negb andb].
  rewrite take_ge by (unfold len, BUF_SIZE in *; lia). destruct chunk as [|b chunk]; first done.
  set (v1 := if 0 <? packets_filtered v then _ else v).
  assert (read_state v1 = read_state v ∧ read_buf v1 = []) as [Hs1 Hb1].
  { unfold v1. destruct (0 <? _); [|done]. destruct (filter_keeps (b :: chunk) v) as (_&_&_&->&->). done. }
  rewrite Hs1, Hw. cbn [negb]. rewrite Nat.min_r by lia. by eexists.
Qed.

(** A first write that the inner stream does not accept at once loses the identifier: the frame is thrown away, the writer already counts its first packet as sent, and the frame of the next attempt starts without the identifier the peer looks for. *)
Theorem vision_blocked_write_drops_uuid u w :
  write_ok w →
  ∃ v', poll_write (w_data w) (w_random w) (w_noise w) (fun _ => Blocks) 0 (vision_new u) = (WritePending, [], v')
    ∧ (write_padding_active v' = true →
       ∃ cmd pad v'', poll_write (w_data w) (w_random w) (w_noise w) (fun b => Accepts (length b)) 0 v'
         = (Wrote (length (w_data w)), frame_bytes cmd (w_data w) pad, v'')).
Proof.
  intros Hw. unfold poll_write at 1. cbn [vision_new write_padding_active negb].
  destruct (build_padded_frame _ _ _ _) as [padded v'] eqn:E. exists v'. split; first done.
  intros Ha. destruct (poll_write_frame w v' Hw Ha) as (cmd&pad&v''&Hp&_).
  assert (write_first_packet v' = false) as Hf by (unfold build_padded_frame in E; by injection E as _ <-).
  rewrite Hf in Hp. by exists cmd, pad, v''.
Qed.
